(* ===== verification/_CoqProject ===== *)
-Q . S2P
Prelude.v
Define.v
Ports.v
Strconv.v
Bolt.v
BoltTx.v
BoltInternal.v
BoltState.v
TestRuntime.v
BoltInv.v
BoltSafe.v
BoltAdd.v
BoltRemove.v
BoltPods.v
BoltVols.v
BoltRename.v
BoltRefresh.v
BoltOps.v
Sqlite.v
SqliteState.v
StateSpec.v
SqliteInv.v
SqliteFrame.v
SqliteAbs.v
SqliteWrites.v
SqliteSaves.v
SqliteRefresh.v
SqliteReads.v
SqliteOps.v
SqliteComplete.v
Graph.v
GraphCycles.v
GraphBuild.v
GraphWalk.v
Life.v
LifeOps.v
LifeApi.v
LifeHoare.v
LifeInv.v
LifeCalls.v
LifeOrphan.v
LifeDeps.v
UnitText.v
UnitSplit.v
UnitWords.v
UnitFile.v
UnitLookup.v
UnitSpec.v
UnitParse.v
UnitValues.v
QuadletText.v
Quadlet.v
QuadletInv.v
QuadletConvert.v
QuadletUnits.v
QuadletMain.v
Locks.v
LocksMemory.v
LocksFile.v
LocksShm.v
Renumber.v
PortSpec.v
PortMap.v
Health.v
Logs.v
PropsState.v
PropsContainer.v
PropsLookup.v
PropsPods.v
PropsConfig.v
PropsGraph.v
PropsSqlite.v
PropsLife.v
PropsUnit.v
PropsQuadlet.v
PropsLocks.v
PropsPorts.v
Volumes.v
VolumeSpec.v
PropsVolumes.v
