(* ===== verification/Prelude.v ===== *)
(** * A verification of the core of podman

    Podman keeps everything it knows about containers, pods and named volumes in
    a database behind the interface [State] ([src/libpod/state.go]), changes it in the
    methods of containers, pods and volumes, which ask an OCI runtime to do the work,
    and generates systemd services from unit files (quadlet).  This development models

    - the two implementations of the interface, on the embedded key/value store bbolt
      ([src/libpod/boltdb_state.go] and [src/libpod/boltdb_state_internal.go]) and on
      SQLite ([src/libpod/sqlite_state.go] and [src/libpod/sqlite_state_internal.go]),
      every method of them;
    - the graph of dependencies by which pods are started and removed
      ([src/libpod/container_graph.go]);
    - the life cycle of containers on top of the database
      ([src/libpod/container_api.go], [src/libpod/container_internal.go],
      [src/libpod/runtime_ctr.go], [src/libpod/oci_conmon_common.go]): starting,
      stopping, restarting, pausing, cleaning up and removing, with the lock and every
      error path;
    - the lock managers ([src/libpod/lock], with the C code of the shared-memory locks),
      the choice of one, and the renumbering of locks ([src/libpod/runtime_renumber.go]);
    - the parser, printer and editor of unit files ([src/pkg/systemd/parser]), and the
      conversion of quadlet files to services ([src/pkg/systemd/quadlet],
      [src/cmd/quadlet/main.go]);
    - the port flags of the command line ([src/pkg/specgenutil/util.go]) and the port
      mappings of a new container ([src/pkg/specgen/generate/ports.go]);
    - named volumes on top of the database and the locks ([src/libpod/runtime_volume_common.go],
      [src/libpod/volume_internal.go], [src/libpod/volume_internal_common.go]);
    - the log files of containers ([src/libpod/logs]) and their health checks
      ([src/libpod/healthcheck.go]).

    The components meet where the code makes them meet: the life cycle reads and writes
    rows of the database and walks the dependency graph; renumbering uses the database
    and a lock manager, and so do volumes; quadlet reads and writes unit files.

    ** Parts of the program and where they are modelled

    - [Prelude] (this file): results and the state-and-error monad in which the
      code is written, its inversion lemmas, lists and strings.
    - [Define]: the records that are stored ([ContainerConfig], [ContainerState],
      [PodConfig], [podState], [VolumeConfig], [VolumeState], ...), the error
      sentinels and the status enumerations ([libpod/define]), the containers a
      container depends on ([Container.Dependencies]), and the resets that are
      applied after a reboot.  A field that the modelled code never looks at is
      part of one opaque field ([cc_other], [pc_other], [vc_other]).
    - [Ports]: [ocicniPortsToNetTypesPorts] ([libpod/networking_common.go]), at
      the integer widths of the source.
    - [Strconv]: decimal printing and [strconv.Atoi].
    - [Bolt], [BoltTx]: bbolt as the state uses it.  A database is a finite map
      from paths to entries; a bucket handle is a path, so handles alias as they
      do in the source.  [World] is a [BoltState] value together with the
      database file and the faults of its environment (the file cannot be
      opened, a commit fails); [Update] rolls back, [withDB] is the pair of
      [getDBCon] and the deferred [closeDBCon], with the mutex.
    - [BoltInternal]: [boltdb_state_internal.go]; the closures of a Go function
      are definitions of their own ([addContainer_tx], [removeDependency], ...).
    - [BoltState]: [boltdb_state.go], one definition per method.
    - [TestRuntime]: a concrete instance of the parameters below, used by the
      witnesses, and example objects.
    - [BoltInv]: the consistency invariant [Inv] of the database and the lemmas
      that frame it.  [BoltSafe], [BoltAdd], [BoltRemove],
      [BoltPods], [BoltVols] (with exec sessions), [BoltRename], [BoltRefresh]: for each
      operation that writes, the exact database it leaves ([added], [removed],
      [pod_added], [emptied], [renamed], ...), when it succeeds, and that the
      invariant is preserved.  [BoltOps]: the methods as one type [call], its
      interpreter [exec], the lemmas over all of them, the step relation of the system
      and reachable example states.
    - [Sqlite]: the schema of the SQLite state ([sqliteInitTables]) as a record of
      tables [Database], its foreign keys as data, immediate or deferred, the
      statements that the state issues, transactions, and [SWorld], an
      [SQLiteState] value with its file, its connection and its environment.
      [SqliteState]: one definition [SQLite_<Method>] per method.
    - [StateSpec]: an abstract specification of the interface, [spec], over maps
      of decoded objects.  [SqliteInv], [SqliteFrame], [SqliteAbs]: the foreign
      keys as an invariant, which computations keep what, the consistency [SInv]
      of a database and the abstraction [abs].  [SqliteWrites], [SqliteSaves],
      [SqliteRefresh], [SqliteReads], [SqliteOps]: that each method refines the
      specification, the step relation of the system and the abandoned transaction.
      [SqliteComplete]: that the writes the specification
      allows succeed, and [LIKE] as a prefix test.
    - [Graph]: the graph of dependencies between containers
      ([libpod/container_graph.go]): [BuildContainerGraph], [detectCycles]
      (Tarjan's algorithm with its mutable node table, index and stack), and the
      traversals [startGraph] and [removeGraph].  What a traversal does with one
      container is the class [ContainerOps].  [GraphBuild], [GraphCycles],
      [GraphWalk]: the lemmas on edges, on the algorithm and on the walks.
    - [Life]: the world of one container, the state monad with the lock, the row of
      the database and the handle, and the class [Host] of everything the methods ask
      of the machine.  [LifeOps]: [container_internal.go] and the OCI runtime.
      [LifeApi]: the exported methods and the removal.  [LifeHoare],
      [LifeInv], [LifeCalls], [LifeOrphan], [LifeDeps]: Hoare
      triples for the monad, which computations keep what, the invariants of the row,
      the discipline of the lock, histories of calls, and the dependencies.
      [PropsLife] has instances of the classes for its witnesses.
    - [UnitText]: Go strings as bytes, UTF-8 and the functions of the packages
      [strings], [unicode] and [strconv] that the parser uses.  [UnitSplit]:
      [parser/split.go]; the labels and jumps of [extractFirstWord] are one function
      [scan] over bytes.  [UnitFile], [UnitLookup]: [parser/unitfile.go]; a file has
      pointers to its groups and a map from names to the same pointers, into a heap.
      [UnitWords]: splitting undoes joining.  [UnitSpec]: a file as a list of groups,
      and that every edit refines the edit of lists.  [UnitParse]: the
      lines that the parser takes, and that it reads back what was printed.
      [UnitValues]: look-ups after edits, command lines, numbers.
    - [QuadletText]: paths, ports, sorting and formats.  [Quadlet]:
      [quadlet/quadlet.go] and [podmancmdline.go]; the service and the command line
      are the state of a conversion.  [QuadletMain]: the generator.  [QuadletInv],
      [QuadletConvert], [QuadletUnits]: what every part of a conversion keeps, the
      services it produces, published ports.
    - [Locks]: the interface of the lock managers as a class [Manager], what its comments
      promise as the class [ManagerLaws], and histories of calls.  [LocksMemory],
      [LocksFile], [LocksShm]: the three implementations; a lock is its ID, a file of a
      directory, or a bit of a word of 32 bits.  [Renumber]: [renumberLocks], on any
      lock manager and the Bolt state, and [getLockManager] of [libpod/runtime.go].
    - [PortSpec]: the parsers of [--publish] and [--expose].  [PortMap]: [ParsePortMapping]
      and [createPortMappings]; an array of 65536 flags is the set of its indices, the
      sums of ports are 16-bit sums.
    - [Health]: health checks, on the world of the life cycle; its theorem is in the same file.
    - [Logs]: lines of a log, and the tail of a file that is read backwards by pages; its
      theorems are in the same file.
    - [Volumes]: creating, mounting, removing and pruning volumes; a world has the locks, the
      Bolt state, the host (class [VolumeHost]) and the handle of the volume.  [VolumeSpec]:
      what each function does on every branch, and the counter of mounts over histories.
    - [PropsState], [PropsContainer], [PropsLookup], [PropsPods],
      [PropsConfig], [PropsGraph], [PropsSqlite], [PropsLife], [PropsUnit], [PropsQuadlet],
      [PropsLocks], [PropsPorts], [PropsVolumes]: the theorems.

    ** Parameters

    Code outside of this repository, and effects of the host, are fields of the
    class [Runtime] ([BoltInternal]): JSON encoding of the stored records, time,
    retrieving a lock, the file system tests for OCI runtimes, volume plugins, and
    the runtime configuration.  What is assumed of them is the class
    [RuntimeLaws]: decoding an encoded record gives the record back, less the
    fields that are not stored ([JsonView]), and time stamps round-trip.
    [TestRuntime] has an instance of both.  The theorems about SQLite also use
    [EmptyTextLaws] (the empty text is not JSON), [RowOrder] (the order of the rows
    of a query is any), and, where a call must succeed, [TotalLaws] (the records can
    be encoded); [PropsSqlite] has instances of them.  The engine is modelled by
    its documented behaviour on the statements of the source: keys, [CHECK]s,
    immediate and deferred foreign keys, affected rows, rollback, [LIKE], and the
    write lock of an open transaction.

    The methods of the life cycle ask the class [Host] ([Life]): the OCI runtime, processes
    and their signals, files, storage, networks, health checks and other processes that
    may write the row while the lock is free.  Its answers are arbitrary; where a theorem
    needs more, it says so: that the database answers every call (a failed
    synchronisation leaves a stale handle, which a deferred function can save), [relies]
    (what other processes write keeps the property at hand), [OCILaws] (only creating a
    container puts it into the OCI runtime, and after a successful deletion it is not
    there), [failedCreationDeleted] (a creation that fails can be undone),
    [quietAfterError] (no other process creates the container between a failed call and
    its deferred function), [stableHost] (states do not change during the walk).  [PropsLife] has
    instances.  Unit files need the databases of users and groups ([Names]) and
    [os.ReadFile]; quadlet needs the class [QuadletEnv]: the variable [PODMAN], the
    directory of binaries, the working directory, and the tables of [unicode.ToLower].  The port
    mappings need [net.ParseIP], the answers of [utils.GetRandomPort], which are ports
    ([randomOk]), and the orders in which maps are traversed, which have every key once
    ([visits]).  Volumes ask the class [VolumeHost] (plugins, storage, files, the mount
    command), with arbitrary answers; the theorems about mounts assume [MountLaws] (a request
    that succeeds mounts or unmounts what it names, and one that fails does nothing), and those
    about locks [ManagerLaws]; [PropsVolumes] has instances.  Health checks take [c.exec] as an argument and keep their results in a file of
    the host ([HealthHost], [HealthLaws]: it keeps what was written).  Logs need the parsing and printing of times, and the lines that the package
    [nxadm/tail] delivers.

    ** What the theorems show

    - Consistency: every database that is reachable from a fresh file by calls of
      the interface, with any results and faults in between, satisfies [Inv]
      ([reachable_consistent]): IDs and names are globally unique and inverse to
      each other, dependency buckets mirror stored dependencies and stay within a
      pod, pods list exactly their members, used volumes exist, listed exec
      sessions are registered.  The caller of a method guarantees [pre]: the
      object it passes agrees with the database, and a rewritten configuration
      keeps its references.
    - Atomicity: a call that fails changes nothing; a call that reads changes
      nothing; the mutex is released on every path, except after a failure to
      open the file, after which the state blocks for ever.
    - Containers: exactly when [AddContainer] and [RemoveContainer] succeed, what
      they write, that what was added is read back, that a dependency cannot be
      removed, that removal undoes addition, and lookup by ID, name or unique
      prefix.  Renaming and conflicts of names.
    - Pods, volumes, exec sessions, exit codes, networks, configuration: the
      corresponding behaviour.
    - The reset after a reboot ([Refresh]).
    - SQLite: reachable databases are consistent; every call that succeeds is a
      step of the specification and every call that fails changes nothing
      ([sqlite_refines]); every write that the specification allows succeeds
      ([sqlite_accepts]); exit codes stay in range; lookup is the prefix test; and
      what becomes of the state after [RemovePodContainers].
    - Dependency graph: the search for cycles terminates and answers whether a
      cycle of at least two containers exists; a graph is built exactly when its
      edges are known and acyclic; a container is started after everything it
      depends on and only when all of that was started, every container is
      visited, and a removal never removes a container before its users.
    - Life cycle: calls take and give back the lock as they should, the windows in
      which they give it up in the middle included; while the database works and failed
      creations can be undone, no container stays in the OCI runtime when its row says
      that it is gone; while the database works, a restart policy with a limit restarts
      at most that often, and not at all what the user has stopped; what [Start] and
      [RemoveContainer] leave behind; starting the dependencies ends.  Two theorems show where the code does not do this: a failed stop
      overwrites the row of another process, and a running dependency of a dependency
      prevents a start.
    - Unit files: what can be printed is parsed back as it was; the parser and the
      look-ups return on every input; every sequence of edits keeps the pointers and the
      map consistent and refines lists of groups; what look-ups return after edits; command
      lines are split into the words that were joined; negative numbers.
    - Locks: after any history of calls, with any results, a lock that was returned and
      not freed is not returned again, for every manager; the shared-memory locks hand out
      the least free bit and fail only when all are taken; the three managers agree.
      Renumbering gives every object a lock of its own and leaves no other allocated, but
      skips containers whose lock cannot be retrieved.
    - Quadlet: the service of a successful conversion (its groups, kill mode and type, and a
      command line that splits into the expected words), unknown keys are refused, every
      conversion returns, and which ports are published.
    - Ports: the format of [--publish] round-trips; the mappings of a container cover what
      was requested and nothing else, with random host ports that are free; requests that
      do not overlap are accepted; exposed ports are published.  [conflict_missed] shows a
      conflict that is not found.
    - Volumes: what a creation leaves in the state and of the locks on every path; the stored
      counter of mounts and the host agree after every history of calls; a volume in use is not
      removed, and a removed one leaves no entry, and its lock was freed.  Two theorems show where
      the code does not do this: a lock is lost when an existing volume is returned, and a
      mount that has disappeared is not made again.
    - Health checks: after any history of checks, the status, the failing streak and the log are
      those of the history ([health_history]).
    - Logs: the tail is the last lines of the file for every page size; [tail_moves_parts] shows
      that messages in several parts are put together wrongly.

    ** Bounds

    Loops of the code run over lists and are structural recursions.  The
    recursive functions over the dependency graph carry fuel ([size nodes] plus
    a small constant); the theorems about them show that they never run out of
    it.  The parser, the splitting of words and the joining of continuation lines
    have the length of their input as fuel; [unit_parser_terminates] shows that it is
    enough.  The recursive search for dependencies of the life cycle has fuel and an error
    [Blocked] when it is used up, which [startDependencies_outcome] excludes; waiting for
    a process to end is one question to the host.  The backward reader has one round more than
    the file has pages ([sendInputs_lines]).  The search for a free lock file has one
    round more than there are files, which is enough while there are fewer than 2^32
    ([allocateFrom_least]); with all of them the code searches for ever, and the model
    returns [LockBlocked].  The bits of a bitmap are searched with 33 rounds, one more than
    the mask needs to be shifted out.  Exit codes are 32-bit integers, ports
    16-bit, IDs of locks 32-bit with overflow, numbers in unit files 64-bit with overflow;
    the limits of bbolt on the lengths of keys and values are modelled.

    ** What is not modelled

    The pages of bbolt and of SQLite; a query of SQLite that fails after its
    first rows ([rows.Err] is not looked at by the code); several processes that
    use one database file at the same time (the life cycle has other processes that write
    the row of the container while its lock is free); error texts (a wrapped error is
    its sentinel); logging and events; waiting for conditions, checkpoints, exec
    sessions apart from their registry and removal, copying files; other processes that use the
    locks between two calls; networks, storage and images, which are other
    programs and libraries; the rest of the generation of specifications, the command line, the
    REST API with its bindings, and virtual machines, which translate between formats
    and call the parts above. *)

From stdpp Require Export base option list list_numbers gmap strings sorting.
From Stdlib Require Export ZArith Lia.

(** ** Results and the state-and-error monad

    Go functions return [(value, error)]; the model returns a [result].  Code
    that mutates shared state is a function of type [ST E S A]: it receives the
    current state and returns a result together with the state it leaves,
    also when it fails. *)

Inductive result (E A : Type) : Type :=
| Ok (a : A)
| Err (e : E).
Arguments Ok {E A} a.
Arguments Err {E A} e.

Definition is_Ok {E A} (r : result E A) : bool :=
  match r with Ok _ => true | Err _ => false end.

Definition result_bind {E A B} (r : result E A) (f : A → result E B) : result E B :=
  match r with Ok a => f a | Err e => Err e end.

#[export] Instance result_ret {E} : MRet (result E) := λ A a, Ok a.
#[export] Instance result_mbind {E} : MBind (result E) := λ A B f r, result_bind r f.
#[export] Instance result_eq_dec {E A} `{EqDecision E, EqDecision A} : EqDecision (result E A).
Proof. solve_decision. Defined.

Definition ST (E S A : Type) : Type := S → result E A * S.

Lemma foldl_id {A B} (l : list A) (b : B) : foldl (λ b _, b) b l = b.
Proof. by induction l. Qed.

Section monad.
Context {E S : Type}.

#[global] Instance st_ret : MRet (ST E S) := λ A a s, (Ok a, s).
#[global] Instance st_bind : MBind (ST E S) := λ A B f m s,
  match m s with
  | (Ok a, s1) => f a s1
  | (Err e, s1) => (Err e, s1)
  end.

Definition throw {A} (e : E) : ST E S A := λ s, (Err e, s).
Definition gets {A} (f : S → A) : ST E S A := λ s, (Ok (f s), s).
Definition modify (f : S → S) : ST E S () := λ s, (Ok (), f s).
Definition lift {A} (r : result E A) : ST E S A := λ s, (r, s).
Definition failIf (b : bool) (e : E) : ST E S () := if b then throw e else mret ().

(** [for _, x := range l { if err := f(x); err != nil { return err } }] *)
Fixpoint forM_ {A} (l : list A) (f : A → ST E S ()) : ST E S () :=
  match l with
  | [] => mret ()
  | x :: l => f x ≫= λ _, forM_ l f
  end.

(** The same loop when the body extends an accumulator. *)
Fixpoint foldM {A B} (f : B → A → ST E S B) (b : B) (l : list A) : ST E S B :=
  match l with
  | [] => mret b
  | x :: l => f b x ≫= λ b', foldM f b' l
  end.

Lemma st_bind_Ok {A B} (m : ST E S A) (f : A → ST E S B) s b s' :
  (m ≫= f) s = (Ok b, s') ↔ ∃ a s1, m s = (Ok a, s1) ∧ f a s1 = (Ok b, s').
Proof.
  unfold mbind, st_bind. destruct (m s) as [[a|e] s1]; split; intros H; simplify_eq; eauto.
  - destruct H as (a' & s1' & Heq & Hf). by simplify_eq.
  - destruct H as (a' & s1' & Heq & Hf). done.
Qed.

Lemma st_bind_Err {A B} (m : ST E S A) (f : A → ST E S B) s e s' :
  (m ≫= f) s = (Err e, s') ↔
  m s = (Err e, s') ∨ ∃ a s1, m s = (Ok a, s1) ∧ f a s1 = (Err e, s').
Proof.
  unfold mbind, st_bind. destruct (m s) as [[a|e'] s1]; split; intros H; simplify_eq; eauto.
  - destruct H as [?|(a' & s1' & Heq & Hf)]; by simplify_eq.
  - destruct H as [?|(a' & s1' & Heq & Hf)]; by simplify_eq.
Qed.

Lemma st_bind_run {A B} (m : ST E S A) (f : A → ST E S B) s a s1 :
  m s = (Ok a, s1) → (m ≫= f) s = f a s1.
Proof. intros H. unfold mbind, st_bind. by rewrite H. Qed.

Lemma st_bind_run_err {A B} (m : ST E S A) (f : A → ST E S B) s e s1 :
  m s = (Err e, s1) → (m ≫= f) s = (Err e, s1).
Proof. intros H. unfold mbind, st_bind. by rewrite H. Qed.

Lemma st_bind_assoc {A B C} (m : ST E S A) (f : A → ST E S B) (g : B → ST E S C) s : ((m ≫= f) ≫= g) s = (m ≫= λ a, f a ≫= g) s.
Proof. unfold mbind, st_bind. by destruct (m s) as [[a|e] s1]. Qed.

Lemma st_bind_ext {A B} (m : ST E S A) (f g : A → ST E S B) s : (∀ a s1, f a s1 = g a s1) → (m ≫= f) s = (m ≫= g) s.
Proof. intros Hfg. unfold mbind, st_bind. by destruct (m s) as [[a|e] s1]. Qed.

Lemma st_bind_ret {A B} (a : A) (f : A → ST E S B) s : (mret a ≫= f) s = f a s.
Proof. done. Qed.

Lemma failIf_Ok b e s (u : ()) s' : failIf b e s = (Ok u, s') ↔ b = false ∧ s' = s.
Proof. destruct b, u; unfold failIf, throw, mret, st_ret; split; intros H; simplify_eq; auto.
  all: destruct H; by subst. Qed.

Lemma when_run (P : Prop) `{!Decision P} e s : ¬ P → failIf (bool_decide P) e s = (Ok (), s).
Proof. intros HP. by rewrite bool_decide_eq_false_2. Qed.

Lemma when_err (P : Prop) `{!Decision P} e s : P → failIf (bool_decide P) e s = (Err e, s).
Proof. intros HP. by rewrite bool_decide_eq_true_2. Qed.

Lemma lift_Ok {A} (r : result E A) s a s' : lift r s = (Ok a, s') ↔ r = Ok a ∧ s' = s.
Proof. unfold lift. split; [intros [=]; by subst|by intros [-> ->]]. Qed.

Lemma forM_ind {A} (P : S → Prop) (l : list A) (f : A → ST E S ()) s u s' :
  (∀ x s1 u1 s2, x ∈ l → P s1 → f x s1 = (Ok u1, s2) → P s2) →
  P s → forM_ l f s = (Ok u, s') → P s'.
Proof.
  revert s. induction l as [|x l IH]; intros s Hf Hs; simpl.
  - unfold mret, st_ret. intros H; by simplify_eq.
  - rewrite st_bind_Ok. intros (u1 & s1 & H1 & H2).
    apply (IH s1); [|by eapply Hf; [left| |]|done].
    intros; eapply Hf; [by right| |]; done.
Qed.

Lemma foldM_ind {A B} (P : S → Prop) (l : list A) (f : B → A → ST E S B) b s b' s' :
  (∀ x b1 s1 b2 s2, x ∈ l → P s1 → f b1 x s1 = (Ok b2, s2) → P s2) →
  P s → foldM f b l s = (Ok b', s') → P s'.
Proof.
  revert b s. induction l as [|x l IH]; intros b s Hf Hs; simpl.
  - unfold mret, st_ret. intros H; by simplify_eq.
  - rewrite st_bind_Ok. intros (b1 & s1 & H1 & H2).
    apply (IH b1 s1); [|by eapply Hf; [left| |]|done].
    intros; eapply Hf; [by right| |]; done.
Qed.

(** A loop whose every iteration succeeds succeeds, and its effect is the
    fold of the effects of its iterations. *)
Lemma forM_fold {A} (g : A → S → S) (P : S → Prop) (l : list A) (f : A → ST E S ()) s :
  (∀ x s1, x ∈ l → P s1 → f x s1 = (Ok (), g x s1) ∧ P (g x s1)) →
  P s → forM_ l f s = (Ok (), foldl (λ s x, g x s) s l).
Proof.
  revert s. induction l as [|x l IH]; intros s Hf Hs; simpl; [done|].
  destruct (Hf x s) as [H1 H2]; [by left|done|].
  erewrite st_bind_run by done. apply IH; [|done].
  intros; apply Hf; [by right|done].
Qed.
End monad.

Notation "'when' b e" := (failIf (bool_decide b) e)
  (at level 10, b at level 9, e at level 9, only parsing).

(** Case analysis on a run of the monad: every hypothesis [m s = (Ok a, s')]
    is split along the binds of [m], failing branches are discarded, and the
    branch conditions are left as hypotheses. *)
Ltac st_inj H :=
  first [ injection H as <- <- | injection H as <- | progress simplify_eq | clear H ].
Ltac st_step :=
  match goal with
  | H : (_ ≫= _) _ = (Ok _, _) |- _ => apply st_bind_Ok in H as (? & ? & ? & H)
  | H : failIf _ _ _ = (Ok _, _) |- _ => apply failIf_Ok in H as [? ->]
  | H : throw _ _ = (Ok _, _) |- _ => discriminate H
  | H : mret _ _ = (Ok _, _) |- _ => unfold mret, st_ret in H; st_inj H
  | H : gets _ _ = (Ok _, _) |- _ => unfold gets in H; st_inj H
  | H : modify _ _ = (Ok _, _) |- _ => unfold modify in H; st_inj H
  | H : lift _ _ = (Ok _, _) |- _ => apply lift_Ok in H as [H ->]
  | H : (Err _, _) = (Ok _, _) |- _ => discriminate H
  | H : (Ok _, _) = (Ok _, _) |- _ => st_inj H
  | H : bool_decide _ = false |- _ => apply bool_decide_eq_false in H
  | H : bool_decide _ = true |- _ => apply bool_decide_eq_true in H
  | u : () |- _ => destruct u
  end.

Create HintDb libpod.

Lemma StronglySorted_weaken {A} (R R' : A → A → Prop) l :
  (∀ x y, x ∈ l → y ∈ l → R x y → R' x y) → StronglySorted R l → StronglySorted R' l.
Proof.
  intros HR Hl. induction Hl as [|x l Hl IH Hx]; constructor.
  - apply IH. intros y z Hy Hz. apply HR; by right.
  - rewrite Forall_forall in *. intros y Hy. apply HR; [by left|by right|auto].
Qed.
