(* ===== verification/Define.v ===== *)
(** * Define: the data of libpod

    The error sentinels of [libpod/define/errors.go], the status enumerations
    of [libpod/define/containerstate.go], and the records that the state
    database stores: container, pod and volume configuration and state
    ([container.go], [container_config.go], [pod.go], [volume.go]).  Every
    record has decidable equality and is countable, so that a concrete
    serialisation exists. *)

From S2P Require Import Prelude.

Local Open Scope Z_scope.

(** ** Errors

    Go wraps sentinel errors with [fmt.Errorf("...: %w", err)] and callers test
    them with [errors.Is]; a wrapped error is represented by its sentinel. *)

Inductive error : Type :=
(* libpod/define/errors.go *)
| ErrNoSuchCtr | ErrNoSuchPod | ErrNoSuchVolume | ErrNoSuchNetwork
| ErrNoSuchExecSession | ErrNoSuchExitCode | ErrDepExists
| ErrCtrExists | ErrPodExists | ErrVolumeExists | ErrExecSessionExists
| ErrNetworkConnected | ErrCtrStateInvalid | ErrVolumeBeingUsed
| ErrInvalidArg | ErrEmptyID | ErrInternal
| ErrCtrRemoved | ErrPodRemoved | ErrVolumeRemoved
| ErrDBClosed | ErrDBBadConfig | ErrWillDeadlock | ErrCtrStopped
| ErrOCIRuntime | ErrNotImplemented | ErrNoCgroups | ErrRuntimeStopped
| ErrConmonDead
| ErrNoAliases | ErrMissingPlugin | ErrImageExists | ErrNetworkExists
| ErrExecSessionStateInvalid | ErrRuntimeFinalized | ErrCtrFinalized
| ErrPodFinalized | ErrVolumeFinalized | ErrPodPartialFail | ErrDetach
| ErrNoLogs | ErrRootless | ErrExecSessionRemoved | ErrNSMismatch
| ErrOSNotSupported | ErrOCIRuntimePermissionDenied | ErrOCIRuntimeNotFound
| ErrOCIRuntimeUnavailable | ErrConmonOutdated | ErrNetworkOnPodContainer
| ErrNetworkInUse | ErrStoreNotInitialized | ErrNoNetwork
| ErrNetworkModeInvalid | ErrSetSecurityAttribute | ErrGetSecurityAttribute
| ErrSecurityAttribute | ErrCanceled | ErrConmonVersionFormat
(* github.com/containers/storage/errors.go *)
| ErrNotAContainer | ErrContainerUnknown | ErrLayerNotMounted
(* go.etcd.io/bbolt/errors.go *)
| ErrBucketNotFound | ErrBucketExists | ErrBucketNameRequired
| ErrKeyRequired | ErrKeyTooLarge | ErrValueTooLarge | ErrIncompatibleValue
(* github.com/mattn/go-sqlite3: result codes of the engine *)
| ErrConstraint  (* SQLITE_CONSTRAINT *)
| ErrBusy        (* SQLITE_BUSY: another connection holds the write lock *)
| ErrSQLSyntax   (* SQLITE_ERROR: the statement cannot be parsed *)
| ErrSQL         (* any other failure of a call of database/sql *)
(* errors without a sentinel *)
| ErrJSON        (* encoding or decoding JSON failed *)
| ErrTimeText    (* encoding or decoding a time stamp failed *)
| ErrNumSyntax   (* strconv.Atoi *)
| ErrOpen        (* the database file could not be opened *)
| ErrCommit      (* the transaction could not be committed *)
| ErrLock        (* the lock manager could not provide a lock *)
| ErrNotExist    (* os.ErrNotExist *)
| ErrNotEmpty    (* unix.ENOTEMPTY or unix.EBUSY *)
| ErrHost        (* a call of the operating system or of an external program failed *)
| ErrText        (* fmt.Errorf without a wrapped sentinel *)
| Panic          (* a run-time panic, e.g. a slice index out of range *)
| Blocked.       (* the call never returns: it waits for a mutex held for ever *)

#[export] Instance error_eq_dec : EqDecision error.
Proof. solve_decision. Defined.

(** ** Container status *)

Inductive ContainerStatus : Type :=
| ContainerStateUnknown
| ContainerStateConfigured
| ContainerStateCreated
| ContainerStateRunning
| ContainerStateStopped
| ContainerStatePaused
| ContainerStateExited
| ContainerStateRemoving
| ContainerStateStopping.

#[export] Instance ContainerStatus_eq_dec : EqDecision ContainerStatus.
Proof. solve_decision. Defined.

(** The value of the [iota] constant. *)
Definition ContainerStatus_int (t : ContainerStatus) : nat :=
  match t with
  | ContainerStateUnknown => 0 | ContainerStateConfigured => 1
  | ContainerStateCreated => 2 | ContainerStateRunning => 3
  | ContainerStateStopped => 4 | ContainerStatePaused => 5
  | ContainerStateExited => 6 | ContainerStateRemoving => 7
  | ContainerStateStopping => 8
  end%nat.

Definition ContainerStatus_of_int (n : nat) : option ContainerStatus :=
  match n with
  | 0 => Some ContainerStateUnknown | 1 => Some ContainerStateConfigured
  | 2 => Some ContainerStateCreated | 3 => Some ContainerStateRunning
  | 4 => Some ContainerStateStopped | 5 => Some ContainerStatePaused
  | 6 => Some ContainerStateExited | 7 => Some ContainerStateRemoving
  | 8 => Some ContainerStateStopping | _ => None
  end%nat.

#[export] Instance ContainerStatus_countable : Countable ContainerStatus.
Proof. refine (inj_countable ContainerStatus_int ContainerStatus_of_int _); by intros []. Defined.

(** [ContainerStatus.String] *)
Definition ContainerStatus_String (t : ContainerStatus) : string :=
  match t with
  | ContainerStateUnknown => "unknown"
  | ContainerStateConfigured => "created"
  | ContainerStateCreated => "initialized"
  | ContainerStateRunning => "running"
  | ContainerStateStopped => "stopped"
  | ContainerStatePaused => "paused"
  | ContainerStateExited => "exited"
  | ContainerStateRemoving => "removing"
  | ContainerStateStopping => "stopping"
  end.

(** [StringToContainerStatus] *)
Definition StringToContainerStatus (status : string) : result error ContainerStatus :=
  if decide (status = ContainerStatus_String ContainerStateUnknown) then Ok ContainerStateUnknown
  else if decide (status = ContainerStatus_String ContainerStateConfigured) then Ok ContainerStateConfigured
  else if decide (status = ContainerStatus_String ContainerStateCreated) then Ok ContainerStateCreated
  else if decide (status = ContainerStatus_String ContainerStateRunning) then Ok ContainerStateRunning
  else if decide (status = ContainerStatus_String ContainerStateStopped) then Ok ContainerStateStopped
  else if decide (status = ContainerStatus_String ContainerStatePaused) then Ok ContainerStatePaused
  else if decide (status = ContainerStatus_String ContainerStateExited) then Ok ContainerStateExited
  else if decide (status = ContainerStatus_String ContainerStateRemoving) then Ok ContainerStateRemoving
  else Err ErrInvalidArg.

Inductive ContainerExecStatus : Type :=
| ExecStateUnknown | ExecStateCreated | ExecStateRunning | ExecStateStopped.

#[export] Instance ContainerExecStatus_eq_dec : EqDecision ContainerExecStatus.
Proof. solve_decision. Defined.

#[export] Instance ContainerExecStatus_countable : Countable ContainerExecStatus.
Proof.
  refine (inj_countable
    (λ s, match s with ExecStateUnknown => 0 | ExecStateCreated => 1
                     | ExecStateRunning => 2 | ExecStateStopped => 3 end%nat)
    (λ n, match n with 0 => Some ExecStateUnknown | 1 => Some ExecStateCreated
                     | 2 => Some ExecStateRunning | 3 => Some ExecStateStopped
                     | _ => None end%nat) _); by intros [].
Defined.

Definition ContainerExecStatus_String (s : ContainerExecStatus) : string :=
  match s with
  | ExecStateUnknown => "unknown"
  | ExecStateCreated => "created"
  | ExecStateRunning => "running"
  | ExecStateStopped => "stopped"
  end.

(** ** Stored records *)

(** [types.PerNetworkOptions]: the options of one network of a container. *)
Record PerNetworkOptions : Type := mkPerNetworkOptions {
  pn_StaticIPs : list string;
  pn_Aliases : list string;
  pn_StaticMAC : string;
  pn_InterfaceName : string }.

#[export] Instance PerNetworkOptions_eq_dec : EqDecision PerNetworkOptions.
Proof. solve_decision. Defined.

#[export] Instance PerNetworkOptions_countable : Countable PerNetworkOptions.
Proof.
  refine (inj_countable (λ r, [encode (pn_StaticIPs r); encode (pn_Aliases r); encode (pn_StaticMAC r); encode (pn_InterfaceName r)] : list positive)
    (λ l, match l with
          | [x0; x1; x2; x3] =>
              y0 ← decode x0; y1 ← decode x1; y2 ← decode x2; y3 ← decode x3;
              Some (mkPerNetworkOptions y0 y1 y2 y3)
          | _ => None end) _).
  intros []; cbn -[encode decode]. repeat (rewrite decode_encode; cbn -[encode decode]). done.
Defined.

(** [types.PortMapping]: the ports are [uint16] values. *)
Record PortMapping : Type := mkPortMapping {
  pm_HostIP : string;
  pm_ContainerPort : Z;
  pm_HostPort : Z;
  pm_Range : Z;
  pm_Protocol : string }.

#[export] Instance PortMapping_eq_dec : EqDecision PortMapping.
Proof. solve_decision. Defined.

#[export] Instance PortMapping_countable : Countable PortMapping.
Proof.
  refine (inj_countable (λ r, [encode (pm_HostIP r); encode (pm_ContainerPort r); encode (pm_HostPort r); encode (pm_Range r); encode (pm_Protocol r)] : list positive)
    (λ l, match l with
          | [x0; x1; x2; x3; x4] =>
              y0 ← decode x0; y1 ← decode x1; y2 ← decode x2; y3 ← decode x3; y4 ← decode x4;
              Some (mkPortMapping y0 y1 y2 y3 y4)
          | _ => None end) _).
  intros []; cbn -[encode decode]. repeat (rewrite decode_encode; cbn -[encode decode]). done.
Defined.

(** [types.OCICNIPortMapping]: the ports are [int32] values. *)
Record OCICNIPortMapping : Type := mkOCICNIPortMapping {
  op_HostPort : Z;
  op_ContainerPort : Z;
  op_Protocol : string;
  op_HostIP : string }.

#[export] Instance OCICNIPortMapping_eq_dec : EqDecision OCICNIPortMapping.
Proof. solve_decision. Defined.

#[export] Instance OCICNIPortMapping_countable : Countable OCICNIPortMapping.
Proof.
  refine (inj_countable (λ r, [encode (op_HostPort r); encode (op_ContainerPort r); encode (op_Protocol r); encode (op_HostIP r)] : list positive)
    (λ l, match l with
          | [x0; x1; x2; x3] =>
              y0 ← decode x0; y1 ← decode x1; y2 ← decode x2; y3 ← decode x3;
              Some (mkOCICNIPortMapping y0 y1 y2 y3)
          | _ => None end) _).
  intros []; cbn -[encode decode]. repeat (rewrite decode_encode; cbn -[encode decode]). done.
Defined.

(** [ContainerNamedVolume] *)
Record ContainerNamedVolume : Type := mkContainerNamedVolume {
  nv_Name : string;
  nv_Dest : string;
  nv_Options : list string;
  nv_IsAnonymous : bool;
  nv_SubPath : string }.

#[export] Instance ContainerNamedVolume_eq_dec : EqDecision ContainerNamedVolume.
Proof. solve_decision. Defined.

#[export] Instance ContainerNamedVolume_countable : Countable ContainerNamedVolume.
Proof.
  refine (inj_countable (λ r, [encode (nv_Name r); encode (nv_Dest r); encode (nv_Options r); encode (nv_IsAnonymous r); encode (nv_SubPath r)] : list positive)
    (λ l, match l with
          | [x0; x1; x2; x3; x4] =>
              y0 ← decode x0; y1 ← decode x1; y2 ← decode x2; y3 ← decode x3; y4 ← decode x4;
              Some (mkContainerNamedVolume y0 y1 y2 y3 y4)
          | _ => None end) _).
  intros []; cbn -[encode decode]. repeat (rewrite decode_encode; cbn -[encode decode]). done.
Defined.

(** [ExecSession]; the exec configuration is carried opaquely. *)
Record ExecSession : Type := mkExecSession {
  es_Id : string;
  es_ContainerId : string;
  es_State : ContainerExecStatus;
  es_PID : Z;
  es_ExitCode : Z;
  es_Config : string }.

#[export] Instance ExecSession_eq_dec : EqDecision ExecSession.
Proof. solve_decision. Defined.

#[export] Instance ExecSession_countable : Countable ExecSession.
Proof.
  refine (inj_countable (λ r, [encode (es_Id r); encode (es_ContainerId r); encode (es_State r); encode (es_PID r); encode (es_ExitCode r); encode (es_Config r)] : list positive)
    (λ l, match l with
          | [x0; x1; x2; x3; x4; x5] =>
              y0 ← decode x0; y1 ← decode x1; y2 ← decode x2; y3 ← decode x3; y4 ← decode x4; y5 ← decode x5;
              Some (mkExecSession y0 y1 y2 y3 y4 y5)
          | _ => None end) _).
  intros []; cbn -[encode decode]. repeat (rewrite decode_encode; cbn -[encode decode]). done.
Defined.

(** [ContainerConfig] with its embedded sub-configurations.  The fields that the
    modelled code reads or writes are kept; [cc_other] stands for the remaining
    ones, which it only carries. *)
Record ContainerConfig : Type := mkContainerConfig {
  cc_ID : string;
  cc_Name : string;
  cc_Pod : string;
  cc_Namespace : string;
  cc_LockID : Z;
  cc_Dependencies : list string;
  cc_rewrite : bool;
  cc_NamedVolumes : list ContainerNamedVolume;
  cc_IPCNsCtr : string;
  cc_MountNsCtr : string;
  cc_NetNsCtr : string;
  cc_PIDNsCtr : string;
  cc_UserNsCtr : string;
  cc_UTSNsCtr : string;
  cc_CgroupNsCtr : string;
  cc_StaticIP : option string;
  cc_StaticMAC : string;
  cc_PortMappings : list PortMapping;
  cc_OldPortMappings : list OCICNIPortMapping;
  cc_Networks : gmap string PerNetworkOptions;
  cc_NetworksDeprecated : list string;
  cc_NetMode : string;
  cc_StopTimeout : Z;
  cc_RestartPolicy : string;
  cc_RestartRetries : Z;
  cc_OCIRuntime : string;
  cc_IsInfra : bool;
  cc_IsService : bool;
  cc_InitContainerType : string;
  cc_NoCgroups : bool;
  cc_CreateNetNS : bool;
  cc_PostConfigureNetNS : bool;
  cc_SpecNamespaces : list (string * string);
  cc_HealthCheckTest : option (list string);
  cc_StartupHealthCheck : bool;
  cc_Rootfs : string;
  cc_RootfsOverlay : bool;
  cc_RootfsMapping : option string;
  cc_Mounts : list string;
  cc_ImageVolumes : list string;
  cc_StopSignal : Z;
  cc_SdNotifyMode : string;
  cc_CIDFile : option string;
  cc_other : string }.

#[export] Instance ContainerConfig_eq_dec : EqDecision ContainerConfig.
Proof. solve_decision. Defined.

#[export] Instance ContainerConfig_countable : Countable ContainerConfig.
Proof.
  refine (inj_countable (λ r, [encode (cc_ID r); encode (cc_Name r); encode (cc_Pod r); encode (cc_Namespace r); encode (cc_LockID r); encode (cc_Dependencies r); encode (cc_rewrite r); encode (cc_NamedVolumes r); encode (cc_IPCNsCtr r); encode (cc_MountNsCtr r); encode (cc_NetNsCtr r); encode (cc_PIDNsCtr r); encode (cc_UserNsCtr r); encode (cc_UTSNsCtr r); encode (cc_CgroupNsCtr r); encode (cc_StaticIP r); encode (cc_StaticMAC r); encode (cc_PortMappings r); encode (cc_OldPortMappings r); encode (cc_Networks r); encode (cc_NetworksDeprecated r); encode (cc_NetMode r); encode (cc_StopTimeout r); encode (cc_RestartPolicy r); encode (cc_RestartRetries r); encode (cc_OCIRuntime r); encode (cc_IsInfra r); encode (cc_IsService r); encode (cc_InitContainerType r); encode (cc_NoCgroups r); encode (cc_CreateNetNS r); encode (cc_PostConfigureNetNS r); encode (cc_SpecNamespaces r); encode (cc_HealthCheckTest r); encode (cc_StartupHealthCheck r); encode (cc_Rootfs r); encode (cc_RootfsOverlay r); encode (cc_RootfsMapping r); encode (cc_Mounts r); encode (cc_ImageVolumes r); encode (cc_StopSignal r); encode (cc_SdNotifyMode r); encode (cc_CIDFile r); encode (cc_other r)] : list positive)
    (λ l, match l with
          | [x0; x1; x2; x3; x4; x5; x6; x7; x8; x9; x10; x11; x12; x13; x14; x15; x16; x17; x18; x19; x20; x21; x22; x23; x24; x25; x26; x27; x28; x29; x30; x31; x32; x33; x34; x35; x36; x37; x38; x39; x40; x41; x42; x43] =>
              y0 ← decode x0; y1 ← decode x1; y2 ← decode x2; y3 ← decode x3; y4 ← decode x4; y5 ← decode x5; y6 ← decode x6; y7 ← decode x7; y8 ← decode x8; y9 ← decode x9; y10 ← decode x10; y11 ← decode x11; y12 ← decode x12; y13 ← decode x13; y14 ← decode x14; y15 ← decode x15; y16 ← decode x16; y17 ← decode x17; y18 ← decode x18; y19 ← decode x19; y20 ← decode x20; y21 ← decode x21; y22 ← decode x22; y23 ← decode x23; y24 ← decode x24; y25 ← decode x25; y26 ← decode x26; y27 ← decode x27; y28 ← decode x28; y29 ← decode x29; y30 ← decode x30; y31 ← decode x31; y32 ← decode x32; y33 ← decode x33; y34 ← decode x34; y35 ← decode x35; y36 ← decode x36; y37 ← decode x37; y38 ← decode x38; y39 ← decode x39; y40 ← decode x40; y41 ← decode x41; y42 ← decode x42; y43 ← decode x43;
              Some (mkContainerConfig y0 y1 y2 y3 y4 y5 y6 y7 y8 y9 y10 y11 y12 y13 y14 y15 y16 y17 y18 y19 y20 y21 y22 y23 y24 y25 y26 y27 y28 y29 y30 y31 y32 y33 y34 y35 y36 y37 y38 y39 y40 y41 y42 y43)
          | _ => None end) _).
  intros []; cbn -[encode decode]. repeat (rewrite decode_encode; cbn -[encode decode]). done.
Defined.

(** [ContainerState].  Times are nanosecond counts with the zero time as [0];
    network results, hooks and the service record are carried opaquely. *)
Record ContainerState : Type := mkContainerState {
  cs_State : ContainerStatus;
  cs_ConfigPath : string;
  cs_RunDir : string;
  cs_Mounted : bool;
  cs_Mountpoint : string;
  cs_StartedTime : Z;
  cs_FinishedTime : Z;
  cs_ExitCode : Z;
  cs_Exited : bool;
  cs_Error : string;
  cs_OOMKilled : bool;
  cs_Checkpointed : bool;
  cs_PID : Z;
  cs_ConmonPID : Z;
  cs_ExecSessions : gmap string ExecSession;
  cs_LegacyExecSessions : gmap string string;
  cs_NetNS : string;
  cs_NetworkStatusOld : list string;
  cs_NetworkStatus : gmap string string;
  cs_BindMounts : gmap string string;
  cs_StoppedByUser : bool;
  cs_RestartPolicyMatch : bool;
  cs_RestartCount : Z;
  cs_StartupHCPassed : bool;
  cs_StartupHCSuccessCount : Z;
  cs_StartupHCFailureCount : Z;
  cs_ExtensionStageHooks : string;
  cs_NetInterfaceDescriptions : option (gmap string Z);
  cs_Service : string;
  cs_CheckpointedTime : Z;
  cs_RestoredTime : Z;
  cs_CheckpointLog : string;
  cs_CheckpointPath : string;
  cs_RestoreLog : string;
  cs_Restored : bool }.

#[export] Instance ContainerState_eq_dec : EqDecision ContainerState.
Proof. solve_decision. Defined.

#[export] Instance ContainerState_countable : Countable ContainerState.
Proof.
  refine (inj_countable (λ r, [encode (cs_State r); encode (cs_ConfigPath r); encode (cs_RunDir r); encode (cs_Mounted r); encode (cs_Mountpoint r); encode (cs_StartedTime r); encode (cs_FinishedTime r); encode (cs_ExitCode r); encode (cs_Exited r); encode (cs_Error r); encode (cs_OOMKilled r); encode (cs_Checkpointed r); encode (cs_PID r); encode (cs_ConmonPID r); encode (cs_ExecSessions r); encode (cs_LegacyExecSessions r); encode (cs_NetNS r); encode (cs_NetworkStatusOld r); encode (cs_NetworkStatus r); encode (cs_BindMounts r); encode (cs_StoppedByUser r); encode (cs_RestartPolicyMatch r); encode (cs_RestartCount r); encode (cs_StartupHCPassed r); encode (cs_StartupHCSuccessCount r); encode (cs_StartupHCFailureCount r); encode (cs_ExtensionStageHooks r); encode (cs_NetInterfaceDescriptions r); encode (cs_Service r); encode (cs_CheckpointedTime r); encode (cs_RestoredTime r); encode (cs_CheckpointLog r); encode (cs_CheckpointPath r); encode (cs_RestoreLog r); encode (cs_Restored r)] : list positive)
    (λ l, match l with
          | [x0; x1; x2; x3; x4; x5; x6; x7; x8; x9; x10; x11; x12; x13; x14; x15; x16; x17; x18; x19; x20; x21; x22; x23; x24; x25; x26; x27; x28; x29; x30; x31; x32; x33; x34] =>
              y0 ← decode x0; y1 ← decode x1; y2 ← decode x2; y3 ← decode x3; y4 ← decode x4; y5 ← decode x5; y6 ← decode x6; y7 ← decode x7; y8 ← decode x8; y9 ← decode x9; y10 ← decode x10; y11 ← decode x11; y12 ← decode x12; y13 ← decode x13; y14 ← decode x14; y15 ← decode x15; y16 ← decode x16; y17 ← decode x17; y18 ← decode x18; y19 ← decode x19; y20 ← decode x20; y21 ← decode x21; y22 ← decode x22; y23 ← decode x23; y24 ← decode x24; y25 ← decode x25; y26 ← decode x26; y27 ← decode x27; y28 ← decode x28; y29 ← decode x29; y30 ← decode x30; y31 ← decode x31; y32 ← decode x32; y33 ← decode x33; y34 ← decode x34;
              Some (mkContainerState y0 y1 y2 y3 y4 y5 y6 y7 y8 y9 y10 y11 y12 y13 y14 y15 y16 y17 y18 y19 y20 y21 y22 y23 y24 y25 y26 y27 y28 y29 y30 y31 y32 y33 y34)
          | _ => None end) _).
  intros []; cbn -[encode decode]. repeat (rewrite decode_encode; cbn -[encode decode]). done.
Defined.

(** [PodConfig]; [pc_other] stands for the fields that are only carried. *)
Record PodConfig : Type := mkPodConfig {
  pc_ID : string;
  pc_Name : string;
  pc_Namespace : string;
  pc_LockID : Z;
  pc_HasInfra : bool;
  pc_ServiceContainerID : string;
  pc_other : string }.

#[export] Instance PodConfig_eq_dec : EqDecision PodConfig.
Proof. solve_decision. Defined.

#[export] Instance PodConfig_countable : Countable PodConfig.
Proof.
  refine (inj_countable (λ r, [encode (pc_ID r); encode (pc_Name r); encode (pc_Namespace r); encode (pc_LockID r); encode (pc_HasInfra r); encode (pc_ServiceContainerID r); encode (pc_other r)] : list positive)
    (λ l, match l with
          | [x0; x1; x2; x3; x4; x5; x6] =>
              y0 ← decode x0; y1 ← decode x1; y2 ← decode x2; y3 ← decode x3; y4 ← decode x4; y5 ← decode x5; y6 ← decode x6;
              Some (mkPodConfig y0 y1 y2 y3 y4 y5 y6)
          | _ => None end) _).
  intros []; cbn -[encode decode]. repeat (rewrite decode_encode; cbn -[encode decode]). done.
Defined.

(** [podState] *)
Record podState : Type := mkpodState {
  ps_CgroupPath : string;
  ps_InfraContainerID : string }.

#[export] Instance podState_eq_dec : EqDecision podState.
Proof. solve_decision. Defined.

#[export] Instance podState_countable : Countable podState.
Proof.
  refine (inj_countable (λ r, [encode (ps_CgroupPath r); encode (ps_InfraContainerID r)] : list positive)
    (λ l, match l with
          | [x0; x1] =>
              y0 ← decode x0; y1 ← decode x1;
              Some (mkpodState y0 y1)
          | _ => None end) _).
  intros []; cbn -[encode decode]. repeat (rewrite decode_encode; cbn -[encode decode]). done.
Defined.

(** [VolumeConfig]; [vc_other] stands for the fields that are only carried. *)
Record VolumeConfig : Type := mkVolumeConfig {
  vc_Name : string;
  vc_LockID : Z;
  vc_Driver : string;
  vc_MountPoint : string;
  vc_CreatedTime : Z;
  vc_Options : gmap string string;
  vc_IsAnon : bool;
  vc_UID : Z;
  vc_GID : Z;
  vc_Size : Z;
  vc_Inodes : Z;
  vc_DisableQuota : bool;
  vc_StorageName : string;
  vc_StorageID : string;
  vc_StorageImageID : string;
  vc_other : string }.

#[export] Instance VolumeConfig_eq_dec : EqDecision VolumeConfig.
Proof. solve_decision. Defined.

#[export] Instance VolumeConfig_countable : Countable VolumeConfig.
Proof.
  refine (inj_countable (λ r, [encode (vc_Name r); encode (vc_LockID r); encode (vc_Driver r); encode (vc_MountPoint r); encode (vc_CreatedTime r); encode (vc_Options r); encode (vc_IsAnon r); encode (vc_UID r); encode (vc_GID r); encode (vc_Size r); encode (vc_Inodes r); encode (vc_DisableQuota r); encode (vc_StorageName r); encode (vc_StorageID r); encode (vc_StorageImageID r); encode (vc_other r)] : list positive)
    (λ l, match l with
          | [x0; x1; x2; x3; x4; x5; x6; x7; x8; x9; x10; x11; x12; x13; x14; x15] =>
              y0 ← decode x0; y1 ← decode x1; y2 ← decode x2; y3 ← decode x3; y4 ← decode x4; y5 ← decode x5; y6 ← decode x6; y7 ← decode x7; y8 ← decode x8; y9 ← decode x9; y10 ← decode x10; y11 ← decode x11; y12 ← decode x12; y13 ← decode x13; y14 ← decode x14; y15 ← decode x15;
              Some (mkVolumeConfig y0 y1 y2 y3 y4 y5 y6 y7 y8 y9 y10 y11 y12 y13 y14 y15)
          | _ => None end) _).
  intros []; cbn -[encode decode]. repeat (rewrite decode_encode; cbn -[encode decode]). done.
Defined.

(** [VolumeState] *)
Record VolumeState : Type := mkVolumeState {
  vs_MountPoint : string;
  vs_MountCount : Z;
  vs_NeedsCopyUp : bool;
  vs_NeedsChown : bool;
  vs_UIDChowned : Z;
  vs_GIDChowned : Z }.

#[export] Instance VolumeState_eq_dec : EqDecision VolumeState.
Proof. solve_decision. Defined.

#[export] Instance VolumeState_countable : Countable VolumeState.
Proof.
  refine (inj_countable (λ r, [encode (vs_MountPoint r); encode (vs_MountCount r); encode (vs_NeedsCopyUp r); encode (vs_NeedsChown r); encode (vs_UIDChowned r); encode (vs_GIDChowned r)] : list positive)
    (λ l, match l with
          | [x0; x1; x2; x3; x4; x5] =>
              y0 ← decode x0; y1 ← decode x1; y2 ← decode x2; y3 ← decode x3; y4 ← decode x4; y5 ← decode x5;
              Some (mkVolumeState y0 y1 y2 y3 y4 y5)
          | _ => None end) _).
  intros []; cbn -[encode decode]. repeat (rewrite decode_encode; cbn -[encode decode]). done.
Defined.

(** The zero values that [new(T)] allocates. *)

Definition newContainerConfig : ContainerConfig :=
  mkContainerConfig "" "" "" "" 0 [] false [] "" "" "" "" "" "" "" None "" [] [] ∅ [] "" 0 "" 0 "" false false ""false false false [] None false "" false None [] [] 0 "" None "".

Definition newContainerState : ContainerState :=
  mkContainerState ContainerStateUnknown "" "" false "" 0 0 0 false "" false false 0 0 ∅ ∅ "" [] ∅ ∅ false false 0 false 0 0 "" None "" 0 0 "" "" "" false.

Definition newPodConfig : PodConfig :=
  mkPodConfig "" "" "" 0 false "" "".

Definition newpodState : podState :=
  mkpodState "" "".

Definition newVolumeConfig : VolumeConfig :=
  mkVolumeConfig "" 0 "" "" 0 ∅ false 0 0 0 0 false "" "" "" "".

Definition newVolumeState : VolumeState :=
  mkVolumeState "" 0 false false 0 0.

(** Field assignments of the modelled code. *)

Definition cc_set_Name (v : string) (r : ContainerConfig) : ContainerConfig :=
  mkContainerConfig (cc_ID r) v (cc_Pod r) (cc_Namespace r) (cc_LockID r) (cc_Dependencies r) (cc_rewrite r) (cc_NamedVolumes r) (cc_IPCNsCtr r) (cc_MountNsCtr r) (cc_NetNsCtr r) (cc_PIDNsCtr r) (cc_UserNsCtr r) (cc_UTSNsCtr r) (cc_CgroupNsCtr r) (cc_StaticIP r) (cc_StaticMAC r) (cc_PortMappings r) (cc_OldPortMappings r) (cc_Networks r) (cc_NetworksDeprecated r) (cc_NetMode r) (cc_StopTimeout r) (cc_RestartPolicy r) (cc_RestartRetries r) (cc_OCIRuntime r) (cc_IsInfra r) (cc_IsService r) (cc_InitContainerType r) (cc_NoCgroups r) (cc_CreateNetNS r) (cc_PostConfigureNetNS r) (cc_SpecNamespaces r) (cc_HealthCheckTest r) (cc_StartupHealthCheck r) (cc_Rootfs r) (cc_RootfsOverlay r) (cc_RootfsMapping r) (cc_Mounts r) (cc_ImageVolumes r) (cc_StopSignal r) (cc_SdNotifyMode r) (cc_CIDFile r) (cc_other r).

Definition cc_set_rewrite (v : bool) (r : ContainerConfig) : ContainerConfig :=
  mkContainerConfig (cc_ID r) (cc_Name r) (cc_Pod r) (cc_Namespace r) (cc_LockID r) (cc_Dependencies r) v (cc_NamedVolumes r) (cc_IPCNsCtr r) (cc_MountNsCtr r) (cc_NetNsCtr r) (cc_PIDNsCtr r) (cc_UserNsCtr r) (cc_UTSNsCtr r) (cc_CgroupNsCtr r) (cc_StaticIP r) (cc_StaticMAC r) (cc_PortMappings r) (cc_OldPortMappings r) (cc_Networks r) (cc_NetworksDeprecated r) (cc_NetMode r) (cc_StopTimeout r) (cc_RestartPolicy r) (cc_RestartRetries r) (cc_OCIRuntime r) (cc_IsInfra r) (cc_IsService r) (cc_InitContainerType r) (cc_NoCgroups r) (cc_CreateNetNS r) (cc_PostConfigureNetNS r) (cc_SpecNamespaces r) (cc_HealthCheckTest r) (cc_StartupHealthCheck r) (cc_Rootfs r) (cc_RootfsOverlay r) (cc_RootfsMapping r) (cc_Mounts r) (cc_ImageVolumes r) (cc_StopSignal r) (cc_SdNotifyMode r) (cc_CIDFile r) (cc_other r).

Definition cc_set_PortMappings (v : list PortMapping) (r : ContainerConfig) : ContainerConfig :=
  mkContainerConfig (cc_ID r) (cc_Name r) (cc_Pod r) (cc_Namespace r) (cc_LockID r) (cc_Dependencies r) (cc_rewrite r) (cc_NamedVolumes r) (cc_IPCNsCtr r) (cc_MountNsCtr r) (cc_NetNsCtr r) (cc_PIDNsCtr r) (cc_UserNsCtr r) (cc_UTSNsCtr r) (cc_CgroupNsCtr r) (cc_StaticIP r) (cc_StaticMAC r) v (cc_OldPortMappings r) (cc_Networks r) (cc_NetworksDeprecated r) (cc_NetMode r) (cc_StopTimeout r) (cc_RestartPolicy r) (cc_RestartRetries r) (cc_OCIRuntime r) (cc_IsInfra r) (cc_IsService r) (cc_InitContainerType r) (cc_NoCgroups r) (cc_CreateNetNS r) (cc_PostConfigureNetNS r) (cc_SpecNamespaces r) (cc_HealthCheckTest r) (cc_StartupHealthCheck r) (cc_Rootfs r) (cc_RootfsOverlay r) (cc_RootfsMapping r) (cc_Mounts r) (cc_ImageVolumes r) (cc_StopSignal r) (cc_SdNotifyMode r) (cc_CIDFile r) (cc_other r).

Definition cc_set_Networks (v : gmap string PerNetworkOptions) (r : ContainerConfig) : ContainerConfig :=
  mkContainerConfig (cc_ID r) (cc_Name r) (cc_Pod r) (cc_Namespace r) (cc_LockID r) (cc_Dependencies r) (cc_rewrite r) (cc_NamedVolumes r) (cc_IPCNsCtr r) (cc_MountNsCtr r) (cc_NetNsCtr r) (cc_PIDNsCtr r) (cc_UserNsCtr r) (cc_UTSNsCtr r) (cc_CgroupNsCtr r) (cc_StaticIP r) (cc_StaticMAC r) (cc_PortMappings r) (cc_OldPortMappings r) v (cc_NetworksDeprecated r) (cc_NetMode r) (cc_StopTimeout r) (cc_RestartPolicy r) (cc_RestartRetries r) (cc_OCIRuntime r) (cc_IsInfra r) (cc_IsService r) (cc_InitContainerType r) (cc_NoCgroups r) (cc_CreateNetNS r) (cc_PostConfigureNetNS r) (cc_SpecNamespaces r) (cc_HealthCheckTest r) (cc_StartupHealthCheck r) (cc_Rootfs r) (cc_RootfsOverlay r) (cc_RootfsMapping r) (cc_Mounts r) (cc_ImageVolumes r) (cc_StopSignal r) (cc_SdNotifyMode r) (cc_CIDFile r) (cc_other r).

Definition cc_set_OldPortMappings (v : list OCICNIPortMapping) (r : ContainerConfig) : ContainerConfig :=
  mkContainerConfig (cc_ID r) (cc_Name r) (cc_Pod r) (cc_Namespace r) (cc_LockID r) (cc_Dependencies r) (cc_rewrite r) (cc_NamedVolumes r) (cc_IPCNsCtr r) (cc_MountNsCtr r) (cc_NetNsCtr r) (cc_PIDNsCtr r) (cc_UserNsCtr r) (cc_UTSNsCtr r) (cc_CgroupNsCtr r) (cc_StaticIP r) (cc_StaticMAC r) (cc_PortMappings r) v (cc_Networks r) (cc_NetworksDeprecated r) (cc_NetMode r) (cc_StopTimeout r) (cc_RestartPolicy r) (cc_RestartRetries r) (cc_OCIRuntime r) (cc_IsInfra r) (cc_IsService r) (cc_InitContainerType r) (cc_NoCgroups r) (cc_CreateNetNS r) (cc_PostConfigureNetNS r) (cc_SpecNamespaces r) (cc_HealthCheckTest r) (cc_StartupHealthCheck r) (cc_Rootfs r) (cc_RootfsOverlay r) (cc_RootfsMapping r) (cc_Mounts r) (cc_ImageVolumes r) (cc_StopSignal r) (cc_SdNotifyMode r) (cc_CIDFile r) (cc_other r).

Definition cs_set_NetNS (v : string) (r : ContainerState) : ContainerState :=
  mkContainerState (cs_State r) (cs_ConfigPath r) (cs_RunDir r) (cs_Mounted r) (cs_Mountpoint r) (cs_StartedTime r) (cs_FinishedTime r) (cs_ExitCode r) (cs_Exited r) (cs_Error r) (cs_OOMKilled r) (cs_Checkpointed r) (cs_PID r) (cs_ConmonPID r) (cs_ExecSessions r) (cs_LegacyExecSessions r) v (cs_NetworkStatusOld r) (cs_NetworkStatus r) (cs_BindMounts r) (cs_StoppedByUser r) (cs_RestartPolicyMatch r) (cs_RestartCount r) (cs_StartupHCPassed r) (cs_StartupHCSuccessCount r) (cs_StartupHCFailureCount r) (cs_ExtensionStageHooks r) (cs_NetInterfaceDescriptions r) (cs_Service r) (cs_CheckpointedTime r) (cs_RestoredTime r) (cs_CheckpointLog r) (cs_CheckpointPath r) (cs_RestoreLog r) (cs_Restored r).

Definition cs_set_State (v : ContainerStatus) (r : ContainerState) : ContainerState :=
  mkContainerState v (cs_ConfigPath r) (cs_RunDir r) (cs_Mounted r) (cs_Mountpoint r) (cs_StartedTime r) (cs_FinishedTime r) (cs_ExitCode r) (cs_Exited r) (cs_Error r) (cs_OOMKilled r) (cs_Checkpointed r) (cs_PID r) (cs_ConmonPID r) (cs_ExecSessions r) (cs_LegacyExecSessions r) (cs_NetNS r) (cs_NetworkStatusOld r) (cs_NetworkStatus r) (cs_BindMounts r) (cs_StoppedByUser r) (cs_RestartPolicyMatch r) (cs_RestartCount r) (cs_StartupHCPassed r) (cs_StartupHCSuccessCount r) (cs_StartupHCFailureCount r) (cs_ExtensionStageHooks r) (cs_NetInterfaceDescriptions r) (cs_Service r) (cs_CheckpointedTime r) (cs_RestoredTime r) (cs_CheckpointLog r) (cs_CheckpointPath r) (cs_RestoreLog r) (cs_Restored r).

Definition pn_set_Aliases (v : list string) (r : PerNetworkOptions) : PerNetworkOptions :=
  mkPerNetworkOptions (pn_StaticIPs r) v (pn_StaticMAC r) (pn_InterfaceName r).

(** [resetContainerState] *)
Definition resetContainerState (state : ContainerState) : ContainerState := {|
  cs_State := if decide (cs_State state = ContainerStateExited) then cs_State state
                else ContainerStateConfigured;
  cs_ConfigPath := cs_ConfigPath state;
  cs_RunDir := cs_RunDir state;
  cs_Mounted := false;
  cs_Mountpoint := "";
  cs_StartedTime := cs_StartedTime state;
  cs_FinishedTime := cs_FinishedTime state;
  cs_ExitCode := cs_ExitCode state;
  cs_Exited := cs_Exited state;
  cs_Error := cs_Error state;
  cs_OOMKilled := cs_OOMKilled state;
  cs_Checkpointed := false;
  cs_PID := 0;
  cs_ConmonPID := 0;
  cs_ExecSessions := ∅;
  cs_LegacyExecSessions := ∅;
  cs_NetNS := "";
  cs_NetworkStatusOld := [];
  cs_NetworkStatus := ∅;
  cs_BindMounts := ∅;
  cs_StoppedByUser := false;
  cs_RestartPolicyMatch := false;
  cs_RestartCount := 0;
  cs_StartupHCPassed := false;
  cs_StartupHCSuccessCount := 0;
  cs_StartupHCFailureCount := 0;
  cs_ExtensionStageHooks := cs_ExtensionStageHooks state;
  cs_NetInterfaceDescriptions := cs_NetInterfaceDescriptions state;
  cs_Service := cs_Service state;
  cs_CheckpointedTime := 0;
  cs_RestoredTime := 0;
  cs_CheckpointLog := "";
  cs_CheckpointPath := "";
  cs_RestoreLog := "";
  cs_Restored := false |}.

(** [resetPodState] *)
Definition resetPodState (state : podState) : podState :=
  mkpodState "" (ps_InfraContainerID state).

(** [resetVolumeState] *)
Definition resetVolumeState (state : VolumeState) : VolumeState :=
  mkVolumeState "" 0 (vs_NeedsCopyUp state) (vs_NeedsChown state)
    (vs_UIDChowned state) (vs_GIDChowned state).

(** ** In-memory objects

    The structs that callers pass to the state.  [valid] is cleared by the state
    when it finds that the object is gone from the database. *)

(** Which OCI runtime a container was bound to when it was loaded. *)
Inductive OCIRuntimeRef : Type :=
| DefaultRuntime
| NamedRuntime (name : string)
| MissingRuntime (name : string).

Record Container : Type := mkContainer {
  ctr_config : ContainerConfig;
  ctr_state : ContainerState;
  ctr_valid : bool;
  ctr_lock : option Z;
  ctr_ociRuntime : option OCIRuntimeRef }.

Record Pod : Type := mkPod {
  pod_config : PodConfig;
  pod_state : podState;
  pod_valid : bool;
  pod_lock : option Z }.

Record Volume : Type := mkVolume {
  vol_config : VolumeConfig;
  vol_state : option VolumeState;
  vol_valid : bool;
  vol_plugin : option string;
  vol_lock : option Z }.

Definition ctr_ID (c : Container) : string := cc_ID (ctr_config c).
Definition ctr_Name (c : Container) : string := cc_Name (ctr_config c).
Definition pod_ID (p : Pod) : string := pc_ID (pod_config p).
Definition pod_Name (p : Pod) : string := pc_Name (pod_config p).
Definition vol_Name (v : Volume) : string := vc_Name (vol_config v).

(** [Container.Dependencies]: the namespace containers and the generic
    dependencies, collected in a map to remove duplicates. *)
Definition nsDependencies (c : ContainerConfig) : list string :=
  filter (λ s, s ≠ "")
    [cc_IPCNsCtr c; cc_MountNsCtr c; cc_NetNsCtr c; cc_PIDNsCtr c;
     cc_UserNsCtr c; cc_UTSNsCtr c; cc_CgroupNsCtr c].

Definition config_deps (c : ContainerConfig) : gset string :=
  list_to_set (nsDependencies c) ∪ list_to_set (cc_Dependencies c).

Definition Dependencies (c : Container) : list string :=
  elements (config_deps (ctr_config c)).

(** [NetworkMode.IsBridge] *)
Definition IsBridge (netMode : string) : bool := bool_decide (netMode = "bridge").

(** ** Facts *)

Lemma elem_of_Dependencies c d :
  d ∈ Dependencies c ↔ d ∈ config_deps (ctr_config c).
Proof. unfold Dependencies. by rewrite elem_of_elements. Qed.

Lemma NoDup_Dependencies c : NoDup (Dependencies c).
Proof. unfold Dependencies. apply NoDup_elements. Qed.

Lemma ContainerStatus_String_inj s t :
  ContainerStatus_String s = ContainerStatus_String t → s = t.
Proof. by destruct s, t. Qed.
