(* ===== verification/Ports.v ===== *)
(** * Ports: conversion of the port mappings of old configurations

    A model of [ocicniPortsToNetTypesPorts] and [compareOCICNIPorts]
    ([libpod/networking_common.go]): the ports of configurations written by
    older versions are sorted and merged into ranges. *)

From S2P Require Import Prelude Define.

Local Open Scope Z_scope.

(** [uint16(x)] and [int32(x)] *)
Definition uint16 (x : Z) : Z := x mod 2 ^ 16.
Definition int32 (x : Z) : Z := (x + 2 ^ 31) mod 2 ^ 32 - 2 ^ 31.

(** [i < j] on strings *)
Definition string_ltb (i j : string) : bool := String.ltb i j.

(** [compareOCICNIPorts] *)
Definition compareOCICNIPorts (i j : OCICNIPortMapping) : bool :=
  if decide (op_HostIP i ≠ op_HostIP j) then string_ltb (op_HostIP i) (op_HostIP j)
  else if decide (op_Protocol i ≠ op_Protocol j) then string_ltb (op_Protocol i) (op_Protocol j)
  else if decide (op_HostPort i ≠ op_HostPort j) then op_HostPort i <? op_HostPort j
  else op_ContainerPort i <? op_ContainerPort j.

(** [sort.Slice(ports, less)] places [i] before [j] when [less(i, j)]; elements
    that are equal for [less] are equal, so the sorted slice is unique. *)
Definition port_le (i j : OCICNIPortMapping) : Prop := compareOCICNIPorts j i = false.

#[export] Instance port_le_dec i j : Decision (port_le i j).
Proof. unfold port_le. apply _. Defined.

Definition sortPorts (ports : list OCICNIPortMapping) : list OCICNIPortMapping :=
  merge_sort port_le ports.

Definition startRange (p : OCICNIPortMapping) : PortMapping :=
  mkPortMapping (op_HostIP p) (uint16 (op_ContainerPort p)) (uint16 (op_HostPort p)) 1
    (op_Protocol p).

(** Whether [p] extends the range [cur] by one port, in the [int32] arithmetic of
    the source. *)
Definition extends (p : OCICNIPortMapping) (cur : PortMapping) : bool :=
  bool_decide (op_HostIP p = pm_HostIP cur) &&
  bool_decide (op_Protocol p = pm_Protocol cur) &&
  (int32 (op_HostPort p - pm_Range cur) =? pm_HostPort cur) &&
  (int32 (op_ContainerPort p - pm_Range cur) =? pm_ContainerPort cur).

Definition growRange (cur : PortMapping) : PortMapping :=
  mkPortMapping (pm_HostIP cur) (pm_ContainerPort cur) (pm_HostPort cur)
    (uint16 (pm_Range cur + 1)) (pm_Protocol cur).

Fixpoint mergeRanges (cur : PortMapping) (ports : list OCICNIPortMapping) : list PortMapping :=
  match ports with
  | [] => [cur]
  | p :: ports =>
      if extends p cur then mergeRanges (growRange cur) ports
      else cur :: mergeRanges (startRange p) ports
  end.

Definition ocicniPortsToNetTypesPorts (ports : list OCICNIPortMapping) : list PortMapping :=
  match sortPorts ports with
  | [] => []
  | p :: ports => mergeRanges (startRange p) ports
  end.
