(* ===== verification/Strconv.v ===== *)
(** * Strconv: the decimal conversions of Go's [strconv] package

    [strconv.Itoa] and [strconv.Atoi], used to store exit codes as text.  [int]
    is 64 bits wide. *)

From Stdlib Require Import Ascii DecimalString DecimalZ DecimalFacts.
From S2P Require Import Prelude Define.

Local Open Scope Z_scope.

Definition minInt64 : Z := - 2 ^ 63.
Definition maxInt64 : Z := 2 ^ 63 - 1.

Definition itoa (z : Z) : string := NilZero.string_of_int (Z.to_int z).

(** The digits after the optional sign; at least one is required. *)
Definition parseDigits (s : string) : option Z :=
  Z.of_uint <$> NilZero.uint_of_string s.

Definition parseSigned (s : string) : option Z :=
  match s with
  | String "-"%char s' => Z.opp <$> parseDigits s'
  | String "+"%char s' => parseDigits s'
  | _ => parseDigits s
  end.

Definition atoi (s : string) : result error Z :=
  match parseSigned s with
  | Some z => if decide (minInt64 ≤ z ≤ maxInt64) then Ok z else Err ErrNumSyntax
  | None => Err ErrNumSyntax
  end.

(** ** Round trip *)

Lemma string_of_uint_head d :
  ∃ c s, NilZero.string_of_uint d = String c s ∧ c ≠ "-"%char ∧ c ≠ "+"%char.
Proof. destruct d; simpl; eexists _, _; done. Qed.

Lemma parseDigits_string_of_uint d :
  d ≠ Decimal.Nil → parseDigits (NilZero.string_of_uint d) = Some (Z.of_uint d).
Proof. intros Hd. unfold parseDigits. by rewrite NilZero.usu. Qed.

Lemma parseSigned_string_of_int d :
  d ≠ Decimal.Pos Decimal.Nil → d ≠ Decimal.Neg Decimal.Nil →
  parseSigned (NilZero.string_of_int d) = Some (Z.of_int d).
Proof.
  intros Hp Hn. destruct d as [d|d]; simpl.
  - assert (d ≠ Decimal.Nil) by congruence.
    destruct (string_of_uint_head d) as (c & s & Hs & ? & ?).
    rewrite <- parseDigits_string_of_uint, Hs by done.
    unfold parseSigned.
    destruct c as [[] [] [] [] [] [] [] []]; done.
  - rewrite parseDigits_string_of_uint by congruence. done.
Qed.

Lemma to_int_not_nil z : Z.to_int z ≠ Decimal.Pos Decimal.Nil ∧ Z.to_int z ≠ Decimal.Neg Decimal.Nil.
Proof.
  destruct z as [|p|p]; simpl; split; intros [=Hn]; by apply (DecimalPos.Unsigned.to_uint_nonnil p).
Qed.

Lemma parseSigned_itoa z : parseSigned (itoa z) = Some z.
Proof.
  unfold itoa. destruct (to_int_not_nil z).
  by rewrite parseSigned_string_of_int, DecimalZ.of_to by done.
Qed.

Lemma atoi_itoa z : minInt64 ≤ z ≤ maxInt64 → atoi (itoa z) = Ok z.
Proof. intros. unfold atoi. rewrite parseSigned_itoa. by rewrite decide_True. Qed.
