(* ===== verification/Bolt.v ===== *)
(** * Bolt: the embedded key/value store

    A model of the part of [go.etcd.io/bbolt] that the state database calls:
    nested buckets, [Get], [Put], [Delete], [CreateBucket], [DeleteBucket],
    [ForEach], and the [View]/[Update] transactions, together with the
    connection handling of [BoltState] ([getDBCon], [deferredCloseDBCon]).

    A database is a finite map from paths to entries: the path of a key is the
    list of the names of the buckets that enclose it, followed by the key.  A
    bucket handle is the path of the bucket, so that two handles of one bucket
    alias, and a write through one is seen through the other.  The B+-tree
    pages of bbolt are not modelled. *)

From S2P Require Import Prelude Define.

(** ** The content of a database *)

Inductive entry : Type :=
| Val (v : string)
| Bkt.

#[export] Instance entry_eq_dec : EqDecision entry.
Proof. solve_decision. Defined.

Abbreviation path := (list string).
Abbreviation Db := (gmap (list string) entry).

(** [Bucket.Bucket], [Tx.Bucket]: the handle of a nested bucket, if it exists. *)
Definition bucket (db : Db) (b : path) (name : string) : option path :=
  match db !! (b ++ [name]) with Some Bkt => Some (b ++ [name]) | _ => None end.

(** [Bucket.Get] *)
Definition bget (db : Db) (b : path) (key : string) : option string :=
  match db !! (b ++ [key]) with Some (Val v) => Some v | _ => None end.

Definition MaxKeySize : Z := 32768.
Definition MaxValueSize : Z := 2 ^ 31 - 2.

(** A key that [Put] accepts. *)
Definition key_ok (key : string) : bool :=
  bool_decide (key ≠ "") && (Z.of_nat (String.length key) <=? MaxKeySize)%Z.
Definition value_ok (value : string) : bool :=
  (Z.of_nat (String.length value) <=? MaxValueSize)%Z.

(** [Bucket.Put] *)
Definition bput (b : path) (key value : string) (db : Db) : result error Db :=
  if decide (key = "") then Err ErrKeyRequired
  else if (MaxKeySize <? Z.of_nat (String.length key))%Z then Err ErrKeyTooLarge
  else if (MaxValueSize <? Z.of_nat (String.length value))%Z then Err ErrValueTooLarge
  else match db !! (b ++ [key]) with
       | Some Bkt => Err ErrIncompatibleValue
       | _ => Ok (<[b ++ [key] := Val value]> db)
       end.

(** [Bucket.Delete] *)
Definition bdelete (b : path) (key : string) (db : Db) : result error Db :=
  match db !! (b ++ [key]) with
  | None => Ok db
  | Some Bkt => Err ErrIncompatibleValue
  | Some (Val _) => Ok (delete (b ++ [key]) db)
  end.

(** [Bucket.CreateBucket] *)
Definition bcreate (b : path) (key : string) (db : Db) : result error Db :=
  if decide (key = "") then Err ErrBucketNameRequired
  else match db !! (b ++ [key]) with
       | Some Bkt => Err ErrBucketExists
       | Some (Val _) => Err ErrIncompatibleValue
       | None => Ok (<[b ++ [key] := Bkt]> db)
       end.

(** [Bucket.CreateBucketIfNotExists] *)
Definition bcreateIfNotExists (b : path) (key : string) (db : Db) : result error Db :=
  match bcreate b key db with
  | Err ErrBucketExists => Ok db
  | r => r
  end.

(** The subtree of a bucket: everything whose path starts with it. *)
Definition drop_subtree (p : path) (db : Db) : Db :=
  filter (λ kv : path * entry, ¬ (p `prefix_of` kv.1)) db.

(** [strip b p] is the key [k] such that [p] is [k] inside bucket [b]. *)
Fixpoint strip (b p : path) : option string :=
  match b, p with
  | [], [k] => Some k
  | x :: b, y :: p => if decide (x = y) then strip b p else None
  | _, _ => None
  end.

Definition key_le (x y : string * entry) : Prop := String.le x.1 y.1.

#[export] Instance key_le_dec x y : Decision (key_le x y) := String.le_dec x.1 y.1.

(** The keys of a bucket in the order in which [ForEach] visits them. *)
Definition children (b : path) (db : Db) : list (string * entry) :=
  merge_sort key_le
    (omap (λ pe : path * entry, (λ k, (k, pe.2)) <$> strip b pe.1) (map_to_list db)).

(** [Bucket.DeleteBucket].  Seeking the empty key in an empty bucket finds the
    (empty) end of the bucket, which bbolt reports as an incompatible value. *)
Definition bdeleteBucket (b : path) (key : string) (db : Db) : result error Db :=
  match db !! (b ++ [key]) with
  | Some Bkt => Ok (drop_subtree (b ++ [key]) db)
  | Some (Val _) => Err ErrIncompatibleValue
  | None => if decide (key = "" ∧ children b db = []) then Err ErrIncompatibleValue
            else Err ErrBucketNotFound
  end.

(** ** Facts about the store *)

Lemma strip_Some b p k : strip b p = Some k ↔ p = b ++ [k].
Proof.
  revert p. induction b as [|x b IH]; intros [|y p]; simpl.
  - done.
  - destruct p; split; intros; by simplify_eq.
  - done.
  - case_decide; simplify_eq.
    + rewrite IH. split; intros; by simplify_eq.
    + split; intros; by simplify_eq.
Qed.

Lemma elem_of_children b db k e :
  (k, e) ∈ children b db ↔ db !! (b ++ [k]) = Some e.
Proof.
  unfold children. rewrite merge_sort_Permutation, list_elem_of_omap. split.
  - intros ([p e'] & Hp & Hk). apply elem_of_map_to_list in Hp. simpl in Hk.
    destruct (strip b p) as [k'|] eqn:Hs; simplify_eq/=.
    apply strip_Some in Hs. by subst.
  - intros H. exists (b ++ [k], e). split; [by apply elem_of_map_to_list|].
    simpl. by rewrite (proj2 (strip_Some b (b ++ [k]) k)).
Qed.

Lemma children_sorted b db : StronglySorted key_le (children b db).
Proof.
  apply StronglySorted_merge_sort.
  - intros x y z; unfold key_le. apply String.le_po.
  - intros x y; unfold key_le. apply String.le_total.
Qed.

Lemma NoDup_children_keys b db : NoDup ((children b db).*1).
Proof.
  unfold children. rewrite merge_sort_Permutation.
  assert (H := NoDup_fst_map_to_list db).
  induction (map_to_list db) as [|[p e] l IH]; simpl; [constructor|].
  apply NoDup_cons in H as [Hn H]. destruct (strip b p) as [k|] eqn:Hs; simpl; [|by apply IH].
  apply NoDup_cons. split; [|by apply IH].
  intros ([k' e'] & ? & Hin)%list_elem_of_fmap. simplify_eq/=.
  apply list_elem_of_omap in Hin as ([p' e''] & Hin & Hk). simpl in Hk.
  destruct (strip b p') as [k|] eqn:Hs'; simplify_eq/=.
  apply strip_Some in Hs, Hs'. subst. apply Hn.
  apply list_elem_of_fmap. by exists (b ++ [k'], e').
Qed.

Lemma lookup_drop_subtree p q db :
  drop_subtree p db !! q = if decide (p `prefix_of` q) then None else db !! q.
Proof.
  unfold drop_subtree. case_decide as Hp.
  - apply map_lookup_filter_None_2. right. intros x _ Hx. by apply Hx.
  - destruct (db !! q) as [e|] eqn:Hq.
    + by apply map_lookup_filter_Some_2.
    + apply map_lookup_filter_None_2. by left.
Qed.

Lemma bput_Ok b k v db db' :
  bput b k v db = Ok db' ↔
  key_ok k = true ∧ value_ok v = true ∧ db !! (b ++ [k]) ≠ Some Bkt ∧
  db' = <[b ++ [k] := Val v]> db.
Proof.
  unfold bput, key_ok, value_ok.
  destruct (decide (k = "")) as [->|]; simpl.
  { split; [done|]. by intros ([=]&?). }
  rewrite bool_decide_true by done. simpl.
  destruct (Z.ltb_spec MaxKeySize (Z.of_nat (String.length k))).
  { split; [done|]. intros (?%Z.leb_le&?). lia. }
  destruct (Z.ltb_spec MaxValueSize (Z.of_nat (String.length v))).
  { split; [done|]. intros (_&?%Z.leb_le&?). lia. }
  rewrite !(proj2 (Z.leb_le _ _)) by done.
  destruct (db !! (b ++ [k])) as [[]|]; split;
    [intros [=]|intros (_&_&_&->)|done|intros (_&_&?&_)|intros [=]|intros (_&_&_&->)];
    auto; done.
Qed.

Lemma bcreate_Ok b k db db' :
  bcreate b k db = Ok db' ↔
  k ≠ "" ∧ db !! (b ++ [k]) = None ∧ db' = <[b ++ [k] := Bkt]> db.
Proof.
  unfold bcreate. case_decide; [split; [done|by intros (?&_)]|].
  destruct (db !! (b ++ [k])) as [[]|]; split;
    [done|intros (_&?&_)|done|intros (_&?&_)|intros [=]|intros (_&_&->)]; auto; done.
Qed.

Lemma bdelete_Ok b k db db' :
  bdelete b k db = Ok db' ↔
  db !! (b ++ [k]) ≠ Some Bkt ∧ db' = delete (b ++ [k]) db.
Proof.
  unfold bdelete. destruct (db !! (b ++ [k])) as [[]|] eqn:Hk; split;
    [intros [=]|intros (_&->)|done|intros (?&_)|intros [= <-]|intros (_&->)]; auto; try done.
  - split; [done|]. by rewrite delete_id.
  - by rewrite delete_id.
Qed.

Lemma bdeleteBucket_Ok b k db db' :
  bdeleteBucket b k db = Ok db' ↔
  db !! (b ++ [k]) = Some Bkt ∧ db' = drop_subtree (b ++ [k]) db.
Proof.
  unfold bdeleteBucket. destruct (db !! (b ++ [k])) as [[]|] eqn:Hk; split;
    try case_decide; [done|intros (?&_)|intros [=]|intros (_&->)|done|done|intros (?&_)|intros (?&_)];
    auto; done.
Qed.

Lemma bucket_Some db b k h : bucket db b k = Some h ↔ db !! (b ++ [k]) = Some Bkt ∧ h = b ++ [k].
Proof.
  unfold bucket. destruct (db !! (b ++ [k])) as [[]|]; split;
    [done|intros (?&_)|intros [=]|intros (_&->)|done|intros (?&_)]; auto; done.
Qed.

Lemma bucket_None db b k : bucket db b k = None ↔ db !! (b ++ [k]) ≠ Some Bkt.
Proof. unfold bucket. destruct (db !! (b ++ [k])) as [[]|]; split; done. Qed.

Lemma bget_Some db b k v : bget db b k = Some v ↔ db !! (b ++ [k]) = Some (Val v).
Proof.
  unfold bget. destruct (db !! (b ++ [k])) as [[]|]; split; intros; by simplify_eq.
Qed.

Lemma bget_None db b k : bget db b k = None ↔ ∀ v, db !! (b ++ [k]) ≠ Some (Val v).
Proof.
  unfold bget. destruct (db !! (b ++ [k])) as [[]|]; split; try done.
  intros H. by destruct (H v).
Qed.

(** ** Trees

    Everything in a database lies in a bucket: the path of an entry, less its
    last component, is the path of a bucket. *)

Definition Tree (db : Db) : Prop :=
  ∀ b k, is_Some (db !! (b ++ [k])) → b ≠ [] → db !! b = Some Bkt.

Lemma snoc_ne {A} (b : list A) k : b ++ [k] ≠ b.
Proof. intros Heq%(f_equal length). rewrite length_app in Heq. simpl in Heq. lia. Qed.

Lemma tree_empty : Tree ∅.
Proof. intros b k [e He]. by rewrite lookup_empty in He. Qed.

Lemma tree_insert b k e db :
  Tree db → (b ≠ [] → db !! b = Some Bkt) → (e = Bkt ∨ db !! (b ++ [k]) ≠ Some Bkt) →
  Tree (<[b ++ [k] := e]> db).
Proof.
  intros HT Hb He b' k' Hs Hb'.
  destruct (decide (b ++ [k] = b')) as [<-|Hne].
  - rewrite lookup_insert_eq. destruct He as [->|He]; [done|].
    rewrite lookup_insert_ne in Hs by (apply not_eq_sym, snoc_ne).
    destruct He. by eapply HT.
  - rewrite lookup_insert_ne by done.
    destruct (decide (b ++ [k] = b' ++ [k'])) as [Heq|Hne'].
    + apply app_inj_tail in Heq as [-> _]. by apply Hb.
    + rewrite lookup_insert_ne in Hs by done. by eapply HT.
Qed.

Lemma tree_delete b k db :
  Tree db → db !! (b ++ [k]) ≠ Some Bkt → Tree (delete (b ++ [k]) db).
Proof.
  intros HT Hk b' k' Hs Hb'.
  destruct (decide (b ++ [k] = b' ++ [k'])) as [Heq|Hne].
  { rewrite Heq, lookup_delete_eq in Hs. by destruct Hs. }
  rewrite lookup_delete_ne in Hs by done.
  rewrite lookup_delete_ne; [by eapply HT|].
  intros <-. destruct Hk. by eapply HT.
Qed.

Lemma tree_drop p db : Tree db → Tree (drop_subtree p db).
Proof.
  intros HT b k Hs Hb. rewrite lookup_drop_subtree in Hs |- *.
  case_decide as Hk; [by destruct Hs|].
  rewrite decide_False; [by eapply HT|].
  intros Hp. apply Hk. by apply prefix_app_r.
Qed.

Lemma tree_sub db b x rest :
  Tree db → b ≠ [] → is_Some (db !! (b ++ x :: rest)) → db !! b = Some Bkt.
Proof.
  intros HT. revert b x. induction rest as [|y rest IH]; intros b x Hb Hs; [by eapply HT|].
  eapply HT; [|done]. exists Bkt. apply (IH (b ++ [x]) y).
  - by destruct b.
  - by rewrite <- app_assoc.
Qed.

(** ** Erasing a set of paths

    Deletions of keys and of whole buckets compose to the erasure of a set of
    paths, given by its characteristic function. *)

Definition erase (P : path → bool) (db : Db) : Db :=
  filter (λ kv : path * entry, P kv.1 = false) db.

Lemma lookup_erase P db q : erase P db !! q = if P q then None else db !! q.
Proof.
  unfold erase. destruct (P q) eqn:HP.
  - apply map_lookup_filter_None_2. right. simpl. congruence.
  - destruct (db !! q) as [e|] eqn:Hq; [by apply map_lookup_filter_Some_2|].
    apply map_lookup_filter_None_2. by left.
Qed.

Lemma lookup_erase_Some P db q e : erase P db !! q = Some e ↔ P q = false ∧ db !! q = Some e.
Proof. rewrite lookup_erase. destruct (P q); naive_solver. Qed.

Lemma delete_erase p db : delete p db = erase (λ q, bool_decide (q = p)) db.
Proof.
  apply map_eq. intros q. rewrite lookup_erase. case_bool_decide; subst.
  - by rewrite lookup_delete_eq.
  - by rewrite lookup_delete_ne.
Qed.

Lemma drop_subtree_erase p db : drop_subtree p db = erase (λ q, bool_decide (p `prefix_of` q)) db.
Proof.
  apply map_eq. intros q. rewrite lookup_erase, lookup_drop_subtree.
  case_bool_decide; case_decide; done.
Qed.

Lemma erase_erase P Q db : erase P (erase Q db) = erase (λ q, Q q || P q) db.
Proof.
  apply map_eq. intros q. rewrite !lookup_erase. by destruct (P q), (Q q).
Qed.

Lemma erase_ext P Q db :
  (∀ q, is_Some (db !! q) → P q = Q q) → erase P db = erase Q db.
Proof.
  intros HPQ. apply map_eq. intros q. rewrite !lookup_erase.
  destruct (db !! q) as [e|] eqn:Hq; [|by destruct (P q), (Q q)].
  by rewrite HPQ by (by eexists).
Qed.

Lemma erase_none db : erase (λ _, false) db = db.
Proof. apply map_eq. intros q. by rewrite lookup_erase. Qed.

(** What is erased with a bucket includes its content. *)
Lemma tree_erase P db :
  (∀ b k, db !! b = Some Bkt → P b = true → P (b ++ [k]) = true) → Tree db → Tree (erase P db).
Proof.
  intros HP HT b k [e He] Hb. rewrite lookup_erase in He |- *.
  destruct (P (b ++ [k])) eqn:HPk; [done|].
  assert (Hbkt : db !! b = Some Bkt) by (by eapply HT).
  destruct (P b) eqn:HPb; [|done]. by rewrite HP in HPk.
Qed.

Lemma children_nil b db : (children b db).*1 = [] ↔ ∀ k, db !! (b ++ [k]) = None.
Proof.
  split.
  - intros Hn k. destruct (db !! (b ++ [k])) as [e|] eqn:Hk; [|done].
    apply elem_of_children in Hk. apply (list_elem_of_fmap_2 fst) in Hk.
    rewrite Hn in Hk. by apply not_elem_of_nil in Hk.
  - intros Hn. destruct (children b db) as [|[k e] l] eqn:Hc; [done|].
    assert (Hin : (k, e) ∈ children b db) by (rewrite Hc; by left).
    apply elem_of_children in Hin. by rewrite Hn in Hin.
Qed.

Lemma elem_of_keys b db k : k ∈ (children b db).*1 ↔ is_Some (db !! (b ++ [k])).
Proof.
  rewrite list_elem_of_fmap. split.
  - intros ([k' e] & -> & Hin%elem_of_children). by eexists.
  - intros [e He%elem_of_children]. by exists (k, e).
Qed.

Lemma prefix_of_two (a b : string) (q : path) :
  [a; b] `prefix_of` q ↔ ∃ rest, q = a :: b :: rest.
Proof. split; intros [k Hk]; [by exists k|]. by exists k. Qed.
