(* ===== verification/BoltTx.v ===== *)
(** * BoltTx: transactions and the connection of the state database

    The state of a [BoltState] value and of the database file it opens, the
    primitives of a transaction lifted to that state, [db.View] and
    [db.Update], and the connection handling of [boltdb_state_internal.go]
    ([getDBCon], [closeDBCon]). *)

From S2P Require Import Prelude Define Bolt.

(** Writes of the state to the objects that its callers hold. *)
Inductive effect : Type :=
| InvalidateCtr (id : string)   (* ctr.valid = false *)
| InvalidatePod (id : string)   (* pod.valid = false *)
| InvalidateVol (name : string) (* volume.valid = false *)
| ClearNetworks (id : string).  (* ctr.config.Networks = nil *)

#[export] Instance effect_eq_dec : EqDecision effect.
Proof. solve_decision. Defined.

(** [w_valid] and [w_dbLock] are the fields of [BoltState]; [w_db] is the content
    of the database file; [w_effects] the writes to the callers' objects, newest
    first; [w_ociRuntimes] the keys of [Runtime.ociRuntimes].  The two faults are
    the environment's: whether opening the file, or committing, fails. *)
Record World : Type := mkWorld {
  w_valid : bool;
  w_dbLock : bool;
  w_db : Db;
  w_effects : list effect;
  w_ociRuntimes : gset string;
  w_openFault : bool;
  w_commitFault : bool }.

Definition set_db (db : Db) (w : World) : World :=
  mkWorld (w_valid w) (w_dbLock w) db (w_effects w) (w_ociRuntimes w)
    (w_openFault w) (w_commitFault w).
Definition set_dbLock (b : bool) (w : World) : World :=
  mkWorld (w_valid w) b (w_db w) (w_effects w) (w_ociRuntimes w)
    (w_openFault w) (w_commitFault w).
Definition set_valid (b : bool) (w : World) : World :=
  mkWorld b (w_dbLock w) (w_db w) (w_effects w) (w_ociRuntimes w)
    (w_openFault w) (w_commitFault w).
Definition add_effect (e : effect) (w : World) : World :=
  mkWorld (w_valid w) (w_dbLock w) (w_db w) (e :: w_effects w) (w_ociRuntimes w)
    (w_openFault w) (w_commitFault w).
Definition add_ociRuntime (name : string) (w : World) : World :=
  mkWorld (w_valid w) (w_dbLock w) (w_db w) (w_effects w) ({[name]} ∪ w_ociRuntimes w)
    (w_openFault w) (w_commitFault w).

Abbreviation M := (ST error World).

(** ** Primitives of a transaction *)

Definition onDb (f : Db → result error Db) : M () := λ w,
  match f (w_db w) with
  | Ok db' => (Ok (), set_db db' w)
  | Err e => (Err e, w)
  end.

Definition Bucket (b : path) (name : string) : M (option path) :=
  gets (λ w, bucket (w_db w) b name).
Definition Get (b : path) (key : string) : M (option string) :=
  gets (λ w, bget (w_db w) b key).
Definition Put (b : path) (key value : string) : M () := onDb (bput b key value).
Definition Delete (b : path) (key : string) : M () := onDb (bdelete b key).
Definition CreateBucket (b : path) (key : string) : M path :=
  onDb (bcreate b key) ≫= λ _, mret (b ++ [key]).
Definition CreateBucketIfNotExists (b : path) (key : string) : M path :=
  onDb (bcreateIfNotExists b key) ≫= λ _, mret (b ++ [key]).
Definition DeleteBucket (b : path) (key : string) : M () := onDb (bdeleteBucket b key).

(** [Bucket.ForEach]; the callback never writes to the bucket it iterates over. *)
Definition ForEach (b : path) (f : string → entry → M ()) : M () :=
  gets (λ w, children b (w_db w)) ≫= λ l, forM_ l (λ kv, f kv.1 kv.2).

(** The keys that a [ForEach] which only collects them gathers. *)
Definition Keys (b : path) : M (list string) := gets (λ w, (children b (w_db w)).*1).

Definition invalidate (e : effect) : M () := modify (add_effect e).

(** Replace whatever error [m] returns by [e]. *)
Definition orErr {A} (m : M A) (e : error) : M A := λ w,
  match m w with
  | (Ok a, w') => (Ok a, w')
  | (Err _, w') => (Err e, w')
  end.

(** [db.Update]: roll the database back unless the closure and the commit
    succeed.  Writes to the callers' objects are not rolled back. *)
Definition Update {A} (body : M A) : M A := λ w,
  match body w with
  | (Ok a, w') =>
      if w_commitFault w then (Err ErrCommit, set_db (w_db w) w') else (Ok a, w')
  | (Err e, w') => (Err e, set_db (w_db w) w')
  end.

(** [db.View]: a read-only transaction. *)
Definition View {A} (body : M A) : M A := λ w,
  let (r, w') := body w in (r, set_db (w_db w) w').

(** ** The connection: [getDBCon] and the deferred [closeDBCon]

    The mutex of [BoltState] is locked before the file is opened and unlocked
    when the connection is closed; [getDBCon] returns with the mutex locked
    when opening fails. *)

Definition getDBCon : M () := λ w,
  if w_dbLock w then (Err Blocked, w)
  else let w1 := set_dbLock true w in
       if w_openFault w then (Err ErrOpen, w1) else (Ok (), w1).

Definition closeDBCon : M () := modify (set_dbLock false).

Definition withDB {A} (body : M A) : M A := λ w,
  match getDBCon w with
  | (Err e, w1) => (Err e, w1)
  | (Ok _, w1) => let (r, w2) := body w1 in (r, set_dbLock false w2)
  end.

(** [if !s.valid { return define.ErrDBClosed }] *)
Definition checkValid : M () :=
  gets w_valid ≫= λ v, failIf (negb v) ErrDBClosed.

(** [if x == nil { on_nil; return e }], the value otherwise. *)
Definition orNil {A} (x : option A) (onNil : M ()) (e : error) : M A :=
  match x with
  | Some a => mret a
  | None => onNil ≫= λ _, throw e
  end.

(** ** Inversion of runs *)

Lemma set_db_set_db d d' w : set_db d (set_db d' w) = set_db d w.
Proof. done. Qed.

Lemma set_db_id w : set_db (w_db w) w = w.
Proof. by destruct w. Qed.

Lemma onDb_Ok f w u w' :
  onDb f w = (Ok u, w') ↔ ∃ db', f (w_db w) = Ok db' ∧ w' = set_db db' w.
Proof.
  unfold onDb. destruct u. destruct (f (w_db w)) as [db'|e]; split.
  - intros [=]; eauto.
  - by intros (? & [=->] & ->).
  - done.
  - by intros (? & ? & ?).
Qed.

Lemma Put_Ok b k v w u w' :
  Put b k v w = (Ok u, w') ↔
  key_ok k = true ∧ value_ok v = true ∧ w_db w !! (b ++ [k]) ≠ Some Bkt ∧
  w' = set_db (<[b ++ [k] := Val v]> (w_db w)) w.
Proof.
  unfold Put. rewrite onDb_Ok. setoid_rewrite bput_Ok. split.
  - intros (db' & (?&?&?&->) & ->). done.
  - intros (?&?&?&->). by eexists.
Qed.

Lemma Delete_Ok b k w u w' :
  Delete b k w = (Ok u, w') ↔
  w_db w !! (b ++ [k]) ≠ Some Bkt ∧ w' = set_db (delete (b ++ [k]) (w_db w)) w.
Proof.
  unfold Delete. rewrite onDb_Ok. setoid_rewrite bdelete_Ok. split.
  - intros (db' & (?&->) & ->). done.
  - intros (?&->). by eexists.
Qed.

Lemma DeleteBucket_Ok b k w u w' :
  DeleteBucket b k w = (Ok u, w') ↔
  w_db w !! (b ++ [k]) = Some Bkt ∧ w' = set_db (drop_subtree (b ++ [k]) (w_db w)) w.
Proof.
  unfold DeleteBucket. rewrite onDb_Ok. setoid_rewrite bdeleteBucket_Ok. split.
  - intros (db' & (?&->) & ->). done.
  - intros (?&->). by eexists.
Qed.

Lemma CreateBucket_Ok b k w h w' :
  CreateBucket b k w = (Ok h, w') ↔
  k ≠ "" ∧ w_db w !! (b ++ [k]) = None ∧ h = b ++ [k] ∧
  w' = set_db (<[b ++ [k] := Bkt]> (w_db w)) w.
Proof.
  unfold CreateBucket. rewrite st_bind_Ok. setoid_rewrite onDb_Ok.
  setoid_rewrite bcreate_Ok. split.
  - intros (? & ? & (db' & (?&?&->) & ->) & [= <- <-]). done.
  - intros (?&?&->&->). by repeat eexists.
Qed.

Lemma CreateBucketIfNotExists_Ok b k w h w' :
  CreateBucketIfNotExists b k w = (Ok h, w') ↔
  k ≠ "" ∧ h = b ++ [k] ∧ (∀ v, w_db w !! (b ++ [k]) ≠ Some (Val v)) ∧
  w' = set_db (<[b ++ [k] := Bkt]> (w_db w)) w.
Proof.
  unfold CreateBucketIfNotExists. rewrite st_bind_Ok. setoid_rewrite onDb_Ok.
  unfold bcreateIfNotExists, bcreate.
  destruct (decide (k = "")).
  { split; [by intros (?&?&(?&?&?)&?)|by intros (?&?)]. }
  destruct (w_db w !! (b ++ [k])) as [[v|]|] eqn:Hk.
  - split; [by intros (?&?&(?&?&?)&?)|]. intros (_&_&Hv&_). by destruct (Hv v).
  - split.
    + intros (?&?&(?&[= <-]&->)&[= <- <-]). rewrite insert_id by done. done.
    + intros (_&->&_&->). rewrite insert_id by done. by repeat eexists.
  - split.
    + intros (?&?&(?&[= <-]&->)&[= <- <-]). done.
    + intros (_&->&_&->). by repeat eexists.
Qed.

Lemma orErr_Ok {A} (m : M A) e w a w' : orErr m e w = (Ok a, w') ↔ m w = (Ok a, w').
Proof. unfold orErr. destruct (m w) as [[]]; split; intros; by simplify_eq. Qed.

Lemma orNil_Ok {A} (x : option A) m e w a w' :
  orNil x m e w = (Ok a, w') ↔ x = Some a ∧ w' = w.
Proof.
  destruct x as [b|]; simpl.
  - unfold mret, st_ret. split; intros; [by simplify_eq|]. by destruct_and?; simplify_eq.
  - rewrite st_bind_Ok. split; [by intros (?&?&?&?)|by intros []].
Qed.

Lemma checkValid_Ok w u w' : checkValid w = (Ok u, w') ↔ w_valid w = true ∧ w' = w.
Proof.
  unfold checkValid. rewrite st_bind_Ok. split.
  - intros (v & w1 & [= <- <-] & (?%negb_false_iff & ->)%failIf_Ok). done.
  - intros [? ->]. eexists _, _. split; [done|]. apply failIf_Ok. by rewrite H.
Qed.

(** What a successful operation of the state did: it opened the database, ran
    its closure on its content and committed. *)
Lemma withDB_Ok {A} (body : M A) w a w' :
  withDB body w = (Ok a, w') ↔
  w_dbLock w = false ∧ w_openFault w = false ∧
  ∃ w1, body (set_dbLock true w) = (Ok a, w1) ∧ w' = set_dbLock false w1.
Proof.
  unfold withDB, getDBCon. destruct (w_dbLock w).
  { split; [done|by intros (?&_)]. }
  destruct (w_openFault w).
  { split; [done|by intros (_&?&_)]. }
  destruct (body (set_dbLock true w)) as [r w1]. split.
  - intros [= -> <-]. eauto.
  - by intros (_&_&w2&[= -> ->]&->).
Qed.

Lemma Update_Ok {A} (body : M A) w a w' :
  Update body w = (Ok a, w') ↔ body w = (Ok a, w') ∧ w_commitFault w = false.
Proof.
  unfold Update. destruct (body w) as [[b|e] w1]; [destruct (w_commitFault w)|];
    split; [done|by intros []|intros [=]; by subst|intros [[=]]; by subst|done|by intros []].
Qed.

Lemma View_Ok {A} (body : M A) w a w' :
  View body w = (Ok a, w') ↔ ∃ w1, body w = (Ok a, w1) ∧ w' = set_db (w_db w) w1.
Proof.
  unfold View. destruct (body w) as [r w1]. split.
  - intros [= -> <-]. eauto.
  - by intros (?&[= -> ->]&->).
Qed.

(** Whatever the outcome, a transaction leaves the database as it was or as its
    closure, having succeeded, made it. *)
Lemma withDB_Update_db {A} (body : M A) w r w' :
  withDB (Update body) w = (r, w') →
  w_db w' = w_db w ∨
  ∃ a w1, r = Ok a ∧ body (set_dbLock true w) = (Ok a, w1) ∧ w_db w' = w_db w1.
Proof.
  unfold withDB, getDBCon, Update. destruct (w_dbLock w); [intros [=]; subst; by left|].
  destruct (w_openFault w); [intros [=]; subst; by left|].
  destruct (body (set_dbLock true w)) as [[b|e] w1] eqn:Hb; cbn.
  - destruct (w_commitFault w); intros [=]; subst; cbn; [by left|].
    right. by eexists _, _.
  - intros [=]; subst; by left.
Qed.

Lemma withDB_View_db {A} (body : M A) w r w' :
  withDB (View body) w = (r, w') → w_db w' = w_db w.
Proof.
  unfold withDB, getDBCon, View. destruct (w_dbLock w); [intros [=]; by subst|].
  destruct (w_openFault w); [intros [=]; by subst|].
  destruct (body (set_dbLock true w)) as [r1 w1]. intros [=]; by subst.
Qed.

Lemma withDB_Update_Err {A} (body : M A) w e w' :
  withDB (Update body) w = (Err e, w') → w_db w' = w_db w.
Proof. intros [?|(?&?&?&?)]%withDB_Update_db; done. Qed.

(** ** Effects on the content

    An operation that leaves the content as it is, and one that does so when it
    fails. *)

Definition readonly {A} (m : M A) : Prop := ∀ w r w', m w = (r, w') → w_db w' = w_db w.
Definition atomic {A} (m : M A) : Prop := ∀ w e w', m w = (Err e, w') → w_db w' = w_db w.

Section effects.
Context {A B : Type}.

Lemma readonly_bind (m : M A) (f : A → M B) :
  readonly m → (∀ a, readonly (f a)) → readonly (m ≫= f).
Proof.
  intros Hm Hf w r w'. unfold mbind, st_bind. destruct (m w) as [[a|e] w1] eqn:Hw.
  - intros Hr. rewrite (Hf _ _ _ _ Hr). by eapply Hm.
  - intros [= <- <-]. by eapply Hm.
Qed.
Lemma readonly_ret (a : A) : readonly (mret a).
Proof. intros w r w' [= <- <-]. done. Qed.
Lemma readonly_throw e : readonly (throw e : M A).
Proof. intros w r w' [= <- <-]. done. Qed.
Lemma readonly_gets (f : World → A) : readonly (gets f).
Proof. intros w r w' [= <- <-]. done. Qed.
Lemma readonly_lift (x : result error A) : readonly (lift x : M A).
Proof. intros w r w' [= <- <-]. done. Qed.
Lemma readonly_failIf b e : readonly (failIf b e : M ()).
Proof. destruct b; intros w r w' [= <- <-]; done. Qed.
Lemma readonly_checkValid : readonly checkValid.
Proof.
  intros w r w'. unfold checkValid, mbind, st_bind, gets.
  destruct (w_valid w); intros [= <- <-]; done.
Qed.
Lemma readonly_effect e : readonly (modify (add_effect e)).
Proof. intros w r w' [= <- <-]. done. Qed.
Lemma readonly_valid b : readonly (modify (set_valid b)).
Proof. intros w r w' [= <- <-]. done. Qed.
Lemma readonly_View (m : M A) : readonly (View m).
Proof. intros w r w'. unfold View. destruct (m w). by intros [= <- <-]. Qed.
Lemma readonly_withDB (m : M A) : readonly m → readonly (withDB m).
Proof.
  intros Hm w r w'. unfold withDB, getDBCon. destruct (w_dbLock w); [intros [=]; by subst|].
  destruct (w_openFault w); [intros [=]; by subst|].
  destruct (m (set_dbLock true w)) as [r1 w1] eqn:Hw. intros [= <- <-]. cbn. by apply Hm in Hw.
Qed.

Lemma readonly_atomic (m : M A) : readonly m → atomic m.
Proof. intros Hm w e w' Hw. by eapply Hm. Qed.
Lemma atomic_bind (m : M A) (f : A → M B) :
  readonly m → (∀ a, atomic (f a)) → atomic (m ≫= f).
Proof.
  intros Hm Hf w e w'. unfold mbind, st_bind. destruct (m w) as [[a|e'] w1] eqn:Hw.
  - intros Hr. rewrite (Hf _ _ _ _ Hr). by eapply Hm.
  - intros [= <- <-]. by eapply Hm.
Qed.
Lemma atomic_Update (m : M A) : atomic (Update m).
Proof.
  intros w e w'. unfold Update. destruct (m w) as [[]]; [|by intros [= <- <-]].
  by destruct (w_commitFault w); intros [=]; subst.
Qed.
Lemma atomic_withDB (m : M A) : atomic m → atomic (withDB m).
Proof.
  intros Hm w e w'. unfold withDB, getDBCon. destruct (w_dbLock w); [intros [=]; by subst|].
  destruct (w_openFault w); [intros [=]; by subst|].
  destruct (m (set_dbLock true w)) as [r1 w1] eqn:Hw. intros [= -> <-]. cbn. by apply Hm in Hw.
Qed.
End effects.

#[export] Hint Resolve readonly_ret readonly_throw readonly_gets readonly_lift readonly_failIf
  readonly_checkValid readonly_effect readonly_valid readonly_View readonly_withDB atomic_Update atomic_withDB
  : libpod.
#[export] Hint Extern 1 (readonly (_ ≫= _)) => apply readonly_bind; [|intros ?] : libpod.
#[export] Hint Extern 2 (atomic (_ ≫= _)) => apply atomic_bind; [|intros ?] : libpod.
#[export] Hint Extern 3 (atomic _) => apply readonly_atomic : libpod.
#[export] Hint Extern 1 (readonly (if ?b then _ else _)) => destruct b : libpod.
#[export] Hint Extern 1 (atomic (if ?b then _ else _)) => destruct b : libpod.
#[export] Hint Extern 1 (readonly (match ?x with _ => _ end)) => destruct x : libpod.
#[export] Hint Extern 1 (atomic (match ?x with _ => _ end)) => destruct x : libpod.

(** ** Running operations on an open state

    The state is open, its mutex is free, and the environment raises no fault. *)

Record ready (w : World) : Prop := {
  ready_valid : w_valid w = true;
  ready_lock : w_dbLock w = false;
  ready_open : w_openFault w = false;
  ready_commit : w_commitFault w = false }.

Lemma ready_set_db db w : ready w → ready (set_db db w).
Proof. by intros [????]. Qed.

Section ready.
Context {A : Type} (w : World).
Hypothesis Hw : ready w.

Lemma ready_checkValid : checkValid w = (Ok (), w).
Proof. apply checkValid_Ok. split; [apply Hw|done]. Qed.

Lemma ready_Update (body : M A) a db :
  body (set_dbLock true w) = (Ok a, set_db db (set_dbLock true w)) →
  withDB (Update body) w = (Ok a, set_db db w).
Proof.
  intros Hb. destruct w, Hw; simpl in *; subst. unfold withDB, getDBCon, Update. simpl. by rewrite Hb.
Qed.

Lemma ready_Update_Err (body : M A) e w1 :
  body (set_dbLock true w) = (Err e, w1) →
  withDB (Update body) w = (Err e, set_dbLock false (set_db (w_db w) w1)).
Proof.
  intros Hb. destruct w, Hw; simpl in *; subst. unfold withDB, getDBCon, Update. simpl. by rewrite Hb.
Qed.

Lemma ready_View (body : M A) a :
  body (set_dbLock true w) = (Ok a, set_dbLock true w) → withDB (View body) w = (Ok a, w).
Proof.
  intros Hb. destruct w, Hw; simpl in *; subst. unfold withDB, getDBCon, View. simpl. by rewrite Hb.
Qed.

Lemma ready_View_Err (body : M A) e :
  body (set_dbLock true w) = (Err e, set_dbLock true w) → withDB (View body) w = (Err e, w).
Proof.
  intros Hb. destruct w, Hw; simpl in *; subst. unfold withDB, getDBCon, View. simpl. by rewrite Hb.
Qed.

(** Whether an update succeeds is whether its closure does. *)
Lemma ready_Update_Ok (body : M A) a w' :
  withDB (Update body) w = (Ok a, w') ↔
  ∃ w1, body (set_dbLock true w) = (Ok a, w1) ∧ w' = set_dbLock false w1.
Proof.
  rewrite withDB_Ok. setoid_rewrite Update_Ok. destruct Hw. cbn. naive_solver.
Qed.
End ready.
