(* ===== verification/BoltInternal.v ===== *)
(** * BoltInternal: the schema of the database and its internal operations

    A model of [libpod/boltdb_state_internal.go]: the bucket names, the
    accessors of the top-level buckets, the validation of the runtime
    configuration, loading containers, pods and volumes, and the bodies of
    container addition, removal and lookup. *)

From Stdlib Require Import Ascii.
From S2P Require Import Prelude Define Bolt BoltTx Ports.

(** ** What the state relies on outside of this package

    JSON encoding, time stamps, the lock manager, the configuration of the
    runtime and the file system are parameters of the model. *)

Class Json (A : Type) : Type := {
  marshal : A → result error string;
  unmarshal : string → result error A }.

Record StoreOptions : Type := mkStoreOptions {
  so_RunRoot : string;
  so_GraphRoot : string;
  so_GraphDriverName : string }.

Class Runtime : Type := {
  rt_json_ctrConfig :: Json ContainerConfig;
  rt_json_ctrState :: Json ContainerState;
  rt_json_podConfig :: Json PodConfig;
  rt_json_podState :: Json podState;
  rt_json_volConfig :: Json VolumeConfig;
  rt_json_volState :: Json VolumeState;
  rt_json_netOpts :: Json PerNetworkOptions;
  (* time.Now(), time.Time.MarshalText, time.Time.UnmarshalText *)
  rt_now : Z;
  rt_timeMarshal : Z → result error string;
  rt_timeUnmarshal : string → result error Z;
  (* lock.Manager.RetrieveLock *)
  rt_RetrieveLock : Z → result error Z;
  (* os.Stat finds a file that is not a directory; newConmonOCIRuntime succeeds *)
  rt_statFile : string → bool;
  rt_newConmonOCIRuntime : string → bool;
  (* Runtime.getVolumePlugin; the driver named "image" is a configured plugin *)
  rt_getVolumePlugin : VolumeConfig → result error string;
  rt_imagePlugin : bool;
  (* configuration *)
  rt_DefaultNetwork : string;
  rt_GOOS : string;
  rt_StaticDir : string;
  rt_TmpDir : string;
  rt_VolumePath : string;
  rt_storage : StoreOptions;
  rt_DefaultStoreOptions : result error StoreOptions }.

(** What survives a JSON round trip: [ContainerConfig.rewrite] is tagged
    ["json:-"]; every other modelled field is stored. *)
Class JsonView (A : Type) : Type := json_view : A → A.
#[export] Instance view_ctrConfig : JsonView ContainerConfig := cc_set_rewrite false.
#[export] Instance view_ctrState : JsonView ContainerState := id.
#[export] Instance view_podConfig : JsonView PodConfig := id.
#[export] Instance view_podState : JsonView podState := id.
#[export] Instance view_volConfig : JsonView VolumeConfig := id.
#[export] Instance view_volState : JsonView VolumeState := id.
#[export] Instance view_netOpts : JsonView PerNetworkOptions := id.

(** Documented behaviour of the encoders: decoding what was encoded gives the
    encoded value back. *)
Class JsonLaws (A : Type) `{Json A, JsonView A} : Prop :=
  unmarshal_marshal : ∀ (a : A) s, marshal a = Ok s → unmarshal s = Ok (json_view a).

Class RuntimeLaws `{Runtime} : Prop := {
  law_ctrConfig :: JsonLaws ContainerConfig;
  law_ctrState :: JsonLaws ContainerState;
  law_podConfig :: JsonLaws PodConfig;
  law_podState :: JsonLaws podState;
  law_volConfig :: JsonLaws VolumeConfig;
  law_volState :: JsonLaws VolumeState;
  law_netOpts :: JsonLaws PerNetworkOptions;
  law_time : ∀ t s, rt_timeMarshal t = Ok s → rt_timeUnmarshal s = Ok t }.

(** ** Bucket and key names *)

Definition idRegistryBkt : string := "id-registry".
Definition nameRegistryBkt : string := "name-registry".
Definition ctrBkt : string := "ctr".
Definition allCtrsBkt : string := "all-ctrs".
Definition podBkt : string := "pod".
Definition allPodsBkt : string := "allPods".
Definition volBkt : string := "vol".
Definition allVolsBkt : string := "allVolumes".
Definition execBkt : string := "exec".
Definition aliasesBkt : string := "aliases".
Definition runtimeConfigBkt : string := "runtime-config".
Definition volCtrsBkt : string := "volume-ctrs".
Definition exitCodeBkt : string := "exit-code".
Definition exitCodeTimeStampBkt : string := "exit-code-time-stamp".
Definition configKey : string := "config".
Definition stateKey : string := "state".
Definition dependenciesBkt : string := "dependencies".
Definition volDependenciesBkt : string := "vol-dependencies".
Definition netNSKey : string := "netns".
Definition containersBkt : string := "containers".
Definition podIDKey : string := "pod-id".
Definition networksBkt : string := "networks".
Definition staticDirKey : string := "static-dir".
Definition tmpDirKey : string := "tmp-dir".
Definition runRootKey : string := "run-root".
Definition graphRootKey : string := "graph-root".
Definition graphDriverKey : string := "graph-driver-name".
Definition osKey : string := "os".
Definition volPathKey : string := "volume-path".

(** ** Accessors of the top-level buckets *)

Definition getTopBucket (name : string) : M path :=
  Bucket [] name ≫= λ b, orNil b (mret ()) ErrDBBadConfig.

Definition getIDBucket : M path := getTopBucket idRegistryBkt.
Definition getNamesBucket : M path := getTopBucket nameRegistryBkt.
Definition getCtrBucket : M path := getTopBucket ctrBkt.
Definition getAllCtrsBucket : M path := getTopBucket allCtrsBkt.
Definition getPodBucket : M path := getTopBucket podBkt.
Definition getAllPodsBucket : M path := getTopBucket allPodsBkt.
Definition getVolBucket : M path := getTopBucket volBkt.
Definition getAllVolsBucket : M path := getTopBucket allVolsBkt.
Definition getExecBucket : M path := getTopBucket execBkt.
Definition getRuntimeConfigBucket : M path := getTopBucket runtimeConfigBkt.
Definition getExitCodeBucket : M path := getTopBucket exitCodeBkt.
Definition getExitCodeTimeStampBucket : M path := getTopBucket exitCodeTimeStampBkt.
Definition getVolumeContainersBucket : M path := getTopBucket volCtrsBkt.

(** ** Validation of the runtime configuration *)

Record dbConfigValidation : Type := mkdbConfigValidation {
  dcv_runtimeValue : string;
  dcv_key : string;
  dcv_defaultValue : string }.

(** [readOnlyValidateConfig] *)
Definition readOnlyValidateConfig (b : path) (toCheck : dbConfigValidation) : M bool :=
  keyBytes ← Get b (dcv_key toCheck);
  match keyBytes with
  | None => mret false
  | Some dbValue =>
      if decide (dcv_runtimeValue toCheck = dbValue) then mret true
      else if decide (dcv_runtimeValue toCheck = "" ∧ dcv_defaultValue toCheck ≠ "" ∧
                      dbValue = dcv_defaultValue toCheck) then mret true
      else if decide (dbValue = "" ∧ dcv_defaultValue toCheck ≠ "" ∧
                      dcv_runtimeValue toCheck = dcv_defaultValue toCheck) then mret true
      else throw ErrDBBadConfig
  end.

(** [filepath.Clean] on slash-separated paths: the components that remain, in
    reverse order. *)
Fixpoint split_slash (acc s : string) : list string :=
  match s with
  | EmptyString => [String.rev acc]
  | String c s =>
      if decide (c = "/"%char) then String.rev acc :: split_slash "" s
      else split_slash (String c acc) s
  end.

Fixpoint clean_components (rooted : bool) (out : list string) (l : list string) : list string :=
  match l with
  | [] => out
  | c :: l =>
      if decide (c = "" ∨ c = ".") then clean_components rooted out l
      else if decide (c = "..") then
        match out with
        | o :: out' => if decide (o = "..") then clean_components rooted (c :: out) l
                       else clean_components rooted out' l
        | [] => if rooted then clean_components rooted out l
                else clean_components rooted [c] l
        end
      else clean_components rooted (c :: out) l
  end.

Definition Clean (p : string) : string :=
  match p with
  | EmptyString => "."
  | _ =>
      let rooted := String.prefix "/" p in
      let s := String.concat "/" (rev (clean_components rooted [] (split_slash "" p))) in
      let s := if rooted then "/" +:+ s else s in
      if decide (s = "") then "." else s
  end.

(** [checkRuntimeConfig]: the values to validate *)
Definition configChecks `{Runtime} (storeOpts : StoreOptions) : list dbConfigValidation :=
  [ mkdbConfigValidation rt_GOOS osKey rt_GOOS;
    mkdbConfigValidation (Clean rt_StaticDir) staticDirKey "";
    mkdbConfigValidation (Clean rt_TmpDir) tmpDirKey "";
    mkdbConfigValidation (Clean (so_RunRoot rt_storage)) runRootKey (so_RunRoot storeOpts);
    mkdbConfigValidation (Clean (so_GraphRoot rt_storage)) graphRootKey (so_GraphRoot storeOpts);
    mkdbConfigValidation (so_GraphDriverName rt_storage) graphDriverKey (so_GraphDriverName storeOpts);
    mkdbConfigValidation rt_VolumePath volPathKey "" ].

(** The value recorded for a field that the database does not have. *)
Definition populateValue (missing : dbConfigValidation) : string :=
  if decide (dcv_runtimeValue missing = "" ∧ dcv_defaultValue missing ≠ "")
  then dcv_defaultValue missing else dcv_runtimeValue missing.

Definition checkRuntimeConfig `{Runtime} : M () :=
  storeOpts ← lift rt_DefaultStoreOptions;
  let checks := configChecks storeOpts in
  missingFields ← View (
    configBkt ← getRuntimeConfigBucket;
    foldM (λ missing check,
      exists_ ← readOnlyValidateConfig configBkt check;
      mret (if exists_ : bool then missing else missing ++ [check])) [] checks);
  match missingFields with
  | [] => mret ()
  | _ => Update (
      configBkt ← getRuntimeConfigBucket;
      forM_ missingFields (λ missing, Put configBkt (dcv_key missing) (populateValue missing)))
  end.

(** ** Loading containers, pods and volumes *)

Section internal.
Context `{Runtime}.

(** Ports stored by older versions are converted when a configuration is loaded;
    the conversion sorts the slice of old ports in place. *)
Definition migratePorts (config : ContainerConfig) : ContainerConfig :=
  if decide (cc_OldPortMappings config ≠ [] ∧ cc_PortMappings config = []) then
    cc_set_rewrite true
      (cc_set_OldPortMappings (sortPorts (cc_OldPortMappings config))
         (cc_set_PortMappings (ocicniPortsToNetTypesPorts (cc_OldPortMappings config)) config))
  else config.

Definition getContainerConfigFromDB (id : string) (ctrsBkt : path) : M ContainerConfig :=
  b ← Bucket ctrsBkt id;
  ctrBkt ← orNil b (mret ()) ErrNoSuchCtr;
  bytes ← Get ctrBkt configKey;
  configBytes ← orNil bytes (mret ()) ErrInternal;
  config ← lift (unmarshal configBytes);
  mret (migratePorts config).

(** [getContainerStateDB]: the state that is swapped into [ctr.state]. *)
Definition getContainerStateDB (id : string) (ctrID : string) (ctrsBkt : path) : M ContainerState :=
  b ← Bucket ctrsBkt id;
  ctrToUpdate ← orNil b (invalidate (InvalidateCtr ctrID)) ErrNoSuchCtr;
  bytes ← Get ctrToUpdate stateKey;
  newStateBytes ← orNil bytes (mret ()) ErrInternal;
  newState ← lift (unmarshal newStateBytes);
  netNSBytes ← Get ctrToUpdate netNSKey;
  match netNSBytes with
  | Some netNS => if decide (cs_NetNS newState = "") then mret (cs_set_NetNS netNS newState)
                  else mret newState
  | None => mret newState
  end.

(** Binding a container to its OCI runtime when it is loaded. *)
Definition resolveOCIRuntime (name : string) : M OCIRuntimeRef :=
  if decide (name = "") then mret DefaultRuntime
  else
    known ← gets (λ w, bool_decide (name ∈ w_ociRuntimes w));
    if known : bool then mret (NamedRuntime name)
    else if String.prefix "/" name && rt_statFile name && rt_newConmonOCIRuntime name then
      _ ← modify (add_ociRuntime name); mret (NamedRuntime name)
    else mret (MissingRuntime name).

Definition getContainerFromDB (id : string) (ctrsBkt : path) (loadState : bool) : M Container :=
  config ← getContainerConfigFromDB id ctrsBkt;
  state ← (if loadState then getContainerStateDB id (cc_ID config) ctrsBkt
           else mret newContainerState);
  lock ← lift (rt_RetrieveLock (cc_LockID config));
  oci ← resolveOCIRuntime (cc_OCIRuntime config);
  mret (mkContainer config state true (Some lock) (Some oci)).

Definition getPodFromDB (id : string) (podBkt : path) : M Pod :=
  b ← Bucket podBkt id;
  podDB ← orNil b (mret ()) ErrNoSuchPod;
  bytes ← Get podDB configKey;
  podConfigBytes ← orNil bytes (mret ()) ErrInternal;
  config ← lift (unmarshal podConfigBytes);
  lock ← lift (rt_RetrieveLock (pc_LockID config));
  mret (mkPod config newpodState true (Some lock)).

(** [Volume.UsesVolumeDriver] *)
Definition UsesVolumeDriver (config : VolumeConfig) : bool :=
  if decide (vc_Driver config = "image") then rt_imagePlugin
  else negb (bool_decide (vc_Driver config = "local") || bool_decide (vc_Driver config = "")).

Definition getVolumeFromDB (name : string) (volBkt : path) : M Volume :=
  b ← Bucket volBkt name;
  volDB ← orNil b (mret ()) ErrNoSuchVolume;
  bytes ← Get volDB configKey;
  volConfigBytes ← orNil bytes (mret ()) ErrInternal;
  config ← lift (unmarshal volConfigBytes);
  volStateBytes ← Get volDB stateKey;
  state ← match volStateBytes with
          | Some bs => lift (unmarshal bs)
          | None => mret newVolumeState
          end;
  let plugin := if UsesVolumeDriver config then
                  match rt_getVolumePlugin config with Ok p => Some p | Err _ => None end
                else None in
  lock ← lift (rt_RetrieveLock (vc_LockID config));
  mret (mkVolume config (Some state) true plugin (Some lock)).

(** ** Adding and removing containers *)

(** [ID[:12]] panics on shorter strings. *)
Definition shortID (id : string) : result error string :=
  if decide (12 ≤ String.length id) then Ok (String.substring 0 12 id) else Err Panic.

(** The network options to store, encoded before the database is locked. *)
Fixpoint marshalNetworks (id : string) (l : list (string * PerNetworkOptions))
    : result error (list (string * string)) :=
  match l with
  | [] => Ok []
  | (net, opts) :: l =>
      if decide (net = "") then Err ErrInvalidArg
      else if decide (pn_InterfaceName opts = "") then Err ErrInvalidArg
      else
        short ← shortID id;
        optBytes ← marshal (pn_set_Aliases (pn_Aliases opts ++ [short]) opts);
        rest ← marshalNetworks id l;
        mret ((net, optBytes) :: rest)
  end.

(** One iteration of the dependency loop of [addContainer]. *)
Definition addDependency (ctrID ctrName : string) (pod : option Pod) (ctrBucket : path)
    (dependsCtr : string) : M () :=
  b ← Bucket ctrBucket dependsCtr;
  depCtrBkt ← orNil b (mret ()) ErrNoSuchCtr;
  depCtrPod ← Get depCtrBkt podIDKey;
  _ ← match pod, depCtrPod with
      | Some _, None => throw ErrInvalidArg
      | Some p, Some depPod => when (depPod ≠ pod_ID p) ErrInvalidArg
      | None, Some _ => throw ErrInvalidArg
      | None, None => mret ()
      end;
  d ← Bucket depCtrBkt dependenciesBkt;
  depCtrDependsBkt ← orNil d (mret ()) ErrInternal;
  Put depCtrDependsBkt ctrID ctrName.

(** One iteration of the named-volume loop of [addContainer]. *)
Definition addVolumeDependency (ctrID : string) (volBkt : path) (vol : ContainerNamedVolume) : M () :=
  b ← Bucket volBkt (nv_Name vol);
  volDB ← orNil b (mret ()) ErrNoSuchVolume;
  ctrDepsBkt ← CreateBucketIfNotExists volDB volDependenciesBkt;
  depExists ← Get ctrDepsBkt ctrID;
  match depExists with
  | None => Put ctrDepsBkt ctrID ctrID
  | Some _ => mret ()
  end.

(** The check of the pod that [addContainer] is given: its containers bucket. *)
Definition addContainer_pod (pod : option Pod) : M (option path) :=
  match pod with
  | None => mret None
  | Some p =>
      podBucket ← getPodBucket;
      b ← Bucket podBucket (pod_ID p);
      podDB ← orNil b (invalidate (InvalidatePod (pod_ID p))) ErrNoSuchPod;
      c ← Bucket podDB containersBkt;
      podCtrs ← orNil c (mret ()) ErrInternal;
      mret (Some podCtrs)
  end.

(** The ID and the name of a new container must be free.  The error names the
    kind of the holder, as looked up in the bucket of all containers. *)
Definition checkIDName (ctrID ctrName : string) (idsBucket namesBucket allCtrsBucket : path) : M () :=
  idExist ← Get idsBucket ctrID;
  _ ← match idExist with
      | Some i => a ← Get allCtrsBucket i;
                  throw (match a with None => ErrPodExists | Some _ => ErrCtrExists end)
      | None => mret ()
      end;
  nameExist ← Get namesBucket ctrName;
  match nameExist with
  | Some n => a ← Get allCtrsBucket n;
              throw (match a with None => ErrPodExists | Some _ => ErrCtrExists end)
  | None => mret ()
  end.

(** The networks bucket of a new container; created only when there are any. *)
Definition putNetworks (newCtrBkt : path) (networks : list (string * string)) : M () :=
  match networks with
  | [] => mret ()
  | _ => ctrNetworksBkt ← CreateBucket newCtrBkt networksBkt;
         forM_ networks (λ no, Put ctrNetworksBkt no.1 no.2)
  end.

(** The part of the closure of [addContainer] that registers the container and
    fills its own bucket. *)
Definition addContainer_bucket (ctrID ctrName : string) (pod : option Pod)
    (configJSON stateJSON : string) (networks : list (string * string))
    (idsBucket namesBucket ctrBucket allCtrsBucket : path) : M () :=
  _ ← Put idsBucket ctrID ctrName;
  _ ← Put namesBucket ctrName ctrID;
  _ ← Put allCtrsBucket ctrID ctrName;
  newCtrBkt ← CreateBucket ctrBucket ctrID;
  _ ← Put newCtrBkt configKey configJSON;
  _ ← Put newCtrBkt stateKey stateJSON;
  _ ← match pod with Some p => Put newCtrBkt podIDKey (pod_ID p) | None => mret () end;
  _ ← putNetworks newCtrBkt networks;
  _ ← CreateBucket newCtrBkt dependenciesBkt;
  mret ().

(** The closure of [addContainer]. *)
Definition addContainer_tx (ctr : Container) (pod : option Pod)
    (configJSON stateJSON : string) (networks : list (string * string)) : M () :=
  let ctrID := ctr_ID ctr in
  let ctrName := ctr_Name ctr in
  idsBucket ← getIDBucket;
  namesBucket ← getNamesBucket;
  ctrBucket ← getCtrBucket;
  allCtrsBucket ← getAllCtrsBucket;
  volBkt ← getVolBucket;
  podCtrs ← addContainer_pod pod;
  _ ← checkIDName ctrID ctrName idsBucket namesBucket allCtrsBucket;
  _ ← addContainer_bucket ctrID ctrName pod configJSON stateJSON networks
        idsBucket namesBucket ctrBucket allCtrsBucket;
  _ ← forM_ (Dependencies ctr) (addDependency ctrID ctrName pod ctrBucket);
  _ ← match podCtrs with Some pc => Put pc ctrID ctrName | None => mret () end;
  forM_ (cc_NamedVolumes (ctr_config ctr)) (addVolumeDependency ctrID volBkt).

Definition addContainer (ctr : Container) (pod : option Pod) : M () :=
  let configNetworks := cc_Networks (ctr_config ctr) in
  _ ← modify (add_effect (ClearNetworks (ctr_ID ctr)));
  configJSON ← lift (marshal (cc_set_Networks ∅ (ctr_config ctr)));
  stateJSON ← lift (marshal (ctr_state ctr));
  networks ← lift (marshalNetworks (ctr_ID ctr) (map_to_list configNetworks));
  withDB (Update (addContainer_tx ctr pod configJSON stateJSON networks)).

(** The check of the pod that [removeContainer] is given: its bucket. *)
Definition removeContainer_pod (pod : option Pod) : M (option path) :=
  match pod with
  | None => mret None
  | Some p =>
      podBucket ← getPodBucket;
      b ← Bucket podBucket (pod_ID p);
      podDB ← orNil b (invalidate (InvalidatePod (pod_ID p))) ErrNoSuchPod;
      mret (Some podDB)
  end.

(** One iteration of the dependency loop of [removeContainer]. *)
Definition removeDependency (ctrID : string) (ctrBucket : path) (depCtr : string) : M () :=
  b ← Bucket ctrBucket depCtr;
  match b with
  | None => mret ()
  | Some depCtrBkt =>
      d ← Bucket depCtrBkt dependenciesBkt;
      match d with
      | None => mret ()
      | Some depCtrDependsBkt => Delete depCtrDependsBkt ctrID
      end
  end.

(** One iteration of the named-volume loop of [removeContainer].  The entry is
    deleted only when it is absent. *)
Definition removeVolumeDependency (ctrID : string) (volBkt : path) (vol : ContainerNamedVolume) : M () :=
  b ← Bucket volBkt (nv_Name vol);
  match b with
  | None => mret ()
  | Some volDB =>
      d ← Bucket volDB volDependenciesBkt;
      ctrDepsBkt ← orNil d (mret ()) ErrInternal;
      depExists ← Get ctrDepsBkt ctrID;
      match depExists with
      | None => Delete ctrDepsBkt ctrID
      | Some _ => mret ()
      end
  end.

Definition removeContainer (ctr : Container) (pod : option Pod) : M () :=
  let ctrID := ctr_ID ctr in
  let ctrName := ctr_Name ctr in
  idsBucket ← getIDBucket;
  namesBucket ← getNamesBucket;
  ctrBucket ← getCtrBucket;
  allCtrsBucket ← getAllCtrsBucket;
  volBkt ← getVolBucket;
  podDB ← removeContainer_pod pod;
  b ← Bucket ctrBucket ctrID;
  ctrExists ← orNil b (invalidate (InvalidateCtr ctrID)) ErrNoSuchCtr;
  _ ← match podDB with
      | None => mret ()
      | Some podDB =>
          c ← Bucket podDB containersBkt;
          match c with
          | None => mret ()
          | Some podCtrs =>
              ctrInPod ← Get podCtrs ctrID;
              _ ← orNil ctrInPod (mret ()) ErrNoSuchCtr;
              Delete podCtrs ctrID
          end
      end;
  e ← Bucket ctrExists execBkt;
  _ ← match e with
      | None => mret ()
      | Some ctrExecSessionsBkt =>
          sessions ← Keys ctrExecSessionsBkt;
          when (sessions ≠ []) ErrExecSessionExists
      end;
  d ← Bucket ctrExists dependenciesBkt;
  ctrDepsBkt ← orNil d (mret ()) ErrInternal;
  deps ← Keys ctrDepsBkt;
  _ ← when (deps ≠ []) ErrDepExists;
  _ ← orErr (DeleteBucket ctrBucket ctrID) ErrInternal;
  _ ← Delete idsBucket ctrID;
  _ ← Delete namesBucket ctrName;
  _ ← Delete allCtrsBucket ctrID;
  _ ← forM_ (Dependencies ctr) (removeDependency ctrID ctrBucket);
  forM_ (cc_NamedVolumes (ctr_config ctr)) (removeVolumeDependency ctrID volBkt).

(** ** Lookup by ID, name or unique ID prefix *)

(** The search for the one key that starts with [pre]; [e] when there are two. *)
Fixpoint searchPrefix (pre : string) (e : error) (found : option string)
    (l : list (string * entry)) : result error (option string) :=
  match l with
  | [] => Ok found
  | (k, _) :: l =>
      if String.prefix pre k then
        match found with
        | Some _ => Err e
        | None => searchPrefix pre e (Some k) l
        end
      else searchPrefix pre e found l
  end.

Definition lookupContainerID (idOrName : string) (ctrBucket namesBucket : path) : M string :=
  ctrExists ← Bucket ctrBucket idOrName;
  match ctrExists with
  | Some _ => mret idOrName
  | None =>
      fullID ← Get namesBucket idOrName;
      isCtr ← match fullID with
              | Some full => Bucket ctrBucket full
              | None => mret None
              end;
      match fullID, isCtr with
      | Some full, Some _ => mret full
      | _, _ =>
          keys ← gets (λ w, children ctrBucket (w_db w));
          id ← lift (searchPrefix idOrName ErrCtrExists None keys);
          orNil id (mret ()) ErrNoSuchCtr
      end
  end.

End internal.
