(* ===== verification/BoltState.v ===== *)
(** * BoltState: the operations of the state database

    A model of [libpod/boltdb_state.go], the BoltDB implementation of the
    [State] interface ([libpod/state.go]).  Each operation is the whole method:
    its argument checks, the connection, the transaction with its closure, and
    what it returns.  An operation that fills in an object of its caller
    ([UpdateContainer], [UpdatePod], [UpdateVolume]) returns the value that is
    assigned. *)

From S2P Require Import Prelude Define Bolt BoltTx Strconv BoltInternal.

(** Run [m] and go on when it fails, as code that logs an error does. *)
Definition attempt {A} (m : M A) : M (result error A) := λ w,
  let (r, w') := m w in (Ok r, w').

(** [m], and when it fails [h] before its error is returned. *)
Definition onErr {A} (m : M A) (h : M ()) : M A := λ w,
  match m w with
  | (Ok a, w') => (Ok a, w')
  | (Err e, w') => let (_, w'') := h w' in (Err e, w'')
  end.

(** A value of [ForEach]: nested buckets have the value nil, which reads as the
    empty byte string. *)
Definition entryBytes (e : entry) : string := match e with Val v => v | Bkt => "" end.

Section state.
Context `{Runtime}.

(** ** Opening and closing *)

Definition createBuckets : list string :=
  [idRegistryBkt; nameRegistryBkt; ctrBkt; allCtrsBkt; podBkt; allPodsBkt; volBkt;
   allVolsBkt; execBkt; runtimeConfigBkt; exitCodeBkt; exitCodeTimeStampBkt; volCtrsBkt].

Definition NewBoltState : M () :=
  fault ← gets w_openFault;
  _ ← failIf fault ErrOpen;
  needsUpdate ← View (gets (λ w, bool_decide (Exists (λ b, bucket (w_db w) [] b = None) createBuckets)));
  _ ← (if needsUpdate : bool then
         Update (forM_ createBuckets (λ b, _ ← CreateBucketIfNotExists [] b; mret ()))
       else mret ());
  modify (set_valid true).

Definition Close : M () := modify (set_valid false).

(** ** Refresh *)

Definition deleteAll (b : path) (ids : list string) : M () := forM_ ids (Delete b).

Definition refreshPod (podBkt : path) : M () :=
  bytes ← Get podBkt stateKey;
  stateBytes ← orNil bytes (mret ()) ErrInternal;
  state ← lift (unmarshal stateBytes);
  newStateBytes ← lift (marshal (resetPodState state));
  Put podBkt stateKey newStateBytes.

Definition refreshCtr (ctrBkt : path) : M () :=
  _ ← Delete ctrBkt netNSKey;
  bytes ← Get ctrBkt stateKey;
  stateBytes ← orNil bytes (mret ()) ErrInternal;
  state ← lift (unmarshal stateBytes);
  newStateBytes ← lift (marshal (resetContainerState state));
  _ ← Put ctrBkt stateKey newStateBytes;
  e ← Bucket ctrBkt execBkt;
  match e with
  | None => mret ()
  | Some ctrExecBkt => toRemove ← Keys ctrExecBkt; deleteAll ctrExecBkt toRemove
  end.

(** The closure over the ID registry; the accumulator is [toRemoveIDs]. *)
Definition refreshID (ctrsBucket podsBucket : path) (toRemoveIDs : list string)
    (kv : string * entry) : M (list string) :=
  let id := kv.1 in
  c ← Bucket ctrsBucket id;
  match c with
  | Some ctrBkt => _ ← refreshCtr ctrBkt; mret toRemoveIDs
  | None =>
      p ← Bucket podsBucket id;
      match p with
      | None => mret (toRemoveIDs ++ [id])
      | Some podBkt => _ ← refreshPod podBkt; mret toRemoveIDs
      end
  end.

Definition removeDangling (idBucket namesBucket : path) (id : string) : M () :=
  name ← Get idBucket id;
  _ ← match name with
      | None => mret ()
      | Some n => testID ← Get namesBucket n;
                  match testID with None => mret () | Some _ => Delete namesBucket n end
      end;
  Delete idBucket id.

Definition refreshVolume (volBucket : path) (id : string) (_ : entry) : M () :=
  b ← Bucket volBucket id;
  dbVol ← orNil b (mret ()) ErrInternal;
  volStateBytes ← Get dbVol stateKey;
  match volStateBytes with
  | None => mret ()
  | Some bs =>
      oldState ← lift (unmarshal bs);
      newState ← lift (marshal (resetVolumeState oldState));
      Put dbVol stateKey newState
  end.

Definition Refresh_tx : M () :=
  idBucket ← getIDBucket;
  namesBucket ← getNamesBucket;
  ctrsBucket ← getCtrBucket;
  podsBucket ← getPodBucket;
  allVolsBucket ← getAllVolsBucket;
  volBucket ← getVolBucket;
  execBucket ← getExecBucket;
  exitCodeBucket ← getExitCodeBucket;
  timeStampBucket ← getExitCodeTimeStampBucket;
  toRemoveExitCodes ← Keys exitCodeBucket;
  _ ← deleteAll exitCodeBucket toRemoveExitCodes;
  toRemoveTimeStamps ← Keys timeStampBucket;
  _ ← deleteAll timeStampBucket toRemoveTimeStamps;
  ids ← gets (λ w, children idBucket (w_db w));
  toRemoveIDs ← foldM (refreshID ctrsBucket podsBucket) [] ids;
  _ ← forM_ toRemoveIDs (removeDangling idBucket namesBucket);
  _ ← ForEach allVolsBucket (refreshVolume volBucket);
  toRemoveExec ← Keys execBucket;
  deleteAll execBucket toRemoveExec.

Definition Refresh : M () := _ ← checkValid; withDB (Update Refresh_tx).

(** ** Configuration *)

Record DBConfig : Type := mkDBConfig {
  dbc_LibpodRoot : string;
  dbc_LibpodTmp : string;
  dbc_StorageRoot : string;
  dbc_StorageTmp : string;
  dbc_GraphDriver : string;
  dbc_VolumePath : string }.

Definition GetDBConfig : M DBConfig :=
  _ ← checkValid;
  withDB (View (
    configBucket ← getRuntimeConfigBucket;
    libpodRoot ← Get configBucket staticDirKey;
    libpodTmp ← Get configBucket tmpDirKey;
    storageRoot ← Get configBucket graphRootKey;
    storageTmp ← Get configBucket runRootKey;
    graphDriver ← Get configBucket graphDriverKey;
    volumePath ← Get configBucket volPathKey;
    let str := default "" in
    mret (mkDBConfig (str libpodRoot) (str libpodTmp) (str storageRoot) (str storageTmp)
            (str graphDriver) (str volumePath)))).

Definition ValidateDBConfig : M () := _ ← checkValid; withDB checkRuntimeConfig.

(** ** Containers: retrieval *)

Definition GetContainerName (id : string) : M string :=
  _ ← when (id = "") ErrEmptyID;
  _ ← checkValid;
  withDB (View (
    idBkt ← getIDBucket;
    ctrsBkt ← getCtrBucket;
    nameBytes ← Get idBkt id;
    name ← orNil nameBytes (mret ()) ErrNoSuchCtr;
    c ← Bucket ctrsBkt id;
    _ ← orNil c (mret ()) ErrNoSuchCtr;
    mret name)).

Definition GetPodName (id : string) : M string :=
  _ ← when (id = "") ErrEmptyID;
  _ ← checkValid;
  withDB (View (
    idBkt ← getIDBucket;
    podBkt ← getPodBucket;
    nameBytes ← Get idBkt id;
    name ← orNil nameBytes (mret ()) ErrNoSuchPod;
    c ← Bucket podBkt id;
    _ ← orNil c (mret ()) ErrNoSuchPod;
    mret name)).

Definition Container (id : string) : M Container :=
  _ ← when (id = "") ErrEmptyID;
  _ ← checkValid;
  withDB (View (
    ctrBucket ← getCtrBucket;
    getContainerFromDB id ctrBucket false)).

Definition LookupContainerID (idOrName : string) : M string :=
  _ ← when (idOrName = "") ErrEmptyID;
  _ ← checkValid;
  withDB (View (
    ctrBucket ← getCtrBucket;
    namesBucket ← getNamesBucket;
    lookupContainerID idOrName ctrBucket namesBucket)).

Definition LookupContainer (idOrName : string) : M Define.Container :=
  _ ← when (idOrName = "") ErrEmptyID;
  _ ← checkValid;
  withDB (View (
    ctrBucket ← getCtrBucket;
    namesBucket ← getNamesBucket;
    id ← lookupContainerID idOrName ctrBucket namesBucket;
    getContainerFromDB id ctrBucket false)).

Definition HasContainer (id : string) : M bool :=
  _ ← when (id = "") ErrEmptyID;
  _ ← checkValid;
  withDB (View (
    ctrBucket ← getCtrBucket;
    ctrDB ← Bucket ctrBucket id;
    mret (bool_decide (is_Some ctrDB)))).

(** ** Containers: addition, removal, state *)

Definition AddContainer (ctr : Define.Container) : M () :=
  _ ← checkValid;
  _ ← failIf (negb (ctr_valid ctr)) ErrCtrRemoved;
  _ ← when (cc_Pod (ctr_config ctr) ≠ "") ErrInvalidArg;
  addContainer ctr None.

Definition RemoveContainer (ctr : Define.Container) : M () :=
  _ ← checkValid;
  _ ← when (cc_Pod (ctr_config ctr) ≠ "") ErrPodExists;
  withDB (Update (removeContainer ctr None)).

Definition UpdateContainer (ctr : Define.Container) : M ContainerState :=
  _ ← checkValid;
  _ ← failIf (negb (ctr_valid ctr)) ErrCtrRemoved;
  withDB (View (
    ctrBucket ← getCtrBucket;
    getContainerStateDB (ctr_ID ctr) (ctr_ID ctr) ctrBucket)).

(** The bucket of a container that the caller holds. *)
Definition ctrBucketOf (ctr : Define.Container) (ctrBucket : path) : M path :=
  b ← Bucket ctrBucket (ctr_ID ctr);
  orNil b (invalidate (InvalidateCtr (ctr_ID ctr))) ErrNoSuchCtr.

Definition SaveContainer (ctr : Define.Container) : M () :=
  _ ← checkValid;
  _ ← failIf (negb (ctr_valid ctr)) ErrCtrRemoved;
  stateJSON ← lift (marshal (ctr_state ctr));
  withDB (Update (
    ctrBucket ← getCtrBucket;
    ctrToSave ← ctrBucketOf ctr ctrBucket;
    _ ← Put ctrToSave stateKey stateJSON;
    if decide (cs_NetNS (ctr_state ctr) = "") then Delete ctrToSave netNSKey else mret ())).

Definition ContainerInUse (ctr : Define.Container) : M (list string) :=
  _ ← checkValid;
  _ ← failIf (negb (ctr_valid ctr)) ErrCtrRemoved;
  withDB (View (
    ctrBucket ← getCtrBucket;
    ctrDB ← ctrBucketOf ctr ctrBucket;
    d ← Bucket ctrDB dependenciesBkt;
    dependsBkt ← orNil d (mret ()) ErrInternal;
    Keys dependsBkt)).

Definition AllContainers (loadState : bool) : M (list Define.Container) :=
  _ ← checkValid;
  withDB (View (
    allCtrsBucket ← getAllCtrsBucket;
    ctrBucket ← getCtrBucket;
    ids ← gets (λ w, children allCtrsBucket (w_db w));
    foldM (λ ctrs kv,
      c ← Bucket ctrBucket kv.1;
      _ ← orNil c (mret ()) ErrInternal;
      r ← attempt (getContainerFromDB kv.1 ctrBucket loadState);
      mret (match r with Ok ctr => ctrs ++ [ctr] | Err _ => ctrs end)) [] ids)).

(** ** Networks *)

(** The first transaction of [GetNetworks]: the stored networks, and whether the
    entries have to be converted from the format of older versions. *)
Definition readNetworks (ctr : Define.Container)
    : M (gmap string PerNetworkOptions * bool) :=
  ctrBucket ← getCtrBucket;
  dbCtr ← ctrBucketOf ctr ctrBucket;
  n ← Bucket dbCtr networksBkt;
  match n with
  | None => mret (∅, true)
  | Some ctrNetworkBkt =>
      l ← gets (λ w, children ctrNetworkBkt (w_db w));
      foldM (λ (acc : gmap string PerNetworkOptions * bool) (kv : string * entry),
        match (unmarshal (entryBytes kv.2) : result error PerNetworkOptions) with
        | Ok opts => mret (<[kv.1 := opts]> acc.1, acc.2)
        | Err e =>
            if decide (entryBytes kv.2 = ctr_ID ctr)
            then mret (<[kv.1 := mkPerNetworkOptions [] [] "" ""]> acc.1, true)
            else throw e
        end) (∅, false) l
  end.

(** [getAliases] of [GetNetworks] *)
Definition getAliases (dbCtr : path) (network : string) : M (list string) :=
  a ← Bucket dbCtr aliasesBkt;
  match a with
  | None => mret []
  | Some ctrAliasesBkt =>
      n ← Bucket ctrAliasesBkt network;
      match n with
      | None => mret []
      | Some netAliasesBkt => Keys netAliasesBkt
      end
  end.

Definition interfaceName (ctr : Define.Container) (i : Z) (network : string) : result error string :=
  match cs_NetInterfaceDescriptions (ctr_state ctr) with
  | Some d => match d !! network with
              | Some val => Ok ("eth" +:+ itoa val)
              | None => Err ErrText
              end
  | None => Ok ("eth" +:+ itoa i)
  end.

Definition convertNetwork (ctr : Define.Container) (dbCtr ctrNetworkBkt : path)
    (acc : Z * gmap string PerNetworkOptions) (network : string)
    : M (Z * gmap string PerNetworkOptions) :=
  let i := acc.1 in
  intName ← lift (interfaceName ctr i network);
  aliases ← getAliases dbCtr network;
  short ← lift (shortID (ctr_ID ctr));
  let netOpts := mkPerNetworkOptions
    (if decide (i = 0%Z) then option_list (cc_StaticIP (ctr_config ctr)) else [])
    (aliases ++ [short])
    (if decide (i = 0%Z) then cc_StaticMAC (ctr_config ctr) else "")
    intName in
  optsBytes ← lift (marshal netOpts);
  _ ← Put ctrNetworkBkt network optsBytes;
  mret ((i + 1)%Z, <[network := netOpts]> acc.2).

Definition convertNetworks (ctr : Define.Container) (networks : gmap string PerNetworkOptions)
    : M (gmap string PerNetworkOptions) :=
  ctrBucket ← getCtrBucket;
  dbCtr ← ctrBucketOf ctr ctrBucket;
  n ← Bucket dbCtr networksBkt;
  bl ← match n with
       | None =>
           b ← CreateBucket dbCtr networksBkt;
           let l := cc_NetworksDeprecated (ctr_config ctr) in
           mret (b, match l with [] => [rt_DefaultNetwork] | _ => l end)
       | Some b => l ← Keys b; mret (b, l)
       end;
  acc ← foldM (convertNetwork ctr dbCtr bl.1) (0%Z, networks) bl.2;
  mret acc.2.

Definition GetNetworks (ctr : Define.Container) : M (gmap string PerNetworkOptions) :=
  _ ← checkValid;
  _ ← failIf (negb (ctr_valid ctr)) ErrCtrRemoved;
  if IsBridge (cc_NetMode (ctr_config ctr)) then
    withDB (
      nc ← View (readNetworks ctr);
      if nc.2 : bool then Update (convertNetworks ctr nc.1) else mret nc.1)
  else mret ∅.

Definition networkModify (ctr : Define.Container) (network : string) (opts : PerNetworkOptions)
    (new : bool) : M () :=
  _ ← checkValid;
  _ ← failIf (negb (ctr_valid ctr)) ErrCtrRemoved;
  _ ← when (network = "") ErrInvalidArg;
  optBytes ← lift (marshal opts);
  withDB (Update (
    ctrBucket ← getCtrBucket;
    dbCtr ← ctrBucketOf ctr ctrBucket;
    n ← Bucket dbCtr networksBkt;
    ctrNetworksBkt ← orNil n (mret ()) ErrNoSuchNetwork;
    netConnected ← Get ctrNetworksBkt network;
    _ ← match new, netConnected with
        | true, Some _ => throw ErrNetworkConnected
        | false, None => throw ErrNoSuchNetwork
        | _, _ => mret ()
        end;
    Put ctrNetworksBkt network optBytes)).

Definition NetworkConnect (ctr : Define.Container) (network : string) (opts : PerNetworkOptions) : M () :=
  networkModify ctr network opts true.
Definition NetworkModify (ctr : Define.Container) (network : string) (opts : PerNetworkOptions) : M () :=
  networkModify ctr network opts false.

Definition NetworkDisconnect (ctr : Define.Container) (network : string) : M () :=
  _ ← checkValid;
  _ ← failIf (negb (ctr_valid ctr)) ErrCtrRemoved;
  _ ← when (network = "") ErrInvalidArg;
  withDB (Update (
    ctrBucket ← getCtrBucket;
    dbCtr ← ctrBucketOf ctr ctrBucket;
    a ← Bucket dbCtr aliasesBkt;
    n ← Bucket dbCtr networksBkt;
    ctrNetworksBkt ← orNil n (mret ()) ErrNoSuchNetwork;
    netConnected ← Get ctrNetworksBkt network;
    _ ← orNil netConnected (mret ()) ErrNoSuchNetwork;
    _ ← Delete ctrNetworksBkt network;
    match a with
    | None => mret ()
    | Some ctrAliasesBkt =>
        bktExists ← Bucket ctrAliasesBkt network;
        match bktExists with
        | None => mret ()
        | Some _ => DeleteBucket ctrAliasesBkt network
        end
    end)).

Definition GetContainerConfig (id : string) : M ContainerConfig :=
  _ ← when (id = "") ErrEmptyID;
  _ ← checkValid;
  withDB (View (
    ctrBucket ← getCtrBucket;
    getContainerConfigFromDB id ctrBucket)).

(** ** Exit codes *)

Definition AddContainerExitCode (id : string) (exitCode : Z) : M () :=
  _ ← when (id = "") ErrEmptyID;
  _ ← checkValid;
  withDB (
    rawTimeStamp ← lift (rt_timeMarshal rt_now);
    Update (
      exitCodeBucket ← getExitCodeBucket;
      timeStampBucket ← getExitCodeTimeStampBucket;
      _ ← Put exitCodeBucket id (itoa exitCode);
      onErr (Put timeStampBucket id rawTimeStamp) (Delete exitCodeBucket id))).

Definition GetContainerExitCode (id : string) : M Z :=
  _ ← when (id = "") ErrEmptyID;
  _ ← checkValid;
  withDB (View (
    exitCodeBucket ← getExitCodeBucket;
    b ← Get exitCodeBucket id;
    rawExitCode ← orNil b (mret ()) ErrNoSuchExitCode;
    exitCode ← lift (atoi rawExitCode);
    mret (Ports.int32 exitCode))).

Definition GetContainerExitCodeTimeStamp (id : string) : M Z :=
  _ ← when (id = "") ErrEmptyID;
  _ ← checkValid;
  withDB (View (
    timeStampBucket ← getExitCodeTimeStampBucket;
    b ← Get timeStampBucket id;
    rawTimeStamp ← orNil b (mret ()) ErrNoSuchExitCode;
    lift (rt_timeUnmarshal rawTimeStamp))).

(** [time.Minute * 5] in nanoseconds *)
Definition pruneThreshold : Z := 5 * 60 * 1000000000.

Definition expired (kv : string * Z) : bool := (pruneThreshold <? rt_now - kv.2)%Z.

Definition PruneContainerExitCodes : M () :=
  _ ← checkValid;
  withDB (
    toRemoveIDs ← View (
      timeStampBucket ← getExitCodeTimeStampBucket;
      l ← gets (λ w, children timeStampBucket (w_db w));
      foldM (λ ids kv,
        timeStamp ← lift (rt_timeUnmarshal (entryBytes kv.2));
        mret (if expired (kv.1, timeStamp) then ids ++ [kv.1] else ids)) [] l);
    match toRemoveIDs with
    | [] => mret ()
    | _ => Update (
        exitCodeBucket ← getExitCodeBucket;
        timeStampBucket ← getExitCodeTimeStampBucket;
        finalErr ← foldM (λ (finalErr : option error) id,
          r1 ← attempt (Delete exitCodeBucket id);
          r2 ← attempt (Delete timeStampBucket id);
          let err1 := match r1 with Err e => Some e | Ok _ => finalErr end in
          mret (match r2 with Err e => Some e | Ok _ => err1 end)) None toRemoveIDs;
        match finalErr with Some e => throw e | None => mret () end)
    end).

(** ** Exec sessions *)

Definition AddExecSession (ctr : Define.Container) (session : ExecSession) : M () :=
  _ ← checkValid;
  _ ← failIf (negb (ctr_valid ctr)) ErrCtrRemoved;
  let ctrID := ctr_ID ctr in
  let sessionID := es_Id session in
  withDB (Update (
    execBucket ← getExecBucket;
    ctrBucket ← getCtrBucket;
    dbCtr ← ctrBucketOf ctr ctrBucket;
    ctrExecSessionBucket ← CreateBucketIfNotExists dbCtr execBkt;
    execExists ← Get execBucket sessionID;
    _ ← when (is_Some execExists) ErrExecSessionExists;
    _ ← Put execBucket sessionID ctrID;
    Put ctrExecSessionBucket sessionID ctrID)).

Definition GetExecSession (id : string) : M string :=
  _ ← checkValid;
  _ ← when (id = "") ErrEmptyID;
  withDB (View (
    execBucket ← getExecBucket;
    ctr ← Get execBucket id;
    orNil ctr (mret ()) ErrNoSuchExecSession)).

Definition RemoveExecSession (session : ExecSession) : M () :=
  _ ← checkValid;
  let sessionID := es_Id session in
  let containerID := es_ContainerId session in
  withDB (Update (
    execBucket ← getExecBucket;
    ctrBucket ← getCtrBucket;
    s ← Get execBucket sessionID;
    sessionExists ← orNil s (mret ()) ErrNoSuchExecSession;
    _ ← when (sessionExists ≠ containerID) ErrInternal;
    _ ← Delete execBucket sessionID;
    dbCtr ← Bucket ctrBucket containerID;
    match dbCtr with
    | None => mret ()
    | Some dbCtr =>
        e ← Bucket dbCtr execBkt;
        match e with
        | None => mret ()
        | Some ctrExecBucket =>
            ctrSessionExists ← Get ctrExecBucket sessionID;
            match ctrSessionExists with
            | None => mret ()
            | Some _ => Delete ctrExecBucket sessionID
            end
        end
    end)).

Definition GetContainerExecSessions (ctr : Define.Container) : M (list string) :=
  _ ← checkValid;
  _ ← failIf (negb (ctr_valid ctr)) ErrCtrRemoved;
  withDB (View (
    ctrBucket ← getCtrBucket;
    dbCtr ← ctrBucketOf ctr ctrBucket;
    e ← Bucket dbCtr execBkt;
    match e with
    | None => mret []
    | Some ctrExecSessions => Keys ctrExecSessions
    end)).

(** One iteration of the loop of [RemoveContainerExecSessions]. *)
Definition removeCtrSession (ctrID : string) (execBucket ctrExecSessions : path)
    (session : string) : M () :=
  _ ← Delete ctrExecSessions session;
  sessionExists ← Get execBucket session;
  match sessionExists with
  | None => mret ()
  | Some owner => _ ← when (owner ≠ ctrID) ErrInternal;
                  Delete execBucket session
  end.

Definition RemoveContainerExecSessions_tx (ctr : Define.Container) : M () :=
  execBucket ← getExecBucket;
  ctrBucket ← getCtrBucket;
  dbCtr ← ctrBucketOf ctr ctrBucket;
  e ← Bucket dbCtr execBkt;
  match e with
  | None => mret ()
  | Some ctrExecSessions =>
      sessions ← Keys ctrExecSessions;
      forM_ sessions (removeCtrSession (ctr_ID ctr) execBucket ctrExecSessions)
  end.

Definition RemoveContainerExecSessions (ctr : Define.Container) : M () :=
  _ ← checkValid;
  _ ← failIf (negb (ctr_valid ctr)) ErrCtrRemoved;
  withDB (Update (RemoveContainerExecSessions_tx ctr)).

(** ** Rewriting configurations *)

Definition RewriteContainerConfig (ctr : Define.Container) (newCfg : ContainerConfig) : M () :=
  _ ← checkValid;
  _ ← failIf (negb (ctr_valid ctr)) ErrCtrRemoved;
  newCfgJSON ← lift (marshal newCfg);
  withDB (Update (
    ctrBkt ← getCtrBucket;
    ctrDB ← ctrBucketOf ctr ctrBkt;
    Put ctrDB configKey newCfgJSON)).

(** The renaming part of [SafeRewriteContainerConfig]. *)
Definition renameContainer (ctr : Define.Container) (oldName newName : string) : M () :=
  idBkt ← getIDBucket;
  namesBkt ← getNamesBucket;
  allCtrsBkt ← getAllCtrsBucket;
  exists_ ← Get namesBkt newName;
  needsRename ← match exists_ with
                | None => mret true
                | Some holder => _ ← when (holder ≠ ctr_ID ctr) ErrCtrExists; mret false
                end;
  if needsRename : bool then
    _ ← Delete namesBkt oldName;
    _ ← Put idBkt (ctr_ID ctr) newName;
    _ ← Put namesBkt newName (ctr_ID ctr);
    _ ← Put allCtrsBkt (ctr_ID ctr) newName;
    let podID := cc_Pod (ctr_config ctr) in
    if decide (podID ≠ "") then
      podsBkt ← getPodBucket;
      p ← Bucket podsBkt podID;
      podBkt ← orNil p (mret ()) ErrInternal;
      c ← Bucket podBkt containersBkt;
      podCtrBkt ← orNil c (mret ()) ErrInternal;
      Put podCtrBkt (ctr_ID ctr) newName
    else mret ()
  else mret ().

(** The closure of [SafeRewriteContainerConfig]. *)
Definition SafeRewrite_tx (ctr : Define.Container) (oldName newName newCfgJSON : string) : M () :=
  _ ← (if decide (newName ≠ "") then renameContainer ctr oldName newName else mret ());
  ctrBkt ← getCtrBucket;
  ctrDB ← ctrBucketOf ctr ctrBkt;
  Put ctrDB configKey newCfgJSON.

Definition SafeRewriteContainerConfig (ctr : Define.Container) (oldName newName : string)
    (newCfg : ContainerConfig) : M () :=
  _ ← checkValid;
  _ ← failIf (negb (ctr_valid ctr)) ErrCtrRemoved;
  _ ← when (newName ≠ "" ∧ cc_Name newCfg ≠ newName) ErrInvalidArg;
  _ ← when (newName ≠ "" ∧ oldName = "") ErrInvalidArg;
  newCfgJSON ← lift (marshal newCfg);
  withDB (Update (SafeRewrite_tx ctr oldName newName newCfgJSON)).

(** The bucket of a pod, or of a volume, that the caller holds. *)
Definition podBucketOf (pod : Define.Pod) (podBkt : path) : M path :=
  b ← Bucket podBkt (pod_ID pod);
  orNil b (invalidate (InvalidatePod (pod_ID pod))) ErrNoSuchPod.
Definition volBucketOf (vol : Define.Volume) (volBkt : path) : M path :=
  b ← Bucket volBkt (vol_Name vol);
  orNil b (invalidate (InvalidateVol (vol_Name vol))) ErrNoSuchVolume.

Definition RewritePodConfig (pod : Define.Pod) (newCfg : PodConfig) : M () :=
  _ ← checkValid;
  _ ← failIf (negb (pod_valid pod)) ErrPodRemoved;
  newCfgJSON ← lift (marshal newCfg);
  withDB (Update (
    podBkt ← getPodBucket;
    podDB ← podBucketOf pod podBkt;
    Put podDB configKey newCfgJSON)).

Definition RewriteVolumeConfig (volume : Define.Volume) (newCfg : VolumeConfig) : M () :=
  _ ← checkValid;
  _ ← failIf (negb (vol_valid volume)) ErrVolumeRemoved;
  newCfgJSON ← lift (marshal newCfg);
  withDB (Update (
    volBkt ← getVolBucket;
    volDB ← volBucketOf volume volBkt;
    Put volDB configKey newCfgJSON)).

(** ** Pods *)

Definition Pod (id : string) : M Define.Pod :=
  _ ← when (id = "") ErrEmptyID;
  _ ← checkValid;
  withDB (View (
    podBkt ← getPodBucket;
    getPodFromDB id podBkt)).

Definition lookupPodID (idOrName : string) (podBkt namesBkt : path) : M string :=
  podExists ← Bucket podBkt idOrName;
  match podExists with
  | Some _ => mret idOrName
  | None =>
      fullID ← Get namesBkt idOrName;
      isPod ← match fullID with
              | Some full => Bucket podBkt full
              | None => mret None
              end;
      match fullID, isPod with
      | Some full, Some _ => mret full
      | _, _ =>
          keys ← gets (λ w, children podBkt (w_db w));
          id ← lift (searchPrefix idOrName ErrPodExists None keys);
          orNil id (mret ()) ErrNoSuchPod
      end
  end.

Definition LookupPod (idOrName : string) : M Define.Pod :=
  _ ← when (idOrName = "") ErrEmptyID;
  _ ← checkValid;
  withDB (View (
    podBkt ← getPodBucket;
    namesBkt ← getNamesBucket;
    id ← lookupPodID idOrName podBkt namesBkt;
    getPodFromDB id podBkt)).

Definition HasPod (id : string) : M bool :=
  _ ← when (id = "") ErrEmptyID;
  _ ← checkValid;
  withDB (View (
    podBkt ← getPodBucket;
    podDB ← Bucket podBkt id;
    mret (bool_decide (is_Some podDB)))).

(** The containers bucket of a pod that the caller holds. *)
Definition podCtrsOf (pod : Define.Pod) (podBkt : path) : M path :=
  podDB ← podBucketOf pod podBkt;
  c ← Bucket podDB containersBkt;
  orNil c (mret ()) ErrInternal.

Definition PodHasContainer (pod : Define.Pod) (id : string) : M bool :=
  _ ← when (id = "") ErrEmptyID;
  _ ← checkValid;
  _ ← failIf (negb (pod_valid pod)) ErrPodRemoved;
  withDB (View (
    podBkt ← getPodBucket;
    podCtrs ← podCtrsOf pod podBkt;
    ctr ← Get podCtrs id;
    mret (bool_decide (is_Some ctr)))).

Definition PodContainersByID (pod : Define.Pod) : M (list string) :=
  _ ← checkValid;
  _ ← failIf (negb (pod_valid pod)) ErrPodRemoved;
  withDB (View (
    podBkt ← getPodBucket;
    podCtrs ← podCtrsOf pod podBkt;
    Keys podCtrs)).

Definition PodContainers (pod : Define.Pod) : M (list Define.Container) :=
  _ ← checkValid;
  _ ← failIf (negb (pod_valid pod)) ErrPodRemoved;
  withDB (View (
    podBkt ← getPodBucket;
    ctrBkt ← getCtrBucket;
    podCtrs ← podCtrsOf pod podBkt;
    ids ← gets (λ w, children podCtrs (w_db w));
    foldM (λ ctrs kv,
      newCtr ← getContainerFromDB kv.1 ctrBkt false;
      mret (ctrs ++ [newCtr])) [] ids)).

(** ** Volumes *)

Definition AddVolume_tx (volume : Define.Volume) (volConfigJSON : string)
    (volStateJSON : option string) : M () :=
  let volName := vol_Name volume in
  volBkt ← getVolBucket;
  allVolsBkt ← getAllVolsBucket;
  volCtrsBkt ← getVolumeContainersBucket;
  volExists ← Get allVolsBkt volName;
  _ ← when (is_Some volExists) ErrVolumeExists;
  newVol ← CreateBucket volBkt volName;
  _ ← CreateBucket newVol volDependenciesBkt;
  _ ← Put newVol configKey volConfigJSON;
  _ ← match volStateJSON with Some js => Put newVol stateKey js | None => mret () end;
  _ ← (if decide (vc_StorageID (vol_config volume) ≠ "")
       then Put volCtrsBkt (vc_StorageID (vol_config volume)) volName else mret ());
  Put allVolsBkt volName volName.

Definition AddVolume (volume : Define.Volume) : M () :=
  _ ← checkValid;
  _ ← failIf (negb (vol_valid volume)) ErrVolumeRemoved;
  volConfigJSON ← lift (marshal (vol_config volume));
  volStateJSON ← match vol_state volume with
                 | Some st => js ← lift (marshal st); mret (Some js)
                 | None => mret None
                 end;
  withDB (Update (AddVolume_tx volume volConfigJSON volStateJSON)).

(** The containers of a volume's dependency bucket that still exist. *)
Definition volumeUsers (volCtrsBkt ctrBkt : path) : M (list string) :=
  gets (λ w, filter (λ id, is_Some (bucket (w_db w) ctrBkt id)) (children volCtrsBkt (w_db w)).*1).

Definition RemoveVolume_tx (volume : Define.Volume) : M () :=
  let volName := vol_Name volume in
  volBkt ← getVolBucket;
  allVolsBkt ← getAllVolsBucket;
  ctrBkt ← getCtrBucket;
  volCtrIDBkt ← getVolumeContainersBucket;
  volDB ← volBucketOf volume volBkt;
  v ← Bucket volDB volDependenciesBkt;
  _ ← match v with
      | None => mret ()
      | Some volCtrsBkt => deps ← volumeUsers volCtrsBkt ctrBkt;
                           when (deps ≠ []) ErrVolumeBeingUsed
      end;
  _ ← Delete allVolsBkt volName;
  _ ← DeleteBucket volBkt volName;
  if decide (vc_StorageID (vol_config volume) ≠ "")
  then Delete volCtrIDBkt (vc_StorageID (vol_config volume)) else mret ().

Definition RemoveVolume (volume : Define.Volume) : M () :=
  _ ← checkValid;
  withDB (Update (RemoveVolume_tx volume)).

Definition UpdateVolume (volume : Define.Volume) : M VolumeState :=
  _ ← checkValid;
  _ ← failIf (negb (vol_valid volume)) ErrVolumeRemoved;
  withDB (View (
    volBucket ← getVolBucket;
    volToUpdate ← volBucketOf volume volBucket;
    stateBytes ← Get volToUpdate stateKey;
    match stateBytes with
    | None => mret newVolumeState
    | Some bs => lift (unmarshal bs)
    end)).

Definition SaveVolume (volume : Define.Volume) : M () :=
  _ ← checkValid;
  _ ← failIf (negb (vol_valid volume)) ErrVolumeRemoved;
  newStateJSON ← match vol_state volume with
                 | Some st => lift (marshal st)
                 | None => mret ""
                 end;
  withDB (Update (
    volBucket ← getVolBucket;
    volToUpdate ← volBucketOf volume volBucket;
    Put volToUpdate stateKey newStateJSON)).

Definition AllVolumes : M (list Define.Volume) :=
  _ ← checkValid;
  withDB (View (
    allVolsBucket ← getAllVolsBucket;
    volBucket ← getVolBucket;
    ids ← gets (λ w, children allVolsBucket (w_db w));
    foldM (λ vols kv,
      v ← Bucket volBucket kv.1;
      _ ← orNil v (mret ()) ErrInternal;
      r ← attempt (getVolumeFromDB kv.1 volBucket);
      mret (match r with Ok vol => vols ++ [vol] | Err _ => vols end)) [] ids)).

Definition Volume (name : string) : M Define.Volume :=
  _ ← when (name = "") ErrEmptyID;
  _ ← checkValid;
  withDB (View (
    volBkt ← getVolBucket;
    getVolumeFromDB name volBkt)).

Definition LookupVolume (name : string) : M Define.Volume :=
  _ ← when (name = "") ErrEmptyID;
  _ ← checkValid;
  withDB (View (
    volBkt ← getVolBucket;
    allVolsBkt ← getAllVolsBucket;
    volDB ← Bucket volBkt name;
    match volDB with
    | Some _ => getVolumeFromDB name volBkt
    | None =>
        keys ← gets (λ w, children allVolsBkt (w_db w));
        found ← lift (searchPrefix name ErrVolumeExists None keys);
        volName ← orNil found (mret ()) ErrNoSuchVolume;
        getVolumeFromDB volName volBkt
    end)).

Definition HasVolume (name : string) : M bool :=
  _ ← when (name = "") ErrEmptyID;
  _ ← checkValid;
  withDB (View (
    volBkt ← getVolBucket;
    volDB ← Bucket volBkt name;
    mret (bool_decide (is_Some volDB)))).

Definition VolumeInUse (volume : Define.Volume) : M (list string) :=
  _ ← checkValid;
  _ ← failIf (negb (vol_valid volume)) ErrVolumeRemoved;
  withDB (View (
    volBucket ← getVolBucket;
    ctrBucket ← getCtrBucket;
    volDB ← volBucketOf volume volBucket;
    d ← Bucket volDB volDependenciesBkt;
    dependsBkt ← orNil d (mret ()) ErrInternal;
    volumeUsers dependsBkt ctrBucket)).

(** ** Pods: addition, removal, membership *)

(** The closures of [AddPod], [RemovePod] and [RemovePodContainers]. *)
Definition AddPod_tx (podID podName podConfigJSON podStateJSON : string) : M () :=
  podBkt ← getPodBucket;
  allPodsBkt ← getAllPodsBucket;
  idsBkt ← getIDBucket;
  namesBkt ← getNamesBucket;
  idExist ← Get idsBkt podID;
  _ ← match idExist with
      | Some i => a ← Get allPodsBkt i;
                  throw (match a with None => ErrCtrExists | Some _ => ErrPodExists end)
      | None => mret ()
      end;
  nameExist ← Get namesBkt podName;
  _ ← match nameExist with
      | Some n => a ← Get allPodsBkt n;
                  throw (match a with None => ErrCtrExists | Some _ => ErrPodExists end)
      | None => mret ()
      end;
  newPod ← CreateBucket podBkt podID;
  _ ← CreateBucket newPod containersBkt;
  _ ← Put newPod configKey podConfigJSON;
  _ ← Put newPod stateKey podStateJSON;
  _ ← Put idsBkt podID podName;
  _ ← Put namesBkt podName podID;
  Put allPodsBkt podID podName.

Definition AddPod (pod : Define.Pod) : M () :=
  _ ← checkValid;
  _ ← failIf (negb (pod_valid pod)) ErrPodRemoved;
  podConfigJSON ← lift (marshal (pod_config pod));
  podStateJSON ← lift (marshal (pod_state pod));
  withDB (Update (AddPod_tx (pod_ID pod) (pod_Name pod) podConfigJSON podStateJSON)).

Definition RemovePod_tx (pod : Define.Pod) : M () :=
  let podID := pod_ID pod in
  podBkt ← getPodBucket;
  allPodsBkt ← getAllPodsBucket;
  idsBkt ← getIDBucket;
  namesBkt ← getNamesBucket;
  podDB ← podBucketOf pod podBkt;
  c ← Bucket podDB containersBkt;
  _ ← match c with
      | None => mret ()
      | Some podCtrsBkt => l ← Keys podCtrsBkt; when (l ≠ []) ErrCtrExists
      end;
  _ ← Delete idsBkt podID;
  _ ← Delete namesBkt (pod_Name pod);
  _ ← Delete allPodsBkt podID;
  DeleteBucket podBkt podID.

Definition RemovePod (pod : Define.Pod) : M () :=
  _ ← checkValid;
  _ ← failIf (negb (pod_valid pod)) ErrPodRemoved;
  withDB (Update (RemovePod_tx pod)).

(** The closure of [RemovePodContainers] over the containers of the pod. *)
Definition removePodContainer (ctrBkt allCtrsBkt idsBkt namesBkt podCtrsBkt : path)
    (id : string) (e : entry) : M () :=
  c ← Bucket ctrBkt id;
  ctr ← orNil c (mret ()) ErrNoSuchCtr;
  d ← Bucket ctr dependenciesBkt;
  _ ← match d with
      | None => mret ()
      | Some ctrDeps =>
          ForEach ctrDeps (λ depID _,
            exists_ ← Get podCtrsBkt depID;
            _ ← orNil exists_ (mret ()) ErrCtrExists; mret ())
      end;
  _ ← orErr (DeleteBucket ctrBkt id) ErrInternal;
  _ ← Delete idsBkt id;
  _ ← Delete namesBkt (entryBytes e);
  Delete allCtrsBkt id.

Definition RemovePodContainers_tx (pod : Define.Pod) : M () :=
  podBkt ← getPodBucket;
  ctrBkt ← getCtrBucket;
  allCtrsBkt ← getAllCtrsBucket;
  idsBkt ← getIDBucket;
  namesBkt ← getNamesBucket;
  podDB ← podBucketOf pod podBkt;
  c ← Bucket podDB containersBkt;
  podCtrsBkt ← orNil c (mret ()) ErrInternal;
  _ ← ForEach podCtrsBkt (removePodContainer ctrBkt allCtrsBkt idsBkt namesBkt podCtrsBkt);
  _ ← DeleteBucket podDB containersBkt;
  _ ← CreateBucket podDB containersBkt;
  mret ().

Definition RemovePodContainers (pod : Define.Pod) : M () :=
  _ ← checkValid;
  _ ← failIf (negb (pod_valid pod)) ErrPodRemoved;
  withDB (Update (RemovePodContainers_tx pod)).

Definition AddContainerToPod (pod : Define.Pod) (ctr : Define.Container) : M () :=
  _ ← checkValid;
  _ ← failIf (negb (pod_valid pod)) ErrPodRemoved;
  _ ← failIf (negb (ctr_valid ctr)) ErrCtrRemoved;
  _ ← when (cc_Pod (ctr_config ctr) ≠ pod_ID pod) ErrNoSuchCtr;
  addContainer ctr (Some pod).

Definition RemoveContainerFromPod (pod : Define.Pod) (ctr : Define.Container) : M () :=
  _ ← checkValid;
  _ ← failIf (negb (pod_valid pod)) ErrPodRemoved;
  _ ← when (cc_Pod (ctr_config ctr) = "") ErrNoSuchPod;
  _ ← when (cc_Pod (ctr_config ctr) ≠ pod_ID pod) ErrInvalidArg;
  withDB (Update (removeContainer ctr (Some pod))).

Definition UpdatePod (pod : Define.Pod) : M podState :=
  _ ← checkValid;
  _ ← failIf (negb (pod_valid pod)) ErrPodRemoved;
  withDB (View (
    podBkt ← getPodBucket;
    podDB ← podBucketOf pod podBkt;
    bytes ← Get podDB stateKey;
    podStateBytes ← orNil bytes (mret ()) ErrInternal;
    lift (unmarshal podStateBytes))).

Definition SavePod (pod : Define.Pod) : M () :=
  _ ← checkValid;
  _ ← failIf (negb (pod_valid pod)) ErrPodRemoved;
  stateJSON ← lift (marshal (pod_state pod));
  withDB (Update (
    podBkt ← getPodBucket;
    podDB ← podBucketOf pod podBkt;
    Put podDB stateKey stateJSON)).

Definition AllPods : M (list Define.Pod) :=
  _ ← checkValid;
  withDB (View (
    allPodsBucket ← getAllPodsBucket;
    podBucket ← getPodBucket;
    ids ← gets (λ w, children allPodsBucket (w_db w));
    foldM (λ pods kv,
      p ← Bucket podBucket kv.1;
      _ ← orNil p (mret ()) ErrInternal;
      r ← attempt (getPodFromDB kv.1 podBucket);
      mret (match r with Ok pod => pods ++ [pod] | Err _ => pods end)) [] ids)).

Definition ContainerIDIsVolume (id : string) : M bool :=
  _ ← checkValid;
  withDB (View (
    volCtrsBkt ← getVolumeContainersBucket;
    volName ← Get volCtrsBkt id;
    mret (bool_decide (is_Some volName)))).

End state.
