(* ===== verification/TestRuntime.v ===== *)
(** * TestRuntime: a concrete runtime

    An instance of the parameters of the state database ([BoltInternal.Runtime])
    that satisfies their laws: values are encoded as binary numerals, time
    stamps in decimal, and every lock can be retrieved.  The witnesses of the
    theorems about the database evaluate the model with it. *)

From Stdlib Require Import Ascii.
From S2P Require Import Prelude Define Bolt BoltTx Strconv BoltInternal BoltState.

Fixpoint pos_to_string (p : positive) : string :=
  match p with
  | xH => "1"
  | xO p => String "0" (pos_to_string p)
  | xI p => String "i" (pos_to_string p)
  end.

Fixpoint pos_of_string (s : string) : option positive :=
  match s with
  | EmptyString => None
  | String c s =>
      if decide (c = "1"%char) then Some xH
      else if decide (c = "0"%char) then xO <$> pos_of_string s
      else xI <$> pos_of_string s
  end.

Lemma pos_of_to_string p : pos_of_string (pos_to_string p) = Some p.
Proof. induction p as [p IH|p IH|]; simpl; [by rewrite IH..|done]. Qed.

(** Values that differ only in what is not stored are encoded alike. *)
Definition codec {A} `{Countable A, JsonView A} : Json A := {|
  marshal := λ a, Ok (pos_to_string (encode (json_view a)));
  unmarshal := λ s,
    match pos_of_string s ≫= decode with
    | Some a => Ok a
    | None => Err ErrJSON
    end |}.

Lemma codec_laws {A} `{Countable A, JsonView A} : @JsonLaws A codec _.
Proof.
  intros a s [= <-]. simpl. rewrite pos_of_to_string. simpl. by rewrite decode_encode.
Qed.

Definition testRuntime (now : Z) : Runtime := {|
  rt_json_ctrConfig := codec;
  rt_json_ctrState := codec;
  rt_json_podConfig := codec;
  rt_json_podState := codec;
  rt_json_volConfig := codec;
  rt_json_volState := codec;
  rt_json_netOpts := codec;
  rt_now := now;
  rt_timeMarshal := λ t, Ok (itoa t);
  rt_timeUnmarshal := λ s, match parseSigned s with Some z => Ok z | None => Err ErrTimeText end;
  rt_RetrieveLock := λ n, Ok n;
  rt_statFile := λ _, false;
  rt_newConmonOCIRuntime := λ _, false;
  rt_getVolumePlugin := λ _, Err ErrText;
  rt_imagePlugin := false;
  rt_DefaultNetwork := "podman";
  rt_GOOS := "linux";
  rt_StaticDir := "/var/lib/containers/storage/libpod";
  rt_TmpDir := "/run/libpod";
  rt_VolumePath := "/var/lib/containers/storage/volumes";
  rt_storage := mkStoreOptions "/run/containers/storage" "/var/lib/containers/storage" "overlay";
  rt_DefaultStoreOptions :=
    Ok (mkStoreOptions "/run/containers/storage" "/var/lib/containers/storage" "overlay") |}.

Lemma testRuntime_laws now : @RuntimeLaws (testRuntime now).
Proof.
  constructor; try apply codec_laws.
  intros t s [= <-]. simpl. by rewrite parseSigned_itoa.
Qed.

(** A runtime whose clock shows zero, an open state with an empty schema, and
    some objects to put into it. *)
#[export] Instance rt0 : Runtime := testRuntime 0.
#[export] Instance rt0_laws : @RuntimeLaws rt0 := testRuntime_laws 0.

Definition world0 : World := mkWorld false false ∅ [] ∅ false false.
Definition run {A} (m : M A) (w : World) : World := (m w).2.
Definition result_of {A} (m : M A) (w : World) : result error A := (m w).1.

Lemma run_eq {A} (m : M A) w r : result_of m w = r → m w = (r, run m w).
Proof. unfold result_of, run. intros <-. by destruct (m w). Qed.

Definition emptyWorld : World := run NewBoltState world0.

Definition mkCfg (id name : string) (deps : list string) (vols : list string) (pod : string)
    : ContainerConfig :=
  mkContainerConfig id name pod "" 1 deps false
    ((λ v, mkContainerNamedVolume v "/data" [] false "") <$> vols)
    "" "" "" "" "" "" "" None "" [] [] ∅ [] "bridge" 10 "" 0 "" false false ""
    false false false [] None false "" false None [] [] 0 "" None "".

Definition mkCtr (id name : string) (deps vols : list string) : Define.Container :=
  mkContainer (mkCfg id name deps vols "") newContainerState true None None.
Definition mkPodCtr (id name : string) (deps vols : list string) (pod : string) : Define.Container :=
  mkContainer (mkCfg id name deps vols pod) newContainerState true None None.
Definition mkPodObj (id name : string) : Define.Pod :=
  mkPod (mkPodConfig id name "" 2 false "" "") newpodState true None.
Definition mkVolObj (name : string) : Define.Volume :=
  mkVolume (mkVolumeConfig name 3 "" "" 0 ∅ false 0 0 0 0 false "" "" "" "") (Some newVolumeState) true None None.

Definition ctrA : Define.Container := mkCtr "aaaaaaaaaaaa0001" "alpha" [] [].
Definition ctrB : Define.Container := mkCtr "bbbbbbbbbbbb0002" "beta" ["aaaaaaaaaaaa0001"] [].
Definition podP : Define.Pod := mkPodObj "pppppppppppp0003" "pod1".
Definition volV : Define.Volume := mkVolObj "vol1".

(** Whether a state is open and free, by evaluation. *)
Definition readyb (w : World) : bool :=
  w_valid w && negb (w_dbLock w) && negb (w_openFault w) && negb (w_commitFault w).

Lemma readyb_ready w : readyb w = true → ready w.
Proof. unfold readyb. destruct w as [[] [] ? ? ? [] []]; simpl; intros [=]; by constructor. Qed.
