(* ===== verification/BoltInv.v ===== *)
(** * BoltInv: the consistency of the state database

    What the buckets of the database promise to one another: the registries of
    names and IDs are inverse to each other, every container and pod is
    registered, the dependency buckets mirror the dependencies of the stored
    configurations, pods list exactly their members, volumes in use exist, and
    the exec sessions of a container are registered.  The file also has the
    tactics that invert runs of transactions and evaluate lookups. *)

From S2P Require Import Prelude Define Bolt BoltTx Strconv BoltInternal BoltState.

(** ** Tactics *)

(** Two paths of different shapes, or with different constants, differ. *)
Ltac path_ne :=
  let H := fresh in intros H;
  first [ discriminate H
        | injection H; clear H; intros; subst; solve [congruence]
        | vm_compute in H; discriminate H
        | injection H; clear H; intros;
          repeat match goal with
                 | H : @eq string ?a ?b |- _ =>
                     first [ is_var a; subst a | is_var b; subst b
                           | exfalso; vm_compute in H; discriminate H ]
                 end; solve [congruence | eauto] ].

(** A decidable statement about constants. *)
Ltac by_dec := apply (bool_decide_unpack _); vm_compute; exact I.

Ltac lk1 :=
  match goal with
  | |- context [ <[?p := _]> _ !! ?q ] =>
      first [ rewrite (lookup_insert_ne _ p q) by path_ne
            | rewrite (lookup_insert_eq _ p) ]
  | |- context [ delete ?p _ !! ?q ] =>
      first [ rewrite (lookup_delete_ne _ p q) by path_ne
            | rewrite (lookup_delete_eq _ p) ]
  end.
Ltac lk1_in H :=
  match type of H with
  | context [ <[?p := _]> _ !! ?q ] =>
      first [ rewrite (lookup_insert_ne _ p q) in H by path_ne
            | rewrite (lookup_insert_eq _ p) in H ]
  | context [ delete ?p _ !! ?q ] =>
      first [ rewrite (lookup_delete_ne _ p q) in H by path_ne
            | rewrite (lookup_delete_eq _ p) in H ]
  end.
Ltac lk := repeat lk1.
Ltac lk_in H := repeat lk1_in H.
Ltac lk_all :=
  repeat match goal with
         | H : context [ _ !! _ ] |- _ => progress lk_in H
         end; lk.

Lemma getTopBucket_Ok name w b w' :
  getTopBucket name w = (Ok b, w') ↔ w_db w !! [name] = Some Bkt ∧ b = [name] ∧ w' = w.
Proof.
  unfold getTopBucket. rewrite st_bind_Ok. unfold Bucket, gets. split.
  - intros (x & w1 & [= <- <-] & Hn). apply orNil_Ok in Hn as [Hb ->].
    apply bucket_Some in Hb as [Hb ->]. done.
  - intros (Hb & -> & ->). eexists _, _. split; [done|]. apply orNil_Ok.
    split; [|done]. by apply bucket_Some.
Qed.

(** Invert one primitive of a successful run. *)
Ltac tx_step :=
  first
  [ st_step
  | match goal with
    | H : getTopBucket _ _ = (Ok _, _) |- _ =>
        apply getTopBucket_Ok in H as (? & -> & ->)
    | H : ?g _ = (Ok _, _) |- _ =>
        match g with
        | getIDBucket => unfold getIDBucket in H | getNamesBucket => unfold getNamesBucket in H
        | getCtrBucket => unfold getCtrBucket in H | getAllCtrsBucket => unfold getAllCtrsBucket in H
        | getPodBucket => unfold getPodBucket in H | getAllPodsBucket => unfold getAllPodsBucket in H
        | getVolBucket => unfold getVolBucket in H | getAllVolsBucket => unfold getAllVolsBucket in H
        | getExecBucket => unfold getExecBucket in H
        | getRuntimeConfigBucket => unfold getRuntimeConfigBucket in H
        | getExitCodeBucket => unfold getExitCodeBucket in H
        | getExitCodeTimeStampBucket => unfold getExitCodeTimeStampBucket in H
        | getVolumeContainersBucket => unfold getVolumeContainersBucket in H
        end
    | H : Put _ _ _ _ = (Ok _, _) |- _ => apply Put_Ok in H as (? & ? & ? & ->)
    | H : Delete _ _ _ = (Ok _, _) |- _ => apply Delete_Ok in H as (? & ->)
    | H : CreateBucket _ _ _ = (Ok _, _) |- _ => apply CreateBucket_Ok in H as (? & ? & -> & ->)
    | H : CreateBucketIfNotExists _ _ _ = (Ok _, _) |- _ =>
        apply CreateBucketIfNotExists_Ok in H as (? & -> & ? & ->)
    | H : DeleteBucket _ _ _ = (Ok _, _) |- _ => apply DeleteBucket_Ok in H as (? & ->)
    | H : orErr _ _ _ = (Ok _, _) |- _ => apply orErr_Ok in H
    | H : orNil _ _ _ _ = (Ok _, _) |- _ => apply orNil_Ok in H as [? ->]
    | H : checkValid _ = (Ok _, _) |- _ => apply checkValid_Ok in H as [? ->]
    | H : Bucket _ _ _ = (Ok _, _) |- _ => unfold Bucket in H
    | H : Get _ _ _ = (Ok _, _) |- _ => unfold Get in H
    | H : Keys _ _ = (Ok _, _) |- _ => unfold Keys in H
    | H : bucket _ _ _ = Some _ |- _ => apply bucket_Some in H as [? ->]
    | H : bget _ _ _ = Some _ |- _ => apply bget_Some in H
    | H : withDB _ _ = (Ok _, _) |- _ => apply withDB_Ok in H as (? & ? & ? & H & ->)
    | H : Update _ _ = (Ok _, _) |- _ => apply Update_Ok in H as [H ?]
    | H : View _ _ = (Ok _, _) |- _ => apply View_Ok in H as (? & H & ->)
    | H : (match ?x with _ => _ end) _ = (Ok _, _) |- _ => destruct x eqn:?
    end ].
Ltac tx_cbn := cbn [w_db set_db set_dbLock w_commitFault w_openFault app fst snd] in *;
  rewrite ?set_db_set_db in *.
Ltac tx_inv := repeat (tx_step; tx_cbn).

(** ** The invariant *)

Section inv.
Context `{Runtime}.

Definition is_ctr (db : Db) (i : string) : Prop := db !! [ctrBkt; i] = Some Bkt.
Definition is_pod (db : Db) (p : string) : Prop := db !! [podBkt; p] = Some Bkt.
Definition is_vol (db : Db) (v : string) : Prop := db !! [volBkt; v] = Some Bkt.
Definition id_name (db : Db) (i n : string) : Prop := db !! [idRegistryBkt; i] = Some (Val n).
Definition name_id (db : Db) (n i : string) : Prop := db !! [nameRegistryBkt; n] = Some (Val i).

#[global] Instance is_ctr_dec db i : Decision (is_ctr db i).
Proof. unfold is_ctr. apply _. Defined.
#[global] Instance is_pod_dec db i : Decision (is_pod db i).
Proof. unfold is_pod. apply _. Defined.
#[global] Instance is_vol_dec db i : Decision (is_vol db i).
Proof. unfold is_vol. apply _. Defined.

(** The configuration stored for container [i]. *)
Definition stored_config (db : Db) (i : string) (cfg : ContainerConfig) : Prop :=
  ∃ s, db !! [ctrBkt; i; configKey] = Some (Val s) ∧ unmarshal s = Ok cfg.

(** Which paths hold values and which hold buckets. *)
Definition flatBkts : list string :=
  [idRegistryBkt; nameRegistryBkt; allCtrsBkt; allPodsBkt; allVolsBkt; execBkt; volCtrsBkt;
   exitCodeBkt; exitCodeTimeStampBkt; runtimeConfigBkt].

Definition shape_ok (p : path) (e : entry) : bool :=
  match p with
  | [b; _] =>
      match e with
      | Bkt => negb (bool_decide (b ∈ flatBkts))
      | Val _ => negb (bool_decide (b ∈ [ctrBkt; podBkt; volBkt]))
      end
  | [b; _; x] =>
      match e with
      | Bkt => negb (bool_decide (x ∈ [configKey; stateKey; netNSKey; podIDKey]))
      | Val _ => negb (bool_decide (x ∈ [dependenciesBkt; execBkt; networksBkt; aliasesBkt;
                                         volDependenciesBkt; containersBkt]))
      end
  | [b; _; x; _] =>
      match e with
      | Bkt => bool_decide (x = aliasesBkt)
      | Val _ => true
      end
  | _ => true
  end.

Definition Shape (db : Db) : Prop := map_Forall (λ p e, shape_ok p e = true) db.

(** The registries of IDs and names: global uniqueness of both. *)
Record RegistryInv (db : Db) : Prop := {
  inv_id_name : ∀ i n, id_name db i n ↔ name_id db n i;
  inv_all_ctrs : ∀ i n, db !! [allCtrsBkt; i] = Some (Val n) ↔ id_name db i n ∧ is_ctr db i;
  inv_all_pods : ∀ i n, db !! [allPodsBkt; i] = Some (Val n) ↔ id_name db i n ∧ is_pod db i;
  inv_owner : ∀ i n, id_name db i n → is_ctr db i ∨ is_pod db i;
  inv_ctr_reg : ∀ i, is_ctr db i → ∃ n, id_name db i n;
  inv_pod_reg : ∀ i, is_pod db i → ∃ n, id_name db i n;
  inv_disj : ∀ i, is_ctr db i → is_pod db i → False }.

(** Containers: configuration, state and dependency bucket are present, and the
    configuration agrees with the registry and with the pod key. *)
Record CtrInv (db : Db) : Prop := {
  inv_ctr_deps : ∀ i, is_ctr db i → db !! [ctrBkt; i; dependenciesBkt] = Some Bkt;
  inv_ctr_cfg : ∀ i, is_ctr db i → ∃ cfg, stored_config db i cfg ∧ cc_ID cfg = i ∧
    id_name db i (cc_Name cfg) ∧
    db !! [ctrBkt; i; podIDKey] = (if decide (cc_Pod cfg = "") then None else Some (Val (cc_Pod cfg)));
  inv_ctr_state : ∀ i, is_ctr db i → ∃ s (st : ContainerState),
    db !! [ctrBkt; i; stateKey] = Some (Val s) ∧ unmarshal s = Ok st }.

(** Dependencies: the bucket of [a] lists [b] exactly when [b] depends on [a];
    a dependency exists and belongs to the same pod. *)
Record DepInv (db : Db) : Prop := {
  inv_dep_stored : ∀ a b cfg, is_ctr db b → stored_config db b cfg → a ∈ config_deps cfg →
    is_ctr db a ∧ (∃ n, db !! [ctrBkt; a; dependenciesBkt; b] = Some (Val n)) ∧
    db !! [ctrBkt; a; podIDKey] = db !! [ctrBkt; b; podIDKey];
  inv_dep_listed : ∀ a b e, db !! [ctrBkt; a; dependenciesBkt; b] = Some e →
    is_ctr db b ∧ ∃ cfg, stored_config db b cfg ∧ a ∈ config_deps cfg }.

(** Pods: a pod lists exactly the containers that name it. *)
Record PodInv (db : Db) : Prop := {
  inv_pod_name : ∀ p, is_pod db p → p ≠ "" ∧ db !! [podBkt; p; containersBkt] = Some Bkt;
  inv_member : ∀ p c n, db !! [podBkt; p; containersBkt; c] = Some (Val n) ↔
    is_pod db p ∧ is_ctr db c ∧ db !! [ctrBkt; c; podIDKey] = Some (Val p) ∧ id_name db c n;
  inv_podid : ∀ c p, is_ctr db c → db !! [ctrBkt; c; podIDKey] = Some (Val p) → is_pod db p }.

(** Volumes: registered, and present while a container uses them. *)
Record VolInv (db : Db) : Prop := {
  inv_all_vols : ∀ v n, db !! [allVolsBkt; v] = Some (Val n) ↔ is_vol db v ∧ n = v;
  inv_vol_deps : ∀ v, is_vol db v → db !! [volBkt; v; volDependenciesBkt] = Some Bkt;
  inv_vol_used : ∀ c cfg v, is_ctr db c → stored_config db c cfg →
    v ∈ (nv_Name <$> cc_NamedVolumes cfg) →
    is_vol db v ∧ ∃ e, db !! [volBkt; v; volDependenciesBkt; c] = Some e }.

(** Exec sessions listed by a container are registered for it. *)
Record ExecInv (db : Db) : Prop := {
  inv_exec : ∀ c s e, db !! [ctrBkt; c; execBkt; s] = Some e →
    e = Val c ∧ db !! [execBkt; s] = Some (Val c) }.

Record Inv (db : Db) : Prop := {
  inv_tree : Tree db;
  inv_shape : Shape db;
  inv_schema : ∀ b, b ∈ createBuckets → db !! [b] = Some Bkt;
  inv_registry : RegistryInv db;
  inv_ctrs : CtrInv db;
  inv_dependencies : DepInv db;
  inv_pods : PodInv db;
  inv_vols : VolInv db;
  inv_sessions : ExecInv db }.

(** ** Consequences *)

Lemma shape_insert p e db : shape_ok p e = true → Shape db → Shape (<[p := e]> db).
Proof. intros. by apply map_Forall_insert_2. Qed.
Lemma shape_delete p db : Shape db → Shape (delete p db).
Proof. apply map_Forall_delete. Qed.
Lemma shape_drop p db : Shape db → Shape (drop_subtree p db).
Proof. intros Hs q e [Hq _]%map_lookup_filter_Some. by apply Hs. Qed.

Lemma shape_erase P db : Shape db → Shape (erase P db).
Proof. intros Hs q e [Hq _]%map_lookup_filter_Some. by apply Hs. Qed.

(** A lookup whose result the shape excludes. *)
Lemma shape_ne db p e : Shape db → shape_ok p e = false → db !! p ≠ Some e.
Proof. intros Hs Hf He%Hs. congruence. Qed.

(** Where the shape admits values only, [Delete] succeeds. *)
Lemma Delete_shape b k w :
  Shape (w_db w) → shape_ok (b ++ [k]) Bkt = false →
  Delete b k w = (Ok (), set_db (delete (b ++ [k]) (w_db w)) w).
Proof. intros. apply Delete_Ok. split; [by apply shape_ne|done]. Qed.

Lemma shape_nested db b k :
  Shape db → b ∈ [ctrBkt; podBkt; volBkt] → db !! [b; k] ≠ Some Bkt → db !! [b; k] = None.
Proof.
  intros Hs Hb Hk. destruct (db !! [b; k]) as [[v|]|] eqn:He; [|done..].
  apply Hs in He. simpl in He. by rewrite bool_decide_true in He.
Qed.

Lemma shape_flat db b k :
  Shape db → b ∈ flatBkts → bget db [b] k = None → db !! [b; k] = None.
Proof.
  intros Hs Hb Hk. destruct (db !! [b; k]) as [[v|]|] eqn:He; [| |done].
  - unfold bget in Hk. cbn [app] in Hk. by rewrite He in Hk.
  - apply Hs in He. simpl in He. by rewrite bool_decide_true in He.
Qed.

Lemma sub_ctr db i x rest e : Tree db → db !! (ctrBkt :: i :: x :: rest) = Some e → is_ctr db i.
Proof. intros HT He. by apply (tree_sub db [ctrBkt; i] x rest). Qed.
Lemma sub_pod db i x rest e : Tree db → db !! (podBkt :: i :: x :: rest) = Some e → is_pod db i.
Proof. intros HT He. by apply (tree_sub db [podBkt; i] x rest). Qed.
Lemma sub_vol db i x rest e : Tree db → db !! (volBkt :: i :: x :: rest) = Some e → is_vol db i.
Proof. intros HT He. by apply (tree_sub db [volBkt; i] x rest). Qed.

Lemma schema_all db : Inv db → Forall (λ b, db !! [b] = Some Bkt) createBuckets.
Proof. intros HI. apply Forall_forall. intros b. apply (inv_schema db HI). Qed.

Lemma stored_config_fun db i c1 c2 :
  stored_config db i c1 → stored_config db i c2 → c1 = c2.
Proof. intros (s1 & H1 & U1) (s2 & H2 & U2). rewrite H1 in H2. congruence. Qed.

Lemma id_name_fun db i n1 n2 : id_name db i n1 → id_name db i n2 → n1 = n2.
Proof. unfold id_name. congruence. Qed.

Lemma name_unique db i j n : RegistryInv db → id_name db i n → id_name db j n → i = j.
Proof. intros R Hi%(inv_id_name db R) Hj%(inv_id_name db R). unfold name_id in *. congruence. Qed.

(** *** Framing

    Entries that no clause of the invariant mentions: the settings, exit codes,
    networks, state and configuration of pods and volumes, and so on. *)

Definition core (p : path) : bool :=
  match p with
  | [_] => true
  | [b; _] => bool_decide (b ∈ [idRegistryBkt; nameRegistryBkt; allCtrsBkt; allPodsBkt; ctrBkt; podBkt])
  | [b; _; k] => bool_decide (b = ctrBkt ∧ k ∈ [configKey; podIDKey; dependenciesBkt] ∨
                              b = podBkt ∧ k = containersBkt)
  | [b; _; k; _] => bool_decide (b = ctrBkt ∧ k = dependenciesBkt ∨ b = podBkt ∧ k = containersBkt)
  | _ => false
  end.

Definition vol_path (p : path) : bool :=
  match p with
  | [b; _] => bool_decide (b ∈ [volBkt; allVolsBkt])
  | [b; _; k] => bool_decide (b = volBkt ∧ k = volDependenciesBkt)
  | [b; _; k; _] => bool_decide (b = volBkt ∧ k = volDependenciesBkt)
  | _ => false
  end.

Definition exec_path (p : path) : bool :=
  match p with
  | [b; _] => bool_decide (b = execBkt)
  | [b; _; k; _] => bool_decide (b = ctrBkt ∧ k = execBkt)
  | _ => false
  end.

Definition relevant (p : path) : bool := core p || vol_path p || exec_path p.

Definition states_decode (db : Db) : Prop := ∀ i, is_ctr db i → ∃ s (st : ContainerState),
  db !! [ctrBkt; i; stateKey] = Some (Val s) ∧ unmarshal s = Ok st.

Section frame.
Context (db db' : Db).
Hypothesis Hf : ∀ p, core p = true → db' !! p = db !! p.

Lemma frame_flat b k :
  b ∈ [idRegistryBkt; nameRegistryBkt; allCtrsBkt; allPodsBkt; ctrBkt; podBkt] →
  db' !! [b; k] = db !! [b; k].
Proof. intros. apply Hf. simpl. by apply bool_decide_eq_true. Qed.
Lemma frame_ctr i k :
  k ∈ [configKey; podIDKey; dependenciesBkt] → db' !! [ctrBkt; i; k] = db !! [ctrBkt; i; k].
Proof. intros. apply Hf. simpl. apply bool_decide_eq_true. auto. Qed.
Lemma frame_nested b i k x :
  b = ctrBkt ∧ k = dependenciesBkt ∨ b = podBkt ∧ k = containersBkt →
  db' !! [b; i; k; x] = db !! [b; i; k; x].
Proof. intros. apply Hf. simpl. by apply bool_decide_eq_true. Qed.
Lemma frame_is_ctr i : is_ctr db' i ↔ is_ctr db i.
Proof. unfold is_ctr. by rewrite frame_flat by by_dec. Qed.
Lemma frame_is_pod i : is_pod db' i ↔ is_pod db i.
Proof. unfold is_pod. by rewrite frame_flat by by_dec. Qed.
Lemma frame_id_name i n : id_name db' i n ↔ id_name db i n.
Proof. unfold id_name. by rewrite frame_flat by by_dec. Qed.
Lemma frame_name_id n i : name_id db' n i ↔ name_id db n i.
Proof. unfold name_id. by rewrite frame_flat by by_dec. Qed.
Lemma frame_stored i c : stored_config db' i c ↔ stored_config db i c.
Proof. unfold stored_config. by rewrite frame_ctr by by_dec. Qed.

Lemma frame_registry : RegistryInv db → RegistryInv db'.
Proof.
  intros [R1 R2 R3 R4 R5 R6 R7]. constructor.
  - intros. rewrite frame_id_name, frame_name_id. apply R1.
  - intros. rewrite frame_flat, frame_id_name, frame_is_ctr by by_dec. apply R2.
  - intros. rewrite frame_flat, frame_id_name, frame_is_pod by by_dec. apply R3.
  - intros *. rewrite frame_id_name, frame_is_ctr, frame_is_pod. apply R4.
  - intros *. setoid_rewrite frame_id_name. rewrite frame_is_ctr. apply R5.
  - intros *. setoid_rewrite frame_id_name. rewrite frame_is_pod. apply R6.
  - intros *. rewrite frame_is_ctr, frame_is_pod. apply R7.
Qed.

(** *** The invariant under a frame *)

Lemma inv_frame_core :
  Inv db → Tree db' → Shape db' → states_decode db' → VolInv db' → ExecInv db' → Inv db'.
Proof.
  intros [_ _ I3 R [C1 C2 _] [D1 D2] [P1 P2 P3] _ _] HT HS Hst HV HE.
  constructor; [done|done| |by apply frame_registry|constructor|constructor|constructor|done|done].
  - intros b Hb. rewrite Hf by done. by apply I3.
  - intros *. rewrite frame_is_ctr, frame_ctr by by_dec. apply C1.
  - intros i. rewrite frame_is_ctr, frame_ctr by by_dec.
    setoid_rewrite frame_id_name. setoid_rewrite frame_stored. apply C2.
  - apply Hst.
  - intros *. rewrite !frame_is_ctr, frame_stored, !frame_ctr, frame_nested by by_dec. apply D1.
  - intros *. rewrite frame_is_ctr, frame_nested by by_dec. setoid_rewrite frame_stored. apply D2.
  - intros p. rewrite frame_is_pod, Hf by done. apply P1.
  - intros *. rewrite frame_nested, frame_is_pod, frame_is_ctr, frame_ctr, frame_id_name by by_dec.
    apply P2.
  - intros *. rewrite frame_is_pod, frame_is_ctr, frame_ctr by by_dec. apply P3.
Qed.

Lemma frame_vols : (∀ p, vol_path p = true → db' !! p = db !! p) → VolInv db → VolInv db'.
Proof.
  intros Hv [V1 V2 V3]. assert (Hvol : ∀ v, is_vol db' v ↔ is_vol db v)
    by (intros; unfold is_vol; by rewrite Hv). constructor.
  - intros *. rewrite Hv, Hvol by done. apply V1.
  - intros v. rewrite Hvol, Hv by done. apply V2.
  - intros *. rewrite frame_is_ctr, frame_stored, Hvol, Hv by done. apply V3.
Qed.

Lemma frame_sessions : (∀ p, exec_path p = true → db' !! p = db !! p) → ExecInv db → ExecInv db'.
Proof. intros He [E1]. constructor. intros c s e. rewrite !He by done. apply E1. Qed.

End frame.

Lemma inv_frame db db' :
  (∀ p, relevant p = true → db' !! p = db !! p) →
  Inv db → Tree db' → Shape db' → states_decode db' → Inv db'.
Proof.
  intros Hf HI HT HS Hst. assert (∀ p, core p = true → db' !! p = db !! p) as Hc
    by (intros p Hp; apply Hf; unfold relevant; by rewrite Hp).
  apply (inv_frame_core db); try done.
  - apply (frame_vols db); [done| |apply HI]. intros p Hp. apply Hf. unfold relevant.
    rewrite Hp. by rewrite orb_true_r.
  - apply (frame_sessions db); [|apply HI]. intros p Hp. apply Hf. unfold relevant.
    rewrite Hp. by rewrite orb_true_r.
Qed.

End inv.

(** ** Running a transaction forwards *)

(** A side condition on the current content: evaluate the lookup and use what is
    known about the initial one. *)
Ltac lk_side :=
  cbn [w_db set_db set_dbLock app fst snd];
  lk; solve [ done | eauto | by intros ?
            | match goal with Hx : ?x = _ |- ?x ≠ _ => rewrite Hx; discriminate end ].

(** Execute the first primitive of the goal's program. *)
Ltac tx_go :=
  erewrite st_bind_run; last first;
  [ first
    [ (unfold getIDBucket, getNamesBucket, getCtrBucket, getAllCtrsBucket, getPodBucket,
         getAllPodsBucket, getVolBucket, getAllVolsBucket, getExecBucket, getVolumeContainersBucket,
         getExitCodeBucket, getExitCodeTimeStampBucket, getRuntimeConfigBucket;
       apply getTopBucket_Ok; split_and!; [lk_side|reflexivity|reflexivity])
    | (apply (Put_Ok _ _ _ _ ()); split_and!; [lk_side|lk_side|lk_side|reflexivity])
    | (apply (Delete_Ok _ _ _ ()); split_and!; [lk_side|reflexivity])
    | (apply CreateBucket_Ok; split_and!; [lk_side|lk_side|reflexivity|reflexivity])
    | (apply CreateBucketIfNotExists_Ok; split_and!; [lk_side|reflexivity|intros ?; lk_side|reflexivity])
    | (apply (DeleteBucket_Ok _ _ _ ()); split_and!; [lk_side|reflexivity])
    | (apply orErr_Ok, (DeleteBucket_Ok _ _ _ ()); split_and!; [lk_side|reflexivity])
    | (apply (failIf_Ok _ _ _ ()); split; [by apply bool_decide_eq_false|reflexivity])
    | reflexivity ] |];
  cbn [w_db set_db set_dbLock app fst snd]; rewrite ?set_db_set_db.

(** [Delete]s of keys whose paths hold values. *)
Ltac shape_tac :=
  repeat first [ assumption | apply shape_erase | apply shape_delete | apply shape_drop
               | apply shape_insert; [done|] ].
Ltac del_go :=
  erewrite st_bind_run by (apply Delete_shape; [cbn [w_db set_db]; shape_tac|done]); tx_cbn.

(** The top-level buckets that a consistent database has. *)
Ltac schema_facts HI :=
  let F := fresh in
  pose proof (schema_all _ HI) as F; unfold createBuckets in F;
  rewrite !Forall_cons in F; destruct F as (?&?&?&?&?&?&?&?&?&?&?&?&?&_).
