(* ===== verification/BoltSafe.v ===== *)
(** * BoltSafe: operations that keep the database consistent

    [safe P m]: from a consistent database that satisfies [P], [m] leaves a
    consistent database, whether it succeeds or fails.  The file has the rules
    for [safe] and the operations that only touch entries that the invariant
    does not mention. *)

From S2P Require Import Prelude Define Bolt BoltTx Strconv BoltInternal BoltState BoltInv.

Section safe.
Context `{Runtime}.

Definition safe (P : Db → Prop) {A} (m : M A) : Prop :=
  ∀ w r w', Inv (w_db w) → P (w_db w) → m w = (r, w') → Inv (w_db w').

(** The closure of a transaction keeps the invariant when it succeeds. *)
Definition tx_safe (P : Db → Prop) {A} (m : M A) : Prop :=
  ∀ w a w', Inv (w_db w) → P (w_db w) → m w = (Ok a, w') → Inv (w_db w').

Lemma safe_readonly P {A} (m : M A) : readonly m → safe P m.
Proof. intros Hm w r w' HI _ Hw. by rewrite (Hm _ _ _ Hw). Qed.

Lemma safe_bind P {A B} (m : M A) (f : A → M B) :
  readonly m → (∀ a, (∃ w w', m w = (Ok a, w')) → safe P (f a)) → safe P (m ≫= f).
Proof.
  intros Hm Hf w r w' HI HP. unfold mbind, st_bind. destruct (m w) as [[a|e] w1] eqn:Hw.
  - intros Hr. assert (Hd := Hm _ _ _ Hw). eapply (Hf a); [by eexists _, _| | |exact Hr]; by rewrite Hd.
  - intros [= <- <-]. by rewrite (Hm _ _ _ Hw).
Qed.

Lemma safe_Update P {A} (m : M A) : tx_safe P m → safe P (Update m).
Proof.
  intros Hm w r w' HI HP. unfold Update. destruct (m w) as [[a|e] w1] eqn:Hw.
  - destruct (w_commitFault w); intros [= <- <-]; [done|]. by eapply Hm.
  - intros [= <- <-]. done.
Qed.

Lemma safe_withDB P {A} (m : M A) : safe P m → safe P (withDB m).
Proof.
  intros Hm w r w' HI HP. unfold withDB, getDBCon. destruct (w_dbLock w); [intros [=]; by subst|].
  destruct (w_openFault w); [intros [=]; by subst|].
  destruct (m (set_dbLock true w)) as [r1 w1] eqn:Hw. intros [= <- <-]. cbn. by eapply Hm in Hw.
Qed.

Lemma safe_weaken (P Q : Db → Prop) {A} (m : M A) : (∀ db, P db → Q db) → safe Q m → safe P m.
Proof. intros HPQ Hm w r w' HI HP. apply Hm; auto. Qed.

(** ** Entries that the invariant does not mention *)

Lemma states_decode_put db b k v :
  states_decode db →
  (∀ i, b ++ [k] = [ctrBkt; i; stateKey] → ∃ st : ContainerState, unmarshal v = Ok st) →
  (∀ i, b ++ [k] ≠ [ctrBkt; i]) → states_decode (<[b ++ [k] := Val v]> db).
Proof.
  intros Hs Hv Hne i Hi. unfold is_ctr in Hi. rewrite lookup_insert_ne in Hi by apply Hne.
  destruct (decide (b ++ [k] = [ctrBkt; i; stateKey])) as [Heq|Hq].
  - destruct (Hv i Heq) as [st Hst]. rewrite Heq, lookup_insert_eq. by eexists _, _.
  - rewrite lookup_insert_ne by done. by apply Hs.
Qed.

Lemma inv_put db b k v :
  Inv db → relevant (b ++ [k]) = false → db !! b = Some Bkt → db !! (b ++ [k]) ≠ Some Bkt →
  shape_ok (b ++ [k]) (Val v) = true →
  (∀ i, b ++ [k] = [ctrBkt; i; stateKey] → ∃ st : ContainerState, unmarshal v = Ok st) →
  Inv (<[b ++ [k] := Val v]> db).
Proof.
  intros HI Hr Hb Hk Hs Hv. apply (inv_frame db); [|done| | |].
  - intros p Hp. apply lookup_insert_ne. intros <-. congruence.
  - apply tree_insert; [apply HI|done|by right].
  - apply shape_insert; [done|apply HI].
  - apply states_decode_put; [intros j; apply (inv_ctr_state db (inv_ctrs db HI))|done|].
    intros i Heq. rewrite Heq in Hr. by vm_compute in Hr.
Qed.

Lemma inv_delete db b k :
  Inv db → relevant (b ++ [k]) = false → db !! (b ++ [k]) ≠ Some Bkt →
  (∀ i, b ++ [k] ≠ [ctrBkt; i; stateKey]) → Inv (delete (b ++ [k]) db).
Proof.
  intros HI Hr Hk Hs. apply (inv_frame db); [|done| | |].
  - intros p Hp. apply lookup_delete_ne. intros <-. congruence.
  - apply tree_delete; [apply HI|done].
  - apply shape_delete, HI.
  - intros i Hi. rewrite lookup_delete_ne by apply Hs. apply (inv_ctr_state db (inv_ctrs db HI)).
    unfold is_ctr in *. rewrite lookup_delete_ne in Hi; [done|].
    intros Heq. rewrite Heq in Hr. by vm_compute in Hr.
Qed.

Lemma inv_bucket db b k :
  Inv db → relevant (b ++ [k]) = false → db !! b = Some Bkt →
  shape_ok (b ++ [k]) Bkt = true → (∀ i, b ++ [k] ≠ [ctrBkt; i; stateKey]) →
  Inv (<[b ++ [k] := Bkt]> db).
Proof.
  intros HI Hr Hb Hs Hk. apply (inv_frame db); [|done| | |].
  - intros p Hp. apply lookup_insert_ne. intros <-. congruence.
  - apply tree_insert; [apply HI|done|by left].
  - apply shape_insert; [done|apply HI].
  - intros i Hi. rewrite lookup_insert_ne by apply Hk. apply (inv_ctr_state db (inv_ctrs db HI)).
    unfold is_ctr in *. rewrite lookup_insert_ne in Hi; [done|].
    intros Heq. rewrite Heq in Hr. by vm_compute in Hr.
Qed.

Lemma inv_drop db p :
  Inv db → (∀ q, p `prefix_of` q → relevant q = false ∧ ∀ i, q ≠ [ctrBkt; i; stateKey]) →
  Inv (drop_subtree p db).
Proof.
  intros HI Hp. assert (Hne : ∀ q, relevant q = true → drop_subtree p db !! q = db !! q).
  { intros q Hq. rewrite lookup_drop_subtree. case_decide as Hpq; [|done].
    apply Hp in Hpq as [? _]. congruence. }
  apply (inv_frame db); [done|done|apply tree_drop, HI|apply shape_drop, HI|].
  intros i Hi. rewrite lookup_drop_subtree. rewrite decide_False.
  - apply (inv_ctr_state db (inv_ctrs db HI)). unfold is_ctr in *. by rewrite Hne in Hi by done.
  - intros Hq. apply Hp in Hq as [_ Hq]. by eapply Hq.
Qed.

End safe.

#[export] Hint Resolve safe_Update safe_withDB : libpod.
#[export] Hint Extern 2 (safe _ (_ ≫= _)) => apply safe_bind; [|intros ? ?] : libpod.
#[export] Hint Extern 3 (safe _ _) => apply safe_readonly : libpod.
#[export] Hint Extern 1 (safe _ (if ?b then _ else _)) => destruct b : libpod.
#[export] Hint Extern 1 (safe _ (match ?x with _ => _ end)) => destruct x : libpod.

(** Side conditions on concrete paths. *)
Ltac path_side :=
  first [ done | reflexivity | by_dec | (by intros ? [=]) | (intros ? [=]; simplify_eq; by eauto) ].

(** ** State, networks, exit codes *)

Section ops.
Context `{RuntimeLaws}.

Lemma SaveContainer_safe ctr : safe (λ _, True) (SaveContainer ctr).
Proof.
  unfold SaveContainer. apply safe_bind; [auto with libpod|intros _ _].
  apply safe_bind; [auto with libpod|intros _ _].
  apply safe_bind; [auto with libpod|intros stJ (w0 & w1 & [Hst _]%lift_Ok)].
  apply unmarshal_marshal in Hst.
  apply safe_withDB, safe_Update. intros w u w' HI _ Hr. unfold ctrBucketOf in Hr. tx_inv.
  - apply (inv_delete _ [ctrBkt; ctr_ID ctr]); [|path_side|done|path_side].
    apply (inv_put _ [ctrBkt; ctr_ID ctr]); [done|path_side|done|done|path_side|by eauto].
  - apply (inv_put _ [ctrBkt; ctr_ID ctr]); [done|path_side|done|done|path_side|by eauto].
Qed.

Lemma networkModify_safe ctr net opts new : safe (λ _, True) (networkModify ctr net opts new).
Proof.
  unfold networkModify. do 4 (apply safe_bind; [auto with libpod|intros ? _]).
  apply safe_withDB, safe_Update. intros w u w' HI _ Hr. unfold ctrBucketOf in Hr.
  destruct new; tx_inv; apply (inv_put _ [ctrBkt; ctr_ID ctr; networksBkt]); path_side.
Qed.

Lemma NetworkDisconnect_safe ctr net : safe (λ _, True) (NetworkDisconnect ctr net).
Proof.
  unfold NetworkDisconnect. do 3 (apply safe_bind; [auto with libpod|intros ? _]).
  apply safe_withDB, safe_Update. intros w u w' HI _ Hr. unfold ctrBucketOf in Hr. tx_inv.
  all: assert (Inv (delete [ctrBkt; ctr_ID ctr; networksBkt; net] (w_db w)))
    by (apply (inv_delete _ [ctrBkt; ctr_ID ctr; networksBkt]); path_side).
  all: try done.
  apply inv_drop; [done|]. intros q [rest ->]. destruct rest; [|done]. split; [by_dec|by intros ? [=]].
Qed.

Lemma convertNetworks_safe ctr nets : tx_safe (λ _, True) (convertNetworks ctr nets).
Proof.
  assert (Hstep : ∀ l acc w acc' w', Inv (w_db w) ∧ w_db w !! [ctrBkt; ctr_ID ctr; networksBkt] = Some Bkt →
    foldM (convertNetwork ctr [ctrBkt; ctr_ID ctr] [ctrBkt; ctr_ID ctr; networksBkt]) acc l w = (Ok acc', w') →
    Inv (w_db w')).
  { intros l acc w acc' w' HI Hf. 
    eapply (foldM_ind (λ w, Inv (w_db w) ∧ w_db w !! [ctrBkt; ctr_ID ctr; networksBkt] = Some Bkt));
      [|exact HI|exact Hf].
    intros net acc1 w1 acc2 w2 _ [HI1 Hb] Hc. unfold convertNetwork, getAliases in Hc. tx_inv;
    (split; [apply (inv_put _ [ctrBkt; ctr_ID ctr; networksBkt]); path_side|by lk]). }
  intros w u w' HI _ Hr. unfold convertNetworks, ctrBucketOf in Hr. tx_inv.
  all: match goal with Hf : foldM _ _ _ _ = _ |- _ => eapply Hstep in Hf; [done|] end.
  - done.
  - cbn [w_db set_db]. split; [|by lk]. apply (inv_bucket _ [ctrBkt; ctr_ID ctr]); path_side.
Qed.

Lemma GetNetworks_safe ctr : safe (λ _, True) (GetNetworks ctr).
Proof. unfold GetNetworks. auto 12 using convertNetworks_safe with libpod. Qed.

Lemma AddContainerExitCode_safe id code : safe (λ _, True) (AddContainerExitCode id code).
Proof.
  unfold AddContainerExitCode. do 2 (apply safe_bind; [auto with libpod|intros ? _]).
  apply safe_withDB, safe_bind; [auto with libpod|intros ? _].
  apply safe_Update. intros w u w' HI _ Hr. unfold onErr in Hr. tx_inv.
  all: destruct (Put _ _ _ _) as [[]] eqn:Hp in Hr; [|by destruct (Delete _ _ _) in Hr]; tx_inv.
  apply (inv_put _ [exitCodeTimeStampBkt]); [|path_side|by lk|done|path_side..].
  apply (inv_put _ [exitCodeBkt]); path_side.
Qed.

Lemma prune_loop_safe ids acc w r w' :
  Inv (w_db w) →
  foldM (λ (finalErr : option error) id,
          r1 ← attempt (Delete [exitCodeBkt] id);
          r2 ← attempt (Delete [exitCodeTimeStampBkt] id);
          let err1 := match r1 with Err e => Some e | Ok _ => finalErr end in
          mret (match r2 with Err e => Some e | Ok _ => err1 end)) acc ids w = (Ok r, w') →
  Inv (w_db w').
Proof.
  apply (foldM_ind (λ w, Inv (w_db w))). intros id acc1 w1 acc2 w2 _ HI Hr. tx_inv.
  unfold attempt in *. repeat match goal with
  | H : (let (_, _) := Delete ?b ?k ?w in _) = _ |- _ =>
      rewrite (Delete_shape b k w) in H by (cbn; shape_tac; first [apply HI|done]); tx_step; tx_cbn
  end.
  apply (inv_delete _ [exitCodeTimeStampBkt]); [|path_side|lk; by apply shape_ne; [apply HI|]|path_side].
  apply (inv_delete _ [exitCodeBkt]); [done|path_side|by apply shape_ne; [apply HI|]|path_side].
Qed.

Lemma PruneContainerExitCodes_safe : safe (λ _, True) PruneContainerExitCodes.
Proof.
  unfold PruneContainerExitCodes. apply safe_bind; [auto with libpod|intros ? _].
  apply safe_withDB, safe_bind; [auto with libpod|intros ids _].
  destruct ids as [|id ids]; [auto with libpod|].
  apply safe_Update. intros w u w' HI _ Hr. tx_inv. by eapply prune_loop_safe.
Qed.

Lemma ValidateDBConfig_safe : safe (λ _, True) ValidateDBConfig.
Proof.
  unfold ValidateDBConfig, checkRuntimeConfig. apply safe_bind; [auto with libpod|intros ? _].
  apply safe_withDB, safe_bind; [auto with libpod|intros opts _].
  apply safe_bind; [auto with libpod|intros missing _].
  destruct missing; [auto with libpod|]. apply safe_Update. intros w u w' HI _ Hr. tx_inv.
  revert Hr. apply (forM_ind (λ w, Inv (w_db w))); [|done].
  intros m w1 u1 w2 _ HI1 Hp. schema_facts HI1. tx_inv.
  apply (inv_put _ [runtimeConfigBkt]); path_side.
Qed.

(** ** Pods and volumes *)

Lemma SavePod_safe pod : safe (λ _, True) (SavePod pod).
Proof.
  unfold SavePod. do 3 (apply safe_bind; [auto with libpod|intros ? _]).
  apply safe_withDB, safe_Update. intros w u w' HI _ Hr. unfold podBucketOf in Hr. tx_inv.
  apply (inv_put _ [podBkt; pod_ID pod]); path_side.
Qed.

Lemma RewritePodConfig_safe pod cfg : safe (λ _, True) (RewritePodConfig pod cfg).
Proof.
  unfold RewritePodConfig. do 3 (apply safe_bind; [auto with libpod|intros ? _]).
  apply safe_withDB, safe_Update. intros w u w' HI _ Hr. unfold podBucketOf in Hr. tx_inv.
  apply (inv_put _ [podBkt; pod_ID pod]); path_side.
Qed.

Lemma SaveVolume_safe vol : safe (λ _, True) (SaveVolume vol).
Proof.
  unfold SaveVolume. do 3 (apply safe_bind; [auto with libpod|intros ? _]).
  apply safe_withDB, safe_Update. intros w u w' HI _ Hr. unfold volBucketOf in Hr. tx_inv.
  apply (inv_put _ [volBkt; vol_Name vol]); path_side.
Qed.

Lemma RewriteVolumeConfig_safe vol cfg : safe (λ _, True) (RewriteVolumeConfig vol cfg).
Proof.
  unfold RewriteVolumeConfig. do 3 (apply safe_bind; [auto with libpod|intros ? _]).
  apply safe_withDB, safe_Update. intros w u w' HI _ Hr. unfold volBucketOf in Hr. tx_inv.
  apply (inv_put _ [volBkt; vol_Name vol]); path_side.
Qed.

End ops.
