(* ===== verification/BoltAdd.v ===== *)
(** * BoltAdd: adding containers

    What [addContainer] writes, when it succeeds, and that it keeps the
    database consistent. *)

From S2P Require Import Prelude Define Bolt BoltTx Strconv BoltInternal BoltState BoltInv.

Section add.
Context `{Runtime}.

(** ** The database after a container was added *)

Definition put_networks (i : string) (nets : list (string * string)) (db : Db) : Db :=
  foldl (λ db no, <[[ctrBkt; i; networksBkt; no.1] := Val no.2]> db) db nets.

Definition put_deps (i n : string) (deps : list string) (db : Db) : Db :=
  foldl (λ db d, <[[ctrBkt; d; dependenciesBkt; i] := Val n]> db) db deps.

Definition put_vol (i : string) (db : Db) (v : string) : Db :=
  let db1 := <[[volBkt; v; volDependenciesBkt] := Bkt]> db in
  match db1 !! [volBkt; v; volDependenciesBkt; i] with
  | Some (Val _) => db1
  | _ => <[[volBkt; v; volDependenciesBkt; i] := Val i]> db1
  end.

Definition put_vols (i : string) (vols : list string) (db : Db) : Db :=
  foldl (put_vol i) db vols.

Definition put_pod (i n : string) (pod : option Define.Pod) (db : Db) : Db :=
  match pod with
  | Some p => <[[podBkt; pod_ID p; containersBkt; i] := Val n]> db
  | None => db
  end.

(** The registries and the new container's own bucket. *)
Definition put_ctr (ctr : Define.Container) (pod : option Define.Pod) (cfgJ stJ : string)
    (nets : list (string * string)) (db : Db) : Db :=
  let i := ctr_ID ctr in
  let n := ctr_Name ctr in
  let db1 := <[[ctrBkt; i; stateKey] := Val stJ]> (<[[ctrBkt; i; configKey] := Val cfgJ]>
    (<[[ctrBkt; i] := Bkt]> (<[[allCtrsBkt; i] := Val n]> (<[[nameRegistryBkt; n] := Val i]>
    (<[[idRegistryBkt; i] := Val n]> db))))) in
  let db2 := match pod with
             | Some p => <[[ctrBkt; i; podIDKey] := Val (pod_ID p)]> db1
             | None => db1
             end in
  let db3 := match nets with
             | [] => db2
             | _ => put_networks i nets (<[[ctrBkt; i; networksBkt] := Bkt]> db2)
             end in
  <[[ctrBkt; i; dependenciesBkt] := Bkt]> db3.

Definition added (ctr : Define.Container) (pod : option Define.Pod) (cfgJ stJ : string)
    (nets : list (string * string)) (db : Db) : Db :=
  put_vols (ctr_ID ctr) (nv_Name <$> cc_NamedVolumes (ctr_config ctr))
    (put_pod (ctr_ID ctr) (ctr_Name ctr) pod
      (put_deps (ctr_ID ctr) (ctr_Name ctr) (Dependencies ctr)
        (put_ctr ctr pod cfgJ stJ nets db))).

(** ** Lookups *)

Lemma lookup_put_networks i nets db q :
  (∀ x, q ≠ [ctrBkt; i; networksBkt; x]) → put_networks i nets db !! q = db !! q.
Proof.
  intros Hq. unfold put_networks. revert db.
  induction nets as [|[net o] nets IH]; intros db; [done|]. simpl.
  rewrite IH. apply lookup_insert_ne. intros Heq. by eapply Hq.
Qed.

Lemma lookup_put_networks_sub i nets db x :
  put_networks i nets db !! [ctrBkt; i; networksBkt; x] ≠ Some Bkt ∨
  put_networks i nets db !! [ctrBkt; i; networksBkt; x] = db !! [ctrBkt; i; networksBkt; x].
Proof.
  unfold put_networks. revert db.
  induction nets as [|[net o] nets IH]; intros db; [by right|]. simpl.
  destruct (IH (<[[ctrBkt; i; networksBkt; net]:=Val o]> db)) as [|Heq]; [by left|].
  rewrite Heq. destruct (decide (net = x)) as [->|]; [left|right]; by lk.
Qed.

Lemma lookup_put_deps i n deps db q :
  (∀ d, d ∈ deps → q ≠ [ctrBkt; d; dependenciesBkt; i]) → put_deps i n deps db !! q = db !! q.
Proof.
  unfold put_deps. revert db.
  induction deps as [|d deps IH]; intros db Hq; [done|]. simpl.
  rewrite IH by (intros; apply Hq; by right). apply lookup_insert_ne.
  intros Heq. eapply Hq; [by left|done].
Qed.

Lemma lookup_put_deps_in i n deps db d :
  d ∈ deps → put_deps i n deps db !! [ctrBkt; d; dependenciesBkt; i] = Some (Val n).
Proof.
  unfold put_deps. revert db. induction deps as [|d' deps IH]; intros db Hd; [by apply not_elem_of_nil in Hd|].
  simpl. destruct (decide (d ∈ deps)) as [Hin|Hin]; [by apply IH|].
  apply elem_of_cons in Hd as [->|]; [|done].
  fold (put_deps i n deps (<[[ctrBkt; d'; dependenciesBkt; i]:=Val n]> db)).
  rewrite lookup_put_deps; [by lk|]. intros x Hx [=->]. done.
Qed.

Lemma lookup_put_vol i db v q :
  (∀ x, q ≠ [volBkt; x; volDependenciesBkt] ∧ q ≠ [volBkt; x; volDependenciesBkt; i]) →
  put_vol i db v !! q = db !! q.
Proof.
  intros Hq. destruct (Hq v). unfold put_vol. repeat case_match; by rewrite !lookup_insert_ne.
Qed.

Lemma lookup_put_vols i vols db q :
  (∀ x, q ≠ [volBkt; x; volDependenciesBkt] ∧ q ≠ [volBkt; x; volDependenciesBkt; i]) →
  put_vols i vols db !! q = db !! q.
Proof.
  intros Hq. unfold put_vols. revert db. induction vols as [|v vols IH]; intros db; [done|].
  simpl. rewrite IH. by apply lookup_put_vol.
Qed.

Lemma lookup_put_vol_bkt i db v x :
  put_vol i db v !! [volBkt; x; volDependenciesBkt] =
  if decide (x = v) then Some Bkt else db !! [volBkt; x; volDependenciesBkt].
Proof. unfold put_vol. case_decide as Hx; subst; repeat case_match; by lk. Qed.

Lemma lookup_put_vol_dep i db v x e :
  put_vol i db v !! [volBkt; x; volDependenciesBkt; i] = Some e →
  x = v ∨ db !! [volBkt; x; volDependenciesBkt; i] = Some e.
Proof.
  destruct (decide (x = v)); [by left|]. unfold put_vol.
  intros Hq. right. repeat case_match; lk_in Hq; done.
Qed.

Lemma lookup_put_vol_dep_in i db v :
  is_Some (put_vol i db v !! [volBkt; v; volDependenciesBkt; i]).
Proof.
  unfold put_vol.
  destruct (<[[volBkt; v; volDependenciesBkt] := Bkt]> db !! [volBkt; v; volDependenciesBkt; i])
    as [[]|] eqn:Hv; [rewrite Hv; by eexists|lk; by eexists..].
Qed.

Lemma put_vol_dep_mono i db v x :
  is_Some (db !! [volBkt; x; volDependenciesBkt; i]) →
  is_Some (put_vol i db v !! [volBkt; x; volDependenciesBkt; i]).
Proof.
  intros Hx. destruct (decide (x = v)) as [->|]; [apply lookup_put_vol_dep_in|].
  unfold put_vol. repeat case_match; lk; done.
Qed.

Lemma lookup_put_vols_dep_in i vols db v :
  v ∈ vols → is_Some (put_vols i vols db !! [volBkt; v; volDependenciesBkt; i]).
Proof.
  assert (Hmono : ∀ vs db, is_Some (db !! [volBkt; v; volDependenciesBkt; i]) →
    is_Some (put_vols i vs db !! [volBkt; v; volDependenciesBkt; i])).
  { induction vs as [|x vs IH]; intros d Hd; [done|]. simpl. apply IH, put_vol_dep_mono, Hd. }
  unfold put_vols in *. revert db. induction vols as [|x vols IH]; intros db; [by intros ?%not_elem_of_nil|].
  intros [->|Hv]%elem_of_cons; simpl.
  - apply Hmono. apply lookup_put_vol_dep_in.
  - by apply IH.
Qed.

(** Volume buckets that [put_vols] touches keep or gain their dependency bucket. *)
Lemma lookup_put_vols_bkt i vols db v :
  put_vols i vols db !! [volBkt; v; volDependenciesBkt] =
  if decide (v ∈ vols) then Some Bkt else db !! [volBkt; v; volDependenciesBkt].
Proof.
  unfold put_vols. revert db. induction vols as [|x vols IH]; intros db.
  { rewrite decide_False by apply not_elem_of_nil. done. }
  simpl. rewrite IH, lookup_put_vol_bkt.
  destruct (decide (v ∈ vols)); [by rewrite decide_True by (by right)|].
  destruct (decide (v = x)) as [->|]; [by rewrite decide_True by left|].
  rewrite decide_False; [done|]. by intros [|]%elem_of_cons.
Qed.

Lemma lookup_put_vols_dep i vols db v e :
  put_vols i vols db !! [volBkt; v; volDependenciesBkt; i] = Some e →
  v ∈ vols ∨ db !! [volBkt; v; volDependenciesBkt; i] = Some e.
Proof.
  unfold put_vols. revert db. induction vols as [|x vols IH]; intros db; [by right|].
  simpl. intros [|Hd]%IH; [left; by right|].
  apply lookup_put_vol_dep in Hd as [->|]; [left; by left|by right].
Qed.

(** ** When the loops of [addContainer] succeed *)

(** The conditions on a dependency [d] of a container added to [pod]. *)
Definition dep_ok (db : Db) (pod : option Define.Pod) (d : string) : Prop :=
  is_ctr db d ∧ db !! [ctrBkt; d; dependenciesBkt] = Some Bkt ∧
  bget db [ctrBkt; d] podIDKey = (pod_ID <$> pod).

Lemma addDependency_Ok i n pod d w u w' :
  addDependency i n pod [ctrBkt] d w = (Ok u, w') ↔
  dep_ok (w_db w) pod d ∧ key_ok i = true ∧ value_ok n = true ∧
  w_db w !! [ctrBkt; d; dependenciesBkt; i] ≠ Some Bkt ∧
  w' = set_db (<[[ctrBkt; d; dependenciesBkt; i] := Val n]> (w_db w)) w.
Proof.
  unfold dep_ok. split.
  - unfold addDependency. intros Hr. tx_inv.
    all: repeat split; auto; simpl; f_equal; by apply dec_stable.
  - intros ((Hc & Hd & Hp) & Hi & Hn & Hne & ->). unfold addDependency.
    erewrite st_bind_run by done. cbn [app].
    unfold bucket at 1. cbn [app]. rewrite Hc.
    erewrite st_bind_run by done. erewrite st_bind_run by done.
    rewrite Hp. erewrite st_bind_run; last first.
    { destruct pod as [p|]; simpl; [|done].
      apply failIf_Ok. split; [|done]. apply bool_decide_eq_false. auto. }
    erewrite st_bind_run by done. unfold bucket. cbn [app]. rewrite Hd.
    erewrite st_bind_run by done. destruct u. by apply Put_Ok.
Qed.

Lemma dep_ok_put_dep db pod d d' i n :
  dep_ok (<[[ctrBkt; d'; dependenciesBkt; i] := Val n]> db) pod d ↔ dep_ok db pod d.
Proof. unfold dep_ok, is_ctr, bget. cbn [app]. by lk. Qed.

Lemma addDeps_Ok i n pod deps w u w' :
  key_ok i = true → value_ok n = true →
  (∀ d, w_db w !! [ctrBkt; d; dependenciesBkt; i] ≠ Some Bkt) →
  forM_ deps (addDependency i n pod [ctrBkt]) w = (Ok u, w') ↔
  (∀ d, d ∈ deps → dep_ok (w_db w) pod d) ∧ w' = set_db (put_deps i n deps (w_db w)) w.
Proof.
  intros Hi Hn. revert w. induction deps as [|d deps IH]; intros w Hne; simpl.
  - unfold mret, st_ret, set_db. destruct w, u. split.
    + intros [= <-]. split; [|done]. by intros d ?%not_elem_of_nil.
    + by intros [_ ->].
  - rewrite st_bind_Ok. split.
    + intros (? & w1 & (Hd & _ & _ & _ & ->)%addDependency_Ok & Hr).
      apply IH in Hr as [Hds ->].
      2:{ intros d'. cbn. rewrite lookup_insert. case_decide; [done|apply Hne]. }
      split; [|done]. intros d' [->|Hd']%elem_of_cons; [done|].
      apply Hds in Hd'. by apply dep_ok_put_dep in Hd'.
    + intros [Hds ->]. eexists (), _. split.
      { apply addDependency_Ok. split; [apply Hds; by left|]. split; [done|].
        split; [done|]. split; [apply Hne|done]. }
      apply IH.
      { intros d'. cbn. rewrite lookup_insert. case_decide; [done|apply Hne]. }
      split; [|done]. intros d' Hd'. cbn. apply dep_ok_put_dep, Hds. by right.
Qed.

Lemma addVolumeDependency_Ok i vol w u w' :
  key_ok i = true → value_ok i = true →
  (∀ v, w_db w !! [volBkt; v; volDependenciesBkt; i] ≠ Some Bkt) →
  (∀ v s, w_db w !! [volBkt; v; volDependenciesBkt] ≠ Some (Val s)) →
  addVolumeDependency i [volBkt] vol w = (Ok u, w') ↔
  is_vol (w_db w) (nv_Name vol) ∧ w' = set_db (put_vol i (w_db w) (nv_Name vol)) w.
Proof.
  intros Hi Hv Hne Hnv. unfold addVolumeDependency, put_vol. split.
  - intros Hr. tx_inv; (split; [done|]); unfold bget in Heqo; cbn [app] in Heqo; lk; lk_all;
    destruct (w_db w !! [volBkt; nv_Name vol; volDependenciesBkt; i]) as [[]|] eqn:Hd;
      simplify_eq; done.
  - intros [Hvol ->].
    erewrite st_bind_run by done. unfold bucket. cbn [app]. rewrite Hvol.
    erewrite st_bind_run by done.
    erewrite st_bind_run by (apply CreateBucketIfNotExists_Ok; split; [done|]; split; [done|];
      split; [apply Hnv|done]).
    erewrite st_bind_run by done. unfold bget. cbn. lk.
    destruct u, (w_db w !! [volBkt; nv_Name vol; volDependenciesBkt; i]) as [[]|] eqn:Hd; [done| |].
    + by destruct (Hne (nv_Name vol)).
    + apply Put_Ok. cbn. split; [done|]. split; [done|]. split; [|done]. lk. apply Hne.
Qed.

Lemma put_vol_values i db v x :
  (∀ v, db !! [volBkt; v; volDependenciesBkt; i] ≠ Some Bkt) →
  put_vol i db v !! [volBkt; x; volDependenciesBkt; i] ≠ Some Bkt.
Proof.
  intros Hne. unfold put_vol. repeat case_match; rewrite ?lookup_insert; repeat case_decide;
    simplify_eq; eauto.
Qed.

Lemma addVols_Ok i vols w u w' :
  key_ok i = true → value_ok i = true →
  (∀ v, w_db w !! [volBkt; v; volDependenciesBkt; i] ≠ Some Bkt) →
  (∀ v s, w_db w !! [volBkt; v; volDependenciesBkt] ≠ Some (Val s)) →
  forM_ vols (addVolumeDependency i [volBkt]) w = (Ok u, w') ↔
  (∀ v, v ∈ vols → is_vol (w_db w) (nv_Name v)) ∧
  w' = set_db (put_vols i (nv_Name <$> vols) (w_db w)) w.
Proof.
  intros Hi Hv. revert w. induction vols as [|v vols IH]; intros w Hne Hnv; simpl.
  - unfold mret, st_ret, set_db. destruct w, u. split.
    + intros [= <-]. split; [|done]. by intros d ?%not_elem_of_nil.
    + by intros [_ ->].
  - assert (Hvol : ∀ x y, is_vol (put_vol i (w_db w) x) y ↔ is_vol (w_db w) y).
    { intros x y. unfold is_vol. rewrite lookup_put_vol; [done|]. by intros z; split. }
    assert (Hne' : ∀ x y, put_vol i (w_db w) x !! [volBkt; y; volDependenciesBkt; i] ≠ Some Bkt)
      by (intros; by apply put_vol_values).
    assert (Hnv' : ∀ x y s, put_vol i (w_db w) x !! [volBkt; y; volDependenciesBkt] ≠ Some (Val s))
      by (intros; rewrite lookup_put_vol_bkt; by case_decide).
    rewrite st_bind_Ok. split.
    + intros (? & w1 & (Hd & ->)%addVolumeDependency_Ok & Hr); [|done..].
      apply IH in Hr as [Hds ->]; [|apply Hne'|apply Hnv'].
      split; [|done]. intros v' [->|Hv']%elem_of_cons; [done|].
      eapply Hvol. by apply Hds.
    + intros [Hds ->]. eexists (), _. split.
      { apply addVolumeDependency_Ok; [done..|]. split; [apply Hds; by left|done]. }
      apply IH; [apply Hne'|apply Hnv'|].
      split; [|done]. intros v' Hv'. cbn. apply Hvol, Hds. by right.
Qed.

Lemma putNets_Ok i nets w u w' :
  (∀ x, w_db w !! [ctrBkt; i; networksBkt; x] ≠ Some Bkt) →
  forM_ nets (λ no, Put [ctrBkt; i; networksBkt] no.1 no.2) w = (Ok u, w') ↔
  Forall (λ no, key_ok no.1 = true ∧ value_ok no.2 = true) nets ∧
  w' = set_db (put_networks i nets (w_db w)) w.
Proof.
  revert w. induction nets as [|[net o] nets IH]; intros w Hne; simpl.
  - unfold mret, st_ret, set_db. destruct w, u. split.
    + by intros [= <-].
    + by intros [_ ->].
  - assert (Hne' : ∀ x, <[[ctrBkt; i; networksBkt; net] := Val o]> (w_db w)
                          !! [ctrBkt; i; networksBkt; x] ≠ Some Bkt)
      by (intros x; rewrite lookup_insert; case_decide; [done|apply Hne]).
    rewrite st_bind_Ok, Forall_cons. split.
    + intros (? & w1 & (?&?&?&->)%Put_Ok & Hr). apply IH in Hr as [? ->]; [done|apply Hne'].
    + intros [[[??]?] ->]. eexists (), _. split; [apply Put_Ok; split_and!; [done|done|apply Hne|done]|].
      apply IH; [apply Hne'|done].
Qed.

(** ** When [addContainer] succeeds, and what it leaves *)

Record AddGuards (ctr : Define.Container) (pod : option Define.Pod) (cfgJ stJ : string)
    (nets : list (string * string)) (db : Db) : Prop := {
  ag_pod : ∀ p, pod = Some p →
    is_pod db (pod_ID p) ∧ db !! [podBkt; pod_ID p; containersBkt] = Some Bkt ∧
    value_ok (pod_ID p) = true;
  ag_id : db !! [idRegistryBkt; ctr_ID ctr] = None;
  ag_name : db !! [nameRegistryBkt; ctr_Name ctr] = None;
  ag_key_id : key_ok (ctr_ID ctr) = true;
  ag_key_name : key_ok (ctr_Name ctr) = true;
  ag_val_id : value_ok (ctr_ID ctr) = true;
  ag_val_name : value_ok (ctr_Name ctr) = true;
  ag_cfg : value_ok cfgJ = true;
  ag_st : value_ok stJ = true;
  ag_nets : Forall (λ no, key_ok no.1 = true ∧ value_ok no.2 = true) nets;
  ag_deps : ∀ d, d ∈ Dependencies ctr → dep_ok (put_ctr ctr pod cfgJ stJ nets db) pod d;
  ag_vols : ∀ v, v ∈ cc_NamedVolumes (ctr_config ctr) → is_vol db (nv_Name v) }.

(** Lookups below [put_ctr] that it does not touch. *)
Lemma lookup_put_ctr ctr pod cfgJ stJ nets db q :
  q ≠ [idRegistryBkt; ctr_ID ctr] → q ≠ [nameRegistryBkt; ctr_Name ctr] →
  q ≠ [allCtrsBkt; ctr_ID ctr] → (∀ rest, q ≠ ctrBkt :: ctr_ID ctr :: rest) →
  put_ctr ctr pod cfgJ stJ nets db !! q = db !! q.
Proof.
  intros H1 H2 H3 H4. unfold put_ctr.
  assert (∀ k e (d : Db), <[ctrBkt :: ctr_ID ctr :: k := e]> d !! q = d !! q) as Hc.
  { intros k e d. apply lookup_insert_ne. intros Heq. by eapply H4. }
  rewrite Hc. destruct nets as [|no nets].
  - destruct pod; rewrite ?Hc, !lookup_insert_ne; try done; intros Heq; by eapply H4.
  - rewrite lookup_put_networks by (intros x Heq; by eapply H4).
    destruct pod; rewrite ?Hc, !lookup_insert_ne; try done; intros Heq; by eapply H4.
Qed.

(** [put_ctr] without its networks. *)
Lemma lookup_put_ctr_nets ctr pod cfgJ stJ nets db q :
  (∀ rest, q ≠ ctrBkt :: ctr_ID ctr :: networksBkt :: rest) →
  put_ctr ctr pod cfgJ stJ nets db !! q = put_ctr ctr pod cfgJ stJ [] db !! q.
Proof.
  intros Hq. unfold put_ctr. destruct nets as [|no nets]; [done|].
  destruct (decide ([ctrBkt; ctr_ID ctr; dependenciesBkt] = q)) as [<-|]; [by lk|].
  rewrite !(lookup_insert_ne _ [ctrBkt; ctr_ID ctr; dependenciesBkt]) by done.
  rewrite lookup_put_networks by (intros x Heq; by eapply Hq).
  rewrite lookup_insert_ne; [done|]. intros Heq. by eapply Hq.
Qed.

Lemma addContainer_pod_Ok pod w pc w' :
  addContainer_pod pod w = (Ok pc, w') ↔
  w' = w ∧ pc = (λ p, [podBkt; pod_ID p; containersBkt]) <$> pod ∧
  ∀ p, pod = Some p → w_db w !! [podBkt] = Some Bkt ∧ is_pod (w_db w) (pod_ID p) ∧
    w_db w !! [podBkt; pod_ID p; containersBkt] = Some Bkt.
Proof.
  destruct pod as [p|]; simpl; split.
  - intros Hr. tx_inv. split_and!; [done|done|]. intros q [=<-]. done.
  - intros (-> & -> & Hp). destruct (Hp p) as (? & Hpod & Hc); [done|].
    tx_go. tx_go. unfold bucket. cbn [app]. rewrite Hpod. tx_go. tx_go.
    unfold bucket. cbn [app]. rewrite Hc. by tx_go.
  - intros Hr. tx_inv. split_and!; done.
  - intros (-> & -> & _). done.
Qed.

Lemma checkIDName_Ok i n ids names all w u w' :
  checkIDName i n ids names all w = (Ok u, w') ↔
  bget (w_db w) ids i = None ∧ bget (w_db w) names n = None ∧ w' = w.
Proof.
  unfold checkIDName. split.
  - intros Hr. tx_inv. by split_and!.
  - intros (Hi & Hn & ->). destruct u. tx_go. rewrite Hi. tx_go. tx_go. by rewrite Hn.
Qed.

Section tx.
Context (ctr : Define.Container) (pod : option Define.Pod) (cfgJ stJ : string).
Context (nets : list (string * string)).

(** A fresh container has no entries yet. *)
Lemma fresh_ctr db i : Inv db → db !! [idRegistryBkt; i] = None → ¬ is_ctr db i.
Proof.
  intros HI Hi Hc. destruct (inv_ctr_reg db (inv_registry db HI) i Hc) as [n Hn].
  unfold id_name in Hn. congruence.
Qed.

Lemma fresh_sub db i x rest : Inv db → ¬ is_ctr db i → db !! (ctrBkt :: i :: x :: rest) = None.
Proof.
  intros HI Hc. destruct (db !! _) as [e|] eqn:He; [|done].
  destruct Hc. eapply sub_ctr; [apply (inv_tree db HI)|done].
Qed.

Lemma putNetworks_Ok i w u w' :
  (∀ x, w_db w !! [ctrBkt; i; networksBkt; x] ≠ Some Bkt) →
  w_db w !! [ctrBkt; i; networksBkt] = None →
  putNetworks [ctrBkt; i] nets w = (Ok u, w') ↔
  Forall (λ no, key_ok no.1 = true ∧ value_ok no.2 = true) nets ∧
  w' = set_db (match nets with
               | [] => w_db w
               | _ => put_networks i nets (<[[ctrBkt; i; networksBkt] := Bkt]> (w_db w))
               end) w.
Proof.
  intros Hne Hb. unfold putNetworks. destruct nets as [|no l], u.
  - rewrite set_db_id. unfold mret, st_ret. split; [by intros [=<-]|by intros [_ ->]].
  - rewrite st_bind_Ok. split.
    + intros (b & w1 & (_ & _ & -> & ->)%CreateBucket_Ok & Hr).
      apply putNets_Ok in Hr; [done|]. intros x; cbn; lk; apply Hne.
    + intros [Hl ->]. eexists _, _. split; [by apply CreateBucket_Ok|].
      apply putNets_Ok; [|done]. intros x; cbn; lk; apply Hne.
Qed.

Lemma addContainer_bucket_Ok w u w' :
  let i := ctr_ID ctr in let n := ctr_Name ctr in
  Inv (w_db w) → w_db w !! [idRegistryBkt; i] = None →
  addContainer_bucket i n pod cfgJ stJ nets [idRegistryBkt] [nameRegistryBkt] [ctrBkt] [allCtrsBkt] w
    = (Ok u, w') ↔
  (key_ok i = true ∧ key_ok n = true ∧ value_ok i = true ∧ value_ok n = true ∧
   value_ok cfgJ = true ∧ value_ok stJ = true ∧
   (∀ p, pod = Some p → value_ok (pod_ID p) = true) ∧
   Forall (λ no, key_ok no.1 = true ∧ value_ok no.2 = true) nets) ∧
  w' = set_db (put_ctr ctr pod cfgJ stJ nets (w_db w)) w.
Proof.
  intros i n HI Hi.
  assert (Hc := fresh_ctr _ _ HI Hi).
  assert (Hsub := λ x rest, fresh_sub _ _ x rest HI Hc).
  assert (Hnone : w_db w !! [ctrBkt; i] = None)
    by (apply shape_nested; [apply HI|by left|done]).
  assert (Hn1 : w_db w !! [nameRegistryBkt; n] ≠ Some Bkt) by (by apply shape_ne; [apply HI|]).
  assert (Hn2 : w_db w !! [allCtrsBkt; i] ≠ Some Bkt) by (by apply shape_ne; [apply HI|]).
  subst i n. unfold addContainer_bucket, put_ctr. split.
  - intros Hr. tx_inv.
    all: match goal with H : putNetworks _ _ _ = _ |- _ =>
           apply putNetworks_Ok in H as [? ->];
             [|intros ?; cbn; lk; by rewrite Hsub|cbn; lk; apply Hsub] end.
    all: split; [split_and!; try done; intros ? [=]; by subst|done].
  - intros ((?&?&?&?&?&?&Hp&?) & ->). destruct u.
    assert (ctr_ID ctr ≠ "") by (intros Heq; rewrite Heq in *; done).
    assert (Hput : ∀ k v w', w_db w' !! [ctrBkt; ctr_ID ctr; k] = None → key_ok k = true →
      value_ok v = true → Put [ctrBkt; ctr_ID ctr] k v w' =
        (Ok (), set_db (<[[ctrBkt; ctr_ID ctr; k] := Val v]> (w_db w')) w')).
    { intros k v w' Hk ??. apply Put_Ok. cbn [app]. rewrite Hk. by split_and!. }
    do 4 tx_go.
    do 2 (erewrite st_bind_run by (apply Hput; cbn; lk; done); tx_cbn).
    destruct pod as [p|].
    1: erewrite st_bind_run by (apply Hput; [cbn; lk; done|done|by apply Hp]).
    2: erewrite st_bind_run by reflexivity.
    all: tx_cbn; erewrite st_bind_run by
      (apply (putNetworks_Ok _ _ ()); [intros ?; cbn; lk; by rewrite Hsub|cbn; lk; apply Hsub|by split]).
    all: tx_cbn; apply st_bind_Ok; eexists _, _; split;
      [apply CreateBucket_Ok; split_and!; [done| |done|done]|by rewrite set_db_set_db].
    all: cbn; destruct nets; rewrite ?lookup_put_networks by done; lk; apply Hsub.
Qed.
(** *** Shape and tree structure *)

Lemma shape_foldl {A} (f : Db → A → Db) l db :
  (∀ db x, Shape db → Shape (f db x)) → Shape db → Shape (foldl f db l).
Proof. intros Hf. revert db. induction l; intros db Hd; simpl; eauto. Qed.

Lemma shape_put_ctr db : Shape db → Shape (put_ctr ctr pod cfgJ stJ nets db).
Proof.
  intros Hs. unfold put_ctr. destruct pod, nets;
    repeat first [ exact Hs | apply shape_insert; [done|]
                 | apply shape_foldl; [intros; by apply shape_insert|] ].
Qed.

Lemma shape_put_deps i n deps db : Shape db → Shape (put_deps i n deps db).
Proof. intros Hs. apply shape_foldl; [|done]. intros; by apply shape_insert. Qed.

Lemma shape_put_pod i n db : Shape db → Shape (put_pod i n pod db).
Proof. intros Hs. destruct pod; [by apply shape_insert|done]. Qed.

Lemma shape_put_vols i vols db : Shape db → Shape (put_vols i vols db).
Proof.
  intros Hs. apply shape_foldl; [|done]. intros d v Hd. unfold put_vol.
  repeat case_match; repeat (apply shape_insert; [done|]); done.
Qed.

End tx.

Lemma addContainer_tx_Ok ctr pod cfgJ stJ nets w u w' :
  Inv (w_db w) →
  addContainer_tx ctr pod cfgJ stJ nets w = (Ok u, w') ↔
  AddGuards ctr pod cfgJ stJ nets (w_db w) ∧
  w' = set_db (added ctr pod cfgJ stJ nets (w_db w)) w.
Proof.
  intros HI. assert (Hs := inv_shape _ HI).
  assert (Hs1 := shape_put_ctr ctr pod cfgJ stJ nets _ Hs).
  assert (Hs2 := shape_put_deps (ctr_ID ctr) (ctr_Name ctr) (Dependencies ctr) _ Hs1).
  assert (Hs3 := shape_put_pod pod (ctr_ID ctr) (ctr_Name ctr) _ Hs2).
  assert (Hvol : ∀ v, is_vol (put_pod (ctr_ID ctr) (ctr_Name ctr) pod (put_deps (ctr_ID ctr)
    (ctr_Name ctr) (Dependencies ctr) (put_ctr ctr pod cfgJ stJ nets (w_db w)))) v ↔ is_vol (w_db w) v).
  { intros v. unfold is_vol, put_pod. destruct pod; lk;
      rewrite lookup_put_deps, lookup_put_ctr by done; done. }
  assert (Hnm : ∀ p, put_deps (ctr_ID ctr) (ctr_Name ctr) (Dependencies ctr)
    (put_ctr ctr pod cfgJ stJ nets (w_db w)) !! [podBkt; p; containersBkt; ctr_ID ctr] ≠ Some Bkt)
    by (intros p; by apply shape_ne).
  assert (Hsch := inv_schema _ HI). unfold added. split.
  - intros Hr. unfold addContainer_tx in Hr.
    repeat (first [ match goal with
    | H : addContainer_pod _ _ = _ |- _ => apply addContainer_pod_Ok in H as (-> & -> & Hpod)
    | H : checkIDName _ _ _ _ _ _ = _ |- _ => apply checkIDName_Ok in H as (Hi & Hn & ->);
        apply shape_flat in Hi; [|done|by left]; apply shape_flat in Hn; [|done|by right; left]
    | H : (match _ <$> pod with _ => _ end) _ = _ |- _ =>
        destruct pod; cbn [fmap option_fmap option_map] in H
    end | tx_step ]; tx_cbn).
    all: match goal with Hb : addContainer_bucket _ _ _ _ _ _ _ _ _ _ _ = _ |- _ =>
           apply addContainer_bucket_Ok in Hb as [(?&?&?&?&?&?&?&?) ->]; [|done|done] end.
    all: match goal with Hd : forM_ (Dependencies _) _ _ = _ |- _ =>
           apply addDeps_Ok in Hd as [? ->]; [|done|done|intros d; by apply shape_ne] end.
    all: tx_cbn.
    all: match goal with Hv : forM_ _ (addVolumeDependency _ _) _ = _ |- _ =>
           apply addVols_Ok in Hv as [Hvols ->];
               [|done|done|intros v; by apply (shape_ne _ _ _ Hs3)|intros v s; by apply (shape_ne _ _ _ Hs3)]
         end.
    all: split; [|done]; constructor; try done.
    all: try (intros p' [=<-]; destruct (Hpod _ eq_refl) as (_ & ? & ?); auto).
    all: intros v Hv; by apply Hvol, Hvols.
  - intros [[Hpod Hi Hn Hki Hkn Hvi Hvn Hc Hst Hnets Hdeps Hvols] ->]. unfold addContainer_tx.
    schema_facts HI.
    do 5 tx_go.
    erewrite st_bind_run by (apply addContainer_pod_Ok; split_and!; [done|done|];
      intros p Hp; destruct (Hpod p Hp) as (?&?&?); done).
    erewrite st_bind_run by (apply (checkIDName_Ok _ _ _ _ _ _ ()); unfold bget; cbn [app];
      rewrite Hi, Hn; done).
    erewrite st_bind_run by (apply (addContainer_bucket_Ok _ _ _ _ _ _ ()); [done|done|];
      split; [split_and!; try done; intros p Hp; by destruct (Hpod p Hp) as (?&?&?)|done]).
    erewrite st_bind_run by (apply (addDeps_Ok _ _ _ _ _ ());
      [done|done|intros d; by apply shape_ne|by split]).
    tx_cbn. destruct u.
    assert (Hput : (match (λ p, [podBkt; pod_ID p; containersBkt]) <$> pod with
      | Some pc => Put pc (ctr_ID ctr) (ctr_Name ctr) | None => mret () end)
      (set_db (put_deps (ctr_ID ctr) (ctr_Name ctr) (Dependencies ctr)
        (put_ctr ctr pod cfgJ stJ nets (w_db w))) w) =
      (Ok (), set_db (put_pod (ctr_ID ctr) (ctr_Name ctr) pod (put_deps (ctr_ID ctr) (ctr_Name ctr)
        (Dependencies ctr) (put_ctr ctr pod cfgJ stJ nets (w_db w)))) w)).
    { destruct pod as [p|]; [|done]. apply Put_Ok.
      split_and!; [done|done|cbn; apply Hnm|done]. }
    erewrite st_bind_run by exact Hput.
    apply addVols_Ok; [done|done|intros v; by apply (shape_ne _ _ _ Hs3)|
      intros v s; by apply (shape_ne _ _ _ Hs3)|].
    split; [|done]. intros v Hv. by apply Hvol, Hvols.
Qed.

End add.

(** ** Adding containers keeps the database consistent *)

(** ** Trees *)

Lemma tree_insert' p b k e db :
  p = b ++ [k] → Tree db → (e = Bkt ∨ db !! p ≠ Some Bkt) → (b ≠ [] → db !! b = Some Bkt) →
  Tree (<[p := e]> db).
Proof. intros -> ???. by apply tree_insert. Qed.

(** A loop of insertions into buckets that it does not remove. *)
Lemma tree_foldl {A} (f : Db → A → Db) (P : Db → Prop) l db :
  (∀ db x, x ∈ l → P db → Tree db → Tree (f db x) ∧ P (f db x)) → P db → Tree db →
  Tree (foldl f db l).
Proof.
  revert db. induction l as [|x l IH]; intros db Hf HP HT; simpl; [done|].
  destruct (Hf db x) as [??]; [by left|done|done|].
  apply IH; [|done|done]. intros; apply Hf; [by right|done|done].
Qed.

(** Insert at a key of bucket [b]. *)
Ltac tree_ins b :=
  match goal with
  | |- Tree (<[?p := _]> _) =>
      eapply (tree_insert' _ b); [reflexivity| | |intros _; lk; try done]
  end.

Section addinv.
Context `{Runtime}.

Lemma tree_put_vol i d v :
  Tree d → Shape d → is_vol d v → Tree (put_vol i d v).
Proof.
  intros HT Hs Hv. unfold put_vol.
  assert (HT1 : Tree (<[[volBkt; v; volDependenciesBkt]:=Bkt]> d))
    by (tree_ins [volBkt; v]; [done|by left]).
  repeat case_match; [done|..]; (tree_ins [volBkt; v; volDependenciesBkt]; [done|]);
    right; lk; by apply shape_ne.
Qed.

Section lookups.
Context (ctr : Define.Container) (pod : option Define.Pod) (cfgJ stJ : string).
Context (nets : list (string * string)) (db : Db).
Local Abbreviation i := (ctr_ID ctr).
Local Abbreviation n := (ctr_Name ctr).
Local Abbreviation db' := (added ctr pod cfgJ stJ nets db).

(** Paths outside of the pods' and the volumes' buckets and of the dependency
    buckets keep what [put_ctr] gave them. *)
Lemma lookup_added_ctr q :
  (∀ p, q ≠ [podBkt; p; containersBkt; i]) → (∀ d, q ≠ [ctrBkt; d; dependenciesBkt; i]) →
  (∀ x, q ≠ [volBkt; x; volDependenciesBkt] ∧ q ≠ [volBkt; x; volDependenciesBkt; i]) →
  db' !! q = put_ctr ctr pod cfgJ stJ nets db !! q.
Proof.
  intros Hp Hd Hv. unfold added. rewrite lookup_put_vols by done.
  unfold put_pod. destruct pod; rewrite ?lookup_insert_ne by done; apply lookup_put_deps; auto.
Qed.

Lemma lookup_added q :
  (∀ p, q ≠ [podBkt; p; containersBkt; i]) → (∀ d, q ≠ [ctrBkt; d; dependenciesBkt; i]) →
  (∀ x, q ≠ [volBkt; x; volDependenciesBkt] ∧ q ≠ [volBkt; x; volDependenciesBkt; i]) →
  q ≠ [idRegistryBkt; i] → q ≠ [nameRegistryBkt; n] →
  q ≠ [allCtrsBkt; i] → (∀ rest, q ≠ ctrBkt :: i :: rest) →
  db' !! q = db !! q.
Proof. intros. rewrite lookup_added_ctr by done. by apply lookup_put_ctr. Qed.

Lemma added_top b : db' !! [b] = db !! [b].
Proof. by apply lookup_added. Qed.

Lemma added_flat b k :
  b ∉ [idRegistryBkt; nameRegistryBkt; allCtrsBkt; ctrBkt] → db' !! [b; k] = db !! [b; k].
Proof. intros Hb. apply lookup_added; try done; try (intros; split; done); intros; intros [=]; subst; set_solver. Qed.

Hypothesis Hinv : Inv db.
Hypothesis Hg : AddGuards ctr pod cfgJ stJ nets db.

Lemma added_not_ctr : ¬ is_ctr db i.
Proof. apply fresh_ctr; [done|apply Hg]. Qed.

Lemma added_new_sub x rest : db !! (ctrBkt :: i :: x :: rest) = None.
Proof. apply fresh_sub; [done|apply added_not_ctr]. Qed.

Lemma added_new_none : db !! [ctrBkt; i] = None.
Proof. apply shape_nested; [apply Hinv|by left|apply added_not_ctr]. Qed.

Lemma lookup_added_new q :
  (∀ d, q ≠ [ctrBkt; d; dependenciesBkt; i]) → (∀ rest, q ≠ ctrBkt :: i :: networksBkt :: rest) →
  head q ∉ [Some podBkt; Some volBkt] →
  db' !! q = put_ctr ctr pod cfgJ stJ [] db !! q.
Proof.
  intros Hd Hn Hh. rewrite lookup_added_ctr; [by apply lookup_put_ctr_nets| |done|].
  - intros p ->. set_solver.
  - intros x. split; intros ->; set_solver.
Qed.

Lemma added_id j : db' !! [idRegistryBkt; j] = if decide (j = i) then Some (Val n) else db !! [idRegistryBkt; j].
Proof.
  case_decide as Hj; [subst|by apply lookup_added; try done; intros [=]].
  rewrite lookup_added_new by (try done; by_dec). unfold put_ctr. by destruct pod; lk.
Qed.

Lemma added_name m : db' !! [nameRegistryBkt; m] = if decide (m = n) then Some (Val i) else db !! [nameRegistryBkt; m].
Proof.
  case_decide as Hj; [subst|by apply lookup_added; try done; intros [=]].
  rewrite lookup_added_new by (try done; by_dec). unfold put_ctr. by destruct pod; lk.
Qed.

Lemma added_all j : db' !! [allCtrsBkt; j] = if decide (j = i) then Some (Val n) else db !! [allCtrsBkt; j].
Proof.
  case_decide as Hj; [subst|by apply lookup_added; try done; intros [=]].
  rewrite lookup_added_new by (try done; by_dec). unfold put_ctr. by destruct pod; lk.
Qed.

Lemma added_ctr j : db' !! [ctrBkt; j] = if decide (j = i) then Some Bkt else db !! [ctrBkt; j].
Proof.
  case_decide as Hj; [subst|by apply lookup_added; try done; intros; intros [=]].
  rewrite lookup_added_new by (try done; by_dec). unfold put_ctr. by destruct pod; lk.
Qed.

(** The keys of a container's own bucket. *)
Lemma added_key j k :
  k ≠ networksBkt →
  db' !! [ctrBkt; j; k] =
  if decide (j = i) then
    (if decide (k = configKey) then Some (Val cfgJ)
     else if decide (k = stateKey) then Some (Val stJ)
     else if decide (k = podIDKey) then (λ p, Val (pod_ID p)) <$> pod
     else if decide (k = dependenciesBkt) then Some Bkt else None)
  else db !! [ctrBkt; j; k].
Proof.
  intros Hk. assert (Hsub := added_new_sub).
  case_decide as Hj; [subst|by apply lookup_added; try done; intros; intros [=]].
  rewrite lookup_added_new by (try done; first [by_dec|by intros ? [=]]). unfold put_ctr.
  repeat case_decide; subst; destruct pod; lk; done.
Qed.

Lemma added_dep a b :
  db' !! [ctrBkt; a; dependenciesBkt; b] =
  if decide (b = i ∧ a ∈ Dependencies ctr) then Some (Val n) else db !! [ctrBkt; a; dependenciesBkt; b].
Proof.
  unfold added. rewrite lookup_put_vols by done.
  assert (Hp : ∀ d, put_pod i n pod d !! [ctrBkt; a; dependenciesBkt; b] = d !! [ctrBkt; a; dependenciesBkt; b])
    by (intros d; unfold put_pod; destruct pod; by lk).
  rewrite Hp. case_decide as Hd; [destruct Hd as [-> Hd]; by apply lookup_put_deps_in|].
  rewrite lookup_put_deps by (intros d Hin [=]; subst; naive_solver).
  rewrite lookup_put_ctr_nets by done.
  destruct (decide (a = i)) as [->|].
  - unfold put_ctr. destruct pod; lk; done.
  - by apply lookup_put_ctr; try done; intros ? [=].
Qed.

Lemma added_session c s : db' !! [ctrBkt; c; execBkt; s] = db !! [ctrBkt; c; execBkt; s].
Proof.
  rewrite lookup_added_new by (try done; by_dec).
  destruct (decide (c = i)) as [->|].
  - unfold put_ctr. destruct pod; lk; done.
  - by apply lookup_put_ctr; try done; intros ? [=].
Qed.

Lemma added_member p c :
  db' !! [podBkt; p; containersBkt; c] =
  if decide (c = i ∧ pod_ID <$> pod = Some p) then Some (Val n) else db !! [podBkt; p; containersBkt; c].
Proof.
  unfold added. rewrite lookup_put_vols by done. unfold put_pod.
  assert (Hr : put_deps i n (Dependencies ctr) (put_ctr ctr pod cfgJ stJ nets db) !! [podBkt; p; containersBkt; c] = db !! [podBkt; p; containersBkt; c])
    by (rewrite lookup_put_deps, lookup_put_ctr by done; done).
  case_decide as Hc.
  - destruct Hc as [-> Hp]. destruct pod as [q|]; simplify_eq/=. by lk.
  - destruct pod as [q|]; [|done]. rewrite lookup_insert_ne; [done|]. intros [=]; subst. naive_solver.
Qed.

Lemma added_pod_key p k : db' !! [podBkt; p; k] = db !! [podBkt; p; k].
Proof. by apply lookup_added. Qed.

Local Abbreviation vols := (nv_Name <$> cc_NamedVolumes (ctr_config ctr)).

Lemma added_vol_bkt v : is_vol db v → db' !! [volBkt; v; volDependenciesBkt] = Some Bkt.
Proof.
  intros Hv. unfold added. rewrite lookup_put_vols_bkt. case_decide; [done|].
  assert (Hr : put_deps i n (Dependencies ctr) (put_ctr ctr pod cfgJ stJ nets db) !! [volBkt; v; volDependenciesBkt] = db !! [volBkt; v; volDependenciesBkt])
    by (rewrite lookup_put_deps, lookup_put_ctr by done; done).
  unfold put_pod. destruct pod; lk; rewrite Hr; by apply (inv_vol_deps db (inv_vols db Hinv)).
Qed.

Lemma added_vol_user v c : c ≠ i →
  db' !! [volBkt; v; volDependenciesBkt; c] = db !! [volBkt; v; volDependenciesBkt; c].
Proof. intros. apply lookup_added; try done; [intros ?; split; intros [=]; done..]. Qed.

Lemma added_vol_new v : v ∈ vols → ∃ e, db' !! [volBkt; v; volDependenciesBkt; i] = Some e.
Proof. intros Hv. by apply lookup_put_vols_dep_in. Qed.

(** *** The tree structure *)

Lemma tree_put_ctr : Tree (put_ctr ctr pod cfgJ stJ nets db).
Proof.
  assert (Hsub := added_new_sub). assert (Hnone := added_new_none).
  assert (HT := inv_tree db Hinv). assert (Hsh := inv_shape db Hinv). schema_facts Hinv.
  assert (HTb : Tree (<[[ctrBkt; i; stateKey] := Val stJ]> (<[[ctrBkt; i; configKey] := Val cfgJ]>
    (<[[ctrBkt; i] := Bkt]> (<[[allCtrsBkt; i] := Val n]> (<[[nameRegistryBkt; n] := Val i]>
    (<[[idRegistryBkt; i] := Val n]> db))))))).
  { tree_ins [ctrBkt; i]; [|right; lk; by rewrite Hsub].
    tree_ins [ctrBkt; i]; [|right; lk; by rewrite Hsub].
    tree_ins [ctrBkt]; [|by left].
    tree_ins [allCtrsBkt]; [|right; lk; by apply shape_ne].
    tree_ins [nameRegistryBkt]; [|right; lk; by apply shape_ne].
    tree_ins [idRegistryBkt]; [done|right; lk; by apply shape_ne]. }
  unfold put_ctr. tree_ins [ctrBkt; i]; [|by left|].
  - destruct nets as [|no l].
    + destruct pod; [|done]. tree_ins [ctrBkt; i]; [done|right; lk; by rewrite Hsub].
    + apply (tree_foldl _ (λ d, d !! [ctrBkt; i; networksBkt] = Some Bkt ∧
        ∀ x, d !! [ctrBkt; i; networksBkt; x] ≠ Some Bkt)).
      * intros d [net o] _ [Hd Hx] HTd. simpl. split_and!; [tree_ins [ctrBkt; i; networksBkt]; [done|]|by lk|].
        { right. apply Hx. }
        intros x. rewrite lookup_insert. case_decide; [done|apply Hx].
      * split; [by lk|]. intros x. destruct pod; lk; by rewrite Hsub.
      * tree_ins [ctrBkt; i]; [|by left|destruct pod; by lk].
        destruct pod; [|done]. tree_ins [ctrBkt; i]; [done|right; lk; by rewrite Hsub].
  - destruct nets; rewrite ?lookup_put_networks by done; destruct pod; by lk.
Qed.

Lemma tree_added : Tree db'.
Proof.
  assert (HT := tree_put_ctr). assert (Hsh := inv_shape db Hinv).
  assert (Hsh1 := shape_put_ctr ctr pod cfgJ stJ nets _ Hsh).
  assert (Hsh2 := shape_put_deps i n (Dependencies ctr) _ Hsh1).
  assert (Hsh3 := shape_put_pod pod i n _ Hsh2).
  assert (Hdeps := ag_deps _ _ _ _ _ _ Hg). assert (Hvols := ag_vols _ _ _ _ _ _ Hg).
  assert (Hpod := ag_pod _ _ _ _ _ _ Hg).
  unfold added, put_vols. apply (tree_foldl _ (λ d, (∀ v, v ∈ vols → is_vol d v) ∧ Shape d)).
  - intros d v Hv [Hd Hs] HTd. split_and!.
    + apply tree_put_vol; [done..|by apply Hd].
    + intros v' Hv'. unfold is_vol. rewrite lookup_put_vol by done. by apply Hd.
    + by apply (shape_put_vols i [v]).
  - split; [|done]. intros v (vol & -> & Hv)%list_elem_of_fmap. apply Hvols in Hv. revert Hv.
    unfold is_vol, put_pod. destruct pod; lk; rewrite lookup_put_deps, lookup_put_ctr by done; done.
  - unfold put_pod. assert (HTd : Tree (put_deps i n (Dependencies ctr) (put_ctr ctr pod cfgJ stJ nets db))).
    { apply (tree_foldl _ (λ d, (∀ a, a ∈ Dependencies ctr → d !! [ctrBkt; a; dependenciesBkt] = Some Bkt) ∧ Shape d)).
      - intros d a Ha [Hd Hs] HTd. split_and!.
        + tree_ins [ctrBkt; a; dependenciesBkt]; [done|right; by apply shape_ne|by apply Hd].
        + intros a' Ha'. lk. by apply Hd.
        + by apply shape_insert.
      - split; [|done]. intros a Ha. apply Hdeps, Ha.
      - done. }
    destruct pod as [p|]; [|done].
    tree_ins [podBkt; pod_ID p; containersBkt]; [done|right; by apply shape_ne|].
    rewrite lookup_put_deps, lookup_put_ctr by done. by apply Hpod.
Qed.

(** *** The invariant *)

Lemma is_ctr_added j : is_ctr db' j ↔ j = i ∨ is_ctr db j.
Proof. unfold is_ctr. rewrite added_ctr. case_decide; naive_solver. Qed.
Lemma is_pod_added j : is_pod db' j ↔ is_pod db j.
Proof. unfold is_pod. by rewrite added_flat by by_dec. Qed.
Lemma is_vol_added j : is_vol db' j ↔ is_vol db j.
Proof. unfold is_vol. by rewrite added_flat by by_dec. Qed.

Lemma id_name_added j m : id_name db' j m ↔ (j = i ∧ m = n) ∨ id_name db j m.
Proof.
  unfold id_name. rewrite added_id. assert (Hi := ag_id _ _ _ _ _ _ Hg).
  case_decide; subst; [rewrite Hi|]; naive_solver.
Qed.
Lemma name_id_added m j : name_id db' m j ↔ (j = i ∧ m = n) ∨ name_id db m j.
Proof.
  unfold name_id. rewrite added_name. assert (Hi := ag_name _ _ _ _ _ _ Hg).
  case_decide; subst; [rewrite Hi|]; naive_solver.
Qed.

Lemma added_registry : RegistryInv db'.
Proof.
  destruct (inv_registry db Hinv) as [R1 R2 R3 R4 R5 R6 R7].
  assert (Hi := ag_id _ _ _ _ _ _ Hg). assert (Hnew := added_not_ctr).
  assert (Hfree : ∀ m, ¬ id_name db i m) by (unfold id_name; intros m ?; congruence).
  assert (Hnp : ¬ is_pod db i) by (intros [m Hm]%R6; by eapply Hfree).
  constructor.
  - intros j m. rewrite id_name_added, name_id_added, R1. done.
  - intros j m. rewrite id_name_added, is_ctr_added, added_all. case_decide; subst.
    + split; [intros [=]; subst; naive_solver|]. intros [[[_ ->]|[]%Hfree] _]; done.
    + rewrite R2. naive_solver.
  - intros j m. rewrite id_name_added, is_pod_added, added_flat by by_dec. rewrite R3. naive_solver.
  - intros j m. rewrite id_name_added, is_ctr_added, is_pod_added. intros [[-> _]|Hj%R4]; naive_solver.
  - intros j. rewrite is_ctr_added. setoid_rewrite id_name_added. intros [->|[m Hm]%R5]; eauto.
  - intros j. rewrite is_pod_added. setoid_rewrite id_name_added. intros [m Hm]%R6; eauto.
  - intros j. rewrite is_ctr_added, is_pod_added. intros [->|Hc]; [done|]. by apply R7.
Qed.

(** What the encoded configuration and state decode to. *)
Context (cfg : ContainerConfig) (st : ContainerState).
Hypothesis Hcfg : unmarshal cfgJ = Ok cfg.
Hypothesis Hst : unmarshal stJ = Ok st.
Hypothesis Hid : cc_ID cfg = i.
Hypothesis Hname : cc_Name cfg = n.
Hypothesis Hcpod : cc_Pod cfg = default "" (pod_ID <$> pod).
Hypothesis Hcdeps : ∀ d, d ∈ config_deps cfg ↔ d ∈ Dependencies ctr.
Hypothesis Hcvols : nv_Name <$> cc_NamedVolumes cfg = vols.

Lemma stored_config_added j c :
  stored_config db' j c ↔ (j = i ∧ c = cfg) ∨ (j ≠ i ∧ stored_config db j c).
Proof.
  unfold stored_config. setoid_rewrite added_key; [|done]. case_decide; subst.
  - rewrite decide_True by done. split; [intros (s & [= <-] & Hs); left; split; congruence|].
    intros [[_ ->]|[? _]]; [|done]. eauto.
  - split; [by right|]. by intros [[]|[_ ?]].
Qed.

Lemma pod_nonempty p : pod = Some p → pod_ID p ≠ "".
Proof.
  intros Hp. destruct (ag_pod _ _ _ _ _ _ Hg p Hp) as [Hpod _].
  by apply (inv_pod_name db (inv_pods db Hinv)).
Qed.

Lemma podkey_added j :
  db' !! [ctrBkt; j; podIDKey] =
  if decide (j = i) then (λ p, Val (pod_ID p)) <$> pod else db !! [ctrBkt; j; podIDKey].
Proof. rewrite added_key by done. by repeat case_decide. Qed.

Lemma added_ctrs : CtrInv db'.
Proof.
  destruct (inv_ctrs db Hinv) as [R1 R2 R3]. assert (Hne := pod_nonempty). constructor.
  - intros j Hj%is_ctr_added. rewrite added_key by done. repeat case_decide; try done. naive_solver.
  - intros j Hj%is_ctr_added. setoid_rewrite id_name_added. setoid_rewrite stored_config_added.
    setoid_rewrite podkey_added. destruct (decide (j = i)) as [->|].
    + exists cfg. split_and!; [by left|done|by left|]. rewrite Hcpod. destruct pod as [p|]; simpl; [|done].
      rewrite decide_False; [done|]. by apply Hne.
    + destruct Hj as [|Hj]; [done|]. destruct (R2 j Hj) as (c & ? & ? & ? & ?). exists c. split_and!; auto.
  - intros j Hj%is_ctr_added. setoid_rewrite added_key; [|done].
    case_decide; [rewrite decide_False, decide_True by done; eauto|]. naive_solver.
Qed.

Lemma added_deps : DepInv db'.
Proof.
  destruct (inv_dependencies db Hinv) as [R1 R2]. assert (Hnew := added_not_ctr).
  assert (Hd := ag_deps _ _ _ _ _ _ Hg). constructor.
  - intros a b c Hb%is_ctr_added Hc%stored_config_added Ha.
    rewrite is_ctr_added, added_dep, !podkey_added.
    destruct Hc as [[-> ->]|[Hbi Hc]].
    + apply Hcdeps in Ha. destruct (Hd a Ha) as (Hac & _ & Hp).
      rewrite decide_True by done. rewrite (decide_True (P := i = i)) by done.
      split_and!; [|by eexists|].
      * destruct (decide (a = i)); [by left|right]. revert Hac. unfold is_ctr.
        rewrite lookup_put_ctr; [done..|]. by intros ? [=].
      * case_decide; [done|]. revert Hp. unfold bget. cbn [app].
        rewrite lookup_put_ctr by (try done; by intros ? [=]).
        assert (db !! [ctrBkt; a; podIDKey] ≠ Some Bkt) by (by apply shape_ne; [apply Hinv|]).
        destruct (db !! [ctrBkt; a; podIDKey]) as [[]|], pod; naive_solver.
    + destruct Hb as [|Hb]; [done|]. destruct (R1 a b c Hb Hc Ha) as (Hac & He & Hp).
      assert (a ≠ i) by (intros ->; done). rewrite !decide_False by naive_solver. eauto.
  - intros a b e. rewrite added_dep, is_ctr_added. setoid_rewrite stored_config_added.
    case_decide as Hc; [destruct Hc as [-> Ha%Hcdeps]; intros _; eauto 10|].
    intros (Hb & c & Hs & Ha)%R2. assert (b ≠ i) by (intros ->; done). eauto 10.
Qed.

Lemma added_pods : PodInv db'.
Proof.
  destruct (inv_pods db Hinv) as [R1 R2 R3]. assert (Hnew := added_not_ctr).
  assert (Hi := ag_id _ _ _ _ _ _ Hg). assert (Hp := ag_pod _ _ _ _ _ _ Hg).
  constructor.
  - intros p. rewrite is_pod_added, added_pod_key. apply R1.
  - intros p c m. rewrite added_member, is_pod_added, is_ctr_added, podkey_added, id_name_added.
    case_decide as Hc; [destruct Hc as [-> Hc]|].
    + rewrite decide_True by done. destruct pod as [q|]; simplify_eq/=. unfold id_name. rewrite Hi.
      destruct (Hp q) as (? & _); naive_solver.
    + rewrite R2. case_decide; subst; [|naive_solver]. split; [by intros (_&?&_)|].
      destruct pod; simpl in *; [|by intros (_&_&?&_)]. intros (?&_&[=]&_); naive_solver.
  - intros c p. rewrite is_ctr_added, podkey_added, is_pod_added. case_decide; subst; [|naive_solver].
    destruct pod as [q|]; simpl; [|done]. intros _ [= <-]. by apply Hp.
Qed.

Lemma added_vols : VolInv db'.
Proof.
  destruct (inv_vols db Hinv) as [R1 R2 R3]. assert (Hnew := added_not_ctr).
  assert (Hv := ag_vols _ _ _ _ _ _ Hg). constructor.
  - intros v m. rewrite is_vol_added, added_flat by by_dec. apply R1.
  - intros v. rewrite is_vol_added. apply added_vol_bkt.
  - intros c c' v Hc%is_ctr_added Hs%stored_config_added Hin. rewrite is_vol_added.
    destruct Hs as [[-> ->]|[Hci Hs]].
    + rewrite Hcvols in Hin. split; [|by apply added_vol_new].
      apply list_elem_of_fmap in Hin as (x & -> & Hx). by apply Hv.
    + rewrite added_vol_user by done. destruct Hc as [|Hc]; [done|]. by eapply R3.
Qed.

Lemma added_inv : Inv db'.
Proof.
  constructor.
  - apply tree_added.
  - apply shape_put_vols, shape_put_pod, shape_put_deps, shape_put_ctr, Hinv.
  - intros b Hb. rewrite added_top. by apply (inv_schema db Hinv).
  - apply added_registry.
  - apply added_ctrs.
  - apply added_deps.
  - apply added_pods.
  - apply added_vols.
  - constructor. intros c s e. rewrite added_session, added_flat by by_dec.
    apply (inv_exec db (inv_sessions db Hinv)).
Qed.

End lookups.
End addinv.
