(* ===== verification/BoltRemove.v ===== *)
(** * BoltRemove: removing containers

    What [removeContainer] erases, when it succeeds, and that it keeps the
    database consistent when the caller's container agrees with the stored
    one. *)

From S2P Require Import Prelude Define Bolt BoltTx Strconv BoltInternal BoltState BoltInv BoltAdd.

Section remove.
Context `{Runtime}.

(** The paths of a container: its registrations, its bucket, its entries in the
    dependency buckets of the containers it depends on and in its pod. *)
Definition ctr_paths (i n : string) (deps : list string) (pod : option string) (q : path) : bool :=
  match q with
  | b :: k :: rest =>
      bool_decide (b = ctrBkt ∧ k = i) ||
      match rest with
      | [] => bool_decide (b ∈ [idRegistryBkt; allCtrsBkt] ∧ k = i ∨ b = nameRegistryBkt ∧ k = n)
      | [x; y] => bool_decide (y = i ∧ (b = ctrBkt ∧ x = dependenciesBkt ∧ k ∈ deps ∨
                                        b = podBkt ∧ x = containersBkt ∧ pod = Some k))
      | _ => false
      end
  | _ => false
  end.

Definition dep_paths (i : string) (deps : list string) (q : path) : bool :=
  match q with
  | [b; d; x; y] => bool_decide (b = ctrBkt ∧ x = dependenciesBkt ∧ y = i ∧ d ∈ deps)
  | _ => false
  end.

(** ** The loops *)

Lemma removeDependency_run i d w :
  Tree (w_db w) → Shape (w_db w) →
  removeDependency i [ctrBkt] d w =
  (Ok (), set_db (delete [ctrBkt; d; dependenciesBkt; i] (w_db w)) w).
Proof.
  intros HT HS.
  assert (Hdel : ∀ p, w_db w !! p ≠ Some Bkt → is_Some (w_db w !! (p ++ [i])) → p ≠ [] → False)
    by (intros p Hp Hs Hne; apply Hp; by eapply HT).
  unfold removeDependency. erewrite st_bind_run by done. cbn [app].
  unfold bucket at 1. cbn [app]. destruct (w_db w !! [ctrBkt; d]) as [[v|]|] eqn:Hd.
  1,3: rewrite delete_id by (destruct (w_db w !! [ctrBkt; d; dependenciesBkt; i]) as [e|] eqn:He; [|done];
         apply sub_ctr in He; [|done]; unfold is_ctr in He; congruence);
       by rewrite set_db_id.
  erewrite st_bind_run by done. unfold bucket. cbn [app].
  destruct (w_db w !! [ctrBkt; d; dependenciesBkt]) as [[v|]|] eqn:Hx.
  1,3: rewrite delete_id by (destruct (w_db w !! [ctrBkt; d; dependenciesBkt; i]) as [e|] eqn:He; [|done];
         destruct (Hdel [ctrBkt; d; dependenciesBkt]); [by rewrite Hx|by eexists|done]);
       by rewrite set_db_id.
  apply Delete_Ok. split; [by apply shape_ne|done].
Qed.

Lemma removeDeps_run i deps w :
  Tree (w_db w) → Shape (w_db w) →
  forM_ deps (removeDependency i [ctrBkt]) w = (Ok (), set_db (erase (dep_paths i deps) (w_db w)) w).
Proof.
  revert w. induction deps as [|d deps IH]; intros w HT HS; simpl.
  - unfold mret, st_ret. rewrite (erase_ext _ (λ _, false)), erase_none, set_db_id; [done|].
    intros q _. unfold dep_paths. repeat case_match; try done.
    apply bool_decide_eq_false. intros (_&_&_&[]%not_elem_of_nil).
  - erewrite st_bind_run by (by apply removeDependency_run). rewrite IH; cbn [w_db set_db].
    + rewrite set_db_set_db, delete_erase, erase_erase. do 2 f_equal. apply erase_ext.
      intros q _. apply eq_true_iff_eq. rewrite orb_true_iff, bool_decide_eq_true.
      unfold dep_paths. destruct q as [|b [|k [|x [|y []]]]]; rewrite ?bool_decide_eq_true; try naive_solver.
      set_solver.
    + apply (tree_delete [ctrBkt; d; dependenciesBkt]); [done|by apply shape_ne].
    + by apply shape_delete.
Qed.

Lemma removeVols_run i vols w :
  (∀ v, is_vol (w_db w) v → w_db w !! [volBkt; v; volDependenciesBkt] = Some Bkt) →
  Shape (w_db w) →
  forM_ vols (removeVolumeDependency i [volBkt]) w = (Ok (), w).
Proof.
  intros Hv HS. induction vols as [|v vols IH]; simpl; [done|].
  erewrite st_bind_run; [exact IH|]. unfold removeVolumeDependency.
  erewrite st_bind_run by done. unfold bucket at 1. cbn [app].
  destruct (w_db w !! [volBkt; nv_Name v]) as [[]|] eqn:Hvol; [done| |done].
  erewrite st_bind_run by done. unfold bucket. cbn [app]. rewrite (Hv _ Hvol).
  erewrite st_bind_run by done. erewrite st_bind_run by done. unfold bget. cbn [app].
  destruct (w_db w !! [volBkt; nv_Name v; volDependenciesBkt; i]) as [[]|] eqn:He; [done|..].
  - exfalso. by eapply (shape_ne _ _ _ HS); [|exact He].
  - rewrite <- (set_db_id w) at 2. apply Delete_Ok. cbn [app]. rewrite He. split; [done|].
    by rewrite delete_id.
Qed.

(** ** The operation *)

(** When [removeContainer] succeeds. *)
Record RemoveGuards (i : string) (pod : option string) (db : Db) : Prop := {
  rg_pod : ∀ p, pod = Some p →
    is_pod db p ∧ ∃ m, db !! [podBkt; p; containersBkt; i] = Some (Val m);
  rg_ctr : is_ctr db i;
  rg_sessions : ∀ s, db !! [ctrBkt; i; execBkt; s] = None;
  rg_users : ∀ d, db !! [ctrBkt; i; dependenciesBkt; d] = None }.

Definition removed (ctr : Define.Container) (pod : option Define.Pod) (db : Db) : Db :=
  erase (ctr_paths (ctr_ID ctr) (ctr_Name ctr) (Dependencies ctr) (pod_ID <$> pod)) db.

(** The entry of the container in its pod. *)
Definition drop_member (i : string) (pod : option Define.Pod) (db : Db) : Db :=
  match pod with
  | Some p => delete [podBkt; pod_ID p; containersBkt; i] db
  | None => db
  end.

Lemma lookup_drop_member i pod db q :
  head q ≠ Some podBkt → drop_member i pod db !! q = db !! q.
Proof. intros Hq. destruct pod; [|done]. apply lookup_delete_ne. by intros <-. Qed.

Lemma removed_eq ctr pod db :
  removed ctr pod db =
  erase (dep_paths (ctr_ID ctr) (Dependencies ctr))
    (delete [allCtrsBkt; ctr_ID ctr] (delete [nameRegistryBkt; ctr_Name ctr]
      (delete [idRegistryBkt; ctr_ID ctr] (drop_subtree [ctrBkt; ctr_ID ctr]
        (drop_member (ctr_ID ctr) pod db))))).
Proof.
  unfold removed, drop_member. rewrite !delete_erase, drop_subtree_erase.
  destruct pod as [p|]; cbn [fmap option_fmap option_map];
    rewrite ?delete_erase, !erase_erase; apply erase_ext; intros q _; apply eq_true_iff_eq;
    rewrite !orb_true_iff, !bool_decide_eq_true; unfold ctr_paths, dep_paths;
    destruct q as [|b [|k [|x [|y []]]]]; rewrite ?orb_true_iff, ?bool_decide_eq_true, ?prefix_of_two;
    rewrite ?elem_of_cons, ?elem_of_nil; naive_solver.
Qed.

Lemma removeContainer_run ctr pod w :
  Inv (w_db w) → RemoveGuards (ctr_ID ctr) (pod_ID <$> pod) (w_db w) →
  removeContainer ctr pod w = (Ok (), set_db (removed ctr pod (w_db w)) w).
Proof.
  intros HI [Hp Hc Hs Hu]. schema_facts HI. assert (HS := inv_shape _ HI).
  assert (Hdeps := inv_ctr_deps _ (inv_ctrs _ HI) _ Hc).
  rewrite removed_eq. unfold removeContainer. do 5 tx_go.
  erewrite st_bind_run; last first.
  { instantiate (2 := (λ p, [podBkt; pod_ID p]) <$> pod). instantiate (1 := w).
    unfold removeContainer_pod. destruct pod as [p|]; [|done]. tx_go. tx_go.
    destruct (Hp (pod_ID p) eq_refl) as [Hpod _]. unfold bucket. cbn [app]. by rewrite Hpod. }
  tx_go. unfold bucket. cbn [app]. rewrite Hc. tx_go.
  erewrite st_bind_run; last first.
  { instantiate (2 := ()). instantiate (1 := set_db (drop_member (ctr_ID ctr) pod (w_db w)) w).
    destruct pod as [p|]; cbn [fmap option_fmap option_map drop_member]; [|by rewrite set_db_id].
    destruct (Hp (pod_ID p) eq_refl) as [Hpod [m Hm]].
    destruct (inv_pod_name _ (inv_pods _ HI) _ Hpod) as [_ Hcs].
    tx_go. unfold bucket. cbn [app]. rewrite Hcs. tx_go. unfold bget. cbn [app]. rewrite Hm. tx_go.
    apply Delete_Ok. cbn [app]. by rewrite Hm. }
  tx_go. unfold bucket at 1. cbn [app]. rewrite lookup_drop_member by done.
  erewrite st_bind_run; last first.
  { instantiate (2 := ()). instantiate (1 := set_db (drop_member (ctr_ID ctr) pod (w_db w)) w).
    destruct (w_db w !! [ctrBkt; ctr_ID ctr; execBkt]) as [[]|]; [done| |done].
    tx_go. apply failIf_Ok. split; [|done]. apply bool_decide_eq_false. intros Hne. apply Hne.
    apply children_nil. intros k. cbn [app]. by rewrite lookup_drop_member. }
  tx_go. unfold bucket at 1. cbn [app]. rewrite lookup_drop_member, Hdeps by done. tx_go. tx_go.
  erewrite st_bind_run by (apply (failIf_Ok _ _ _ ()); split; [|done]; apply bool_decide_eq_false;
    intros Hne; apply Hne, children_nil; intros k; cbn [app]; by rewrite lookup_drop_member).
  erewrite st_bind_run by (apply orErr_Ok, (DeleteBucket_Ok _ _ _ ()); split;
    [cbn; by rewrite lookup_drop_member|done]).
  tx_cbn.
  assert (HS' : Shape (drop_member (ctr_ID ctr) pod (w_db w))) by (destruct pod; [by apply shape_delete|done]).
  assert (HT' : Tree (drop_member (ctr_ID ctr) pod (w_db w))).
  { destruct pod as [p|]; [|apply HI]. apply (tree_delete [_; _; _]); [apply HI|by apply shape_ne]. }
  do 3 del_go.
  erewrite st_bind_run by (apply removeDeps_run; cbn [w_db set_db]; [|shape_tac];
    repeat (apply (tree_delete [_]); [|apply shape_ne; [shape_tac|done]]); by apply tree_drop).
  tx_cbn. apply removeVols_run; cbn [w_db set_db]; [|shape_tac].
  intros v. rewrite <- removed_eq. unfold is_vol, removed. rewrite !lookup_erase. simpl.
  intros Hv. by apply (inv_vol_deps _ (inv_vols _ HI)).
Qed.

Lemma removeContainer_Ok ctr pod w u w' :
  Inv (w_db w) →
  removeContainer ctr pod w = (Ok u, w') ↔
  RemoveGuards (ctr_ID ctr) (pod_ID <$> pod) (w_db w) ∧ w' = set_db (removed ctr pod (w_db w)) w.
Proof.
  intros HI. split.
  - intros Hr. assert (RemoveGuards (ctr_ID ctr) (pod_ID <$> pod) (w_db w)) as HG.
    { revert Hr. unfold removeContainer, removeContainer_pod. intros Hr.
      repeat (first [ match goal with
        | H : forM_ _ _ _ = _ |- _ => clear H
        | H : match _ <$> pod with _ => _ end _ = _ |- _ =>
            destruct pod; cbn [fmap option_fmap option_map] in H
        | H : ¬ (children _ _).*1 ≠ [] |- _ => apply dec_stable in H
        | H : (children _ _).*1 = [] |- _ => rewrite children_nil in H; cbn [app] in H
        | H : bucket _ _ _ = None |- _ => rewrite bucket_None in H; cbn [app] in H
        end | tx_step ]; tx_cbn).
      all: constructor; [|done| |].
      all: try (intros q [= <-]; split; [done|];
        first [ by eexists | exfalso; by destruct (inv_pod_name _ (inv_pods _ HI) (pod_ID p)) as [_ ?] ]).
      all: try (by intros ? ?).
      all: intros k; match goal with
        | Hk : ∀ k, _ !! [ctrBkt; _; ?b; k] = None |- _ !! [ctrBkt; _; ?b; k] = None =>
            specialize (Hk k); by lk_in Hk
        | Hk : _ !! [ctrBkt; ?i; ?b] ≠ Some Bkt |- _ !! [ctrBkt; _; ?b; k] = None =>
            lk_in Hk; apply eq_None_not_Some; intros Hsome; apply Hk;
            by apply (inv_tree _ HI [ctrBkt; i; b] k)
        end. }
    split; [done|]. rewrite removeContainer_run in Hr by done. by simplify_eq.
  - intros [HG ->]. destruct u. by apply removeContainer_run.
Qed.

(** ** Consistency

    Removing a set [X] of containers that nothing outside of [X] depends on. *)

Section drop_ctrs.
Context (db db' : Db) (X : string → Prop).
Hypothesis Hinv : Inv db.
Hypothesis D_tree : Tree db'.
Hypothesis D_shape : Shape db'.
Hypothesis D_flat : ∀ q, length q = 1 ∨ head q ∈ [Some allPodsBkt; Some allVolsBkt; Some execBkt; Some volBkt] →
  db' !! q = db !! q.
Hypothesis D_ctr : ∀ j, is_ctr db' j ↔ ¬ X j ∧ is_ctr db j.
Hypothesis D_pod : ∀ p, is_pod db' p ↔ is_pod db p.
Hypothesis D_id : ∀ j m, id_name db' j m ↔ ¬ X j ∧ id_name db j m.
Hypothesis D_name : ∀ m j, name_id db' m j ↔ ¬ X j ∧ name_id db m j.
Hypothesis D_all : ∀ j e, db' !! [allCtrsBkt; j] = Some e ↔ ¬ X j ∧ db !! [allCtrsBkt; j] = Some e.
Hypothesis D_key : ∀ j k, ¬ X j → db' !! [ctrBkt; j; k] = db !! [ctrBkt; j; k].
Hypothesis D_dep : ∀ a b e, db' !! [ctrBkt; a; dependenciesBkt; b] = Some e ↔
  ¬ X a ∧ ¬ X b ∧ db !! [ctrBkt; a; dependenciesBkt; b] = Some e.
Hypothesis D_exec : ∀ c s e, db' !! [ctrBkt; c; execBkt; s] = Some e → db !! [ctrBkt; c; execBkt; s] = Some e.
Hypothesis D_bkt : ∀ p, db' !! [podBkt; p; containersBkt] = db !! [podBkt; p; containersBkt].
Hypothesis D_member : ∀ p c e, db' !! [podBkt; p; containersBkt; c] = Some e ↔
  ¬ X c ∧ db !! [podBkt; p; containersBkt; c] = Some e.
Hypothesis X_ctr : ∀ a, X a → is_ctr db a.
Hypothesis X_users : ∀ a b e, X a → db !! [ctrBkt; a; dependenciesBkt; b] = Some e → X b.

Lemma drop_stored j c : ¬ X j → stored_config db' j c ↔ stored_config db j c.
Proof. intros Hj. unfold stored_config. by rewrite D_key. Qed.
Lemma drop_is_vol v : is_vol db' v ↔ is_vol db v.
Proof. unfold is_vol. rewrite D_flat; [done|]. right. by_dec. Qed.

Lemma drop_registry : RegistryInv db'.
Proof.
  destruct (inv_registry db Hinv) as [R1 R2 R3 R4 R5 R6 R7]. constructor.
  - intros j m. rewrite D_id, D_name, R1. done.
  - intros j m. rewrite D_id, D_ctr, D_all, R2. tauto.
  - intros j m. rewrite D_id, D_pod, D_flat, R3 by (right; by_dec).
    assert (X j → is_pod db j → False) by (intros ?%X_ctr; by apply R7). tauto.
  - intros j m. rewrite D_id, D_ctr, D_pod. intros [? [?|?]%R4]; tauto.
  - intros j. rewrite D_ctr. setoid_rewrite D_id. intros [? [m ?]%R5]. eauto.
  - intros j. rewrite D_pod. setoid_rewrite D_id. intros Hp.
    destruct (R6 j Hp) as [m Hm]. exists m. split; [|done]. intros ?%X_ctr. by eapply R7.
  - intros j. rewrite D_ctr, D_pod. intros [_ ?]. by apply R7.
Qed.

Lemma drop_ctrs : CtrInv db'.
Proof.
  destruct (inv_ctrs db Hinv) as [C1 C2 C3].
  constructor; intros j [HX Hj]%D_ctr; rewrite D_key by done; [by apply C1| |by apply C3].
  destruct (C2 j Hj) as (c & ? & ? & ? & ?). exists c. rewrite drop_stored, D_id by done. auto.
Qed.

Lemma drop_deps : DepInv db'.
Proof.
  destruct (inv_dependencies db Hinv) as [R1 R2]. constructor.
  - intros a b c [HX Hb]%D_ctr Hc Ha. apply drop_stored in Hc; [|done].
    destruct (R1 a b c Hb Hc Ha) as (Hac & [m Hm] & Hp).
    assert (¬ X a) by (intros HXa; by eapply HX, X_users).
    rewrite D_ctr, !D_key by done. split; [done|]. split; [|done].
    exists m. by apply D_dep.
  - intros a b e (HXa & HXb & He)%D_dep. apply R2 in He as (Hb & c & Hc & Ha).
    rewrite D_ctr. split; [done|]. exists c. by rewrite drop_stored.
Qed.

Lemma drop_pods : PodInv db'.
Proof.
  destruct (inv_pods db Hinv) as [R1 R2 R3]. constructor.
  - intros p. rewrite D_pod, D_bkt. apply R1.
  - intros p c m. rewrite D_member, D_pod, D_ctr, D_id, R2.
    split; [intros (HX & ? & ? & ? & ?); by rewrite D_key|].
    intros (? & (HX & ?) & Hk & ? & ?). by rewrite D_key in Hk.
  - intros c p [HX Hc]%D_ctr. rewrite D_key, D_pod by done. by apply R3.
Qed.

Lemma drop_inv : Inv db'.
Proof.
  constructor; [done|done| |apply drop_registry|apply drop_ctrs|apply drop_deps|apply drop_pods|..].
  - intros b Hb. rewrite D_flat by (by left). by apply (inv_schema db Hinv).
  - destruct (inv_vols db Hinv) as [R1 R2 R3]. constructor.
    + intros v m. rewrite drop_is_vol, D_flat by (right; by_dec). apply R1.
    + intros v. rewrite drop_is_vol, D_flat by (right; by_dec). apply R2.
    + intros c c' v [HX Hc]%D_ctr Hs. rewrite drop_is_vol, D_flat by (right; by_dec).
      apply drop_stored in Hs; [|done]. by eapply R3.
  - constructor. intros c s e He%D_exec. rewrite D_flat by (right; by_dec).
    by apply (inv_exec db (inv_sessions db Hinv)).
Qed.

End drop_ctrs.

(** The caller's container agrees with the stored one. *)
Definition coherent (db : Db) (ctr : Define.Container) : Prop :=
  ∃ cfg, stored_config db (ctr_ID ctr) cfg ∧ cc_Name cfg = ctr_Name ctr ∧
    config_deps cfg = config_deps (ctr_config ctr) ∧ cc_Pod cfg = cc_Pod (ctr_config ctr).

Lemma ctr_paths_flat i n deps pod q :
  length q = 1 ∨ head q ∈ [Some allPodsBkt; Some allVolsBkt; Some execBkt; Some volBkt] →
  ctr_paths i n deps pod q = false.
Proof.
  destruct q as [|b [|k rest]]; [done..|]. intros [?|Hb]; [done|]. cbn [head] in Hb.
  rewrite !elem_of_cons, elem_of_nil in Hb. destruct Hb as [[=->]|[[=->]|[[=->]|[[=->]|[]]]]];
    unfold ctr_paths; rewrite bool_decide_eq_false_2 by (by intros [Hq _]); simpl;
    repeat case_match; try done; apply bool_decide_eq_false_2;
    rewrite ?elem_of_cons, ?elem_of_nil; naive_solver (try discriminate).
Qed.

(** The only buckets among them are the container's own. *)
Lemma ctr_paths_bkt i n deps pod db q :
  Shape db → db !! q = Some Bkt → ctr_paths i n deps pod q = true → ∃ rest, q = ctrBkt :: i :: rest.
Proof.
  intros HS Hq. destruct q as [|b [|k rest]]; [done..|]. unfold ctr_paths.
  rewrite orb_true_iff, bool_decide_eq_true. intros [[-> ->]|Hr]; [by eexists|]. exfalso.
  apply HS in Hq. destruct rest as [|x [|y []]]; try done; apply bool_decide_eq_true in Hr.
  - rewrite !elem_of_cons, elem_of_nil in Hr.
    destruct Hr as [[[->|[->|[]]] _]|[-> _]]; vm_compute in Hq; done.
  - destruct Hr as (_ & [(-> & -> & _)|(-> & -> & _)]); vm_compute in Hq; done.
Qed.

Ltac paths_tac :=
  rewrite ?lookup_erase_Some, <- ?not_true_iff_false; unfold ctr_paths; cbn beta iota;
  rewrite ?orb_true_iff, ?bool_decide_eq_true, ?elem_of_cons, ?elem_of_nil;
  naive_solver (try discriminate).

Section removed.
Context (ctr : Define.Container) (pod : option Define.Pod) (db : Db).
Hypothesis Hinv : Inv db.
Hypothesis Hco : coherent db ctr.
Hypothesis Hpod : cc_Pod (ctr_config ctr) = default "" (pod_ID <$> pod).
Hypothesis Hg : RemoveGuards (ctr_ID ctr) (pod_ID <$> pod) db.
Local Abbreviation i := (ctr_ID ctr).
Local Abbreviation n := (ctr_Name ctr).
Local Abbreviation db' := (removed ctr pod db).

Lemma removed_id_name : id_name db i n.
Proof.
  destruct Hco as (c & Hc & Hn & _). destruct (inv_ctr_cfg db (inv_ctrs db Hinv) i) as (c' & Hc' & _ & Hi & _);
    [apply Hg|]. assert (c' = c) as -> by (by eapply stored_config_fun). by rewrite <- Hn.
Qed.

Lemma removed_dep_in a e : db !! [ctrBkt; a; dependenciesBkt; i] = Some e → a ∈ Dependencies ctr.
Proof.
  intros (_ & c & Hc & Ha)%(inv_dep_listed db (inv_dependencies db Hinv)).
  destruct Hco as (c' & Hc' & _ & Hd & _). apply elem_of_Dependencies. rewrite <- Hd.
  by rewrite (stored_config_fun db i c' c).
Qed.

Lemma removed_podkey p : db !! [ctrBkt; i; podIDKey] = Some (Val p) → pod_ID <$> pod = Some p.
Proof.
  destruct Hco as (c & Hc & _ & _ & Hp). destruct (inv_ctr_cfg db (inv_ctrs db Hinv) i) as (c' & Hc' & _ & _ & ->);
    [apply Hg|]. rewrite (stored_config_fun db i c' c), Hp, Hpod by done.
  destruct pod as [q|]; simpl; [case_decide; naive_solver|done].
Qed.

Lemma removed_inv : Inv db'.
Proof.
  assert (HN := removed_id_name). assert (HD := removed_dep_in). assert (HP := removed_podkey).
  apply (drop_inv db db' (λ j, j = i)); unfold removed.
  - done.
  - apply tree_erase; [|apply Hinv]. intros b k Hb HPb.
    destruct (ctr_paths_bkt _ _ _ _ _ _ (inv_shape db Hinv) Hb HPb) as [rest ->]. cbn [app].
    unfold ctr_paths. by rewrite bool_decide_eq_true_2.
  - apply shape_erase, Hinv.
  - intros q Hq. rewrite lookup_erase, ctr_paths_flat by done. done.
  - intros j. unfold is_ctr. paths_tac.
  - intros p. unfold is_pod. paths_tac.
  - intros j m. unfold id_name. paths_tac.
  - intros m j. unfold name_id. assert (name_id db n i) by (by apply (inv_id_name db (inv_registry db Hinv))).
    rewrite lookup_erase_Some, <- not_true_iff_false. unfold ctr_paths.
    rewrite orb_true_iff, !bool_decide_eq_true, !elem_of_cons, elem_of_nil.
    split; [intros [Hm Hj]|intros [Hj Hm]].
    + split; [|done]. intros ->. apply Hm. right. right. split; [done|].
      eapply id_name_fun; [by apply (inv_id_name db (inv_registry db Hinv))|done].
    + split; [|done]. unfold name_id in *. naive_solver (try discriminate).
  - intros j e. paths_tac.
  - intros j k Hj. rewrite lookup_erase. unfold ctr_paths. rewrite bool_decide_eq_false_2 by tauto. done.
  - intros a b e. paths_tac.
  - intros c s e. rewrite lookup_erase_Some. tauto.
  - intros p. by rewrite lookup_erase.
  - intros p c e. rewrite lookup_erase_Some, <- not_true_iff_false. unfold ctr_paths.
    rewrite orb_true_iff, !bool_decide_eq_true. split; [intros [Hm He]|naive_solver].
    split; [|done]. intros ->. apply Hm. right. split; [done|]. right. split_and!; [done|done|].
    destruct e as [m|]; [|exfalso; revert He; by apply shape_ne; [apply Hinv|]].
    apply (inv_member db (inv_pods db Hinv)) in He as (_ & _ & Hk & _). by apply HP.
  - intros a ->. apply Hg.
  - intros a b e -> He. by rewrite (rg_users _ _ _ Hg) in He.
Qed.
End removed.

End remove.
