(* ===== verification/BoltPods.v ===== *)
(** * BoltPods: adding and removing pods

    When [AddPod], [RemovePod] and [RemovePodContainers] succeed, what they
    leave, and that they keep the database consistent. *)

From S2P Require Import Prelude Define Bolt BoltTx Strconv BoltInternal BoltState BoltInv BoltSafe.
From S2P Require Import BoltAdd BoltRemove.

Section pods.
Context `{Runtime}.

(** ** AddPod *)

Definition pod_added (i n cfgJ stJ : string) (db : Db) : Db :=
  <[[allPodsBkt; i] := Val n]> (<[[nameRegistryBkt; n] := Val i]> (<[[idRegistryBkt; i] := Val n]>
  (<[[podBkt; i; stateKey] := Val stJ]> (<[[podBkt; i; configKey] := Val cfgJ]>
  (<[[podBkt; i; containersBkt] := Bkt]> (<[[podBkt; i] := Bkt]> db)))))).

Record AddPodGuards (i n cfgJ stJ : string) (db : Db) : Prop := {
  apg_id : db !! [idRegistryBkt; i] = None;
  apg_name : db !! [nameRegistryBkt; n] = None;
  apg_key_id : key_ok i = true;
  apg_key_name : key_ok n = true;
  apg_val_id : value_ok i = true;
  apg_val_name : value_ok n = true;
  apg_cfg : value_ok cfgJ = true;
  apg_st : value_ok stJ = true }.

Lemma fresh_pod db i : Inv db → db !! [idRegistryBkt; i] = None → ¬ is_pod db i.
Proof.
  intros HI Hi Hc. destruct (inv_pod_reg db (inv_registry db HI) i Hc) as [n Hn].
  unfold id_name in Hn. congruence.
Qed.

Lemma fresh_pod_sub db i x rest : Inv db → ¬ is_pod db i → db !! (podBkt :: i :: x :: rest) = None.
Proof.
  intros HI Hc. destruct (db !! _) as [e|] eqn:He; [|done].
  destruct Hc. eapply sub_pod; [apply (inv_tree db HI)|done].
Qed.

Lemma key_ok_ne k : key_ok k = true → k ≠ "".
Proof. by intros Hk ->. Qed.

Lemma AddPod_tx_Ok i n cfgJ stJ w u w' :
  Inv (w_db w) →
  AddPod_tx i n cfgJ stJ w = (Ok u, w') ↔
  AddPodGuards i n cfgJ stJ (w_db w) ∧ w' = set_db (pod_added i n cfgJ stJ (w_db w)) w.
Proof.
  intros HI. assert (HS := inv_shape _ HI). unfold AddPod_tx. split.
  - intros Hr. tx_inv.
    repeat match goal with Hb : bget _ [?b] _ = None |- _ =>
      apply shape_flat in Hb; [|done|first [by left|by right; left]] end.
    split; [|done]. by constructor.
  - intros [[Hi Hn Hki Hkn Hvi Hvn Hc Hst] ->]. schema_facts HI. destruct u.
    assert (Hp := fresh_pod _ _ HI Hi). assert (Hsub := λ x rest, fresh_pod_sub _ _ x rest HI Hp).
    assert (i ≠ "") by (by apply key_ok_ne).
    assert (w_db w !! [podBkt; i] = None) by (apply shape_nested; [done|by right; left|done]).
    do 5 tx_go. unfold bget at 1. cbn [app]. rewrite Hi. do 2 tx_go. unfold bget at 1. cbn [app].
    rewrite Hn. do 2 tx_go.
    erewrite st_bind_run by (apply CreateBucket_Ok; split_and!; [done|cbn; lk; apply Hsub|done|done]); tx_cbn.
    erewrite st_bind_run by (apply (Put_Ok _ _ _ _ ()); split_and!; [done|done|cbn; lk; by rewrite Hsub|done]); tx_cbn.
    erewrite st_bind_run by (apply (Put_Ok _ _ _ _ ()); split_and!; [done|done|cbn; lk; by rewrite Hsub|done]); tx_cbn.
    do 2 tx_go. apply Put_Ok. split_and!; [done|done|cbn; lk; by apply shape_ne|].
    rewrite set_db_set_db. cbn [w_db set_db app]. unfold pod_added. reflexivity.
Qed.

Section pod_added.
Context (i n cfgJ stJ : string) (db : Db).
Hypothesis Hinv : Inv db.
Hypothesis Hg : AddPodGuards i n cfgJ stJ db.
Local Abbreviation db' := (pod_added i n cfgJ stJ db).

Lemma pa_fresh : ¬ is_pod db i.
Proof. apply fresh_pod; [done|apply Hg]. Qed.
Lemma pa_not_ctr : ¬ is_ctr db i.
Proof. apply fresh_ctr; [done|apply Hg]. Qed.
Lemma pa_sub x rest : db !! (podBkt :: i :: x :: rest) = None.
Proof. apply fresh_pod_sub; [done|apply pa_fresh]. Qed.

(** Entries outside of the new pod's. *)
Lemma lookup_pa q :
  q ≠ [idRegistryBkt; i] → q ≠ [nameRegistryBkt; n] → q ≠ [allPodsBkt; i] →
  (∀ rest, q ≠ podBkt :: i :: rest) → db' !! q = db !! q.
Proof.
  intros H1 H2 H3 H4. unfold pod_added. rewrite !lookup_insert_ne; try done;
    intros Heq; by eapply H4.
Qed.

Lemma pa_ctr q : head q = Some ctrBkt → db' !! q = db !! q.
Proof. intros Hq. apply lookup_pa; intros; intros ->; done. Qed.
Lemma pa_vol q : head q ∈ [Some volBkt; Some allVolsBkt; Some execBkt; Some allCtrsBkt] → db' !! q = db !! q.
Proof.
  rewrite !elem_of_cons, elem_of_nil. intros Hq. apply lookup_pa; intros; intros ->; naive_solver (try discriminate).
Qed.
Lemma pa_is_ctr j : is_ctr db' j ↔ is_ctr db j.
Proof. unfold is_ctr. by rewrite pa_ctr. Qed.
Lemma pa_is_vol j : is_vol db' j ↔ is_vol db j.
Proof. unfold is_vol. by rewrite pa_vol by by_dec. Qed.
Lemma pa_is_pod j : is_pod db' j ↔ j = i ∨ is_pod db j.
Proof.
  unfold is_pod. destruct (decide (j = i)) as [->|]; [unfold pod_added; lk; naive_solver|].
  rewrite lookup_pa; [naive_solver|done..|by intros ? [=]].
Qed.
Lemma pa_id_name j m : id_name db' j m ↔ j = i ∧ m = n ∨ id_name db j m.
Proof.
  assert (Hi := apg_id _ _ _ _ _ Hg). unfold id_name.
  destruct (decide (j = i)) as [->|]; [rewrite Hi; unfold pod_added; lk; naive_solver|].
  rewrite lookup_pa; [naive_solver|by intros [=]|done..].
Qed.
Lemma pa_name_id m j : name_id db' m j ↔ j = i ∧ m = n ∨ name_id db m j.
Proof.
  assert (Hi := apg_name _ _ _ _ _ Hg). unfold name_id.
  destruct (decide (m = n)) as [->|]; [rewrite Hi; unfold pod_added; lk; naive_solver|].
  rewrite lookup_pa; [naive_solver|done|by intros [=]|done..].
Qed.
Lemma pa_all j : db' !! [allPodsBkt; j] = if decide (j = i) then Some (Val n) else db !! [allPodsBkt; j].
Proof.
  case_decide; [subst; unfold pod_added; by lk|]. by apply lookup_pa; try done; intros [=].
Qed.
Lemma pa_bkt j : db' !! [podBkt; j; containersBkt] =
  if decide (j = i) then Some Bkt else db !! [podBkt; j; containersBkt].
Proof.
  case_decide; [subst; unfold pod_added; by lk|]. by apply lookup_pa; try done; intros ? [=].
Qed.
Lemma pa_member j c : db' !! [podBkt; j; containersBkt; c] = db !! [podBkt; j; containersBkt; c].
Proof.
  destruct (decide (j = i)) as [->|]; [unfold pod_added; lk; done|].
  by apply lookup_pa; try done; intros ? [=].
Qed.
Lemma pa_stored j c : stored_config db' j c ↔ stored_config db j c.
Proof. unfold stored_config. by rewrite pa_ctr. Qed.

Lemma pod_added_registry : RegistryInv db'.
Proof.
  destruct (inv_registry db Hinv) as [R1 R2 R3 R4 R5 R6 R7].
  assert (Hi := apg_id _ _ _ _ _ Hg). assert (Hnp := pa_fresh). assert (Hnc := pa_not_ctr).
  assert (Hfree : ∀ m, ¬ id_name db i m) by (unfold id_name; intros m ?; congruence).
  constructor.
  - intros j m. by rewrite pa_id_name, pa_name_id, R1.
  - intros j m. rewrite pa_vol, pa_id_name, pa_is_ctr, R2 by by_dec. naive_solver.
  - intros j m. rewrite pa_all, pa_id_name, pa_is_pod. case_decide; subst.
    + specialize (Hfree m). naive_solver.
    + rewrite R3. naive_solver.
  - intros j m. rewrite pa_id_name, pa_is_ctr, pa_is_pod. intros [[-> _]|[?|?]%R4]; auto.
  - intros j. rewrite pa_is_ctr. setoid_rewrite pa_id_name. intros [m Hm]%R5; eauto.
  - intros j. rewrite pa_is_pod. setoid_rewrite pa_id_name. intros [->|[m Hm]%R6]; eauto.
  - intros j. rewrite pa_is_ctr, pa_is_pod. intros Hj [->|?]; [done|by apply (R7 j)].
Qed.

Lemma pod_added_pods : PodInv db'.
Proof.
  destruct (inv_pods db Hinv) as [R1 R2 R3]. assert (Hnp := pa_fresh). constructor.
  - intros p. rewrite pa_is_pod, pa_bkt. case_decide; subst.
    + intros _. split; [|done]. apply key_ok_ne, Hg.
    + intros [?|?]; [done|by apply R1].
  - intros p c m. rewrite pa_member, pa_is_pod, pa_is_ctr, pa_ctr, pa_id_name, R2 by done.
    assert (Hnc := pa_not_ctr). split; [naive_solver|].
    intros (Hp & Hc & Hk & Hn). assert (is_pod db p) by (by eapply R3). naive_solver.
  - intros c p. rewrite pa_is_ctr, pa_ctr, pa_is_pod by done. eauto.
Qed.

Lemma tree_pod_added : Tree db'.
Proof.
  assert (HT := inv_tree db Hinv). assert (HS := inv_shape db Hinv). assert (Hsub := pa_sub).
  schema_facts Hinv. unfold pod_added.
  tree_ins [allPodsBkt]; [|right; lk; by apply shape_ne].
  tree_ins [nameRegistryBkt]; [|right; lk; by apply shape_ne].
  tree_ins [idRegistryBkt]; [|right; lk; by apply shape_ne].
  tree_ins [podBkt; i]; [|right; lk; by rewrite Hsub].
  tree_ins [podBkt; i]; [|right; lk; by rewrite Hsub].
  tree_ins [podBkt; i]; [|by left].
  tree_ins [podBkt]; [done|by left].
Qed.

Lemma pod_added_inv : Inv db'.
Proof.
  constructor.
  - apply tree_pod_added.
  - unfold pod_added. repeat (apply shape_insert; [done|]). apply Hinv.
  - intros b Hb. rewrite lookup_pa by done. by apply (inv_schema db Hinv).
  - apply pod_added_registry.
  - destruct (inv_ctrs db Hinv) as [C1 C2 C3]. constructor; intros j Hj%pa_is_ctr.
    + rewrite pa_ctr by done. by apply C1.
    + rewrite pa_ctr by done. destruct (C2 j Hj) as (c & ? & ? & ? & ?). exists c.
      rewrite pa_stored, pa_id_name. auto.
    + setoid_rewrite pa_ctr; [|done]. by apply C3.
  - destruct (inv_dependencies db Hinv) as [R1 R2]. constructor; intros a b.
    + intros c. rewrite !pa_is_ctr, pa_stored, !pa_ctr by done. apply R1.
    + intros e. rewrite pa_is_ctr, pa_ctr by done. setoid_rewrite pa_stored. apply R2.
  - apply pod_added_pods.
  - destruct (inv_vols db Hinv) as [R1 R2 R3]. constructor.
    + intros v m. rewrite pa_vol, pa_is_vol by by_dec. apply R1.
    + intros v. rewrite pa_vol, pa_is_vol by by_dec. apply R2.
    + intros c c' v. rewrite pa_is_ctr, pa_stored, pa_is_vol, pa_vol by by_dec. apply R3.
  - constructor. intros c s e. rewrite pa_ctr, pa_vol by (done || by_dec).
    apply (inv_exec db (inv_sessions db Hinv)).
Qed.
End pod_added.

(** ** RemovePod *)

Definition pod_paths (i n : string) (q : path) : bool :=
  match q with
  | b :: k :: rest =>
      bool_decide (b = podBkt ∧ k = i) ||
      bool_decide (rest = [] ∧ (b ∈ [idRegistryBkt; allPodsBkt] ∧ k = i ∨ b = nameRegistryBkt ∧ k = n))
  | _ => false
  end.

Definition no_members (db : Db) (p : string) : Prop := ∀ c, db !! [podBkt; p; containersBkt; c] = None.

Lemma RemovePod_tx_run pod w :
  Inv (w_db w) → is_pod (w_db w) (pod_ID pod) → no_members (w_db w) (pod_ID pod) →
  RemovePod_tx pod w = (Ok (), set_db (erase (pod_paths (pod_ID pod) (pod_Name pod)) (w_db w)) w).
Proof.
  intros HI Hp Hm. schema_facts HI. assert (HS := inv_shape _ HI).
  destruct (inv_pod_name _ (inv_pods _ HI) _ Hp) as [_ Hc].
  unfold RemovePod_tx. do 4 tx_go.
  erewrite st_bind_run; last first.
  { unfold podBucketOf. tx_go. unfold bucket. cbn [app]. by rewrite Hp. }
  tx_go. unfold bucket. cbn [app]. rewrite Hc. erewrite st_bind_run; last first.
  { tx_go. apply (failIf_Ok _ _ _ ()). split; [|done]. apply bool_decide_eq_false. intros Hne.
    by apply Hne, children_nil. }
  do 3 del_go. apply DeleteBucket_Ok. cbn [app w_db set_db]. split; [by lk|].
  rewrite set_db_set_db, drop_subtree_erase, !delete_erase, !erase_erase. f_equal. apply erase_ext.
  intros q _. apply eq_true_iff_eq. rewrite !orb_true_iff, !bool_decide_eq_true, prefix_of_two.
  unfold pod_paths. destruct q as [|b [|k [|x rest]]]; rewrite ?orb_true_iff, ?bool_decide_eq_true;
    rewrite ?elem_of_cons, ?elem_of_nil; naive_solver.
Qed.

Lemma RemovePod_tx_Ok pod w u w' :
  Inv (w_db w) →
  RemovePod_tx pod w = (Ok u, w') ↔
  (is_pod (w_db w) (pod_ID pod) ∧ no_members (w_db w) (pod_ID pod)) ∧
  w' = set_db (erase (pod_paths (pod_ID pod) (pod_Name pod)) (w_db w)) w.
Proof.
  intros HI. split.
  - intros Hr. assert (is_pod (w_db w) (pod_ID pod) ∧ no_members (w_db w) (pod_ID pod)) as [Hp Hm].
    { revert Hr. unfold RemovePod_tx, podBucketOf. intros Hr. tx_inv; (split; [done|]).
      - intros c. match goal with Hn : ¬ _ ≠ [] |- _ => apply dec_stable, children_nil with (k := c) in Hn end.
        done.
      - exfalso. match goal with Hb : bucket _ _ _ = None |- _ => apply bucket_None in Hb; apply Hb end.
        by apply (inv_pod_name _ (inv_pods _ HI)). }
    split; [done|]. rewrite RemovePod_tx_run in Hr by done. by simplify_eq.
  - intros [[Hp Hm] ->]. destruct u. by apply RemovePod_tx_run.
Qed.

Section pod_removed.
Context (i n : string) (db : Db).
Hypothesis Hinv : Inv db.
Hypothesis Hp : is_pod db i.
Hypothesis Hm : no_members db i.
Hypothesis Hn : id_name db i n.
Local Abbreviation db' := (erase (pod_paths i n) db).

Lemma pr_name : name_id db n i.
Proof. by apply (inv_id_name db (inv_registry db Hinv)). Qed.
Lemma pr_not_ctr : ¬ is_ctr db i.
Proof. intros Hc. by apply (inv_disj db (inv_registry db Hinv) i). Qed.

Lemma pr_other q :
  length q = 1 ∨ head q ∈ [Some ctrBkt; Some volBkt; Some allVolsBkt; Some execBkt; Some allCtrsBkt] →
  db' !! q = db !! q.
Proof.
  intros Hq. rewrite lookup_erase. destruct q as [|b [|k rest]]; [done..|].
  destruct Hq as [|Hq]; [done|]. cbn [head] in Hq. rewrite !elem_of_cons, elem_of_nil in Hq.
  destruct (pod_paths i n (b :: k :: rest)) eqn:Hpp; [|done]. exfalso. revert Hpp. unfold pod_paths.
  rewrite orb_true_iff, !bool_decide_eq_true, !elem_of_cons, elem_of_nil.
  destruct Hq as [[=->]|[[=->]|[[=->]|[[=->]|[[=->]|[]]]]]]; naive_solver (try discriminate).
Qed.

Ltac pod_paths_tac :=
  rewrite ?lookup_erase_Some, <- ?not_true_iff_false; unfold pod_paths; cbn beta iota;
  rewrite ?orb_true_iff, ?bool_decide_eq_true, ?elem_of_cons, ?elem_of_nil;
  naive_solver (try discriminate).

Lemma pr_is_ctr j : is_ctr db' j ↔ is_ctr db j.
Proof. unfold is_ctr. by rewrite pr_other by (right; by_dec). Qed.
Lemma pr_is_vol j : is_vol db' j ↔ is_vol db j.
Proof. unfold is_vol. by rewrite pr_other by (right; by_dec). Qed.
Lemma pr_is_pod j : is_pod db' j ↔ j ≠ i ∧ is_pod db j.
Proof. unfold is_pod. pod_paths_tac. Qed.
Lemma pr_id_name j m : id_name db' j m ↔ j ≠ i ∧ id_name db j m.
Proof. unfold id_name. pod_paths_tac. Qed.
Lemma pr_name_id m j : name_id db' m j ↔ j ≠ i ∧ name_id db m j.
Proof.
  assert (Hni := pr_name). unfold name_id in *.
  rewrite lookup_erase_Some, <- not_true_iff_false. unfold pod_paths.
  rewrite orb_true_iff, !bool_decide_eq_true, !elem_of_cons, elem_of_nil.
  split; [intros [Hmn Hj]|naive_solver (try discriminate)]. split; [|done]. intros ->. apply Hmn.
  right. split; [done|]. right. split; [done|].
  eapply id_name_fun; [by apply (inv_id_name db (inv_registry db Hinv))|done].
Qed.
Lemma pr_stored j c : stored_config db' j c ↔ stored_config db j c.
Proof. unfold stored_config. by rewrite pr_other by (right; by_dec). Qed.
Lemma pr_pod_key j k rest : j ≠ i → db' !! (podBkt :: j :: k :: rest) = db !! (podBkt :: j :: k :: rest).
Proof.
  intros Hj. rewrite lookup_erase. unfold pod_paths.
  by rewrite !bool_decide_eq_false_2 by naive_solver.
Qed.

Lemma pod_removed_inv : Inv db'.
Proof.
  assert (Hnc := pr_not_ctr). constructor.
  - apply tree_erase; [|apply Hinv]. intros b k Hb. destruct b as [|x [|y rest]]; [done..|].
    unfold pod_paths. cbn [app]. rewrite !orb_true_iff, !bool_decide_eq_true.
    intros [?|[-> Hq]]; [by left|]. exfalso. apply (inv_shape db Hinv) in Hb.
    rewrite !elem_of_cons, elem_of_nil in Hq.
    destruct Hq as [[[->|[->|[]]] _]|[-> _]]; vm_compute in Hb; done.
  - apply shape_erase, Hinv.
  - intros b Hb. rewrite pr_other by (by left). by apply (inv_schema db Hinv).
  - destruct (inv_registry db Hinv) as [R1 R2 R3 R4 R5 R6 R7]. constructor.
    + intros j m. by rewrite pr_id_name, pr_name_id, R1.
    + intros j m. rewrite pr_other, pr_id_name, pr_is_ctr, R2 by (right; by_dec). naive_solver.
    + intros j m. rewrite pr_id_name, pr_is_pod.
      assert (db' !! [allPodsBkt; j] = Some (Val m) ↔ j ≠ i ∧ db !! [allPodsBkt; j] = Some (Val m)) as ->
        by pod_paths_tac. rewrite R3. tauto.
    + intros j m. rewrite pr_id_name, pr_is_ctr, pr_is_pod. intros [? [?|?]%R4]; auto.
    + intros j Hj. rewrite pr_is_ctr in Hj. setoid_rewrite pr_id_name. destruct (R5 j Hj) as [m ?].
      exists m. split; [by intros ->|done].
    + intros j [? Hj]%pr_is_pod. setoid_rewrite pr_id_name. destruct (R6 j Hj); eauto.
    + intros j. rewrite pr_is_ctr, pr_is_pod. intros ? [_ ?]. by apply (R7 j).
  - destruct (inv_ctrs db Hinv) as [C1 C2 C3]. constructor; intros j Hj%pr_is_ctr.
    + rewrite pr_other by (right; by_dec). by apply C1.
    + rewrite pr_other by (right; by_dec). destruct (C2 j Hj) as (c & ? & ? & ? & ?). exists c.
      rewrite pr_stored, pr_id_name. split_and!; try done. by intros ->.
    + setoid_rewrite pr_other; [|right; by_dec]. by apply C3.
  - destruct (inv_dependencies db Hinv) as [R1 R2]. constructor; intros a b.
    + intros c. rewrite !pr_is_ctr, pr_stored, !pr_other by (right; by_dec). apply R1.
    + intros e. rewrite pr_is_ctr, pr_other by (right; by_dec). setoid_rewrite pr_stored. apply R2.
  - destruct (inv_pods db Hinv) as [R1 R2 R3]. constructor.
    + intros p [? ?]%pr_is_pod. rewrite pr_pod_key by done. by apply R1.
    + intros p c m. rewrite pr_is_pod, pr_is_ctr, (pr_other [ctrBkt; c; podIDKey]), pr_id_name by (right; by_dec).
      destruct (decide (p = i)) as [->|].
      * rewrite lookup_erase_Some, Hm. naive_solver.
      * rewrite pr_pod_key, R2 by done. split; [|tauto]. intros (?&?&?&?). split_and!; try done. by intros ->.
    + intros c p. rewrite pr_is_ctr, pr_other, pr_is_pod by (right; by_dec). intros Hc Hk.
      assert (is_pod db p) by (by eapply R3). split; [|done]. intros ->.
      destruct (inv_ctr_reg db (inv_registry db Hinv) c Hc) as [m Hcm].
      assert (Hmem : db !! [podBkt; i; containersBkt; c] = Some (Val m)) by (by apply R2).
      by rewrite Hm in Hmem.
  - destruct (inv_vols db Hinv) as [R1 R2 R3]. constructor.
    + intros v m. rewrite pr_other, pr_is_vol by (right; by_dec). apply R1.
    + intros v. rewrite pr_other, pr_is_vol by (right; by_dec). apply R2.
    + intros c c' v. rewrite pr_is_ctr, pr_stored, pr_is_vol, pr_other by (right; by_dec). apply R3.
  - constructor. intros c s e. rewrite !pr_other by (right; by_dec).
    apply (inv_exec db (inv_sessions db Hinv)).
Qed.
End pod_removed.

(** ** RemovePodContainers *)

Definition own_paths (l : list (string * entry)) (q : path) : bool :=
  existsb (λ ce, ctr_paths ce.1 (entryBytes ce.2) [] None q) l.

Lemma removePodContainer_run p c e w :
  Shape (w_db w) → is_ctr (w_db w) c →
  (∀ d, is_Some (w_db w !! [ctrBkt; c; dependenciesBkt; d]) →
        is_Some (bget (w_db w) [podBkt; p; containersBkt] d)) →
  removePodContainer [ctrBkt] [allCtrsBkt] [idRegistryBkt] [nameRegistryBkt] [podBkt; p; containersBkt]
    c e w = (Ok (), set_db (erase (ctr_paths c (entryBytes e) [] None) (w_db w)) w).
Proof.
  intros HS Hc Hd. unfold removePodContainer. tx_go. unfold bucket at 1. cbn [app]. rewrite Hc.
  tx_go. tx_go. erewrite st_bind_run; last first.
  { instantiate (2 := ()). instantiate (1 := w). unfold bucket. cbn [app].
    destruct (w_db w !! [ctrBkt; c; dependenciesBkt]) as [[]|]; [done| |done].
    unfold ForEach. tx_go. rewrite (forM_fold (λ _ s, s) (λ s, s = w)); [by rewrite foldl_id| |done].
    intros [d e'] s Hin ->. split; [|done]. apply elem_of_children in Hin. cbn [fst snd app] in *.
    destruct (Hd d) as [v Hv]; [by eexists|]. tx_go. by rewrite Hv. }
  erewrite st_bind_run by (apply orErr_Ok, (DeleteBucket_Ok _ _ _ ()); by split). tx_cbn.
  do 2 del_go. rewrite Delete_shape by (done || cbn; shape_tac). cbn [w_db set_db app].
  rewrite set_db_set_db, drop_subtree_erase, !delete_erase, !erase_erase. do 2 f_equal. apply erase_ext.
  intros q _. apply eq_true_iff_eq. rewrite !orb_true_iff, !bool_decide_eq_true, prefix_of_two.
  unfold ctr_paths. destruct q as [|b [|k [|x [|y []]]]]; rewrite ?orb_true_iff, ?bool_decide_eq_true;
    rewrite ?elem_of_cons, ?elem_of_nil; naive_solver.
Qed.

Lemma removePodContainers_loop p l w :
  Shape (w_db w) → NoDup (l.*1) →
  (∀ c e, (c, e) ∈ l → is_ctr (w_db w) c) →
  (∀ c e d, (c, e) ∈ l → is_Some (w_db w !! [ctrBkt; c; dependenciesBkt; d]) →
        is_Some (bget (w_db w) [podBkt; p; containersBkt] d)) →
  forM_ l (λ kv, removePodContainer [ctrBkt] [allCtrsBkt] [idRegistryBkt] [nameRegistryBkt]
    [podBkt; p; containersBkt] kv.1 kv.2) w = (Ok (), set_db (erase (own_paths l) (w_db w)) w).
Proof.
  revert w. induction l as [|[c e] l IH]; intros w HS Hnd Hc Hd; simpl.
  { unfold mret, st_ret, own_paths. simpl. by rewrite erase_none, set_db_id. }
  apply NoDup_cons in Hnd as [Hnin Hnd].
  erewrite st_bind_run by (apply removePodContainer_run; [done|by eapply Hc; left|]; intros d; eapply Hd; left).
  rewrite IH; cbn [w_db set_db]; [by rewrite set_db_set_db, erase_erase|shape_tac|done|..].
  - intros c' e' Hin. assert (c' ≠ c) by (intros ->; apply Hnin; by apply (list_elem_of_fmap_2 fst) in Hin).
    unfold is_ctr. rewrite lookup_erase. unfold ctr_paths.
    rewrite bool_decide_eq_false_2 by tauto.
    rewrite bool_decide_eq_false_2 by (rewrite !elem_of_cons, elem_of_nil; naive_solver (try discriminate)).
    eapply Hc. by right.
  - intros c' e' d Hin [x [_ Hx]%lookup_erase_Some]. unfold bget. cbn [app]. rewrite lookup_erase. unfold ctr_paths.
    rewrite !bool_decide_eq_false_2 by naive_solver (try discriminate). cbn [orb].
    eapply Hd; [by right|]. by eexists.
Qed.

(** The members of a pod depend on each other only. *)
Lemma member_users db p c d e e' :
  Inv db → db !! [podBkt; p; containersBkt; c] = Some e → db !! [ctrBkt; c; dependenciesBkt; d] = Some e' →
  ∃ m, db !! [podBkt; p; containersBkt; d] = Some (Val m).
Proof.
  intros HI Hc Hd. destruct e as [m|]; [|exfalso; revert Hc; by apply shape_ne; [apply HI|]].
  apply (inv_member db (inv_pods db HI)) in Hc as (Hp & Hc & Hk & _).
  apply (inv_dep_listed db (inv_dependencies db HI)) in Hd as (Hdc & cfg & Hs & Hin).
  destruct (inv_dep_stored db (inv_dependencies db HI) _ _ _ Hdc Hs Hin) as (_ & _ & Heq).
  destruct (inv_ctr_reg db (inv_registry db HI) d Hdc) as [m' Hm'].
  exists m'. apply (inv_member db (inv_pods db HI)). by rewrite <- Heq.
Qed.

Definition emptied (p : string) (db : Db) : Db :=
  <[[podBkt; p; containersBkt] := Bkt]> (drop_subtree [podBkt; p; containersBkt]
    (erase (own_paths (children [podBkt; p; containersBkt] db)) db)).

Lemma own_paths_other l q :
  length q = 1 ∨ head q ∈ [Some podBkt; Some volBkt; Some allVolsBkt; Some allPodsBkt; Some execBkt] →
  own_paths l q = false.
Proof.
  intros Hq. apply not_true_iff_false. intros ([c e] & _ & Hp)%existsb_exists. revert Hp.
  destruct q as [|b [|k rest]]; [done..|]. destruct Hq as [|Hq]; [done|]. cbn [head] in Hq.
  rewrite !elem_of_cons, elem_of_nil in Hq.
  unfold ctr_paths. rewrite orb_true_iff, bool_decide_eq_true. intros [[-> _]|Hr]; [naive_solver (try discriminate)|].
  destruct rest as [|? [|? []]]; try done; apply bool_decide_eq_true in Hr; cbn [fst snd] in Hr;
    rewrite ?elem_of_cons, ?elem_of_nil in Hr; naive_solver (try discriminate).
Qed.

Lemma RemovePodContainers_tx_run pod w :
  Inv (w_db w) → is_pod (w_db w) (pod_ID pod) →
  RemovePodContainers_tx pod w = (Ok (), set_db (emptied (pod_ID pod) (w_db w)) w).
Proof.
  intros HI Hp. schema_facts HI. assert (HS := inv_shape _ HI).
  destruct (inv_pod_name _ (inv_pods _ HI) _ Hp) as [_ Hc].
  unfold RemovePodContainers_tx. do 5 tx_go.
  erewrite st_bind_run; last first.
  { unfold podBucketOf. tx_go. unfold bucket. cbn [app]. by rewrite Hp. }
  tx_go. unfold bucket. cbn [app]. rewrite Hc. tx_go.
  erewrite st_bind_run; last first.
  { unfold ForEach. tx_go. apply removePodContainers_loop; [done|apply NoDup_children_keys|..].
    - intros c e Hin%elem_of_children. destruct e as [m|]; [|exfalso; revert Hin; by apply shape_ne].
      by apply (inv_member _ (inv_pods _ HI)) in Hin as (_ & ? & _).
    - intros c e d Hin%elem_of_children [e' Hd]. unfold bget.
      destruct (member_users _ _ _ _ _ _ HI Hin Hd) as [m Hm]. cbn [app]. rewrite Hm. by eexists. }
  cbn [w_db set_db].
  assert (He : ∀ q, head q = Some podBkt → erase (own_paths (children [podBkt; pod_ID pod; containersBkt] (w_db w))) (w_db w)
    !! q = w_db w !! q).
  { intros q Hq. rewrite lookup_erase, own_paths_other; [done|]. right. rewrite Hq. by_dec. }
  erewrite st_bind_run by (apply (DeleteBucket_Ok _ _ _ ()); split; [cbn; by rewrite He|done]). tx_cbn.
  erewrite st_bind_run by (apply CreateBucket_Ok; split_and!; [done|cbn; rewrite lookup_drop_subtree; by rewrite decide_True|done|done]).
  by rewrite set_db_set_db.
Qed.

Section emptied.
Context (p : string) (db : Db).
Hypothesis Hinv : Inv db.
Hypothesis Hp : is_pod db p.
Local Abbreviation db' := (emptied p db).
Local Abbreviation X := (λ c, is_Some (db !! [podBkt; p; containersBkt; c])).
Local Abbreviation P := (own_paths (children [podBkt; p; containersBkt] db)).

Lemma em_pod q : head q = Some podBkt →
  db' !! q = if decide (q = [podBkt; p; containersBkt]) then Some Bkt
             else if decide ([podBkt; p; containersBkt] `prefix_of` q) then None else db !! q.
Proof.
  intros Hq. unfold emptied. case_decide as Hd; [subst; by lk|].
  rewrite lookup_insert_ne, lookup_drop_subtree, lookup_erase, own_paths_other by
    (try done; right; rewrite Hq; by_dec). done.
Qed.

Lemma em_other q : head q ≠ Some podBkt → db' !! q = if P q then None else db !! q.
Proof.
  intros Hq. unfold emptied. rewrite lookup_insert_ne by (by intros <-).
  rewrite lookup_drop_subtree, decide_False, lookup_erase; [done|]. by intros [k ->].
Qed.

Lemma em_ctr q j rest : q = ctrBkt :: j :: rest → P q = true ↔ X j.
Proof.
  intros ->. unfold own_paths. rewrite existsb_exists. split.
  - intros ([c e] & Hin%list_elem_of_In%elem_of_children & Hc). cbn [fst snd] in Hc.
    assert (c = j) as ->; [|by eexists]. revert Hc. unfold ctr_paths.
    rewrite orb_true_iff, bool_decide_eq_true. intros [[_ ->]|Hr]; [done|].
    destruct rest as [|? [|? []]]; try done; apply bool_decide_eq_true in Hr;
      rewrite ?elem_of_cons, ?elem_of_nil in Hr; naive_solver (try discriminate).
  - intros [e He]. exists (j, e). split; [by apply list_elem_of_In, elem_of_children|].
    unfold ctr_paths. apply orb_true_iff. left. by apply bool_decide_eq_true.
Qed.

Lemma em_reg b j : b ∈ [idRegistryBkt; allCtrsBkt] → P [b; j] = true ↔ X j.
Proof.
  intros Hb. unfold own_paths. rewrite existsb_exists. split.
  - intros ([c e] & Hin%list_elem_of_In%elem_of_children & Hc). cbn [fst snd] in Hc.
    assert (c = j) as ->; [|by eexists]. revert Hc. unfold ctr_paths.
    rewrite orb_true_iff, !bool_decide_eq_true. rewrite !elem_of_cons, elem_of_nil in Hb |- *.
    naive_solver (try discriminate).
  - intros [e He]. exists (j, e). split; [by apply list_elem_of_In, elem_of_children|].
    unfold ctr_paths. apply orb_true_iff. right. apply bool_decide_eq_true. by left.
Qed.

Lemma em_name m : P [nameRegistryBkt; m] = true ↔ ∃ c, X c ∧ id_name db c m.
Proof.
  unfold own_paths. rewrite existsb_exists. split.
  - intros ([c e] & Hin%list_elem_of_In%elem_of_children & Hc). cbn [fst snd app] in *.
    exists c. split; [by eexists|]. destruct e as [v|]; [|exfalso; revert Hin; by apply shape_ne; [apply Hinv|]].
    apply (inv_member db (inv_pods db Hinv)) in Hin as (_ & _ & _ & Hv).
    assert (v = m) as ->; [|done]. revert Hc. unfold ctr_paths. cbn [entryBytes].
    rewrite orb_true_iff, !bool_decide_eq_true, !elem_of_cons, elem_of_nil. naive_solver (try discriminate).
  - intros (c & [e He] & Hn). exists (c, e). split; [by apply list_elem_of_In, elem_of_children|].
    destruct e as [v|]; [|exfalso; revert He; by apply shape_ne; [apply Hinv|]].
    apply (inv_member db (inv_pods db Hinv)) in He as (_ & _ & _ & Hv).
    rewrite (id_name_fun db c m v) by done.
    unfold ctr_paths. apply orb_true_iff. right. apply bool_decide_eq_true. by right.
Qed.

Lemma em_X c : X c → is_ctr db c.
Proof.
  intros [e He]. destruct e as [v|]; [|exfalso; revert He; by apply shape_ne; [apply Hinv|]].
  by apply (inv_member db (inv_pods db Hinv)) in He as (_ & ? & _).
Qed.

Lemma em_some q e (j : string) (Q : Prop) :
  head q ≠ Some podBkt → (P q = true ↔ Q) → db' !! q = Some e ↔ ¬ Q ∧ db !! q = Some e.
Proof. intros Hq HQ. rewrite em_other by done. destruct (P q); naive_solver. Qed.

Lemma em_dep a b e :
  db' !! [ctrBkt; a; dependenciesBkt; b] = Some e ↔
  ¬ X a ∧ ¬ X b ∧ db !! [ctrBkt; a; dependenciesBkt; b] = Some e.
Proof.
  rewrite (em_some _ e a (X a)) by (done || by eapply em_ctr). split; [|tauto].
  intros [Ha He]. split_and!; [done| |done]. intros [x Hx].
  destruct x as [m|]; [|revert Hx; by apply shape_ne; [apply Hinv|]].
  apply (inv_member db (inv_pods db Hinv)) in Hx as (_ & _ & Hk & _).
  apply (inv_dep_listed db (inv_dependencies db Hinv)) in He as (Hb & cfg & Hs & Hin).
  destruct (inv_dep_stored db (inv_dependencies db Hinv) _ _ _ Hb Hs Hin) as (Hac & _ & Heq).
  destruct (inv_ctr_reg db (inv_registry db Hinv) a Hac) as [m' Hm'].
  apply Ha. exists (Val m'). apply (inv_member db (inv_pods db Hinv)). by rewrite Heq.
Qed.

Lemma em_tree : Tree db'.
Proof.
  unfold emptied. apply (tree_insert [podBkt; p]); [|intros _|by left].
  - apply tree_drop, tree_erase; [|apply Hinv]. intros b k Hb.
    intros ([c e] & Hin & Hpp)%existsb_exists. cbn [fst snd] in Hpp. apply existsb_exists.
    exists (c, e). split; [done|]. cbn [fst snd].
    destruct (ctr_paths_bkt _ _ _ _ _ _ (inv_shape db Hinv) Hb Hpp) as [rest ->].
    cbn [app]. unfold ctr_paths. by rewrite bool_decide_eq_true_2.
  - rewrite lookup_drop_subtree, decide_False by (by intros [? [=]]).
    rewrite lookup_erase, own_paths_other by (right; by_dec). done.
Qed.

Lemma emptied_inv : Inv db'.
Proof.
  apply (drop_inv db db' X); [done|apply em_tree|..].
  - unfold emptied. apply shape_insert; [done|]. apply shape_drop, shape_erase, Hinv.
  - intros q Hq. assert (Hh : head q ≠ Some podBkt ∨ length q = 1).
    { destruct Hq as [|Hq]; [by right|left]. intros Heq. rewrite Heq in Hq. revert Hq. by_dec. }
    destruct Hh as [Hh|Hh].
    + rewrite em_other by done. rewrite own_paths_other; [done|]. destruct Hq as [|Hq]; [by left|right].
      clear Hh. set_solver.
    + destruct q as [|b []]; [done| |done]. destruct (decide (b = podBkt)) as [->|].
      * rewrite em_pod, decide_False, decide_False by (try done; by intros [? [=]]). done.
      * rewrite em_other, own_paths_other by (first [by left|by intros [=]]). done.
  - intros j. apply (em_some [ctrBkt; j] _ j); [done|by eapply em_ctr].
  - intros q. unfold is_pod. rewrite em_pod, decide_False, decide_False by (try done; by intros [? [=]]). done.
  - intros j m. apply (em_some _ _ j); [done|]. apply em_reg. by_dec.
  - intros m j. unfold name_id.
    rewrite (em_some [nameRegistryBkt; m] (Val j) j _ ltac:(done) (em_name m)).
    split; intros [Hm Hj]; (split; [|done]); assert (Hjm := proj2 (inv_id_name db (inv_registry db Hinv) j m) Hj).
    + intros HX. apply Hm. by exists j.
    + intros (c & HX & Hcm). apply Hm.
      by assert (j = c) as -> by (by eapply (name_unique db); [apply Hinv|..]).
  - intros j e. apply (em_some _ _ j); [done|]. apply em_reg. by_dec.
  - intros j k Hj. rewrite em_other by done. destruct (P [ctrBkt; j; k]) eqn:HP; [|done].
    by apply (em_ctr _ j [k]) in HP.
  - apply em_dep.
  - intros c s e. rewrite em_other by done. by destruct (P _).
  - intros q. rewrite em_pod by done. case_decide as Hd; [injection Hd as ->|].
    + symmetry. by apply (inv_pod_name db (inv_pods db Hinv)).
    + rewrite decide_False; [done|]. intros [k [=]]. naive_solver.
  - intros q c e. rewrite em_pod, decide_False by done. case_decide as Hd.
    + destruct Hd as [k [=]]; subst. split; [done|]. intros [Hn He]. by destruct Hn.
    + split; [|by intros []]. intros He. split; [|done]. intros [x Hx].
      assert (Hqp : q ≠ p) by (intros ->; apply Hd; by exists [c]).
      assert (He' := He).
      destruct e as [m|]; [|revert He; by apply shape_ne; [apply Hinv|]].
      destruct x as [m'|]; [|revert Hx; by apply shape_ne; [apply Hinv|]].
      apply (inv_member db (inv_pods db Hinv)) in He as (_ & _ & Hk & _).
      apply (inv_member db (inv_pods db Hinv)) in Hx as (_ & _ & Hk' & _). congruence.
  - apply em_X.
  - intros a b e [x Hx] Hd. destruct (member_users _ _ _ _ _ _ Hinv Hx Hd) as [m Hm]. by eexists.
Qed.
End emptied.

End pods.
