(* ===== verification/BoltVols.v ===== *)
(** * BoltVols: adding and removing volumes

    When [AddVolume] and [RemoveVolume] succeed, what they leave, and that they
    keep the database consistent: no container ever uses a removed volume; and the same
    for exec sessions. *)

From S2P Require Import Prelude Define Bolt BoltTx Strconv BoltInternal BoltState BoltInv BoltSafe BoltAdd BoltPods.

Section vols.
Context `{Runtime}.

(** ** AddVolume *)

Definition put_if (b : bool) (p : path) (v : string) (db : Db) : Db :=
  if b then <[p := Val v]> db else db.

Definition vol_added (v cfgJ : string) (stJ : option string) (sid : string) (db : Db) : Db :=
  <[[allVolsBkt; v] := Val v]> (put_if (bool_decide (sid ≠ "")) [volCtrsBkt; sid] v
    (put_if (bool_decide (is_Some stJ)) [volBkt; v; stateKey] (default "" stJ)
      (<[[volBkt; v; configKey] := Val cfgJ]> (<[[volBkt; v; volDependenciesBkt] := Bkt]>
        (<[[volBkt; v] := Bkt]> db))))).

Record AddVolGuards (v cfgJ : string) (stJ : option string) (sid : string) (db : Db) : Prop := {
  avg_free : db !! [allVolsBkt; v] = None;
  avg_key : key_ok v = true;
  avg_val : value_ok v = true;
  avg_cfg : value_ok cfgJ = true;
  avg_st : ∀ js, stJ = Some js → value_ok js = true;
  avg_sid : sid ≠ "" → key_ok sid = true }.

Lemma fresh_vol db v : Inv db → db !! [allVolsBkt; v] = None → ¬ is_vol db v.
Proof.
  intros HI Hv Hc. assert (Ha : db !! [allVolsBkt; v] = Some (Val v))
    by (by apply (inv_all_vols db (inv_vols db HI))). congruence.
Qed.

Lemma fresh_vol_sub db v x rest : Inv db → ¬ is_vol db v → db !! (volBkt :: v :: x :: rest) = None.
Proof.
  intros HI Hc. destruct (db !! _) as [e|] eqn:He; [|done].
  destruct Hc. eapply sub_vol; [apply (inv_tree db HI)|done].
Qed.

Lemma AddVolume_tx_Ok volume cfgJ stJ w u w' :
  let v := vol_Name volume in let sid := vc_StorageID (vol_config volume) in
  Inv (w_db w) →
  AddVolume_tx volume cfgJ stJ w = (Ok u, w') ↔
  AddVolGuards v cfgJ stJ sid (w_db w) ∧ w' = set_db (vol_added v cfgJ stJ sid (w_db w)) w.
Proof.
  intros v sid HI. assert (HS := inv_shape _ HI). unfold AddVolume_tx, vol_added, put_if. subst v sid. split.
  - intros Hr. tx_inv.
    all: match goal with Hb : ¬ is_Some (bget _ [?b] _) |- _ =>
      apply eq_None_not_Some, shape_flat in Hb; [|done|by_dec] end.
    all: repeat first [ rewrite bool_decide_eq_true_2 by (done || by eexists)
                      | rewrite bool_decide_eq_false_2 by (done || by intros []) ].
    all: split; [|done]; constructor; try done; by intros ? [= <-].
  - intros [[Hf Hk Hv Hc Hst Hsid] ->]. schema_facts HI. destruct u.
    assert (Hp := fresh_vol _ _ HI Hf). assert (Hsub := λ x rest, fresh_vol_sub _ _ x rest HI Hp).
    assert (vol_Name volume ≠ "") by (by apply key_ok_ne).
    assert (w_db w !! [volBkt; vol_Name volume] = None) by (apply shape_nested; [done|by_dec|done]).
    do 4 tx_go.
    erewrite st_bind_run by (apply (failIf_Ok _ _ _ ()); split; [|done]; apply bool_decide_eq_false;
      unfold bget; cbn [app]; rewrite Hf; by intros []).
    tx_go.
    erewrite st_bind_run by (apply CreateBucket_Ok; split_and!; [done|cbn; lk; apply Hsub|done|done]); tx_cbn.
    erewrite st_bind_run by (apply (Put_Ok _ _ _ _ ()); split_and!; [done|done|cbn; lk; by rewrite Hsub|done]); tx_cbn.
    destruct stJ as [js|]; cbn [default].
    1: rewrite (bool_decide_eq_true_2 (is_Some (Some js))) by (by eexists).
    1: erewrite st_bind_run by (apply (Put_Ok _ _ _ _ ()); split_and!; [done|by apply Hst|cbn; lk; by rewrite Hsub|done]); tx_cbn.
    2: rewrite (bool_decide_eq_false_2 (is_Some None)) by (by intros []).
    2: erewrite st_bind_run by reflexivity.
    all: destruct (decide (vc_StorageID (vol_config volume) ≠ "")) as [Hs|Hs];
      [rewrite bool_decide_eq_true_2 by done|rewrite bool_decide_eq_false_2 by done].
    all: first [ erewrite st_bind_run by (apply (Put_Ok _ _ _ _ ()); split_and!;
                   [by apply Hsid|done|cbn; lk; by apply shape_ne|done]); tx_cbn
               | erewrite st_bind_run by reflexivity; tx_cbn ].
    all: apply Put_Ok; split_and!; [done|done|cbn; lk; by apply shape_ne|by rewrite set_db_set_db].
Qed.

Section vol_added.
Context (v cfgJ : string) (stJ : option string) (sid : string) (db : Db).
Hypothesis Hinv : Inv db.
Hypothesis Hg : AddVolGuards v cfgJ stJ sid db.
Local Abbreviation db' := (vol_added v cfgJ stJ sid db).

Lemma lookup_put_if b p x d q : p ≠ q → put_if b p x d !! q = d !! q.
Proof. intros. unfold put_if. destruct b; [by apply lookup_insert_ne|done]. Qed.

Lemma lookup_va q :
  q ≠ [allVolsBkt; v] → (∀ rest, q ≠ volBkt :: v :: rest) → q ≠ [volCtrsBkt; sid] →
  db' !! q = db !! q.
Proof.
  intros H1 H2 H3. unfold vol_added.
  rewrite lookup_insert_ne, !lookup_put_if, !lookup_insert_ne; try done; intros Heq; by eapply H2.
Qed.

Lemma va_is_vol x : is_vol db' x ↔ x = v ∨ is_vol db x.
Proof.
  unfold is_vol. destruct (decide (x = v)) as [->|].
  - unfold vol_added. rewrite lookup_insert_ne, !lookup_put_if by done. lk. naive_solver.
  - rewrite lookup_va by (try done; by intros ? [=]). naive_solver.
Qed.

Lemma va_user x c : db' !! [volBkt; x; volDependenciesBkt; c] = db !! [volBkt; x; volDependenciesBkt; c].
Proof.
  destruct (decide (x = v)) as [->|]; [|apply lookup_va; try done; by intros ? [=]].
  unfold vol_added. rewrite lookup_insert_ne, !lookup_put_if by done. by lk.
Qed.

Lemma va_core q : core q = true → db' !! q = db !! q.
Proof. intros Hq. apply lookup_va; intros; intros ->; revert Hq; try done. by destruct rest as [|? [|? []]]. Qed.

Lemma va_tree : Tree db'.
Proof.
  assert (Hp := fresh_vol _ _ Hinv (avg_free _ _ _ _ _ Hg)).
  assert (Hsub := λ x rest, fresh_vol_sub _ _ x rest Hinv Hp).
  assert (HT := inv_tree db Hinv). assert (HS := inv_shape db Hinv).
  schema_facts Hinv. unfold vol_added.
  assert (Hpre : Tree (<[[volBkt; v; configKey] := Val cfgJ]> (<[[volBkt; v; volDependenciesBkt] := Bkt]>
        (<[[volBkt; v] := Bkt]> db)))).
  { tree_ins [volBkt; v]; [|right; lk; by rewrite Hsub].
    tree_ins [volBkt; v]; [|by left]. tree_ins [volBkt]; [done|by left]. }
  tree_ins [allVolsBkt]; [|right; rewrite !lookup_put_if by done; lk; by apply shape_ne|by rewrite !lookup_put_if by done; lk].
  unfold put_if at 1. destruct (bool_decide (sid ≠ "")).
  1: tree_ins [volCtrsBkt]; [|right; rewrite !lookup_put_if by done; lk; by apply shape_ne|by rewrite !lookup_put_if by done; lk].
  all: unfold put_if; destruct (bool_decide (is_Some stJ)); [|done].
  all: tree_ins [volBkt; v]; [done|right; lk; by rewrite Hsub].
Qed.

Lemma vol_added_inv : Inv db'.
Proof.
  assert (Hf := avg_free _ _ _ _ _ Hg).
  apply (inv_frame_core db); [apply va_core|done|apply va_tree| | | |].
  - unfold vol_added, put_if. repeat case_match; repeat (apply shape_insert; [done|]); apply Hinv.
  - intros i Hi. rewrite lookup_va by done. apply (inv_ctr_state db (inv_ctrs db Hinv)).
    unfold is_ctr in *. by rewrite lookup_va in Hi.
  - destruct (inv_vols db Hinv) as [R1 R2 R3]. constructor.
    + intros x m. rewrite va_is_vol. destruct (decide (x = v)) as [->|].
      * unfold vol_added. lk. naive_solver.
      * rewrite lookup_va, R1 by (try done; by intros [=]). naive_solver.
    + intros x. rewrite va_is_vol. destruct (decide (x = v)) as [->|].
      * intros _. unfold vol_added. rewrite lookup_insert_ne, !lookup_put_if by done. by lk.
      * rewrite lookup_va by (try done; by intros ? [=]). intros [?|?]; [done|by apply R2].
    + intros c c' x. rewrite va_user, va_is_vol. unfold is_ctr, stored_config. rewrite !lookup_va by done.
      intros Hc Hs Hx. destruct (R3 c c' x Hc Hs Hx). auto.
  - constructor. intros c s e. rewrite !lookup_va by done. apply (inv_exec db (inv_sessions db Hinv)).
Qed.
End vol_added.

(** ** RemoveVolume *)

Definition vol_unused (db : Db) (v : string) : Prop :=
  ∀ c, is_ctr db c → db !! [volBkt; v; volDependenciesBkt; c] = None.

Definition vol_paths (v sid : string) (q : path) : bool :=
  match q with
  | b :: k :: rest =>
      bool_decide (b = volBkt ∧ k = v) ||
      bool_decide (rest = [] ∧ (b = allVolsBkt ∧ k = v ∨ b = volCtrsBkt ∧ sid ≠ "" ∧ k = sid))
  | _ => false
  end.

Lemma volumeUsers_nil db v :
  filter (λ id, is_Some (bucket db [ctrBkt] id)) (children [volBkt; v; volDependenciesBkt] db).*1 = [] ↔
  vol_unused db v.
Proof.
  unfold vol_unused. split.
  - intros Hf c Hc. destruct (db !! _) as [e|] eqn:He; [|done].
    assert (Hin : c ∈ filter (λ id, is_Some (bucket db [ctrBkt] id)) (children [volBkt; v; volDependenciesBkt] db).*1).
    { apply list_elem_of_filter. split; [exists [ctrBkt; c]; by apply bucket_Some|].
      apply elem_of_keys. by eexists. }
    rewrite Hf in Hin. by apply not_elem_of_nil in Hin.
  - intros Hu. destruct (filter _ _) as [|c l] eqn:Hf; [done|].
    assert (Hin : c ∈ c :: l) by left. rewrite <- Hf in Hin.
    apply list_elem_of_filter in Hin as [[b [Hb _]%bucket_Some] [e He]%elem_of_keys].
    cbn [app] in *. by rewrite Hu in He.
Qed.

Lemma RemoveVolume_tx_run volume w :
  Inv (w_db w) → is_vol (w_db w) (vol_Name volume) → vol_unused (w_db w) (vol_Name volume) →
  RemoveVolume_tx volume w =
  (Ok (), set_db (erase (vol_paths (vol_Name volume) (vc_StorageID (vol_config volume))) (w_db w)) w).
Proof.
  intros HI Hv Hu. schema_facts HI. assert (HS := inv_shape _ HI).
  assert (Hd := inv_vol_deps _ (inv_vols _ HI) _ Hv).
  unfold RemoveVolume_tx. do 4 tx_go. erewrite st_bind_run; last first.
  { unfold volBucketOf. tx_go. unfold bucket. cbn [app]. by rewrite Hv. }
  tx_go. unfold bucket. cbn [app]. rewrite Hd. erewrite st_bind_run; last first.
  { unfold volumeUsers. tx_go. apply (failIf_Ok _ _ _ ()). split; [|done]. apply bool_decide_eq_false.
    intros Hne. by apply Hne, volumeUsers_nil. }
  del_go. erewrite st_bind_run by (apply (DeleteBucket_Ok _ _ _ ()); split; [cbn; by lk|done]). tx_cbn.
  destruct (decide (vc_StorageID (vol_config volume) ≠ "")) as [Hs|Hs].
  - rewrite Delete_shape by (done || cbn; shape_tac). cbn [app w_db set_db].
    rewrite set_db_set_db, drop_subtree_erase, !delete_erase, !erase_erase. do 2 f_equal. apply erase_ext.
    intros q _. apply eq_true_iff_eq. rewrite !orb_true_iff, !bool_decide_eq_true, prefix_of_two.
    unfold vol_paths. destruct q as [|b [|k [|x rest]]]; rewrite ?orb_true_iff, ?bool_decide_eq_true; naive_solver.
  - unfold mret, st_ret. rewrite drop_subtree_erase, !delete_erase, !erase_erase. do 2 f_equal. apply erase_ext.
    intros q _. apply eq_true_iff_eq. rewrite !orb_true_iff, !bool_decide_eq_true, prefix_of_two.
    unfold vol_paths. destruct q as [|b [|k [|x rest]]]; rewrite ?orb_true_iff, ?bool_decide_eq_true; naive_solver.
Qed.

Lemma RemoveVolume_tx_Ok volume w u w' :
  Inv (w_db w) →
  RemoveVolume_tx volume w = (Ok u, w') ↔
  (is_vol (w_db w) (vol_Name volume) ∧ vol_unused (w_db w) (vol_Name volume)) ∧
  w' = set_db (erase (vol_paths (vol_Name volume) (vc_StorageID (vol_config volume))) (w_db w)) w.
Proof.
  intros HI. split.
  - intros Hr. assert (is_vol (w_db w) (vol_Name volume) ∧ vol_unused (w_db w) (vol_Name volume)) as [Hp Hm].
    { revert Hr. unfold RemoveVolume_tx, volBucketOf, volumeUsers. intros Hr. tx_inv; (split; [done|]).
      all: try (match goal with Hn : ¬ _ ≠ [] |- _ => by apply dec_stable, volumeUsers_nil in Hn end).
      all: exfalso; match goal with Hb : bucket _ _ _ = None |- _ => apply bucket_None in Hb; apply Hb end;
        by apply (inv_vol_deps _ (inv_vols _ HI)). }
    split; [done|]. rewrite RemoveVolume_tx_run in Hr by done. by simplify_eq.
  - intros [[Hp Hm] ->]. destruct u. by apply RemoveVolume_tx_run.
Qed.

Lemma vol_removed_inv v sid db :
  Inv db → vol_unused db v → Inv (erase (vol_paths v sid) db).
Proof.
  intros Hinv Hu. assert (Hother : ∀ q, (∀ rest, q ≠ volBkt :: v :: rest) → q ≠ [allVolsBkt; v] →
    (∀ s, q ≠ [volCtrsBkt; s]) → erase (vol_paths v sid) db !! q = db !! q).
  { intros q H1 H2 H3. rewrite lookup_erase. destruct (vol_paths v sid q) eqn:Hp; [|done]. exfalso.
    destruct q as [|b [|k rest]]; [done..|]. unfold vol_paths in Hp.
    rewrite orb_true_iff, !bool_decide_eq_true in Hp. naive_solver. }
  assert (Hgone : ∀ rest, erase (vol_paths v sid) db !! (volBkt :: v :: rest) = None).
  { intros rest. rewrite lookup_erase. unfold vol_paths. by rewrite bool_decide_eq_true_2. }
  assert (Hvol : ∀ x, is_vol (erase (vol_paths v sid) db) x ↔ x ≠ v ∧ is_vol db x).
  { intros x. unfold is_vol. destruct (decide (x = v)) as [->|].
    - rewrite Hgone. naive_solver.
    - rewrite Hother; [naive_solver|by intros ? [=]|done..]. }
  apply (inv_frame_core db); [|done| | | | |].
  - intros q Hq. apply Hother; intros; intros ->; revert Hq; try done. by destruct rest as [|? [|? []]].
  - apply tree_erase; [|apply Hinv]. intros b k Hb. destruct b as [|x [|y rest]]; [done..|].
    unfold vol_paths. cbn [app]. rewrite !orb_true_iff, !bool_decide_eq_true.
    intros [?|[-> Hq]]; [by left|]. exfalso. apply (inv_shape db Hinv) in Hb.
    destruct Hq as [[-> _]|[-> _]]; vm_compute in Hb; done.
  - apply shape_erase, Hinv.
  - intros i Hi. rewrite Hother by done. apply (inv_ctr_state db (inv_ctrs db Hinv)).
    unfold is_ctr in *. by rewrite Hother in Hi.
  - destruct (inv_vols db Hinv) as [R1 R2 R3]. constructor.
    + intros x m. rewrite Hvol. destruct (decide (x = v)) as [->|].
      * rewrite lookup_erase. unfold vol_paths. rewrite (bool_decide_eq_true_2 (_ ∧ (_ ∨ _))) by auto.
        rewrite orb_true_r. naive_solver.
      * rewrite Hother, R1; [naive_solver|done|by intros [=]|done].
    + intros x [Hx Hv]%Hvol. rewrite Hother; [by apply R2|by intros ? [=]|done..].
    + intros c c' x. unfold is_ctr, stored_config. rewrite Hvol, !(Hother (ctrBkt :: _)) by done.
      intros Hc Hs Hx. destruct (R3 c c' x Hc Hs Hx) as [Hv [e He]].
      assert (x ≠ v) by (intros ->; by rewrite (Hu c Hc) in He).
      split; [done|]. exists e. by rewrite Hother by (try done; by intros ? [=]).
  - constructor. intros c s e. rewrite !Hother by done. apply (inv_exec db (inv_sessions db Hinv)).
Qed.

End vols.

(** ** Exec sessions *)

Section exec.
Context `{Runtime}.

(** Entries below [execBkt] and the exec buckets of containers do not matter to
    the rest of the invariant. *)
Lemma inv_frame_exec db db' :
  Inv db →
  (∀ q, head q ≠ Some execBkt ∨ length q = 1 → (∀ c rest, q ≠ ctrBkt :: c :: execBkt :: rest) → db' !! q = db !! q) →
  Tree db' → Shape db' → ExecInv db' → Inv db'.
Proof.
  intros HI Hf HT HS HE. apply (inv_frame_core db); try done.
  - intros q Hq. apply Hf.
    + destruct q as [|b [|k rest]]; [by left|by right|left]. intros [= ->].
      revert Hq. by destruct rest as [|? [|? []]].
    + intros c rest ->. revert Hq. by destruct rest as [|? []].
  - intros i Hi. rewrite Hf by first [by left|by intros ?? [=]].
    apply (inv_ctr_state db (inv_ctrs db HI)). unfold is_ctr in *. by rewrite Hf in Hi by first [by left|by intros ?? [=]].
  - apply (frame_vols db); [| |apply HI].
    + intros q Hq. apply Hf.
      * destruct q as [|b [|k rest]]; [by left|by right|left]. intros [= ->].
        revert Hq. by destruct rest as [|? [|? []]].
      * intros c rest ->. revert Hq. by destruct rest as [|? []].
    + intros q Hq. apply Hf.
      * destruct q as [|b [|k rest]]; [by left|by right|left]. intros [= ->].
        revert Hq. by destruct rest as [|? [|? []]].
      * intros c rest ->. revert Hq. by destruct rest as [|? []].
Qed.

Definition session_added (c s : string) (db : Db) : Db :=
  <[[ctrBkt; c; execBkt; s] := Val c]> (<[[execBkt; s] := Val c]> (<[[ctrBkt; c; execBkt] := Bkt]> db)).

Lemma session_added_inv c s db :
  Inv db → is_ctr db c → db !! [execBkt; s] = None → Inv (session_added c s db).
Proof.
  intros HI Hc Hs. assert (HS := inv_shape db HI). schema_facts HI.
  destruct (inv_sessions db HI) as [R1]. unfold session_added. apply (inv_frame_exec db); [done| | | |].
  - intros q Hq Hn. rewrite !lookup_insert_ne; [done|..]; intros <-; try by eapply Hn. naive_solver.
  - tree_ins [ctrBkt; c; execBkt]; [|right; lk; by apply shape_ne].
    tree_ins [execBkt]; [|right; lk; by apply shape_ne].
    tree_ins [ctrBkt; c]; [apply HI|by left].
  - repeat (apply shape_insert; [done|]). apply HI.
  - constructor. intros c' s' e. destruct (decide (s' = s)) as [->|].
    + destruct (decide (c' = c)) as [->|]; lk; [naive_solver|]. intros [_ ?]%R1. congruence.
    + lk. apply R1.
Qed.

Lemma AddExecSession_safe ctr session : safe (λ _, True) (AddExecSession ctr session).
Proof.
  unfold AddExecSession. do 2 (apply safe_bind; [auto with libpod|intros ? _]).
  apply safe_withDB, safe_Update. intros w u w' HI _ Hr. unfold ctrBucketOf in Hr. tx_inv.
  apply session_added_inv; [done|done|].
  match goal with Hn : ¬ is_Some _ |- _ => apply eq_None_not_Some, shape_flat in Hn; [| |by_dec] end;
    [by lk_all|shape_tac; apply HI].
Qed.

Definition session_removed (c s : string) (db : Db) : Db :=
  delete [ctrBkt; c; execBkt; s] (delete [execBkt; s] db).

Lemma session_removed_inv c s db :
  Inv db → db !! [execBkt; s] = Some (Val c) → Inv (session_removed c s db).
Proof.
  intros HI Hs. assert (HS := inv_shape db HI). destruct (inv_sessions db HI) as [R1].
  unfold session_removed. apply (inv_frame_exec db); [done| | | |].
  - intros q Hq Hn. rewrite !lookup_delete_ne; [done|..]; intros <-; try by eapply Hn. naive_solver.
  - apply (tree_delete [_; _; _]); [|lk; by apply shape_ne].
    apply (tree_delete [_]); [apply HI|by apply shape_ne].
  - shape_tac.
  - constructor. intros c' s' e. destruct (decide (s' = s)) as [->|].
    + destruct (decide (c' = c)) as [->|]; lk; [done|]. intros [_ ?]%R1. congruence.
    + lk. apply R1.
Qed.

Lemma RemoveExecSession_safe session : safe (λ _, True) (RemoveExecSession session).
Proof.
  unfold RemoveExecSession. apply safe_bind; [auto with libpod|intros ? _].
  apply safe_withDB, safe_Update. intros w u w' HI _ Hr.
  assert (HS := inv_shape _ HI). tx_inv.
  all: match goal with Hn : ¬ _ ≠ _ |- _ => apply dec_stable in Hn; subst end.
  all: assert (HR := session_removed_inv _ _ _ HI ltac:(eassumption)); unfold session_removed in HR.
  1: exact HR.
  all: rewrite delete_id in HR; [done|]; lk; apply eq_None_not_Some; intros Hsome.
  - match goal with Hb : bget _ _ _ = None |- _ => unfold bget in Hb; cbn [app] in Hb; lk_in Hb end.
    destruct (w_db w !! [ctrBkt; es_ContainerId session; execBkt; es_Id session]) as [[]|] eqn:He;
      [done|revert He; by apply shape_ne|by destruct Hsome].
  - match goal with Hb : bucket _ _ _ = None |- _ => rewrite bucket_None in Hb; cbn [app] in Hb; lk_in Hb;
      apply Hb end.
    by apply (inv_tree _ HI [ctrBkt; es_ContainerId session; execBkt] (es_Id session)).
  - match goal with Hb : bucket _ _ _ = None |- _ => rewrite bucket_None in Hb; cbn [app] in Hb; lk_in Hb;
      apply Hb end.
    destruct Hsome as [e He]. by apply (sub_ctr _ _ execBkt [es_Id session] e (inv_tree _ HI)).
Qed.

(** ** Removing all sessions of a container *)

Lemma removeCtrSession_run c s w :
  Inv (w_db w) → w_db w !! [ctrBkt; c; execBkt; s] = Some (Val c) →
  removeCtrSession c [execBkt] [ctrBkt; c; execBkt] s w =
  (Ok (), set_db (session_removed c s (w_db w)) w).
Proof.
  intros HI Hs. assert (HS := inv_shape _ HI).
  destruct (inv_exec _ (inv_sessions _ HI) _ _ _ Hs) as [_ Hr].
  unfold removeCtrSession. del_go. tx_go. unfold bget. cbn [app]. lk. rewrite Hr.
  erewrite st_bind_run by (apply (failIf_Ok _ _ _ ()); split; [apply bool_decide_eq_false; by intros []|done]).
  rewrite Delete_shape by (done || cbn; shape_tac). cbn [app w_db set_db].
  by rewrite set_db_set_db, delete_delete.
Qed.

Definition sessions_removed (c : string) (l : list string) (db : Db) : Db :=
  foldl (λ db s, session_removed c s db) db l.

Lemma removeCtrSessions_run c l w :
  Inv (w_db w) → NoDup l → (∀ s, s ∈ l → w_db w !! [ctrBkt; c; execBkt; s] = Some (Val c)) →
  forM_ l (removeCtrSession c [execBkt] [ctrBkt; c; execBkt]) w =
    (Ok (), set_db (sessions_removed c l (w_db w)) w) ∧ Inv (sessions_removed c l (w_db w)).
Proof.
  revert w. induction l as [|s l IH]; intros w HI Hnd Hl; simpl.
  - split; [by rewrite set_db_id|done].
  - apply NoDup_cons in Hnd as [Hs Hnd].
    erewrite st_bind_run by (apply removeCtrSession_run; [done|]; apply Hl; by left).
    destruct (IH (set_db (session_removed c s (w_db w)) w)) as [IH1 IH2]; [|done| |].
    + cbn. apply session_removed_inv; [done|].
      destruct (inv_exec _ (inv_sessions _ HI) c s (Val c)); [apply Hl; by left|done].
    + intros s' Hs'. cbn. unfold session_removed. assert (s' ≠ s) by (by intros ->). lk. apply Hl. by right.
    + split; [by rewrite IH1|done].
Qed.

Lemma lookup_sessions_removed c l db s :
  sessions_removed c l db !! [ctrBkt; c; execBkt; s] =
  if decide (s ∈ l) then None else db !! [ctrBkt; c; execBkt; s].
Proof.
  unfold sessions_removed. revert db. induction l as [|x l IH]; intros db; cbn [foldl].
  { by rewrite decide_False by apply not_elem_of_nil. }
  rewrite IH. unfold session_removed. destruct (decide (s ∈ l)); [by rewrite decide_True by (by right)|].
  destruct (decide (s = x)) as [->|].
  - rewrite decide_True by left. by lk.
  - rewrite decide_False by (by rewrite elem_of_cons; naive_solver). by lk.
Qed.

Lemma is_ctr_sessions_removed c l db i : is_ctr (sessions_removed c l db) i ↔ is_ctr db i.
Proof.
  unfold sessions_removed. revert db. induction l as [|x l IH]; intros db; [done|]. cbn [foldl].
  rewrite IH. unfold is_ctr, session_removed. by lk.
Qed.

Lemma ctr_session_value db c s e :
  Inv db → db !! [ctrBkt; c; execBkt; s] = Some e → e = Val c.
Proof. intros HI He. by apply (inv_exec db (inv_sessions db HI)) in He as [? _]. Qed.

(** On a consistent database the removal of a container's sessions succeeds, and
    leaves it without sessions. *)
Lemma RemoveContainerExecSessions_tx_run ctr w :
  Inv (w_db w) → is_ctr (w_db w) (ctr_ID ctr) →
  ∃ db', RemoveContainerExecSessions_tx ctr w = (Ok (), set_db db' w) ∧ Inv db' ∧
    (∀ s, db' !! [ctrBkt; ctr_ID ctr; execBkt; s] = None) ∧ is_ctr db' (ctr_ID ctr).
Proof.
  intros HI Hc. schema_facts HI. unfold RemoveContainerExecSessions_tx. do 2 tx_go.
  erewrite st_bind_run; last first.
  { unfold ctrBucketOf. tx_go. unfold bucket. cbn [app]. by rewrite Hc. }
  tx_go. unfold bucket. cbn [app].
  destruct (w_db w !! [ctrBkt; ctr_ID ctr; execBkt]) as [[x|]|] eqn:He.
  1: exfalso; revert He; by apply shape_ne; [apply HI|].
  - tx_go. destruct (removeCtrSessions_run (ctr_ID ctr) (children [ctrBkt; ctr_ID ctr; execBkt] (w_db w)).*1 w)
      as [Hr HI']; [done|apply NoDup_children_keys| |].
    { intros s [e Hs]%elem_of_keys. cbn [app] in Hs.
      by rewrite <- (ctr_session_value _ _ _ _ HI Hs). }
    eexists. split; [exact Hr|]. split; [done|]. split; [|by apply is_ctr_sessions_removed].
    intros s. rewrite lookup_sessions_removed.
    case_decide as Hs; [done|]. apply eq_None_not_Some. intros Hsome. by apply Hs, elem_of_keys.
  - exists (w_db w). rewrite set_db_id. split; [done|]. split; [done|]. split; [|done]. intros s.
    apply eq_None_not_Some. intros Hsome.
    assert (Hb : w_db w !! [ctrBkt; ctr_ID ctr; execBkt] = Some Bkt)
      by (by apply (inv_tree _ HI [ctrBkt; ctr_ID ctr; execBkt] s)).
    congruence.
Qed.

Lemma RemoveContainerExecSessions_safe ctr : safe (λ _, True) (RemoveContainerExecSessions ctr).
Proof.
  unfold RemoveContainerExecSessions. do 2 (apply safe_bind; [auto with libpod|intros ? _]).
  apply safe_withDB, safe_Update. intros w u w' HI _ Hr.
  assert (Hc : is_ctr (w_db w) (ctr_ID ctr)).
  { clear -Hr. unfold RemoveContainerExecSessions_tx, ctrBucketOf in Hr. by tx_inv. }
  destruct (RemoveContainerExecSessions_tx_run ctr w HI Hc) as (db' & Hr' & HI' & _ & _).
  rewrite Hr' in Hr. by simplify_eq.
Qed.

End exec.
