(* ===== verification/BoltRename.v ===== *)
(** * BoltRename: rewriting configurations and renaming containers

    [RewriteContainerConfig] and [SafeRewriteContainerConfig] keep the database
    consistent as long as the new configuration keeps the references of the old
    one: its ID, its pod, its dependencies and its volumes. *)

From S2P Require Import Prelude Define Bolt BoltTx Strconv BoltInternal BoltState BoltInv BoltSafe.
From S2P Require Import BoltAdd BoltRemove.

(** Two configurations with the same references. *)
Definition same_refs (c1 c2 : ContainerConfig) : Prop :=
  cc_ID c1 = cc_ID c2 ∧ cc_Pod c1 = cc_Pod c2 ∧ config_deps c1 = config_deps c2 ∧
  nv_Name <$> cc_NamedVolumes c1 = nv_Name <$> cc_NamedVolumes c2.

#[export] Instance same_refs_equiv : Equivalence same_refs.
Proof.
  split.
  - done.
  - intros ?? (?&?&?&?). by repeat split.
  - intros ??? (?&?&?&?) (?&?&?&?). repeat split; by etrans.
Qed.

#[export] Instance config_deps_proper : Proper (same_refs ==> eq) config_deps.
Proof. by intros ?? (_&_&?&_). Qed.
#[export] Instance cc_Pod_proper : Proper (same_refs ==> eq) cc_Pod.
Proof. by intros ?? (_&?&_&_). Qed.
#[export] Instance cc_ID_proper : Proper (same_refs ==> eq) cc_ID.
Proof. by intros ?? (?&_&_&_). Qed.

Section rename.
Context `{Runtime}.

Definition renamed (i old new pod : string) (db : Db) : Db :=
  let db1 := <[[allCtrsBkt; i] := Val new]> (<[[nameRegistryBkt; new] := Val i]>
    (<[[idRegistryBkt; i] := Val new]> (delete [nameRegistryBkt; old] db))) in
  if decide (pod ≠ "") then <[[podBkt; pod; containersBkt; i] := Val new]> db1 else db1.

(** A database that differs from [db] in the name and the configuration of
    container [i] only. *)
Section rewritten.
Context (db db' : Db) (i new : string) (cfg cfg' : ContainerConfig).
Hypothesis Hinv : Inv db.
Hypothesis Hi : is_ctr db i.
Hypothesis Hcfg : stored_config db i cfg.
Hypothesis Hrefs : same_refs cfg cfg'.
Hypothesis Hname : cc_Name cfg' = new.
Hypothesis W_tree : Tree db'.
Hypothesis W_shape : Shape db'.
Hypothesis W_id : ∀ j m, id_name db' j m ↔ (j = i ∧ m = new) ∨ (j ≠ i ∧ id_name db j m).
Hypothesis W_name : ∀ m j, name_id db' m j ↔ (j = i ∧ m = new) ∨ (j ≠ i ∧ name_id db m j).
Hypothesis W_all : ∀ j m, db' !! [allCtrsBkt; j] = Some (Val m) ↔
  (j = i ∧ m = new) ∨ (j ≠ i ∧ db !! [allCtrsBkt; j] = Some (Val m)).
Hypothesis W_cfg : ∀ c, stored_config db' i c ↔ c = cfg'.
Hypothesis W_member : ∀ p c m, db' !! [podBkt; p; containersBkt; c] = Some (Val m) ↔
  (c = i ∧ m = new ∧ is_Some (db !! [podBkt; p; containersBkt; c])) ∨
  (c ≠ i ∧ db !! [podBkt; p; containersBkt; c] = Some (Val m)).
Hypothesis W_other : ∀ q,
  (∀ b k, q = [b; k] → b ∉ [idRegistryBkt; nameRegistryBkt; allCtrsBkt]) →
  q ≠ [ctrBkt; i; configKey] → (∀ p c, q ≠ [podBkt; p; containersBkt; c]) → db' !! q = db !! q.

Lemma W_two b k : b ∉ [idRegistryBkt; nameRegistryBkt; allCtrsBkt] → db' !! [b; k] = db !! [b; k].
Proof. intros Hb. apply W_other; [by intros ?? [= <- <-]|done..]. Qed.
Lemma W_key j k : k ≠ configKey → db' !! [ctrBkt; j; k] = db !! [ctrBkt; j; k].
Proof. intros Hb. apply W_other; [done|by intros [=]|done]. Qed.
Lemma W_ctr j : is_ctr db' j ↔ is_ctr db j.
Proof. unfold is_ctr. by rewrite W_two by by_dec. Qed.
Lemma W_pod j : is_pod db' j ↔ is_pod db j.
Proof. unfold is_pod. by rewrite W_two by by_dec. Qed.
Lemma W_vol j : is_vol db' j ↔ is_vol db j.
Proof. unfold is_vol. by rewrite W_two by by_dec. Qed.
Lemma W_stored j c : stored_config db' j c → ∃ c0, stored_config db j c0 ∧ same_refs c0 c.
Proof.
  destruct (decide (j = i)) as [->|].
  - intros ->%W_cfg. by exists cfg.
  - unfold stored_config at 1. rewrite W_other; [|done|by intros [=]|done]. intros. by exists c.
Qed.
Lemma W_stored' j c0 : stored_config db j c0 → ∃ c, stored_config db' j c ∧ same_refs c0 c.
Proof.
  destruct (decide (j = i)) as [->|].
  - intros Hc. exists cfg'. split; [by apply W_cfg|]. by rewrite (stored_config_fun db i c0 cfg).
  - intros. exists c0. split; [|done]. unfold stored_config. by rewrite W_other; [|done|by intros [=]|done].
Qed.

Lemma rewritten_registry : RegistryInv db'.
Proof.
  destruct (inv_registry db Hinv) as [R1 R2 R3 R4 R5 R6 R7]. constructor.
  - intros j m. rewrite W_id, W_name, R1. done.
  - intros j m. rewrite W_all, W_id, W_ctr, R2. naive_solver.
  - intros j m. rewrite W_two, W_id, W_pod, R3 by by_dec.
    assert (is_pod db j → j ≠ i) by (intros ? ->; by eapply R7). naive_solver.
  - intros j m. rewrite W_id, W_ctr, W_pod. intros [[-> _]|[_ ?]]; [by left|by eapply R4].
  - intros j. rewrite W_ctr. setoid_rewrite W_id. destruct (decide (j = i)); [eauto|].
    intros [m Hm]%R5. eauto 6.
  - intros j. rewrite W_pod. setoid_rewrite W_id. destruct (decide (j = i)); [eauto|].
    intros [m Hm]%R6. eauto 6.
  - intros j. rewrite W_ctr, W_pod. apply R7.
Qed.

Lemma rewritten_ctrs : CtrInv db'.
Proof.
  destruct (inv_ctrs db Hinv) as [C1 C2 C3]. constructor; intros j Hj%W_ctr; rewrite W_key by done.
  - by apply C1.
  - destruct (C2 j Hj) as (c & Hc & Hid & Hn & Hk). destruct (decide (j = i)) as [->|].
    + exists cfg'. rewrite W_cfg, W_id. assert (c = cfg) as -> by (by eapply stored_config_fun).
      destruct Hrefs as (Hid' & Hpod' & _). rewrite <- Hid', <- Hpod'. split_and!; auto.
    + exists c. rewrite W_id. unfold stored_config.
      rewrite W_other; [split_and!; auto|done|by intros [=]|done].
  - by apply C3.
Qed.

Lemma rewritten_deps : DepInv db'.
Proof.
  destruct (inv_dependencies db Hinv) as [R1 R2]. constructor.
  - intros a b c. rewrite !W_ctr, !W_key, W_other by done. intros Hb (c0 & Hc & Hr)%W_stored.
    rewrite <- Hr. by apply R1.
  - intros a b e. rewrite W_ctr, W_other by done. intros (Hb & c & Hc & Ha)%R2. split; [done|].
    apply W_stored' in Hc as (c' & Hc' & Hr). exists c'. split; [done|]. by rewrite <- Hr.
Qed.

Lemma rewritten_pods : PodInv db'.
Proof.
  destruct (inv_pods db Hinv) as [R1 R2 R3]. constructor.
  - intros p. rewrite W_pod, W_other by done. apply R1.
  - intros p c m. rewrite W_member, W_pod, W_ctr, W_key, W_id by done.
    destruct (decide (c = i)) as [->|]; [|rewrite R2; naive_solver]. split.
    + intros [(_ & -> & [e He])|[? _]]; [|done].
      destruct e as [m'|]; [|exfalso; revert He; by apply shape_ne; [apply Hinv|]].
      apply R2 in He as (? & ? & ? & ?). split_and!; auto.
    + intros (Hp & _ & Hk & [[_ ->]|[? _]]); [|done]. left. split_and!; [done|done|].
      destruct (inv_ctr_reg db (inv_registry db Hinv) i Hi) as [m' Hm'].
      exists (Val m'). by apply R2.
  - intros c p. rewrite W_ctr, W_pod, W_key by done. apply R3.
Qed.

Lemma rewritten_inv : Inv db'.
Proof.
  constructor; [done|done| |apply rewritten_registry|apply rewritten_ctrs|apply rewritten_deps
                |apply rewritten_pods|..].
  - intros b Hb. rewrite W_other by done. by apply (inv_schema db Hinv).
  - destruct (inv_vols db Hinv) as [R1 R2 R3]. constructor.
    + intros v m. rewrite W_two, W_vol by by_dec. apply R1.
    + intros v. rewrite W_vol, W_other by done. apply R2.
    + intros c c' v. rewrite W_ctr, W_vol, W_other by done. intros Hc (c0 & Hs & Hr)%W_stored Hv.
      destruct Hr as (_ & _ & _ & Hr). rewrite <- Hr in Hv. by eapply R3.
  - constructor. intros c s e. rewrite W_other, W_two by (done || by_dec).
    apply (inv_exec db (inv_sessions db Hinv)).
Qed.
End rewritten.

(** ** Rewriting in place *)

Lemma rewrite_inv db i newJ cfg cfg' :
  Inv db → is_ctr db i → stored_config db i cfg → same_refs cfg cfg' → cc_Name cfg' = cc_Name cfg →
  unmarshal newJ = Ok cfg' → Inv (<[[ctrBkt; i; configKey] := Val newJ]> db).
Proof.
  intros HI Hi Hc Hr Hn Hu. assert (HS := inv_shape db HI).
  assert (Hin : id_name db i (cc_Name cfg)).
  { destruct (inv_ctr_cfg db (inv_ctrs db HI) i Hi) as (c & Hc' & _ & ? & _).
    by rewrite (stored_config_fun db i cfg c). }
  assert (R := inv_registry db HI).
  apply (rewritten_inv db _ i (cc_Name cfg) cfg cfg'); try done.
  - tree_ins [ctrBkt; i]; [apply HI|right; by apply shape_ne].
  - by apply shape_insert.
  - intros j m. unfold id_name in *. lk. destruct (decide (j = i)); naive_solver.
  - intros m j. unfold name_id. lk. fold (name_id db m j).
    destruct (decide (j = i)) as [->|]; [|naive_solver]. split.
    + intros Hm%(inv_id_name db R). left. split; [done|]. by eapply id_name_fun.
    + intros [[_ ->]|[? _]]; [|done]. by apply (inv_id_name db R).
  - intros j m. lk. destruct (decide (j = i)) as [->|]; [|naive_solver].
    rewrite (inv_all_ctrs db R). unfold id_name in *. naive_solver.
  - intros c. unfold stored_config. lk. split; [intros (s & [= <-] & Hs); congruence|intros ->; eauto].
  - intros p c m. lk. destruct (decide (c = i)) as [->|]; [|naive_solver].
    rewrite (inv_member db (inv_pods db HI)). split.
    + intros (? & ? & ? & Hm). left. split_and!; [done|by eapply id_name_fun|].
      exists (Val m). by apply (inv_member db (inv_pods db HI)).
    + intros [(_ & -> & [e He])|[? _]]; [|done].
      destruct e as [m'|]; [|exfalso; revert He; by apply shape_ne].
      apply (inv_member db (inv_pods db HI)) in He as (? & ? & ? & _). done.
  - intros q _ Hq _. by apply lookup_insert_ne.
Qed.

Lemma RewriteContainerConfig_safe `{!RuntimeLaws} ctr newCfg :
  safe (λ db, ∃ cfg, stored_config db (ctr_ID ctr) cfg ∧ same_refs cfg newCfg ∧ cc_Name newCfg = cc_Name cfg)
    (RewriteContainerConfig ctr newCfg).
Proof.
  unfold RewriteContainerConfig. do 2 (apply safe_bind; [auto with libpod|intros ? _]).
  apply safe_bind; [auto with libpod|intros newJ (w0 & w1 & [Hj _]%lift_Ok)].
  apply unmarshal_marshal in Hj.
  apply safe_withDB, safe_Update. intros w u w' HI (cfg & Hc & Hr & Hn) Ht. unfold ctrBucketOf in Ht. tx_inv.
  apply (rewrite_inv _ _ _ cfg (json_view newCfg)); [done|done|done|exact Hr|exact Hn|done].
Qed.

(** ** Renaming *)

Section renamed.
Context (db : Db) (i old new pod newJ : string) (cfg cfg' : ContainerConfig).
Hypothesis Hinv : Inv db.
Hypothesis Hi : is_ctr db i.
Hypothesis Hcfg : stored_config db i cfg.
Hypothesis Hrefs : same_refs cfg cfg'.
Hypothesis Hold : cc_Name cfg = old.
Hypothesis Hpod : cc_Pod cfg = pod.
Hypothesis Hname : cc_Name cfg' = new.
Hypothesis Hnew : db !! [nameRegistryBkt; new] = None.
Hypothesis HJ : unmarshal newJ = Ok cfg'.
Local Abbreviation db1 := (renamed i old new pod db).
Local Abbreviation db' := (<[[ctrBkt; i; configKey] := Val newJ]> db1).

Lemma rn_old : id_name db i old.
Proof.
  destruct (inv_ctr_cfg db (inv_ctrs db Hinv) i Hi) as (c & Hc' & _ & ? & _).
  rewrite <- Hold. by rewrite (stored_config_fun db i cfg c).
Qed.

Lemma rn_podkey p : db !! [ctrBkt; i; podIDKey] = Some (Val p) ↔ pod ≠ "" ∧ p = pod.
Proof.
  destruct (inv_ctr_cfg db (inv_ctrs db Hinv) i Hi) as (c & Hc' & _ & _ & ->).
  rewrite (stored_config_fun db i c cfg), Hpod by done. case_decide; naive_solver.
Qed.

Lemma rn_is_pod : pod ≠ "" → is_pod db pod.
Proof. intros Hne. apply (inv_podid db (inv_pods db Hinv) i); [done|]. by apply rn_podkey. Qed.

Lemma lookup_renamed q :
  q ≠ [allCtrsBkt; i] → q ≠ [nameRegistryBkt; new] → q ≠ [idRegistryBkt; i] → q ≠ [nameRegistryBkt; old] →
  q ≠ [podBkt; pod; containersBkt; i] → db1 !! q = db !! q.
Proof.
  intros. unfold renamed. case_decide; rewrite ?lookup_insert_ne, lookup_delete_ne by done; done.
Qed.

Lemma renamed_tree : Tree db1.
Proof.
  assert (HS := inv_shape db Hinv). schema_facts Hinv. unfold renamed.
  assert (HT : Tree (<[[allCtrsBkt; i] := Val new]> (<[[nameRegistryBkt; new] := Val i]>
    (<[[idRegistryBkt; i] := Val new]> (delete [nameRegistryBkt; old] db))))).
  { tree_ins [allCtrsBkt]; [|right; lk; by apply shape_ne].
    tree_ins [nameRegistryBkt]; [|right; lk; apply shape_ne; [shape_tac|done]].
    tree_ins [idRegistryBkt]; [|right; lk; by apply shape_ne].
    apply (tree_delete [_]); [apply Hinv|by apply shape_ne]. }
  case_decide; [|done]. tree_ins [podBkt; pod; containersBkt]; [done|right; lk; by apply shape_ne|].
  by apply (inv_pod_name db (inv_pods db Hinv)), rn_is_pod.
Qed.

Lemma renamed_shape : Shape db1.
Proof. assert (HS := inv_shape db Hinv). unfold renamed. case_decide; shape_tac. Qed.

Lemma renamed_inv : Inv db'.
Proof.
  assert (HS := inv_shape db Hinv). assert (R := inv_registry db Hinv). assert (Ho := rn_old).
  assert (Hk := rn_podkey).
  apply (rewritten_inv db db' i new cfg cfg'); try done.
  - tree_ins [ctrBkt; i]; [apply renamed_tree|right; apply shape_ne; [apply renamed_shape|done]|].
    by rewrite lookup_renamed.
  - apply shape_insert; [done|apply renamed_shape].
  - intros j m. unfold id_name. lk. destruct (decide (j = i)) as [->|].
    + unfold renamed. case_decide; lk; naive_solver.
    + rewrite lookup_renamed by (try done; by intros [=]). naive_solver.
  - intros m j. unfold name_id. lk. destruct (decide (m = new)) as [->|].
    + unfold renamed. rewrite Hnew. case_decide; lk; naive_solver.
    + destruct (decide (m = old)) as [->|].
      * assert (name_id db old i) as Hoi by (by apply (inv_id_name db R)). unfold name_id in Hoi. rewrite Hoi.
        unfold renamed. case_decide; lk; naive_solver.
      * rewrite lookup_renamed by (try done; by intros [=]). fold (name_id db m j).
        rewrite <- (inv_id_name db R). split; [|naive_solver]. intros Hj. right. split; [|done].
        intros ->. by assert (m = old) by (by eapply id_name_fun).
  - intros j m. lk. destruct (decide (j = i)) as [->|].
    + unfold renamed. case_decide; lk; naive_solver.
    + rewrite lookup_renamed by (try done; by intros [=]). naive_solver.
  - intros c. unfold stored_config. lk. split; [intros (s & [= <-] & Hs); congruence|intros ->; eauto].
  - intros p c m. lk. destruct (decide (c = i)) as [->|].
    + unfold renamed. split.
      * intros Hm. left. split; [done|].
        destruct (decide (p = pod)) as [->|]; case_decide as Hne; lk_all.
        -- injection Hm as <-. split; [done|]. exists (Val old).
           apply (inv_member db (inv_pods db Hinv)). split_and!; [by apply rn_is_pod|done|by apply Hk|done].
        -- apply (inv_member db (inv_pods db Hinv)) in Hm as (_ & _ & Hm%Hk & _). naive_solver.
        -- apply (inv_member db (inv_pods db Hinv)) in Hm as (_ & _ & Hm%Hk & _). naive_solver.
        -- apply (inv_member db (inv_pods db Hinv)) in Hm as (_ & _ & Hm%Hk & _). naive_solver.
      * intros [(_ & -> & [e He])|[? _]]; [|done].
        destruct e as [m'|]; [|exfalso; revert He; by apply shape_ne].
        apply (inv_member db (inv_pods db Hinv)) in He as (_ & _ & [Hne ->]%Hk & _).
        rewrite decide_True by done. by lk.
    + rewrite lookup_renamed by (try done; by intros [=]). naive_solver.
  - intros q H1 H2 H3. rewrite lookup_insert_ne by done.
    apply lookup_renamed; try done; intros ->; by eapply H1; [done|by_dec].
Qed.
End renamed.

(** What renaming does: nothing when the container already has the name, an
    error when another container or pod has it. *)
Lemma renameContainer_Ok ctr old new w u w' :
  Inv (w_db w) →
  renameContainer ctr old new w = (Ok u, w') →
  (w_db w !! [nameRegistryBkt; new] = Some (Val (ctr_ID ctr)) ∧ w' = w) ∨
  (w_db w !! [nameRegistryBkt; new] = None ∧
   w' = set_db (renamed (ctr_ID ctr) old new (cc_Pod (ctr_config ctr)) (w_db w)) w).
Proof.
  intros HI. assert (HS := inv_shape _ HI). unfold renameContainer, renamed. intros Hr. tx_inv.
  all: try (match goal with Hn : ¬ _ ≠ _ |- _ => apply dec_stable in Hn; subst; by left end).
  all: right; (split; [by apply shape_flat; [| by_dec|]|]); done.
Qed.

Definition rewrite_ok (ctr : Define.Container) (old new : string) (newCfg : ContainerConfig) (db : Db) : Prop :=
  ∃ cfg, stored_config db (ctr_ID ctr) cfg ∧ same_refs cfg newCfg ∧
    cc_Pod cfg = cc_Pod (ctr_config ctr) ∧
    cc_Name cfg = (if decide (new = "") then cc_Name newCfg else old).

Lemma SafeRewriteContainerConfig_safe `{!RuntimeLaws} ctr old new newCfg :
  safe (rewrite_ok ctr old new newCfg) (SafeRewriteContainerConfig ctr old new newCfg).
Proof.
  unfold SafeRewriteContainerConfig. do 2 (apply safe_bind; [auto with libpod|intros ? _]).
  apply safe_bind; [auto with libpod|intros ? (w0 & w1 & [Hnn%bool_decide_eq_false _]%failIf_Ok)].
  apply safe_bind; [auto with libpod|intros ? _].
  apply safe_bind; [auto with libpod|intros newJ (w2 & w3 & [Hj _]%lift_Ok)].
  apply unmarshal_marshal in Hj.
  apply safe_withDB, safe_Update. intros w u w' HI (cfg & Hc & Hr & Hp & Hn) Ht.
  unfold SafeRewrite_tx, ctrBucketOf in Ht.
  destruct (decide (new = "")) as [->|Hne].
  - rewrite decide_False in Ht by tauto. tx_inv.
    apply (rewrite_inv _ _ _ cfg (json_view newCfg)); [done|done|done|exact Hr|exact (eq_sym Hn)|done].
  - rewrite decide_True in Ht by done. assert (cc_Name newCfg = new) as Hnew
      by (destruct (decide (cc_Name newCfg = new)); tauto).
    repeat (first [ match goal with Hx : renameContainer _ _ _ _ = _ |- _ =>
      apply renameContainer_Ok in Hx as [[Hx ->]|[Hx ->]]; [| |done] end | tx_step ]; tx_cbn).
    + apply (rewrite_inv _ _ _ cfg (json_view newCfg)); [done|done|done|exact Hr| |done].
      change (cc_Name newCfg = cc_Name cfg). rewrite Hnew.
      destruct (inv_ctr_cfg _ (inv_ctrs _ HI) (ctr_ID ctr)) as (c & Hc' & _ & Hid & _); [done|].
      rewrite (stored_config_fun _ _ cfg c) by done.
      eapply id_name_fun; [|done]. by apply (inv_id_name _ (inv_registry _ HI)).
    + match goal with Hb : renamed _ _ _ _ _ !! [ctrBkt; _] = _ |- _ => rewrite lookup_renamed in Hb by done end.
      apply (renamed_inv _ _ _ _ _ _ cfg (json_view newCfg)); try done; exact Hr.
Qed.

End rename.
