(* ===== verification/BoltRefresh.v ===== *)
(** * BoltRefresh: [Refresh] after a reboot

    [Refresh] resets what does not survive a reboot: the states of containers,
    pods and volumes, exec sessions, network namespaces and exit codes.  It
    keeps everything else, and leaves the database consistent. *)

From S2P Require Import Prelude Define Bolt BoltTx Strconv BoltInternal BoltState BoltInv BoltSafe.
From S2P Require Import BoltAdd BoltVols.

(** All keys of a bucket removed. *)
Definition clear (b : path) (db : Db) : Db := erase (λ q, bool_decide (is_Some (strip b q))) db.

Lemma lookup_clear_in b k db : clear b db !! (b ++ [k]) = None.
Proof.
  unfold clear. rewrite lookup_erase, bool_decide_eq_true_2; [done|]. exists k. by apply strip_Some.
Qed.
Lemma lookup_clear b q db : (∀ k, q ≠ b ++ [k]) → clear b db !! q = db !! q.
Proof.
  intros Hq. unfold clear. rewrite lookup_erase, bool_decide_eq_false_2; [done|].
  intros [k Hk%strip_Some]. by eapply Hq.
Qed.

Section refresh.
Context `{Runtime}.

Lemma deleteAll_run b l w :
  (∀ k, shape_ok (b ++ [k]) Bkt = false) → Shape (w_db w) →
  deleteAll b l w = (Ok (), set_db (erase (λ q, existsb (λ k, bool_decide (q = b ++ [k])) l) (w_db w)) w).
Proof.
  intros Hb. revert w. induction l as [|k l IH]; intros w HS; unfold deleteAll in *; simpl.
  - by rewrite erase_none, set_db_id.
  - erewrite st_bind_run by (by apply Delete_shape). rewrite IH by (cbn; shape_tac). cbn [w_db set_db].
    by rewrite set_db_set_db, delete_erase, erase_erase.
Qed.

Lemma deleteAll_keys b l w :
  l = (children b (w_db w)).*1 → (∀ k, shape_ok (b ++ [k]) Bkt = false) → Shape (w_db w) →
  deleteAll b l w = (Ok (), set_db (clear b (w_db w)) w).
Proof.
  intros -> Hb HS. rewrite deleteAll_run by done. do 2 f_equal. apply erase_ext. intros q Hq.
  apply eq_true_iff_eq. rewrite existsb_exists, bool_decide_eq_true. split.
  - intros (k & _ & Hk%bool_decide_eq_true). exists k. by apply strip_Some.
  - intros [k ->%strip_Some]. exists k. split; [|by apply bool_decide_eq_true].
    by apply list_elem_of_In, elem_of_keys.
Qed.

Lemma shape_clear b db : Shape db → Shape (clear b db).
Proof. apply shape_erase. Qed.
Lemma tree_clear b db :
  (∀ k, shape_ok (b ++ [k]) Bkt = false) → Shape db → Tree db → Tree (clear b db).
Proof.
  intros Hb HS HT. apply tree_erase; [|done]. intros p k Hp [x ->%strip_Some]%bool_decide_eq_true.
  exfalso. revert Hp. by apply shape_ne.
Qed.

Lemma inv_clear b db :
  Inv db → (∀ k, shape_ok (b ++ [k]) Bkt = false) → (∀ k, relevant (b ++ [k]) = false) →
  (∀ i k, b ++ [k] ≠ [ctrBkt; i; stateKey]) → Inv (clear b db).
Proof.
  intros HI Hb Hr Hs. apply (inv_frame db); [|done|apply tree_clear; [done|apply HI..]|apply shape_clear, HI|].
  - intros q Hq. apply lookup_clear. intros k ->. by rewrite Hr in Hq.
  - intros i Hi. rewrite lookup_clear by (intros k Hk; by eapply Hs).
    apply (inv_ctr_state db (inv_ctrs db HI)). unfold is_ctr in *.
    rewrite lookup_clear in Hi; [done|]. intros k Hk. specialize (Hr k). rewrite <- Hk in Hr. by vm_compute in Hr.
Qed.

(** ** Containers *)

Definition ctr_refreshed (c stJ : string) (db : Db) : Db :=
  clear [ctrBkt; c; execBkt] (<[[ctrBkt; c; stateKey] := Val stJ]> (delete [ctrBkt; c; netNSKey] db)).

Definition state_of (db : Db) (c : string) (st : ContainerState) : Prop :=
  ∃ s, db !! [ctrBkt; c; stateKey] = Some (Val s) ∧ unmarshal s = Ok st.

Lemma refreshCtr_Ok c w u w' :
  Inv (w_db w) →
  refreshCtr [ctrBkt; c] w = (Ok u, w') →
  ∃ st stJ, state_of (w_db w) c st ∧ marshal (resetContainerState st) = Ok stJ ∧
    w' = set_db (ctr_refreshed c stJ (w_db w)) w.
Proof.
  intros HI Hr. assert (HS := inv_shape _ HI). assert (HT := inv_tree _ HI). unfold refreshCtr in Hr. tx_inv.
  - rewrite deleteAll_keys in Hr by (try done; cbn; shape_tac). simplify_eq. lk_all.
    eexists _, _. split; [by eexists|]. split; [done|]. done.
  - lk_all. eexists _, _. split; [by eexists|]. split; [done|].
    unfold ctr_refreshed, clear. f_equal. symmetry. rewrite (erase_ext _ (λ _, false)); [apply erase_none|].
    intros q Hq. apply bool_decide_eq_false. intros [k ->%strip_Some]. cbn [app] in Hq.
    revert Hq. lk. intros Hsome. match goal with Hb : bucket _ _ _ = None |- _ => apply bucket_None in Hb; apply Hb end.
    cbn [app]. lk. by apply (HT [ctrBkt; c; execBkt] k).
Qed.

Lemma ctr_refreshed_inv c stJ (st : ContainerState) db :
  Inv db → is_ctr db c → unmarshal stJ = Ok st → Inv (ctr_refreshed c stJ db).
Proof.
  intros HI Hc Hst. unfold ctr_refreshed. assert (HS := inv_shape db HI).
  assert (HI1 : Inv (<[[ctrBkt; c; stateKey] := Val stJ]> (delete [ctrBkt; c; netNSKey] db))).
  { apply (inv_put _ [ctrBkt; c]); [|path_side|by lk|lk; by apply shape_ne|path_side|by eauto].
    apply (inv_delete _ [ctrBkt; c]); [done|path_side|by apply shape_ne|path_side]. }
  assert (HS1 := inv_shape _ HI1). revert HI1 HS1.
  generalize (<[[ctrBkt; c; stateKey]:=Val stJ]> (delete [ctrBkt; c; netNSKey] db)). intros d HId HSd.
  apply (inv_frame_exec d); [done| |by apply tree_clear; [|done|apply HId]|by apply shape_clear|].
  - intros q _ Hq. apply lookup_clear. intros k ->. by eapply Hq.
  - constructor. intros c' s e. destruct (decide (c' = c)) as [->|].
    + by rewrite (lookup_clear_in [ctrBkt; c; execBkt] s).
    + rewrite !lookup_clear by (intros ? [=]; done). apply (inv_exec d (inv_sessions d HId)).
Qed.

Lemma lookup_ctr_refreshed c stJ db q :
  q ≠ [ctrBkt; c; stateKey] → q ≠ [ctrBkt; c; netNSKey] → (∀ s, q ≠ [ctrBkt; c; execBkt; s]) →
  ctr_refreshed c stJ db !! q = db !! q.
Proof.
  intros. unfold ctr_refreshed. rewrite lookup_clear, lookup_insert_ne, lookup_delete_ne by done. done.
Qed.

(** ** The loop over the registered IDs *)

(** What the loop does to the IDs [ids]. *)
Record Refreshed (ids : list string) (db db' : Db) : Prop := {
  rf_inv : Inv db';
  rf_frame : ∀ q, head q ∉ [Some ctrBkt; Some podBkt] ∨ core q = true → db' !! q = db !! q;
  rf_outside : ∀ c rest, c ∉ ids → db' !! (ctrBkt :: c :: rest) = db !! (ctrBkt :: c :: rest);
  rf_state : ∀ c st, c ∈ ids → is_ctr db c → state_of db c st → state_of db' c (resetContainerState st);
  rf_netns : ∀ c, c ∈ ids → is_ctr db c → db' !! [ctrBkt; c; netNSKey] = None;
  rf_exec : ∀ c s, c ∈ ids → is_ctr db c → db' !! [ctrBkt; c; execBkt; s] = None }.

Context `{!RuntimeLaws}.

Lemma refreshCtr_Refreshed c w u w' :
  Inv (w_db w) → is_ctr (w_db w) c → refreshCtr [ctrBkt; c] w = (Ok u, w') →
  Refreshed [c] (w_db w) (w_db w').
Proof.
  intros HI Hc Hr. apply refreshCtr_Ok in Hr as (st & stJ & Hst & HJ & ->); [|done].
  apply unmarshal_marshal in HJ. cbn [w_db set_db]. constructor.
  - by eapply ctr_refreshed_inv.
  - intros q Hq. apply lookup_ctr_refreshed; intros; intros ->; destruct Hq as [Hq|Hq]; try discriminate;
      apply Hq; by_dec.
  - intros c' rest Hc'. assert (c' ≠ c) by set_solver.
    apply lookup_ctr_refreshed; intros; intros [=]; done.
  - intros c' st' ->%list_elem_of_singleton _ (s & Hs & Hu). destruct Hst as (s0 & Hs0 & Hu0).
    assert (st' = st) as -> by congruence. exists stJ. split; [|done].
    unfold ctr_refreshed. rewrite lookup_clear by done. by lk.
  - intros c' ->%list_elem_of_singleton _. unfold ctr_refreshed. rewrite lookup_clear by done. by lk.
  - intros c' s ->%list_elem_of_singleton _. apply (lookup_clear_in [ctrBkt; c; execBkt]).
Qed.

Lemma refreshPod_Refreshed p w u w' :
  Inv (w_db w) → is_pod (w_db w) p → refreshPod [podBkt; p] w = (Ok u, w') →
  Refreshed [p] (w_db w) (w_db w').
Proof.
  intros HI Hp Hr. unfold refreshPod in Hr. tx_inv.
  assert (Hnc : ¬ is_ctr (w_db w) p) by (intros Hc; by apply (inv_disj _ (inv_registry _ HI) p)).
  constructor.
  - apply (inv_put _ [podBkt; p]); path_side.
  - intros q Hq. apply lookup_insert_ne. intros <-. destruct Hq as [Hq|Hq]; [apply Hq; by_dec|done].
  - intros. by lk.
  - by intros c st ->%list_elem_of_singleton.
  - by intros c ->%list_elem_of_singleton.
  - by intros c s ->%list_elem_of_singleton.
Qed.

Lemma Refreshed_cons x ids db db1 db2 :
  x ∉ ids → Refreshed [x] db db1 → Refreshed ids db1 db2 → Refreshed (x :: ids) db db2.
Proof.
  intros Hx [I1 F1 O1 S1 N1 E1] [I2 F2 O2 S2 N2 E2].
  assert (Hctr : ∀ c, is_ctr db1 c ↔ is_ctr db c) by (intros c; unfold is_ctr; by rewrite F1 by (by right)).
  assert (Hst : ∀ c st, c ≠ x → state_of db1 c st ↔ state_of db c st).
  { intros c st Hc. unfold state_of. rewrite O1; [done|]. set_solver. }
  constructor.
  - done.
  - intros q Hq. by rewrite F2, F1.
  - intros c rest Hc. rewrite O2, O1; [done|set_solver..].
  - intros c st Hc Hctr' Hs. destruct (decide (c = x)) as [->|].
    + unfold state_of. rewrite O2 by done. apply S1; [set_solver|done|done].
    + apply S2; [set_solver|by apply Hctr|by apply Hst].
  - intros c Hc Hctr'. destruct (decide (c = x)) as [->|].
    + rewrite O2 by done. apply N1; [set_solver|done].
    + apply N2; [set_solver|by apply Hctr].
  - intros c s Hc Hctr'. destruct (decide (c = x)) as [->|].
    + rewrite O2 by done. apply E1; [set_solver|done].
    + apply E2; [set_solver|by apply Hctr].
Qed.

Lemma Refreshed_nil db : Inv db → Refreshed [] db db.
Proof. intros. by constructor; [| |intros|intros ???%not_elem_of_nil|intros ??%not_elem_of_nil|intros ???%not_elem_of_nil]. Qed.

Lemma refreshIDs_Ok ids acc w r w' :
  Inv (w_db w) → NoDup (ids.*1) →
  (∀ i, i ∈ ids.*1 → is_ctr (w_db w) i ∨ is_pod (w_db w) i) →
  foldM (refreshID [ctrBkt] [podBkt]) acc ids w = (Ok r, w') →
  r = acc ∧ Refreshed (ids.*1) (w_db w) (w_db w') ∧ w' = set_db (w_db w') w.
Proof.
  revert acc w. induction ids as [|[i e] ids IH]; intros acc w HI Hnd Ho; cbn [foldM fmap list_fmap fst].
  { intros Hr. tx_inv. split; [done|]. split; [by apply Refreshed_nil|]. by rewrite set_db_id. }
  apply NoDup_cons in Hnd as [Hi Hnd]. rewrite st_bind_Ok. intros (acc1 & w1 & H1 & H2).
  assert (acc1 = acc ∧ Refreshed [i] (w_db w) (w_db w1) ∧ w1 = set_db (w_db w1) w) as (-> & HR & Hw1).
  { unfold refreshID in H1. tx_inv.
    - split; [done|]. match goal with Hx : refreshCtr _ _ = _ |- _ =>
        assert (Hx' := Hx); apply refreshCtr_Refreshed in Hx; [|done|done];
        apply refreshCtr_Ok in Hx' as (? & ? & _ & _ & ->) end; done.
    - split; [done|]. match goal with Hx : refreshPod _ _ = _ |- _ =>
        assert (Hx' := Hx); apply refreshPod_Refreshed in Hx; [|done|done] end.
      split; [done|]. unfold refreshPod in *. by tx_inv.
    - exfalso. repeat match goal with Hx : bucket _ _ _ = None |- _ => apply bucket_None in Hx; cbn [app] in Hx end.
      by destruct (Ho i ltac:(left)). }
  apply IH in H2 as (-> & HR2 & Hw2); [|apply HR|done|].
  - split; [done|]. split; [by eapply Refreshed_cons|]. rewrite Hw2, Hw1. done.
  - intros j Hj. unfold is_ctr, is_pod. rewrite !(rf_frame _ _ _ HR) by (by right). apply Ho. by right.
Qed.

(** ** Volumes *)

Lemma refreshVolumes_Ok l w u w' :
  Inv (w_db w) → (∀ v, v ∈ l.*1 → is_vol (w_db w) v) →
  forM_ l (λ kv : string * entry, refreshVolume [volBkt] kv.1 kv.2) w = (Ok u, w') →
  Inv (w_db w') ∧ (∀ q, (∀ v, q ≠ [volBkt; v; stateKey]) → w_db w' !! q = w_db w !! q) ∧
  w' = set_db (w_db w') w.
Proof.
  intros HI Hv. apply (forM_ind (λ w1, Inv (w_db w1) ∧
    (∀ q, (∀ v, q ≠ [volBkt; v; stateKey]) → w_db w1 !! q = w_db w !! q) ∧ w1 = set_db (w_db w1) w)).
  - intros [v e] w1 u1 w2 _ (HI1 & Hq & Hw) Hr. unfold refreshVolume in Hr. tx_inv; [|done].
    split; [apply (inv_put _ [volBkt; v]); path_side|]. split; [|by rewrite Hw].
    intros q Hn. rewrite lookup_insert_ne by done. by apply Hq.
  - split; [done|]. split; [done|]. by rewrite set_db_id.
Qed.

(** ** The whole transaction *)

Record RefreshPost (db db' : Db) : Prop := {
  rp_inv : Inv db';
  rp_core : ∀ q, core q = true ∨ vol_path q = true → db' !! q = db !! q;
  rp_state : ∀ c st, is_ctr db c → state_of db c st → state_of db' c (resetContainerState st);
  rp_netns : ∀ c, is_ctr db c → db' !! [ctrBkt; c; netNSKey] = None;
  rp_sessions : ∀ c s, db' !! [ctrBkt; c; execBkt; s] = None ∧ db' !! [execBkt; s] = None;
  rp_exitcodes : ∀ k, db' !! [exitCodeBkt; k] = None ∧ db' !! [exitCodeTimeStampBkt; k] = None }.

Lemma registered_owner db i :
  Inv db → is_Some (db !! [idRegistryBkt; i]) → is_ctr db i ∨ is_pod db i.
Proof.
  intros HI [[n|] Hn].
  - by apply (inv_owner db (inv_registry db HI) i n).
  - exfalso. revert Hn. by apply shape_ne; [apply HI|].
Qed.

Section post.
Context (db db2 db3 db4 : Db).
Hypothesis HI2 : Inv db2.
Hypothesis HI4 : Inv db4.
Hypothesis H2 : ∀ q, head q ∉ [Some exitCodeBkt; Some exitCodeTimeStampBkt] ∨ length q = 1 → db2 !! q = db !! q.
Hypothesis H2x : ∀ k, db2 !! [exitCodeBkt; k] = None ∧ db2 !! [exitCodeTimeStampBkt; k] = None.
Hypothesis H3 : Refreshed (children [idRegistryBkt] db2).*1 db2 db3.
Hypothesis H4 : ∀ q, (∀ v, q ≠ [volBkt; v; stateKey]) → db4 !! q = db3 !! q.

Lemma post_ctr c : is_ctr db c → is_ctr db2 c ∧ c ∈ (children [idRegistryBkt] db2).*1.
Proof.
  intros Hc. assert (Hc2 : is_ctr db2 c) by (unfold is_ctr; rewrite H2; [done|left; by_dec]).
  split; [done|]. apply elem_of_keys. destruct (inv_ctr_reg db2 (inv_registry db2 HI2) c Hc2) as [n Hn].
  by exists (Val n).
Qed.

Lemma post_ctr_key c rest : clear [execBkt] db4 !! (ctrBkt :: c :: rest) = db3 !! (ctrBkt :: c :: rest).
Proof. by rewrite lookup_clear, H4. Qed.

Lemma post_inv_sessions c s : clear [execBkt] db4 !! [ctrBkt; c; execBkt; s] = None.
Proof.
  rewrite post_ctr_key. destruct (db3 !! _) as [e|] eqn:He; [|done].
  assert (Hc3 : is_ctr db3 c) by (by eapply sub_ctr; [apply H3|]).
  assert (Hc2 : is_ctr db2 c) by (unfold is_ctr in *; by rewrite <- (rf_frame _ _ _ H3) by (by right)).
  rewrite <- He. apply (rf_exec _ _ _ H3); [|done].
  apply elem_of_keys. destruct (inv_ctr_reg db2 (inv_registry db2 HI2) c Hc2) as [n Hn]. by exists (Val n).
Qed.

Lemma refresh_post : RefreshPost db (clear [execBkt] db4).
Proof.
  assert (HS4 := inv_shape db4 HI4). constructor.
  - apply (inv_frame_exec db4); [done| |by apply tree_clear; [|done|apply HI4]|by apply shape_clear|].
    + intros q Hq _. apply lookup_clear. intros k ->. destruct Hq as [Hq|Hq]; [apply Hq|]; done.
    + constructor. intros c s e. by rewrite post_inv_sessions.
  - intros q Hq.
    assert (Hne : ∀ b k, q = [b; k] → b ∉ [execBkt; exitCodeBkt; exitCodeTimeStampBkt]).
    { intros b k -> Hin. rewrite !elem_of_cons, elem_of_nil in Hin.
      destruct Hin as [->|[->|[->|[]]]]; by destruct Hq. }
    rewrite lookup_clear by (intros k ->; eapply Hne; [done|by_dec]).
    rewrite H4 by (intros v ->; by destruct Hq). rewrite (rf_frame _ _ _ H3).
    + destruct q as [|b [|k rest]]; [by destruct Hq|apply H2; by right|]. apply H2. left.
      cbn [head]. intros Hin. rewrite !elem_of_cons, elem_of_nil in Hin.
      destruct Hin as [[= ->]|[[= ->]|[]]]; destruct rest as [|? [|? []]]; by destruct Hq.
    + destruct Hq as [Hq|Hq]; [by right|]. left. intros Hin. rewrite !elem_of_cons, elem_of_nil in Hin.
      destruct q as [|b [|k rest]]; [done..|]. cbn [head] in Hin.
      destruct Hin as [[= ->]|[[= ->]|[]]]; by destruct rest as [|? [|? []]].
  - intros c st Hc (s & Hs & Hu). destruct (post_ctr c Hc) as [Hc2 Hin]. unfold state_of. rewrite post_ctr_key.
    apply (rf_state _ _ _ H3); [done|done|]. exists s. rewrite H2 by (left; by_dec). done.
  - intros c Hc. destruct (post_ctr c Hc) as [Hc2 Hin]. rewrite post_ctr_key. by apply (rf_netns _ _ _ H3).
  - intros c s. split; [apply post_inv_sessions|apply (lookup_clear_in [execBkt])].
  - intros k. rewrite !lookup_clear, !H4, !(rf_frame _ _ _ H3) by (try done; left; by_dec). apply H2x.
Qed.
End post.

Lemma Refresh_tx_Ok w u w' :
  Inv (w_db w) → Refresh_tx w = (Ok u, w') → RefreshPost (w_db w) (w_db w').
Proof.
  intros HI. unfold Refresh_tx, Keys, ForEach. intros Hr. tx_inv.
  rename select (deleteAll [exitCodeBkt] _ _ = _) into Hr1.
  rename select (deleteAll [exitCodeTimeStampBkt] _ _ = _) into Hr2.
  rename select (foldM _ _ _ _ = _) into Hr3.
  rename select (forM_ _ (removeDangling _ _) _ = _) into Hr4.
  rename select (forM_ _ _ _ = _) into Hr5.
  rewrite (deleteAll_keys _ _ w) in Hr1 by (try done; apply HI). simplify_eq.
  set (db1 := clear [exitCodeBkt] (w_db w)) in *.
  assert (HI1 : Inv db1) by (apply inv_clear; done).
  rewrite (deleteAll_keys _ _ (set_db db1 w)) in Hr2 by (try done; apply HI1). simplify_eq. cbn [w_db set_db] in *.
  set (db2 := clear [exitCodeTimeStampBkt] db1) in *.
  assert (HI2 : Inv db2) by (apply inv_clear; done).
  assert (Hsame : ∀ q, head q ∉ [Some exitCodeBkt; Some exitCodeTimeStampBkt] ∨ length q = 1 → db2 !! q = w_db w !! q).
  { intros q Hq. unfold db2, db1. rewrite !lookup_clear; [done|..]; intros k ->; destruct Hq as [Hq|Hq]; try done;
      apply Hq; by_dec. }
  apply refreshIDs_Ok in Hr3 as (-> & HR & Hw3); [|done|apply NoDup_children_keys|].
  2:{ intros i Hi%elem_of_keys. by apply registered_owner. }
  cbn [w_db set_db forM_] in *. unfold mret, st_ret in Hr4. simplify_eq.
  apply refreshVolumes_Ok in Hr5 as (HI4 & Hq4 & Hw4); [|apply HR|].
  2:{ intros v [e He]%elem_of_keys. destruct e as [m|]; [|exfalso; revert He; apply shape_ne; [apply HR|done]].
      by apply (inv_all_vols _ (inv_vols _ (rf_inv _ _ _ HR))) in He as [? _]. }
  rewrite (deleteAll_keys _ _ _ eq_refl) in Hr by (try done; apply HI4). simplify_eq. cbn [w_db set_db].
  eapply refresh_post; [exact HI2|done|exact Hsame| |exact HR|exact Hq4].
  intros k. unfold db2. split; [|apply (lookup_clear_in [exitCodeTimeStampBkt])].
  rewrite lookup_clear by done. apply (lookup_clear_in [exitCodeBkt]).
Qed.

End refresh.
