(* ===== verification/BoltOps.v ===== *)
(** * BoltOps: every operation keeps the database consistent

    The operations of the [State] interface as one type of calls; the theorems
    that relate a sequence of calls to the invariant. *)

From S2P Require Import Prelude Define Bolt BoltTx Strconv BoltInternal BoltState BoltInv BoltSafe BoltAdd BoltRemove.
From S2P Require Import BoltPods BoltVols BoltRename BoltRefresh TestRuntime.

Section ops.
Context `{RuntimeLaws}.

(** ** Adding and removing *)

Lemma addContainer_safe ctr pod :
  cc_Pod (ctr_config ctr) = default "" (pod_ID <$> pod) → safe (λ _, True) (addContainer ctr pod).
Proof.
  intros Hpod. unfold addContainer. apply safe_bind; [auto with libpod|intros ? _].
  apply safe_bind; [auto with libpod|intros cfgJ (w0 & w1 & [Hc _]%lift_Ok)].
  apply safe_bind; [auto with libpod|intros stJ (w2 & w3 & [Hs _]%lift_Ok)].
  apply safe_bind; [auto with libpod|intros nets _]. apply unmarshal_marshal in Hc, Hs.
  apply safe_withDB, safe_Update. intros w u w' HI _ [Hg ->]%addContainer_tx_Ok; [|done].
  cbn [w_db set_db]. eapply added_inv; [done|done|exact Hc|exact Hs|done|done|exact Hpod| |done].
  intros d. by rewrite elem_of_Dependencies.
Qed.

Lemma AddContainer_safe ctr : safe (λ _, True) (AddContainer ctr).
Proof.
  unfold AddContainer. do 2 (apply safe_bind; [auto with libpod|intros ? _]).
  apply safe_bind; [auto with libpod|intros ? (w0 & w1 & [Hp%bool_decide_eq_false _]%failIf_Ok)].
  apply addContainer_safe. by apply dec_stable.
Qed.

Lemma AddContainerToPod_safe pod ctr : safe (λ _, True) (AddContainerToPod pod ctr).
Proof.
  unfold AddContainerToPod. do 3 (apply safe_bind; [auto with libpod|intros ? _]).
  apply safe_bind; [auto with libpod|intros ? (w0 & w1 & [Hp%bool_decide_eq_false _]%failIf_Ok)].
  apply addContainer_safe. by apply dec_stable.
Qed.

Lemma removeContainer_safe ctr pod :
  cc_Pod (ctr_config ctr) = default "" (pod_ID <$> pod) →
  safe (λ db, coherent db ctr) (withDB (Update (removeContainer ctr pod))).
Proof.
  intros Hpod. apply safe_withDB, safe_Update. intros w u w' HI Hco [Hg ->]%removeContainer_Ok; [|done].
  by apply removed_inv.
Qed.

Lemma RemoveContainer_safe ctr : safe (λ db, coherent db ctr) (RemoveContainer ctr).
Proof.
  unfold RemoveContainer. apply safe_bind; [auto with libpod|intros ? _].
  apply safe_bind; [auto with libpod|intros ? (w0 & w1 & [Hp%bool_decide_eq_false _]%failIf_Ok)].
  apply removeContainer_safe. by apply dec_stable.
Qed.

Lemma RemoveContainerFromPod_safe pod ctr :
  safe (λ db, coherent db ctr) (RemoveContainerFromPod pod ctr).
Proof.
  unfold RemoveContainerFromPod. do 3 (apply safe_bind; [auto with libpod|intros ? _]).
  apply safe_bind; [auto with libpod|intros ? (w0 & w1 & [Hp%bool_decide_eq_false _]%failIf_Ok)].
  apply removeContainer_safe. by apply dec_stable.
Qed.

Lemma AddPod_safe pod : safe (λ _, True) (AddPod pod).
Proof.
  unfold AddPod. do 4 (apply safe_bind; [auto with libpod|intros ? _]).
  apply safe_withDB, safe_Update. intros w u w' HI _ [Hg ->]%AddPod_tx_Ok; [|done].
  by apply pod_added_inv.
Qed.

Lemma RemovePod_safe pod :
  safe (λ db, id_name db (pod_ID pod) (pod_Name pod)) (RemovePod pod).
Proof.
  unfold RemovePod. do 2 (apply safe_bind; [auto with libpod|intros ? _]).
  apply safe_withDB, safe_Update. intros w u w' HI Hn [[Hp Hm] ->]%RemovePod_tx_Ok; [|done].
  by apply pod_removed_inv.
Qed.

Lemma RemovePodContainers_safe pod : safe (λ _, True) (RemovePodContainers pod).
Proof.
  unfold RemovePodContainers. do 2 (apply safe_bind; [auto with libpod|intros ? _]).
  apply safe_withDB, safe_Update. intros w u w' HI _ Hr.
  assert (Hp : is_pod (w_db w) (pod_ID pod)).
  { clear -Hr. unfold RemovePodContainers_tx, podBucketOf in Hr. tx_inv; done. }
  rewrite RemovePodContainers_tx_run in Hr by done. simplify_eq. by apply emptied_inv.
Qed.

Lemma AddVolume_safe vol : safe (λ _, True) (AddVolume vol).
Proof.
  unfold AddVolume. do 3 (apply safe_bind; [auto with libpod|intros ? _]).
  apply safe_bind; [destruct (vol_state vol); auto with libpod|intros ? _].
  apply safe_withDB, safe_Update. intros w u w' HI _ [Hg ->]%AddVolume_tx_Ok; [|done].
  by apply vol_added_inv.
Qed.

Lemma RemoveVolume_safe vol : safe (λ _, True) (RemoveVolume vol).
Proof.
  unfold RemoveVolume. apply safe_bind; [auto with libpod|intros ? _].
  apply safe_withDB, safe_Update. intros w u w' HI _ [[Hv Hu] ->]%RemoveVolume_tx_Ok; [|done].
  by apply vol_removed_inv.
Qed.

Lemma Refresh_safe : safe (λ _, True) Refresh.
Proof.
  unfold Refresh. apply safe_bind; [auto with libpod|intros ? _].
  apply safe_withDB, safe_Update. intros w u w' HI _ Hr. by apply Refresh_tx_Ok in Hr as [? _ _ _ _ _].
Qed.

(** ** Calls

    The methods of the [State] interface, [libpod/state.go], with their arguments. *)

Inductive call : Type :=
| CClose
| CRefresh
| CGetDBConfig
| CValidateDBConfig
| CGetContainerName (id : string)
| CGetPodName (id : string)
| CContainer (id : string)
| CLookupContainerID (idOrName : string)
| CLookupContainer (idOrName : string)
| CHasContainer (id : string)
| CAddContainer (ctr : Define.Container)
| CRemoveContainer (ctr : Define.Container)
| CUpdateContainer (ctr : Define.Container)
| CSaveContainer (ctr : Define.Container)
| CContainerInUse (ctr : Define.Container)
| CAllContainers (loadState : bool)
| CGetNetworks (ctr : Define.Container)
| CNetworkConnect (ctr : Define.Container) (network : string) (opts : PerNetworkOptions)
| CNetworkModify (ctr : Define.Container) (network : string) (opts : PerNetworkOptions)
| CNetworkDisconnect (ctr : Define.Container) (network : string)
| CGetContainerConfig (id : string)
| CAddContainerExitCode (id : string) (exitCode : Z)
| CGetContainerExitCode (id : string)
| CGetContainerExitCodeTimeStamp (id : string)
| CPruneContainerExitCodes
| CAddExecSession (ctr : Define.Container) (session : ExecSession)
| CGetExecSession (id : string)
| CRemoveExecSession (session : ExecSession)
| CGetContainerExecSessions (ctr : Define.Container)
| CRemoveContainerExecSessions (ctr : Define.Container)
| CContainerIDIsVolume (id : string)
| CRewriteContainerConfig (ctr : Define.Container) (newCfg : ContainerConfig)
| CSafeRewriteContainerConfig (ctr : Define.Container) (oldName newName : string) (newCfg : ContainerConfig)
| CRewritePodConfig (pod : Define.Pod) (newCfg : PodConfig)
| CRewriteVolumeConfig (volume : Define.Volume) (newCfg : VolumeConfig)
| CPod (id : string)
| CLookupPod (idOrName : string)
| CHasPod (id : string)
| CPodHasContainer (pod : Define.Pod) (id : string)
| CPodContainersByID (pod : Define.Pod)
| CPodContainers (pod : Define.Pod)
| CAddPod (pod : Define.Pod)
| CRemovePod (pod : Define.Pod)
| CRemovePodContainers (pod : Define.Pod)
| CAddContainerToPod (pod : Define.Pod) (ctr : Define.Container)
| CRemoveContainerFromPod (pod : Define.Pod) (ctr : Define.Container)
| CUpdatePod (pod : Define.Pod)
| CSavePod (pod : Define.Pod)
| CAllPods
| CVolume (name : string)
| CLookupVolume (name : string)
| CHasVolume (name : string)
| CVolumeInUse (volume : Define.Volume)
| CAddVolume (volume : Define.Volume)
| CRemoveVolume (volume : Define.Volume)
| CUpdateVolume (volume : Define.Volume)
| CSaveVolume (volume : Define.Volume)
| CAllVolumes.

(** Run a call, dropping what it returns. *)
Definition drop_result {A} (m : M A) : M () := m ≫= λ _, mret ().

Definition exec (c : call) : M () :=
  match c with
  | CClose => drop_result Close
  | CRefresh => drop_result Refresh
  | CGetDBConfig => drop_result GetDBConfig
  | CValidateDBConfig => drop_result ValidateDBConfig
  | CGetContainerName id => drop_result (GetContainerName id)
  | CGetPodName id => drop_result (GetPodName id)
  | CContainer id => drop_result (Container id)
  | CLookupContainerID idOrName => drop_result (LookupContainerID idOrName)
  | CLookupContainer idOrName => drop_result (LookupContainer idOrName)
  | CHasContainer id => drop_result (HasContainer id)
  | CAddContainer ctr => drop_result (AddContainer ctr)
  | CRemoveContainer ctr => drop_result (RemoveContainer ctr)
  | CUpdateContainer ctr => drop_result (UpdateContainer ctr)
  | CSaveContainer ctr => drop_result (SaveContainer ctr)
  | CContainerInUse ctr => drop_result (ContainerInUse ctr)
  | CAllContainers loadState => drop_result (AllContainers loadState)
  | CGetNetworks ctr => drop_result (GetNetworks ctr)
  | CNetworkConnect ctr network opts => drop_result (NetworkConnect ctr network opts)
  | CNetworkModify ctr network opts => drop_result (NetworkModify ctr network opts)
  | CNetworkDisconnect ctr network => drop_result (NetworkDisconnect ctr network)
  | CGetContainerConfig id => drop_result (GetContainerConfig id)
  | CAddContainerExitCode id exitCode => drop_result (AddContainerExitCode id exitCode)
  | CGetContainerExitCode id => drop_result (GetContainerExitCode id)
  | CGetContainerExitCodeTimeStamp id => drop_result (GetContainerExitCodeTimeStamp id)
  | CPruneContainerExitCodes => drop_result PruneContainerExitCodes
  | CAddExecSession ctr session => drop_result (AddExecSession ctr session)
  | CGetExecSession id => drop_result (GetExecSession id)
  | CRemoveExecSession session => drop_result (RemoveExecSession session)
  | CGetContainerExecSessions ctr => drop_result (GetContainerExecSessions ctr)
  | CRemoveContainerExecSessions ctr => drop_result (RemoveContainerExecSessions ctr)
  | CContainerIDIsVolume id => drop_result (ContainerIDIsVolume id)
  | CRewriteContainerConfig ctr newCfg => drop_result (RewriteContainerConfig ctr newCfg)
  | CSafeRewriteContainerConfig ctr oldName newName newCfg => drop_result (SafeRewriteContainerConfig ctr oldName newName newCfg)
  | CRewritePodConfig pod newCfg => drop_result (RewritePodConfig pod newCfg)
  | CRewriteVolumeConfig volume newCfg => drop_result (RewriteVolumeConfig volume newCfg)
  | CPod id => drop_result (Pod id)
  | CLookupPod idOrName => drop_result (LookupPod idOrName)
  | CHasPod id => drop_result (HasPod id)
  | CPodHasContainer pod id => drop_result (PodHasContainer pod id)
  | CPodContainersByID pod => drop_result (PodContainersByID pod)
  | CPodContainers pod => drop_result (PodContainers pod)
  | CAddPod pod => drop_result (AddPod pod)
  | CRemovePod pod => drop_result (RemovePod pod)
  | CRemovePodContainers pod => drop_result (RemovePodContainers pod)
  | CAddContainerToPod pod ctr => drop_result (AddContainerToPod pod ctr)
  | CRemoveContainerFromPod pod ctr => drop_result (RemoveContainerFromPod pod ctr)
  | CUpdatePod pod => drop_result (UpdatePod pod)
  | CSavePod pod => drop_result (SavePod pod)
  | CAllPods => drop_result AllPods
  | CVolume name => drop_result (Volume name)
  | CLookupVolume name => drop_result (LookupVolume name)
  | CHasVolume name => drop_result (HasVolume name)
  | CVolumeInUse volume => drop_result (VolumeInUse volume)
  | CAddVolume volume => drop_result (AddVolume volume)
  | CRemoveVolume volume => drop_result (RemoveVolume volume)
  | CUpdateVolume volume => drop_result (UpdateVolume volume)
  | CSaveVolume volume => drop_result (SaveVolume volume)
  | CAllVolumes => drop_result AllVolumes
  end.

(** What the caller of a method guarantees: the objects it holds agree with the
    database, and rewritten configurations keep their references. *)
Definition pre (c : call) (db : Db) : Prop :=
  match c with
  | CRemoveContainer ctr => coherent db ctr
  | CRewriteContainerConfig ctr newCfg => ∃ cfg, stored_config db (ctr_ID ctr) cfg ∧ same_refs cfg newCfg ∧ cc_Name newCfg = cc_Name cfg
  | CSafeRewriteContainerConfig ctr oldName newName newCfg => rewrite_ok ctr oldName newName newCfg db
  | CRemovePod pod => id_name db (pod_ID pod) (pod_Name pod)
  | CRemoveContainerFromPod pod ctr => coherent db ctr
  | _ => True
  end.

(** The calls that only read. *)
Definition reads (c : call) : bool :=
  match c with
  | CClose
  | CGetDBConfig
  | CGetContainerName _
  | CGetPodName _
  | CContainer _
  | CLookupContainerID _
  | CLookupContainer _
  | CHasContainer _
  | CUpdateContainer _
  | CContainerInUse _
  | CAllContainers _
  | CGetContainerConfig _
  | CGetContainerExitCode _
  | CGetContainerExitCodeTimeStamp _
  | CGetExecSession _
  | CGetContainerExecSessions _
  | CContainerIDIsVolume _
  | CPod _
  | CLookupPod _
  | CHasPod _
  | CPodHasContainer _ _
  | CPodContainersByID _
  | CPodContainers _
  | CUpdatePod _
  | CAllPods
  | CVolume _
  | CLookupVolume _
  | CHasVolume _
  | CVolumeInUse _
  | CUpdateVolume _
  | CAllVolumes => true
  | _ => false
  end.

Lemma drop_result_Err {A} (m : M A) w e w' :
  drop_result m w = (Err e, w') → m w = (Err e, w').
Proof.
  unfold drop_result. rewrite st_bind_Err. intros [?|(a & w1 & ? & Hm)]; [done|].
  unfold mret, st_ret in Hm. done.
Qed.

Lemma atomic_drop {A} (m : M A) : atomic m → atomic (drop_result m).
Proof. intros Hm w e w' Hr%drop_result_Err. by eapply Hm. Qed.
Lemma readonly_drop {A} (m : M A) : readonly m → readonly (drop_result m).
Proof. intros Hm. apply readonly_bind; [done|]. intros. apply readonly_ret. Qed.
Lemma safe_drop P {A} (m : M A) : safe P m → safe P (drop_result m).
Proof.
  intros Hm w r w' HI HP. unfold drop_result, mbind, st_bind, mret, st_ret.
  destruct (m w) as [[a|e] w1] eqn:Hw; intros [= <- <-]; by eapply Hm.
Qed.

Lemma reads_readonly c : reads c = true → readonly (exec c).
Proof.
  destruct c; intros [=]; apply readonly_drop;
    unfold Close, GetDBConfig, GetContainerName, GetPodName, Container, LookupContainerID, LookupContainer,
      HasContainer, UpdateContainer, ContainerInUse, AllContainers, GetContainerConfig, GetContainerExitCode,
      GetContainerExitCodeTimeStamp, GetExecSession, GetContainerExecSessions, ContainerIDIsVolume, Pod, LookupPod,
      HasPod, PodHasContainer, PodContainersByID, PodContainers, UpdatePod, AllPods, Volume, LookupVolume, HasVolume,
      VolumeInUse, UpdateVolume, AllVolumes;
    auto 12 with libpod.
Qed.

Lemma exec_atomic c : atomic (exec c).
Proof.
  destruct (reads c) eqn:Hr; [by apply readonly_atomic, reads_readonly|].
  destruct c; try discriminate Hr; clear Hr; apply atomic_drop;
    unfold Refresh, ValidateDBConfig, checkRuntimeConfig, AddContainer, addContainer, RemoveContainer, SaveContainer,
      GetNetworks, NetworkConnect, NetworkModify, networkModify, NetworkDisconnect, AddContainerExitCode,
      PruneContainerExitCodes, AddExecSession, RemoveExecSession, RemoveContainerExecSessions, RewriteContainerConfig,
      SafeRewriteContainerConfig, RewritePodConfig, RewriteVolumeConfig, AddPod, RemovePod, RemovePodContainers,
      AddContainerToPod, addContainer, RemoveContainerFromPod, SavePod, AddVolume, RemoveVolume, SaveVolume;
    auto 14 with libpod.
Qed.

Lemma exec_safe c : safe (pre c) (exec c).
Proof.
  destruct (reads c) eqn:Hr; [by apply safe_readonly, reads_readonly|].
  destruct c; try discriminate Hr; clear Hr; apply safe_drop;
    match goal with
    | |- safe _ Refresh => apply Refresh_safe
    | |- safe _ ValidateDBConfig => apply ValidateDBConfig_safe
    | |- safe _ (AddContainer _) => apply AddContainer_safe
    | |- safe _ (RemoveContainer _) => apply RemoveContainer_safe
    | |- safe _ (SaveContainer _) => apply SaveContainer_safe
    | |- safe _ (GetNetworks _) => apply GetNetworks_safe
    | |- safe _ (NetworkConnect _ _ _) => apply networkModify_safe
    | |- safe _ (NetworkModify _ _ _) => apply networkModify_safe
    | |- safe _ (NetworkDisconnect _ _) => apply NetworkDisconnect_safe
    | |- safe _ (AddContainerExitCode _ _) => apply AddContainerExitCode_safe
    | |- safe _ PruneContainerExitCodes => apply PruneContainerExitCodes_safe
    | |- safe _ (AddExecSession _ _) => apply AddExecSession_safe
    | |- safe _ (RemoveExecSession _) => apply RemoveExecSession_safe
    | |- safe _ (RemoveContainerExecSessions _) => apply RemoveContainerExecSessions_safe
    | |- safe _ (RewriteContainerConfig _ _) => apply RewriteContainerConfig_safe
    | |- safe _ (SafeRewriteContainerConfig _ _ _ _) => apply SafeRewriteContainerConfig_safe
    | |- safe _ (RewritePodConfig _ _) => apply RewritePodConfig_safe
    | |- safe _ (RewriteVolumeConfig _ _) => apply RewriteVolumeConfig_safe
    | |- safe _ (AddPod _) => apply AddPod_safe
    | |- safe _ (RemovePod _) => apply RemovePod_safe
    | |- safe _ (RemovePodContainers _) => apply RemovePodContainers_safe
    | |- safe _ (AddContainerToPod _ _) => apply AddContainerToPod_safe
    | |- safe _ (RemoveContainerFromPod _ _) => apply RemoveContainerFromPod_safe
    | |- safe _ (SavePod _) => apply SavePod_safe
    | |- safe _ (AddVolume _) => apply AddVolume_safe
    | |- safe _ (RemoveVolume _) => apply RemoveVolume_safe
    | |- safe _ (SaveVolume _) => apply SaveVolume_safe
    end.
Qed.

End ops.

(** ** Reachable databases *)

Section reach.
Context `{Runtime}.

(** ** The empty state *)

(** A database with the top-level buckets and nothing else. *)
Definition schema (db : Db) : Prop :=
  ∀ q e, db !! q = Some e ↔ ∃ b, b ∈ createBuckets ∧ q = [b] ∧ e = Bkt.

Lemma schema_deep db b k rest : schema db → db !! (b :: k :: rest) = None.
Proof.
  intros Hs. destruct (db !! _) as [e|] eqn:He; [|done].
  apply Hs in He as (? & _ & [=] & _).
Qed.

Lemma schema_inv db : schema db → Inv db.
Proof.
  intros Hs. assert (Hd := λ b k rest, schema_deep db b k rest Hs).
  assert (Hno : ∀ i, ¬ is_ctr db i ∧ ¬ is_pod db i ∧ ¬ is_vol db i)
    by (intros i; unfold is_ctr, is_pod, is_vol; by rewrite !Hd).
  assert (Hid : ∀ i n, ¬ id_name db i n ∧ ¬ name_id db n i) by (intros; unfold id_name, name_id; by rewrite !Hd).
  constructor.
  - intros b k [e He] Hb. apply Hs in He as (? & _ & Heq & _). by destruct b as [|? []].
  - intros q e (b & Hb & -> & ->)%Hs. done.
  - intros b Hb. apply Hs. eauto.
  - constructor; intros j.
    + intros m. destruct (Hid j m). tauto.
    + intros m. rewrite Hd. destruct (Hid j m). naive_solver.
    + intros m. rewrite Hd. destruct (Hid j m). naive_solver.
    + intros m ?. by destruct (Hid j m).
    + intros ?. by destruct (Hno j).
    + intros ?. by destruct (Hno j) as (_&?&_).
    + intros ?. by destruct (Hno j).
  - constructor; intros j ?; by destruct (Hno j).
  - constructor; [intros a b c ?; by destruct (Hno b)|intros a b e; by rewrite Hd].
  - constructor.
    + intros j ?. by destruct (Hno j) as (_&?&_).
    + intros j c m. rewrite Hd. destruct (Hno j) as (_&?&_). naive_solver.
    + intros j c ?. by destruct (Hno j).
  - constructor.
    + intros v m. rewrite Hd. destruct (Hno v) as (_&_&?). naive_solver.
    + intros v ?. by destruct (Hno v) as (_&_&?).
    + intros c c' v ?. by destruct (Hno c).
  - constructor. intros c s e. by rewrite Hd.
Qed.

Lemma createBuckets_run l w :
  (∀ b, b ∈ l → b ≠ "") → (∀ b v, w_db w !! [b] ≠ Some (Val v)) →
  forM_ l (λ b, _ ← CreateBucketIfNotExists [] b; mret ()) w =
  (Ok (), set_db (foldl (λ db b, <[[b] := Bkt]> db) (w_db w) l) w).
Proof.
  revert w. induction l as [|b l IH]; intros w Hl Hv; simpl; [by rewrite set_db_id|].
  erewrite st_bind_run; last first.
  { erewrite st_bind_run by (apply CreateBucketIfNotExists_Ok; split_and!;
      [apply Hl; by left|done|apply Hv|done]). done. }
  rewrite IH; cbn [w_db set_db app]; [by rewrite set_db_set_db|intros; apply Hl; by right|].
  intros b' v. rewrite lookup_insert. case_decide; [done|apply Hv].
Qed.

Lemma schema_created : schema (foldl (λ db b, <[[b] := Bkt]> db) ∅ createBuckets).
Proof.
  intros q e.
  assert (Hgen : ∀ l (db : Db), foldl (λ db b, <[[b] := Bkt]> db) db l !! q = Some e ↔
    (∃ b, b ∈ l ∧ q = [b] ∧ e = Bkt) ∨ ((∀ b, b ∈ l → q ≠ [b]) ∧ db !! q = Some e)).
  { induction l as [|b l IH]; intros db; simpl.
    - split; [intros Hq; right; split; [by intros ? ?%not_elem_of_nil|done]|].
      intros [(? & []%not_elem_of_nil & _)|[_ ?]]; done.
    - rewrite IH. destruct (decide (q = [b])) as [->|Hq].
      + lk. split.
        * intros [(b' & ? & ? & ?)|[Hn [= <-]]]; left; [exists b'; set_solver|exists b; set_solver].
        * intros [(b' & _ & [= <-] & ->)|[Hn _]]; [|by destruct (Hn b ltac:(left))].
          destruct (decide (b ∈ l)); [left; eauto|right]. split; [|done]. by intros b' Hb' [= ->].
      + rewrite lookup_insert_ne by done. split.
        * intros [(b' & ? & ? & ?)|[Hn ?]]; [left; exists b'; set_solver|right]. split; [|done].
          intros b' [->|?]%elem_of_cons; auto.
        * intros [(b' & Hin & -> & ->)|[Hn ?]]; [left|right; split; [intros; apply Hn; by right|done]].
          exists b'. split_and!; [|done|done]. apply elem_of_cons in Hin as [->|]; [done|done]. }
  rewrite Hgen, lookup_empty. naive_solver.
Qed.

Lemma NewBoltState_empty w :
  w_db w = ∅ → w_openFault w = false → w_commitFault w = false →
  ∃ db, NewBoltState w = (Ok (), set_valid true (set_db db w)) ∧ schema db.
Proof.
  intros Hdb Ho Hc. exists (foldl (λ db b, <[[b] := Bkt]> db) ∅ createBuckets).
  split; [|apply schema_created]. unfold NewBoltState. tx_go. rewrite Ho.
  erewrite st_bind_run by reflexivity. erewrite st_bind_run by reflexivity. rewrite bool_decide_eq_true_2; last first.
  { apply Exists_cons. left. apply bucket_None. by rewrite Hdb. }
  erewrite st_bind_run; last first.
  { rewrite set_db_id. apply Update_Ok. split; [|done]. apply createBuckets_run.
    - intros b Hb ->. revert Hb. by_dec.
    - intros b v. by rewrite Hdb. }
  by rewrite Hdb.
Qed.

(** ** Sequences of calls *)

Inductive step : World → World → Prop :=
| step_call c w r w' : pre c (w_db w) → exec c w = (r, w') → step w w'
| step_open w r w' : NewBoltState w = (r, w') → step w w'
| step_env w w' : w_db w' = w_db w → step w w'. (* faults, time, other objects *)

Lemma NewBoltState_safe w r w' : Inv (w_db w) → NewBoltState w = (r, w') → Inv (w_db w').
Proof.
  intros HI. unfold NewBoltState, View. destruct (w_openFault w) eqn:Ho.
  { unfold mbind, st_bind, gets, failIf, throw. rewrite Ho. intros [= <- <-]. done. }
  erewrite st_bind_run by reflexivity. rewrite Ho. erewrite st_bind_run by reflexivity.
  erewrite st_bind_run by reflexivity. rewrite bool_decide_eq_false_2; last first.
  { intros (b & Hb & Hn%bucket_None)%Exists_exists. apply Hn. by apply (inv_schema _ HI). }
  erewrite st_bind_run by reflexivity. intros [= <- <-]. done.
Qed.

Lemma step_inv `{!RuntimeLaws} w w' : step w w' → Inv (w_db w) → Inv (w_db w').
Proof.
  intros [c w1 r w2 Hp He|w1 r w2 He|w1 w2 He] HI.
  - by eapply exec_safe.
  - by eapply NewBoltState_safe.
  - by rewrite He.
Qed.

Lemma steps_inv `{!RuntimeLaws} w w' : rtc step w w' → Inv (w_db w) → Inv (w_db w').
Proof. induction 1; eauto using step_inv. Qed.

End reach.

(** ** Concrete states *)

Lemma emptyWorld_inv : Inv (w_db emptyWorld).
Proof.
  destruct (NewBoltState_empty world0) as (db & Hr & Hs); [done|done|done|].
  unfold emptyWorld, run. rewrite Hr. by apply schema_inv.
Qed.

Lemma run_inv {A} P (m : M A) w : safe P m → P (w_db w) → Inv (w_db w) → Inv (w_db (run m w)).
Proof. intros Hm Hp HI. unfold run. destruct (m w) as [r w'] eqn:He. by eapply Hm. Qed.

(** A pod with a member, a volume, and two containers one of which depends on
    the other. *)
Definition ctrM : Define.Container := mkPodCtr "cccccccccccc0004" "gamma" [] [] "pppppppppppp0003".
Definition ctrW : Define.Container := mkCtr "dddddddddddd0005" "delta" [] ["vol1"].
Definition sess1 : ExecSession := mkExecSession "sess1" "bbbbbbbbbbbb0002" ExecStateCreated 0 0 "".
Definition world1 : World := run (AddContainer ctrA) emptyWorld.
Definition world2 : World := run (AddContainer ctrB) world1.
Definition world3 : World := run (AddContainerToPod podP ctrM) (run (AddPod podP) world2).
Definition world4 : World := run (AddContainer ctrW) (run (AddVolume volV) world3).
Definition world5 : World := run (AddExecSession ctrB sess1) world4.

Lemma world1_inv : Inv (w_db world1).
Proof. eapply run_inv; [apply AddContainer_safe|done|apply emptyWorld_inv]. Qed.
Lemma world2_inv : Inv (w_db world2).
Proof. eapply run_inv; [apply AddContainer_safe|done|apply world1_inv]. Qed.
Lemma world3_inv : Inv (w_db world3).
Proof.
  eapply run_inv; [apply AddContainerToPod_safe|done|].
  eapply run_inv; [apply AddPod_safe|done|apply world2_inv].
Qed.
Lemma world4_inv : Inv (w_db world4).
Proof.
  eapply run_inv; [apply AddContainer_safe|done|].
  eapply run_inv; [apply AddVolume_safe|done|apply world3_inv].
Qed.
Lemma world5_inv : Inv (w_db world5).
Proof. eapply run_inv; [apply AddExecSession_safe|done|apply world4_inv]. Qed.

Lemma world1_run : AddContainer ctrA emptyWorld = (Ok (), world1).
Proof. apply (run_eq (AddContainer ctrA) emptyWorld (Ok ())). vm_compute. reflexivity. Qed.
Lemma world2_run : AddContainer ctrB world1 = (Ok (), world2).
Proof. apply (run_eq (AddContainer ctrB) world1 (Ok ())). vm_compute. reflexivity. Qed.
