(* ===== verification/Sqlite.v ===== *)
(** * Sqlite: the tables of the SQLite state and the statements over them

    The second implementation of the interface [State] keeps its data in an
    SQLite database.  This file holds the schema that [sqliteInitTables]
    ([libpod/sqlite_state_internal.go]) creates, and the meaning of the SQL
    statements that the state runs: one row type per table, a table as a finite
    map from its primary key (or a set, when the key is the whole row), the
    constraints of the schema, and transactions.

    As the documentation of SQLite has it, a statement that would violate a
    primary key, [UNIQUE], [CHECK] or immediate foreign key constraint fails and
    changes nothing; a deferred foreign key is checked when the transaction
    commits; and foreign keys are enforced only on a connection on which the
    pragma [foreign_keys] was issued.  The order in which a query without
    [ORDER BY] returns its rows is unspecified: it is the class [RowOrder]. *)

From Stdlib Require Import Ascii.
From S2P Require Import Prelude Define Bolt BoltTx.

(** ** Rows, without the columns of the primary key *)

Record DBConfigRow : Type := mkDBConfigRow {
  r_SchemaVersion : Z;
  r_OS : string;
  r_StaticDir : string;
  r_TmpDir : string;
  r_GraphRoot : string;
  r_RunRoot : string;
  r_GraphDriver : string;
  r_VolumeDir : string }.

Record ContainerConfigRow : Type := mkContainerConfigRow {
  rc_Name : string;
  rc_PodID : option string;
  rc_JSON : string }.

Record ContainerStateRow : Type := mkContainerStateRow {
  rs_State : Z;
  rs_ExitCode : Z;
  rs_JSON : string }.

Record ExitCodeRow : Type := mkExitCodeRow {
  re_Timestamp : Z;
  re_ExitCode : Z }.

Record PodConfigRow : Type := mkPodConfigRow {
  rp_Name : string;
  rp_JSON : string }.

Record PodStateRow : Type := mkPodStateRow {
  rq_InfraContainerID : option string;
  rq_JSON : string }.

Record VolumeConfigRow : Type := mkVolumeConfigRow {
  rv_StorageID : option string;
  rv_JSON : string }.

(** ** The database

    [DBConfig] has at most the row with [ID = 1]. *)

Record Database : Type := mkDatabase {
  t_DBConfig : option DBConfigRow;
  t_IDNamespace : gset string;
  t_ContainerConfig : gmap string ContainerConfigRow;
  t_ContainerState : gmap string ContainerStateRow;
  t_ContainerExecSession : gmap string string;
  t_ContainerDependency : gset (string * string);
  t_ContainerVolume : gset (string * string);
  t_ContainerExitCode : gmap string ExitCodeRow;
  t_PodConfig : gmap string PodConfigRow;
  t_PodState : gmap string PodStateRow;
  t_VolumeConfig : gmap string VolumeConfigRow;
  t_VolumeState : gmap string string }.

Definition set_DBConfig (t : option DBConfigRow) (db : Database) : Database :=
  mkDatabase t (t_IDNamespace db) (t_ContainerConfig db) (t_ContainerState db)
    (t_ContainerExecSession db) (t_ContainerDependency db) (t_ContainerVolume db)
    (t_ContainerExitCode db) (t_PodConfig db) (t_PodState db) (t_VolumeConfig db)
    (t_VolumeState db).
Definition set_IDNamespace (t : gset string) (db : Database) : Database :=
  mkDatabase (t_DBConfig db) t (t_ContainerConfig db) (t_ContainerState db)
    (t_ContainerExecSession db) (t_ContainerDependency db) (t_ContainerVolume db)
    (t_ContainerExitCode db) (t_PodConfig db) (t_PodState db) (t_VolumeConfig db)
    (t_VolumeState db).
Definition set_ContainerConfig (t : gmap string ContainerConfigRow) (db : Database) : Database :=
  mkDatabase (t_DBConfig db) (t_IDNamespace db) t (t_ContainerState db)
    (t_ContainerExecSession db) (t_ContainerDependency db) (t_ContainerVolume db)
    (t_ContainerExitCode db) (t_PodConfig db) (t_PodState db) (t_VolumeConfig db)
    (t_VolumeState db).
Definition set_ContainerState (t : gmap string ContainerStateRow) (db : Database) : Database :=
  mkDatabase (t_DBConfig db) (t_IDNamespace db) (t_ContainerConfig db) t
    (t_ContainerExecSession db) (t_ContainerDependency db) (t_ContainerVolume db)
    (t_ContainerExitCode db) (t_PodConfig db) (t_PodState db) (t_VolumeConfig db)
    (t_VolumeState db).
Definition set_ContainerExecSession (t : gmap string string) (db : Database) : Database :=
  mkDatabase (t_DBConfig db) (t_IDNamespace db) (t_ContainerConfig db) (t_ContainerState db) t
    (t_ContainerDependency db) (t_ContainerVolume db) (t_ContainerExitCode db) (t_PodConfig db)
    (t_PodState db) (t_VolumeConfig db) (t_VolumeState db).
Definition set_ContainerDependency (t : gset (string * string)) (db : Database) : Database :=
  mkDatabase (t_DBConfig db) (t_IDNamespace db) (t_ContainerConfig db) (t_ContainerState db)
    (t_ContainerExecSession db) t (t_ContainerVolume db) (t_ContainerExitCode db) (t_PodConfig db)
    (t_PodState db) (t_VolumeConfig db) (t_VolumeState db).
Definition set_ContainerVolume (t : gset (string * string)) (db : Database) : Database :=
  mkDatabase (t_DBConfig db) (t_IDNamespace db) (t_ContainerConfig db) (t_ContainerState db)
    (t_ContainerExecSession db) (t_ContainerDependency db) t (t_ContainerExitCode db)
    (t_PodConfig db) (t_PodState db) (t_VolumeConfig db) (t_VolumeState db).
Definition set_ContainerExitCode (t : gmap string ExitCodeRow) (db : Database) : Database :=
  mkDatabase (t_DBConfig db) (t_IDNamespace db) (t_ContainerConfig db) (t_ContainerState db)
    (t_ContainerExecSession db) (t_ContainerDependency db) (t_ContainerVolume db) t
    (t_PodConfig db) (t_PodState db) (t_VolumeConfig db) (t_VolumeState db).
Definition set_PodConfig (t : gmap string PodConfigRow) (db : Database) : Database :=
  mkDatabase (t_DBConfig db) (t_IDNamespace db) (t_ContainerConfig db) (t_ContainerState db)
    (t_ContainerExecSession db) (t_ContainerDependency db) (t_ContainerVolume db)
    (t_ContainerExitCode db) t (t_PodState db) (t_VolumeConfig db) (t_VolumeState db).
Definition set_PodState (t : gmap string PodStateRow) (db : Database) : Database :=
  mkDatabase (t_DBConfig db) (t_IDNamespace db) (t_ContainerConfig db) (t_ContainerState db)
    (t_ContainerExecSession db) (t_ContainerDependency db) (t_ContainerVolume db)
    (t_ContainerExitCode db) (t_PodConfig db) t (t_VolumeConfig db) (t_VolumeState db).
Definition set_VolumeConfig (t : gmap string VolumeConfigRow) (db : Database) : Database :=
  mkDatabase (t_DBConfig db) (t_IDNamespace db) (t_ContainerConfig db) (t_ContainerState db)
    (t_ContainerExecSession db) (t_ContainerDependency db) (t_ContainerVolume db)
    (t_ContainerExitCode db) (t_PodConfig db) (t_PodState db) t (t_VolumeState db).
Definition set_VolumeState (t : gmap string string) (db : Database) : Database :=
  mkDatabase (t_DBConfig db) (t_IDNamespace db) (t_ContainerConfig db) (t_ContainerState db)
    (t_ContainerExecSession db) (t_ContainerDependency db) (t_ContainerVolume db)
    (t_ContainerExitCode db) (t_PodConfig db) (t_PodState db) (t_VolumeConfig db) t.

Definition emptyDatabase : Database :=
  mkDatabase None ∅ ∅ ∅ ∅ ∅ ∅ ∅ ∅ ∅ ∅ ∅.

(** ** Foreign keys

    The values of the referencing column (a [NULL] references nothing), the
    values of the referenced one, and whether the constraint is
    [DEFERRABLE INITIALLY DEFERRED]. *)

Record ForeignKey : Type := mkForeignKey {
  fk_child : Database → gset string;
  fk_parent : Database → gset string;
  fk_deferred : bool }.

(** The values of a nullable column. *)
Definition column {R} (f : R → option string) (m : gmap string R) : gset string :=
  list_to_set (omap (λ kr, f kr.2) (map_to_list m)).

Definition ctrIDs (db : Database) : gset string := dom (t_ContainerConfig db).

Definition fk_ContainerConfig : list ForeignKey :=
  [ mkForeignKey ctrIDs t_IDNamespace true;
    mkForeignKey ctrIDs (λ db, dom (t_ContainerState db)) true;
    mkForeignKey (λ db, column rc_PodID (t_ContainerConfig db)) (λ db, dom (t_PodConfig db)) false ].

Definition fk_ContainerState : list ForeignKey :=
  [ mkForeignKey (λ db, dom (t_ContainerState db)) ctrIDs true ].

Definition fk_ContainerExecSession : list ForeignKey :=
  [ mkForeignKey (λ db, column Some (t_ContainerExecSession db)) ctrIDs false ].

Definition fk_ContainerDependency : list ForeignKey :=
  [ mkForeignKey (λ db, set_map fst (t_ContainerDependency db)) ctrIDs true;
    mkForeignKey (λ db, set_map snd (t_ContainerDependency db)) ctrIDs false ].

Definition fk_ContainerVolume : list ForeignKey :=
  [ mkForeignKey (λ db, set_map fst (t_ContainerVolume db)) ctrIDs true;
    mkForeignKey (λ db, set_map snd (t_ContainerVolume db)) (λ db, dom (t_VolumeConfig db)) false ].

Definition fk_PodConfig : list ForeignKey :=
  [ mkForeignKey (λ db, dom (t_PodConfig db)) t_IDNamespace true;
    mkForeignKey (λ db, dom (t_PodConfig db)) (λ db, dom (t_PodState db)) true ].

Definition fk_PodState : list ForeignKey :=
  [ mkForeignKey (λ db, dom (t_PodState db)) (λ db, dom (t_PodConfig db)) true;
    mkForeignKey (λ db, column rq_InfraContainerID (t_PodState db)) ctrIDs true ].

Definition fk_VolumeConfig : list ForeignKey :=
  [ mkForeignKey (λ db, dom (t_VolumeConfig db)) (λ db, dom (t_VolumeState db)) true ].

Definition fk_VolumeState : list ForeignKey :=
  [ mkForeignKey (λ db, dom (t_VolumeState db)) (λ db, dom (t_VolumeConfig db)) true ].

Definition foreignKeys : list ForeignKey :=
  fk_ContainerConfig ++ fk_ContainerState ++ fk_ContainerExecSession ++
  fk_ContainerDependency ++ fk_ContainerVolume ++ fk_PodConfig ++ fk_PodState ++
  fk_VolumeConfig ++ fk_VolumeState.

Definition fk_holds (db : Database) (fk : ForeignKey) : Prop := fk_child fk db ⊆ fk_parent fk db.
#[export] Instance fk_holds_dec db fk : Decision (fk_holds db fk).
Proof. unfold fk_holds. apply _. Defined.

(** What is checked at the end of a statement, and at the end of a transaction. *)
Definition immediate_ok (db : Database) : bool :=
  bool_decide (Forall (λ fk, fk_deferred fk = false → fk_holds db fk) foreignKeys).
Definition deferred_ok (db : Database) : bool :=
  bool_decide (Forall (fk_holds db) foreignKeys).

(** ** Statements

    A statement maps a database to the number of rows it affects and the new
    database, or fails with a constraint error. *)

Abbreviation statement := (Database → result error (nat * Database)).

(** [CHECK (ExitCode BETWEEN -1 AND 255)] *)
Definition exitCodeCheck (c : Z) : bool := ((-1 <=? c) && (c <=? 255))%Z.

Definition constraint (b : bool) (db : Database) : result error (nat * Database) :=
  if b then Ok (1, db) else Err ErrConstraint.

Definition insert_DBConfig (id : Z) (row : DBConfigRow) : statement := λ db,
  constraint (bool_decide (id = 1%Z) && bool_decide (t_DBConfig db = None)) (set_DBConfig (Some row) db).

Definition insert_IDNamespace (id : string) : statement := λ db,
  constraint (bool_decide (id ∉ t_IDNamespace db)) (set_IDNamespace ({[id]} ∪ t_IDNamespace db) db).

(** [UNIQUE] on a column of the other rows. *)
Definition unique {R} (f : R → string) (id v : string) (m : gmap string R) : bool :=
  bool_decide (map_Forall (λ k r, k ≠ id → f r ≠ v) m).

Definition insert_ContainerConfig (id : string) (row : ContainerConfigRow) : statement := λ db,
  constraint (bool_decide (t_ContainerConfig db !! id = None) &&
              unique rc_Name id (rc_Name row) (t_ContainerConfig db))
    (set_ContainerConfig (<[id := row]> (t_ContainerConfig db)) db).

Definition insert_ContainerState (id : string) (row : ContainerStateRow) : statement := λ db,
  constraint (bool_decide (t_ContainerState db !! id = None) && exitCodeCheck (rs_ExitCode row))
    (set_ContainerState (<[id := row]> (t_ContainerState db)) db).

Definition insert_ContainerExecSession (id ctr : string) : statement := λ db,
  constraint (bool_decide (t_ContainerExecSession db !! id = None))
    (set_ContainerExecSession (<[id := ctr]> (t_ContainerExecSession db)) db).

(** [CHECK (ID <> DependencyID)] *)
Definition insert_ContainerDependency (id dep : string) : statement := λ db,
  constraint (bool_decide ((id, dep) ∉ t_ContainerDependency db) && bool_decide (id ≠ dep))
    (set_ContainerDependency ({[(id, dep)]} ∪ t_ContainerDependency db) db).

Definition insert_ContainerVolume (id vol : string) : statement := λ db,
  constraint (bool_decide ((id, vol) ∉ t_ContainerVolume db))
    (set_ContainerVolume ({[(id, vol)]} ∪ t_ContainerVolume db) db).

(** [INSERT OR REPLACE] replaces a row with the same key; the [CHECK] still
    makes it fail. *)
Definition replace_ContainerExitCode (id : string) (row : ExitCodeRow) : statement := λ db,
  constraint (exitCodeCheck (re_ExitCode row))
    (set_ContainerExitCode (<[id := row]> (t_ContainerExitCode db)) db).

Definition insert_PodConfig (id : string) (row : PodConfigRow) : statement := λ db,
  constraint (bool_decide (t_PodConfig db !! id = None) &&
              unique rp_Name id (rp_Name row) (t_PodConfig db))
    (set_PodConfig (<[id := row]> (t_PodConfig db)) db).

Definition insert_PodState (id : string) (row : PodStateRow) : statement := λ db,
  constraint (bool_decide (t_PodState db !! id = None))
    (set_PodState (<[id := row]> (t_PodState db)) db).

Definition insert_VolumeConfig (name : string) (row : VolumeConfigRow) : statement := λ db,
  constraint (bool_decide (t_VolumeConfig db !! name = None))
    (set_VolumeConfig (<[name := row]> (t_VolumeConfig db)) db).

Definition insert_VolumeState (name json : string) : statement := λ db,
  constraint (bool_decide (t_VolumeState db !! name = None))
    (set_VolumeState (<[name := json]> (t_VolumeState db)) db).

(** The number of rows with key [k]. *)
Definition hits {R} (m : gmap string R) (k : string) : nat :=
  match m !! k with Some _ => 1 | None => 0 end.

Definition delete_IDNamespace (id : string) : statement := λ db,
  Ok (if decide (id ∈ t_IDNamespace db) then 1 else 0, set_IDNamespace (t_IDNamespace db ∖ {[id]}) db).

Definition delete_ContainerConfig (id : string) : statement := λ db,
  Ok (hits (t_ContainerConfig db) id, set_ContainerConfig (delete id (t_ContainerConfig db)) db).

Definition delete_ContainerState (id : string) : statement := λ db,
  Ok (hits (t_ContainerState db) id, set_ContainerState (delete id (t_ContainerState db)) db).

Definition delete_ContainerDependency (id : string) : statement := λ db,
  Ok (size (filter (λ p, p.1 = id) (t_ContainerDependency db)),
      set_ContainerDependency (filter (λ p, p.1 ≠ id) (t_ContainerDependency db)) db).

Definition delete_ContainerVolume (id : string) : statement := λ db,
  Ok (size (filter (λ p, p.1 = id) (t_ContainerVolume db)),
      set_ContainerVolume (filter (λ p, p.1 ≠ id) (t_ContainerVolume db)) db).

(** [DELETE FROM ContainerExecSession WHERE ContainerID=?] *)
Definition delete_ContainerExecSession_ctr (ctr : string) : statement := λ db,
  Ok (size (filter (λ kv, kv.2 = ctr) (t_ContainerExecSession db)),
      set_ContainerExecSession (filter (λ kv, kv.2 ≠ ctr) (t_ContainerExecSession db)) db).

(** [DELETE FROM ContainerExecSession WHERE ID=?] *)
Definition delete_ContainerExecSession (id : string) : statement := λ db,
  Ok (hits (t_ContainerExecSession db) id, set_ContainerExecSession (delete id (t_ContainerExecSession db)) db).

Definition delete_all_ContainerExecSession : statement := λ db,
  Ok (size (t_ContainerExecSession db), set_ContainerExecSession ∅ db).

Definition delete_all_ContainerExitCode : statement := λ db,
  Ok (size (t_ContainerExitCode db), set_ContainerExitCode ∅ db).

(** [DELETE FROM ContainerExitCode WHERE (Timestamp <= ?)] *)
Definition prune_ContainerExitCode (limit : Z) : statement := λ db,
  Ok (size (filter (λ kr, (re_Timestamp kr.2 <= limit)%Z) (t_ContainerExitCode db)),
      set_ContainerExitCode (filter (λ kr, ¬ (re_Timestamp kr.2 <= limit)%Z) (t_ContainerExitCode db)) db).

Definition delete_PodConfig (id : string) : statement := λ db,
  Ok (hits (t_PodConfig db) id, set_PodConfig (delete id (t_PodConfig db)) db).

Definition delete_PodState (id : string) : statement := λ db,
  Ok (hits (t_PodState db) id, set_PodState (delete id (t_PodState db)) db).

Definition delete_VolumeConfig (name : string) : statement := λ db,
  Ok (hits (t_VolumeConfig db) name, set_VolumeConfig (delete name (t_VolumeConfig db)) db).

Definition delete_VolumeState (name : string) : statement := λ db,
  Ok (hits (t_VolumeState db) name, set_VolumeState (delete name (t_VolumeState db)) db).

(** [UPDATE ... SET JSON=? WHERE ID=?]: no updated column takes part in a foreign
    key. *)
Definition update_ContainerState (id json : string) : statement := λ db,
  Ok (hits (t_ContainerState db) id,
      set_ContainerState (alter (λ r, mkContainerStateRow (rs_State r) (rs_ExitCode r) json) id (t_ContainerState db)) db).

Definition update_PodState (id json : string) : statement := λ db,
  Ok (hits (t_PodState db) id,
      set_PodState (alter (λ r, mkPodStateRow (rq_InfraContainerID r) json) id (t_PodState db)) db).

Definition update_VolumeState (name json : string) : statement := λ db,
  Ok (hits (t_VolumeState db) name, set_VolumeState (alter (λ _, json) name (t_VolumeState db)) db).

(** [UPDATE PodConfig SET Name=?, JSON=? WHERE ID=?] *)
Definition update_PodConfig (id name json : string) : statement := λ db,
  match t_PodConfig db !! id with
  | None => Ok (0, db)
  | Some _ => constraint (unique rp_Name id name (t_PodConfig db))
                (set_PodConfig (<[id := mkPodConfigRow name json]> (t_PodConfig db)) db)
  end.

(** ** Queries *)

Class RowOrder : Type := {
  scan : ∀ {A}, list A → list A;
  scan_perm : ∀ {A} (l : list A), scan l ≡ₚ l }.

(** [X LIKE Y]: [%] matches any sequence of characters, [_] one character, and
    letters match regardless of case.  (Exact for stored strings of ASCII
    characters, which IDs and names are.) *)
Definition lower (c : ascii) : ascii :=
  let n := nat_of_ascii c in
  if (65 <=? n)%nat && (n <=? 90)%nat then ascii_of_nat (n + 32) else c.

Fixpoint like (p : string) : string → bool :=
  match p with
  | EmptyString => λ s, match s with EmptyString => true | _ => false end
  | String c p' =>
      if Ascii.eqb c "%" then
        fix any (s : string) : bool :=
          like p' s || match s with EmptyString => false | String _ s' => any s' end
      else λ s,
        match s with
        | EmptyString => false
        | String d s' => (Ascii.eqb c "_" || Ascii.eqb (lower c) (lower d)) && like p' s'
        end
  end.

(** ** The connection and transactions

    [s_valid] is the field of [SQLiteState].  [s_open] tells whether the handle
    [conn] is open.  [s_fk] tells whether the connection that the pool of
    [database/sql] hands out next enforces foreign keys, [s_locked] whether a
    transaction that was never finished holds the write lock.  [s_db] is the
    content that the current connection sees.  [s_faults] is the environment's:
    for each of the following calls of the engine, whether it fails for a reason
    of its own. *)
Record SWorld : Type := mkSWorld {
  s_valid : bool;
  s_open : bool;
  s_fk : bool;
  s_locked : bool;
  s_db : Database;
  s_effects : list effect;
  s_ociRuntimes : gset string;
  s_faults : list bool }.

Definition sw_set_valid (b : bool) (w : SWorld) : SWorld :=
  mkSWorld b (s_open w) (s_fk w) (s_locked w) (s_db w) (s_effects w) (s_ociRuntimes w) (s_faults w).
Definition sw_set_open (b : bool) (w : SWorld) : SWorld :=
  mkSWorld (s_valid w) b (s_fk w) (s_locked w) (s_db w) (s_effects w) (s_ociRuntimes w) (s_faults w).
Definition sw_set_db (db : Database) (w : SWorld) : SWorld :=
  mkSWorld (s_valid w) (s_open w) (s_fk w) (s_locked w) db (s_effects w) (s_ociRuntimes w) (s_faults w).
Definition sw_add_effect (e : effect) (w : SWorld) : SWorld :=
  mkSWorld (s_valid w) (s_open w) (s_fk w) (s_locked w) (s_db w) (e :: s_effects w) (s_ociRuntimes w) (s_faults w).
Definition sw_add_ociRuntime (name : string) (w : SWorld) : SWorld :=
  mkSWorld (s_valid w) (s_open w) (s_fk w) (s_locked w) (s_db w) (s_effects w)
    ({[name]} ∪ s_ociRuntimes w) (s_faults w).
Definition sw_set_faults (l : list bool) (w : SWorld) : SWorld :=
  mkSWorld (s_valid w) (s_open w) (s_fk w) (s_locked w) (s_db w) (s_effects w) (s_ociRuntimes w) l.
(** The transaction of the call is abandoned: its connection never returns to the
    pool, which opens another one, without the pragma, for the next call. *)
Definition sw_leak (committed : Database) (wrote : bool) (w : SWorld) : SWorld :=
  mkSWorld (s_valid w) (s_open w) false (s_locked w || wrote) committed (s_effects w)
    (s_ociRuntimes w) (s_faults w).

Abbreviation SM := (ST error SWorld).

(** A call of the engine, which the environment may let fail. *)
Definition io : SM () := λ w,
  if s_open w then
    match s_faults w with
    | true :: l => (Err ErrSQL, sw_set_faults l w)
    | false :: l => (Ok (), sw_set_faults l w)
    | [] => (Ok (), w)
    end
  else (Err ErrSQL, w).

(** [conn.Query], [conn.QueryRow] *)
Definition Query {A} (f : Database → A) : SM A := _ ← io; gets (λ w, f (s_db w)).

(** A statement on the current connection: the number of affected rows *)
Definition execute (f : statement) : SM nat := λ w,
  if s_locked w then (Err ErrBusy, w)
  else match f (s_db w) with
       | Ok (n, db') =>
           if s_fk w && negb (immediate_ok db') then (Err ErrConstraint, w)
           else (Ok n, sw_set_db db' w)
       | Err e => (Err e, w)
       end.

(** [tx.Exec] *)
Definition Exec (f : statement) : SM nat := _ ← io; execute f.

Definition Exec_ (f : statement) : SM () := _ ← Exec f; mret ().

(** [tx.Commit] checks the deferred constraints; the driver rolls back when it
    fails. *)
Definition checkDeferred : SM () := λ w,
  if s_fk w && negb (deferred_ok (s_db w)) then (Err ErrConstraint, w) else (Ok (), w).

Definition Commit : SM () := _ ← io; checkDeferred.

(** [tx, err := s.conn.Begin()], the statements, [tx.Commit()], and the deferred
    [tx.Rollback()] when an error is returned.  Writes to the callers' objects
    are not rolled back. *)
Definition withTx {A} (body : SM A) : SM A := λ w0,
  match io w0 with
  | (Err e, w1) => (Err e, w1)
  | (Ok _, w1) =>
      match (body ≫= λ a, Commit ≫= λ _, mret a) w1 with
      | (Ok a, w2) => (Ok a, w2)
      | (Err e, w2) => (Err e, sw_set_db (s_db w1) w2)
      end
  end.

(** The error as a value, for code that looks at it. *)
Definition catch {A} (m : SM A) : SM (result error A) := λ w, let (r, w') := m w in (Ok r, w').

(** [row.Scan] found a row, or [sql.ErrNoRows]. *)
Definition orNoRows {A} (x : option A) (onNil : SM ()) (e : error) : SM A :=
  match x with
  | Some a => mret a
  | None => _ ← onNil; throw e
  end.

Definition sInvalidate (e : effect) : SM () := modify (sw_add_effect e).
