(* ===== verification/SqliteState.v ===== *)
(** * SqliteState: the state database on SQLite

    A model of [libpod/sqlite_state.go] and [libpod/sqlite_state_internal.go]:
    one definition per method of [SQLiteState], with the name of the method after
    the prefix [SQLite_], and one per helper.  A method that replaces a field of
    an object of its caller returns the new value of that field. *)

From Stdlib Require Import Ascii.
From S2P Require Import Prelude Define Bolt BoltTx BoltInternal BoltState Sqlite.

Definition schemaVersion : Z := 1.

(** ** Opening and closing *)

(** [sqliteInitTables]: the tables of a file without any are created, in one
    transaction; [CREATE TABLE IF NOT EXISTS] leaves existing tables alone. *)
Definition tableNames : list string :=
  ["DBConfig"; "IDNamespace"; "ContainerConfig"; "ContainerState"; "ContainerExecSession";
   "ContainerDependency"; "ContainerVolume"; "ContainerExitCode"; "PodConfig"; "PodState";
   "VolumeConfig"; "VolumeState"].

Definition sqliteInitTables : SM () := withTx (forM_ tableNames (λ _, Exec_ (λ db, Ok (0, db)))).

(** [migrateSchemaIfNecessary]: an error of the query other than "no rows" leaves
    the version zero. *)
Definition migrateSchemaIfNecessary : SM () :=
  row ← catch (Query t_DBConfig);
  match row with
  | Ok None => mret ()
  | _ =>
      let schemaVer := match row with Ok (Some r) => r_SchemaVersion r | _ => 0%Z end in
      _ ← when (schemaVer ≤ 0)%Z ErrInternal;
      if decide (schemaVer ≠ schemaVersion) then
        when (schemaVer > schemaVersion)%Z ErrInternal
      else mret ()
  end.

(** [NewSqliteState] on a file that has the content [file], or no tables yet: the
    handle is opened and pinged, three pragmas are set, the tables created and the
    version of the schema checked.  On failure the handle is closed and no state
    is returned. *)
Definition NewSqliteState (file : option Database) (ociRuntimes : gset string) (faults : list bool)
    : result error SWorld * option Database :=
  let w := mkSWorld false true false false (default emptyDatabase file) [] ociRuntimes faults in
  match (_ ← io; _ ← io;
         _ ← modify (λ w, mkSWorld false true true false (s_db w) [] (s_ociRuntimes w) (s_faults w));
         _ ← io; _ ← io;
         r ← catch sqliteInitTables;
         match r with
         | Ok _ => r ← catch migrateSchemaIfNecessary; mret (true, r)
         | Err e => mret (false, Err e)
         end) w with
  | (Ok (_, Ok _), w') => (Ok (sw_set_valid true w'), Some (s_db w'))
  | (Ok (created, Err e), w') => (Err e, if created : bool then Some (s_db w') else file)
  | (Err e, _) => (Err e, file)
  end.

(** [SQLiteState.Close]; the handle is closed for new calls even when an error is
    reported. *)
Definition SQLite_Close : SM () :=
  r ← catch io;
  _ ← modify (sw_set_open false);
  _ ← lift r;
  modify (sw_set_valid false).

Definition sCheckValid : SM () := v ← gets s_valid; failIf (negb v) ErrDBClosed.

Section sqlite.
Context `{Runtime, RowOrder}.

(** ** Refresh *)

(** Reading, resetting and encoding again the states of one table. *)
Definition refreshStates {A} `{Json A} (reset : A → A) (l : list (string * string))
    : SM (list (string * string)) :=
  foldM (λ acc kv,
    state ← lift (unmarshal kv.2);
    newJSON ← lift (marshal (reset state));
    mret (acc ++ [(kv.1, newJSON)])) [] l.

Definition SQLite_Refresh : SM () :=
  _ ← sCheckValid;
  ctrRows ← Query (λ db, scan (map_to_list (rs_JSON <$> t_ContainerState db)));
  ctrStates ← refreshStates resetContainerState ctrRows;
  podRows ← Query (λ db, scan (map_to_list (rq_JSON <$> t_PodState db)));
  podStates ← refreshStates resetPodState podRows;
  volRows ← Query (λ db, scan (map_to_list (t_VolumeState db)));
  volumeStates ← refreshStates resetVolumeState volRows;
  withTx (
    _ ← forM_ ctrStates (λ kv, Exec_ (update_ContainerState kv.1 kv.2));
    _ ← forM_ podStates (λ kv, Exec_ (update_PodState kv.1 kv.2));
    _ ← forM_ volumeStates (λ kv, Exec_ (update_VolumeState kv.1 kv.2));
    _ ← Exec_ delete_all_ContainerExitCode;
    Exec_ delete_all_ContainerExecSession).

(** ** Configuration *)

Definition SQLite_GetDBConfig : SM DBConfig :=
  _ ← sCheckValid;
  row ← Query t_DBConfig;
  mret (match row with
        | Some r => mkDBConfig (r_StaticDir r) (r_TmpDir r) (r_GraphRoot r) (r_RunRoot r)
                      (r_GraphDriver r) (r_VolumeDir r)
        | None => mkDBConfig "" "" "" "" "" ""
        end).

(** The row that describes the running configuration. *)
Definition orDefault (v dflt : string) : string := if decide (v = "") then dflt else v.

Definition runtimeRow (storeOpts : StoreOptions) : DBConfigRow := {|
  r_SchemaVersion := schemaVersion;
  r_OS := rt_GOOS;
  r_StaticDir := Clean rt_StaticDir;
  r_TmpDir := Clean rt_TmpDir;
  r_GraphRoot := orDefault (Clean (so_GraphRoot rt_storage)) (so_GraphRoot storeOpts);
  r_RunRoot := orDefault (Clean (so_RunRoot rt_storage)) (so_RunRoot storeOpts);
  r_GraphDriver := orDefault (so_GraphDriverName rt_storage) (so_GraphDriverName storeOpts);
  r_VolumeDir := Clean rt_VolumePath |}.

Definition checkField (dbVal ourVal : string) : SM () := when (dbVal ≠ ourVal) ErrDBBadConfig.

Definition SQLite_ValidateDBConfig : SM () :=
  _ ← sCheckValid;
  storeOpts ← lift rt_DefaultStoreOptions;
  let ours := runtimeRow storeOpts in
  row ← Query t_DBConfig;
  match row with
  | None => withTx (Exec_ (insert_DBConfig 1 ours))
  | Some r =>
      _ ← checkField (r_OS r) (r_OS ours);
      _ ← checkField (r_StaticDir r) (r_StaticDir ours);
      _ ← checkField (r_TmpDir r) (r_TmpDir ours);
      _ ← checkField (r_GraphRoot r) (r_GraphRoot ours);
      _ ← checkField (r_RunRoot r) (r_RunRoot ours);
      _ ← checkField (r_GraphDriver r) (r_GraphDriver ours);
      checkField (r_VolumeDir r) (r_VolumeDir ours)
  end.

(** ** Loading objects *)

Definition getCtrConfig (id : string) : SM ContainerConfig :=
  row ← Query (λ db, t_ContainerConfig db !! id);
  r ← orNoRows row (mret ()) ErrNoSuchCtr;
  lift (unmarshal (rc_JSON r)).

(** [finalizeCtrSqlite]: the OCI runtime and the lock of a loaded container. *)
Definition sResolveOCIRuntime (name : string) : SM OCIRuntimeRef :=
  if decide (name = "") then mret DefaultRuntime
  else
    known ← gets (λ w, bool_decide (name ∈ s_ociRuntimes w));
    if known : bool then mret (NamedRuntime name)
    else if String.prefix "/" name && rt_statFile name && rt_newConmonOCIRuntime name then
      _ ← modify (sw_add_ociRuntime name); mret (NamedRuntime name)
    else mret (MissingRuntime name).

Definition finalizeCtrSqlite (config : ContainerConfig) (state : ContainerState) : SM Define.Container :=
  lock ← lift (rt_RetrieveLock (cc_LockID config));
  oci ← sResolveOCIRuntime (cc_OCIRuntime config);
  mret (mkContainer config state true (Some lock) (Some oci)).

Definition createPod (rawJSON : string) : SM Define.Pod :=
  config ← lift (unmarshal rawJSON);
  lock ← lift (rt_RetrieveLock (pc_LockID config));
  mret (mkPod config newpodState true (Some lock)).

Definition finalizeVolumeSqlite (config : VolumeConfig) : SM Define.Volume :=
  lock ← lift (rt_RetrieveLock (vc_LockID config));
  mret (mkVolume config (Some newVolumeState) true None (Some lock)).

(** ** Containers: retrieval *)

Definition SQLite_GetContainerName (id : string) : SM string :=
  _ ← when (id = "") ErrEmptyID;
  _ ← sCheckValid;
  row ← Query (λ db, t_ContainerConfig db !! id);
  r ← orNoRows row (mret ()) ErrNoSuchCtr;
  mret (rc_Name r).

Definition SQLite_GetPodName (id : string) : SM string :=
  _ ← when (id = "") ErrEmptyID;
  _ ← sCheckValid;
  row ← Query (λ db, t_PodConfig db !! id);
  r ← orNoRows row (mret ()) ErrNoSuchPod;
  mret (rp_Name r).

Definition SQLite_Container (id : string) : SM Define.Container :=
  _ ← when (id = "") ErrEmptyID;
  _ ← sCheckValid;
  config ← getCtrConfig id;
  finalizeCtrSqlite config newContainerState.

(** [WHERE Name=? OR (ID LIKE ?)] *)
Definition matchesLookup (idOrName : string) (id name : string) : bool :=
  bool_decide (name = idOrName) || like (idOrName +:+ "%") id.

Definition lookupCtrRows (idOrName : string) (db : Database) : list (string * ContainerConfigRow) :=
  scan (filter (λ kr, matchesLookup idOrName kr.1 (rc_Name kr.2)) (map_to_list (t_ContainerConfig db))).

(** The loop over the rows: one result, or an error. *)
Definition exactlyOne {A} (rows : list A) (none many : error) : SM A :=
  match rows with
  | [] => throw none
  | [r] => mret r
  | _ => throw many
  end.

Definition SQLite_LookupContainerID (idOrName : string) : SM string :=
  _ ← when (idOrName = "") ErrEmptyID;
  _ ← sCheckValid;
  rows ← Query (lookupCtrRows idOrName);
  r ← exactlyOne rows ErrNoSuchCtr ErrCtrExists;
  mret r.1.

Definition SQLite_LookupContainer (idOrName : string) : SM Define.Container :=
  _ ← when (idOrName = "") ErrEmptyID;
  _ ← sCheckValid;
  rows ← Query (lookupCtrRows idOrName);
  r ← exactlyOne rows ErrNoSuchCtr ErrCtrExists;
  config ← lift (unmarshal (rc_JSON r.2));
  finalizeCtrSqlite config newContainerState.

Definition SQLite_HasContainer (id : string) : SM bool :=
  _ ← when (id = "") ErrEmptyID;
  _ ← sCheckValid;
  Query (λ db, bool_decide (is_Some (t_ContainerConfig db !! id))).

(** ** Containers: addition *)

(** [sql.NullString]: empty strings are stored as [NULL]. *)
Definition nullString (s : string) : option string := if decide (s = "") then None else Some s.

(** The checks of [addContainer] on the pod of a dependency. *)
Definition checkDepPod (pod : string) (depPod : option string) : SM () :=
  _ ← when (pod = "" ∧ is_Some depPod) ErrInvalidArg;
  _ ← when (pod ≠ "" ∧ depPod = None) ErrInvalidArg;
  when (pod ≠ "" ∧ default "" depPod ≠ pod) ErrInvalidArg.

(** One iteration over the dependencies; an error of the query other than "no
    rows" is ignored and leaves [depPod] unset. *)
Definition sAddDependency (id pod dep : string) : SM () :=
  row ← catch (Query (λ db, t_ContainerConfig db !! dep));
  depPod ← match row with
           | Ok None => throw ErrNoSuchCtr
           | Ok (Some r) => mret (rc_PodID r)
           | Err _ => mret None
           end;
  _ ← checkDepPod pod depPod;
  Exec_ (insert_ContainerDependency id dep).

Definition sAddContainer (ctr : Define.Container) : SM () :=
  let config := ctr_config ctr in
  let state := ctr_state ctr in
  configJSON ← lift (marshal config);
  stateJSON ← lift (marshal state);
  withTx (
    _ ← Exec_ (insert_IDNamespace (ctr_ID ctr));
    _ ← Exec_ (insert_ContainerConfig (ctr_ID ctr)
                 (mkContainerConfigRow (ctr_Name ctr) (nullString (cc_Pod config)) configJSON));
    _ ← Exec_ (insert_ContainerState (ctr_ID ctr)
                 (mkContainerStateRow (Z.of_nat (ContainerStatus_int (cs_State state))) (cs_ExitCode state) stateJSON));
    _ ← forM_ (Dependencies ctr) (sAddDependency (ctr_ID ctr) (cc_Pod config));
    forM_ (cc_NamedVolumes config) (λ vol, Exec_ (insert_ContainerVolume (ctr_ID ctr) (nv_Name vol)))).

Definition SQLite_AddContainer (ctr : Define.Container) : SM () :=
  _ ← sCheckValid;
  _ ← failIf (negb (ctr_valid ctr)) ErrCtrRemoved;
  _ ← when (cc_Pod (ctr_config ctr) ≠ "") ErrInvalidArg;
  sAddContainer ctr.

(** ** Containers: removal and state *)

Definition removeContainerWithTx (id : string) : SM () :=
  _ ← Exec_ (delete_IDNamespace id);
  _ ← Exec_ (delete_ContainerConfig id);
  _ ← Exec_ (delete_ContainerState id);
  _ ← Exec_ (delete_ContainerDependency id);
  _ ← Exec_ (delete_ContainerVolume id);
  Exec_ (delete_ContainerExecSession_ctr id).

Definition sRemoveContainer (ctr : Define.Container) : SM () :=
  withTx (removeContainerWithTx (ctr_ID ctr)).

Definition SQLite_RemoveContainer (ctr : Define.Container) : SM () :=
  _ ← sCheckValid;
  _ ← when (cc_Pod (ctr_config ctr) ≠ "") ErrPodExists;
  sRemoveContainer ctr.

(** A row that a query should have found; an error other than "no rows" leaves the
    text empty. *)
Definition scanJSON (q : Database → option string) (gone : effect) (e : error) : SM string :=
  row ← catch (Query q);
  match row with
  | Ok (Some j) => mret j
  | Ok None => _ ← sInvalidate gone; throw e
  | Err _ => mret ""
  end.

Definition SQLite_UpdateContainer (ctr : Define.Container) : SM ContainerState :=
  _ ← sCheckValid;
  _ ← failIf (negb (ctr_valid ctr)) ErrCtrRemoved;
  rawJSON ← scanJSON (λ db, rs_JSON <$> t_ContainerState db !! ctr_ID ctr)
              (InvalidateCtr (ctr_ID ctr)) ErrNoSuchCtr;
  lift (unmarshal rawJSON).

(** The statement must affect a row. *)
Definition affecting (stmt : statement) (gone : effect) (e : error) : SM () :=
  rows ← Exec stmt;
  if decide (rows = 0) then _ ← sInvalidate gone; throw e else mret ().

Definition SQLite_SaveContainer (ctr : Define.Container) : SM () :=
  _ ← sCheckValid;
  _ ← failIf (negb (ctr_valid ctr)) ErrCtrRemoved;
  stateJSON ← lift (marshal (ctr_state ctr));
  withTx (affecting (update_ContainerState (ctr_ID ctr) stateJSON) (InvalidateCtr (ctr_ID ctr)) ErrNoSuchCtr).

Definition SQLite_ContainerInUse (ctr : Define.Container) : SM (list string) :=
  _ ← sCheckValid;
  _ ← failIf (negb (ctr_valid ctr)) ErrCtrRemoved;
  Query (λ db, scan (elements (filter (λ p, p.2 = ctr_ID ctr) (t_ContainerDependency db))).*1).

(** Decoding the configurations that a query returned. *)
Definition decodeCtrs (rows : list string) : SM (list (ContainerConfig * ContainerState)) :=
  foldM (λ acc json, config ← lift (unmarshal json); mret (acc ++ [(config, newContainerState)])) [] rows.

Definition finalizeCtrs (l : list (ContainerConfig * ContainerState)) : SM (list Define.Container) :=
  foldM (λ acc cs, ctr ← finalizeCtrSqlite cs.1 cs.2; mret (acc ++ [ctr])) [] l.

(** The rows of the join of [ContainerConfig] and [ContainerState] on [ID]. *)
Definition joinCtrs (db : Database) : list (string * string) :=
  omap (λ kr, s ← t_ContainerState db !! kr.1; Some (rc_JSON kr.2, rs_JSON s)) (map_to_list (t_ContainerConfig db)).

Definition SQLite_AllContainers (loadState : bool) : SM (list Define.Container) :=
  _ ← sCheckValid;
  ctrs ← (if loadState then
            rows ← Query (λ db, scan (joinCtrs db));
            foldM (λ acc r,
              config ← lift (unmarshal r.1);
              state ← lift (unmarshal r.2);
              mret (acc ++ [(config, state)])) [] rows
          else
            rows ← Query (λ db, scan (rc_JSON ∘ snd <$> map_to_list (t_ContainerConfig db)));
            decodeCtrs rows);
  finalizeCtrs ctrs.

(** ** Networks *)

Definition SQLite_GetNetworks (ctr : Define.Container) : SM (option (gmap string PerNetworkOptions)) :=
  _ ← sCheckValid;
  _ ← failIf (negb (ctr_valid ctr)) ErrCtrRemoved;
  if IsBridge (cc_NetMode (ctr_config ctr)) then
    cfg ← catch (getCtrConfig (ctr_ID ctr));
    match cfg with
    | Ok cfg => mret (Some (cc_Networks cfg))
    | Err e => _ ← (if decide (e = ErrNoSuchCtr) then sInvalidate (InvalidateCtr (ctr_ID ctr)) else mret ());
               throw e
    end
  else mret None.

(** [rewriteContainerConfig]: the statement [UPDATE TABLE ...] is not SQL, so the
    engine refuses to prepare it. *)
Definition syntaxError : statement := λ _, Err ErrSQLSyntax.

Definition rewriteContainerConfig (ctr : Define.Container) (newCfg : ContainerConfig) : SM () :=
  _ ← lift (marshal newCfg);
  withTx (
    rows ← Exec syntaxError;
    if decide (rows = 0) then _ ← sInvalidate (InvalidateCtr (ctr_ID ctr)); throw ErrNoSuchCtr
    else mret ()).

(** [networkModify]: the new [ctr.config].  An error of [getCtrConfig] other than
    [ErrNoSuchCtr] leaves [newCfg] nil, and the map of a configuration without
    networks is nil: using the one, or assigning to the other, panics. *)
Definition networkModify (ctr : Define.Container) (network : string) (opts : PerNetworkOptions)
    (new disconnect : bool) : SM ContainerConfig :=
  _ ← sCheckValid;
  _ ← failIf (negb (ctr_valid ctr)) ErrCtrRemoved;
  _ ← when (network = "") ErrInvalidArg;
  _ ← failIf (new && disconnect) ErrInvalidArg;
  cfg ← catch (getCtrConfig (ctr_ID ctr));
  newCfg ← match cfg with
           | Ok cfg => mret cfg
           | Err ErrNoSuchCtr => _ ← sInvalidate (InvalidateCtr (ctr_ID ctr)); throw ErrNoSuchCtr
           | Err _ => throw Panic
           end;
  let ok := bool_decide (is_Some (cc_Networks newCfg !! network)) in
  _ ← failIf (new && ok) ErrNoSuchNetwork;
  _ ← failIf (negb ok && (negb new || disconnect)) ErrNoSuchNetwork;
  newCfg ← (if disconnect then mret (cc_set_Networks (delete network (cc_Networks newCfg)) newCfg)
            else if decide (cc_Networks newCfg = ∅) then throw Panic
            else mret (cc_set_Networks (<[network := opts]> (cc_Networks newCfg)) newCfg));
  _ ← rewriteContainerConfig ctr newCfg;
  mret newCfg.

Definition SQLite_NetworkConnect (ctr : Define.Container) (network : string) (opts : PerNetworkOptions) :=
  networkModify ctr network opts true false.

Definition SQLite_NetworkModify (ctr : Define.Container) (network : string) (opts : PerNetworkOptions) :=
  networkModify ctr network opts false false.

Definition SQLite_NetworkDisconnect (ctr : Define.Container) (network : string) :=
  networkModify ctr network (mkPerNetworkOptions [] [] "" "") false true.

Definition SQLite_GetContainerConfig (id : string) : SM ContainerConfig :=
  _ ← when (id = "") ErrEmptyID;
  _ ← sCheckValid;
  getCtrConfig id.

(** ** Exit codes *)

(** [time.Time.Unix] of a time in nanoseconds *)
Definition Unix (t : Z) : Z := (t / 1000000000)%Z.

Definition SQLite_AddContainerExitCode (id : string) (exitCode : Z) : SM () :=
  _ ← when (id = "") ErrEmptyID;
  _ ← sCheckValid;
  withTx (Exec_ (replace_ContainerExitCode id (mkExitCodeRow (Unix rt_now) exitCode))).

Definition SQLite_GetContainerExitCode (id : string) : SM Z :=
  _ ← when (id = "") ErrEmptyID;
  _ ← sCheckValid;
  row ← Query (λ db, t_ContainerExitCode db !! id);
  r ← orNoRows row (mret ()) ErrNoSuchExitCode;
  mret (re_ExitCode r).

(** The time in nanoseconds *)
Definition SQLite_GetContainerExitCodeTimeStamp (id : string) : SM Z :=
  _ ← when (id = "") ErrEmptyID;
  _ ← sCheckValid;
  row ← Query (λ db, t_ContainerExitCode db !! id);
  r ← orNoRows row (mret ()) ErrNoSuchExitCode;
  mret (re_Timestamp r * 1000000000)%Z.

Definition SQLite_PruneContainerExitCodes : SM () :=
  _ ← sCheckValid;
  let fiveMinsAgo := Unix (rt_now - 5 * 60 * 1000000000) in
  withTx (Exec_ (prune_ContainerExitCode fiveMinsAgo)).

(** ** Exec sessions *)

Definition SQLite_AddExecSession (ctr : Define.Container) (sessionID : string) : SM () :=
  _ ← sCheckValid;
  _ ← failIf (negb (ctr_valid ctr)) ErrCtrRemoved;
  withTx (Exec_ (insert_ContainerExecSession sessionID (ctr_ID ctr))).

Definition SQLite_GetExecSession (id : string) : SM string :=
  _ ← sCheckValid;
  _ ← when (id = "") ErrEmptyID;
  row ← Query (λ db, t_ContainerExecSession db !! id);
  orNoRows row (mret ()) ErrNoSuchExecSession.

Definition SQLite_RemoveExecSession (sessionID : string) : SM () :=
  _ ← sCheckValid;
  withTx (rows ← Exec (delete_ContainerExecSession sessionID);
          when (rows = 0) ErrNoSuchExecSession).

Definition SQLite_GetContainerExecSessions (ctr : Define.Container) : SM (list string) :=
  _ ← sCheckValid;
  _ ← failIf (negb (ctr_valid ctr)) ErrCtrRemoved;
  Query (λ db, scan (filter (λ kv, kv.2 = ctr_ID ctr) (map_to_list (t_ContainerExecSession db))).*1).

Definition SQLite_RemoveContainerExecSessions (ctr : Define.Container) : SM () :=
  _ ← sCheckValid;
  _ ← failIf (negb (ctr_valid ctr)) ErrCtrRemoved;
  withTx (Exec_ (delete_ContainerExecSession_ctr (ctr_ID ctr))).

(** ** Rewriting configurations *)

Definition SQLite_RewriteContainerConfig (ctr : Define.Container) (newCfg : ContainerConfig) : SM () :=
  _ ← sCheckValid;
  _ ← failIf (negb (ctr_valid ctr)) ErrCtrRemoved;
  rewriteContainerConfig ctr newCfg.

Definition SQLite_SafeRewriteContainerConfig (ctr : Define.Container) (oldName newName : string)
    (newCfg : ContainerConfig) : SM () :=
  _ ← sCheckValid;
  _ ← failIf (negb (ctr_valid ctr)) ErrCtrRemoved;
  _ ← when (newName ≠ "" ∧ cc_Name newCfg ≠ newName) ErrInvalidArg;
  _ ← when (newName ≠ "" ∧ oldName = "") ErrInvalidArg;
  rewriteContainerConfig ctr newCfg.

Definition SQLite_RewritePodConfig (pod : Define.Pod) (newCfg : PodConfig) : SM () :=
  _ ← sCheckValid;
  _ ← failIf (negb (pod_valid pod)) ErrPodRemoved;
  json ← lift (marshal newCfg);
  withTx (affecting (update_PodConfig (pod_ID pod) (pc_Name newCfg) json) (InvalidatePod (pod_ID pod)) ErrNoSuchPod).

Definition SQLite_RewriteVolumeConfig (volume : Define.Volume) (newCfg : VolumeConfig) : SM () :=
  _ ← sCheckValid;
  _ ← failIf (negb (vol_valid volume)) ErrVolumeRemoved;
  throw ErrNotImplemented.

(** ** Pods *)

(** The configuration is first decoded as one of a container. *)
Definition SQLite_Pod (id : string) : SM Define.Pod :=
  _ ← when (id = "") ErrEmptyID;
  _ ← sCheckValid;
  row ← Query (λ db, t_PodConfig db !! id);
  r ← orNoRows row (mret ()) ErrNoSuchPod;
  _ ← lift (unmarshal (A:=ContainerConfig) (rp_JSON r));
  createPod (rp_JSON r).

Definition SQLite_LookupPod (idOrName : string) : SM Define.Pod :=
  _ ← when (idOrName = "") ErrEmptyID;
  _ ← sCheckValid;
  rows ← Query (λ db, scan (filter (λ kr, matchesLookup idOrName kr.1 (rp_Name kr.2)) (map_to_list (t_PodConfig db))));
  r ← exactlyOne rows ErrNoSuchPod ErrCtrExists;
  createPod (rp_JSON r.2).

Definition SQLite_HasPod (id : string) : SM bool :=
  _ ← when (id = "") ErrEmptyID;
  _ ← sCheckValid;
  Query (λ db, bool_decide (is_Some (t_PodConfig db !! id))).

(** The rows of [ContainerConfig] with the given [PodID] *)
Definition podRows (pod : string) (db : Database) : list (string * ContainerConfigRow) :=
  filter (λ kr, rc_PodID kr.2 = Some pod) (map_to_list (t_ContainerConfig db)).

Definition SQLite_PodHasContainer (pod : Define.Pod) (id : string) : SM bool :=
  _ ← when (id = "") ErrEmptyID;
  _ ← sCheckValid;
  _ ← failIf (negb (pod_valid pod)) ErrPodRemoved;
  Query (λ db, bool_decide (Exists (λ kr, kr.1 = id) (podRows (pod_ID pod) db))).

Definition SQLite_PodContainersByID (pod : Define.Pod) : SM (list string) :=
  _ ← sCheckValid;
  _ ← failIf (negb (pod_valid pod)) ErrPodRemoved;
  Query (λ db, scan (podRows (pod_ID pod) db).*1).

Definition SQLite_PodContainers (pod : Define.Pod) : SM (list Define.Container) :=
  _ ← sCheckValid;
  _ ← failIf (negb (pod_valid pod)) ErrPodRemoved;
  rows ← Query (λ db, scan (rc_JSON ∘ snd <$> podRows (pod_ID pod) db));
  ctrs ← decodeCtrs rows;
  finalizeCtrs ctrs.

Definition SQLite_AddPod (pod : Define.Pod) : SM () :=
  _ ← sCheckValid;
  _ ← failIf (negb (pod_valid pod)) ErrPodRemoved;
  configJSON ← lift (marshal (pod_config pod));
  stateJSON ← lift (marshal (pod_state pod));
  withTx (
    _ ← Exec_ (insert_IDNamespace (pod_ID pod));
    _ ← Exec_ (insert_PodConfig (pod_ID pod) (mkPodConfigRow (pod_Name pod) configJSON));
    Exec_ (insert_PodState (pod_ID pod)
             (mkPodStateRow (nullString (ps_InfraContainerID (pod_state pod))) stateJSON))).

(** [SELECT 1 FROM ContainerConfig WHERE PodID=? AND ID!=?] finds a row. *)
Definition podHasOthers (pod infra : string) (db : Database) : bool :=
  bool_decide (Exists (λ kr, kr.1 ≠ infra) (podRows pod db)).

Definition SQLite_RemovePod (pod : Define.Pod) : SM () :=
  _ ← sCheckValid;
  _ ← failIf (negb (pod_valid pod)) ErrPodRemoved;
  withTx (
    check ← Query (podHasOthers (pod_ID pod) (ps_InfraContainerID (pod_state pod)));
    _ ← failIf check ErrCtrExists;
    let gone := InvalidatePod (pod_ID pod) in
    _ ← affecting (delete_IDNamespace (pod_ID pod)) gone ErrNoSuchPod;
    _ ← affecting (delete_PodConfig (pod_ID pod)) gone ErrNoSuchPod;
    affecting (delete_PodState (pod_ID pod)) gone ErrNoSuchPod).

(** [RemovePodContainers] returns without committing, or rolling back, its
    transaction when nothing fails. *)
Definition removePodContainersTx (pod : Define.Pod) : SM () := λ w0,
  match io w0 with
  | (Err e, w1) => (Err e, w1)
  | (Ok _, w1) =>
      match (Query (λ db, scan (podRows (pod_ID pod) db).*1) ≫= λ rows,
             forM_ rows removeContainerWithTx ≫= λ _, mret rows) w1 with
      | (Ok rows, w2) => (Ok (), sw_leak (s_db w1) (bool_decide (rows ≠ [])) w2)
      | (Err e, w2) => (Err e, sw_set_db (s_db w1) w2)
      end
  end.

Definition SQLite_RemovePodContainers (pod : Define.Pod) : SM () :=
  _ ← sCheckValid;
  _ ← failIf (negb (pod_valid pod)) ErrPodRemoved;
  removePodContainersTx pod.

Definition SQLite_AddContainerToPod (pod : Define.Pod) (ctr : Define.Container) : SM () :=
  _ ← sCheckValid;
  _ ← failIf (negb (pod_valid pod)) ErrPodRemoved;
  _ ← failIf (negb (ctr_valid ctr)) ErrCtrRemoved;
  _ ← when (cc_Pod (ctr_config ctr) ≠ pod_ID pod) ErrNoSuchCtr;
  sAddContainer ctr.

Definition SQLite_RemoveContainerFromPod (pod : Define.Pod) (ctr : Define.Container) : SM () :=
  _ ← sCheckValid;
  _ ← failIf (negb (pod_valid pod)) ErrPodRemoved;
  _ ← when (cc_Pod (ctr_config ctr) = "") ErrNoSuchPod;
  _ ← when (cc_Pod (ctr_config ctr) ≠ pod_ID pod) ErrInvalidArg;
  sRemoveContainer ctr.

Definition SQLite_UpdatePod (pod : Define.Pod) : SM podState :=
  _ ← sCheckValid;
  _ ← failIf (negb (pod_valid pod)) ErrPodRemoved;
  rawJSON ← scanJSON (λ db, rq_JSON <$> t_PodState db !! pod_ID pod)
              (InvalidatePod (pod_ID pod)) ErrNoSuchPod;
  lift (unmarshal rawJSON).

Definition SQLite_SavePod (pod : Define.Pod) : SM () :=
  _ ← sCheckValid;
  _ ← failIf (negb (pod_valid pod)) ErrPodRemoved;
  stateJSON ← lift (marshal (pod_state pod));
  withTx (affecting (update_PodState (pod_ID pod) stateJSON) (InvalidatePod (pod_ID pod)) ErrNoSuchPod).

Definition SQLite_AllPods : SM (list Define.Pod) :=
  _ ← sCheckValid;
  rows ← Query (λ db, scan (rp_JSON ∘ snd <$> map_to_list (t_PodConfig db)));
  foldM (λ pods rawJSON, pod ← createPod rawJSON; mret (pods ++ [pod])) [] rows.

(** ** Volumes *)

Definition SQLite_AddVolume (volume : Define.Volume) : SM () :=
  _ ← sCheckValid;
  _ ← failIf (negb (vol_valid volume)) ErrVolumeRemoved;
  cfgJSON ← lift (marshal (vol_config volume));
  stateJSON ← lift (marshal (default newVolumeState (vol_state volume)));
  withTx (
    _ ← Exec_ (insert_VolumeConfig (vol_Name volume)
                 (mkVolumeConfigRow (nullString (vc_StorageID (vol_config volume))) cfgJSON));
    Exec_ (insert_VolumeState (vol_Name volume) stateJSON)).

(** [SELECT ContainerID FROM ContainerVolume WHERE VolumeName=?] *)
Definition volumeUsers (name : string) (db : Database) : list string :=
  (elements (filter (λ p, p.2 = name) (t_ContainerVolume db))).*1.

Definition SQLite_RemoveVolume (volume : Define.Volume) : SM () :=
  _ ← sCheckValid;
  withTx (
    ctrs ← Query (λ db, scan (volumeUsers (vol_Name volume) db));
    _ ← when (ctrs ≠ []) ErrVolumeBeingUsed;
    _ ← Exec_ (delete_VolumeConfig (vol_Name volume));
    Exec_ (delete_VolumeState (vol_Name volume))).

Definition SQLite_UpdateVolume (volume : Define.Volume) : SM VolumeState :=
  _ ← sCheckValid;
  _ ← failIf (negb (vol_valid volume)) ErrVolumeRemoved;
  row ← Query (λ db, t_VolumeState db !! vol_Name volume);
  stateJSON ← orNoRows row (sInvalidate (InvalidateVol (vol_Name volume))) ErrNoSuchVolume;
  lift (unmarshal stateJSON).

(** The encoding of a nil state is the text [null]. *)
Definition SQLite_SaveVolume (volume : Define.Volume) : SM () :=
  _ ← sCheckValid;
  _ ← failIf (negb (vol_valid volume)) ErrVolumeRemoved;
  stateJSON ← lift (match vol_state volume with Some s => marshal s | None => Ok "null" end);
  withTx (affecting (update_VolumeState (vol_Name volume) stateJSON)
            (InvalidateVol (vol_Name volume)) ErrNoSuchVolume).

Definition SQLite_AllVolumes : SM (list Define.Volume) :=
  _ ← sCheckValid;
  rows ← Query (λ db, scan (rv_JSON ∘ snd <$> map_to_list (t_VolumeConfig db)));
  foldM (λ volumes configJSON,
    config ← lift (unmarshal configJSON);
    vol ← finalizeVolumeSqlite config;
    mret (volumes ++ [vol])) [] rows.

(** An error of the query other than "no rows" is ignored. *)
Definition SQLite_Volume (name : string) : SM Define.Volume :=
  _ ← when (name = "") ErrEmptyID;
  _ ← sCheckValid;
  row ← catch (Query (λ db, t_VolumeConfig db !! name));
  configJSON ← match row with
               | Ok (Some r) => mret (rv_JSON r)
               | Ok None => throw ErrNoSuchVolume
               | Err _ => mret ""
               end;
  config ← lift (unmarshal configJSON);
  finalizeVolumeSqlite config.

Definition SQLite_LookupVolume (name : string) : SM Define.Volume :=
  _ ← when (name = "") ErrEmptyID;
  _ ← sCheckValid;
  rows ← Query (λ db, scan (filter (λ kr, like (name +:+ "%") kr.1) (map_to_list (t_VolumeConfig db))));
  r ← exactlyOne rows ErrNoSuchVolume ErrVolumeExists;
  config ← lift (unmarshal (rv_JSON r.2));
  finalizeVolumeSqlite config.

Definition SQLite_HasVolume (name : string) : SM bool :=
  _ ← when (name = "") ErrEmptyID;
  _ ← sCheckValid;
  Query (λ db, bool_decide (is_Some (t_VolumeConfig db !! name))).

Definition SQLite_VolumeInUse (volume : Define.Volume) : SM (list string) :=
  _ ← sCheckValid;
  _ ← failIf (negb (vol_valid volume)) ErrVolumeRemoved;
  Query (λ db, scan (volumeUsers (vol_Name volume) db)).

Definition SQLite_ContainerIDIsVolume (id : string) : SM bool :=
  _ ← sCheckValid;
  Query (λ db, bool_decide (id ∈ column rv_StorageID (t_VolumeConfig db))).
End sqlite.
