(* ===== verification/StateSpec.v ===== *)
(** * StateSpec: what a state database promises

    An abstract specification of the interface [State] ([libpod/state.go]) that
    does not mention how the data are stored: a state [AState] maps IDs to
    decoded configurations and states, and [spec] relates a call of the
    interface, the state it starts in, what it returns and the state it leaves,
    when it succeeds.  Who depends on a container, who uses a volume and which
    containers a pod has are not data of their own: they are read off the
    configurations. *)

From S2P Require Import Prelude Define Bolt BoltTx BoltInternal BoltState BoltOps Sqlite SqliteState.

Record AState : Type := mkAState {
  a_ctrs : gmap string (ContainerConfig * ContainerState);
  a_pods : gmap string (PodConfig * podState);
  a_infra : gmap string string;                 (* pod to the infra container it was added with *)
  a_vols : gmap string (VolumeConfig * VolumeState);
  a_sessions : gmap string string;              (* exec session to container *)
  a_exits : gmap string ExitCodeRow;
  a_config : option DBConfigRow }.

Definition a_set_ctrs v a := mkAState v (a_pods a) (a_infra a) (a_vols a) (a_sessions a) (a_exits a) (a_config a).
Definition a_set_pods v i a := mkAState (a_ctrs a) v i (a_vols a) (a_sessions a) (a_exits a) (a_config a).
Definition a_set_vols v a := mkAState (a_ctrs a) (a_pods a) (a_infra a) v (a_sessions a) (a_exits a) (a_config a).
Definition a_set_sessions v a := mkAState (a_ctrs a) (a_pods a) (a_infra a) (a_vols a) v (a_exits a) (a_config a).
Definition a_set_exits v a := mkAState (a_ctrs a) (a_pods a) (a_infra a) (a_vols a) (a_sessions a) v (a_config a).
Definition a_set_config v a := mkAState (a_ctrs a) (a_pods a) (a_infra a) (a_vols a) (a_sessions a) (a_exits a) v.

(** What a call returns. *)
Inductive reply : Type :=
| RUnit
| RString (s : string)
| RBool (b : bool)
| RInt (z : Z)
| RStrings (l : list string)
| RConfig (c : DBConfig)
| RCtr (c : Define.Container)
| RCtrs (l : list Define.Container)
| RCtrConfig (c : ContainerConfig)
| RCtrState (s : ContainerState)
| RNetworks (m : option (gmap string PerNetworkOptions))
| RPod (p : Define.Pod)
| RPods (l : list Define.Pod)
| RPodState (s : podState)
| RVol (v : Define.Volume)
| RVols (l : list Define.Volume)
| RVolState (s : VolumeState).

Section spec.
Context `{Runtime}.

(** ** Relations between objects *)

Definition depends_on (a : AState) (d id : string) : Prop :=
  ∃ c s, a_ctrs a !! d = Some (c, s) ∧ id ∈ config_deps c.
Definition uses_volume (a : AState) (id v : string) : Prop :=
  ∃ c s, a_ctrs a !! id = Some (c, s) ∧ v ∈ nv_Name <$> cc_NamedVolumes c.
Definition member_of (a : AState) (id p : string) : Prop :=
  ∃ c s, a_ctrs a !! id = Some (c, s) ∧ cc_Pod c = p ∧ p ≠ "".

(** ** Loaded objects *)

Definition loads_ctr (c : ContainerConfig) (s : ContainerState) (x : Define.Container) : Prop :=
  ctr_config x = c ∧ ctr_state x = s ∧ ctr_valid x = true ∧
  ∃ l, rt_RetrieveLock (cc_LockID c) = Ok l ∧ ctr_lock x = Some l.
Definition loads_pod (c : PodConfig) (x : Define.Pod) : Prop :=
  pod_config x = c ∧ pod_valid x = true ∧
  ∃ l, rt_RetrieveLock (pc_LockID c) = Ok l ∧ pod_lock x = Some l.
Definition loads_vol (c : VolumeConfig) (x : Define.Volume) : Prop :=
  vol_config x = c ∧ vol_valid x = true ∧
  ∃ l, rt_RetrieveLock (vc_LockID c) = Ok l ∧ vol_lock x = Some l.

(** A listing has one object for each entry that satisfies [P], in any order. *)
Definition lists {A B} (loads : A → B → Prop) (m : gmap string A) (P : string → A → Prop) (l : list B) : Prop :=
  ∃ ids, NoDup ids ∧ (∀ id, id ∈ ids ↔ ∃ x, m !! id = Some x ∧ P id x) ∧
    Forall2 (λ id y, ∃ x, m !! id = Some x ∧ loads x y) ids l.

(** The same for a listing of the IDs alone. *)
Definition lists_ids (P : string → Prop) (l : list string) : Prop := NoDup l ∧ ∀ id, id ∈ l ↔ P id.

(** [id] is the only entry that [idOrName] denotes. *)
Definition denotes {A} (m : gmap string A) (hits : string → A → Prop) (id : string) (x : A) : Prop :=
  m !! id = Some x ∧ hits id x ∧ ∀ id' x', m !! id' = Some x' → hits id' x' → id' = id.

(** ** Additions and removals *)

(** A container can be added when its ID is new and its name is new among the
    containers, and everything it refers to exists; its dependencies must be in the
    same pod ([strict]: unless a fault hides the pod of a dependency). *)
Record can_add_ctr (strict : Prop) (c : ContainerConfig) (s : ContainerState) (a : AState) : Prop := {
  ca_id : a_ctrs a !! cc_ID c = None ∧ a_pods a !! cc_ID c = None;
  ca_name : ∀ id' c' s', a_ctrs a !! id' = Some (c', s') → cc_Name c' ≠ cc_Name c;
  ca_pod : cc_Pod c ≠ "" → is_Some (a_pods a !! cc_Pod c);
  ca_deps : ∀ d, d ∈ config_deps c →
    ∃ c' s', a_ctrs a !! d = Some (c', s') ∧ (strict → cc_Pod c' = cc_Pod c);
  ca_vols : ∀ v, v ∈ nv_Name <$> cc_NamedVolumes c → is_Some (a_vols a !! v);
  ca_vols_nodup : NoDup (nv_Name <$> cc_NamedVolumes c);
  ca_exit : (-1 ≤ cs_ExitCode s ≤ 255)%Z }.

Definition add_ctr (c : ContainerConfig) (s : ContainerState) (a : AState) : AState :=
  a_set_ctrs (<[cc_ID c := (json_view c, s)]> (a_ctrs a)) a.

(** A container can be removed when nothing refers to it. *)
Record can_remove_ctr (id : string) (a : AState) : Prop := {
  cr_deps : ∀ d, ¬ depends_on a d id;
  cr_sessions : ∀ s, a_sessions a !! s ≠ Some id;
  cr_infra : ∀ p, a_infra a !! p ≠ Some id;
  cr_pod : a_pods a !! id = None }.

Definition remove_ctr (id : string) (a : AState) : AState := a_set_ctrs (delete id (a_ctrs a)) a.

(** ** Calls

    [spec strict c a r a']: the call [c] may succeed in [a] with the reply [r] and
    leave [a']. *)

Definition lookup_ctr (x : string) (id : string) (cs : ContainerConfig * ContainerState) : Prop :=
  matchesLookup x id (cc_Name cs.1).
Definition lookup_pod (x : string) (id : string) (ps : PodConfig * podState) : Prop :=
  matchesLookup x id (pc_Name ps.1).

Definition same_config (r ours : DBConfigRow) : Prop :=
  r_OS r = r_OS ours ∧ r_StaticDir r = r_StaticDir ours ∧ r_TmpDir r = r_TmpDir ours ∧
  r_GraphRoot r = r_GraphRoot ours ∧ r_RunRoot r = r_RunRoot ours ∧
  r_GraphDriver r = r_GraphDriver ours ∧ r_VolumeDir r = r_VolumeDir ours.

Definition spec_write (strict : Prop) (c : call) (a a' : AState) : Prop :=
  match c with
  | CRefresh =>
      a' = mkAState (prod_map id resetContainerState <$> a_ctrs a)
             (prod_map id resetPodState <$> a_pods a) (a_infra a)
             (prod_map id resetVolumeState <$> a_vols a) ∅ ∅ (a_config a)
  | CValidateDBConfig => ∃ so, rt_DefaultStoreOptions = Ok so ∧
      match a_config a with
      | None => a' = a_set_config (Some (runtimeRow so)) a
      | Some r => same_config r (runtimeRow so) ∧ a' = a
      end
  | CAddContainer ctr =>
      ctr_valid ctr = true ∧ cc_Pod (ctr_config ctr) = "" ∧
      can_add_ctr strict (ctr_config ctr) (ctr_state ctr) a ∧
      a' = add_ctr (ctr_config ctr) (ctr_state ctr) a
  | CAddContainerToPod pod ctr =>
      pod_valid pod = true ∧ ctr_valid ctr = true ∧ cc_Pod (ctr_config ctr) = pod_ID pod ∧
      can_add_ctr strict (ctr_config ctr) (ctr_state ctr) a ∧
      a' = add_ctr (ctr_config ctr) (ctr_state ctr) a
  | CRemoveContainer ctr =>
      cc_Pod (ctr_config ctr) = "" ∧ can_remove_ctr (ctr_ID ctr) a ∧ a' = remove_ctr (ctr_ID ctr) a
  | CRemoveContainerFromPod pod ctr =>
      pod_valid pod = true ∧ cc_Pod (ctr_config ctr) = pod_ID pod ∧ pod_ID pod ≠ "" ∧
      can_remove_ctr (ctr_ID ctr) a ∧ a' = remove_ctr (ctr_ID ctr) a
  | CSaveContainer ctr => ∃ c s, ctr_valid ctr = true ∧ a_ctrs a !! ctr_ID ctr = Some (c, s) ∧
      a' = a_set_ctrs (<[ctr_ID ctr := (c, ctr_state ctr)]> (a_ctrs a)) a
  | CAddContainerExitCode id code => id ≠ "" ∧ (-1 ≤ code ≤ 255)%Z ∧
      a' = a_set_exits (<[id := mkExitCodeRow (Unix rt_now) code]> (a_exits a)) a
  | CPruneContainerExitCodes =>
      a' = a_set_exits (filter (λ kr, (Unix (rt_now - 5 * 60 * 1000000000) < re_Timestamp kr.2)%Z) (a_exits a)) a
  | CAddExecSession ctr session => ctr_valid ctr = true ∧
      a_sessions a !! es_Id session = None ∧ is_Some (a_ctrs a !! ctr_ID ctr) ∧
      a' = a_set_sessions (<[es_Id session := ctr_ID ctr]> (a_sessions a)) a
  | CRemoveExecSession session => is_Some (a_sessions a !! es_Id session) ∧
      a' = a_set_sessions (delete (es_Id session) (a_sessions a)) a
  | CRemoveContainerExecSessions ctr => ctr_valid ctr = true ∧
      a' = a_set_sessions (filter (λ kv, kv.2 ≠ ctr_ID ctr) (a_sessions a)) a
  | CRewritePodConfig pod newCfg => ∃ c s, pod_valid pod = true ∧ a_pods a !! pod_ID pod = Some (c, s) ∧
      (∀ id' c' s', id' ≠ pod_ID pod → a_pods a !! id' = Some (c', s') → pc_Name c' ≠ pc_Name newCfg) ∧
      a' = a_set_pods (<[pod_ID pod := (newCfg, s)]> (a_pods a)) (a_infra a) a
  | CAddPod pod => pod_valid pod = true ∧
      a_ctrs a !! pod_ID pod = None ∧ a_pods a !! pod_ID pod = None ∧
      (∀ id' c' s', a_pods a !! id' = Some (c', s') → pc_Name c' ≠ pod_Name pod) ∧
      (ps_InfraContainerID (pod_state pod) ≠ "" → is_Some (a_ctrs a !! ps_InfraContainerID (pod_state pod))) ∧
      a' = a_set_pods (<[pod_ID pod := (pod_config pod, pod_state pod)]> (a_pods a))
             (partial_alter (λ _, nullString (ps_InfraContainerID (pod_state pod))) (pod_ID pod) (a_infra a)) a
  | CRemovePod pod => pod_valid pod = true ∧ is_Some (a_pods a !! pod_ID pod) ∧
      (∀ id, ¬ member_of a id (pod_ID pod)) ∧
      a' = a_set_pods (delete (pod_ID pod) (a_pods a)) (delete (pod_ID pod) (a_infra a)) a
  | CSavePod pod => ∃ c s, pod_valid pod = true ∧ a_pods a !! pod_ID pod = Some (c, s) ∧
      a' = a_set_pods (<[pod_ID pod := (c, pod_state pod)]> (a_pods a)) (a_infra a) a
  | CAddVolume volume => vol_valid volume = true ∧ a_vols a !! vol_Name volume = None ∧
      a' = a_set_vols (<[vol_Name volume := (vol_config volume, default newVolumeState (vol_state volume))]> (a_vols a)) a
  | CRemoveVolume volume => (∀ id, ¬ uses_volume a id (vol_Name volume)) ∧
      a' = a_set_vols (delete (vol_Name volume) (a_vols a)) a
  | CSaveVolume volume => ∃ c s s', vol_valid volume = true ∧ a_vols a !! vol_Name volume = Some (c, s) ∧
      vol_state volume = Some s' ∧
      a' = a_set_vols (<[vol_Name volume := (c, s')]> (a_vols a)) a
  | _ => False
  end.

Definition spec_read (c : call) (a : AState) (r : reply) : Prop :=
  match c with
  | CClose => r = RUnit
  | CGetDBConfig => r = RConfig (match a_config a with
                                 | Some r => mkDBConfig (r_StaticDir r) (r_TmpDir r) (r_GraphRoot r)
                                               (r_RunRoot r) (r_GraphDriver r) (r_VolumeDir r)
                                 | None => mkDBConfig "" "" "" "" "" "" end)
  | CGetContainerName id => id ≠ "" ∧ ∃ c s, a_ctrs a !! id = Some (c, s) ∧ r = RString (cc_Name c)
  | CGetPodName id => id ≠ "" ∧ ∃ c s, a_pods a !! id = Some (c, s) ∧ r = RString (pc_Name c)
  | CContainer id => id ≠ "" ∧ ∃ c s x, a_ctrs a !! id = Some (c, s) ∧ loads_ctr c newContainerState x ∧ r = RCtr x
  | CLookupContainerID x => x ≠ "" ∧ ∃ id cs, denotes (a_ctrs a) (lookup_ctr x) id cs ∧ r = RString id
  | CLookupContainer x => x ≠ "" ∧
      ∃ id cs y, denotes (a_ctrs a) (lookup_ctr x) id cs ∧ loads_ctr cs.1 newContainerState y ∧ r = RCtr y
  | CHasContainer id => id ≠ "" ∧ r = RBool (bool_decide (is_Some (a_ctrs a !! id)))
  | CUpdateContainer ctr => ctr_valid ctr = true ∧ ∃ c s, a_ctrs a !! ctr_ID ctr = Some (c, s) ∧ r = RCtrState s
  | CContainerInUse ctr => ctr_valid ctr = true ∧ ∃ l, lists_ids (λ d, depends_on a d (ctr_ID ctr)) l ∧ r = RStrings l
  | CAllContainers loadState => ∃ l, r = RCtrs l ∧
      lists (λ cs, loads_ctr cs.1 (if loadState then cs.2 else newContainerState)) (a_ctrs a) (λ _ _, True) l
  | CGetNetworks ctr => ctr_valid ctr = true ∧
      if IsBridge (cc_NetMode (ctr_config ctr))
      then ∃ c s, a_ctrs a !! ctr_ID ctr = Some (c, s) ∧ r = RNetworks (Some (cc_Networks c))
      else r = RNetworks None
  | CGetContainerConfig id => id ≠ "" ∧ ∃ c s, a_ctrs a !! id = Some (c, s) ∧ r = RCtrConfig c
  | CGetContainerExitCode id => id ≠ "" ∧ ∃ e, a_exits a !! id = Some e ∧ r = RInt (re_ExitCode e)
  | CGetContainerExitCodeTimeStamp id =>
      id ≠ "" ∧ ∃ e, a_exits a !! id = Some e ∧ r = RInt (re_Timestamp e * 1000000000)
  | CGetExecSession id => id ≠ "" ∧ ∃ ctr, a_sessions a !! id = Some ctr ∧ r = RString ctr
  | CGetContainerExecSessions ctr => ctr_valid ctr = true ∧
      ∃ l, lists_ids (λ s, a_sessions a !! s = Some (ctr_ID ctr)) l ∧ r = RStrings l
  | CContainerIDIsVolume id => ∃ b, r = RBool b ∧
      (b = true ↔ id ≠ "" ∧ ∃ v c s, a_vols a !! v = Some (c, s) ∧ vc_StorageID c = id)
  | CPod id => id ≠ "" ∧ ∃ c s x, a_pods a !! id = Some (c, s) ∧ loads_pod c x ∧ r = RPod x
  | CLookupPod x => x ≠ "" ∧
      ∃ id ps y, denotes (a_pods a) (lookup_pod x) id ps ∧ loads_pod ps.1 y ∧ r = RPod y
  | CHasPod id => id ≠ "" ∧ r = RBool (bool_decide (is_Some (a_pods a !! id)))
  | CPodHasContainer pod id => id ≠ "" ∧ pod_valid pod = true ∧
      ∃ b, r = RBool b ∧ (b = true ↔ member_of a id (pod_ID pod))
  | CPodContainersByID pod => pod_valid pod = true ∧
      ∃ l, lists_ids (λ id, member_of a id (pod_ID pod)) l ∧ r = RStrings l
  | CPodContainers pod => pod_valid pod = true ∧ ∃ l, r = RCtrs l ∧
      lists (λ cs, loads_ctr cs.1 newContainerState) (a_ctrs a) (λ id _, member_of a id (pod_ID pod)) l
  | CUpdatePod pod => pod_valid pod = true ∧ ∃ c s, a_pods a !! pod_ID pod = Some (c, s) ∧ r = RPodState s
  | CAllPods => ∃ l, r = RPods l ∧ lists (λ ps, loads_pod ps.1) (a_pods a) (λ _ _, True) l
  | CVolume name => name ≠ "" ∧ ∃ c s x, a_vols a !! name = Some (c, s) ∧ loads_vol c x ∧ r = RVol x
  | CLookupVolume x => x ≠ "" ∧
      ∃ n vs y, denotes (a_vols a) (λ n _, like (x +:+ "%") n) n vs ∧ loads_vol vs.1 y ∧ r = RVol y
  | CHasVolume name => name ≠ "" ∧ r = RBool (bool_decide (is_Some (a_vols a !! name)))
  | CVolumeInUse volume => vol_valid volume = true ∧
      ∃ l, lists_ids (λ id, uses_volume a id (vol_Name volume)) l ∧ r = RStrings l
  | CUpdateVolume volume => vol_valid volume = true ∧
      ∃ c s, a_vols a !! vol_Name volume = Some (c, s) ∧ r = RVolState s
  | CAllVolumes => ∃ l, r = RVols l ∧ lists (λ vs, loads_vol vs.1) (a_vols a) (λ _ _, True) l
  | _ => False
  end.

Definition spec (strict : Prop) (c : call) (a : AState) (r : reply) (a' : AState) : Prop :=
  (spec_write strict c a a' ∧ r = RUnit) ∨ (spec_read c a r ∧ a' = a).

Lemma can_add_ctr_weaken (P Q : Prop) c s a : (Q → P) → can_add_ctr P c s a → can_add_ctr Q c s a.
Proof. intros Hpq []. constructor; try done. intros d Hd. naive_solver. Qed.

Lemma spec_write_weaken (P Q : Prop) c a a' : (Q → P) → spec_write P c a a' → spec_write Q c a a'.
Proof.
  intros Hpq. destruct c; try done; simpl.
  - intros (? & ? & Hc & ?). split_and!; try done. by eapply can_add_ctr_weaken.
  - intros (? & ? & ? & Hc & ?). split_and!; try done. by eapply can_add_ctr_weaken.
Qed.
End spec.
