(* ===== verification/SqliteInv.v ===== *)
(** * SqliteInv: runs of the SQLite state and the consistency of its database

    Inversion of the calls of the engine, the foreign keys as statements about
    rows, the invariant [SInv] of the database, and its abstraction to the
    specification ([abs]). *)

From S2P Require Import Prelude Define Bolt BoltTx BoltInternal BoltState BoltOps Sqlite SqliteState StateSpec.

(** ** Runs *)

Lemma io_run w r w' :
  io w = (r, w') → ∃ l, w' = sw_set_faults l w ∧ (s_faults w = [] → l = []) ∧
    (r = Ok () ∨ r = Err ErrSQL ∧ (s_open w = true → s_faults w ≠ [])).
Proof.
  unfold io. destruct (s_open w) eqn:Ho.
  - destruct (s_faults w) as [|[] l] eqn:Hf; intros [= <- <-].
    + exists []. split_and!; [|done|by left]. destruct w; simpl in *; by subst.
    + exists l. split_and!; [done|done|right; by split].
    + exists l. split_and!; [done|done|by left].
  - intros [= <- <-]. exists (s_faults w). split_and!; [by destruct w|done|right; by split].
Qed.

(** No fault is pending, and the state can be used. *)
Definition ready (w : SWorld) : Prop :=
  s_valid w = true ∧ s_open w = true ∧ s_fk w = true ∧ s_locked w = false ∧ s_faults w = [].

Lemma io_ready w : ready w → io w = (Ok (), w).
Proof. intros (_ & Ho & _ & _ & Hf). unfold io. by rewrite Ho, Hf. Qed.

Lemma Query_Ok {A} (f : Database → A) w a w' :
  Query f w = (Ok a, w') → a = f (s_db w) ∧ ∃ l, w' = sw_set_faults l w ∧ (s_faults w = [] → l = []).
Proof.
  unfold Query. rewrite st_bind_Ok. intros (u & w1 & (l & -> & Hl & _)%io_run & Hg).
  unfold gets in Hg. simplify_eq. split; [done|]. by exists l.
Qed.

Lemma catch_Ok {A} (m : SM A) w r w' : catch m w = (Ok r, w') ↔ m w = (r, w').
Proof. unfold catch. destruct (m w) as [r1 w1]. split; congruence. Qed.

Lemma Query_catch {A} (f : Database → A) w r w' :
  catch (Query f) w = (Ok r, w') →
  (r = Ok (f (s_db w)) ∨ r = Err ErrSQL ∧ (s_open w = true → s_faults w ≠ [])) ∧
  ∃ l, w' = sw_set_faults l w ∧ (s_faults w = [] → l = []).
Proof.
  rewrite catch_Ok. unfold Query, mbind, st_bind, gets. destruct (io w) as [[u|e] w1] eqn:Hio;
    apply io_run in Hio as (l & -> & Hl & Hr); intros [= <- <-]; (split; [|by exists l]).
  - by left.
  - destruct Hr as [?|[[= ->] ?]]; [done|by right].
Qed.

Lemma execute_Ok f w n w' :
  execute f w = (Ok n, w') → ∃ db, f (s_db w) = Ok (n, db) ∧ w' = sw_set_db db w ∧
    s_locked w = false ∧ (s_fk w = true → immediate_ok db = true).
Proof.
  unfold execute. destruct (s_locked w); [done|]. destruct (f (s_db w)) as [[k db]|]; [|done].
  destruct (s_fk w); simpl; [|intros [= -> <-]; by exists db].
  destruct (immediate_ok db) eqn:Hi; [|done]. intros [= -> <-]. by exists db.
Qed.

Lemma Exec_Ok f w n w' :
  Exec f w = (Ok n, w') → ∃ l db, f (s_db w) = Ok (n, db) ∧ w' = sw_set_db db (sw_set_faults l w) ∧
    (s_faults w = [] → l = []) ∧ s_locked w = false ∧ (s_fk w = true → immediate_ok db = true).
Proof.
  unfold Exec. rewrite st_bind_Ok. intros (u & w1 & (l & -> & Hl & _)%io_run & (db & Hf & -> & Hk & Hi)%execute_Ok).
  by exists l, db.
Qed.

Lemma Exec__Ok f w u w' :
  Exec_ f w = (Ok u, w') → ∃ l n db, f (s_db w) = Ok (n, db) ∧ w' = sw_set_db db (sw_set_faults l w) ∧
    (s_faults w = [] → l = []) ∧ s_locked w = false ∧ (s_fk w = true → immediate_ok db = true).
Proof.
  unfold Exec_. rewrite st_bind_Ok. intros (n & w1 & (l & db & ? & -> & ?)%Exec_Ok & Hr).
  unfold mret, st_ret in Hr. simplify_eq. by exists l, n, db.
Qed.

Lemma Commit_Ok w u w' :
  Commit w = (Ok u, w') → ∃ l, w' = sw_set_faults l w ∧ (s_faults w = [] → l = []) ∧
    (s_fk w = true → deferred_ok (s_db w) = true).
Proof.
  unfold Commit, checkDeferred. rewrite st_bind_Ok. intros (u' & w1 & (l & -> & Hl & _)%io_run & Hc).
  exists l. revert Hc. simpl. destruct (s_fk w); simpl; [|intros [= _ <-]; by split_and!].
  destruct (deferred_ok (s_db w)); simpl; [|done]. intros [= _ <-]. by split_and!.
Qed.

Lemma withTx_Ok {A} (body : SM A) w a w' :
  withTx body w = (Ok a, w') → ∃ l w2 l2, body (sw_set_faults l w) = (Ok a, w2) ∧
    w' = sw_set_faults l2 w2 ∧ (s_faults w = [] → l = []) ∧ (s_faults w2 = [] → l2 = []) ∧
    (s_fk w2 = true → deferred_ok (s_db w2) = true) ∧ s_open w = true.
Proof.
  unfold withTx. destruct (io w) as [[u|e] w1] eqn:Hio; [|done].
  assert (Ho : s_open w = true) by (unfold io in Hio; by destruct (s_open w)).
  apply io_run in Hio as (l & -> & Hl & _).
  destruct ((body ≫= _) _) as [[a'|e] w2] eqn:Hb; [|done]. intros [= -> <-].
  apply st_bind_Ok in Hb as (a' & w2' & Hb & Hc). apply st_bind_Ok in Hc as (u' & w3 & Hc & Hr).
  unfold mret, st_ret in Hr. simplify_eq. apply Commit_Ok in Hc as (l2 & -> & Hl2 & Hd).
  by exists l, w2', l2.
Qed.

Lemma withTx_Err {A} (body : SM A) w e w' : withTx body w = (Err e, w') → s_db w' = s_db w.
Proof.
  unfold withTx. destruct (io w) as [[u|e'] w1] eqn:Hio; apply io_run in Hio as (l & -> & _).
  - destruct ((body ≫= _) _) as [[a'|e'] w2]; [done|]. by intros [= _ <-].
  - by intros [= _ <-].
Qed.

Lemma sCheckValid_Ok w u w' : sCheckValid w = (Ok u, w') → w' = w ∧ s_valid w = true.
Proof.
  unfold sCheckValid, mbind, st_bind, gets. destruct (s_valid w); simpl; [|done]. by intros [= _ <-].
Qed.

Lemma orNoRows_Ok {A} (x : option A) m e w a w' :
  orNoRows x m e w = (Ok a, w') → x = Some a ∧ w' = w.
Proof.
  destruct x; simpl; unfold mret, st_ret; [by intros [= -> ->]|].
  rewrite st_bind_Ok. by intros (? & ? & _ & ?).
Qed.

Lemma exactlyOne_Ok {A} (l : list A) none many w a w' :
  exactlyOne l none many w = (Ok a, w') → l = [a] ∧ w' = w.
Proof. destruct l as [|? []]; [done| |done]. simpl. unfold mret, st_ret. by intros [= -> ->]. Qed.

Lemma affecting_Ok f g e w u w' :
  affecting f g e w = (Ok u, w') → ∃ l n db, f (s_db w) = Ok (S n, db) ∧ w' = sw_set_db db (sw_set_faults l w) ∧
    (s_faults w = [] → l = []) ∧ s_locked w = false ∧ (s_fk w = true → immediate_ok db = true).
Proof.
  unfold affecting. rewrite st_bind_Ok. intros (n & w1 & (l & db & Hf & -> & H1)%Exec_Ok & Hr).
  case_decide as Hn.
  - apply st_bind_Ok in Hr as (? & ? & _ & Hr). done.
  - unfold mret, st_ret in Hr. simplify_eq. destruct n as [|n]; [done|]. by exists l, n, db.
Qed.

Lemma sInvalidate_run e w : sInvalidate e w = (Ok (), sw_add_effect e w).
Proof. done. Qed.

(** One step of inverting a successful run. *)
Ltac sq_step :=
  match goal with
  | H : sCheckValid _ = (Ok _, _) |- _ => apply sCheckValid_Ok in H as [-> ?]
  | H : Query _ _ = (Ok _, _) |- _ => apply Query_Ok in H as [-> (? & -> & ?)]
  | H : Exec _ _ = (Ok _, _) |- _ => apply Exec_Ok in H as (? & ? & H & -> & ? & ? & ?)
  | H : Exec_ _ _ = (Ok _, _) |- _ => apply Exec__Ok in H as (? & ? & ? & H & -> & ? & ? & ?)
  | H : affecting _ _ _ _ = (Ok _, _) |- _ => apply affecting_Ok in H as (? & ? & ? & H & -> & ? & ? & ?)
  | H : withTx _ _ = (Ok _, _) |- _ => apply withTx_Ok in H as (? & ? & ? & H & -> & ? & ? & ? & ?)
  | H : orNoRows _ _ _ _ = (Ok _, _) |- _ => apply orNoRows_Ok in H as [? ->]
  | H : exactlyOne _ _ _ _ = (Ok _, _) |- _ => apply exactlyOne_Ok in H as [? ->]
  | H : sInvalidate _ _ = (Ok _, _) |- _ => rewrite sInvalidate_run in H; st_inj H
  | H : negb ?b = false |- _ => apply negb_false_iff in H
  | H : ¬ (_ ≠ _) |- _ => apply dec_stable in H
  | H : (if decide ?P then _ else _) _ = (Ok _, _) |- _ => destruct (decide P)
  | _ => st_step
  end.
Ltac sq_inv := repeat (sq_step; cbn [s_db s_fk s_locked s_faults s_valid s_open sw_set_faults sw_set_db] in * ).

(** ** The foreign keys, row by row *)

Record FKs (db : Database) : Prop := mkFKs {
  k_ctr_id : ∀ id, is_Some (t_ContainerConfig db !! id) → id ∈ t_IDNamespace db;
  k_ctr_state : ∀ id, is_Some (t_ContainerConfig db !! id) → is_Some (t_ContainerState db !! id);
  k_ctr_pod : ∀ id r p, t_ContainerConfig db !! id = Some r → rc_PodID r = Some p → is_Some (t_PodConfig db !! p);
  k_state_ctr : ∀ id, is_Some (t_ContainerState db !! id) → is_Some (t_ContainerConfig db !! id);
  k_exec : ∀ s id, t_ContainerExecSession db !! s = Some id → is_Some (t_ContainerConfig db !! id);
  k_dep_ctr : ∀ id d, (id, d) ∈ t_ContainerDependency db → is_Some (t_ContainerConfig db !! id);
  k_dep : ∀ id d, (id, d) ∈ t_ContainerDependency db → is_Some (t_ContainerConfig db !! d);
  k_vol_ctr : ∀ id v, (id, v) ∈ t_ContainerVolume db → is_Some (t_ContainerConfig db !! id);
  k_vol : ∀ id v, (id, v) ∈ t_ContainerVolume db → is_Some (t_VolumeConfig db !! v);
  k_pod_id : ∀ id, is_Some (t_PodConfig db !! id) → id ∈ t_IDNamespace db;
  k_pod_state : ∀ id, is_Some (t_PodConfig db !! id) → is_Some (t_PodState db !! id);
  k_state_pod : ∀ id, is_Some (t_PodState db !! id) → is_Some (t_PodConfig db !! id);
  k_infra : ∀ p r id, t_PodState db !! p = Some r → rq_InfraContainerID r = Some id → is_Some (t_ContainerConfig db !! id);
  k_vol_state : ∀ v, is_Some (t_VolumeConfig db !! v) → is_Some (t_VolumeState db !! v);
  k_state_vol : ∀ v, is_Some (t_VolumeState db !! v) → is_Some (t_VolumeConfig db !! v) }.

Lemma elem_of_column {R} (f : R → option string) (m : gmap string R) v :
  v ∈ column f m ↔ ∃ k r, m !! k = Some r ∧ f r = Some v.
Proof.
  unfold column. rewrite elem_of_list_to_set, list_elem_of_omap. split.
  - intros ([k r] & Hk%elem_of_map_to_list & Hf). eauto.
  - intros (k & r & Hk%elem_of_map_to_list & Hf). by exists (k, r).
Qed.

Lemma fk_dom_dom {R R'} (m : gmap string R) (m' : gmap string R') :
  dom m ⊆ dom m' ↔ ∀ k, is_Some (m !! k) → is_Some (m' !! k).
Proof. unfold subseteq, set_subseteq_instance. setoid_rewrite elem_of_dom. done. Qed.

Lemma fk_dom_set {R} (m : gmap string R) (X : gset string) :
  dom m ⊆ X ↔ ∀ k, is_Some (m !! k) → k ∈ X.
Proof. unfold subseteq, set_subseteq_instance. setoid_rewrite elem_of_dom. done. Qed.

Lemma fk_column {R R'} (f : R → option string) (m : gmap string R) (m' : gmap string R') :
  column f m ⊆ dom m' ↔ ∀ k r v, m !! k = Some r → f r = Some v → is_Some (m' !! v).
Proof.
  unfold subseteq, set_subseteq_instance. setoid_rewrite elem_of_dom. setoid_rewrite elem_of_column.
  split; [intros Hs k r v Hk Hf; apply Hs; eauto|intros Hs v (k & r & Hk & Hf); eauto].
Qed.

Lemma fk_map {R' : Type} (f : string * string → string) (X : gset (string * string)) (m' : gmap string R') :
  (set_map f X : gset string) ⊆ dom m' ↔ ∀ p, p ∈ X → is_Some (m' !! f p).
Proof.
  unfold subseteq, set_subseteq_instance. setoid_rewrite elem_of_dom. setoid_rewrite elem_of_map.
  split; [intros Hs p Hp; apply Hs; eauto|intros Hs v (p & -> & Hp); eauto].
Qed.

Lemma deferred_ok_iff db : deferred_ok db = true ↔ FKs db.
Proof.
  unfold deferred_ok. rewrite bool_decide_eq_true. unfold foreignKeys, fk_holds, fk_ContainerConfig, fk_ContainerState, fk_ContainerExecSession, fk_ContainerDependency,
    fk_ContainerVolume, fk_PodConfig, fk_PodState, fk_VolumeConfig, fk_VolumeState. cbn [app].
  rewrite !Forall_cons, Forall_nil. cbn. unfold ctrIDs.
  rewrite !fk_dom_dom, !fk_dom_set, !fk_column, !fk_map. split.
  - intros (?&?&?&?&He&Hd&Hd'&Hv&Hv'&?&?&?&?&?&?&_). constructor; try done.
    + intros s id Hs. by eapply He.
    + intros id d. apply Hd.
    + intros id d. apply Hd'.
    + intros id d. apply Hv.
    + intros id d. apply Hv'.
  - intros []. split_and!; try done.
    + intros k r v Hk [= <-]. eauto.
    + intros [] ?. eauto.
    + intros [] ?. eauto.
    + intros [] ?. eauto.
    + intros [] ?. eauto.
Qed.

(** The immediate ones *)
Lemma immediate_ok_iff db : immediate_ok db = true ↔
  (∀ id r p, t_ContainerConfig db !! id = Some r → rc_PodID r = Some p → is_Some (t_PodConfig db !! p)) ∧
  (∀ s id, t_ContainerExecSession db !! s = Some id → is_Some (t_ContainerConfig db !! id)) ∧
  (∀ id d, (id, d) ∈ t_ContainerDependency db → is_Some (t_ContainerConfig db !! d)) ∧
  (∀ id v, (id, v) ∈ t_ContainerVolume db → is_Some (t_VolumeConfig db !! v)).
Proof.
  unfold immediate_ok. rewrite bool_decide_eq_true. unfold foreignKeys, fk_holds, fk_ContainerConfig, fk_ContainerState, fk_ContainerExecSession, fk_ContainerDependency,
    fk_ContainerVolume, fk_PodConfig, fk_PodState, fk_VolumeConfig, fk_VolumeState. cbn [app].
  rewrite !Forall_cons, Forall_nil. cbn. unfold ctrIDs. rewrite !fk_column, !fk_map. split.
  - intros (_&_&Hp&_&He&_&Hd&_&Hv&_). split_and!; [by apply Hp| | |].
    + intros s id Hs. by eapply He.
    + intros id d. by apply Hd.
    + intros id v. by apply Hv.
  - intros (Hp & He & Hd & Hv). split_and!; try done.
    + intros _ k r v Hk [= <-]. eauto.
    + intros _ [] ?. eauto.
    + intros _ [] ?. eauto.
Qed.

Lemma FKs_immediate db : FKs db → immediate_ok db = true.
Proof. intros []. apply immediate_ok_iff. by split_and!. Qed.
