(* ===== verification/SqliteFrame.v ===== *)
(** * SqliteFrame: what the calls of the SQLite state leave alone

    The calls as one interpreter [sexec] of the type [BoltOps.call], and three
    properties that are proved compositionally: a computation keeps the
    connection ([kc]), only reads ([ro]), or changes nothing when it fails
    ([atm]). *)

From S2P Require Import Prelude Define Bolt BoltTx BoltInternal BoltState BoltOps Sqlite SqliteState StateSpec SqliteInv.

(** The fields of the world that no call but [Close] and [RemovePodContainers]
    changes *)
Definition conn (w : SWorld) : bool * bool * bool * bool := (s_valid w, s_open w, s_fk w, s_locked w).

Definition kc {A} (m : SM A) : Prop :=
  ∀ w r w', m w = (r, w') → conn w' = conn w ∧ (s_faults w = [] → s_faults w' = []).
Definition ro {A} (m : SM A) : Prop := ∀ w r w', m w = (r, w') → s_db w' = s_db w.
Definition atm {A} (m : SM A) : Prop := ∀ w e w', m w = (Err e, w') → s_db w' = s_db w.

Lemma kc_pure {A} (m : SM A) : (∀ w, conn (m w).2 = conn w ∧ s_faults (m w).2 = s_faults w) → kc m.
Proof. intros Hm w r w' Hr. specialize (Hm w). rewrite Hr in Hm. destruct Hm as [? Hf]. simpl in *. split; [done|congruence]. Qed.
Lemma ro_pure {A} (m : SM A) : (∀ w, s_db (m w).2 = s_db w) → ro m.
Proof. intros Hm w r w' Hr. specialize (Hm w). by rewrite Hr in Hm. Qed.

Lemma kc_ret {A} (a : A) : kc (mret a).
Proof. by apply kc_pure. Qed.
Lemma kc_lift {A} (a : result error A) : kc (lift a).
Proof. by apply kc_pure. Qed.
Lemma kc_throw {A} e : kc (throw e : SM A).
Proof. by apply kc_pure. Qed.
Lemma kc_failIf b e : kc (failIf b e).
Proof. apply kc_pure. by destruct b. Qed.
Lemma kc_gets {A} (f : SWorld → A) : kc (gets f).
Proof. by apply kc_pure. Qed.
Lemma kc_sInvalidate e : kc (sInvalidate e).
Proof. by apply kc_pure. Qed.
Lemma kc_oci n : kc (modify (sw_add_ociRuntime n)).
Proof. by apply kc_pure. Qed.
Lemma kc_io : kc io.
Proof. intros w r w' (l & -> & Hl & _)%io_run. by split. Qed.
Lemma kc_execute f : kc (execute f).
Proof.
  apply kc_pure. intros w. unfold execute. destruct (s_locked w); [done|]. destruct (f (s_db w)) as [[]|]; [|done].
  by destruct (_ && _).
Qed.
Lemma kc_checkDeferred : kc checkDeferred.
Proof. apply kc_pure. intros w. unfold checkDeferred. by destruct (_ && _). Qed.
Lemma kc_bind {A B} (m : SM A) (f : A → SM B) : kc m → (∀ a, kc (f a)) → kc (m ≫= f).
Proof.
  intros Hm Hf w r w'. unfold mbind, st_bind. destruct (m w) as [[a|e] w1] eqn:Hw; apply Hm in Hw as [Hc Hl].
  - intros [Hc' Hl']%Hf. split; [congruence|auto].
  - by intros [= _ <-].
Qed.
Lemma kc_catch {A} (m : SM A) : kc m → kc (catch m).
Proof. intros Hm w r w'. unfold catch. destruct (m w) as [r1 w1] eqn:Hw. intros [= _ <-]. by eapply Hm. Qed.

Lemma ro_ret {A} (a : A) : ro (mret a).
Proof. by apply ro_pure. Qed.
Lemma ro_lift {A} (a : result error A) : ro (lift a).
Proof. by apply ro_pure. Qed.
Lemma ro_throw {A} e : ro (throw e : SM A).
Proof. by apply ro_pure. Qed.
Lemma ro_failIf b e : ro (failIf b e).
Proof. apply ro_pure. by destruct b. Qed.
Lemma ro_gets {A} (f : SWorld → A) : ro (gets f).
Proof. by apply ro_pure. Qed.
Lemma ro_sInvalidate e : ro (sInvalidate e).
Proof. by apply ro_pure. Qed.
Lemma ro_oci n : ro (modify (sw_add_ociRuntime n)).
Proof. by apply ro_pure. Qed.
Lemma ro_valid b : ro (modify (sw_set_valid b)).
Proof. by apply ro_pure. Qed.
Lemma ro_open b : ro (modify (sw_set_open b)).
Proof. by apply ro_pure. Qed.
Lemma ro_io : ro io.
Proof. intros w r w' (l & -> & Hl & _)%io_run. done. Qed.
Lemma ro_bind {A B} (m : SM A) (f : A → SM B) : ro m → (∀ a, ro (f a)) → ro (m ≫= f).
Proof.
  intros Hm Hf w r w'. unfold mbind, st_bind. destruct (m w) as [[a|e] w1] eqn:Hw; apply Hm in Hw.
  - intros Hr%Hf. congruence.
  - by intros [= _ <-].
Qed.
Lemma ro_catch {A} (m : SM A) : ro m → ro (catch m).
Proof. intros Hm w r w'. unfold catch. destruct (m w) as [r1 w1] eqn:Hw. intros [= _ <-]. by eapply Hm. Qed.

Lemma atm_ro {A} (m : SM A) : ro m → atm m.
Proof. intros Hm w e w'. apply Hm. Qed.
Lemma atm_bind {A B} (m : SM A) (f : A → SM B) : ro m → (∀ a, atm (f a)) → atm (m ≫= f).
Proof.
  intros Hm Hf w e w'. unfold mbind, st_bind. destruct (m w) as [[a|e'] w1] eqn:Hw; apply Hm in Hw.
  - intros Hr%Hf. congruence.
  - by intros [= _ <-].
Qed.
Lemma atm_bind_ret {A B} (m : SM A) (g : A → B) : atm m → atm (m ≫= λ a, mret (g a)).
Proof.
  intros Hm w e w'. rewrite st_bind_Err. intros [?|(a & w1 & _ & Hr)]; [by eapply Hm|].
  unfold mret, st_ret in Hr. done.
Qed.
Lemma atm_withTx {A} (m : SM A) : atm (withTx m).
Proof. intros w e w'. apply withTx_Err. Qed.

#[export] Hint Resolve kc_ret kc_lift kc_throw kc_failIf kc_gets kc_sInvalidate kc_oci kc_io kc_execute
  kc_checkDeferred kc_catch ro_ret ro_lift ro_throw ro_failIf ro_gets ro_sInvalidate ro_oci ro_valid ro_open ro_io
  ro_catch atm_withTx : libpod.
#[export] Hint Extern 1 (kc (_ ≫= _)) => apply kc_bind; [|intros ?] : libpod.
#[export] Hint Extern 1 (ro (_ ≫= _)) => apply ro_bind; [|intros ?] : libpod.
#[export] Hint Extern 1 (atm (_ ≫= _)) => apply atm_bind; [|intros ?] : libpod.
#[export] Hint Extern 1 (kc (match ?x with _ => _ end)) => destruct x : libpod.
#[export] Hint Extern 1 (ro (match ?x with _ => _ end)) => destruct x : libpod.
#[export] Hint Extern 1 (atm (match ?x with _ => _ end)) => destruct x : libpod.
#[export] Hint Extern 3 (atm _) => apply atm_ro : libpod.

Lemma kc_forM {A} (l : list A) (f : A → SM ()) : (∀ x, kc (f x)) → kc (forM_ l f).
Proof. intros Hf. induction l; simpl; auto with libpod. Qed.
Lemma kc_foldM {A B} (f : B → A → SM B) b l : (∀ b x, kc (f b x)) → kc (foldM f b l).
Proof. intros Hf. revert b. induction l; intros b; simpl; auto with libpod. Qed.
Lemma ro_foldM {A B} (f : B → A → SM B) b l : (∀ b x, ro (f b x)) → ro (foldM f b l).
Proof. intros Hf. revert b. induction l; intros b; simpl; auto with libpod. Qed.

Lemma kc_Query {A} (f : Database → A) : kc (Query f).
Proof. unfold Query. auto with libpod. Qed.
Lemma ro_Query {A} (f : Database → A) : ro (Query f).
Proof. unfold Query. auto with libpod. Qed.
Lemma kc_Exec f : kc (Exec f).
Proof. unfold Exec. auto with libpod. Qed.
Lemma kc_Exec_ f : kc (Exec_ f).
Proof. unfold Exec_, Exec. auto with libpod. Qed.
Lemma kc_sCheckValid : kc sCheckValid.
Proof. unfold sCheckValid. auto with libpod. Qed.
Lemma ro_sCheckValid : ro sCheckValid.
Proof. unfold sCheckValid. auto with libpod. Qed.
Lemma kc_orNoRows {A} (x : option A) m e : kc m → kc (orNoRows x m e).
Proof. intros. unfold orNoRows. auto with libpod. Qed.
Lemma ro_orNoRows {A} (x : option A) m e : ro m → ro (orNoRows x m e).
Proof. intros. unfold orNoRows. auto with libpod. Qed.
Lemma kc_exactlyOne {A} (l : list A) e e' : kc (exactlyOne l e e').
Proof. unfold exactlyOne. auto with libpod. Qed.
Lemma ro_exactlyOne {A} (l : list A) e e' : ro (exactlyOne l e e').
Proof. unfold exactlyOne. auto with libpod. Qed.
Lemma kc_scanJSON f g e : kc (scanJSON f g e).
Proof. unfold scanJSON. auto using kc_Query with libpod. Qed.
Lemma ro_scanJSON f g e : ro (scanJSON f g e).
Proof. unfold scanJSON. auto using ro_Query with libpod. Qed.
Lemma kc_affecting f g e : kc (affecting f g e).
Proof. unfold affecting. auto using kc_Exec with libpod. Qed.
Lemma kc_set_db db w : conn (sw_set_db db w) = conn w.
Proof. done. Qed.
Lemma kc_withTx {A} (m : SM A) : kc m → kc (withTx m).
Proof.
  intros Hm w r w'. unfold withTx. destruct (io w) as [[u|e] w1] eqn:Hio; apply kc_io in Hio as [Hc Hl].
  - assert (Hb : kc (m ≫= λ a, Commit ≫= λ _, mret a)) by (unfold Commit; auto with libpod).
    destruct ((m ≫= _) w1) as [[a|e] w2] eqn:Hw; apply Hb in Hw as [Hc' Hl'];
      intros [= _ <-]; (split; [unfold conn in *; simpl; congruence|auto]).
  - by intros [= _ <-].
Qed.

#[export] Hint Resolve kc_forM kc_foldM ro_foldM kc_Query ro_Query kc_Exec kc_Exec_ kc_sCheckValid ro_sCheckValid
  kc_orNoRows ro_orNoRows kc_exactlyOne ro_exactlyOne kc_scanJSON ro_scanJSON kc_affecting kc_withTx : libpod.

(** ** All calls *)

Section sexec.
Context `{Runtime, RowOrder}.

Definition as_reply {A} (f : A → reply) (m : SM A) : SM reply := m ≫= λ a, mret (f a).

Definition unit_reply (m : SM ()) : SM reply := as_reply (λ _, RUnit) m.

Definition sexec (c : call) : SM reply :=
  match c with
  | CClose => unit_reply SQLite_Close
  | CRefresh => unit_reply SQLite_Refresh
  | CGetDBConfig => as_reply RConfig SQLite_GetDBConfig
  | CValidateDBConfig => unit_reply SQLite_ValidateDBConfig
  | CGetContainerName id => as_reply RString (SQLite_GetContainerName id)
  | CGetPodName id => as_reply RString (SQLite_GetPodName id)
  | CContainer id => as_reply RCtr (SQLite_Container id)
  | CLookupContainerID idOrName => as_reply RString (SQLite_LookupContainerID idOrName)
  | CLookupContainer idOrName => as_reply RCtr (SQLite_LookupContainer idOrName)
  | CHasContainer id => as_reply RBool (SQLite_HasContainer id)
  | CAddContainer ctr => unit_reply (SQLite_AddContainer ctr)
  | CRemoveContainer ctr => unit_reply (SQLite_RemoveContainer ctr)
  | CUpdateContainer ctr => as_reply RCtrState (SQLite_UpdateContainer ctr)
  | CSaveContainer ctr => unit_reply (SQLite_SaveContainer ctr)
  | CContainerInUse ctr => as_reply RStrings (SQLite_ContainerInUse ctr)
  | CAllContainers loadState => as_reply RCtrs (SQLite_AllContainers loadState)
  | CGetNetworks ctr => as_reply RNetworks (SQLite_GetNetworks ctr)
  | CNetworkConnect ctr network opts => as_reply RCtrConfig (SQLite_NetworkConnect ctr network opts)
  | CNetworkModify ctr network opts => as_reply RCtrConfig (SQLite_NetworkModify ctr network opts)
  | CNetworkDisconnect ctr network => as_reply RCtrConfig (SQLite_NetworkDisconnect ctr network)
  | CGetContainerConfig id => as_reply RCtrConfig (SQLite_GetContainerConfig id)
  | CAddContainerExitCode id exitCode => unit_reply (SQLite_AddContainerExitCode id exitCode)
  | CGetContainerExitCode id => as_reply RInt (SQLite_GetContainerExitCode id)
  | CGetContainerExitCodeTimeStamp id => as_reply RInt (SQLite_GetContainerExitCodeTimeStamp id)
  | CPruneContainerExitCodes => unit_reply SQLite_PruneContainerExitCodes
  | CAddExecSession ctr session => unit_reply (SQLite_AddExecSession ctr (es_Id session))
  | CGetExecSession id => as_reply RString (SQLite_GetExecSession id)
  | CRemoveExecSession session => unit_reply (SQLite_RemoveExecSession (es_Id session))
  | CGetContainerExecSessions ctr => as_reply RStrings (SQLite_GetContainerExecSessions ctr)
  | CRemoveContainerExecSessions ctr => unit_reply (SQLite_RemoveContainerExecSessions ctr)
  | CContainerIDIsVolume id => as_reply RBool (SQLite_ContainerIDIsVolume id)
  | CRewriteContainerConfig ctr newCfg => unit_reply (SQLite_RewriteContainerConfig ctr newCfg)
  | CSafeRewriteContainerConfig ctr oldName newName newCfg =>
      unit_reply (SQLite_SafeRewriteContainerConfig ctr oldName newName newCfg)
  | CRewritePodConfig pod newCfg => unit_reply (SQLite_RewritePodConfig pod newCfg)
  | CRewriteVolumeConfig volume newCfg => unit_reply (SQLite_RewriteVolumeConfig volume newCfg)
  | CPod id => as_reply RPod (SQLite_Pod id)
  | CLookupPod idOrName => as_reply RPod (SQLite_LookupPod idOrName)
  | CHasPod id => as_reply RBool (SQLite_HasPod id)
  | CPodHasContainer pod id => as_reply RBool (SQLite_PodHasContainer pod id)
  | CPodContainersByID pod => as_reply RStrings (SQLite_PodContainersByID pod)
  | CPodContainers pod => as_reply RCtrs (SQLite_PodContainers pod)
  | CAddPod pod => unit_reply (SQLite_AddPod pod)
  | CRemovePod pod => unit_reply (SQLite_RemovePod pod)
  | CRemovePodContainers pod => unit_reply (SQLite_RemovePodContainers pod)
  | CAddContainerToPod pod ctr => unit_reply (SQLite_AddContainerToPod pod ctr)
  | CRemoveContainerFromPod pod ctr => unit_reply (SQLite_RemoveContainerFromPod pod ctr)
  | CUpdatePod pod => as_reply RPodState (SQLite_UpdatePod pod)
  | CSavePod pod => unit_reply (SQLite_SavePod pod)
  | CAllPods => as_reply RPods SQLite_AllPods
  | CVolume name => as_reply RVol (SQLite_Volume name)
  | CLookupVolume name => as_reply RVol (SQLite_LookupVolume name)
  | CHasVolume name => as_reply RBool (SQLite_HasVolume name)
  | CVolumeInUse volume => as_reply RStrings (SQLite_VolumeInUse volume)
  | CAddVolume volume => unit_reply (SQLite_AddVolume volume)
  | CRemoveVolume volume => unit_reply (SQLite_RemoveVolume volume)
  | CUpdateVolume volume => as_reply RVolState (SQLite_UpdateVolume volume)
  | CSaveVolume volume => unit_reply (SQLite_SaveVolume volume)
  | CAllVolumes => as_reply RVols SQLite_AllVolumes
  end.

Lemma as_reply_Ok {A} (f : A → reply) (m : SM A) w r w' :
  as_reply f m w = (Ok r, w') → ∃ a, m w = (Ok a, w') ∧ r = f a.
Proof.
  unfold as_reply. rewrite st_bind_Ok. intros (a & w1 & Hm & Hr). unfold mret, st_ret in Hr. simplify_eq. by exists a.
Qed.

Lemma as_reply_Err {A} (f : A → reply) (m : SM A) w e w' :
  as_reply f m w = (Err e, w') → m w = (Err e, w').
Proof. unfold as_reply. rewrite st_bind_Err. intros [?|(? & ? & _ & ?)]; done. Qed.

Lemma as_reply_run {A} (f : A → reply) (m : SM A) w a w' :
  m w = (Ok a, w') → as_reply f m w = (Ok (f a), w').
Proof. intros Hm. unfold as_reply. by erewrite st_bind_run. Qed.

Lemma ro_reply {A} (f : A → reply) (m : SM A) : ro m → ro (as_reply f m).
Proof. intros. unfold as_reply. auto with libpod. Qed.
Lemma kc_reply {A} (f : A → reply) (m : SM A) : kc m → kc (as_reply f m).
Proof. intros. unfold as_reply. auto with libpod. Qed.
Lemma atm_reply {A} (f : A → reply) (m : SM A) : atm m → atm (as_reply f m).
Proof. intros Hm w e w' Hr%as_reply_Err. by eapply Hm. Qed.

Lemma kc_finalizeCtr c s : kc (finalizeCtrSqlite c s).
Proof. unfold finalizeCtrSqlite, sResolveOCIRuntime. auto 10 with libpod. Qed.
Lemma ro_finalizeCtr c s : ro (finalizeCtrSqlite c s).
Proof. unfold finalizeCtrSqlite, sResolveOCIRuntime. auto 10 with libpod. Qed.
Lemma kc_getCtrConfig id : kc (getCtrConfig id).
Proof. unfold getCtrConfig. auto with libpod. Qed.
Lemma ro_getCtrConfig id : ro (getCtrConfig id).
Proof. unfold getCtrConfig. auto with libpod. Qed.
Lemma kc_createPod j : kc (createPod j).
Proof. unfold createPod. auto with libpod. Qed.
Lemma ro_createPod j : ro (createPod j).
Proof. unfold createPod. auto with libpod. Qed.
Lemma kc_finalizeVolume c : kc (finalizeVolumeSqlite c).
Proof. unfold finalizeVolumeSqlite. auto with libpod. Qed.
Lemma ro_finalizeVolume c : ro (finalizeVolumeSqlite c).
Proof. unfold finalizeVolumeSqlite. auto with libpod. Qed.
Lemma kc_decodeCtrs l : kc (decodeCtrs l).
Proof. unfold decodeCtrs. auto with libpod. Qed.
Lemma ro_decodeCtrs l : ro (decodeCtrs l).
Proof. unfold decodeCtrs. auto with libpod. Qed.
Lemma kc_finalizeCtrs l : kc (finalizeCtrs l).
Proof. unfold finalizeCtrs. auto using kc_finalizeCtr with libpod. Qed.
Lemma ro_finalizeCtrs l : ro (finalizeCtrs l).
Proof. unfold finalizeCtrs. auto using ro_finalizeCtr with libpod. Qed.
Lemma kc_refreshStates {A} `{Json A} (f : A → A) l : kc (refreshStates f l).
Proof. unfold refreshStates. auto 10 with libpod. Qed.
Lemma ro_refreshStates {A} `{Json A} (f : A → A) l : ro (refreshStates f l).
Proof. unfold refreshStates. auto 10 with libpod. Qed.

#[local] Hint Resolve ro_reply kc_reply atm_reply kc_finalizeCtr ro_finalizeCtr kc_getCtrConfig ro_getCtrConfig
  kc_refreshStates ro_refreshStates kc_createPod ro_createPod kc_finalizeVolume ro_finalizeVolume kc_decodeCtrs
  ro_decodeCtrs kc_finalizeCtrs ro_finalizeCtrs : libpod.

(** Calls that read do not write. *)
Lemma sreads_ro c : reads c = true → ro (sexec c).
Proof.
  destruct c; intros [=]; apply ro_reply;
    unfold SQLite_Close, SQLite_GetDBConfig, SQLite_GetContainerName, SQLite_GetPodName, SQLite_Container,
      SQLite_LookupContainerID, SQLite_LookupContainer, SQLite_HasContainer, SQLite_UpdateContainer,
      SQLite_ContainerInUse, SQLite_AllContainers, SQLite_GetContainerConfig,
      SQLite_GetContainerExitCode, SQLite_GetContainerExitCodeTimeStamp, SQLite_GetExecSession,
      SQLite_GetContainerExecSessions, SQLite_ContainerIDIsVolume, SQLite_Pod, SQLite_LookupPod,
      SQLite_HasPod, SQLite_PodHasContainer, SQLite_PodContainersByID, SQLite_PodContainers, SQLite_UpdatePod,
      SQLite_AllPods, SQLite_Volume, SQLite_LookupVolume, SQLite_HasVolume,
      SQLite_VolumeInUse, SQLite_UpdateVolume, SQLite_AllVolumes;
    auto 16 with libpod.
Qed.

Lemma ro_GetNetworks ctr : ro (SQLite_GetNetworks ctr).
Proof. unfold SQLite_GetNetworks. auto 12 with libpod. Qed.

Lemma atm_rewriteContainerConfig ctr c : atm (rewriteContainerConfig ctr c).
Proof. unfold rewriteContainerConfig. auto with libpod. Qed.

#[local] Hint Resolve atm_rewriteContainerConfig atm_bind_ret : libpod.

Lemma atm_RemovePodContainers pod : atm (SQLite_RemovePodContainers pod).
Proof.
  unfold SQLite_RemovePodContainers. apply atm_bind; [auto with libpod|intros _].
  apply atm_bind; [auto with libpod|intros _]. intros w e w'. unfold removePodContainersTx.
  destruct (io w) as [[u|e'] w1] eqn:Hio; apply ro_io in Hio.
  - destruct ((Query _ ≫= _) w1) as [[l|e'] w2]; [done|]. by intros [= _ <-].
  - by intros [= _ <-].
Qed.

(** A failed call changes nothing. *)
Lemma sexec_atm c : atm (sexec c).
Proof.
  destruct (reads c) eqn:Hr; [by apply atm_ro, sreads_ro|].
  destruct c; try discriminate Hr; clear Hr; apply atm_reply;
    try (by apply atm_ro, ro_GetNetworks); try (by apply atm_RemovePodContainers);
    unfold SQLite_Refresh, SQLite_ValidateDBConfig, checkField, SQLite_AddContainer, sAddContainer,
      SQLite_RemoveContainer, sRemoveContainer, SQLite_SaveContainer, SQLite_NetworkConnect, SQLite_NetworkModify,
      SQLite_NetworkDisconnect, networkModify, SQLite_AddContainerExitCode,
      SQLite_PruneContainerExitCodes, SQLite_AddExecSession, SQLite_RemoveExecSession,
      SQLite_RemoveContainerExecSessions, SQLite_RewriteContainerConfig, SQLite_SafeRewriteContainerConfig,
      SQLite_RewritePodConfig, SQLite_RewriteVolumeConfig, SQLite_AddPod, SQLite_RemovePod,
      SQLite_AddContainerToPod, sAddContainer, SQLite_RemoveContainerFromPod, sRemoveContainer, SQLite_SavePod,
      SQLite_AddVolume, SQLite_RemoveVolume, SQLite_SaveVolume;
    auto 16 with libpod.
Qed.

(** Every call but two leaves the connection as it is. *)
Lemma sexec_kc c : c ≠ CClose → (∀ pod, c ≠ CRemovePodContainers pod) → kc (sexec c).
Proof.
  intros Hc Hp. destruct c; try done; try (by destruct (Hp pod)); clear Hc Hp; apply kc_reply;
    unfold SQLite_GetDBConfig, SQLite_GetContainerName, SQLite_GetPodName, SQLite_Container,
      SQLite_LookupContainerID, SQLite_LookupContainer, SQLite_HasContainer, SQLite_UpdateContainer,
      SQLite_ContainerInUse, SQLite_AllContainers, SQLite_GetContainerConfig, SQLite_GetNetworks,
      SQLite_GetContainerExitCode, SQLite_GetContainerExitCodeTimeStamp, SQLite_GetExecSession,
      SQLite_GetContainerExecSessions, SQLite_ContainerIDIsVolume, SQLite_Pod, SQLite_LookupPod,
      SQLite_HasPod, SQLite_PodHasContainer, SQLite_PodContainersByID, SQLite_PodContainers, SQLite_UpdatePod,
      SQLite_AllPods, SQLite_Volume, SQLite_LookupVolume, SQLite_HasVolume,
      SQLite_VolumeInUse, SQLite_UpdateVolume, SQLite_AllVolumes,
      SQLite_Refresh, SQLite_ValidateDBConfig, checkField, SQLite_AddContainer, SQLite_AddContainerToPod,
      sAddContainer, sAddDependency, checkDepPod, SQLite_RemoveContainer, SQLite_RemoveContainerFromPod,
      sRemoveContainer, removeContainerWithTx, SQLite_SaveContainer, SQLite_NetworkConnect, SQLite_NetworkModify,
      SQLite_NetworkDisconnect, networkModify, SQLite_AddContainerExitCode, SQLite_PruneContainerExitCodes,
      SQLite_AddExecSession, SQLite_RemoveExecSession, SQLite_RemoveContainerExecSessions,
      SQLite_RewriteContainerConfig, SQLite_SafeRewriteContainerConfig, rewriteContainerConfig,
      SQLite_RewritePodConfig, SQLite_RewriteVolumeConfig, SQLite_AddPod, SQLite_RemovePod, SQLite_SavePod,
      SQLite_AddVolume, SQLite_RemoveVolume, SQLite_SaveVolume;
    auto 20 with libpod.
Qed.
End sexec.
