(* ===== verification/SqliteAbs.v ===== *)
(** * SqliteAbs: the invariant of the SQLite database and its abstraction

    [SInv] says that a database satisfies the constraints of the schema and that
    the columns and tables that repeat what a stored configuration says agree with
    it.  [abs] reads the abstract state of [StateSpec] off a database. *)

From S2P Require Import Prelude Define Bolt BoltTx BoltInternal BoltState BoltOps Sqlite SqliteState StateSpec SqliteInv.

Definition okOf {A} (r : result error A) : option A :=
  match r with Ok a => Some a | Err _ => None end.

Lemma okOf_Some {A} (r : result error A) a : okOf r = Some a ↔ r = Ok a.
Proof. destruct r; simpl; split; congruence. Qed.

(** ** Two tables with the same key, decoded *)

Section join.
Context {R S A B : Type} (f : R → option A) (g : S → option B).

Definition join (m : gmap string R) (n : gmap string S) : gmap string (A * B) :=
  map_imap (λ k r, a ← f r; s ← n !! k; b ← g s; Some (a, b)) m.

Lemma lookup_join m n k a b :
  join m n !! k = Some (a, b) ↔ ∃ r s, m !! k = Some r ∧ n !! k = Some s ∧ f r = Some a ∧ g s = Some b.
Proof.
  unfold join. rewrite map_lookup_imap, bind_Some. split.
  - intros (r & Hr & Hx). apply bind_Some in Hx as (a' & Ha & Hx). apply bind_Some in Hx as (s & Hs & Hx).
    apply bind_Some in Hx as (b' & Hb & [= <- <-]). by exists r, s.
  - intros (r & s & Hr & Hs & Ha & Hb). exists r. split; [done|]. by rewrite Ha, Hs; simpl; rewrite Hb.
Qed.

Lemma join_eq m n (x : gmap string (A * B)) :
  (∀ k a b, (∃ r s, m !! k = Some r ∧ n !! k = Some s ∧ f r = Some a ∧ g s = Some b) ↔ x !! k = Some (a, b)) →
  join m n = x.
Proof. intros Hx. apply map_eq. intros k. apply option_eq. intros [a b]. by rewrite lookup_join. Qed.

Lemma join_insert m n k r s a b :
  f r = Some a → g s = Some b → join (<[k := r]> m) (<[k := s]> n) = <[k := (a, b)]> (join m n).
Proof.
  intros Ha Hb. apply join_eq. intros i a' b'. rewrite lookup_insert_Some, lookup_join.
  destruct (decide (k = i)) as [->|Hne].
  - rewrite !lookup_insert_eq. split; [|naive_solver]. intros (? & ? & [= <-] & [= <-] & ? & ?). left. naive_solver.
  - rewrite !lookup_insert_ne by done. naive_solver.
Qed.

Lemma join_delete m n k : join (delete k m) (delete k n) = delete k (join m n).
Proof.
  apply join_eq. intros i a' b'. rewrite lookup_delete_Some, lookup_join.
  setoid_rewrite lookup_delete_Some. naive_solver.
Qed.

Lemma join_insert_r m n k r s a b :
  m !! k = Some r → f r = Some a → g s = Some b → join m (<[k := s]> n) = <[k := (a, b)]> (join m n).
Proof. intros Hr Ha Hb. rewrite <-(insert_id m k r Hr) at 1. by apply join_insert. Qed.

Lemma join_insert_l m n k r s a b :
  n !! k = Some s → f r = Some a → g s = Some b → join (<[k := r]> m) n = <[k := (a, b)]> (join m n).
Proof. intros Hr Ha Hb. rewrite <-(insert_id n k s Hr) at 1. by apply join_insert. Qed.

Lemma is_Some_join m n k :
  (∀ r, m !! k = Some r → is_Some (f r)) → (∀ r, m !! k = Some r → ∃ s, n !! k = Some s ∧ is_Some (g s)) →
  is_Some (join m n !! k) ↔ is_Some (m !! k).
Proof.
  intros Hf Hn. split.
  - intros [[a b] (r & s & Hr & _)%lookup_join]. by exists r.
  - intros [r Hr]. destruct (Hf r Hr) as [a Ha]. destruct (Hn r Hr) as (s & Hs & [b Hb]).
    exists (a, b). apply lookup_join. by exists r, s.
Qed.
End join.

(** Decoding again after every state was replaced *)
Lemma join_fmap_r {R S A B} (f : R → option A) (g : S → option B) (m : gmap string R) (n n' : gmap string S) h :
  (∀ k s, n !! k = Some s → ∃ s' b, n' !! k = Some s' ∧ g s = Some b ∧ g s' = Some (h b)) →
  (∀ k s', n' !! k = Some s' → is_Some (n !! k)) →
  join f g m n' = prod_map id h <$> join f g m n.
Proof.
  intros Hn Hn'. apply join_eq. intros k a b. rewrite lookup_fmap, fmap_Some. split.
  - intros (r & s' & Hr & Hs' & Ha & Hb). destruct (Hn' k s' Hs') as [s Hs].
    destruct (Hn k s Hs) as (s2 & b' & Hs2 & Hg & Hg'). simplify_eq.
    exists (a, b'). split; [|done]. apply lookup_join. by exists r, s.
  - intros ([a' b'] & (r & s & Hr & Hs & Ha & Hb)%lookup_join & [= -> ->]).
    destruct (Hn k s Hs) as (s2 & b2 & Hs2 & Hg & Hg'). simplify_eq. by exists r, s2.
Qed.

Section abs.
Context `{Runtime}.

Definition decCtr (r : ContainerConfigRow) : option ContainerConfig := okOf (unmarshal (rc_JSON r)).
Definition decCtrState (r : ContainerStateRow) : option ContainerState := okOf (unmarshal (rs_JSON r)).
Definition decPod (r : PodConfigRow) : option PodConfig := okOf (unmarshal (rp_JSON r)).
Definition decPodState (r : PodStateRow) : option podState := okOf (unmarshal (rq_JSON r)).
Definition decVol (r : VolumeConfigRow) : option VolumeConfig := okOf (unmarshal (rv_JSON r)).
Definition decVolState (r : string) : option VolumeState := okOf (unmarshal r).

Definition abs (db : Database) : AState := {|
  a_ctrs := join decCtr decCtrState (t_ContainerConfig db) (t_ContainerState db);
  a_pods := join decPod decPodState (t_PodConfig db) (t_PodState db);
  a_infra := omap rq_InfraContainerID (t_PodState db);
  a_vols := join decVol decVolState (t_VolumeConfig db) (t_VolumeState db);
  a_sessions := t_ContainerExecSession db;
  a_exits := t_ContainerExitCode db;
  a_config := t_DBConfig db |}.

(** The columns of a container, and its rows in the tables of dependencies and
    volumes, are those of its configuration [c]. *)
Record ctr_row (db : Database) (id : string) (r : ContainerConfigRow) (c : ContainerConfig) : Prop := {
  cw_dec : unmarshal (rc_JSON r) = Ok c;
  cw_id : cc_ID c = id;
  cw_name : cc_Name c = rc_Name r;
  cw_pod : rc_PodID r = nullString (cc_Pod c);
  cw_deps : ∀ d, (id, d) ∈ t_ContainerDependency db ↔ d ∈ config_deps c;
  cw_vols : ∀ v, (id, v) ∈ t_ContainerVolume db ↔ v ∈ nv_Name <$> cc_NamedVolumes c }.

Record SInv (db : Database) : Prop := {
  si_fks : FKs db;
  si_names : ∀ i j r r', t_ContainerConfig db !! i = Some r → t_ContainerConfig db !! j = Some r' →
    rc_Name r = rc_Name r' → i = j;
  si_podnames : ∀ i j r r', t_PodConfig db !! i = Some r → t_PodConfig db !! j = Some r' →
    rp_Name r = rp_Name r' → i = j;
  si_exit : ∀ id r, t_ContainerState db !! id = Some r → exitCodeCheck (rs_ExitCode r) = true;
  si_exits : ∀ id r, t_ContainerExitCode db !! id = Some r → exitCodeCheck (re_ExitCode r) = true;
  si_self : ∀ id d, (id, d) ∈ t_ContainerDependency db → id ≠ d;
  si_ids : ∀ id, id ∈ t_IDNamespace db ↔ is_Some (t_ContainerConfig db !! id) ∨ is_Some (t_PodConfig db !! id);
  si_disj : ∀ id, is_Some (t_ContainerConfig db !! id) → ¬ is_Some (t_PodConfig db !! id);
  si_ctr : ∀ id r, t_ContainerConfig db !! id = Some r → ∃ c, ctr_row db id r c;
  si_ctrstate : ∀ id r, t_ContainerState db !! id = Some r → is_Some (decCtrState r);
  si_pod : ∀ id r, t_PodConfig db !! id = Some r →
    ∃ c, unmarshal (rp_JSON r) = Ok c ∧ pc_ID c = id ∧ pc_Name c = rp_Name r;
  si_podstate : ∀ id r, t_PodState db !! id = Some r → is_Some (decPodState r);
  si_vol : ∀ v r, t_VolumeConfig db !! v = Some r →
    ∃ c, unmarshal (rv_JSON r) = Ok c ∧ vc_Name c = v ∧ rv_StorageID r = nullString (vc_StorageID c);
  si_volstate : ∀ v r, t_VolumeState db !! v = Some r → is_Some (decVolState r) }.

Lemma SInv_empty : SInv emptyDatabase.
Proof.
  constructor; simpl; try (intros; by rewrite lookup_empty in * ); try (intros; set_solver).
  - constructor; simpl; try (by intros ? [? Hx]; rewrite lookup_empty in Hx);
      try (intros; by rewrite lookup_empty in * ); set_solver.
  - intros id. rewrite !lookup_empty. split; [set_solver|]. by intros [[? [=]]|[? [=]]].
Qed.

Context {db : Database} (HI : SInv db).

Lemma abs_ctr id c s :
  a_ctrs (abs db) !! id = Some (c, s) ↔
  ∃ r t, t_ContainerConfig db !! id = Some r ∧ t_ContainerState db !! id = Some t ∧
    ctr_row db id r c ∧ unmarshal (rs_JSON t) = Ok s.
Proof using HI.
  simpl. rewrite lookup_join. split.
  - intros (r & t & Hr & Ht & Hc%okOf_Some & Hs%okOf_Some). exists r, t. split_and!; [done|done| |done].
    destruct (si_ctr _ HI id r Hr) as [c' Hc']. replace c with c'; [done|].
    pose proof (cw_dec _ _ _ _ Hc'). congruence.
  - intros (r & t & Hr & Ht & Hc & Hs). exists r, t. split_and!; [done|done| |by apply okOf_Some].
    apply okOf_Some, (cw_dec _ _ _ _ Hc).
Qed.

Lemma abs_ctr_row id r :
  t_ContainerConfig db !! id = Some r →
  ∃ c s t, a_ctrs (abs db) !! id = Some (c, s) ∧ t_ContainerState db !! id = Some t ∧
    ctr_row db id r c ∧ unmarshal (rs_JSON t) = Ok s.
Proof using HI.
  intros Hr. destruct (si_ctr _ HI id r Hr) as [c Hc].
  destruct (k_ctr_state _ (si_fks _ HI) id) as [t Ht]; [by eauto|].
  destruct (si_ctrstate _ HI id t Ht) as [s Hs%okOf_Some].
  exists c, s, t. split_and!; [|done|done|done]. apply abs_ctr. by exists r, t.
Qed.

Lemma abs_ctr_Some id : is_Some (a_ctrs (abs db) !! id) ↔ is_Some (t_ContainerConfig db !! id).
Proof using HI.
  split.
  - intros [[c s] (r & t & Hr & _)%abs_ctr]. by exists r.
  - intros [r (c & s & t & Hc & _)%abs_ctr_row]. by exists (c, s).
Qed.

Lemma abs_ctr_None id : a_ctrs (abs db) !! id = None ↔ t_ContainerConfig db !! id = None.
Proof using HI. by rewrite !eq_None_not_Some, abs_ctr_Some. Qed.

Lemma abs_pod id c s :
  a_pods (abs db) !! id = Some (c, s) ↔
  ∃ r t, t_PodConfig db !! id = Some r ∧ t_PodState db !! id = Some t ∧
    unmarshal (rp_JSON r) = Ok c ∧ pc_ID c = id ∧ pc_Name c = rp_Name r ∧ unmarshal (rq_JSON t) = Ok s.
Proof using HI.
  simpl. rewrite lookup_join. split.
  - intros (r & t & Hr & Ht & Hc%okOf_Some & Hs%okOf_Some). exists r, t.
    destruct (si_pod _ HI id r Hr) as (c' & Hc' & ? & ?). assert (c' = c) as -> by congruence. done.
  - intros (r & t & Hr & Ht & Hc & _ & _ & Hs). exists r, t. split_and!; [done|done|by apply okOf_Some..].
Qed.

Lemma abs_pod_row id r :
  t_PodConfig db !! id = Some r →
  ∃ c s t, a_pods (abs db) !! id = Some (c, s) ∧ t_PodState db !! id = Some t ∧
    unmarshal (rp_JSON r) = Ok c ∧ pc_ID c = id ∧ pc_Name c = rp_Name r ∧ unmarshal (rq_JSON t) = Ok s.
Proof using HI.
  intros Hr. destruct (si_pod _ HI id r Hr) as (c & Hc & Hid & Hn).
  destruct (k_pod_state _ (si_fks _ HI) id) as [t Ht]; [by eauto|].
  destruct (si_podstate _ HI id t Ht) as [s Hs%okOf_Some].
  exists c, s, t. split_and!; [|done..]. apply abs_pod. by exists r, t.
Qed.

Lemma abs_pod_Some id : is_Some (a_pods (abs db) !! id) ↔ is_Some (t_PodConfig db !! id).
Proof using HI.
  split.
  - intros [[c s] (r & t & Hr & _)%abs_pod]. by exists r.
  - intros [r (c & s & t & Hc & _)%abs_pod_row]. by exists (c, s).
Qed.

Lemma abs_pod_None id : a_pods (abs db) !! id = None ↔ t_PodConfig db !! id = None.
Proof using HI. by rewrite !eq_None_not_Some, abs_pod_Some. Qed.

Lemma abs_vol v c s :
  a_vols (abs db) !! v = Some (c, s) ↔
  ∃ r t, t_VolumeConfig db !! v = Some r ∧ t_VolumeState db !! v = Some t ∧
    unmarshal (rv_JSON r) = Ok c ∧ rv_StorageID r = nullString (vc_StorageID c) ∧ unmarshal t = Ok s.
Proof using HI.
  simpl. rewrite lookup_join. split.
  - intros (r & t & Hr & Ht & Hc%okOf_Some & Hs%okOf_Some). exists r, t.
    destruct (si_vol _ HI v r Hr) as (c' & Hc' & ? & ?). assert (c' = c) as -> by congruence. done.
  - intros (r & t & Hr & Ht & Hc & _ & Hs). exists r, t. split_and!; [done|done|by apply okOf_Some..].
Qed.

Lemma abs_vol_row v r :
  t_VolumeConfig db !! v = Some r →
  ∃ c s t, a_vols (abs db) !! v = Some (c, s) ∧ t_VolumeState db !! v = Some t ∧
    unmarshal (rv_JSON r) = Ok c ∧ rv_StorageID r = nullString (vc_StorageID c) ∧ unmarshal t = Ok s.
Proof using HI.
  intros Hr. destruct (si_vol _ HI v r Hr) as (c & Hc & _ & Hn).
  destruct (k_vol_state _ (si_fks _ HI) v) as [t Ht]; [by eauto|].
  destruct (si_volstate _ HI v t Ht) as [s Hs%okOf_Some].
  exists c, s, t. split_and!; [|done..]. apply abs_vol. by exists r, t.
Qed.

Lemma abs_vol_Some v : is_Some (a_vols (abs db) !! v) ↔ is_Some (t_VolumeConfig db !! v).
Proof using HI.
  split.
  - intros [[c s] (r & t & Hr & _)%abs_vol]. by exists r.
  - intros [r (c & s & t & Hc & _)%abs_vol_row]. by exists (c, s).
Qed.

Lemma abs_vol_None v : a_vols (abs db) !! v = None ↔ t_VolumeConfig db !! v = None.
Proof using HI. by rewrite !eq_None_not_Some, abs_vol_Some. Qed.

(** The tables of dependencies, volumes and pods say what the configurations say. *)
Lemma abs_depends d id : (d, id) ∈ t_ContainerDependency db ↔ depends_on (abs db) d id.
Proof using HI.
  split.
  - intros Hd. destruct (k_dep_ctr _ (si_fks _ HI) d id Hd) as [r Hr].
    destruct (abs_ctr_row d r Hr) as (c & s & t & Hc & _ & Hw & _). exists c, s. split; [done|].
    by apply (cw_deps _ _ _ _ Hw).
  - intros (c & s & (r & t & _ & _ & Hw & _)%abs_ctr & Hd). by apply (cw_deps _ _ _ _ Hw).
Qed.

Lemma abs_uses id v : (id, v) ∈ t_ContainerVolume db ↔ uses_volume (abs db) id v.
Proof using HI.
  split.
  - intros Hd. destruct (k_vol_ctr _ (si_fks _ HI) id v Hd) as [r Hr].
    destruct (abs_ctr_row id r Hr) as (c & s & t & Hc & _ & Hw & _). exists c, s. split; [done|].
    by apply (cw_vols _ _ _ _ Hw).
  - intros (c & s & (r & t & _ & _ & Hw & _)%abs_ctr & Hd). by apply (cw_vols _ _ _ _ Hw).
Qed.

Lemma nullString_Some s p : nullString s = Some p ↔ s = p ∧ p ≠ "".
Proof using. unfold nullString. case_decide; split; intros Hx; naive_solver. Qed.

Lemma abs_member id p :
  (∃ r, t_ContainerConfig db !! id = Some r ∧ rc_PodID r = Some p) ↔ member_of (abs db) id p.
Proof using HI.
  split.
  - intros (r & Hr & Hp). destruct (abs_ctr_row id r Hr) as (c & s & t & Hc & _ & Hw & _).
    rewrite (cw_pod _ _ _ _ Hw), nullString_Some in Hp. exists c, s. by destruct Hp.
  - intros (c & s & (r & t & Hr & _ & Hw & _)%abs_ctr & Hp & Hne). exists r. split; [done|].
    by rewrite (cw_pod _ _ _ _ Hw), nullString_Some.
Qed.
End abs.
