(* ===== verification/SqliteWrites.v ===== *)
(** * SqliteWrites: the effect of the calls that write

    For each call that writes, a successful run leaves a consistent database and
    does what the specification says. *)

From S2P Require Import Prelude Define Bolt BoltTx BoltInternal BoltState BoltOps Sqlite SqliteState.
From S2P Require Import StateSpec SqliteInv SqliteFrame SqliteAbs.

(** ** Statements *)

Lemma constraint_Ok b db n db' : constraint b db = Ok (n, db') → b = true ∧ n = 1 ∧ db' = db.
Proof. unfold constraint. destruct b; [|done]. by intros [= <- <-]. Qed.

Create HintDb stmt.
#[export] Hint Unfold insert_DBConfig insert_IDNamespace insert_ContainerConfig insert_ContainerState
  insert_ContainerExecSession insert_ContainerDependency insert_ContainerVolume replace_ContainerExitCode
  insert_PodConfig insert_PodState insert_VolumeConfig insert_VolumeState delete_IDNamespace delete_ContainerConfig
  delete_ContainerState delete_ContainerDependency delete_ContainerVolume delete_ContainerExecSession_ctr
  delete_ContainerExecSession delete_all_ContainerExecSession delete_all_ContainerExitCode prune_ContainerExitCode
  delete_PodConfig delete_PodState delete_VolumeConfig delete_VolumeState update_ContainerState update_PodState
  update_VolumeState update_PodConfig : stmt.

Ltac stmt_step :=
  match goal with
  | H : _ = @Ok error (nat * Database) _ |- _ => progress autounfold with stmt in H
  | H : constraint _ _ = Ok _ |- _ => apply constraint_Ok in H as (H & _ & ->)
  | H : andb _ _ = true |- _ => apply andb_true_iff in H as [? H]
  | H : @Ok error (nat * Database) _ = Ok _ |- _ => injection H as ? <-
  | H : @Ok error (nat * Database) _ = Ok _ |- _ => injection H as <-
  end.
Ltac sq_run := repeat (first [sq_step | stmt_step];
  cbn [s_db s_fk s_locked s_faults s_valid s_open sw_set_faults sw_set_db] in * ).

Lemma unique_true {R} (f : R → string) id v (m : gmap string R) :
  unique f id v m = true ↔ ∀ k r, m !! k = Some r → k ≠ id → f r ≠ v.
Proof. unfold unique. rewrite bool_decide_eq_true. done. Qed.

Lemma hits_S {R} (m : gmap string R) k n : hits m k = S n → is_Some (m !! k).
Proof. unfold hits. destruct (m !! k); [by eauto|done]. Qed.

Lemma exitCodeCheck_iff c : exitCodeCheck c = true ↔ (-1 ≤ c ≤ 255)%Z.
Proof. unfold exitCodeCheck. rewrite andb_true_iff, !Z.leb_le. done. Qed.

(** ** Adding a container *)

Section add.
Context `{RuntimeLaws}.

Lemma checkDepPod_Ok pod dp w u w' :
  checkDepPod pod dp w = (Ok u, w') → w' = w ∧ dp = nullString pod.
Proof.
  unfold checkDepPod. rewrite st_bind_Ok. intros (u1 & w1 & [H1%bool_decide_eq_false ->]%failIf_Ok & Hr).
  apply st_bind_Ok in Hr as (u2 & w2 & [H2%bool_decide_eq_false ->]%failIf_Ok & [H3%bool_decide_eq_false ->]%failIf_Ok).
  split; [done|]. unfold nullString. destruct dp as [p|]; case_decide; simpl in *; try done.
  - destruct H1. by eauto.
  - f_equal. apply dec_stable. intros Hn. by destruct H3.
  - by destruct H2.
Qed.

Lemma sAddDependency_Ok id pod d w u w' :
  s_fk w = true → s_open w = true → sAddDependency id pod d w = (Ok u, w') →
  ∃ l, w' = sw_set_faults l (sw_set_db
         (set_ContainerDependency ({[(id, d)]} ∪ t_ContainerDependency (s_db w)) (s_db w)) w) ∧
    (s_faults w = [] → l = []) ∧ d ≠ id ∧
    ∃ r, t_ContainerConfig (s_db w) !! d = Some r ∧ (s_faults w = [] → rc_PodID r = nullString pod).
Proof.
  intros Hfk Ho. unfold sAddDependency. rewrite st_bind_Ok.
  intros (row & w1 & [Hrow (l & -> & Hl)]%Query_catch & Hr).
  apply st_bind_Ok in Hr as (dp & w2 & Hdp & Hr). apply st_bind_Ok in Hr as (u1 & w3 & [-> Hpod]%checkDepPod_Ok & Hr).
  assert (w2 = sw_set_faults l w) as -> by (destruct row as [[]|]; unfold mret, st_ret, throw in Hdp; congruence).
  sq_run. eexists. split; [reflexivity|]. split; [auto|]. split; [congruence|].
  match goal with Hi : _ → immediate_ok _ = true |- _ => specialize (Hi Hfk); apply immediate_ok_iff in Hi as (_ & _ & Hd & _) end.
  destruct (Hd id d) as [r Hrr]; [simpl; set_solver|]. simpl in Hrr. exists r. split; [done|].
  intros Hf. rewrite <-Hpod. destruct Hrow as [-> |[-> Hne]]; [|by destruct Hne].
  rewrite Hrr in Hdp. unfold mret, st_ret in Hdp. congruence.
Qed.

Lemma sAddDeps_Ok id pod ds w u w' :
  s_fk w = true → s_open w = true → forM_ ds (sAddDependency id pod) w = (Ok u, w') →
  ∃ l, w' = sw_set_faults l (sw_set_db
         (set_ContainerDependency (list_to_set ((id,.) <$> ds) ∪ t_ContainerDependency (s_db w)) (s_db w)) w) ∧
    (s_faults w = [] → l = []) ∧
    ∀ d, d ∈ ds → d ≠ id ∧
      ∃ r, t_ContainerConfig (s_db w) !! d = Some r ∧ (s_faults w = [] → rc_PodID r = nullString pod).
Proof.
  intros Hfk Ho. revert w Hfk Ho. induction ds as [|d ds IH]; intros w Hfk Ho; simpl.
  - unfold mret, st_ret. intros [= _ <-]. exists (s_faults w). split_and!; [|done|by intros ? ?%elem_of_nil].
    destruct w as [???? [] ???]. unfold sw_set_db, sw_set_faults, set_ContainerDependency. simpl. by rewrite union_empty_l_L.
  - rewrite st_bind_Ok. intros (u1 & w1 & (l1 & -> & Hl1 & Hne & Hd)%sAddDependency_Ok & Hr); [|done..].
    apply IH in Hr as (l2 & -> & Hl2 & Hds); [|done..]. simpl in *. exists l2. split_and!.
    + unfold sw_set_db, sw_set_faults, set_ContainerDependency. simpl.
      by rewrite assoc_L, (comm_L _ {[(id, d)]}) by apply _.
    + auto.
    + intros d' [-> |Hd']%elem_of_cons; [by split|]. destruct (Hds d' Hd') as (? & r & ? & Hp). eauto 10.
Qed.

(** The rows of the table of volumes *)
Lemma sAddVols_Ok id (vs : list ContainerNamedVolume) w u w' :
  forM_ vs (λ v, Exec_ (insert_ContainerVolume id (nv_Name v))) w = (Ok u, w') →
  ∃ l, w' = sw_set_faults l (sw_set_db
         (set_ContainerVolume (list_to_set ((id,.) <$> (nv_Name <$> vs)) ∪ t_ContainerVolume (s_db w)) (s_db w)) w) ∧
    (s_faults w = [] → l = []) ∧
    NoDup (nv_Name <$> vs) ∧ ∀ v, v ∈ nv_Name <$> vs → (id, v) ∉ t_ContainerVolume (s_db w).
Proof.
  revert w. induction vs as [|v vs IH]; intros w; simpl.
  - unfold mret, st_ret. intros [= _ <-]. exists (s_faults w). split_and!; [|done|constructor|by intros ? ?%elem_of_nil].
    destruct w as [???? [] ???]. unfold sw_set_db, sw_set_faults, set_ContainerVolume. simpl. by rewrite union_empty_l_L.
  - rewrite st_bind_Ok. intros (u1 & w1 & H1 & Hr). sq_run.
    apply IH in Hr as (l2 & -> & Hl2 & Hnd & Hv); [|done..]. simpl in *. exists l2. split_and!.
    + unfold sw_set_db, sw_set_faults, set_ContainerVolume. simpl.
      by rewrite assoc_L, (comm_L _ {[(id, nv_Name v)]}) by apply _.
    + auto.
    + constructor; [|done]. intros Hin. apply (Hv _ Hin). set_solver.
    + intros v' [-> |Hv']%elem_of_cons; [done|]. intros Hin. apply (Hv v' Hv'). set_solver.
Qed.
(** The database with the container. *)
Definition sadded (ctr : Define.Container) (cj sj : string) (db : Database) : Database :=
  let id := ctr_ID ctr in let c := ctr_config ctr in let s := ctr_state ctr in
  mkDatabase (t_DBConfig db) ({[id]} ∪ t_IDNamespace db)
    (<[id := mkContainerConfigRow (ctr_Name ctr) (nullString (cc_Pod c)) cj]> (t_ContainerConfig db))
    (<[id := mkContainerStateRow (Z.of_nat (ContainerStatus_int (cs_State s))) (cs_ExitCode s) sj]> (t_ContainerState db))
    (t_ContainerExecSession db)
    (list_to_set ((id,.) <$> Dependencies ctr) ∪ t_ContainerDependency db)
    (list_to_set ((id,.) <$> (nv_Name <$> cc_NamedVolumes c)) ∪ t_ContainerVolume db)
    (t_ContainerExitCode db) (t_PodConfig db) (t_PodState db) (t_VolumeConfig db) (t_VolumeState db).

Record sadd_ok (strict : Prop) (ctr : Define.Container) (db : Database) : Prop := {
  so_id : ctr_ID ctr ∉ t_IDNamespace db;
  so_name : ∀ k r, t_ContainerConfig db !! k = Some r → k ≠ ctr_ID ctr → rc_Name r ≠ ctr_Name ctr;
  so_exit : exitCodeCheck (cs_ExitCode (ctr_state ctr)) = true;
  so_deps : ∀ d, d ∈ Dependencies ctr → d ≠ ctr_ID ctr ∧
    ∃ r, t_ContainerConfig db !! d = Some r ∧ (strict → rc_PodID r = nullString (cc_Pod (ctr_config ctr)));
  so_vols : NoDup (nv_Name <$> cc_NamedVolumes (ctr_config ctr)) }.

Lemma sAddContainer_db ctr w u w' :
  s_fk w = true → sAddContainer ctr w = (Ok u, w') →
  ∃ cj sj, marshal (ctr_config ctr) = Ok cj ∧ marshal (ctr_state ctr) = Ok sj ∧
    s_db w' = sadded ctr cj sj (s_db w) ∧ sadd_ok (s_faults w = []) ctr (s_db w) ∧ FKs (s_db w').
Proof.
  intros Hfk. unfold sAddContainer. intros Hr. sq_run.
  lazymatch goal with Hd : forM_ (Dependencies ctr) _ _ = _ |- _ => rename Hd into Hdeps end.
  apply sAddDeps_Ok in Hdeps as (l1 & -> & Hl1 & Hdeps); [|done..].
  lazymatch goal with Hd : forM_ _ _ _ = _ |- _ => rename Hd into Hvols end.
  apply sAddVols_Ok in Hvols as (l2 & -> & Hl2 & Hnd & _). cbn [s_db s_fk s_faults sw_set_faults sw_set_db] in *.
  do 2 eexists. split_and!; [done|done|done| |].
  - constructor; [done| |done| |done].
    + by apply unique_true.
    + intros d Hd. destruct (Hdeps d Hd) as (Hne & r & Hr & Hp). split; [done|].
      simpl in Hr. rewrite lookup_insert_ne in Hr by done. exists r. split; [done|]. simpl in Hp. auto 10.
  - by apply deferred_ok_iff; auto.
Qed.

Lemma sadded_inv strict ctr cj sj db :
  SInv db → sadd_ok strict ctr db → marshal (ctr_config ctr) = Ok cj → marshal (ctr_state ctr) = Ok sj →
  FKs (sadded ctr cj sj db) → SInv (sadded ctr cj sj db).
Proof.
  intros HI [Hid Hname Hexit Hdeps Hvols] Hcj Hsj Hfk.
  assert (t_ContainerConfig db !! ctr_ID ctr = None) as Hc.
  { apply eq_None_not_Some. intros Hs. apply Hid, (si_ids _ HI). by left. }
  assert (t_PodConfig db !! ctr_ID ctr = None) as Hp.
  { apply eq_None_not_Some. intros Hs. apply Hid, (si_ids _ HI). by right. }
  apply unmarshal_marshal in Hcj, Hsj.
  constructor; simpl; [done|..]; try apply HI.
  - intros i j r r' [[<- <-]|[Hi Hr]]%lookup_insert_Some [[<- <-]|[Hj Hr']]%lookup_insert_Some Heq; simpl in Heq; try done.
    + destruct (Hname j r' Hr'); congruence.
    + destruct (Hname i r Hr); congruence.
    + by eapply (si_names _ HI).
  - intros id r [[<- <-]|[_ Hr]]%lookup_insert_Some; [done|by apply (si_exit _ HI id)].
  - intros id d [(d' & [= -> ->] & Hd)%elem_of_list_to_set%list_elem_of_fmap|Hd]%elem_of_union;
      [by destruct (Hdeps d' Hd)|by apply (si_self _ HI)].
  - intros id. rewrite elem_of_union, elem_of_singleton, (si_ids _ HI), lookup_insert_is_Some.
    split.
    + intros [-> |[Hs|Hs]]; [by left; left| |by right]. destruct (decide (ctr_ID ctr = id)); auto.
    + intros [[-> |[_ Hs]]|Hs]; auto.
  - intros id [<- |[_ Hs]]%lookup_insert_is_Some; [rewrite Hp; by intros []|by apply (si_disj _ HI)].
  - intros id r [[<- <-]|[Hne Hr]]%lookup_insert_Some.
    + exists (json_view (ctr_config ctr)). constructor; simpl; [done..| |].
      * intros d. rewrite elem_of_union, elem_of_list_to_set, list_elem_of_fmap. setoid_rewrite elem_of_Dependencies.
        split; [|intros Hd; left; by exists d]. intros [(d' & [= ->] & ?)|Hd]; [done|].
        apply (k_dep_ctr _ (si_fks _ HI)) in Hd. rewrite Hc in Hd. by destruct Hd.
      * intros v. rewrite elem_of_union, elem_of_list_to_set, list_elem_of_fmap.
        split; [|intros Hd; left; by exists v]. intros [(d' & [= ->] & ?)|Hd]; [done|].
        apply (k_vol_ctr _ (si_fks _ HI)) in Hd. rewrite Hc in Hd. by destruct Hd.
    + destruct (si_ctr _ HI id r Hr) as [c [Hdec Hi Hn Hpd Hds Hvs]]. exists c. constructor; simpl; [done..| |].
      * intros d. rewrite <-Hds, elem_of_union, elem_of_list_to_set, list_elem_of_fmap. naive_solver.
      * intros v. rewrite <-Hvs, elem_of_union, elem_of_list_to_set, list_elem_of_fmap. naive_solver.
  - intros id r [[<- <-]|[_ Hr]]%lookup_insert_Some; [|by apply (si_ctrstate _ HI id)].
    unfold decCtrState. simpl. by rewrite Hsj.
Qed.

Lemma sadded_abs ctr cj sj db :
  marshal (ctr_config ctr) = Ok cj → marshal (ctr_state ctr) = Ok sj →
  abs (sadded ctr cj sj db) = add_ctr (ctr_config ctr) (ctr_state ctr) (abs db).
Proof.
  intros Hcj Hsj. apply unmarshal_marshal in Hcj, Hsj. unfold abs, add_ctr, a_set_ctrs. simpl. f_equal.
  apply join_insert; unfold decCtr, decCtrState; simpl; by rewrite ?Hcj, ?Hsj.
Qed.

Lemma sadd_can strict ctr cj sj db :
  SInv db → sadd_ok strict ctr db → FKs (sadded ctr cj sj db) →
  can_add_ctr strict (ctr_config ctr) (ctr_state ctr) (abs db).
Proof.
  intros HI [Hid Hname Hexit Hdeps Hvols] Hfk.
  assert (t_ContainerConfig db !! ctr_ID ctr = None) as Hc.
  { apply eq_None_not_Some. intros Hs. apply Hid, (si_ids _ HI). by left. }
  constructor.
  - split; [by apply (abs_ctr_None HI)|apply (abs_pod_None HI), eq_None_not_Some].
    intros Hs. apply Hid, (si_ids _ HI). by right.
  - intros id' c' s' (r & t & Hr & _ & Hw & _)%(abs_ctr HI). rewrite (cw_name _ _ _ _ Hw).
    apply (Hname id' r Hr). congruence.
  - intros Hp. apply (abs_pod_Some HI). eapply (k_ctr_pod _ Hfk (ctr_ID ctr)); [apply lookup_insert_eq|].
    simpl. unfold nullString. by rewrite decide_False.
  - intros d Hd. destruct (Hdeps d) as (Hne & r & Hr & Hp); [by apply elem_of_Dependencies|].
    destruct (abs_ctr_row HI d r Hr) as (c & s & t & Hcs & _ & Hw & _). exists c, s. split; [done|].
    intros Hst. specialize (Hp Hst). rewrite (cw_pod _ _ _ _ Hw) in Hp. unfold nullString in Hp.
    by repeat case_decide; congruence.
  - intros v Hv. apply (abs_vol_Some HI). eapply (k_vol _ Hfk (ctr_ID ctr)). simpl.
    apply elem_of_union. left. apply elem_of_list_to_set, list_elem_of_fmap. by exists v.
  - done.
  - by apply exitCodeCheck_iff.
Qed.

Lemma sAddContainer_Ok ctr w u w' :
  SInv (s_db w) → s_fk w = true → sAddContainer ctr w = (Ok u, w') →
  SInv (s_db w') ∧ can_add_ctr (s_faults w = []) (ctr_config ctr) (ctr_state ctr) (abs (s_db w)) ∧
  abs (s_db w') = add_ctr (ctr_config ctr) (ctr_state ctr) (abs (s_db w)).
Proof.
  intros HI Hfk (cj & sj & Hcj & Hsj & Hdb & Hok & Hk)%sAddContainer_db; [|done]. rewrite Hdb in *. split_and!.
  - by eapply sadded_inv.
  - by eapply sadd_can.
  - by apply sadded_abs.
Qed.
End add.

(** ** Removing a container *)

Section remove.
Context `{RuntimeLaws}.

Definition sremoved (id : string) (db : Database) : Database :=
  mkDatabase (t_DBConfig db) (t_IDNamespace db ∖ {[id]}) (delete id (t_ContainerConfig db))
    (delete id (t_ContainerState db)) (filter (λ kv, kv.2 ≠ id) (t_ContainerExecSession db))
    (filter (λ p, p.1 ≠ id) (t_ContainerDependency db)) (filter (λ p, p.1 ≠ id) (t_ContainerVolume db))
    (t_ContainerExitCode db) (t_PodConfig db) (t_PodState db) (t_VolumeConfig db) (t_VolumeState db).

Lemma sRemoveContainer_db ctr w u w' :
  s_fk w = true → sRemoveContainer ctr w = (Ok u, w') →
  s_db w' = sremoved (ctr_ID ctr) (s_db w) ∧ FKs (s_db w') ∧
  ∀ s, t_ContainerExecSession (s_db w) !! s ≠ Some (ctr_ID ctr).
Proof.
  intros Hfk. unfold sRemoveContainer, removeContainerWithTx. intros Hr. sq_run.
  split_and!; [done|by apply deferred_ok_iff; auto|]. intros s Hs.
  lazymatch goal with Hi : _ → immediate_ok (set_ContainerConfig _ _) = true |- _ =>
    specialize (Hi Hfk); apply immediate_ok_iff in Hi as (_ & He & _) end.
  destruct (He s (ctr_ID ctr) Hs) as [y Hy]. simpl in Hy. by rewrite lookup_delete_eq in Hy.
Qed.

Lemma sremoved_can id db :
  SInv db → FKs (sremoved id db) → (∀ s, t_ContainerExecSession db !! s ≠ Some id) → can_remove_ctr id (abs db).
Proof.
  intros HI Hk Hs. assert (∀ x, x = id → is_Some (t_ContainerConfig (sremoved id db) !! x) → False) as Hno.
  { intros x -> [y Hy]. simpl in Hy. by rewrite lookup_delete_eq in Hy. }
  constructor; [|done| |].
  - intros d Hd%(abs_depends HI). apply (Hno id eq_refl), (k_dep _ Hk d). apply elem_of_filter. split; [|done].
    apply (si_self _ HI d id Hd).
  - intros p (r & Hp & Hr)%lookup_omap_Some. apply (Hno id eq_refl). by eapply (k_infra _ Hk p r).
  - apply (abs_pod_None HI), eq_None_not_Some. intros Hp. apply (k_pod_id _ Hk) in Hp. simpl in Hp. set_solver.
Qed.

Lemma sremoved_inv id db : SInv db → FKs (sremoved id db) → SInv (sremoved id db).
Proof.
  intros HI Hk. constructor; simpl; [done|..]; try apply HI.
  - intros i j r r' [_ Hr]%lookup_delete_Some [_ Hr']%lookup_delete_Some. by apply (si_names _ HI).
  - intros i r [_ Hr]%lookup_delete_Some. by apply (si_exit _ HI i).
  - intros i d [_ Hd]%elem_of_filter. by apply (si_self _ HI).
  - intros i. rewrite elem_of_difference, elem_of_singleton, (si_ids _ HI), lookup_delete_is_Some.
    split; [intros [[?|?] ?]; auto|]. intros [[? ?]|Hp]; [by auto|]. split; [by auto|]. intros ->.
    apply (k_pod_id _ Hk) in Hp. simpl in Hp. set_solver.
  - intros i [_ Hs]%lookup_delete_is_Some. by apply (si_disj _ HI).
  - intros i r [Hne Hr]%lookup_delete_Some. destruct (si_ctr _ HI i r Hr) as [c [Hdec Hi Hn Hpd Hds Hvs]].
    exists c. constructor; simpl; [done..| |].
    + intros d. rewrite <-Hds, elem_of_filter. naive_solver.
    + intros v. rewrite <-Hvs, elem_of_filter. naive_solver.
  - intros i r [_ Hr]%lookup_delete_Some. by apply (si_ctrstate _ HI i).
Qed.

Lemma sremoved_abs id db :
  (∀ s, t_ContainerExecSession db !! s ≠ Some id) → abs (sremoved id db) = remove_ctr id (abs db).
Proof.
  intros Hs. unfold abs, remove_ctr, a_set_ctrs. simpl. f_equal; [apply join_delete|].
  apply map_filter_id. intros s x Hx Heq. simpl in Heq. subst. by destruct (Hs s).
Qed.

Lemma sRemoveContainer_Ok ctr w u w' :
  SInv (s_db w) → s_fk w = true → sRemoveContainer ctr w = (Ok u, w') →
  SInv (s_db w') ∧ can_remove_ctr (ctr_ID ctr) (abs (s_db w)) ∧
  abs (s_db w') = remove_ctr (ctr_ID ctr) (abs (s_db w)).
Proof.
  intros HI Hfk (Hdb & Hk & Hs)%sRemoveContainer_db; [|done]. rewrite Hdb in *.
  split_and!; [by apply sremoved_inv|by apply sremoved_can|by apply sremoved_abs].
Qed.
End remove.
