(* ===== verification/SqliteSaves.v ===== *)
(** * SqliteSaves: the effect of the other calls that write

    Pods, volumes, exec sessions, exit codes, saved states, the configuration and
    the reset after a reboot. *)

From S2P Require Import Prelude Define Bolt BoltTx BoltInternal BoltState BoltOps Sqlite SqliteState.
From S2P Require Import StateSpec SqliteInv SqliteFrame SqliteAbs SqliteWrites.

(** A run of [m] that succeeds keeps the database consistent and takes the step
    [Q] of the specification. *)
Definition steps `{Runtime} {A} (m : SM A) (Q : Prop → AState → AState → Prop) : Prop :=
  ∀ w a w', SInv (s_db w) → s_fk w = true → m w = (Ok a, w') →
    SInv (s_db w') ∧ Q (s_faults w = []) (abs (s_db w)) (abs (s_db w')).

Lemma alter_as_insert {R} (f : R → R) k (m : gmap string R) r :
  m !! k = Some r → alter f k m = <[k := f r]> m.
Proof.
  intros Hr. apply map_eq. intros i. destruct (decide (k = i)) as [->|Hne].
  - by rewrite lookup_alter_eq, Hr, lookup_insert_eq.
  - by rewrite lookup_alter_ne, lookup_insert_ne.
Qed.

Lemma omap_insert_alter {R} (f : R → option string) k r (m : gmap string R) :
  omap f (<[k := r]> m) = partial_alter (λ _, f r) k (omap f m).
Proof. rewrite omap_insert. by destruct (f r). Qed.

Lemma omap_insert_same {R} (f : R → option string) k r r' (m : gmap string R) :
  m !! k = Some r → f r' = f r → omap f (<[k := r']> m) = omap f m.
Proof.
  intros Hr Hf. rewrite omap_insert_alter, Hf. rewrite <-(insert_id m k r Hr) at 2. by rewrite omap_insert_alter.
Qed.

Ltac db_simpl := cbn [t_DBConfig t_IDNamespace t_ContainerConfig t_ContainerState t_ContainerExecSession t_ContainerDependency t_ContainerVolume t_ContainerExitCode t_PodConfig t_PodState t_VolumeConfig t_VolumeState
  set_DBConfig set_IDNamespace set_ContainerConfig set_ContainerState set_ContainerExecSession set_ContainerDependency set_ContainerVolume set_ContainerExitCode set_PodConfig set_PodState set_VolumeConfig set_VolumeState
  rc_Name rc_PodID rc_JSON rs_State rs_ExitCode rs_JSON re_Timestamp re_ExitCode rp_Name rp_JSON rq_InfraContainerID
  rq_JSON rv_StorageID rv_JSON] in *.

(** After a successful transaction the foreign keys hold. *)
Ltac tx_fks Hk Hfk :=
  lazymatch goal with Hd : _ → deferred_ok _ = true |- _ =>
    specialize (Hd Hfk); apply deferred_ok_iff in Hd; rename Hd into Hk end;
  repeat match goal with
  | H : _ → immediate_ok _ = true |- _ => clear H
  | H : _ = [] → _ = [] |- _ => clear H
  | H : s_locked _ = false |- _ => clear H
  end; db_simpl.

(** The parts of the invariant about tables that did not change *)
Ltac inv_rest HI :=
  constructor; db_simpl; [done|..]; try apply HI;
  try (intros ? ? Hx; destruct (si_ctr _ HI _ _ Hx) as [c' []]; exists c'; by constructor).

Section saves.
Context `{RuntimeLaws}.

(** ** Pods *)

Lemma AddPod_steps pod : steps (SQLite_AddPod pod) (λ st, spec_write st (CAddPod pod)).
Proof.
  unfold SQLite_AddPod. intros w a w' HI Hfk Hr. sq_run. tx_fks Hk Hfk.
  rename select (unique _ _ _ _ = true) into Hname. rewrite unique_true in Hname.
  rename select (marshal (pod_config _) = _) into Hc. rename select (marshal (pod_state _) = _) into Hs.
  apply unmarshal_marshal in Hc, Hs. rename select (_ ∉ _) into Hid.
  assert (t_ContainerConfig (s_db w) !! pod_ID pod = None) as Hctr.
  { apply eq_None_not_Some. intros Hx. apply Hid, (si_ids _ HI). by left. }
  split.
  - inv_rest HI.
    + intros i j r r' [[<- <-]|[Hi Hr1]]%lookup_insert_Some [[<- <-]|[Hj Hr2]]%lookup_insert_Some Heq; db_simpl; try done.
      * destruct (Hname j r' Hr2); congruence.
      * destruct (Hname i r Hr1); congruence.
      * by eapply (si_podnames _ HI).
    + intros id. rewrite elem_of_union, elem_of_singleton, (si_ids _ HI), lookup_insert_is_Some. split.
      * intros [-> |[Hx|Hx]]; auto. destruct (decide (pod_ID pod = id)); auto.
      * intros [Hx|[-> |[_ Hx]]]; auto.
    + intros id Hx [<- |[_ Hy]]%lookup_insert_is_Some; [rewrite Hctr in Hx; by destruct Hx|by apply (si_disj _ HI id)].
    + intros id r [[<- <-]|[Hne Hr1]]%lookup_insert_Some; [|by apply (si_pod _ HI)]. by exists (pod_config pod).
    + intros id r [[<- <-]|[Hne Hr1]]%lookup_insert_Some; [|by apply (si_podstate _ HI id)].
      unfold decPodState. db_simpl. by rewrite Hs.
  - split_and!; [done|by apply (abs_ctr_None HI)|by apply (abs_pod_None HI)| | |].
    + intros id' c' s' (r & t & Hr1 & _ & _ & _ & -> & _)%(abs_pod HI). apply (Hname id' r); [done|congruence].
    + intros Hi. apply (abs_ctr_Some HI). eapply (k_infra _ Hk); [apply lookup_insert_eq|].
      db_simpl. by apply nullString_Some.
    + unfold abs, a_set_pods. db_simpl. f_equal; [|etrans; [apply omap_insert_alter|done]].
      apply join_insert; unfold decPod, decPodState; db_simpl; by rewrite ?Hc, ?Hs.
Qed.

Lemma podRows_elem p db id r :
  (id, r) ∈ podRows p db ↔ t_ContainerConfig db !! id = Some r ∧ rc_PodID r = Some p.
Proof. unfold podRows. rewrite list_elem_of_filter, elem_of_map_to_list. naive_solver. Qed.

Lemma RemovePod_steps pod : steps (SQLite_RemovePod pod) (λ st, spec_write st (CRemovePod pod)).
Proof.
  unfold SQLite_RemovePod. intros w a w' HI Hfk Hr. sq_run. tx_fks Hk Hfk.
  rename select (hits (t_PodConfig _) _ = _) into Hhit. apply hits_S in Hhit.
  assert (t_ContainerConfig (s_db w) !! pod_ID pod = None) as Hctr.
  { apply eq_None_not_Some. intros Hx. by apply (si_disj _ HI (pod_ID pod)). }
  split.
  - inv_rest HI.
    + intros i j r r' [_ Hr1]%lookup_delete_Some [_ Hr2]%lookup_delete_Some. by apply (si_podnames _ HI).
    + intros id. rewrite elem_of_difference, elem_of_singleton, (si_ids _ HI), lookup_delete_is_Some. split.
      * intros [[?|?] ?]; auto.
      * intros [Hx|[? ?]]; auto. split; [auto|]. intros ->. rewrite Hctr in Hx. by destruct Hx.
    + intros id Hx [_ Hy]%lookup_delete_is_Some. by apply (si_disj _ HI id).
    + intros id r [_ Hr1]%lookup_delete_Some. by apply (si_pod _ HI).
    + intros id r [_ Hr1]%lookup_delete_Some. by apply (si_podstate _ HI id).
  - split_and!; [done|by apply (abs_pod_Some HI)| |].
    + intros id (r & Hr1 & Hp)%(abs_member HI).
      destruct (k_ctr_pod _ Hk id r (pod_ID pod) Hr1 Hp) as [x' Hx]. db_simpl. by rewrite lookup_delete_eq in Hx.
    + unfold abs, a_set_pods. db_simpl. f_equal; [apply join_delete|by rewrite omap_delete].
Qed.

Lemma SavePod_steps pod : steps (SQLite_SavePod pod) (λ st, spec_write st (CSavePod pod)).
Proof.
  unfold SQLite_SavePod. intros w a w' HI Hfk Hr. sq_run. tx_fks Hk Hfk.
  rename select (hits (t_PodState _) _ = _) into Hhit. apply hits_S in Hhit as [t Ht].
  rewrite (alter_as_insert _ _ _ _ Ht) in *.
  rename select (marshal _ = _) into Hs. apply unmarshal_marshal in Hs.
  destruct (k_state_pod _ (si_fks _ HI) (pod_ID pod)) as [r Hr1]; [by eauto|].
  destruct (abs_pod_row HI _ _ Hr1) as (c & s & t' & Hcs & Ht' & Hc & _). split.
  - inv_rest HI.
    intros id r' [[<- <-]|[Hne Hr2]]%lookup_insert_Some; [|by apply (si_podstate _ HI id)].
    unfold decPodState. db_simpl. by rewrite Hs.
  - exists c, s. split_and!; [done|done|]. unfold abs, a_set_pods. db_simpl. f_equal.
    + eapply join_insert_r; [exact Hr1|by unfold decPod; rewrite Hc|by unfold decPodState; db_simpl; rewrite Hs].
    + eapply omap_insert_same; [exact Ht|done].
Qed.

Lemma RewritePodConfig_steps pod newCfg :
  pc_ID newCfg = pod_ID pod →
  steps (SQLite_RewritePodConfig pod newCfg) (λ st, spec_write st (CRewritePodConfig pod newCfg)).
Proof.
  intros Hid. unfold SQLite_RewritePodConfig. intros w a w' HI Hfk Hr.
  sq_run. destruct (t_PodConfig (s_db w) !! pod_ID pod) as [r|] eqn:Hr1; [|done]. sq_run. tx_fks Hk Hfk.
  rename select (unique _ _ _ _ = true) into Hname. rewrite unique_true in Hname.
  rename select (marshal _ = _) into Hc. apply unmarshal_marshal in Hc.
  destruct (abs_pod_row HI _ _ Hr1) as (c & s & t & Hcs & Ht & _ & _ & _ & Hs). split.
  - inv_rest HI.
    + intros i j q q' [[<- <-]|[Hi Hq]]%lookup_insert_Some [[<- <-]|[Hj Hq']]%lookup_insert_Some Heq; db_simpl; try done.
      * destruct (Hname j q' Hq'); congruence.
      * destruct (Hname i q Hq); congruence.
      * by eapply (si_podnames _ HI).
    + intros id. rewrite (si_ids _ HI), lookup_insert_is_Some. split; [intros [?|?]; auto|].
      * destruct (decide (pod_ID pod = id)); auto.
      * intros [?|[<-|[_ ?]]]; eauto.
    + intros id Hx [<- |[_ Hy]]%lookup_insert_is_Some; by apply (si_disj _ HI _ Hx); eauto.
    + intros id q [[<- <-]|[Hne Hq]]%lookup_insert_Some; [|by apply (si_pod _ HI)]. by exists newCfg.
  - exists c, s. split_and!; [done|done| |].
    + intros id' c' s' Hne (q & t' & Hq & _ & _ & _ & -> & _)%(abs_pod HI). by apply (Hname id' q).
    + unfold abs, a_set_pods. db_simpl. f_equal.
      eapply join_insert_l; [exact Ht|by unfold decPod; db_simpl; rewrite Hc|by unfold decPodState; rewrite Hs].
Qed.

(** ** Volumes *)

Lemma AddVolume_steps vol : steps (SQLite_AddVolume vol) (λ st, spec_write st (CAddVolume vol)).
Proof.
  unfold SQLite_AddVolume. intros w a w' HI Hfk Hr. sq_run. tx_fks Hk Hfk.
  rename select (marshal (vol_config _) = _) into Hc. rename select (marshal (default _ _) = _) into Hs.
  apply unmarshal_marshal in Hc, Hs. split.
  - inv_rest HI.
    + intros v r [[<- <-]|[Hne Hr1]]%lookup_insert_Some; [|by apply (si_vol _ HI)]. by exists (vol_config vol).
    + intros v r [[<- <-]|[Hne Hr1]]%lookup_insert_Some; [|by apply (si_volstate _ HI v)].
      unfold decVolState. by rewrite Hs.
  - split_and!; [done|by apply (abs_vol_None HI)|]. unfold abs, a_set_vols. db_simpl. f_equal.
    apply join_insert; unfold decVol, decVolState; db_simpl; by rewrite ?Hc, ?Hs.
Qed.

Lemma SaveVolume_steps vol :
  is_Some (vol_state vol) → steps (SQLite_SaveVolume vol) (λ st, spec_write st (CSaveVolume vol)).
Proof.
  intros [s' Hs']. unfold SQLite_SaveVolume. rewrite Hs'. intros w a w' HI Hfk Hr. sq_run. tx_fks Hk Hfk.
  rename select (hits (t_VolumeState _) _ = _) into Hhit. apply hits_S in Hhit as [t Ht].
  rewrite (alter_as_insert _ _ _ _ Ht) in *.
  rename select (marshal _ = _) into Hs. apply unmarshal_marshal in Hs.
  destruct (k_state_vol _ (si_fks _ HI) (vol_Name vol)) as [r Hr1]; [by eauto|].
  destruct (abs_vol_row HI _ _ Hr1) as (c & s & t' & Hcs & Ht' & Hc & _). split.
  - inv_rest HI.
    intros v r' [[<- <-]|[Hne Hr2]]%lookup_insert_Some; [|by apply (si_volstate _ HI v)].
    unfold decVolState. by rewrite Hs.
  - exists c, s, s'. split_and!; [done|done|done|]. unfold abs, a_set_vols. db_simpl. f_equal.
    eapply join_insert_r; [exact Hr1|by unfold decVol; rewrite Hc|by unfold decVolState; rewrite Hs].
Qed.

Lemma volumeUsers_elem v db id : id ∈ volumeUsers v db ↔ (id, v) ∈ t_ContainerVolume db.
Proof.
  unfold volumeUsers. rewrite list_elem_of_fmap. split.
  - intros ([i v'] & -> & [<- ?]%elem_of_elements%elem_of_filter). done.
  - intros Hv. exists (id, v). split; [done|]. by apply elem_of_elements, elem_of_filter.
Qed.

Lemma NoDup_volumeUsers v db : NoDup (volumeUsers v db).
Proof.
  unfold volumeUsers. apply NoDup_fmap_2_strong; [|apply NoDup_elements].
  intros [i v1] [j v2] [? _]%elem_of_elements%elem_of_filter [? _]%elem_of_elements%elem_of_filter. simpl in *. congruence.
Qed.

Lemma RemoveVolume_steps `{RowOrder} vol : steps (SQLite_RemoveVolume vol) (λ st, spec_write st (CRemoveVolume vol)).
Proof.
  unfold SQLite_RemoveVolume. intros w a w' HI Hfk Hr. sq_run. tx_fks Hk Hfk. split.
  - inv_rest HI.
    + intros v r [_ Hr1]%lookup_delete_Some. by apply (si_vol _ HI).
    + intros v r [_ Hr1]%lookup_delete_Some. by apply (si_volstate _ HI v).
  - split; [|unfold abs, a_set_vols; db_simpl; f_equal; apply join_delete].
    intros id Hu%(abs_uses HI). apply (k_vol _ Hk) in Hu as [y Hy]. db_simpl. by rewrite lookup_delete_eq in Hy.
Qed.

(** ** Containers *)

Lemma SaveContainer_steps ctr : steps (SQLite_SaveContainer ctr) (λ st, spec_write st (CSaveContainer ctr)).
Proof.
  unfold SQLite_SaveContainer. intros w a w' HI Hfk Hr. sq_run. tx_fks Hk Hfk.
  rename select (hits (t_ContainerState _) _ = _) into Hhit. apply hits_S in Hhit as [t Ht].
  rewrite (alter_as_insert _ _ _ _ Ht) in *.
  rename select (marshal _ = _) into Hs. apply unmarshal_marshal in Hs.
  destruct (k_state_ctr _ (si_fks _ HI) (ctr_ID ctr)) as [r Hr1]; [by eauto|].
  destruct (abs_ctr_row HI _ _ Hr1) as (c & s & t' & Hcs & Ht' & Hw & _). split.
  - inv_rest HI.
    + intros id r' [[<- <-]|[Hne Hr2]]%lookup_insert_Some; [|by apply (si_exit _ HI id)].
      db_simpl. by apply (si_exit _ HI (ctr_ID ctr)).
    + intros id r' [[<- <-]|[Hne Hr2]]%lookup_insert_Some; [|by apply (si_ctrstate _ HI id)].
      unfold decCtrState. db_simpl. by rewrite Hs.
  - exists c, s. split_and!; [done|done|]. unfold abs, a_set_ctrs. db_simpl. f_equal.
    eapply join_insert_r; [exact Hr1|unfold decCtr; by rewrite (cw_dec _ _ _ _ Hw)|by unfold decCtrState; db_simpl; rewrite Hs].
Qed.

Lemma AddContainer_steps ctr : steps (SQLite_AddContainer ctr) (λ st, spec_write st (CAddContainer ctr)).
Proof.
  unfold SQLite_AddContainer. intros w a w' HI Hfk Hr. sq_run.
  apply sAddContainer_Ok in Hr as (? & ? & ?); [|done..]. by split.
Qed.

Lemma AddContainerToPod_steps pod ctr :
  steps (SQLite_AddContainerToPod pod ctr) (λ st, spec_write st (CAddContainerToPod pod ctr)).
Proof.
  unfold SQLite_AddContainerToPod. intros w a w' HI Hfk Hr. sq_run.
  apply sAddContainer_Ok in Hr as (? & ? & ?); [|done..]. by split.
Qed.

Lemma RemoveContainer_steps ctr : steps (SQLite_RemoveContainer ctr) (λ st, spec_write st (CRemoveContainer ctr)).
Proof.
  unfold SQLite_RemoveContainer. intros w a w' HI Hfk Hr. sq_run.
  apply sRemoveContainer_Ok in Hr as (? & ? & ?); [|done..]. by split.
Qed.

Lemma RemoveContainerFromPod_steps pod ctr :
  steps (SQLite_RemoveContainerFromPod pod ctr) (λ st, spec_write st (CRemoveContainerFromPod pod ctr)).
Proof.
  unfold SQLite_RemoveContainerFromPod. intros w a w' HI Hfk Hr. sq_run.
  apply sRemoveContainer_Ok in Hr as (? & ? & ?); [|done..]. split; [done|].
  split_and!; [done|done|congruence|done|done].
Qed.

(** ** Exec sessions and exit codes *)

Lemma AddExecSession_steps ctr session :
  steps (SQLite_AddExecSession ctr (es_Id session)) (λ st, spec_write st (CAddExecSession ctr session)).
Proof.
  unfold SQLite_AddExecSession. intros w a w' HI Hfk Hr. sq_run. tx_fks Hk Hfk. split; [by inv_rest HI|].
  split_and!; [done|done| |done]. apply (abs_ctr_Some HI). eapply (k_exec _ Hk), lookup_insert_eq.
Qed.

Lemma RemoveExecSession_steps session :
  steps (SQLite_RemoveExecSession (es_Id session)) (λ st, spec_write st (CRemoveExecSession session)).
Proof.
  unfold SQLite_RemoveExecSession. intros w a w' HI Hfk Hr. sq_run. tx_fks Hk Hfk. split; [by inv_rest HI|].
  split; [|done]. simpl. destruct (t_ContainerExecSession (s_db w) !! es_Id session) eqn:Hx; [by eauto|].
  unfold hits in *. rewrite Hx in *. congruence.
Qed.

Lemma RemoveContainerExecSessions_steps ctr :
  steps (SQLite_RemoveContainerExecSessions ctr) (λ st, spec_write st (CRemoveContainerExecSessions ctr)).
Proof.
  unfold SQLite_RemoveContainerExecSessions. intros w a w' HI Hfk Hr. sq_run. tx_fks Hk Hfk.
  split; [by inv_rest HI|done].
Qed.

Lemma AddContainerExitCode_steps id code :
  steps (SQLite_AddContainerExitCode id code) (λ st, spec_write st (CAddContainerExitCode id code)).
Proof.
  unfold SQLite_AddContainerExitCode. intros w a w' HI Hfk Hr. sq_run. tx_fks Hk Hfk. split.
  - inv_rest HI. intros i r [[<- <-]|[Hne Hr1]]%lookup_insert_Some; [done|by apply (si_exits _ HI i)].
  - split; [done|split; [by apply exitCodeCheck_iff|done]].
Qed.

Lemma PruneContainerExitCodes_steps :
  steps SQLite_PruneContainerExitCodes (λ st, spec_write st CPruneContainerExitCodes).
Proof.
  unfold SQLite_PruneContainerExitCodes. intros w a w' HI Hfk Hr. sq_run. tx_fks Hk Hfk. split.
  - inv_rest HI. intros i r [Hr1 _]%map_lookup_filter_Some. by apply (si_exits _ HI i).
  - unfold spec_write, abs, a_set_exits. db_simpl. f_equal. apply map_filter_ext. intros i r _. simpl. lia.
Qed.

(** ** Configuration *)

Lemma checkField_Ok x y w u w' : checkField x y w = (Ok u, w') → x = y ∧ w' = w.
Proof. unfold checkField. intros [Hb%bool_decide_eq_false ->]%failIf_Ok. split; [by apply dec_stable|done]. Qed.

Lemma ValidateDBConfig_steps : steps SQLite_ValidateDBConfig (λ st, spec_write st CValidateDBConfig).
Proof.
  unfold SQLite_ValidateDBConfig. intros w a w' HI Hfk Hr. sq_run.
  destruct (t_DBConfig (s_db w)) as [r|] eqn:Hrow.
  - repeat match goal with Hx : (_ ≫= _) _ = _ |- _ => apply st_bind_Ok in Hx as (? & ? & [? ->]%checkField_Ok & Hx) end.
    apply checkField_Ok in Hr as [? ->]. split; [done|]. eexists. split; [done|]. unfold abs. simpl. rewrite Hrow. by split.
  - sq_run. tx_fks Hk Hfk. split; [by inv_rest HI|]. eexists. split; [done|]. unfold abs. db_simpl. simpl.
    rewrite Hrow. done.
Qed.
End saves.
