(* ===== verification/SqliteRefresh.v ===== *)
(** * SqliteRefresh: the reset of the SQLite state after a reboot

    [SQLite_Refresh] reads all states, resets them in memory and writes them back
    in one transaction. *)

From S2P Require Import Prelude Define Bolt BoltTx BoltInternal BoltState BoltOps Sqlite SqliteState.
From S2P Require Import StateSpec SqliteInv SqliteFrame SqliteAbs SqliteWrites SqliteSaves.

(** A loop that appends one element per iteration. *)
Lemma foldM_collect {A B} (P : A → B → Prop) (R : SWorld → SWorld → Prop) `{!PreOrder R}
    (body : list B → A → SM (list B)) l acc w out w' :
  (∀ acc x w out w', body acc x w = (Ok out, w') → ∃ y, out = acc ++ [y] ∧ P x y ∧ R w w') →
  foldM body acc l w = (Ok out, w') → ∃ ys, out = acc ++ ys ∧ Forall2 P l ys ∧ R w w'.
Proof.
  intros Hb. revert acc w. induction l as [|x l IH]; intros acc w; simpl.
  - unfold mret, st_ret. intros [= <- <-]. exists []. rewrite app_nil_r. split_and!; [done|constructor|done].
  - rewrite st_bind_Ok. intros (acc' & w1 & (y & -> & Hy & HR)%Hb & (ys & -> & Hys & HR')%IH).
    exists (y :: ys). rewrite <-(assoc_L (++)). split_and!; [done|by constructor|by etrans].
Qed.

(** Rows that are updated one after the other *)
Lemma lookup_updates {R} (f : string → R → R) (kvs : list (string * string)) (m : gmap string R) k :
  NoDup kvs.*1 →
  foldl (λ m kv, alter (f kv.2) kv.1 m) m kvs !! k =
  match (list_to_map kvs : gmap string string) !! k with Some v => f v <$> m !! k | None => m !! k end.
Proof.
  revert m. induction kvs as [|[i v] kvs IH]; intros m; simpl; [by rewrite lookup_empty|].
  intros [Hi Hnd]%NoDup_cons. rewrite IH by done. destruct (decide (i = k)) as [->|Hne].
  - rewrite lookup_insert_eq. rewrite not_elem_of_list_to_map_1 by done. by rewrite lookup_alter_eq.
  - by rewrite lookup_insert_ne, lookup_alter_ne.
Qed.

(** A loop of updates of one table: [get] and [set] are its accessors. *)
Lemma updates_Ok {R} (f : string → R → R) (get : Database → gmap string R) (set : gmap string R → Database → Database)
    (stmt : string → string → statement) kvs w u w' :
  (∀ k v db n db', stmt k v db = Ok (n, db') → db' = set (alter (f v) k (get db)) db) →
  (∀ m db, get (set m db) = m) → (∀ m m' db, set m (set m' db) = set m db) → (∀ db, set (get db) db = db) →
  forM_ kvs (λ kv, Exec_ (stmt kv.1 kv.2)) w = (Ok u, w') →
  ∃ l, w' = sw_set_faults l (sw_set_db (set (foldl (λ m kv, alter (f kv.2) kv.1 m) (get (s_db w)) kvs) (s_db w)) w) ∧
    (s_faults w = [] → l = []).
Proof.
  intros Hst Hgs Hss Hsg. revert w. induction kvs as [|[k v] kvs IH]; intros w; simpl.
  - unfold mret, st_ret. intros [= _ <-]. exists (s_faults w). split; [|done]. rewrite Hsg. by destruct w.
  - rewrite st_bind_Ok. intros (u1 & w1 & H1 & Hr). sq_step. apply Hst in H1 as ->. simpl in *.
    apply IH in Hr as (l & -> & Hl). simpl in *. exists l. split; [|auto]. unfold sw_set_db, sw_set_faults. simpl.
    by rewrite Hgs, Hss.
Qed.

Section refresh.
Context `{RuntimeLaws, RowOrder}.

Lemma refreshStates_Ok {A} `{Json A} (reset : A → A) l w out w' :
  refreshStates reset l w = (Ok out, w') →
  w' = w ∧ Forall2 (λ kv kv', kv'.1 = kv.1 ∧ ∃ s, unmarshal kv.2 = Ok s ∧ marshal (reset s) = Ok kv'.2) l out.
Proof.
  unfold refreshStates. intros Hr. eapply (foldM_collect _ (λ w w', w' = w)) in Hr as (ys & -> & HF & ->).
  - split; [done|exact HF].
  - intros acc x w1 out1 w1' Hx. simpl. st_step. st_step. st_step. st_step. st_step.
    eexists. split; [done|]. split; [|done]. simpl. eauto.
  Unshelve. split; [done|]. intros x y z -> ->. done.
Qed.

Lemma same_keys {A B} (Q : string * A → string * B → Prop) l l' :
  Forall2 (λ kv kv', kv'.1 = kv.1 ∧ Q kv kv') l l' → l'.*1 = l.*1.
Proof. induction 1 as [|kv kv' l l' [? _] _ IH]; [done|]. rewrite !fmap_cons. congruence. Qed.

(** Every state of a table is replaced by the encoding of its reset. *)
Lemma refreshed_lookup {A R} `{Json A} (reset : A → A) (js : R → string) (m : gmap string R) out
    (f : string → R → R) k r :
  Forall2 (λ kv kv', kv'.1 = kv.1 ∧ ∃ s, unmarshal kv.2 = Ok s ∧ marshal (reset s) = Ok kv'.2)
    (scan (map_to_list (js <$> m))) out →
  foldl (λ m kv, alter (f kv.2) kv.1 m) m out !! k = Some r →
  ∃ r0 s j, m !! k = Some r0 ∧ r = f j r0 ∧ unmarshal (js r0) = Ok s ∧ marshal (reset s) = Ok j.
Proof.
  intros HF. assert (out.*1 = (scan (map_to_list (js <$> m))).*1) as Hkeys.
  { exact (same_keys (λ kv kv', ∃ s, unmarshal kv.2 = Ok s ∧ marshal (reset s) = Ok kv'.2) _ _ HF). }
  assert (NoDup out.*1) as Hnd.
  { rewrite Hkeys, scan_perm. apply NoDup_fst_map_to_list. }
  rewrite lookup_updates by done. intros Hlk.
  assert (is_Some (m !! k)) as [r0 Hr0].
  { destruct (list_to_map out !! k); [|eauto]. apply (fmap_is_Some (f s)). eauto. }
  assert ((k, js r0) ∈ scan (map_to_list (js <$> m))) as Hin.
  { rewrite scan_perm. apply elem_of_map_to_list. by rewrite lookup_fmap, Hr0. }
  apply list_elem_of_lookup_1 in Hin as [i Hi].
  destruct (Forall2_lookup_l _ _ _ _ _ HF Hi) as ([k' j] & Hj & Hk & s & Hs & Hm). simpl in *. subst k'.
  rewrite (elem_of_list_to_map_1 out k j) in Hlk by (done || by eapply list_elem_of_lookup_2).
  rewrite Hr0 in Hlk. simpl in Hlk. exists r0, s, j. split_and!; [done|congruence|done|done].
Qed.

Lemma refreshed_dom {R} (f : string → R → R) (m : gmap string R) out k :
  NoDup out.*1 → is_Some (foldl (λ m kv, alter (f kv.2) kv.1 m) m out !! k) ↔ is_Some (m !! k).
Proof. intros Hnd. rewrite lookup_updates by done. destruct (list_to_map out !! k); [apply fmap_is_Some|done]. Qed.

Lemma NoDup_refreshed {A R} `{Json A} (reset : A → A) (js : R → string) (m : gmap string R) out :
  Forall2 (λ kv kv', kv'.1 = kv.1 ∧ ∃ s, unmarshal kv.2 = Ok s ∧ marshal (reset s) = Ok kv'.2)
    (scan (map_to_list (js <$> m))) out → NoDup out.*1.
Proof.
  intros HF. rewrite (same_keys (λ kv kv', ∃ s, unmarshal kv.2 = Ok s ∧ marshal (reset s) = Ok kv'.2) _ _ HF), scan_perm.
  apply NoDup_fst_map_to_list.
Qed.

(** The decoded table afterwards *)
Lemma refreshed_join {A R S B} `{JsonLaws A} (reset : A → A) (js : R → string) (m : gmap string R) out
    (f : string → R → R) (dec : S → option B) (n : gmap string S) :
  (∀ j r, js (f j r) = j) → (∀ a : A, json_view a = a) →
  Forall2 (λ kv kv', kv'.1 = kv.1 ∧ ∃ s, unmarshal kv.2 = Ok s ∧ marshal (reset s) = Ok kv'.2)
    (scan (map_to_list (js <$> m))) out →
  join dec (λ r, okOf (unmarshal (js r))) n (foldl (λ m kv, alter (f kv.2) kv.1 m) m out) =
  prod_map id reset <$> join dec (λ r, okOf (unmarshal (js r))) n m.
Proof.
  intros Hjs Hview HF. apply join_fmap_r.
  - intros k r Hr. destruct (refreshed_dom f m out k (NoDup_refreshed _ _ _ _ HF)) as [_ [r' Hr']]; [by eauto|].
    destruct (refreshed_lookup _ _ _ _ _ _ _ HF Hr') as (r0 & s & j & Hr0 & -> & Hs & Hj). simplify_eq.
    exists (f j r), s. split_and!; [done|by rewrite Hs|]. rewrite Hjs. apply unmarshal_marshal in Hj.
    by rewrite Hj, Hview.
  - intros k r Hr. apply (refreshed_dom f m out k (NoDup_refreshed _ _ _ _ HF)). eauto.
Qed.

(** [out] holds the reset states of the table [m]. *)
Definition resets {A R} `{Json A} (reset : A → A) (js : R → string) (m : gmap string R) out : Prop :=
  Forall2 (λ kv kv', kv'.1 = kv.1 ∧ ∃ s, unmarshal kv.2 = Ok s ∧ marshal (reset s) = Ok kv'.2)
    (scan (map_to_list (js <$> m))) out.

Definition setCtrJSON (j : string) (r : ContainerStateRow) := mkContainerStateRow (rs_State r) (rs_ExitCode r) j.
Definition setPodJSON (j : string) (r : PodStateRow) := mkPodStateRow (rq_InfraContainerID r) j.
Definition setVolJSON (j _ : string) := j.

Definition updates {R} (f : string → R → R) (m : gmap string R) (kvs : list (string * string)) : gmap string R :=
  foldl (λ m kv, alter (f kv.2) kv.1 m) m kvs.

Definition srefreshed (cs ps vs : list (string * string)) (db : Database) : Database :=
  mkDatabase (t_DBConfig db) (t_IDNamespace db) (t_ContainerConfig db)
    (updates setCtrJSON (t_ContainerState db) cs) ∅ (t_ContainerDependency db) (t_ContainerVolume db) ∅
    (t_PodConfig db) (updates setPodJSON (t_PodState db) ps) (t_VolumeConfig db)
    (updates setVolJSON (t_VolumeState db) vs).

Lemma Refresh_db w a w' :
  s_fk w = true → SQLite_Refresh w = (Ok a, w') →
  ∃ cs ps vs, resets resetContainerState rs_JSON (t_ContainerState (s_db w)) cs ∧
    resets resetPodState rq_JSON (t_PodState (s_db w)) ps ∧ resets resetVolumeState id (t_VolumeState (s_db w)) vs ∧
    s_db w' = srefreshed cs ps vs (s_db w) ∧ FKs (s_db w').
Proof.
  unfold SQLite_Refresh. intros Hfk Hr. sq_inv.
  repeat match goal with Hx : refreshStates _ _ _ = _ |- _ => apply refreshStates_Ok in Hx as [-> ?] end.
  sq_inv.
  repeat match goal with
  | Hx : forM_ _ (λ kv, Exec_ (update_ContainerState _ _)) _ = _ |- _ =>
      apply (updates_Ok setCtrJSON t_ContainerState set_ContainerState) in Hx as (? & -> & ?);
        [|by intros ? ? ? ? ? [= _ <-]|done|done|by intros []]
  | Hx : forM_ _ (λ kv, Exec_ (update_PodState _ _)) _ = _ |- _ =>
      apply (updates_Ok setPodJSON t_PodState set_PodState) in Hx as (? & -> & ?);
        [|by intros ? ? ? ? ? [= _ <-]|done|done|by intros []]
  | Hx : forM_ _ (λ kv, Exec_ (update_VolumeState _ _)) _ = _ |- _ =>
      apply (updates_Ok setVolJSON t_VolumeState set_VolumeState) in Hx as (? & -> & ?);
        [|by intros ? ? ? ? ? [= _ <-]|done|done|by intros []]
  end.
  sq_run. tx_fks Hk Hfk. do 3 eexists. split_and!; [eassumption|eassumption| |done|done].
  unfold resets. by rewrite map_fmap_id.
Qed.

Lemma updates_Some {A R} `{Json A} (reset : A → A) js f (m : gmap string R) out k :
  resets reset js m out → is_Some (updates f m out !! k) ↔ is_Some (m !! k).
Proof. intros HF. apply refreshed_dom. by eapply NoDup_refreshed. Qed.

Lemma srefreshed_inv cs ps vs db :
  SInv db → FKs (srefreshed cs ps vs db) → resets resetContainerState rs_JSON (t_ContainerState db) cs →
  resets resetPodState rq_JSON (t_PodState db) ps → resets resetVolumeState id (t_VolumeState db) vs →
  SInv (srefreshed cs ps vs db).
Proof.
  intros HI Hk HC HP HV. inv_rest HI; simpl.
  - intros k r Hr. destruct (refreshed_lookup _ _ _ _ _ _ _ HC Hr) as (r0 & s & j & Hr0 & -> & _).
    exact (si_exit _ HI k r0 Hr0).
  - intros k r Hr. by rewrite lookup_empty in Hr.
  - intros k r Hr. destruct (refreshed_lookup _ _ _ _ _ _ _ HC Hr) as (r0 & s & j & Hr0 & -> & Hs & Hj).
    apply unmarshal_marshal in Hj. unfold decCtrState. simpl. by rewrite Hj.
  - intros k r Hr. destruct (refreshed_lookup _ _ _ _ _ _ _ HP Hr) as (r0 & s & j & Hr0 & -> & Hs & Hj).
    apply unmarshal_marshal in Hj. unfold decPodState. simpl. by rewrite Hj.
  - intros k r Hr. destruct (refreshed_lookup _ _ _ _ _ _ _ HV Hr) as (r0 & s & j & Hr0 & -> & Hs & Hj).
    apply unmarshal_marshal in Hj. unfold decVolState, setVolJSON. by rewrite Hj.
Qed.

Lemma refreshed_infra ps db :
  resets resetPodState rq_JSON (t_PodState db) ps →
  omap rq_InfraContainerID (updates setPodJSON (t_PodState db) ps) = omap rq_InfraContainerID (t_PodState db).
Proof.
  intros HP. apply map_eq. intros k. rewrite !lookup_omap.
  destruct (updates _ _ _ !! k) as [r|] eqn:Hr.
  - destruct (refreshed_lookup _ _ _ _ _ _ _ HP Hr) as (r0 & s & j & -> & -> & _). done.
  - destruct (t_PodState db !! k) as [r0|] eqn:Hr0; [|done].
    destruct (proj2 (updates_Some _ _ setPodJSON _ _ k HP)) as [x Hx]; [by eauto|]. congruence.
Qed.

Lemma Refresh_steps : steps SQLite_Refresh (λ st, spec_write st CRefresh).
Proof.
  intros w a w' HI Hfk (cs & ps & vs & HC & HP & HV & Hdb & Hk)%Refresh_db; [|done]. rewrite Hdb in *.
  split; [by apply srefreshed_inv|]. unfold spec_write, abs. simpl. f_equal.
  - by apply (refreshed_join resetContainerState rs_JSON).
  - by apply (refreshed_join resetPodState rq_JSON).
  - by apply refreshed_infra.
  - by apply (refreshed_join resetVolumeState id).
Qed.
End refresh.
