(* ===== verification/SqliteReads.v ===== *)
(** * SqliteReads: what the calls that read return

    A successful call that reads returns what the specification says of the
    abstraction of the database. *)

From S2P Require Import Prelude Define Bolt BoltTx BoltInternal BoltState BoltOps Sqlite SqliteState.
From S2P Require Import StateSpec SqliteInv SqliteFrame SqliteAbs SqliteWrites SqliteSaves SqliteRefresh.

(** Documented behaviour of the decoder: the empty text is not JSON. *)
Class EmptyTextLaws `{Runtime} : Prop := {
  empty_ctrState : ∀ s : ContainerState, unmarshal "" ≠ Ok s;
  empty_podState : ∀ s : podState, unmarshal "" ≠ Ok s;
  empty_volConfig : ∀ c : VolumeConfig, unmarshal "" ≠ Ok c }.

(** ** Rows in any order *)

Lemma filter_all {A} (l : list A) : filter (λ _, True) l = l.
Proof. induction l as [|x l IH]; [done|]. rewrite filter_cons_True by done. by rewrite IH. Qed.

Section rows.
Context `{RowOrder}.

Lemma scan_singleton {A} (l : list A) x : scan l = [x] → l = [x].
Proof. intros Hs. apply Permutation_singleton_r. by rewrite <-Hs, scan_perm. Qed.

Lemma lists_ids_scan (P : string → Prop) l : NoDup l → (∀ id, id ∈ l ↔ P id) → lists_ids P (scan l).
Proof. intros Hnd Hl. split; [by rewrite scan_perm|]. intros id. by rewrite scan_perm. Qed.

(** A listing of the rows that satisfy [sel], each decoded with [D]. *)
Lemma lists_scan {R X T B} (m : gmap string R) (M : gmap string X) (sel : string * R → Prop)
    `{!∀ x, Decision (sel x)} (f : string * R → T) (D : T → B → Prop) loads P rows l :
  rows ≡ₚ f <$> filter sel (map_to_list m) →
  (∀ id r, m !! id = Some r → sel (id, r) → ∃ x, M !! id = Some x ∧ P id x ∧ ∀ y, D (f (id, r)) y → loads x y) →
  (∀ id x, M !! id = Some x → P id x → ∃ r, m !! id = Some r ∧ sel (id, r)) →
  Forall2 D rows l → lists loads M P l.
Proof.
  intros Hperm Hin Hout HF. apply Permutation_map_inv in Hperm as (L & -> & HL).
  assert (∀ id r, (id, r) ∈ L ↔ m !! id = Some r ∧ sel (id, r)) as HLin.
  { intros id r. rewrite <-HL, list_elem_of_filter, elem_of_map_to_list. tauto. }
  exists L.*1. split_and!.
  - apply NoDup_fmap_2_strong; [|rewrite <-HL; apply NoDup_filter, NoDup_map_to_list].
    intros [i r] [j q] [Hi _]%HLin [Hj _]%HLin Hij. simpl in Hij. congruence.
  - intros id. rewrite list_elem_of_fmap. split.
    + intros ([i r] & -> & [Hr Hs]%HLin). destruct (Hin _ _ Hr Hs) as (x & Hx & HP & _). eauto.
    + intros (x & Hx & HP). destruct (Hout _ _ Hx HP) as (r & Hr & Hs). exists (id, r). split; [done|]. by apply HLin.
  - apply Forall2_fmap_l. change (map f L) with (f <$> L) in HF. rewrite Forall2_fmap_l in HF.
    apply Forall2_lookup. intros i. pose proof (proj1 (Forall2_lookup _ _ _) HF i) as Hi.
    destruct (L !! i) as [[id r]|] eqn:Hl; inversion Hi as [? y Hd Heq Hy|]; constructor.
    destruct (HLin id r) as [[Hr Hs] _]; [by eapply list_elem_of_lookup_2|].
    destruct (Hin _ _ Hr Hs) as (q & Hx & _ & Hload). exists q. split; [done|]. by apply Hload.
Qed.

(** A lookup that found one row *)
Lemma denotes_scan {R X} (m : gmap string R) (M : gmap string X) (sel : string * R → Prop)
    `{!∀ x, Decision (sel x)} (hit : string → X → Prop) id r x :
  (∀ k y, M !! k = Some y → ∃ r, m !! k = Some r ∧ (sel (k, r) ↔ hit k y)) → M !! id = Some x →
  scan (filter sel (map_to_list m)) = [(id, r)] → denotes M hit id x.
Proof.
  intros Hm Hx Hs%scan_singleton.
  assert (∀ k q, m !! k = Some q ∧ sel (k, q) ↔ (k, q) = (id, r)) as Hin.
  { intros k q. rewrite <-(list_elem_of_singleton (k, q) (id, r)), <-Hs, list_elem_of_filter, elem_of_map_to_list. tauto. }
  split_and!; [done| |].
  - destruct (Hm _ _ Hx) as (q & Hq & Hsel). apply Hsel. destruct (proj2 (Hin id r) eq_refl) as [Hr Hs']. by simplify_eq.
  - intros k y Hy Hk. destruct (Hm _ _ Hy) as (q & Hq & Hsel). apply Hsel in Hk.
    assert ((k, q) = (id, r)) as [= -> _] by (by apply Hin). done.
Qed.
End rows.

Section reads.
Context `{RuntimeLaws, !EmptyTextLaws, RowOrder}.

Definition same_db (w w' : SWorld) : Prop := s_db w' = s_db w.
#[local] Instance same_db_preorder : PreOrder same_db.
Proof. split; [done|]. intros x y z Hxy Hyz. unfold same_db in *. congruence. Qed.

Lemma finalizeCtr_Ok c s w x w' :
  finalizeCtrSqlite c s w = (Ok x, w') → loads_ctr c s x ∧ same_db w w'.
Proof.
  intros Hr. split; [|by eapply ro_finalizeCtr]. unfold finalizeCtrSqlite in Hr.
  apply st_bind_Ok in Hr as (l & w1 & [Hl ->]%lift_Ok & Hr). apply st_bind_Ok in Hr as (o & w2 & _ & Hr).
  unfold mret, st_ret in Hr. simplify_eq. repeat split. eauto.
Qed.

Lemma createPod_Ok j w p w' :
  createPod j w = (Ok p, w') → ∃ c, unmarshal j = Ok c ∧ loads_pod c p ∧ same_db w w'.
Proof.
  unfold createPod. intros Hr. sq_inv. eexists. split; [done|]. split; [|done]. repeat split. eauto.
Qed.

Lemma finalizeVolume_Ok c w v w' :
  finalizeVolumeSqlite c w = (Ok v, w') → loads_vol c v ∧ same_db w w'.
Proof. unfold finalizeVolumeSqlite. intros Hr. sq_inv. repeat split. eauto. Qed.

Lemma decodeCtrs_Ok rows w out w' :
  decodeCtrs rows w = (Ok out, w') →
  Forall2 (λ j cs, unmarshal j = Ok cs.1 ∧ cs.2 = newContainerState) rows out ∧ same_db w w'.
Proof.
  unfold decodeCtrs. intros Hr. eapply (foldM_collect _ same_db) in Hr as (ys & -> & HF & HR); [by split|].
  intros acc j w1 out1 w1' Hx. sq_inv. eexists. split; [done|]. by split.
Qed.

Lemma finalizeCtrs_Ok l w out w' :
  finalizeCtrs l w = (Ok out, w') → Forall2 (λ cs x, loads_ctr cs.1 cs.2 x) l out ∧ same_db w w'.
Proof.
  unfold finalizeCtrs. intros Hr. eapply (foldM_collect _ same_db) in Hr as (ys & -> & HF & HR); [by split|].
  intros acc cs w1 out1 w1' Hx. apply st_bind_Ok in Hx as (x & w2 & [Hl Hs]%finalizeCtr_Ok & Hx).
  unfold mret, st_ret in Hx. simplify_eq. by exists x.
Qed.

Lemma scanJSON_Ok f g e w j w' :
  scanJSON f g e w = (Ok j, w') → f (s_db w) = Some j ∨ j = "".
Proof.
  unfold scanJSON. rewrite st_bind_Ok. intros (row & w1 & [Hrow _]%Query_catch & Hr).
  destruct row as [[j'|]|e'].
  - unfold mret, st_ret in Hr. simplify_eq. left. destruct Hrow as [[= <-]|[[=] _]]. done.
  - by apply st_bind_Ok in Hr as (? & ? & _ & ?).
  - unfold mret, st_ret in Hr. simplify_eq. by right.
Qed.

Lemma getCtrConfig_Ok id w c w' :
  SInv (s_db w) → getCtrConfig id w = (Ok c, w') → ∃ s, a_ctrs (abs (s_db w)) !! id = Some (c, s).
Proof.
  intros HI. unfold getCtrConfig. intros Hr. sq_inv.
  rename select (t_ContainerConfig _ !! _ = _) into Hx. destruct (abs_ctr_row HI _ _ Hx) as (c' & s & t & Hcs & _ & Hw & _). exists s.
  pose proof (cw_dec _ _ _ _ Hw). congruence.
Qed.

(** A run of [m] that succeeds returns what [Q] says of the abstract state. *)
Definition returns {A} (m : SM A) (Q : AState → A → Prop) : Prop :=
  ∀ w a w', SInv (s_db w) → m w = (Ok a, w') → Q (abs (s_db w)) a.

Lemma joinCtrs_eq db : SInv db →
  joinCtrs db = (λ kr, (rc_JSON kr.2, default "" (rs_JSON <$> t_ContainerState db !! kr.1))) <$> map_to_list (t_ContainerConfig db).
Proof.
  intros HI. unfold joinCtrs.
  assert (∀ kr, kr ∈ map_to_list (t_ContainerConfig db) → is_Some (t_ContainerState db !! kr.1)) as Hall.
  { intros [k r] Hk%elem_of_map_to_list. apply (k_ctr_state _ (si_fks _ HI)). eauto. }
  induction (map_to_list (t_ContainerConfig db)) as [|kr l IH]; [done|].
  rewrite fmap_cons. cbn [omap list_omap]. destruct (Hall kr) as [s Hs]; [by left|].
  rewrite Hs. simpl. f_equal. apply IH. intros kr' Hk. apply Hall. by right.
Qed.

Lemma scan_one {R} (sel : string * R → Prop) `{!∀ x, Decision (sel x)} (m : gmap string R) kr :
  scan (filter sel (map_to_list m)) = [kr] → m !! kr.1 = Some kr.2.
Proof.
  intros Hl%scan_singleton. apply elem_of_map_to_list. destruct kr as [k r].
  apply (proj1 (list_elem_of_filter sel (map_to_list m) (k, r))). rewrite Hl. by left.
Qed.

Lemma lookup_one_ctr db x kr :
  SInv db → lookupCtrRows x db = [kr] →
  ∃ c s, denotes (a_ctrs (abs db)) (lookup_ctr x) kr.1 (c, s) ∧ unmarshal (rc_JSON kr.2) = Ok c.
Proof.
  intros HI Hl. unfold lookupCtrRows in Hl. pose proof (scan_one _ _ _ Hl) as Hid.
  destruct (abs_ctr_row HI _ _ Hid) as (c & s & t & Hcs & _ & Hw & _). exists c, s. split; [|apply Hw].
  destruct kr as [id r]. eapply (denotes_scan _ _ _ _ _ _ _ _ Hcs Hl). Unshelve.
  intros k [c' s'] (q & t' & Hq & _ & Hw' & _)%(abs_ctr HI). exists q. split; [done|].
  unfold lookup_ctr. simpl. by rewrite (cw_name _ _ _ _ Hw').
Qed.

Lemma lookup_one_pod db x kr :
  SInv db → scan (filter (λ kr, matchesLookup x kr.1 (rp_Name kr.2)) (map_to_list (t_PodConfig db))) = [kr] →
  ∃ c s, denotes (a_pods (abs db)) (lookup_pod x) kr.1 (c, s) ∧ unmarshal (rp_JSON kr.2) = Ok c.
Proof.
  intros HI Hl. pose proof (scan_one _ _ _ Hl) as Hid.
  destruct (abs_pod_row HI _ _ Hid) as (c & s & t & Hcs & _ & Hc & _). exists c, s. split; [|done].
  destruct kr as [id r]. eapply (denotes_scan _ _ _ _ _ _ _ _ Hcs Hl). Unshelve.
  intros k [c' s'] (q & t' & Hq & _ & _ & _ & Hn & _)%(abs_pod HI). exists q. split; [done|].
  unfold lookup_pod. simpl. by rewrite Hn.
Qed.

Lemma lookup_one_vol db x kr :
  SInv db → scan (filter (λ kr, like (x +:+ "%") kr.1) (map_to_list (t_VolumeConfig db))) = [kr] →
  ∃ c s, denotes (a_vols (abs db)) (λ n _, like (x +:+ "%") n) kr.1 (c, s) ∧ unmarshal (rv_JSON kr.2) = Ok c.
Proof.
  intros HI Hl. pose proof (scan_one _ _ _ Hl) as Hid.
  destruct (abs_vol_row HI _ _ Hid) as (c & s & t & Hcs & _ & Hc & _). exists c, s. split; [|done].
  destruct kr as [id r]. eapply (denotes_scan _ _ _ _ _ _ _ _ Hcs Hl). Unshelve.
  intros k [c' s'] (q & t' & Hq & _)%(abs_vol HI). by exists q.
Qed.

(** ** Listings *)

(** The configurations of the selected rows, decoded and finalized *)
Lemma ctr_listing db (sel : string * ContainerConfigRow → Prop) `{!∀ x, Decision (sel x)} P out l :
  SInv db →
  (∀ id r c s, t_ContainerConfig db !! id = Some r → a_ctrs (abs db) !! id = Some (c, s) → sel (id, r) ↔ P id (c, s)) →
  Forall2 (λ j cs, unmarshal j = Ok cs.1 ∧ cs.2 = newContainerState)
    (scan (rc_JSON ∘ snd <$> filter sel (map_to_list (t_ContainerConfig db)))) out →
  Forall2 (λ cs x, loads_ctr cs.1 cs.2 x) out l →
  lists (λ cs, loads_ctr cs.1 newContainerState) (a_ctrs (abs db)) P l.
Proof.
  intros HI HP HD HF. eapply (lists_scan (t_ContainerConfig db) _ sel (rc_JSON ∘ snd)
    (λ j x, ∃ c, unmarshal j = Ok c ∧ loads_ctr c newContainerState x)); [apply scan_perm| | |].
  - intros id r Hid Hs. destruct (abs_ctr_row HI _ _ Hid) as (c & s & t & Hcs & _ & Hw & _).
    exists (c, s). split_and!; [done|by eapply HP|]. simpl. rewrite (cw_dec _ _ _ _ Hw). naive_solver.
  - intros id [c s] Hcs Hp. pose proof Hcs as (r & t & Hr & _)%(abs_ctr HI). exists r. split; [done|]. by eapply HP.
  - eapply Forall2_trans; [|exact HD|exact HF]. intros j [c s] x [Hj Hs] Hl. simpl in *. subst. eauto.
Qed.

Lemma AllContainers_returns b :
  returns (SQLite_AllContainers b) (λ a l, spec_read (CAllContainers b) a (RCtrs l)).
Proof.
  unfold SQLite_AllContainers. intros w l w' HI Hr. sq_inv.
  rename select (_ = (Ok l, _)) into Hf. apply finalizeCtrs_Ok in Hf as [HF _].
  exists l. split; [done|]. destruct b; sq_inv.
  - rename select (foldM _ _ _ _ = _) into Hd.
    eapply (foldM_collect (λ r cs, unmarshal r.1 = Ok cs.1 ∧ unmarshal r.2 = Ok cs.2) same_db) in Hd as (ys & -> & HD & _).
    2:{ intros acc r w1 out1 w1' Hx. sq_inv. eexists. split; [done|]. by split. }
    rewrite (joinCtrs_eq _ HI) in HD.
    eapply (lists_scan (t_ContainerConfig (s_db w)) _ (λ _, True)
      (λ kr, (rc_JSON kr.2, default "" (rs_JSON <$> t_ContainerState (s_db w) !! kr.1)))
      (λ r x, ∃ c s, unmarshal r.1 = Ok c ∧ unmarshal r.2 = Ok s ∧ loads_ctr c s x));
      [rewrite filter_all; apply scan_perm| | |].
    + intros id r Hid _. destruct (abs_ctr_row HI _ _ Hid) as (c & s & t & Hcs & Ht & Hw & Hs).
      exists (c, s). split_and!; [done|done|]. simpl. rewrite Ht. simpl. rewrite (cw_dec _ _ _ _ Hw), Hs. naive_solver.
    + intros id [c s] (r & t & Hr & _)%(abs_ctr HI) _. eauto.
    + eapply Forall2_trans; [|exact HD|exact HF]. intros j [c s] y [Hj Hs] Hl. simpl in *. eauto.
  - rename select (decodeCtrs _ _ = _) into Hd. apply decodeCtrs_Ok in Hd as [HD _].
    eapply (ctr_listing _ (λ _, True)); [done|done| |exact HF]. by rewrite filter_all.
Qed.

Lemma PodContainers_returns pod :
  returns (SQLite_PodContainers pod) (λ a l, spec_read (CPodContainers pod) a (RCtrs l)).
Proof.
  unfold SQLite_PodContainers. intros w l w' HI Hr. sq_inv. split; [done|].
  rename select (_ = (Ok l, _)) into Hf. apply finalizeCtrs_Ok in Hf as [HF _].
  rename select (decodeCtrs _ _ = _) into Hd. apply decodeCtrs_Ok in Hd as [HD _].
  exists l. split; [done|]. eapply ctr_listing; [done| |exact HD|exact HF].
  intros id r c s Hid Hcs. rewrite <-(abs_member HI). split; [eauto|]. intros (r' & ? & ?). by simplify_eq.
Qed.

Lemma AllPods_returns : returns SQLite_AllPods (λ a l, spec_read CAllPods a (RPods l)).
Proof.
  unfold SQLite_AllPods. intros w l w' HI Hr. sq_inv. exists l. split; [done|].
  eapply (foldM_collect (λ j p, ∃ c, unmarshal j = Ok c ∧ loads_pod c p) same_db) in Hr as (ys & -> & HD & _).
  2:{ intros acc j w1 out1 w1' Hx. apply st_bind_Ok in Hx as (p & w2 & (c & ? & ? & ?)%createPod_Ok & Hx).
      unfold mret, st_ret in Hx. simplify_eq. eauto 10. }
  eapply (lists_scan (t_PodConfig (s_db w)) _ (λ _, True) (rp_JSON ∘ snd)
    (λ j p, ∃ c, unmarshal j = Ok c ∧ loads_pod c p)); [rewrite filter_all; apply scan_perm| | |exact HD].
  - intros id r Hid _. destruct (abs_pod_row HI _ _ Hid) as (c & s & t & Hcs & _ & Hc & _).
    exists (c, s). split_and!; [done|done|]. simpl. rewrite Hc. naive_solver.
  - intros id [c s] (r & t & Hr & _)%(abs_pod HI) _. eauto.
Qed.

Lemma AllVolumes_returns : returns SQLite_AllVolumes (λ a l, spec_read CAllVolumes a (RVols l)).
Proof.
  unfold SQLite_AllVolumes. intros w l w' HI Hr. sq_inv. exists l. split; [done|].
  eapply (foldM_collect (λ j v, ∃ c, unmarshal j = Ok c ∧ loads_vol c v) same_db) in Hr as (ys & -> & HD & _).
  2:{ intros acc j w1 out1 w1' Hx. apply st_bind_Ok in Hx as (c & w2 & [? ->]%lift_Ok & Hx).
      apply st_bind_Ok in Hx as (v & w3 & [? ?]%finalizeVolume_Ok & Hx). unfold mret, st_ret in Hx. simplify_eq. eauto 10. }
  eapply (lists_scan (t_VolumeConfig (s_db w)) _ (λ _, True) (rv_JSON ∘ snd)
    (λ j v, ∃ c, unmarshal j = Ok c ∧ loads_vol c v)); [rewrite filter_all; apply scan_perm| | |exact HD].
  - intros id r Hid _. destruct (abs_vol_row HI _ _ Hid) as (c & s & t & Hcs & _ & Hc & _).
    exists (c, s). split_and!; [done|done|]. simpl. rewrite Hc. naive_solver.
  - intros id [c s] (r & t & Hr & _)%(abs_vol HI) _. eauto.
Qed.

(** ** Single objects *)

Lemma Lookup_returns x :
  returns (SQLite_LookupContainerID x) (λ a id, spec_read (CLookupContainerID x) a (RString id)).
Proof.
  unfold SQLite_LookupContainerID. intros w a w' HI Hr. sq_inv. split; [done|].
  rename select (lookupCtrRows _ _ = _) into Hl. destruct (lookup_one_ctr _ _ _ HI Hl) as (c & s & Hd & _). eauto.
Qed.

Lemma LookupContainer_returns x :
  returns (SQLite_LookupContainer x) (λ a c, spec_read (CLookupContainer x) a (RCtr c)).
Proof.
  unfold SQLite_LookupContainer. intros w a w' HI Hr. sq_inv. split; [done|].
  rename select (lookupCtrRows _ _ = _) into Hl. destruct (lookup_one_ctr _ _ _ HI Hl) as (c & s & Hd & Hc).
  apply finalizeCtr_Ok in Hr as [Hld _]. eexists _, (c, s), a. split_and!; [done| |done]. simpl. congruence.
Qed.

Lemma LookupPod_returns x : returns (SQLite_LookupPod x) (λ a p, spec_read (CLookupPod x) a (RPod p)).
Proof.
  unfold SQLite_LookupPod. intros w a w' HI Hr. sq_inv. split; [done|].
  rename select (scan _ = _) into Hl. destruct (lookup_one_pod _ _ _ HI Hl) as (c & s & Hd & Hc).
  apply createPod_Ok in Hr as (c' & Hc' & Hld & _). eexists _, (c, s), a. split_and!; [done| |done]. simpl. congruence.
Qed.

Lemma LookupVolume_returns x : returns (SQLite_LookupVolume x) (λ a v, spec_read (CLookupVolume x) a (RVol v)).
Proof.
  unfold SQLite_LookupVolume. intros w a w' HI Hr. sq_inv. split; [done|].
  rename select (scan _ = _) into Hl. destruct (lookup_one_vol _ _ _ HI Hl) as (c & s & Hd & Hc).
  apply finalizeVolume_Ok in Hr as [Hld _]. eexists _, (c, s), a. split_and!; [done| |done]. simpl. congruence.
Qed.

Lemma Container_returns id : returns (SQLite_Container id) (λ a c, spec_read (CContainer id) a (RCtr c)).
Proof.
  unfold SQLite_Container. intros w a w' HI Hr. sq_inv. split; [done|].
  rename select (getCtrConfig _ _ = _) into Hg. apply getCtrConfig_Ok in Hg as [s Hs]; [|done].
  apply finalizeCtr_Ok in Hr as [Hld _]. eauto 10.
Qed.

Lemma Pod_returns id : returns (SQLite_Pod id) (λ a p, spec_read (CPod id) a (RPod p)).
Proof.
  unfold SQLite_Pod. intros w a w' HI Hr. sq_inv. split; [done|].
  rename select (t_PodConfig _ !! _ = _) into Hx. destruct (abs_pod_row HI _ _ Hx) as (c & s & t & Hcs & _ & Hc & _).
  apply createPod_Ok in Hr as (c' & Hc' & Hld & _). assert (c' = c) as -> by congruence. by exists c, s, a.
Qed.

Lemma Volume_returns name : returns (SQLite_Volume name) (λ a v, spec_read (CVolume name) a (RVol v)).
Proof.
  unfold SQLite_Volume. intros w a w' HI Hr. sq_inv. split; [done|].
  rename select (catch _ _ = _) into Hq. apply Query_catch in Hq as [Hrow (l & -> & _)]. cbn [s_db sw_set_faults] in *.
  destruct Hrow as [-> |[-> _]].
  - destruct (t_VolumeConfig (s_db w) !! name) as [r|] eqn:Hrow; [|done]. sq_inv.
    destruct (abs_vol_row HI _ _ Hrow) as (c & s & t & Hcs & _ & Hc & _).
    apply finalizeVolume_Ok in Hr as [Hld _]. eexists c, s, a. split_and!; [done|congruence|done].
  - sq_inv. rename select (unmarshal _ = Ok _) into Hu. by apply empty_volConfig in Hu.
Qed.

Lemma UpdateContainer_returns ctr :
  returns (SQLite_UpdateContainer ctr) (λ a s, spec_read (CUpdateContainer ctr) a (RCtrState s)).
Proof.
  unfold SQLite_UpdateContainer. intros w a w' HI Hr. sq_inv. split; [done|].
  rename select (scanJSON _ _ _ _ = _) into Hs. apply scanJSON_Ok in Hs as [(t & Ht & ->)%fmap_Some| ->].
  - destruct (k_state_ctr _ (si_fks _ HI) (ctr_ID ctr)) as [r Hr1]; [by eauto|].
    destruct (abs_ctr_row HI _ _ Hr1) as (c & s & t' & Hcs & Ht' & _ & Hs). simplify_eq. eexists c, s.
    split; [done|congruence].
  - by destruct (empty_ctrState a).
Qed.

Lemma UpdatePod_returns pod :
  returns (SQLite_UpdatePod pod) (λ a s, spec_read (CUpdatePod pod) a (RPodState s)).
Proof.
  unfold SQLite_UpdatePod. intros w a w' HI Hr. sq_inv. split; [done|].
  rename select (scanJSON _ _ _ _ = _) into Hs. apply scanJSON_Ok in Hs as [(t & Ht & ->)%fmap_Some| ->].
  - destruct (k_state_pod _ (si_fks _ HI) (pod_ID pod)) as [r Hr1]; [by eauto|].
    destruct (abs_pod_row HI _ _ Hr1) as (c & s & t' & Hcs & Ht' & _ & _ & _ & Hs). simplify_eq. eexists c, s.
    split; [done|congruence].
  - by destruct (empty_podState a).
Qed.

Lemma UpdateVolume_returns vol :
  returns (SQLite_UpdateVolume vol) (λ a s, spec_read (CUpdateVolume vol) a (RVolState s)).
Proof.
  unfold SQLite_UpdateVolume. intros w a w' HI Hr. sq_inv. split; [done|].
  destruct (k_state_vol _ (si_fks _ HI) (vol_Name vol)) as [r Hr1]; [by eauto|].
  destruct (abs_vol_row HI _ _ Hr1) as (c & s & t' & Hcs & Ht' & _ & _ & Hs). simplify_eq. eexists c, s.
  split; [done|congruence].
Qed.

Lemma GetNetworks_returns ctr :
  returns (SQLite_GetNetworks ctr) (λ a n, spec_read (CGetNetworks ctr) a (RNetworks n)).
Proof.
  unfold SQLite_GetNetworks. intros w a w' HI Hr. sq_inv. split; [done|].
  destruct (IsBridge _); sq_inv; [|done].
  rename select (catch _ _ = _) into Hg. rewrite catch_Ok in Hg.
  match type of Hg with _ = (?r, _) => destruct r as [c|e] end.
  - apply getCtrConfig_Ok in Hg as [s Hs]; [|done]. sq_inv. eauto.
  - apply st_bind_Ok in Hr as (? & ? & _ & Hr). done.
Qed.
End reads.
