(* ===== verification/SqliteOps.v ===== *)
(** * SqliteOps: every call of the SQLite state implements the specification

    With the step relation of the system, and the transaction that [RemovePodContainers]
    abandons. *)

From S2P Require Import Prelude Define Bolt BoltTx BoltInternal BoltState BoltOps Sqlite SqliteState StateSpec.
From S2P Require Import SqliteInv SqliteFrame SqliteAbs SqliteWrites SqliteSaves SqliteRefresh SqliteReads.

Section ops.
Context `{RuntimeLaws, !EmptyTextLaws, RowOrder}.

(** ** Names, tests and listings of IDs *)

Lemma GetContainerName_returns id :
  returns (SQLite_GetContainerName id) (λ a n, spec_read (CGetContainerName id) a (RString n)).
Proof.
  unfold SQLite_GetContainerName. intros w a w' HI Hr. sq_inv. split; [done|].
  rename select (t_ContainerConfig _ !! _ = _) into Hx. destruct (abs_ctr_row HI _ _ Hx) as (c & s & t & Hcs & _ & Hw & _).
  exists c, s. split; [done|]. by rewrite (cw_name _ _ _ _ Hw).
Qed.

Lemma GetPodName_returns id :
  returns (SQLite_GetPodName id) (λ a n, spec_read (CGetPodName id) a (RString n)).
Proof.
  unfold SQLite_GetPodName. intros w a w' HI Hr. sq_inv. split; [done|].
  rename select (t_PodConfig _ !! _ = _) into Hx. destruct (abs_pod_row HI _ _ Hx) as (c & s & t & Hcs & _ & _ & _ & Hn & _).
  exists c, s. split; [done|]. by rewrite Hn.
Qed.

Lemma HasContainer_returns id :
  returns (SQLite_HasContainer id) (λ a b, spec_read (CHasContainer id) a (RBool b)).
Proof.
  unfold SQLite_HasContainer. intros w a w' HI Hr. sq_inv. split; [done|]. do 2 f_equal.
  apply bool_decide_ext. by rewrite (abs_ctr_Some HI).
Qed.

Lemma HasPod_returns id : returns (SQLite_HasPod id) (λ a b, spec_read (CHasPod id) a (RBool b)).
Proof.
  unfold SQLite_HasPod. intros w a w' HI Hr. sq_inv. split; [done|]. do 2 f_equal.
  apply bool_decide_ext. by rewrite (abs_pod_Some HI).
Qed.

Lemma HasVolume_returns name : returns (SQLite_HasVolume name) (λ a b, spec_read (CHasVolume name) a (RBool b)).
Proof.
  unfold SQLite_HasVolume. intros w a w' HI Hr. sq_inv. split; [done|]. do 2 f_equal.
  apply bool_decide_ext. by rewrite (abs_vol_Some HI).
Qed.

Lemma GetContainerConfig_returns id :
  returns (SQLite_GetContainerConfig id) (λ a c, spec_read (CGetContainerConfig id) a (RCtrConfig c)).
Proof.
  unfold SQLite_GetContainerConfig. intros w a w' HI Hr. sq_inv. split; [done|].
  apply getCtrConfig_Ok in Hr as [s Hs]; [|done]. eauto.
Qed.

Lemma ContainerInUse_returns ctr :
  returns (SQLite_ContainerInUse ctr) (λ a l, spec_read (CContainerInUse ctr) a (RStrings l)).
Proof.
  unfold SQLite_ContainerInUse. intros w a w' HI Hr. sq_inv. split; [done|]. eexists. split; [|done].
  apply lists_ids_scan.
  - apply NoDup_fmap_2_strong; [|apply NoDup_elements].
    intros [i d] [j d'] [? _]%elem_of_elements%elem_of_filter [? _]%elem_of_elements%elem_of_filter. simpl in *. congruence.
  - intros id. rewrite <-(abs_depends HI), list_elem_of_fmap. split.
    + intros ([i d] & -> & [<- ?]%elem_of_elements%elem_of_filter). done.
    + intros Hd. exists (id, ctr_ID ctr). split; [done|]. by apply elem_of_elements, elem_of_filter.
Qed.

Lemma VolumeInUse_returns vol :
  returns (SQLite_VolumeInUse vol) (λ a l, spec_read (CVolumeInUse vol) a (RStrings l)).
Proof.
  unfold SQLite_VolumeInUse. intros w a w' HI Hr. sq_inv. split; [done|]. eexists. split; [|done].
  apply lists_ids_scan; [apply NoDup_volumeUsers|]. intros id. by rewrite <-(abs_uses HI), volumeUsers_elem.
Qed.

Lemma GetContainerExecSessions_returns ctr :
  returns (SQLite_GetContainerExecSessions ctr) (λ a l, spec_read (CGetContainerExecSessions ctr) a (RStrings l)).
Proof.
  unfold SQLite_GetContainerExecSessions. intros w a w' HI Hr. sq_inv. split; [done|]. eexists. split; [|done].
  apply lists_ids_scan.
  - apply NoDup_fmap_2_strong; [|apply NoDup_filter, NoDup_map_to_list].
    intros [i d] [j d'] [? _]%list_elem_of_filter [? _]%list_elem_of_filter. simpl in *. congruence.
  - intros id. rewrite list_elem_of_fmap. split.
    + intros ([i d] & -> & [<- ?%elem_of_map_to_list]%list_elem_of_filter). done.
    + intros Hd. exists (id, ctr_ID ctr). split; [done|]. by apply list_elem_of_filter; rewrite elem_of_map_to_list.
Qed.

Lemma PodContainersByID_returns pod :
  returns (SQLite_PodContainersByID pod) (λ a l, spec_read (CPodContainersByID pod) a (RStrings l)).
Proof.
  unfold SQLite_PodContainersByID. intros w a w' HI Hr. sq_inv. split; [done|]. eexists. split; [|done].
  apply lists_ids_scan.
  - apply NoDup_fmap_2_strong; [|apply NoDup_filter, NoDup_map_to_list].
    intros [i d] [j d'] [? _]%podRows_elem [? _]%podRows_elem. simpl. congruence.
  - intros id. rewrite <-(abs_member HI), list_elem_of_fmap. setoid_rewrite <-podRows_elem.
    split; [intros ([i r] & -> & ?); eauto|]. intros [r ?]. by exists (id, r).
Qed.

Lemma PodHasContainer_returns pod id :
  returns (SQLite_PodHasContainer pod id) (λ a b, spec_read (CPodHasContainer pod id) a (RBool b)).
Proof.
  unfold SQLite_PodHasContainer. intros w a w' HI Hr. sq_inv. split_and!; [done|done|]. eexists. split; [done|].
  rewrite bool_decide_eq_true, Exists_exists, <-(abs_member HI). setoid_rewrite <-podRows_elem. split.
  - intros ([i r] & ? & <-). eauto.
  - intros [r ?]. by exists (id, r).
Qed.

Lemma ContainerIDIsVolume_returns id :
  returns (SQLite_ContainerIDIsVolume id) (λ a b, spec_read (CContainerIDIsVolume id) a (RBool b)).
Proof.
  unfold SQLite_ContainerIDIsVolume. intros w a w' HI Hr. sq_inv. eexists. split; [done|].
  rewrite bool_decide_eq_true, elem_of_column. split.
  - intros (v & r & Hr & Hs). destruct (abs_vol_row HI _ _ Hr) as (c & s & t & Hcs & _ & _ & Hst & _).
    rewrite Hst, nullString_Some in Hs. destruct Hs. split; [done|]. by exists v, c, s.
  - intros (Hne & v & c & s & (r & t & Hr & _ & _ & Hst & _)%(abs_vol HI) & Hid). exists v, r. split; [done|].
    by rewrite Hst, nullString_Some.
Qed.

(** ** All calls *)

(** What the caller guarantees; removing the containers of a pod is a case of its
    own. *)
Definition spre (c : call) : Prop :=
  match c with
  | CRewritePodConfig pod newCfg => pc_ID newCfg = pod_ID pod
  | CSaveVolume volume => is_Some (vol_state volume)
  | CRemovePodContainers _ => False
  | _ => True
  end.

Lemma rewriteContainerConfig_fails ctr c w r w' : rewriteContainerConfig ctr c w = (r, w') → is_Ok r = false.
Proof.
  destruct r as [u|e]; [|done]. unfold rewriteContainerConfig. intros Hr. sq_inv. done.
Qed.

Lemma networkModify_fails ctr n o new disc w r w' : networkModify ctr n o new disc w = (r, w') → is_Ok r = false.
Proof.
  destruct r as [u|e]; [|done]. unfold networkModify. intros Hr.
  repeat match goal with Hx : (_ ≫= _) _ = (Ok _, _) |- _ => apply st_bind_Ok in Hx as (? & ? & ? & Hx) end.
  rename select (rewriteContainerConfig _ _ _ = _) into Hf. by apply rewriteContainerConfig_fails in Hf.
Qed.

(** The call reads and returns what the specification says. *)
Lemma read_sound {A} (m : SM A) (f : A → reply) (c : call) w r w' :
  ro (as_reply f m) → returns m (λ a x, spec_read c a (f x)) → SInv (s_db w) → as_reply f m w = (Ok r, w') →
  SInv (s_db w') ∧ spec (s_faults w = []) c (abs (s_db w)) r (abs (s_db w')).
Proof.
  intros Hro Hret HI Hr. pose proof (Hro _ _ _ Hr) as Hdb. rewrite Hdb. split; [done|].
  apply as_reply_Ok in Hr as (x & Hm & ->). right. split; [|done]. by eapply Hret.
Qed.

Lemma write_sound (m : SM ()) (c : call) w r w' :
  steps m (λ st, spec_write st c) → SInv (s_db w) → s_fk w = true → unit_reply m w = (Ok r, w') →
  SInv (s_db w') ∧ spec (s_faults w = []) c (abs (s_db w)) r (abs (s_db w')).
Proof.
  intros Hst HI Hfk (x & Hm & ->)%as_reply_Ok. destruct (Hst _ _ _ HI Hfk Hm) as [? ?]. split; [done|]. by left.
Qed.

Lemma never_sound {A} (m : SM A) (f : A → reply) w r w' (P : Prop) :
  (∀ w r w', m w = (r, w') → is_Ok r = false) → as_reply f m w = (Ok r, w') → P.
Proof. intros Hm (x & Hx & _)%as_reply_Ok. by apply Hm in Hx. Qed.

Lemma never_steps {A} (m : SM A) Q : (∀ w r w', m w = (r, w') → is_Ok r = false) → steps m Q.
Proof. intros Hm w a w' _ _ Hr. by apply Hm in Hr. Qed.

Lemma RewriteContainerConfig_fails ctr c w r w' : SQLite_RewriteContainerConfig ctr c w = (r, w') → is_Ok r = false.
Proof.
  destruct r as [u|e]; [|done]. unfold SQLite_RewriteContainerConfig. intros Hr. sq_inv.
  by apply rewriteContainerConfig_fails in Hr.
Qed.

Lemma SafeRewriteContainerConfig_fails ctr o n c w r w' :
  SQLite_SafeRewriteContainerConfig ctr o n c w = (r, w') → is_Ok r = false.
Proof.
  destruct r as [u|e]; [|done]. unfold SQLite_SafeRewriteContainerConfig. intros Hr. sq_inv.
  by apply rewriteContainerConfig_fails in Hr.
Qed.

Lemma RewriteVolumeConfig_fails v c w r w' : SQLite_RewriteVolumeConfig v c w = (r, w') → is_Ok r = false.
Proof. destruct r as [u|e]; [|done]. unfold SQLite_RewriteVolumeConfig. intros Hr. by sq_inv. Qed.

Lemma GetDBConfig_returns : returns SQLite_GetDBConfig (λ a c, spec_read CGetDBConfig a (RConfig c)).
Proof. unfold SQLite_GetDBConfig. intros w a w' HI Hr. by sq_inv. Qed.

Lemma GetContainerExitCode_returns id :
  returns (SQLite_GetContainerExitCode id) (λ a z, spec_read (CGetContainerExitCode id) a (RInt z)).
Proof. unfold SQLite_GetContainerExitCode. intros w a w' HI Hr. sq_inv. split; [done|]. eauto. Qed.

Lemma GetContainerExitCodeTimeStamp_returns id :
  returns (SQLite_GetContainerExitCodeTimeStamp id) (λ a z, spec_read (CGetContainerExitCodeTimeStamp id) a (RInt z)).
Proof. unfold SQLite_GetContainerExitCodeTimeStamp. intros w a w' HI Hr. sq_inv. split; [done|]. eauto. Qed.

Lemma GetExecSession_returns id :
  returns (SQLite_GetExecSession id) (λ a c, spec_read (CGetExecSession id) a (RString c)).
Proof. unfold SQLite_GetExecSession. intros w a w' HI Hr. sq_inv. split; [done|]. eauto. Qed.

#[local] Hint Resolve GetDBConfig_returns GetContainerName_returns GetPodName_returns Container_returns Lookup_returns
  LookupContainer_returns HasContainer_returns UpdateContainer_returns ContainerInUse_returns AllContainers_returns
  GetContainerConfig_returns GetContainerExitCode_returns GetContainerExitCodeTimeStamp_returns GetExecSession_returns
  GetContainerExecSessions_returns ContainerIDIsVolume_returns Pod_returns LookupPod_returns HasPod_returns
  PodHasContainer_returns PodContainersByID_returns PodContainers_returns UpdatePod_returns AllPods_returns
  Volume_returns LookupVolume_returns HasVolume_returns VolumeInUse_returns UpdateVolume_returns AllVolumes_returns
  : libpod.
#[local] Hint Resolve Refresh_steps ValidateDBConfig_steps AddContainer_steps RemoveContainer_steps SaveContainer_steps
  AddContainerExitCode_steps PruneContainerExitCodes_steps AddExecSession_steps RemoveExecSession_steps
  RemoveContainerExecSessions_steps RewritePodConfig_steps AddPod_steps RemovePod_steps AddContainerToPod_steps
  RemoveContainerFromPod_steps SavePod_steps AddVolume_steps RemoveVolume_steps SaveVolume_steps : libpod.
#[local] Hint Extern 1 (steps (SQLite_RewriteContainerConfig _ _) _) =>
  apply never_steps; intros ? ? ?; apply RewriteContainerConfig_fails : libpod.
#[local] Hint Extern 1 (steps (SQLite_SafeRewriteContainerConfig _ _ _ _) _) =>
  apply never_steps; intros ? ? ?; apply SafeRewriteContainerConfig_fails : libpod.
#[local] Hint Extern 1 (steps (SQLite_RewriteVolumeConfig _ _) _) =>
  apply never_steps; intros ? ? ?; apply RewriteVolumeConfig_fails : libpod.

Lemma sexec_sound c w r w' :
  SInv (s_db w) → s_fk w = true → spre c → sexec c w = (Ok r, w') →
  SInv (s_db w') ∧ spec (s_faults w = []) c (abs (s_db w)) r (abs (s_db w')).
Proof.
  intros HI Hfk Hpre. destruct (reads c) eqn:Hc.
  - pose proof (sreads_ro c Hc) as Hro. destruct c; try discriminate Hc; clear Hc; cbn [sexec] in *;
      apply read_sound; auto with libpod; done.
  - destruct c; try discriminate Hc; clear Hc; cbn [sexec spre] in *; try done;
      try (by apply write_sound; auto with libpod);
      try (by apply never_sound; intros ? ? ?; apply networkModify_fails).
    apply read_sound; [|apply GetNetworks_returns|done]. apply ro_reply, ro_GetNetworks.
Qed.
End ops.

(** ** The SQLite state as a system of steps *)

Section reach.
Context `{RuntimeLaws, !EmptyTextLaws, RowOrder}.

(** A call returns, the environment decides which of the next calls of the engine
    fail, or the process ends and another one opens the file. *)
Inductive sstep : SWorld → SWorld → Prop :=
| sstep_call c w r w' : spre c → sexec c w = (r, w') → sstep w w'
| sstep_faults w l : sstep w (sw_set_faults l w)
| sstep_reopen w rts l w' f : NewSqliteState (Some (s_db w)) rts l = (Ok w', f) → sstep w w'.

Definition consistent (w : SWorld) : Prop := SInv (s_db w) ∧ s_fk w = true.

Lemma sqliteInitTables_Ok w u w' : sqliteInitTables w = (Ok u, w') → s_db w' = s_db w ∧ s_fk w' = s_fk w.
Proof.
  unfold sqliteInitTables. intros Hr. assert (kc sqliteInitTables) as Hkc by (unfold sqliteInitTables; auto with libpod).
  split; [|by apply Hkc in Hr as [Hc _]; injection Hc]. sq_step. simpl.
  apply (forM_ind (λ w', s_db w' = s_db w)) in Hr; [done| |done].
  intros t w1 u1 w2 _ Hw1 Ht. sq_step. by injection Ht as _ <-.
Qed.

(** Opening a file does not change its content, and turns foreign keys on. *)
Lemma NewSqliteState_Ok file rts l w f :
  NewSqliteState file rts l = (Ok w, f) → s_db w = default emptyDatabase file ∧ s_fk w = true.
Proof.
  unfold NewSqliteState. set (w0 := mkSWorld _ _ _ _ _ _ _ _). intros Hr.
  match type of Hr with context [match ?m w0 with _ => _ end] => destruct (m w0) as [[[b [u|e]]|e] w1] eqn:Hm end; try done.
  injection Hr as <- <-. simpl. sq_inv.
  repeat match goal with Hx : io _ = _ |- _ => apply io_run in Hx as (? & -> & _) end.
  rename select (catch sqliteInitTables _ = _) into Hi. rewrite catch_Ok in Hi.
  match type of Hi with _ = (?r, _) => destruct r as [u'|e'] end; [|sq_inv; congruence].
  apply sqliteInitTables_Ok in Hi as [Hdb Hfk]. sq_inv.
  rename select (catch migrateSchemaIfNecessary _ = _) into Hg. rewrite catch_Ok in Hg.
  assert (ro migrateSchemaIfNecessary ∧ kc migrateSchemaIfNecessary) as [Hro Hkc]
    by (unfold migrateSchemaIfNecessary; auto 10 with libpod).
  pose proof (Hro _ _ _ Hg) as Hdb'. apply Hkc in Hg as [Hc _]. injection Hc as _ _ Hfk' _.
  subst. split; [by rewrite Hdb', Hdb|congruence].
Qed.

Lemma sexec_fk c w r w' :
  (∀ pod, c ≠ CRemovePodContainers pod) → sexec c w = (r, w') → s_fk w' = s_fk w ∧ s_locked w' = s_locked w.
Proof.
  intros Hp Hr. assert (c = CClose ∨ kc (sexec c)) as [->|Hkc].
  { destruct c; try (by left); right; by apply sexec_kc. }
  - revert Hr. cbn [sexec]. unfold unit_reply, as_reply, SQLite_Close, catch, mbind, st_bind, modify, lift.
    destruct (io w) as [[u|e] w1] eqn:Hio; apply io_run in Hio as (l & -> & _); by intros [= _ <-].
  - apply Hkc in Hr as [Hc _]. by injection Hc as _ _ -> ->.
Qed.

Lemma spre_not_remove c pod : spre c → c ≠ CRemovePodContainers pod.
Proof. by intros Hc ->. Qed.

Lemma sstep_consistent w w' : consistent w → sstep w w' → consistent w'.
Proof.
  intros [HI Hfk] Hs. destruct Hs as [c w r w' Hpre Hr|w l|w rts l w' f Hn].
  - split.
    + destruct r as [r|e]; [by eapply (sexec_sound c)|]. by rewrite (sexec_atm _ _ _ _ Hr).
    + rewrite <-Hfk. eapply sexec_fk; [|exact Hr]. intros pod. by apply spre_not_remove.
  - by split.
  - apply NewSqliteState_Ok in Hn as [Hdb Hfk']. split; [|done]. by rewrite Hdb.
Qed.

Lemma ssteps_consistent w w' : consistent w → rtc sstep w w' → consistent w'.
Proof. intros Hc. induction 1 as [|w w1 w2 H1' _ IH]; [done|]. by apply IH, (sstep_consistent w). Qed.

(** ** After a transaction was left open *)

(** With the write lock taken, a computation leaves the database, and the lock, as
    they are. *)
Definition stuck {A} (m : SM A) : Prop :=
  ∀ w r w', s_locked w = true → m w = (r, w') → s_db w' = s_db w ∧ s_locked w' = true.

Lemma stuck_of {A} (m : SM A) : ro m → kc m → stuck m.
Proof.
  intros Hro Hkc w r w' Hl Hr. split; [by eapply Hro|]. apply Hkc in Hr as [Hc _]. injection Hc. congruence.
Qed.
Lemma stuck_bind {A B} (m : SM A) (f : A → SM B) : stuck m → (∀ a, stuck (f a)) → stuck (m ≫= f).
Proof.
  intros Hm Hf w r w' Hl. unfold mbind, st_bind. destruct (m w) as [[a|e] w1] eqn:Hw; apply Hm in Hw as [Hd Hl']; [|done| |done].
  - intros [Hd' ?]%Hf; [|done]. split; [congruence|done].
  - by intros [= _ <-].
Qed.
Lemma stuck_execute f : stuck (execute f).
Proof. intros w r w' Hl. unfold execute. rewrite Hl. by intros [= _ <-]. Qed.
Lemma stuck_withTx {A} (m : SM A) : stuck m → stuck (withTx m).
Proof.
  intros Hm w r w' Hl. assert (stuck (m ≫= λ a, Commit ≫= λ _, mret a)) as Hb.
  { apply stuck_bind; [done|intros a]. apply stuck_of; [|unfold Commit; auto with libpod].
    unfold Commit. apply ro_bind; [|auto with libpod]. apply ro_bind; [auto with libpod|]. intros _ w1 r1 w1'.
    unfold checkDeferred. destruct (_ && _); by intros [= _ <-]. }
  unfold withTx. destruct (io w) as [[u|e] w1] eqn:Hio; apply io_run in Hio as (l & -> & _); [|by intros [= _ <-]].
  destruct ((m ≫= _) _) as [[a|e] w2] eqn:Hw; apply Hb in Hw as [Hd Hl2]; try done; by intros [= _ <-].
Qed.
Lemma stuck_forM {A} (l : list A) (f : A → SM ()) : (∀ x, stuck (f x)) → stuck (forM_ l f).
Proof.
  intros Hf. induction l; simpl; [apply stuck_of; auto with libpod|]. by apply stuck_bind.
Qed.

Create HintDb stuck.
#[local] Hint Resolve kc_refreshStates ro_refreshStates kc_getCtrConfig ro_getCtrConfig : libpod.
#[local] Hint Resolve stuck_execute stuck_withTx stuck_forM : stuck.
#[local] Hint Extern 1 (stuck (_ ≫= _)) => apply stuck_bind; [|intros ?] : stuck.
#[local] Hint Extern 1 (stuck (match ?x with _ => _ end)) => destruct x : stuck.
#[local] Hint Extern 3 (stuck _) => apply stuck_of; solve [auto 20 with libpod] : stuck.

Lemma sexec_stuck c : (∀ pod, c ≠ CRemovePodContainers pod) → stuck (sexec c).
Proof.
  intros Hp. destruct (reads c) eqn:Hc.
  - intros w r w' Hl Hr. split; [by eapply sreads_ro|].
    by destruct (sexec_fk _ _ _ _ Hp Hr) as [_ ->].
  - destruct c; try discriminate Hc; clear Hc; try (by destruct (Hp pod)); clear Hp; cbn [sexec]; unfold unit_reply, as_reply;
      (apply stuck_bind; [|intros ?; apply stuck_of; auto with libpod]);
      unfold SQLite_Refresh, SQLite_ValidateDBConfig, checkField, SQLite_AddContainer, SQLite_AddContainerToPod,
        sAddContainer, sAddDependency, checkDepPod, SQLite_RemoveContainer, SQLite_RemoveContainerFromPod,
        sRemoveContainer, removeContainerWithTx, SQLite_SaveContainer, SQLite_NetworkConnect, SQLite_NetworkModify,
        SQLite_NetworkDisconnect, networkModify, SQLite_AddContainerExitCode, SQLite_PruneContainerExitCodes,
        SQLite_AddExecSession, SQLite_RemoveExecSession, SQLite_RemoveContainerExecSessions,
        SQLite_RewriteContainerConfig, SQLite_SafeRewriteContainerConfig, rewriteContainerConfig,
        SQLite_RewritePodConfig, SQLite_RewriteVolumeConfig, SQLite_AddPod, SQLite_RemovePod, SQLite_SavePod,
        SQLite_AddVolume, SQLite_RemoveVolume, SQLite_SaveVolume, SQLite_GetNetworks, affecting, Exec_, Exec;
      auto 20 with stuck.
Qed.

(** [RemovePodContainers] never changes the database, and when it removes rows it
    keeps the write lock. *)
Lemma RemovePodContainers_run pod w r w' :
  SQLite_RemovePodContainers pod w = (r, w') →
  s_db w' = s_db w ∧ (s_locked w = true → s_locked w' = true) ∧
  (r = Ok () → podRows (pod_ID pod) (s_db w) ≠ [] → s_locked w' = true) ∧ (r = Ok () → s_fk w' = false).
Proof.
  unfold SQLite_RemovePodContainers. unfold mbind at 1, st_bind at 1.
  destruct (sCheckValid w) as [[u|e] w1] eqn:Hv; [|assert (w1 = w) as -> by
    (revert Hv; unfold sCheckValid, mbind, st_bind, gets; destruct (s_valid w); by intros [= _ <-]); by intros [= <- <-]].
  apply sCheckValid_Ok in Hv as [-> _]. unfold mbind at 1, st_bind at 1.
  destruct (failIf _ _ w) as [[u'|e] w1] eqn:Hf; [|assert (w1 = w) as -> by
    (revert Hf; destruct (pod_valid pod); by intros [= _ <-]); by intros [= <- <-]].
  apply failIf_Ok in Hf as [_ ->]. unfold removePodContainersTx.
  destruct (io w) as [[u2|e] w1] eqn:Hio; apply io_run in Hio as (l & -> & _); [|by intros [= <- <-]].
  assert (kc (Query (λ db, scan (podRows (pod_ID pod) db).*1) ≫= λ rows,
             forM_ rows removeContainerWithTx ≫= λ _, mret rows)) as Hkc by (unfold removeContainerWithTx; auto 20 with libpod).
  destruct ((Query _ ≫= _) _) as [[rows|e] w2] eqn:Hb; pose proof (Hkc _ _ _ Hb) as [Hc _]; injection Hc as _ _ _ Hlk.
  - intros [= <- <-]. simpl. split_and!; [done|by rewrite Hlk; intros ->| |done]. intros _ Hne.
    sq_inv. apply orb_true_iff. right. apply bool_decide_eq_true. intros Hnil.
    apply Hne, (fmap_nil_inv fst), Permutation_nil_r. by rewrite <-Hnil, scan_perm.
  - intros [= <- <-]. simpl. rewrite Hlk. by split_and!.
Qed.

(** Any calls, and any faults, from a state whose write lock was left taken *)
Definition any_call (w w' : SWorld) : Prop := (∃ c r, sexec c w = (r, w')) ∨ ∃ l, w' = sw_set_faults l w.

Lemma stuck_for_ever w w' : s_locked w = true → rtc any_call w w' → s_db w' = s_db w ∧ s_locked w' = true.
Proof.
  intros Hl Hs. revert Hl. induction Hs as [|w w1 w2 Hc _ IH]; intros Hl; [done|].
  assert (s_db w1 = s_db w ∧ s_locked w1 = true) as [Hdb Hl1].
  { destruct Hc as [(c & r & Hr)|[l ->]]; [|done]. destruct (reads c) eqn:Hc; [|].
    - eapply (sexec_stuck c); [|done|exact Hr]. intros pod ->. done.
    - assert ((∃ pod, c = CRemovePodContainers pod) ∨ ∀ pod, c ≠ CRemovePodContainers pod) as [[pod ->]|Hp]
        by (destruct c; eauto; right; intros ?; discriminate).
      + revert Hr. cbn [sexec]. unfold unit_reply, as_reply, mbind, st_bind, mret, st_ret.
        destruct (SQLite_RemovePodContainers pod w) as [[u|e] w3] eqn:Hr;
          apply RemovePodContainers_run in Hr as (Hd & Hk & _); intros [= _ <-]; auto.
      + by eapply (sexec_stuck c). }
  destruct (IH Hl1) as [-> ?]. done.
Qed.
End reach.
