(* ===== verification/SqliteComplete.v ===== *)
(** * SqliteComplete: the calls that write succeed whenever they may

    On a state that is ready (open, without pending faults) a call that writes
    succeeds in every situation in which the specification lets it.  The last part
    has the pattern of the lookups, [LIKE x%], as a prefix test. *)

From Stdlib Require Import Ascii.
From S2P Require Import Prelude Define Bolt BoltTx BoltInternal BoltState BoltOps Sqlite SqliteState StateSpec.
From S2P Require Import SqliteInv SqliteFrame SqliteAbs SqliteWrites SqliteSaves SqliteRefresh SqliteOps SqliteReads.

(** Documented behaviour of the encoder: a value without channels, functions or
    cycles can be encoded. *)
Class MarshalTotal (A : Type) `{Json A} : Prop := marshal_total : ∀ a : A, ∃ s, marshal a = Ok s.

Class TotalLaws `{Runtime} : Prop := {
  total_ctrConfig :: MarshalTotal ContainerConfig;
  total_ctrState :: MarshalTotal ContainerState;
  total_podConfig :: MarshalTotal PodConfig;
  total_podState :: MarshalTotal podState;
  total_volConfig :: MarshalTotal VolumeConfig;
  total_volState :: MarshalTotal VolumeState }.

(** ** Forward runs *)

Lemma sready_set_db db w : ready w → ready (sw_set_db db w).
Proof. done. Qed.

Lemma Query_ready {A} (f : Database → A) w : ready w → Query f w = (Ok (f (s_db w)), w).
Proof. intros Hw. unfold Query. by rewrite (st_bind_run _ _ _ _ _ (io_ready w Hw)). Qed.

Lemma Exec_ready f w n db :
  ready w → f (s_db w) = Ok (n, db) → immediate_ok db = true → Exec f w = (Ok n, sw_set_db db w).
Proof.
  intros Hw Hf Hi. unfold Exec. rewrite (st_bind_run _ _ _ _ _ (io_ready w Hw)). unfold execute.
  destruct Hw as (_ & _ & Hfk & -> & _). rewrite Hf, Hfk, Hi. done.
Qed.

Lemma Exec__ready f w n db :
  ready w → f (s_db w) = Ok (n, db) → immediate_ok db = true → Exec_ f w = (Ok (), sw_set_db db w).
Proof. intros Hw Hf Hi. unfold Exec_. by rewrite (st_bind_run _ _ _ _ _ (Exec_ready _ _ _ _ Hw Hf Hi)). Qed.

Lemma affecting_ready f g e w n db :
  ready w → f (s_db w) = Ok (S n, db) → immediate_ok db = true → affecting f g e w = (Ok (), sw_set_db db w).
Proof. intros Hw Hf Hi. unfold affecting. by rewrite (st_bind_run _ _ _ _ _ (Exec_ready _ _ _ _ Hw Hf Hi)). Qed.

Lemma withTx_ready {A} (body : SM A) w a w2 :
  ready w → body w = (Ok a, w2) → ready w2 → FKs (s_db w2) → withTx body w = (Ok a, w2).
Proof.
  intros Hw Hb Hw2 Hk. unfold withTx. rewrite (io_ready w Hw), (st_bind_run _ _ _ _ _ Hb). unfold Commit.
  erewrite st_bind_run; [|erewrite st_bind_run by (by apply io_ready); unfold checkDeferred;
    destruct Hw2 as (_ & _ & -> & _); rewrite (proj2 (deferred_ok_iff _) Hk); done]. done.
Qed.

Lemma sCheckValid_ready w : ready w → sCheckValid w = (Ok (), w).
Proof. intros (Hv & _). unfold sCheckValid, mbind, st_bind, gets. by rewrite Hv. Qed.

(** Fewer referencing rows and at least the referenced ones of a database whose
    foreign keys hold *)
Lemma immediate_sub db db' :
  FKs db' →
  (∀ id r p, t_ContainerConfig db !! id = Some r → rc_PodID r = Some p →
     ∃ id' r', t_ContainerConfig db' !! id' = Some r' ∧ rc_PodID r' = Some p) →
  (∀ s id, t_ContainerExecSession db !! s = Some id → t_ContainerExecSession db' !! s = Some id) →
  t_ContainerDependency db ⊆ t_ContainerDependency db' → t_ContainerVolume db ⊆ t_ContainerVolume db' →
  (∀ p, is_Some (t_PodConfig db' !! p) → is_Some (t_PodConfig db !! p)) →
  (∀ id, is_Some (t_ContainerConfig db' !! id) → is_Some (t_ContainerConfig db !! id)) →
  (∀ v, is_Some (t_VolumeConfig db' !! v) → is_Some (t_VolumeConfig db !! v)) → immediate_ok db = true.
Proof.
  intros Hk Hc Hs Hd Hv Hp Hid Hvol. apply immediate_ok_iff. split_and!.
  - intros id r p Hr Hpod. destruct (Hc _ _ _ Hr Hpod) as (id' & r' & Hr' & Hpod'). apply Hp. by eapply (k_ctr_pod _ Hk).
  - intros s id Hse. apply Hid. by eapply (k_exec _ Hk), Hs.
  - intros id d Hin. apply Hid. by eapply (k_dep _ Hk), Hd.
  - intros id v Hin. apply Hvol. by eapply (k_vol _ Hk), Hv.
Qed.

(** The tables that matter are the same, but for fewer dependencies and volumes. *)
Lemma immediate_le db db' :
  FKs db' → t_ContainerConfig db = t_ContainerConfig db' → t_ContainerExecSession db = t_ContainerExecSession db' →
  t_ContainerDependency db ⊆ t_ContainerDependency db' → t_ContainerVolume db ⊆ t_ContainerVolume db' →
  t_PodConfig db = t_PodConfig db' → t_VolumeConfig db = t_VolumeConfig db' → immediate_ok db = true.
Proof. intros Hk H1 H2 H3 H4 H5 H6. apply (immediate_sub _ db'); rewrite ?H1, ?H2, ?H5, ?H6; naive_solver. Qed.

Lemma constraint_true b db : b = true → constraint b db = Ok (1, db).
Proof. by intros ->. Qed.

(** Run a statement: it satisfies its constraints, and the immediate foreign keys
    hold afterwards. *)
Ltac exec_fwd :=
  erewrite st_bind_run; [|eapply Exec__ready;
    [done|autounfold with stmt; try (apply constraint_true; rewrite ?andb_true_iff, ?bool_decide_eq_true); try done|]].

Section complete.
Context `{RuntimeLaws, !TotalLaws, RowOrder}.

Lemma sadded_fks strict ctr cj sj db :
  SInv db → can_add_ctr strict (ctr_config ctr) (ctr_state ctr) (abs db) → FKs (sadded ctr cj sj db).
Proof.
  intros HI [[Hc%(abs_ctr_None HI) Hp%(abs_pod_None HI)] Hname Hpod Hdeps Hvols Hnd Hexit].
  destruct (si_fks _ HI). change (cc_ID (ctr_config ctr)) with (ctr_ID ctr) in *.
  constructor; cbn [sadded t_IDNamespace t_ContainerConfig t_ContainerState t_ContainerExecSession t_ContainerDependency
    t_ContainerVolume t_PodConfig t_PodState t_VolumeConfig t_VolumeState]; auto;
    try setoid_rewrite lookup_insert_is_Some'.
  - set_solver.
  - naive_solver.
  - intros id r p [[<- <-]|[_ Hr]]%lookup_insert_Some; [|eauto]. simpl. rewrite nullString_Some. intros [<- Hne].
    by apply (abs_pod_Some HI), Hpod.
  - naive_solver.
  - eauto.
  - intros id d [(d' & [= -> ->] & _)%elem_of_list_to_set%list_elem_of_fmap|Hd]%elem_of_union; eauto.
  - intros id d [(d' & [= -> ->] & Hd')%elem_of_list_to_set%list_elem_of_fmap|Hd]%elem_of_union; [|eauto]. right.
    apply elem_of_Dependencies, Hdeps in Hd' as (c & s & Hcs & _). apply (abs_ctr_Some HI). eauto.
  - intros id d [(d' & [= -> ->] & _)%elem_of_list_to_set%list_elem_of_fmap|Hd]%elem_of_union; eauto.
  - intros id d [(d' & [= -> ->] & Hd')%elem_of_list_to_set%list_elem_of_fmap|Hd]%elem_of_union; [|eauto].
    by apply (abs_vol_Some HI), Hvols.
  - set_solver.
  - intros p r id Hr Hi. right. eauto.
Qed.

Lemma checkDepPod_run pod w : checkDepPod pod (nullString pod) w = (Ok (), w).
Proof.
  unfold checkDepPod, nullString. case_decide as Hp; simpl.
  - rewrite (st_bind_run _ _ w () w) by (apply when_run; intros [_ []]; done).
    rewrite (st_bind_run _ _ w () w) by (by apply when_run; intros [? _]). by apply when_run; intros [? _].
  - rewrite (st_bind_run _ _ w () w) by (by apply when_run; intros [? _]).
    rewrite (st_bind_run _ _ w () w) by (by apply when_run; intros [_ ?]). by apply when_run; intros [_ ?].
Qed.

Lemma addDeps_run id pod ds D w :
  ready w → NoDup ds → (∀ d, d ∈ ds → d ≠ id ∧ ((id, d) ∉ t_ContainerDependency (s_db w)) ∧
    ∃ r, t_ContainerConfig (s_db w) !! d = Some r ∧ rc_PodID r = nullString pod) →
  (∀ X, X ⊆ D → immediate_ok (set_ContainerDependency X (s_db w)) = true) →
  list_to_set ((id,.) <$> ds) ∪ t_ContainerDependency (s_db w) ⊆ D →
  forM_ ds (sAddDependency id pod) w =
  (Ok (), sw_set_db (set_ContainerDependency (list_to_set ((id,.) <$> ds) ∪ t_ContainerDependency (s_db w)) (s_db w)) w).
Proof.
  revert w. induction ds as [|d ds IH]; intros w Hw Hnd Hds Himm HD; simpl.
  - destruct w as [???? [] ???]. unfold sw_set_db, set_ContainerDependency. simpl. by rewrite union_empty_l_L.
  - apply NoDup_cons in Hnd as [Hd Hnd]. destruct (Hds d) as (Hne & Hnew & r & Hr & Hp); [by left|]. simpl in HD.
    erewrite st_bind_run.
    2:{ unfold sAddDependency. erewrite st_bind_run by (rewrite catch_Ok; by apply Query_ready). cbv beta. rewrite Hr.
        erewrite st_bind_run by done. rewrite Hp. erewrite st_bind_run by apply checkDepPod_run.
        eapply Exec__ready; [done| |].
        - unfold insert_ContainerDependency, constraint. by rewrite !bool_decide_eq_true_2.
        - apply Himm. set_solver. }
    rewrite IH; simpl; [|done|done| |done|set_solver].
    + f_equal. unfold sw_set_db, set_ContainerDependency. simpl. by rewrite assoc_L, (comm_L _ {[(id, d)]}) by apply _.
    + intros d' Hd'. destruct (Hds d') as (? & ? & ?); [by right|]. split_and!; [done| |done]. set_solver.
Qed.

Lemma addVols_run id (vs : list ContainerNamedVolume) D w :
  ready w → NoDup (nv_Name <$> vs) → (∀ v, v ∈ nv_Name <$> vs → (id, v) ∉ t_ContainerVolume (s_db w)) →
  (∀ X, X ⊆ D → immediate_ok (set_ContainerVolume X (s_db w)) = true) →
  list_to_set ((id,.) <$> (nv_Name <$> vs)) ∪ t_ContainerVolume (s_db w) ⊆ D →
  forM_ vs (λ v, Exec_ (insert_ContainerVolume id (nv_Name v))) w =
  (Ok (), sw_set_db (set_ContainerVolume (list_to_set ((id,.) <$> (nv_Name <$> vs)) ∪ t_ContainerVolume (s_db w)) (s_db w)) w).
Proof.
  revert w. induction vs as [|v vs IH]; intros w Hw Hnd Hvs Himm HD; simpl.
  - destruct w as [???? [] ???]. unfold sw_set_db, set_ContainerVolume. simpl. by rewrite union_empty_l_L.
  - apply NoDup_cons in Hnd as [Hv Hnd]. simpl in HD. erewrite st_bind_run.
    2:{ eapply Exec__ready; [done| |].
        - unfold insert_ContainerVolume, constraint. rewrite bool_decide_eq_true_2; [done|]. apply Hvs. by left.
        - apply Himm. set_solver. }
    rewrite IH; simpl; [|done|done| |done|set_solver].
    + f_equal. unfold sw_set_db, set_ContainerVolume. simpl. by rewrite assoc_L, (comm_L _ {[(id, nv_Name v)]}) by apply _.
    + intros v' Hv'. assert ((id, v') ∉ t_ContainerVolume (s_db w)) by (apply Hvs; by right). set_solver.
Qed.

Lemma sAddContainer_run ctr w :
  ready w → SInv (s_db w) → can_add_ctr True (ctr_config ctr) (ctr_state ctr) (abs (s_db w)) →
  ∃ w', sAddContainer ctr w = (Ok (), w').
Proof.
  intros Hw HI Hcan. destruct (marshal_total (ctr_config ctr)) as [cj Hcj].
  destruct (marshal_total (ctr_state ctr)) as [sj Hsj]. pose proof (sadded_fks _ _ cj sj _ HI Hcan) as Hk.
  destruct Hcan as [[Hc%(abs_ctr_None HI) Hp%(abs_pod_None HI)] Hname Hpod Hdeps Hvols Hnd Hexit].
  change (cc_ID (ctr_config ctr)) with (ctr_ID ctr) in *.
  assert (t_ContainerState (s_db w) !! ctr_ID ctr = None) as Hs.
  { apply eq_None_not_Some. intros Hs%(k_state_ctr _ (si_fks _ HI)). rewrite Hc in Hs. by destruct Hs. }
  exists (sw_set_db (sadded ctr cj sj (s_db w)) w). unfold sAddContainer.
  rewrite (st_bind_run _ _ w cj w) by (by rewrite Hcj). rewrite (st_bind_run _ _ w sj w) by (by rewrite Hsj).
  apply withTx_ready; [done| |done|done].
  exec_fwd; [|by intros [?|?]%(si_ids _ HI); eapply not_eq_None_Some|by apply (immediate_le _ (s_db w)); [apply HI|..]].
  exec_fwd; [|split; [done|]|apply (immediate_le _ _ Hk); simpl; done || set_solver].
  2:{ apply unique_true. intros k r Hr _. simpl. destruct (abs_ctr_row HI _ _ Hr) as (c & s & t & Hcs & _ & Hw' & _).
      rewrite <-(cw_name _ _ _ _ Hw'). by eapply Hname. }
  exec_fwd; [|split; [done|by apply exitCodeCheck_iff]|apply (immediate_le _ _ Hk); simpl; done || set_solver].
  erewrite st_bind_run.
  2:{ apply (addDeps_run _ _ _ (t_ContainerDependency (sadded ctr cj sj (s_db w)))); [done|apply NoDup_Dependencies| | |].
      - intros d Hd%elem_of_Dependencies. destruct (Hdeps d Hd) as (c & s & (r & t & Hr & _ & Hw' & _)%(abs_ctr HI) & Hpd).
        assert (d ≠ ctr_ID ctr) as Hne by congruence. split_and!; [done| |].
        + intros Hin%(k_dep_ctr _ (si_fks _ HI)). rewrite Hc in Hin. by destruct Hin.
        + exists r. simpl. rewrite lookup_insert_ne by done. split; [done|]. rewrite (cw_pod _ _ _ _ Hw'). by rewrite Hpd.
      - intros X HX. apply (immediate_le _ _ Hk); simpl; done || set_solver.
      - simpl. done. }
  rewrite (addVols_run _ _ (t_ContainerVolume (sadded ctr cj sj (s_db w)))); [done|done|done| | |simpl; done].
  - intros v Hv Hin%(k_vol_ctr _ (si_fks _ HI)). rewrite Hc in Hin. by destruct Hin.
  - intros X HX. apply (immediate_le _ _ Hk); simpl; done || set_solver.
Qed.

(** ** Removing a container *)

Lemma sremoved_fks id db : SInv db → can_remove_ctr id (abs db) → FKs (sremoved id db).
Proof.
  intros HI [Hdep Hses Hinf Hpod%(abs_pod_None HI)]. simpl in Hinf. destruct (si_fks _ HI).
  assert (∀ d, (d, id) ∉ t_ContainerDependency db) as Hd by (intros d Hd%(abs_depends HI); by apply (Hdep d)).
  constructor; cbn [sremoved t_IDNamespace t_ContainerConfig t_ContainerState t_ContainerExecSession
    t_ContainerDependency t_ContainerVolume t_PodConfig t_PodState t_VolumeConfig t_VolumeState];
    try setoid_rewrite lookup_delete_is_Some; auto.
  - intros i [Hne Hi]. apply elem_of_difference. split; [auto|set_solver].
  - naive_solver.
  - intros i r p [_ Hr]%lookup_delete_Some. eauto.
  - naive_solver.
  - intros s i [Hs Hne]%map_lookup_filter_Some. simpl in Hne. eauto.
  - intros i d [Hne Hi]%elem_of_filter. simpl in Hne. eauto.
  - intros i d [_ Hi]%elem_of_filter. split; [|eauto]. intros ->. by apply (Hd i).
  - intros i d [Hne Hi]%elem_of_filter. simpl in Hne. eauto.
  - intros i d [_ Hi]%elem_of_filter. eauto.
  - intros i Hi. apply elem_of_difference. split; [auto|]. intros ->%elem_of_singleton. rewrite Hpod in Hi. by destruct Hi.
  - intros p r i Hr Hi. split; [|eauto]. intros ->. apply (Hinf p). by rewrite lookup_omap, Hr.
Qed.

Lemma immediate_removing id db db1 :
  SInv db → can_remove_ctr id (abs db) → t_ContainerConfig db1 = delete id (t_ContainerConfig db) →
  t_ContainerExecSession db1 = t_ContainerExecSession db → t_ContainerDependency db1 ⊆ t_ContainerDependency db →
  t_ContainerVolume db1 ⊆ t_ContainerVolume db → t_PodConfig db1 = t_PodConfig db →
  t_VolumeConfig db1 = t_VolumeConfig db → immediate_ok db1 = true.
Proof.
  intros HI [Hdep Hses _ _] Hc Hs Hd Hv Hp Hvol. pose proof (si_fks _ HI) as Hk.
  apply immediate_ok_iff. rewrite Hc, Hs, Hp, Hvol. split_and!.
  - intros i r p [_ Hr]%lookup_delete_Some. by apply (k_ctr_pod _ Hk i).
  - intros s i Hi. rewrite lookup_delete_is_Some. split; [|by apply (k_exec _ Hk s)]. intros <-. by apply (Hses s).
  - intros i d Hi%Hd. rewrite lookup_delete_is_Some. split; [|by apply (k_dep _ Hk i)].
    intros <-. apply (abs_depends HI) in Hi. by apply (Hdep i).
  - intros i v Hi%Hv. by apply (k_vol _ Hk i).
Qed.

Lemma sRemoveContainer_run ctr w :
  ready w → SInv (s_db w) → can_remove_ctr (ctr_ID ctr) (abs (s_db w)) → ∃ w', sRemoveContainer ctr w = (Ok (), w').
Proof.
  intros Hw HI Hcan. pose proof (sremoved_fks _ _ HI Hcan) as Hk.
  exists (sw_set_db (sremoved (ctr_ID ctr) (s_db w)) w). unfold sRemoveContainer, removeContainerWithTx.
  apply withTx_ready; [done| |done|done].
  exec_fwd; [|by apply (immediate_le _ (s_db w)); [apply HI|..]].
  do 4 (exec_fwd; [|apply (immediate_removing _ _ _ HI Hcan); simpl; done || set_solver]).
  etrans; [eapply Exec__ready; [done|done|exact (FKs_immediate _ Hk)]|done].
Qed.

(** ** Writes of one statement *)

(** A transaction of one statement *)
Lemma tx_one f w n db :
  ready w → f (s_db w) = Ok (n, db) → FKs db → withTx (Exec_ f) w = (Ok (), sw_set_db db w).
Proof. intros Hw Hf Hk. apply withTx_ready; [done| |done|done]. eapply Exec__ready; [done|done|by apply FKs_immediate]. Qed.

Lemma tx_affecting f g e w n db :
  ready w → f (s_db w) = Ok (S n, db) → FKs db → withTx (affecting f g e) w = (Ok (), sw_set_db db w).
Proof. intros Hw Hf Hk. apply withTx_ready; [done| |done|done]. eapply affecting_ready; [done|done|by apply FKs_immediate]. Qed.

Lemma hits_Some {R} (m : gmap string R) k r : m !! k = Some r → hits m k = 1.
Proof. intros Hr. unfold hits. by rewrite Hr. Qed.

(** Foreign keys after a change that keeps the keys of every table *)
Lemma FKs_keys db db' :
  FKs db → t_IDNamespace db' = t_IDNamespace db →
  (∀ k, t_ContainerConfig db' !! k = t_ContainerConfig db !! k) →
  (∀ k, is_Some (t_ContainerState db' !! k) ↔ is_Some (t_ContainerState db !! k)) →
  (∀ s id, t_ContainerExecSession db' !! s = Some id → is_Some (t_ContainerConfig db !! id)) →
  t_ContainerDependency db' = t_ContainerDependency db → t_ContainerVolume db' = t_ContainerVolume db →
  (∀ k, is_Some (t_PodConfig db' !! k) ↔ is_Some (t_PodConfig db !! k)) →
  (∀ k, rq_InfraContainerID <$> t_PodState db' !! k = rq_InfraContainerID <$> t_PodState db !! k) →
  (∀ k, is_Some (t_VolumeConfig db' !! k) ↔ is_Some (t_VolumeConfig db !! k)) →
  (∀ k, is_Some (t_VolumeState db' !! k) ↔ is_Some (t_VolumeState db !! k)) → FKs db'.
Proof.
  intros Hk Hid Hc Hs He Hd Hv Hp Hps Hvc Hvs.
  assert (∀ k, is_Some (t_PodState db' !! k) ↔ is_Some (t_PodState db !! k)) as Hps'.
  { intros k. specialize (Hps k). destruct (t_PodState db' !! k), (t_PodState db !! k); simpl in *; naive_solver. }
  constructor; rewrite ?Hid, ?Hd, ?Hv; repeat setoid_rewrite Hc; repeat setoid_rewrite Hs; repeat setoid_rewrite Hp;
    repeat setoid_rewrite Hps'; repeat setoid_rewrite Hvc; repeat setoid_rewrite Hvs; try done; try apply Hk.
  intros p r id Hr Hi. specialize (Hps p). rewrite Hr in Hps. simpl in Hps.
  destruct (t_PodState db !! p) as [r0|] eqn:Hr0; [|done]. simpl in Hps. eapply (k_infra _ Hk); [exact Hr0|]. congruence.
Qed.

Lemma is_Some_alter {R} (f : R → R) k (m : gmap string R) i : is_Some (alter f k m !! i) ↔ is_Some (m !! i).
Proof.
  destruct (decide (k = i)) as [->|Hne]; [rewrite lookup_alter_eq; apply fmap_is_Some|by rewrite lookup_alter_ne].
Qed.

Ltac keys_same HI := apply (FKs_keys _ _ (si_fks _ HI)); simpl; try done; intros; try (by rewrite is_Some_alter);
  try (by eapply (k_exec _ (si_fks _ HI))).

(** The guards at the start of a method *)
Ltac guards Hw := rewrite (st_bind_run _ _ _ _ _ (sCheckValid_ready _ Hw));
  repeat first [rewrite (st_bind_run (failIf _ _) _ _ () _) by (by (apply failIf_Ok; rewrite ?negb_false_iff))
               |rewrite (st_bind_run (failIf (bool_decide _) _) _ _ () _) by (apply when_run; by auto)].

Lemma SaveContainer_run ctr w c s :
  ready w → SInv (s_db w) → ctr_valid ctr = true → a_ctrs (abs (s_db w)) !! ctr_ID ctr = Some (c, s) →
  ∃ w', SQLite_SaveContainer ctr w = (Ok (), w').
Proof.
  intros Hw HI Hv (r & t & Hr & Ht & _)%(abs_ctr HI). destruct (marshal_total (ctr_state ctr)) as [j Hj].
  unfold SQLite_SaveContainer. guards Hw. rewrite Hj, (st_bind_run _ _ w j w) by done. eexists.
  eapply (tx_affecting _ _ _ _ 0); [done|unfold update_ContainerState; by rewrite (hits_Some _ _ _ Ht)|]. keys_same HI.
Qed.

Lemma SavePod_run pod w c s :
  ready w → SInv (s_db w) → pod_valid pod = true → a_pods (abs (s_db w)) !! pod_ID pod = Some (c, s) →
  ∃ w', SQLite_SavePod pod w = (Ok (), w').
Proof.
  intros Hw HI Hv (r & t & Hr & Ht & _)%(abs_pod HI). destruct (marshal_total (pod_state pod)) as [j Hj].
  unfold SQLite_SavePod. guards Hw. rewrite Hj, (st_bind_run _ _ w j w) by done. eexists.
  eapply (tx_affecting _ _ _ _ 0); [done|unfold update_PodState; by rewrite (hits_Some _ _ _ Ht)|]. keys_same HI.
  destruct (decide (pod_ID pod = k)) as [<-|Hne]; [rewrite lookup_alter_eq; by destruct (t_PodState (s_db w) !! pod_ID pod)|by rewrite lookup_alter_ne].
Qed.

Lemma SaveVolume_run vol w c s s' :
  ready w → SInv (s_db w) → vol_valid vol = true → a_vols (abs (s_db w)) !! vol_Name vol = Some (c, s) →
  vol_state vol = Some s' → ∃ w', SQLite_SaveVolume vol w = (Ok (), w').
Proof.
  intros Hw HI Hv (r & t & Hr & Ht & _)%(abs_vol HI) Hs. destruct (marshal_total s') as [j Hj].
  unfold SQLite_SaveVolume. guards Hw. rewrite Hs, Hj, (st_bind_run _ _ w j w) by done. eexists.
  eapply (tx_affecting _ _ _ _ 0); [done|unfold update_VolumeState; by rewrite (hits_Some _ _ _ Ht)|]. keys_same HI.
Qed.

Lemma RewritePodConfig_run pod newCfg w c s :
  ready w → SInv (s_db w) → pod_valid pod = true → a_pods (abs (s_db w)) !! pod_ID pod = Some (c, s) →
  (∀ id' c' s', id' ≠ pod_ID pod → a_pods (abs (s_db w)) !! id' = Some (c', s') → pc_Name c' ≠ pc_Name newCfg) →
  ∃ w', SQLite_RewritePodConfig pod newCfg w = (Ok (), w').
Proof.
  intros Hw HI Hv (r & t & Hr & Ht & _)%(abs_pod HI) Hn. destruct (marshal_total newCfg) as [j Hj].
  unfold SQLite_RewritePodConfig. guards Hw. rewrite Hj, (st_bind_run _ _ w j w) by done. eexists.
  eapply (tx_affecting _ _ _ _ 0); [done| |].
  - unfold update_PodConfig. rewrite Hr. apply constraint_true, unique_true. intros k q Hq Hne.
    destruct (abs_pod_row HI _ _ Hq) as (c' & s' & t' & Hcs & _ & _ & _ & <- & _). by eapply Hn.
  - keys_same HI. destruct (decide (pod_ID pod = k)) as [<-|Hne]; [rewrite lookup_insert_eq; split; eauto|by rewrite lookup_insert_ne].
Qed.

Lemma AddExecSession_run ctr session w :
  ready w → SInv (s_db w) → ctr_valid ctr = true → a_sessions (abs (s_db w)) !! session = None →
  is_Some (a_ctrs (abs (s_db w)) !! ctr_ID ctr) → ∃ w', SQLite_AddExecSession ctr session w = (Ok (), w').
Proof.
  intros Hw HI Hv Hs Hc%(abs_ctr_Some HI). unfold SQLite_AddExecSession. guards Hw. eexists.
  eapply tx_one; [done|apply constraint_true; by apply bool_decide_eq_true|]. keys_same HI.
  rename select (<[_ := _]> _ !! _ = _) into Hl. apply lookup_insert_Some in Hl as [[_ <-]|[_ Hl]]; [done|].
  by eapply (k_exec _ (si_fks _ HI)).
Qed.

Lemma RemoveExecSession_run session w :
  ready w → SInv (s_db w) → is_Some (a_sessions (abs (s_db w)) !! session) →
  ∃ w', SQLite_RemoveExecSession session w = (Ok (), w').
Proof.
  intros Hw HI [c Hc]. simpl in Hc.
  assert (FKs (set_ContainerExecSession (delete session (t_ContainerExecSession (s_db w))) (s_db w))) as Hk.
  { keys_same HI. rename select (delete _ _ !! _ = _) into Hl. apply lookup_delete_Some in Hl as [_ Hl].
    by eapply (k_exec _ (si_fks _ HI)). }
  unfold SQLite_RemoveExecSession. guards Hw.
  eexists (sw_set_db (set_ContainerExecSession (delete session (t_ContainerExecSession (s_db w))) (s_db w)) w).
  apply withTx_ready; [done| |done|exact Hk].
  erewrite st_bind_run; [|eapply Exec_ready; [done|done|by apply FKs_immediate]].
  rewrite (hits_Some _ _ _ Hc). done.
Qed.

Lemma RemoveContainerExecSessions_run ctr w :
  ready w → SInv (s_db w) → ctr_valid ctr = true → ∃ w', SQLite_RemoveContainerExecSessions ctr w = (Ok (), w').
Proof.
  intros Hw HI Hv. unfold SQLite_RemoveContainerExecSessions. guards Hw. eexists. eapply tx_one; [done|done|].
  keys_same HI. rename select (filter _ _ !! _ = _) into Hl. apply map_lookup_filter_Some in Hl as [Hl _].
  by eapply (k_exec _ (si_fks _ HI)).
Qed.

Lemma AddContainerExitCode_run id code w :
  ready w → SInv (s_db w) → id ≠ "" → (-1 ≤ code ≤ 255)%Z → ∃ w', SQLite_AddContainerExitCode id code w = (Ok (), w').
Proof.
  intros Hw HI Hid Hc. unfold SQLite_AddContainerExitCode. rewrite (st_bind_run _ _ w () w) by (by apply when_run).
  guards Hw. eexists. eapply tx_one; [done|by apply constraint_true, exitCodeCheck_iff|]. keys_same HI.
Qed.

Lemma PruneContainerExitCodes_run w :
  ready w → SInv (s_db w) → ∃ w', SQLite_PruneContainerExitCodes w = (Ok (), w').
Proof.
  intros Hw HI. unfold SQLite_PruneContainerExitCodes. guards Hw. eexists. eapply tx_one; [done|done|]. keys_same HI.
Qed.

(** ** Pods and volumes *)

Lemma AddPod_run pod w :
  ready w → SInv (s_db w) → (∃ a', spec_write True (CAddPod pod) (abs (s_db w)) a') →
  ∃ w', SQLite_AddPod pod w = (Ok (), w').
Proof.
  intros Hw HI (a' & Hv & Hc%(abs_ctr_None HI) & Hp%(abs_pod_None HI) & Hname & Hinfra & _).
  destruct (marshal_total (pod_config pod)) as [cj Hcj]. destruct (marshal_total (pod_state pod)) as [sj Hsj].
  pose proof (si_fks _ HI) as Hk0.
  assert (t_PodState (s_db w) !! pod_ID pod = None) as Hs.
  { apply eq_None_not_Some. intros Hs%(k_state_pod _ Hk0). rewrite Hp in Hs. by destruct Hs. }
  assert (∀ id, is_Some (t_PodConfig (s_db w) !! id) → id ∈ {[pod_ID pod]} ∪ t_IDNamespace (s_db w)) as Hids.
  { intros id Hid%(k_pod_id _ Hk0). set_solver. }
  unfold SQLite_AddPod. guards Hw. rewrite Hcj, Hsj, (st_bind_run _ _ w cj w), (st_bind_run _ _ w sj w) by done.
  eexists. apply withTx_ready; [done| |..].
  { exec_fwd; [|by intros [?|?]%(si_ids _ HI); eapply not_eq_None_Some|by apply (immediate_le _ (s_db w))].
    exec_fwd; [|split; [done|]|].
    2:{ apply unique_true. intros k r Hr _. simpl. destruct (abs_pod_row HI _ _ Hr) as (c & s & t & Hcs & _ & _ & _ & <- & _).
        by eapply Hname. }
    2:{ apply (immediate_sub _ (s_db w) Hk0); simpl; try done; eauto.
        intros q Hq. rewrite lookup_insert_is_Some'. auto. }
    eapply Exec__ready; [done|by apply constraint_true, bool_decide_eq_true|].
    apply (immediate_sub _ (s_db w) Hk0); simpl; try done; eauto. intros q Hq. rewrite lookup_insert_is_Some'. auto. }
  { done. }
  constructor; simpl; try apply Hk0; try setoid_rewrite lookup_insert_is_Some'.
  - intros id Hid%(k_ctr_id _ Hk0). by apply elem_of_union_r.
  - intros id r q Hr Hq. right. by eapply (k_ctr_pod _ Hk0).
  - intros id [<-|Hid]; [set_solver|auto].
  - intros id [?|Hid]; [by left|right; by apply (k_pod_state _ Hk0)].
  - intros id [?|Hid]; [by left|right; by apply (k_state_pod _ Hk0)].
  - intros p r id [[<- <-]|[_ Hr]]%lookup_insert_Some; [|by apply (k_infra _ Hk0 p)]. simpl. rewrite nullString_Some.
    intros [<- Hne]. by apply (abs_ctr_Some HI), Hinfra.
Qed.

Lemma podRows_members p db : SInv db → (∀ id, ¬ member_of (abs db) id p) → podRows p db = [].
Proof.
  intros HI Hm. destruct (podRows p db) as [|[id r] l] eqn:Hl; [done|]. destruct (Hm id).
  apply (abs_member HI). exists r. apply podRows_elem. rewrite Hl. by left.
Qed.

Lemma RemovePod_run pod w :
  ready w → SInv (s_db w) → (∃ a', spec_write True (CRemovePod pod) (abs (s_db w)) a') →
  ∃ w', SQLite_RemovePod pod w = (Ok (), w').
Proof.
  intros Hw HI (a' & Hv & Hp%(abs_pod_Some HI) & Hm & _). pose proof (si_fks _ HI) as Hk0.
  pose proof (k_pod_state _ Hk0 _ Hp) as [t Ht]. pose proof (k_pod_id _ Hk0 _ Hp) as Hid.
  assert (∀ id, is_Some (t_ContainerConfig (s_db w) !! id) → id ≠ pod_ID pod) as Hne.
  { intros id Hid' ->. by apply (si_disj _ HI (pod_ID pod)). }
  assert (∀ id r p, t_ContainerConfig (s_db w) !! id = Some r → rc_PodID r = Some p → p ≠ pod_ID pod) as Hnp.
  { intros id r p Hr Hpd ->. apply (Hm id), (abs_member HI). eauto. }
  destruct Hp as [r Hr]. unfold SQLite_RemovePod. guards Hw. eexists. apply withTx_ready; [done| |..].
  { rewrite (st_bind_run _ _ _ _ _ (Query_ready _ w Hw)). unfold podHasOthers. rewrite (podRows_members _ _ HI Hm).
    rewrite (st_bind_run _ _ w () w) by done.
    erewrite st_bind_run; [|eapply (affecting_ready _ _ _ _ 0); [done|unfold delete_IDNamespace; by rewrite decide_True|]].
    2:{ by apply (immediate_le _ (s_db w)). }
    erewrite st_bind_run; [|eapply (affecting_ready _ _ _ _ 0);
      [done|unfold delete_PodConfig; simpl; by rewrite (hits_Some _ _ _ Hr)|]].
    2:{ apply immediate_ok_iff; simpl. split_and!; try apply Hk0. intros id q p Hq Hpd.
        rewrite lookup_delete_is_Some. split; [by apply not_eq_sym, (Hnp id q)|by eapply (k_ctr_pod _ Hk0)]. }
    eapply (affecting_ready _ _ _ _ 0); [done|unfold delete_PodState; simpl; by rewrite (hits_Some _ _ _ Ht)|].
    apply immediate_ok_iff; simpl. split_and!; try apply Hk0. intros id q p Hq Hpd.
    rewrite lookup_delete_is_Some. split; [by apply not_eq_sym, (Hnp id q)|by eapply (k_ctr_pod _ Hk0)]. }
  { done. }
  constructor; simpl; try apply Hk0; try setoid_rewrite lookup_delete_is_Some.
  - intros id Hx. apply elem_of_difference. split; [by apply (k_ctr_id _ Hk0)|]. by apply not_elem_of_singleton, Hne.
  - intros id q p Hq Hpd. split; [by apply not_eq_sym, (Hnp id q)|by eapply (k_ctr_pod _ Hk0)].
  - intros id [Hx Hy]. apply elem_of_difference. split; [by apply (k_pod_id _ Hk0)|set_solver].
  - intros id [Hx Hy]. split; [done|by apply (k_pod_state _ Hk0)].
  - intros id [Hx Hy]. split; [done|by apply (k_state_pod _ Hk0)].
  - intros p q id [_ Hq]%lookup_delete_Some. by apply (k_infra _ Hk0 p).
Qed.

Lemma AddVolume_run vol w :
  ready w → SInv (s_db w) → vol_valid vol = true → a_vols (abs (s_db w)) !! vol_Name vol = None →
  ∃ w', SQLite_AddVolume vol w = (Ok (), w').
Proof.
  intros Hw HI Hv Hn%(abs_vol_None HI). pose proof (si_fks _ HI) as Hk0.
  destruct (marshal_total (vol_config vol)) as [cj Hcj].
  destruct (marshal_total (default newVolumeState (vol_state vol))) as [sj Hsj].
  assert (t_VolumeState (s_db w) !! vol_Name vol = None) as Hs.
  { apply eq_None_not_Some. intros Hs%(k_state_vol _ Hk0). rewrite Hn in Hs. by destruct Hs. }
  assert (∀ X, immediate_ok (set_VolumeState X (set_VolumeConfig (<[vol_Name vol :=
    mkVolumeConfigRow (nullString (vc_StorageID (vol_config vol))) cj]> (t_VolumeConfig (s_db w))) (s_db w))) = true) as Himm.
  { intros X. apply (immediate_sub _ (s_db w) Hk0); simpl; try done; eauto.
    intros v Hx. rewrite lookup_insert_is_Some'. auto. }
  unfold SQLite_AddVolume. guards Hw. rewrite Hcj, Hsj, (st_bind_run _ _ w cj w), (st_bind_run _ _ w sj w) by done.
  eexists. apply withTx_ready; [done| |..].
  - exec_fwd; [|apply (Himm (t_VolumeState (s_db w)))].
    eapply Exec__ready; [done|by apply constraint_true, bool_decide_eq_true|]. apply Himm.
  - done.
  - constructor; simpl; try apply Hk0; try setoid_rewrite lookup_insert_is_Some'.
    + intros id v Hx. right. by apply (k_vol _ Hk0 id).
    + intros v [?|Hx]; [by left|right; by apply (k_vol_state _ Hk0)].
    + intros v [?|Hx]; [by left|right; by apply (k_state_vol _ Hk0)].
Qed.

Lemma RemoveVolume_run vol w :
  ready w → SInv (s_db w) → (∀ id, ¬ uses_volume (abs (s_db w)) id (vol_Name vol)) →
  ∃ w', SQLite_RemoveVolume vol w = (Ok (), w').
Proof.
  intros Hw HI Hu. pose proof (si_fks _ HI) as Hk0.
  assert (volumeUsers (vol_Name vol) (s_db w) = []) as Hus.
  { apply elem_of_nil_inv. intros id Hid%volumeUsers_elem%(abs_uses HI). by apply (Hu id). }
  assert (∀ id v, (id, v) ∈ t_ContainerVolume (s_db w) → vol_Name vol ≠ v) as Hne.
  { intros id v Hin <-. apply (Hu id). by apply (abs_uses HI). }
  assert (∀ X, immediate_ok (set_VolumeState X (set_VolumeConfig (delete (vol_Name vol) (t_VolumeConfig (s_db w))) (s_db w)))
    = true) as Himm.
  { intros X. apply immediate_ok_iff; simpl. split_and!; try apply Hk0. intros id v Hin.
    rewrite lookup_delete_is_Some. split; [by apply (Hne id)|by apply (k_vol _ Hk0 id)]. }
  unfold SQLite_RemoveVolume. guards Hw. eexists. apply withTx_ready; [done| |..].
  - rewrite (st_bind_run _ _ _ _ _ (Query_ready _ w Hw)). rewrite Hus.
    rewrite (st_bind_run _ _ w () w).
    2:{ apply when_run. intros Hx. apply Hx. apply Permutation_nil_r. by rewrite scan_perm. }
    exec_fwd; [|apply (Himm (t_VolumeState (s_db w)))]. eapply Exec__ready; [done|done|apply Himm].
  - done.
  - constructor; simpl; try apply Hk0; try setoid_rewrite lookup_delete_is_Some.
    + intros id v Hx. split; [by apply (Hne id)|by apply (k_vol _ Hk0 id)].
    + intros v [Hx Hy]. split; [done|by apply (k_vol_state _ Hk0)].
    + intros v [Hx Hy]. split; [done|by apply (k_state_vol _ Hk0)].
Qed.

(** ** Reset and configuration *)

Lemma refreshStates_run {A} `{MarshalTotal A} (reset : A → A) l w :
  (∀ kv, kv ∈ l → is_Some (okOf (unmarshal (A:=A) kv.2))) → ∃ out, refreshStates reset l w = (Ok out, w).
Proof.
  unfold refreshStates. match goal with |- context [foldM ?b [] l] => set (body := b) end.
  generalize (@nil (string * string)). induction l as [|kv l IH]; intros acc Hl; simpl; [by eexists|].
  destruct (Hl kv) as [a Ha%okOf_Some]; [by left|]. destruct (marshal_total (reset a)) as [j Hj].
  destruct (IH (acc ++ [(kv.1, j)])) as [out Hout]; [intros; apply Hl; by right|]. exists out.
  erewrite st_bind_run; [exact Hout|]. unfold body. rewrite Ha. erewrite st_bind_run by done. by rewrite Hj.
Qed.

(** A loop of statements that keep the foreign keys *)
Lemma updates_run {A} (f : A → statement) (l : list A) w :
  (∀ x db, FKs db → ∃ n db', f x db = Ok (n, db') ∧ FKs db') → ready w → FKs (s_db w) →
  ∃ db', forM_ l (λ x, Exec_ (f x)) w = (Ok (), sw_set_db db' w) ∧ FKs db'.
Proof.
  intros Hf. revert w. induction l as [|x l IH]; intros w Hw Hk; simpl.
  - exists (s_db w). split; [by destruct w|done].
  - destruct (Hf x (s_db w) Hk) as (n & db' & Hx & Hk'). destruct (IH (sw_set_db db' w)) as (db2 & Hr & Hk2); [done|done|].
    exists db2. split; [|done].
    erewrite st_bind_run; [exact Hr|]. eapply Exec__ready; [done|done|by apply FKs_immediate].
Qed.

Ltac fks_keep Hk := apply (FKs_keys _ _ Hk); simpl; try done; intros; try (by rewrite is_Some_alter);
  try (by eapply (k_exec _ Hk)).

Lemma Refresh_run w : ready w → SInv (s_db w) → ∃ w', SQLite_Refresh w = (Ok (), w').
Proof.
  intros Hw HI. unfold SQLite_Refresh. guards Hw. pose proof (si_fks _ HI) as Hk.
  rewrite (st_bind_run _ _ _ _ _ (Query_ready _ w Hw)).
  edestruct (refreshStates_run resetContainerState) as [cs Hcs]; [|erewrite st_bind_run by apply Hcs].
  { intros [k j]. rewrite scan_perm, elem_of_map_to_list, lookup_fmap, fmap_Some. intros (r & Hr & ->). by apply (si_ctrstate _ HI k). }
  rewrite (st_bind_run _ _ _ _ _ (Query_ready _ w Hw)).
  edestruct (refreshStates_run resetPodState) as [ps Hps]; [|erewrite st_bind_run by apply Hps].
  { intros [k j]. rewrite scan_perm, elem_of_map_to_list, lookup_fmap, fmap_Some. intros (r & Hr & ->). by apply (si_podstate _ HI k). }
  rewrite (st_bind_run _ _ _ _ _ (Query_ready _ w Hw)).
  edestruct (refreshStates_run resetVolumeState) as [vs Hvs]; [|erewrite st_bind_run by apply Hvs].
  { intros [k j]. rewrite scan_perm, elem_of_map_to_list. by apply (si_volstate _ HI k). }
  edestruct (updates_run (λ kv, update_ContainerState kv.1 kv.2) cs w) as (d1 & H1' & Hk1); [|done|done|].
  { intros x db Hdb. do 2 eexists. split; [done|]. fks_keep Hdb. }
  edestruct (updates_run (λ kv, update_PodState kv.1 kv.2) ps (sw_set_db d1 w)) as (d2 & H2' & Hk2); [|done|done|].
  { intros x db Hdb. do 2 eexists. split; [done|]. fks_keep Hdb.
    destruct (decide (x.1 = k)) as [<-|Hne]; [rewrite lookup_alter_eq; by destruct (t_PodState db !! x.1)|by rewrite lookup_alter_ne]. }
  edestruct (updates_run (λ kv, update_VolumeState kv.1 kv.2) vs (sw_set_db d2 w)) as (d3 & H3' & Hk3); [|done|done|].
  { intros x db Hdb. do 2 eexists. split; [done|]. fks_keep Hdb. }
  eexists. apply withTx_ready; [done| |..].
  - erewrite st_bind_run by apply H1'. erewrite st_bind_run by apply H2'. erewrite st_bind_run by apply H3'.
    exec_fwd; [|by apply (immediate_le _ d3)]. eapply Exec__ready; [done|done|].
    apply FKs_immediate. simpl. fks_keep Hk3.
  - done.
  - simpl. fks_keep Hk3.
Qed.

Lemma checkField_run x w : checkField x x w = (Ok (), w).
Proof. apply when_run. intros Hx. by apply Hx. Qed.

Lemma ValidateDBConfig_run w :
  ready w → SInv (s_db w) → (∃ a', spec_write True CValidateDBConfig (abs (s_db w)) a') →
  ∃ w', SQLite_ValidateDBConfig w = (Ok (), w').
Proof.
  intros Hw HI (a' & so & Hso & Hcfg). simpl in Hcfg. unfold SQLite_ValidateDBConfig. guards Hw.
  rewrite Hso, (st_bind_run _ _ w so w) by done. rewrite (st_bind_run _ _ _ _ _ (Query_ready _ w Hw)).
  destruct (t_DBConfig (s_db w)) as [r|] eqn:Hr.
  - destruct Hcfg as [(E1 & E2 & E3 & E4 & E5 & E6 & E7) _]. exists w. rewrite E1, E2, E3, E4, E5, E6, E7.
    do 6 (rewrite (st_bind_run _ _ w () w) by apply checkField_run). apply checkField_run.
  - eexists. eapply tx_one; [done|apply constraint_true; rewrite andb_true_iff, !bool_decide_eq_true; done|].
    fks_keep (si_fks _ HI).
Qed.

(** ** All calls that write *)

Lemma unit_reply_run (m : SM ()) w : (∃ w', m w = (Ok (), w')) → ∃ w', unit_reply m w = (Ok RUnit, w').
Proof. intros [w' Hm]. exists w'. exact (as_reply_run (λ _, RUnit) m w () w' Hm). Qed.

Lemma sexec_complete c w a' :
  ready w → SInv (s_db w) → spec_write True c (abs (s_db w)) a' → ∃ w', sexec c w = (Ok RUnit, w').
Proof.
  intros Hw HI Hs. destruct c; try done; cbn [sexec]; apply unit_reply_run.
  - by apply Refresh_run.
  - by apply ValidateDBConfig_run; [..|by exists a'].
  - destruct Hs as (Hv & Hp & Hcan & _). unfold SQLite_AddContainer. guards Hw. by apply sAddContainer_run.
  - destruct Hs as (Hp & Hcan & _). unfold SQLite_RemoveContainer. guards Hw. by apply sRemoveContainer_run.
  - destruct Hs as (cf & s & Hv & Hcs & _). by eapply SaveContainer_run.
  - destruct Hs as (Hid & Hc & _). by apply AddContainerExitCode_run.
  - by apply PruneContainerExitCodes_run.
  - destruct Hs as (Hv & Hn & Hc & _). by apply AddExecSession_run.
  - destruct Hs as (Hc & _). by apply RemoveExecSession_run.
  - destruct Hs as (Hv & _). by apply RemoveContainerExecSessions_run.
  - destruct Hs as (cf & s & Hv & Hcs & Hn & _). by eapply RewritePodConfig_run.
  - by apply AddPod_run; [..|by exists a'].
  - by apply RemovePod_run; [..|by exists a'].
  - destruct Hs as (Hv & Hv' & Hp & Hcan & _). unfold SQLite_AddContainerToPod. guards Hw. by apply sAddContainer_run.
  - destruct Hs as (Hv & Hp & Hne & Hcan & _). unfold SQLite_RemoveContainerFromPod. rewrite Hp. guards Hw.
    by apply sRemoveContainer_run.
  - destruct Hs as (cf & s & Hv & Hcs & _). by eapply SavePod_run.
  - destruct Hs as (Hv & Hn & _). by apply AddVolume_run.
  - destruct Hs as (Hu & _). by apply RemoveVolume_run.
  - destruct Hs as (cf & s & s' & Hv & Hcs & Hst & _). by eapply SaveVolume_run.
Qed.
End complete.

(** ** The pattern [x%] of the lookups *)

Definition is_upper (c : ascii) : bool :=
  let n := nat_of_ascii c in (65 <=? n)%nat && (n <=? 90)%nat.
Definition wildcard (c : ascii) : bool := Ascii.eqb c "%" || Ascii.eqb c "_".

Fixpoint all_chars (P : ascii → bool) (s : string) : bool :=
  match s with EmptyString => true | String c s => P c && all_chars P s end.

(** No capital letters *)
Definition caseless (s : string) : bool := all_chars (λ c, negb (is_upper c)) s.
(** No capital letters and no wildcards *)
Definition literal (s : string) : bool := all_chars (λ c, negb (is_upper c) && negb (wildcard c)) s.

Lemma like_percent s : like "%" s = true.
Proof. induction s as [|c s IH]; [done|]. simpl. simpl in IH. by rewrite IH. Qed.

Lemma lower_caseless c : is_upper c = false → lower c = c.
Proof. unfold is_upper, lower. intros Hc. by rewrite Hc. Qed.

Lemma prefix_cons c d x s : String.prefix (String c x) (String d s) = Ascii.eqb c d && String.prefix x s.
Proof. simpl. destruct (ascii_dec c d) as [->|Hne]; [by rewrite Ascii.eqb_refl|]. by apply Ascii.eqb_neq in Hne as ->. Qed.

(** For literal [x] and text without capital letters, [s LIKE x%] is the test
    whether [x] is a prefix of [s]. *)
Lemma like_prefix x s : literal x = true → caseless s = true → like (x +:+ "%") s = String.prefix x s.
Proof.
  revert s. induction x as [|c x IH]; intros s Hx Hs; [by rewrite like_percent; destruct s|].
  apply andb_true_iff in Hx as [[Hc Hw]%andb_true_iff Hx]. apply negb_true_iff in Hc, Hw.
  apply orb_false_iff in Hw as [Hp Hu].
  change (String c x +:+ "%") with (String c (x +:+ "%")). cbn [like]. rewrite Hp. destruct s as [|d s]; [done|].
  apply andb_true_iff in Hs as [Hd%negb_true_iff Hs]. rewrite Hu, prefix_cons, (IH s Hx Hs), !lower_caseless by done.
  done.
Qed.

Lemma filter_singleton {R} (sel : string * R → Prop) `{!∀ x, Decision (sel x)} (m : gmap string R) id r :
  m !! id = Some r → sel (id, r) → (∀ k q, m !! k = Some q → sel (k, q) → k = id) →
  filter sel (map_to_list m) = [(id, r)].
Proof.
  intros Hr Hs Hu. apply Permutation_singleton_r, NoDup_Permutation.
  - apply NoDup_filter, NoDup_map_to_list.
  - apply NoDup_singleton.
  - intros [k q]. rewrite list_elem_of_filter, elem_of_map_to_list, list_elem_of_singleton. split.
    + intros [Hsel Hk]. assert (k = id) as -> by eauto. congruence.
    + intros [= -> ->]. done.
Qed.

Section lookup.
Context `{RuntimeLaws, !EmptyTextLaws, RowOrder}.

Lemma SQLite_LookupContainerID_run x id r w :
  SqliteInv.ready w → x ≠ "" → t_ContainerConfig (s_db w) !! id = Some r → matchesLookup x id (rc_Name r) →
  (∀ k q, t_ContainerConfig (s_db w) !! k = Some q → matchesLookup x k (rc_Name q) → k = id) →
  SQLite_LookupContainerID x w = (Ok id, w).
Proof.
  intros Hw Hx Hr Hm Hu. unfold SQLite_LookupContainerID.
  rewrite (st_bind_run _ _ w () w) by (by apply when_run).
  rewrite (st_bind_run _ _ _ _ _ (sCheckValid_ready _ Hw)), (st_bind_run _ _ _ _ _ (Query_ready _ w Hw)).
  unfold lookupCtrRows. rewrite (filter_singleton _ _ _ _ Hr Hm Hu).
  assert (scan [(id, r)] = [(id, r)]) as ->; [|done]. apply Permutation_singleton_r, scan_perm.
Qed.
End lookup.
