(* ===== verification/Graph.v ===== *)
(** * Graph: the dependency graph of containers

    A model of [libpod/container_graph.go]: building the graph, the detection of
    cycles with Tarjan's algorithm, and the two traversals that start and remove
    the containers of a pod in the order of their dependencies.  Pointers to nodes
    are IDs: the graph has one node per ID.  The order in which Go iterates over a
    map is a parameter of the code that depends on it. *)

From S2P Require Import Prelude Define.

(** ** Nodes and edges *)

Record containerNode : Type := mkcontainerNode {
  cn_id : string;
  cn_container : Container;
  cn_dependsOn : list string;
  cn_dependedOn : list string }.

Record ContainerGraph : Type := mkContainerGraph {
  cg_nodes : gmap string containerNode;
  cg_noDepNodes : list string;
  cg_notDependedOnNodes : gset string }.

Definition cn_add_dependsOn (dep : string) (n : containerNode) : containerNode :=
  mkcontainerNode (cn_id n) (cn_container n) (cn_dependsOn n ++ [dep]) (cn_dependedOn n).
Definition cn_add_dependedOn (id : string) (n : containerNode) : containerNode :=
  mkcontainerNode (cn_id n) (cn_container n) (cn_dependsOn n) (cn_dependedOn n ++ [id]).

(** The first loop of [BuildContainerGraph]: all nodes, with no edges. *)
Definition addNode (g : ContainerGraph) (ctr : Container) : ContainerGraph :=
  mkContainerGraph (<[ctr_ID ctr := mkcontainerNode (ctr_ID ctr) ctr [] []]> (cg_nodes g))
    (cg_noDepNodes g) ({[ctr_ID ctr]} ∪ cg_notDependedOnNodes g).

Definition buildNodes (ctrs : list Container) : ContainerGraph :=
  foldl addNode (mkContainerGraph ∅ [] ∅) ctrs.

(** The body of the loop over the dependencies of one node. *)
Definition addEdge (id : string) (g : ContainerGraph) (dep : string) : result error ContainerGraph :=
  match cg_nodes g !! dep with
  | None => Err ErrNoSuchCtr
  | Some _ =>
      Ok (mkContainerGraph
        (alter (cn_add_dependedOn id) dep (alter (cn_add_dependsOn dep) id (cg_nodes g)))
        (cg_noDepNodes g) (cg_notDependedOnNodes g ∖ {[dep]}))
  end.

Fixpoint foldR {A B} (f : B → A → result error B) (b : B) (l : list A) : result error B :=
  match l with
  | [] => Ok b
  | x :: l => f b x ≫= λ b', foldR f b' l
  end.

(** The body of the loop over the nodes. *)
Definition addEdges (g : ContainerGraph) (id : string) : result error ContainerGraph :=
  match cg_nodes g !! id with
  | None => Ok g
  | Some node =>
      let deps := Dependencies (cn_container node) in
      g' ← foldR (addEdge id) g deps;
      Ok (match deps with
          | [] => mkContainerGraph (cg_nodes g') (cg_noDepNodes g' ++ [id]) (cg_notDependedOnNodes g')
          | _ => g'
          end)
  end.

(** [ContainerGraph.DependencyMap] *)
Definition DependencyMap (g : ContainerGraph) : gmap string (list string) :=
  cn_dependsOn <$> cg_nodes g.

(** ** Cycle detection *)

Record nodeInfo : Type := mknodeInfo {
  ni_index : nat;
  ni_lowLink : nat;
  ni_onStack : bool }.

(** The variables that [strongConnect] captures; the top of the stack first. *)
Record Tarjan : Type := mkTarjan {
  t_index : nat;
  t_nodes : gmap string nodeInfo;
  t_stack : list string }.

Definition t_set_info (id : string) (i : nodeInfo) (s : Tarjan) : Tarjan :=
  mkTarjan (t_index s) (<[id := i]> (t_nodes s)) (t_stack s).

Definition ni_set_lowLink (l : nat) (i : nodeInfo) : nodeInfo :=
  mknodeInfo (ni_index i) l (ni_onStack i).

(** Out of fuel ([None]), or the result and the variables. *)
Abbreviation Outcome := (option (result error bool * Tarjan)).

Definition pushNode (id : string) (s : Tarjan) : Tarjan :=
  mkTarjan (S (t_index s)) (<[id := mknodeInfo (t_index s) (t_index s) true]> (t_nodes s))
    (id :: t_stack s).

(** The loop over the successors of [id]; [visit] is the recursive call.  Reading
    the information of a node that has none would dereference a nil pointer. *)
Fixpoint visitSuccessors (visit : string → Tarjan → Outcome) (id : string) (l : list string)
    (s : Tarjan) : Outcome :=
  match l with
  | [] => Some (Ok false, s)
  | succ :: l =>
      match t_nodes s !! succ with
      | None =>
          match visit succ s with
          | None => None
          | Some (Err e, s') => Some (Err e, s')
          | Some (Ok true, s') => Some (Ok true, s')
          | Some (Ok false, s') =>
              match t_nodes s' !! succ, t_nodes s' !! id with
              | Some succInfo, Some info =>
                  visitSuccessors visit id l
                    (if ni_lowLink succInfo <? ni_lowLink info
                     then t_set_info id (ni_set_lowLink (ni_lowLink succInfo) info) s' else s')
              | _, _ => Some (Err Panic, s')
              end
          end
      | Some succInfo =>
          match t_nodes s !! id with
          | Some info =>
              visitSuccessors visit id l
                (if (ni_index succInfo <? ni_lowLink info) && ni_onStack succInfo
                 then t_set_info id (ni_set_lowLink (ni_index succInfo) info) s else s)
          | None => Some (Err Panic, s)
          end
      end
  end.

(** The end of [strongConnect]: the root of a component pops one node. *)
Definition finishNode (id : string) (s : Tarjan) : result error bool * Tarjan :=
  match t_nodes s !! id with
  | None => (Err Panic, s)
  | Some info =>
      if ni_lowLink info =? ni_index info then
        match t_stack s with
        | [] => (Err ErrInternal, s)
        | topOfStack :: stack =>
            let s := mkTarjan (t_index s) (t_nodes s) stack in
            match t_nodes s !! topOfStack with
            | None => (Err ErrInternal, s)
            | Some topInfo =>
                let s := t_set_info topOfStack
                  (mknodeInfo (ni_index topInfo) (ni_lowLink topInfo) false) s in
                (Ok (negb (bool_decide (topOfStack = id))), s)
            end
        end
      else (Ok false, s)
  end.

Fixpoint strongConnect (fuel : nat) (nodes : gmap string containerNode) (id : string) (s : Tarjan)
    : Outcome :=
  match fuel with
  | O => None
  | S fuel =>
      match nodes !! id with
      | None => Some (Err Panic, s)
      | Some node =>
          match visitSuccessors (strongConnect fuel nodes) id (cn_dependsOn node) (pushNode id s) with
          | Some (Ok false, s') => Some (finishNode id s')
          | r => r
          end
      end
  end.

(** The loop over the nodes, in the order [order]. *)
Fixpoint connectAll (fuel : nat) (nodes : gmap string containerNode) (order : list string)
    (s : Tarjan) : Outcome :=
  match order with
  | [] => Some (Ok false, s)
  | id :: order =>
      match t_nodes s !! id with
      | Some _ => connectAll fuel nodes order s
      | None =>
          match strongConnect fuel nodes id s with
          | Some (Ok false, s') => connectAll fuel nodes order s'
          | r => r
          end
      end
  end.

(** [detectCycles]; the depth of the recursion is at most the number of nodes. *)
Definition detectCycles (order : list string) (g : ContainerGraph) : option (result error bool) :=
  fst <$> connectAll (S (size (cg_nodes g))) (cg_nodes g) order (mkTarjan 0 ∅ []).

(** [BuildContainerGraph]; [order1] and [order2] are the orders in which its loop
    and the one of [detectCycles] visit the map of nodes. *)
Definition BuildContainerGraph (order1 order2 : list string) (ctrs : list Container)
    : option (result error ContainerGraph) :=
  match foldR addEdges (buildNodes ctrs) order1 with
  | Err e => Some (Err e)
  | Ok graph =>
      match detectCycles order2 graph with
      | None => None
      | Some (Err e) => Some (Err e)
      | Some (Ok true) => Some (Err ErrInternal)
      | Some (Ok false) => Some (Ok graph)
      end
  end.

(** ** Traversals

    What the traversals call on a container is a parameter, as operations on some
    state [W]; it is the subject of [container_internal.go] and [runtime_ctr.go]. *)

Class ContainerOps (W : Type) : Type := {
  op_checkDependenciesRunning : string → ST error W (list string);
  op_syncContainer : string → ST error W ();
  op_state : string → W → ContainerStatus;
  op_initAndStart : string → ST error W ();
  op_restartWithTimeout : string → Z → ST error W ();
  op_GetContainer : string → ST error W ();
  op_savePod : string → ST error W ();
  op_removeContainer : string → ST error W () }.

(** The calls with an effect on a container, as they are made. *)
Inductive event : Type :=
| EvLock (id : string)
| EvStart (id : string)
| EvRestart (id : string)
| EvRemove (id : string)
| EvUnlock (id : string).

#[export] Instance event_eq_dec : EqDecision event.
Proof. solve_decision. Defined.

(** [ctrErrors], [ctrsVisited] (newest first), the calls made, each with the state
    it was made in (newest first), [ctrNamedVolumes], and
    [pod.state.InfraContainerID] when a pod is given. *)
Record Walk (W : Type) : Type := mkWalk {
  wk_errors : gmap string error;
  wk_visited : list string;
  wk_trace : list (event * W);
  wk_volumes : gmap string ContainerNamedVolume;
  wk_infra : option string;
  wk_world : W }.
Arguments mkWalk {W}.
Arguments wk_errors {W}.
Arguments wk_visited {W}.
Arguments wk_trace {W}.
Arguments wk_volumes {W}.
Arguments wk_infra {W}.
Arguments wk_world {W}.

(** Run [f] over a list until it runs out of fuel. *)
Fixpoint foldO {A S} (f : A → S → option S) (l : list A) (s : S) : option S :=
  match l with
  | [] => Some s
  | x :: l => f x s ≫= foldO f l
  end.

Section walk.
Context {W : Type} `{ContainerOps W}.

Definition setErr (id : string) (e : error) (s : Walk W) : Walk W :=
  mkWalk (<[id := e]> (wk_errors s)) (wk_visited s) (wk_trace s) (wk_volumes s) (wk_infra s) (wk_world s).
Definition mark (id : string) (s : Walk W) : Walk W :=
  mkWalk (wk_errors s) (if decide (id ∈ wk_visited s) then wk_visited s else id :: wk_visited s)
    (wk_trace s) (wk_volumes s) (wk_infra s) (wk_world s).
Definition emit (e : event) (s : Walk W) : Walk W :=
  mkWalk (wk_errors s) (wk_visited s) ((e, wk_world s) :: wk_trace s) (wk_volumes s) (wk_infra s) (wk_world s).
Definition setWorld (w : W) (s : Walk W) : Walk W :=
  mkWalk (wk_errors s) (wk_visited s) (wk_trace s) (wk_volumes s) (wk_infra s) w.

(** [if !ctrErrored { if err := op(); err != nil { ctrErrored = true; ctrErrors[id] = err } }] *)
Definition guarded (id : string) (op : ST error W ()) (r : bool * Walk W) : bool * Walk W :=
  if r.1 then r
  else match op (wk_world r.2) with
       | (Ok _, w) => (false, setWorld w r.2)
       | (Err e, w) => (true, setErr id e (setWorld w r.2))
       end.

(** [checkDependenciesRunning] must find no stopped dependency. *)
Definition checkDeps (id : string) : ST error W () := λ w,
  match op_checkDependenciesRunning id w with
  | (Ok [], w') => (Ok (), w')
  | (Ok _, w') => (Err ErrCtrStateInvalid, w')
  | (Err e, w') => (Err e, w')
  end.

(** What [startNode] does with a node whose dependencies were visited. *)
Definition startOne (restart : bool) (node : containerNode) (s : Walk W) : bool * Walk W :=
  let id := cn_id node in
  let config := ctr_config (cn_container node) in
  let r := guarded id (checkDeps id) (false, s) in
  let r := (r.1, emit (EvLock id) r.2) in
  let r := guarded id (op_syncContainer id) r in
  let state := op_state id (wk_world r.2) in
  let r :=
    if negb r.1 && bool_decide (cc_InitContainerType config = "") then
      if restart then
        if bool_decide (state ≠ ContainerStatePaused ∧ state ≠ ContainerStateUnknown) then
          guarded id (op_restartWithTimeout id (cc_StopTimeout config)) (r.1, emit (EvRestart id) r.2)
        else r
      else if bool_decide (state ≠ ContainerStateRunning) then
        guarded id (op_initAndStart id) (r.1, emit (EvStart id) r.2)
      else r
    else r in
  (r.1, emit (EvUnlock id) r.2).

Fixpoint startNode (fuel : nat) (nodes : gmap string containerNode) (restart : bool)
    (id : string) (setError : bool) (s : Walk W) : option (Walk W) :=
  match fuel with
  | O => None
  | S fuel =>
      if decide (id ∈ wk_visited s) then Some s
      else
        match nodes !! id with
        | None => None
        | Some node =>
            if setError then
              let s := setErr id ErrCtrStateInvalid (mark id s) in
              foldO (λ succ, startNode fuel nodes restart succ true) (cn_dependedOn node) s
            else if decide (Forall (.∈ wk_visited s) (cn_dependsOn node)) then
              let r := startOne restart node (mark id s) in
              foldO (λ succ, startNode fuel nodes restart succ r.1) (cn_dependedOn node) r.2
            else Some s
        end
  end.

(** The loop over the nodes with no dependencies in [Pod.Start], [Pod.Restart] and
    [Container.startDependencies]. *)
Definition startGraph (restart : bool) (g : ContainerGraph) (s : Walk W) : option (Walk W) :=
  foldO (λ id, startNode (2 + size (cg_nodes g)) (cg_nodes g) restart id false) (cg_noDepNodes g) s.

(** Does a container that depends on us still exist?  Every one is looked up. *)
Definition checkUsers (id : string) (users : list string) (r : bool * Walk W) : bool * Walk W :=
  foldl (λ r dep,
    match op_GetContainer dep (wk_world r.2) with
    | (Ok _, w) => (true, setErr id ErrDepExists (setWorld w r.2))
    | (Err _, w) => (r.1, setWorld w r.2)
    end) r users.

Definition addVolumes (vols : list ContainerNamedVolume) (s : Walk W) : Walk W :=
  mkWalk (wk_errors s) (wk_visited s) (wk_trace s)
    (foldl (λ m v, <[nv_Name v := v]> m) (wk_volumes s) vols) (wk_infra s) (wk_world s).
Definition setInfra (i : option string) (s : Walk W) : Walk W :=
  mkWalk (wk_errors s) (wk_visited s) (wk_trace s) (wk_volumes s) i (wk_world s).

(** What [removeNode] does with a node whose dependents were visited. *)
Definition removeOne (node : containerNode) (s : Walk W) : bool * Walk W :=
  let id := cn_id node in
  let config := ctr_config (cn_container node) in
  let r := checkUsers id (cn_dependedOn node) (false, s) in
  let r := (r.1, emit (EvLock id) r.2) in
  let r := guarded id (op_syncContainer id) r in
  let r :=
    if negb r.1 then
      let r := (r.1, addVolumes (cc_NamedVolumes config) r.2) in
      if bool_decide (wk_infra r.2 = Some id)
      then guarded id (op_savePod "") (r.1, setInfra (Some "") r.2)
      else r
    else r in
  let r := if negb r.1 then guarded id (op_removeContainer id) (r.1, emit (EvRemove id) r.2) else r in
  (r.1, emit (EvUnlock id) r.2).

(** After marking a node because of a failure, [removeNode] goes on with it. *)
Fixpoint removeNode (fuel : nat) (nodes : gmap string containerNode)
    (id : string) (setError : bool) (s : Walk W) : option (Walk W) :=
  match fuel with
  | O => None
  | S fuel =>
      if decide (id ∈ wk_visited s) then Some s
      else
        match nodes !! id with
        | None => None
        | Some node =>
            s ← (if setError then
                   foldO (λ succ, removeNode fuel nodes succ true) (cn_dependsOn node)
                     (setErr id ErrCtrStateInvalid (mark id s))
                 else Some s);
            if decide (Forall (.∈ wk_visited s) (cn_dependedOn node)) then
              let r := removeOne node (mark id s) in
              foldO (λ succ, removeNode fuel nodes succ r.1) (cn_dependsOn node) r.2
            else Some s
        end
  end.

(** The loop over the nodes that nobody depends on in [Runtime.removePod], in the
    order [order]. *)
Definition removeGraph (order : list string) (g : ContainerGraph) (s : Walk W) : option (Walk W) :=
  foldO (λ id, removeNode (2 + size (cg_nodes g)) (cg_nodes g) id false) order s.
End walk.
