(* ===== verification/GraphCycles.v ===== *)
(** * GraphCycles: correctness of the cycle detection

    [detectCycles] is Tarjan's algorithm for strongly connected components,
    stopped at the first component with more than one node.  The invariant [wf]
    relates its variables to the nodes whose calls are active and to the nodes
    that were popped; the latter form a topological order of their part of the
    graph ([topo]). *)

From S2P Require Import Prelude Define Graph.

Section cycles.
Context (nodes : gmap string containerNode).

(** [u] depends on [v] *)
Definition edge (u v : string) : Prop :=
  ∃ n, nodes !! u = Some n ∧ v ∈ cn_dependsOn n.

Definition closed_graph : Prop := ∀ u v, edge u v → is_Some (nodes !! v).

(** A cycle through at least two nodes. *)
Definition cyclic : Prop := ∃ u v, u ≠ v ∧ rtc edge u v ∧ rtc edge v u.

(** Every node's dependencies, itself aside, come later in the list. *)
Fixpoint topo (l : list string) : Prop :=
  match l with
  | [] => True
  | d :: l => (d ∉ l) ∧ (∀ v, edge d v → v = d ∨ v ∈ l) ∧ topo l
  end.

Lemma topo_closed l u v : topo l → u ∈ l → rtc edge u v → v ∈ l.
Proof.
  intros Hl Hu Huv. induction Huv as [|u w v Huw _ IH]; [done|]. apply IH.
  clear IH. induction l as [|d l IH]; [by apply elem_of_nil in Hu|].
  destruct Hl as (_ & Hd & Hl). apply elem_of_cons in Hu as [->|Hu].
  - destruct (Hd w Huw) as [->|?]; [by left|by right].
  - right. auto.
Qed.

Lemma topo_acyclic l : topo l → (∀ u v, edge u v → u ∈ l) → ¬ cyclic.
Proof.
  intros Hl Hall (u & v & Hne & Huv & Hvu).
  assert (Hin : u ∈ l).
  { inversion Huv; subst; [done|]. eauto. }
  clear Hall. revert u v Hne Huv Hvu Hin.
  induction l as [|d l IH]; intros u v Hne Huv Hvu Hin; [by apply elem_of_nil in Hin|].
  assert (Hv : v ∈ d :: l) by eauto using topo_closed.
  destruct Hl as (Hd & Hs & Hl).
  apply elem_of_cons in Hin as [->|Hu]; apply elem_of_cons in Hv as [->|Hv]; try done.
  - apply Hd. eauto using topo_closed.
  - apply Hd. eauto using topo_closed.
  - eauto.
Qed.

(** ** The invariant *)

Definition idx (s : Tarjan) (u : string) : option nat := ni_index <$> t_nodes s !! u.
Definition on (s : Tarjan) (u : string) : option bool := ni_onStack <$> t_nodes s !! u.

(** [u] was visited after [v]. *)
Definition above (s : Tarjan) (u v : string) : Prop :=
  ∃ i j, idx s u = Some i ∧ idx s v = Some j ∧ j < i.

Record wf (act done : list string) (s : Tarjan) : Prop := {
  wf_seen : ∀ u, is_Some (idx s u) ↔ u ∈ t_stack s ∨ u ∈ done;
  wf_disj : ∀ u, u ∈ t_stack s → u ∉ done;
  wf_on : ∀ u b, on s u = Some b → b = bool_decide (u ∈ t_stack s);
  wf_bound : ∀ u i, idx s u = Some i → i < t_index s;
  wf_inj : ∀ u v i, idx s u = Some i → idx s v = Some i → u = v;
  wf_sorted : StronglySorted (above s) (t_stack s);
  wf_topo : topo done;
  wf_act : ∀ a, a ∈ act → a ∈ t_stack s;
  wf_nodup : NoDup act;
  wf_path : StronglySorted (λ a b, rtc edge b a) act;
  wf_down : ∀ u, u ∈ t_stack s → u ∉ act → ∃ v, v ∈ t_stack s ∧ above s u v ∧ rtc edge u v;
  wf_up : ∀ a u, a ∈ act → u ∈ t_stack s → above s u a → rtc edge a u }.

Lemma above_irrefl s u : ¬ above s u u.
Proof. intros (i & j & Hi & Hj & ?). rewrite Hi in Hj. simplify_eq. lia. Qed.

Lemma wf_idx act done s u : wf act done s → u ∈ t_stack s → ∃ i, idx s u = Some i.
Proof. intros Hwf Hu. apply (wf_seen _ _ _ Hwf). by left. Qed.

(** The invariant does not depend on the low links. *)
Lemma wf_same act done s s' :
  wf act done s → t_index s' = t_index s → t_stack s' = t_stack s →
  (∀ u, idx s' u = idx s u) → (∀ u, on s' u = on s u) → wf act done s'.
Proof.
  intros [] Hi Hst Hidx Hon.
  assert (Hab : ∀ u v, above s' u v ↔ above s u v) by (intros; unfold above; by rewrite !Hidx).
  constructor; rewrite ?Hst, ?Hi; try done.
  - intros u. by rewrite Hidx.
  - intros u b. rewrite Hon. auto.
  - intros u i. rewrite Hidx. apply wf_bound0.
  - intros u v i. rewrite !Hidx. eauto.
  - eapply StronglySorted_weaken; [|done]. intros. by apply Hab.
  - intros u Hu Ha. destruct (wf_down0 u Hu Ha) as (v & ? & ? & ?). exists v. by rewrite Hab.
  - intros a u Ha Hu. rewrite Hab. eauto.
Qed.

(** Every node on the stack reaches the node whose call is running. *)
Lemma stack_reaches v act done s x :
  wf (v :: act) done s → x ∈ t_stack s → rtc edge x v.
Proof.
  intros Hwf Hx. destruct (wf_idx _ _ _ _ Hwf Hx) as [i Hi].
  revert x Hx Hi. induction i as [i IH] using lt_wf_ind; intros x Hx Hi.
  destruct (decide (x ∈ v :: act)) as [Ha|Ha].
  - apply elem_of_cons in Ha as [->|Ha]; [done|].
    pose proof (wf_path _ _ _ Hwf) as Hp. apply StronglySorted_cons in Hp as [Hp _].
    rewrite Forall_forall in Hp. auto.
  - destruct (wf_down _ _ _ Hwf x Hx Ha) as (y & Hy & (i' & j & Hi' & Hj & Hlt) & Hxy).
    rewrite Hi in Hi'. simplify_eq. etrans; [exact Hxy|]. by eapply IH.
Qed.

Lemma act_reaches v act done s a : wf (v :: act) done s → a ∈ v :: act → rtc edge a v.
Proof. intros Hwf Ha. eapply stack_reaches; [done|]. by apply (wf_act _ _ _ Hwf). Qed.

(** With no active call the stack is empty. *)
Lemma wf_nil_stack done s : wf [] done s → t_stack s = [].
Proof.
  intros Hwf. destruct (t_stack s) as [|x l] eqn:Hst; [done|].
  assert (Hx : x ∈ t_stack s) by (rewrite Hst; by left). exfalso. clear Hst l.
  destruct (wf_idx _ _ _ _ Hwf Hx) as [i Hi]. revert x Hx Hi.
  induction i as [i IH] using lt_wf_ind; intros x Hx Hi.
  destruct (wf_down _ _ _ Hwf x Hx) as (y & Hy & (i' & j & Hi' & Hj & Hlt) & _); [by apply not_elem_of_nil|].
  rewrite Hi in Hi'. simplify_eq. eauto.
Qed.

Lemma wf_top_above act done s t st u :
  wf act done s → t_stack s = t :: st → u ∈ t_stack s → u ≠ t → above s t u.
Proof.
  intros Hwf Hst Hu Hne. pose proof (wf_sorted _ _ _ Hwf) as Hs. rewrite Hst in Hs, Hu.
  apply StronglySorted_cons in Hs as [Hs _]. rewrite Forall_forall in Hs.
  apply elem_of_cons in Hu as [->|Hu]; [done|auto].
Qed.

(** A root that is not on top of the stack is on a cycle. *)
Lemma root_cyclic v act done s t st :
  wf (v :: act) done s → t_stack s = t :: st → t ≠ v → cyclic.
Proof.
  intros Hwf Hst Hne. assert (Hv : v ∈ t_stack s) by (apply (wf_act _ _ _ Hwf); by left).
  assert (Ht : t ∈ t_stack s) by (rewrite Hst; by left).
  exists v, t. split_and!; [done| |by eapply stack_reaches].
  apply (wf_up _ _ _ Hwf); [by left|done|by eapply wf_top_above].
Qed.

(** ** Entering and leaving a node *)

Lemma idx_push id s u : idx (pushNode id s) u = if decide (u = id) then Some (t_index s) else idx s u.
Proof. unfold idx, pushNode; simpl. rewrite lookup_insert. repeat case_decide; naive_solver. Qed.
Lemma on_push id s u : on (pushNode id s) u = if decide (u = id) then Some true else on s u.
Proof. unfold on, pushNode; simpl. rewrite lookup_insert. repeat case_decide; naive_solver. Qed.

Lemma push_wf id act done s :
  wf act done s → idx s id = None → (∀ a, a ∈ act → rtc edge a id) →
  wf (id :: act) done (pushNode id s).
Proof.
  intros Hwf Hid Hact. assert (Hns : (id ∉ t_stack s) ∧ (id ∉ done)).
  { split; intros Hin; destruct (proj2 (wf_seen _ _ _ Hwf id)) as [? Hs]; auto; by rewrite Hid in Hs. }
  assert (Hidx : ∀ u, u ∈ t_stack s → idx (pushNode id s) u = idx s u).
  { intros u Hu. rewrite idx_push. case_decide; [by subst; destruct Hns|done]. }
  assert (Hab : ∀ u v, u ∈ t_stack s → v ∈ t_stack s → above (pushNode id s) u v ↔ above s u v).
  { intros u v Hu Hv. unfold above. by rewrite !Hidx. }
  assert (Htop : ∀ u, u ∈ t_stack s → above (pushNode id s) id u).
  { intros u Hu. destruct (wf_idx _ _ _ _ Hwf Hu) as [i Hi].
    exists (t_index s), i. rewrite (Hidx u Hu), idx_push, decide_True by done.
    split_and!; [done|done|by eapply wf_bound]. }
  destruct Hwf. constructor; simpl.
  - intros u. rewrite idx_push, elem_of_cons. case_decide; [naive_solver|].
    rewrite wf_seen0. naive_solver.
  - intros u [->|?]%elem_of_cons; naive_solver.
  - intros u b. rewrite on_push. case_decide as Hu.
    + intros [= <-]. symmetry. apply bool_decide_eq_true. subst. by left.
    + intros ->%wf_on0. apply bool_decide_ext. rewrite elem_of_cons. naive_solver.
  - intros u i. rewrite idx_push. case_decide; [naive_solver lia|]. intros ?%wf_bound0. lia.
  - intros u v i. rewrite !idx_push. repeat case_decide; subst; try done; intros ? ?; simplify_eq;
      try (exfalso; by eapply Nat.lt_irrefl, wf_bound0). eauto.
  - apply SSorted_cons.
    + eapply StronglySorted_weaken; [|done]. intros. by apply Hab.
    + apply Forall_forall. auto.
  - done.
  - intros a [->|?]%elem_of_cons; [by left|right; auto].
  - constructor; [|done]. naive_solver.
  - constructor; [done|]. by apply Forall_forall.
  - intros u [->|Hu]%elem_of_cons Ha; [destruct Ha; by left|].
    destruct (wf_down0 u Hu) as (v & Hv & Huv & Hr); [intros ?; apply Ha; by right|].
    exists v. split_and!; [by right|by apply Hab|done].
  - intros a u Ha Hu Hua. apply elem_of_cons in Ha as [->|Ha]; apply elem_of_cons in Hu as [->|Hu].
    + done.
    + exfalso. destruct (Htop u Hu) as (i & j & Hi & Hj & ?), Hua as (i' & j' & Hi' & Hj' & ?).
      rewrite Hi in Hj'. rewrite Hj in Hi'. simplify_eq. lia.
    + auto.
    + apply Hab in Hua; [eauto|done|auto].
Qed.

(** A node that is not the root of its component stays on the stack. *)
Lemma leave_wf id act done s x :
  wf (id :: act) done s → x ∈ t_stack s → above s id x → rtc edge id x → wf act done s.
Proof.
  intros Hwf Hx Hab Hr. destruct Hwf. constructor; try done.
  - intros a Ha. apply wf_act0. by right.
  - by apply NoDup_cons in wf_nodup0 as [_ ?].
  - by apply StronglySorted_cons in wf_path0 as [_ ?].
  - intros u Hu Ha. destruct (decide (u = id)) as [->|?]; [by exists x|].
    apply wf_down0; [done|]. by intros [?|?]%elem_of_cons.
  - intros a u Ha. apply wf_up0. by right.
Qed.

Definition popped (id : string) (info : nodeInfo) (st : list string) (s : Tarjan) : Tarjan :=
  t_set_info id (mknodeInfo (ni_index info) (ni_lowLink info) false)
    (mkTarjan (t_index s) (t_nodes s) st).

(** A root on top of the stack is popped; its other successors were popped before. *)
Lemma pop_wf id act done s info st :
  wf (id :: act) done s → t_nodes s !! id = Some info → t_stack s = id :: st →
  (∀ v, edge id v → v = id ∨ v ∈ done) → wf act (id :: done) (popped id info st s).
Proof.
  intros Hwf Hinfo Hst Hsucc.
  assert (Hidx : ∀ u, idx (popped id info st s) u = idx s u).
  { intros u. unfold idx, popped; simpl. rewrite lookup_insert. case_decide; [by subst; rewrite Hinfo|done]. }
  assert (Hab : ∀ u v, above (popped id info st s) u v ↔ above s u v) by (intros; unfold above; by rewrite !Hidx).
  assert (Hnd : id ∉ st).
  { pose proof (wf_sorted _ _ _ Hwf) as Hs. rewrite Hst in Hs. apply StronglySorted_cons in Hs as [Hs _].
    rewrite Forall_forall in Hs. intros Hin. by apply (above_irrefl s id), Hs. }
  assert (Htop : ∀ u, u ∈ t_stack s → ¬ above s u id).
  { intros u Hu. destruct (decide (u = id)) as [->|Hne]; [apply above_irrefl|].
    destruct (wf_top_above _ _ _ _ _ _ Hwf Hst Hu Hne) as (i & j & Hi & Hj & ?).
    intros (i' & j' & Hi' & Hj' & ?). rewrite Hi in Hj'. rewrite Hj in Hi'. simplify_eq. lia. }
  pose proof (λ u, wf_seen _ _ _ Hwf u) as Hseen.
  destruct Hwf. rewrite Hst in *. apply NoDup_cons in wf_nodup0 as [Hia Hna].
  apply StronglySorted_cons in wf_path0 as [_ Hp]. apply StronglySorted_cons in wf_sorted0 as [_ Hs].
  constructor; simpl.
  - intros u. rewrite Hidx, Hseen, !elem_of_cons. naive_solver.
  - intros u Hu [->|Hd]%elem_of_cons; [done|]. apply (wf_disj0 u); [by right|done].
  - intros u b. unfold on, popped; simpl. rewrite lookup_insert. case_decide as Hu.
    + intros [= <-]. symmetry. apply bool_decide_eq_false. by subst.
    + intros ->%wf_on0. apply bool_decide_ext. rewrite elem_of_cons. naive_solver.
  - intros u i. rewrite Hidx. apply wf_bound0.
  - intros u v i. rewrite !Hidx. eauto.
  - eapply StronglySorted_weaken; [|done]. intros. by apply Hab.
  - split_and!; [apply wf_disj0; by left|done|done].
  - intros a Ha. assert (Hi : a ∈ id :: st) by (apply wf_act0; by right).
    by apply elem_of_cons in Hi as [->|?].
  - done.
  - done.
  - intros u Hu Ha. destruct (wf_down0 u) as (v & Hv & Huv & Hr); [by right| |].
    { intros [->|?]%elem_of_cons; done. }
    exists v. rewrite Hab. split_and!; try done.
    apply elem_of_cons in Hv as [->|?]; [|done]. exfalso. apply (Htop u); [by right|done].
  - intros a u Ha Hu. rewrite Hab. apply wf_up0; by right.
Qed.

(** ** The loop over the successors *)

Definition todo (s : Tarjan) : nat := size (dom nodes ∖ dom (t_nodes s)).

Lemma todo_mono s s' : (∀ u, is_Some (t_nodes s !! u) → is_Some (t_nodes s' !! u)) → todo s' ≤ todo s.
Proof. intros Hs. unfold todo. apply subseteq_size. intros u. rewrite !elem_of_difference, !elem_of_dom. naive_solver. Qed.

Lemma todo_push id s : is_Some (nodes !! id) → t_nodes s !! id = None → S (todo (pushNode id s)) = todo s.
Proof.
  intros Hn Hs. unfold todo, pushNode; simpl. rewrite dom_insert_L.
  replace (dom nodes ∖ dom (t_nodes s)) with ({[id]} ∪ dom nodes ∖ ({[id]} ∪ dom (t_nodes s))).
  { rewrite (size_union {[id]} (dom nodes ∖ ({[id]} ∪ dom (t_nodes s)))) by set_solver. by rewrite size_singleton. }
  apply set_eq. intros u. rewrite elem_of_union, !elem_of_difference, elem_of_union, elem_of_singleton.
  destruct (decide (u = id)) as [->|]; [|tauto].
  rewrite !elem_of_dom, Hs. split; [intros _; split; [done|by intros [? ?]]|by left].
Qed.

(** The low link of [id] is the index of a node on the stack that it reaches. *)
Definition low (s : Tarjan) (id : string) (info : nodeInfo) : Prop :=
  ∃ x, x ∈ t_stack s ∧ idx s x = Some (ni_lowLink info) ∧ rtc edge id x.

Record Loop (id : string) (act done seen : list string) (s : Tarjan) (info : nodeInfo) : Prop := {
  lp_wf : wf (id :: act) done s;
  lp_info : t_nodes s !! id = Some info;
  lp_low : low s id info;
  lp_le : ni_lowLink info ≤ ni_index info;
  lp_seen : ∀ v, v ∈ seen → v ∈ done ∨
    (v ∈ t_stack s ∧ ∃ j, idx s v = Some j ∧ ni_lowLink info ≤ j) }.

(** What a call for [id] that finds no cycle leaves. *)
Record connected (act done : list string) (id : string) (s : Tarjan) (done' : list string)
    (s' : Tarjan) : Prop := {
  cn_wf : wf act done' s';
  cn_nodes : t_nodes s ⊆ t_nodes s';
  cn_stack : t_stack s ⊆ t_stack s';
  cn_done : done ⊆ done';
  cn_info : ∃ info, t_nodes s' !! id = Some info ∧ t_index s ≤ ni_index info ∧
    ((id ∈ done' ∧ ni_lowLink info = ni_index info) ∨
     (id ∈ t_stack s' ∧ low s' id info ∧ ni_lowLink info < ni_index info)) }.

Definition visit_ok (visit : string → Tarjan → Outcome) (n : nat) : Prop :=
  ∀ act done s id, wf act done s → is_Some (nodes !! id) → t_nodes s !! id = None →
    (∀ a, a ∈ act → rtc edge a id) → todo s ≤ n →
    ∃ r s', visit id s = Some (r, s') ∧
      ((r = Ok true ∧ cyclic) ∨ (r = Ok false ∧ ∃ done', connected act done id s done' s')).

Lemma idx_lower id l info s u :
  t_nodes s !! id = Some info → idx (t_set_info id (ni_set_lowLink l info) s) u = idx s u.
Proof.
  intros Hi. unfold idx; simpl. rewrite lookup_insert. case_decide; [|done]. subst. by rewrite Hi.
Qed.
Lemma on_lower id l info s u :
  t_nodes s !! id = Some info → on (t_set_info id (ni_set_lowLink l info) s) u = on s u.
Proof.
  intros Hi. unfold on; simpl. rewrite lookup_insert. case_decide; [|done]. subst. by rewrite Hi.
Qed.

(** Lowering the low link to the index [l] of a node [x] that [id] reaches. *)
Lemma loop_lower id act done seen s info l x :
  Loop id act done seen s info → l ≤ ni_lowLink info → x ∈ t_stack s → idx s x = Some l →
  rtc edge id x → Loop id act done seen (t_set_info id (ni_set_lowLink l info) s) (ni_set_lowLink l info).
Proof.
  intros [Hwf Hi _ Hle Hseen] Hl Hx Hxl Hr. constructor; simpl.
  - eapply wf_same; [done|done|done|..]; intros; [by apply idx_lower|by apply on_lower].
  - apply lookup_insert_eq.
  - exists x. rewrite idx_lower by done. done.
  - lia.
  - intros v Hv. destruct (Hseen v Hv) as [?|(? & j & Hj & ?)]; [by left|right].
    split; [done|]. exists j. rewrite idx_lower by done. split; [done|lia].
Qed.

Lemma loop_seen id act done seen s info v :
  Loop id act done seen s info →
  (v ∈ done ∨ (v ∈ t_stack s ∧ ∃ j, idx s v = Some j ∧ ni_lowLink info ≤ j)) →
  Loop id act done (seen ++ [v]) s info.
Proof.
  intros [] Hv. constructor; try done.
  intros u [Hu|Hu]%elem_of_app; [auto|]. by apply list_elem_of_singleton in Hu as ->.
Qed.

(** After the call for a new successor. *)
Lemma loop_connected id act done seen s info succ done' s' :
  Loop id act done seen s info → edge id succ → t_nodes s !! succ = None →
  connected (id :: act) done succ s done' s' →
  ∃ succInfo, t_nodes s' !! succ = Some succInfo ∧ t_nodes s' !! id = Some info ∧
    let l := ni_lowLink succInfo in
    let s2 := if l <? ni_lowLink info then t_set_info id (ni_set_lowLink l info) s' else s' in
    let info2 := if l <? ni_lowLink info then ni_set_lowLink l info else info in
    Loop id act done' (seen ++ [succ]) s2 info2.
Proof.
  intros HL He Hnew [Hwf' Hn Hst Hd (si & Hsi & Hge & Hcase)]. exists si.
  assert (Hid : t_nodes s' !! id = Some info) by (eapply lookup_weaken; [apply HL|done]).
  split_and!; [done|done|].
  assert (Hidx : ∀ u j, idx s u = Some j → idx s' u = Some j).
  { unfold idx. intros u j (i & Hi & ->)%fmap_Some. by rewrite (lookup_weaken _ _ _ _ Hi Hn). }
  assert (HL' : Loop id act done' seen s' info).
  { destruct HL as [Hwf Hi (x & Hx & Hxl & Hr) Hle Hseen]. constructor; [done|done| |done|].
    - exists x. split_and!; [by apply Hst|by apply Hidx|done].
    - intros v Hv. destruct (Hseen v Hv) as [?|(? & j & ? & ?)]; [left; by apply Hd|right].
      split; [by apply Hst|eauto]. }
  assert (Hb : ni_index info < t_index s).
  { destruct HL as [Hwf Hi _ _ _]. eapply (wf_bound _ _ _ Hwf id). unfold idx. by rewrite Hi. }
  pose proof (lp_le _ _ _ _ _ _ HL) as Hle.
  assert (Hsidx : idx s' succ = Some (ni_index si)) by (unfold idx; by rewrite Hsi).
  simpl. destruct Hcase as [(Hdone & Heq)|(Hon & (x & Hx & Hxl & Hr) & Hlt)].
  - destruct (Nat.ltb_spec (ni_lowLink si) (ni_lowLink info)); [lia|]. apply loop_seen; auto.
  - assert (Hr' : rtc edge id x) by (eapply rtc_l; eauto).
    destruct (Nat.ltb_spec (ni_lowLink si) (ni_lowLink info)).
    + apply loop_seen; [by eapply loop_lower; eauto; lia|]. right. split; [done|].
      exists (ni_index si). rewrite idx_lower by done. simpl. split; [done|lia].
    + apply loop_seen; [done|]. right. split; [done|]. exists (ni_index si). split; [done|lia].
Qed.

(** After reading a successor that was visited before. *)
Lemma loop_visited id act done seen s info succ succInfo :
  Loop id act done seen s info → edge id succ → t_nodes s !! succ = Some succInfo →
  let b := (ni_index succInfo <? ni_lowLink info) && ni_onStack succInfo in
  Loop id act done (seen ++ [succ])
    (if b then t_set_info id (ni_set_lowLink (ni_index succInfo) info) s else s)
    (if b then ni_set_lowLink (ni_index succInfo) info else info).
Proof.
  intros HL He Hs. simpl. pose proof (lp_wf _ _ _ _ _ _ HL) as Hwf.
  pose proof (lp_info _ _ _ _ _ _ HL) as Hinfo.
  assert (Hidx : idx s succ = Some (ni_index succInfo)) by (unfold idx; by rewrite Hs).
  assert (Hon : ni_onStack succInfo = bool_decide (succ ∈ t_stack s)).
  { apply (wf_on _ _ _ Hwf). unfold on. by rewrite Hs. }
  rewrite Hon. case_bool_decide as Hin; rewrite ?andb_true_r, ?andb_false_r.
  - destruct (Nat.ltb_spec (ni_index succInfo) (ni_lowLink info)).
    + apply loop_seen; [eapply loop_lower; eauto using rtc_once; lia|].
      right. split; [done|]. eexists. rewrite idx_lower by done. simpl. eauto.
    + apply loop_seen; [done|]. right. eauto.
  - apply loop_seen; [done|]. left.
    destruct (proj1 (wf_seen _ _ _ Hwf succ)) as [?|?]; [by rewrite Hidx|done|done].
Qed.

Context (Hclosed : closed_graph).

Lemma visitSuccessors_ok visit n id act l : visit_ok visit n → ∀ seen done s info,
  Loop id act done seen s info → (∀ v, v ∈ l → edge id v) → todo s ≤ n →
  ∃ r s', visitSuccessors visit id l s = Some (r, s') ∧
    ((r = Ok true ∧ cyclic) ∨
     (r = Ok false ∧ ∃ done' info', Loop id act done' (seen ++ l) s' info' ∧
        ni_index info' = ni_index info ∧ t_stack s ⊆ t_stack s' ∧ done ⊆ done' ∧
        ∀ u i, u ≠ id → t_nodes s !! u = Some i → t_nodes s' !! u = Some i)).
Proof.
  intros Hv. induction l as [|succ l IH]; intros seen done s info HL Hl Hn; simpl.
  { eexists _, _. split; [done|]. right. split; [done|]. exists done, info. by rewrite app_nil_r. }
  assert (He : edge id succ) by (apply Hl; by left).
  assert (Hl' : ∀ v, v ∈ l → edge id v) by (intros; apply Hl; by right).
  pose proof (lp_info _ _ _ _ _ _ HL) as Hinfo.
  replace (seen ++ succ :: l) with ((seen ++ [succ]) ++ l) by by rewrite <-app_assoc.
  destruct (t_nodes s !! succ) as [si|] eqn:Hs.
  - rewrite Hinfo. pose proof (loop_visited _ _ _ _ _ _ _ _ HL He Hs) as HL2. simpl in HL2.
    edestruct (IH _ _ _ _ HL2 Hl') as (r & s' & -> & Hr).
    { etrans; [|done]. apply todo_mono. intros u. case_match; [|done]. simpl. rewrite lookup_insert_is_Some'. auto. }
    eexists _, _. split; [done|]. destruct Hr as [?|(-> & d' & i' & HL' & Hi' & Hst & Hd & Hf)]; [by left|].
    right. split; [done|]. exists d', i'. split_and!; [done| | |done|].
    + rewrite Hi'. by case_match.
    + etrans; [|done]. by case_match.
    + intros u i Hne Hu. apply Hf; [done|]. case_match; [|done]. simpl. by rewrite lookup_insert_ne.
  - destruct (Hv (id :: act) done s succ) as (r & s1 & -> & Hr).
    + apply HL.
    + by apply (Hclosed id).
    + done.
    + intros a Ha. eapply rtc_r; [|exact He].
      eapply act_reaches; [apply HL|done].
    + done.
    + destruct Hr as [[-> Hc]|(-> & d1 & Hcn)]; [eexists _, _; split; [done|by left]|].
      destruct (loop_connected _ _ _ _ _ _ _ _ _ HL He Hs Hcn) as (si & Hsi & Hid & HL2). simpl in HL2.
      rewrite Hsi, Hid. edestruct (IH _ _ _ _ HL2 Hl') as (r & s' & -> & Hr).
      { etrans; [|done]. apply todo_mono. intros u [i Hu].
        assert (is_Some (t_nodes s1 !! u)) by (eexists; eapply lookup_weaken; [done|apply Hcn]).
        case_match; [|done]. simpl. rewrite lookup_insert_is_Some'. auto. }
      eexists _, _. split; [done|]. destruct Hr as [?|(-> & d' & i' & HL' & Hi' & Hst & Hd & Hf)]; [by left|].
      right. split; [done|]. exists d', i'. split_and!; [done| | | |].
      * rewrite Hi'. by case_match.
      * etrans; [apply Hcn|]. etrans; [|done]. by case_match.
      * etrans; [apply Hcn|done].
      * intros u i Hne Hu. apply Hf; [done|].
        assert (t_nodes s1 !! u = Some i) by (eapply lookup_weaken; [done|apply Hcn]).
        case_match; [|done]. simpl. by rewrite lookup_insert_ne.
Qed.

(** The end of a call: the node is popped, stays on the stack, or is on a cycle. *)
Lemma finishNode_ok id act done n s info :
  Loop id act done (cn_dependsOn n) s info → nodes !! id = Some n →
  ∃ r s', finishNode id s = (r, s') ∧
    ((r = Ok true ∧ cyclic) ∨
     (r = Ok false ∧ ∃ done' info', wf act done' s' ∧ done ⊆ done' ∧ t_nodes s' !! id = Some info' ∧
       ni_index info' = ni_index info ∧ (∀ u, u ≠ id → t_nodes s' !! u = t_nodes s !! u) ∧
       (∀ u, u ≠ id → u ∈ t_stack s → u ∈ t_stack s') ∧
       ((id ∈ done' ∧ ni_lowLink info' = ni_index info') ∨
        (id ∈ t_stack s' ∧ low s' id info' ∧ ni_lowLink info' < ni_index info')))).
Proof.
  intros [Hwf Hinfo Hlow Hle Hseen] Hn. unfold finishNode. rewrite Hinfo.
  assert (Hid : id ∈ t_stack s) by (apply (wf_act _ _ _ Hwf); by left).
  assert (Hidx : idx s id = Some (ni_index info)) by (unfold idx; by rewrite Hinfo).
  destruct (Nat.eqb_spec (ni_lowLink info) (ni_index info)) as [Heq|Hne].
  - destruct (t_stack s) as [|t st] eqn:Hst; [by apply elem_of_nil in Hid|]. simpl.
    assert (Ht : ∃ ti, t_nodes s !! t = Some ti).
    { destruct (wf_idx _ _ _ t Hwf) as [i Hi]; [rewrite Hst; by left|].
      apply fmap_Some in Hi as (ti & ? & _). eauto. }
    destruct Ht as [ti Hti]. rewrite Hti. eexists _, _. split; [done|].
    case_bool_decide as Hteq; [|left; split; [done|by eapply root_cyclic]].
    subst t. rewrite Hinfo in Hti. simplify_eq. right. split; [done|].
    exists (id :: done), (mknodeInfo (ni_index ti) (ni_lowLink ti) false). split_and!; simpl.
    + apply (pop_wf id act done s ti st Hwf Hinfo Hst). intros v (n' & Hn' & Hv). simplify_eq.
      destruct (Hseen v Hv) as [?|(Hvs & j & Hj & ?)]; [by right|left].
      destruct (decide (v = id)) as [|Hvid]; [done|exfalso].
      destruct (wf_top_above _ _ _ _ _ v Hwf Hst) as (i & j' & Hi & Hj' & ?); [by rewrite Hst|done|].
      rewrite Hidx in Hi. rewrite Hj in Hj'. simplify_eq. lia.
    + intros u Hu. by right.
    + apply lookup_insert_eq.
    + done.
    + intros u Hu. by rewrite lookup_insert_ne.
    + intros u Hu. by intros [->|?]%elem_of_cons.
    + left. split; [by left|done].
  - eexists _, _. split; [done|]. right. split; [done|]. exists done, info.
    split_and!; try done; [|right; split_and!; [done|done|lia]].
    destruct Hlow as (x & Hx & Hxl & Hr). apply (leave_wf id act done s x Hwf Hx); [|done].
    eexists _, _. split_and!; [done|done|lia].
Qed.

Lemma strongConnect_ok fuel : visit_ok (strongConnect fuel nodes) fuel.
Proof.
  induction fuel as [|fuel IH]; intros act done s id Hwf [n Hn] Hnew Hact Htodo.
  { pose proof (todo_push id s ltac:(eauto) Hnew). lia. }
  assert (Hidx : idx s id = None) by (unfold idx; by rewrite Hnew).
  pose proof (push_wf _ _ _ _ Hwf Hidx Hact) as Hwf1.
  pose proof (todo_push id s ltac:(eauto) Hnew) as Ht.
  simpl. rewrite Hn.
  assert (HL : Loop id act done [] (pushNode id s) (mknodeInfo (t_index s) (t_index s) true)).
  { constructor; simpl; [done|apply lookup_insert_eq| |done|by intros ? ?%not_elem_of_nil].
    exists id. split_and!; [by left| |done]. by rewrite idx_push, decide_True. }
  destruct (visitSuccessors_ok _ _ id act (cn_dependsOn n) IH _ _ _ _ HL) as (r & s1 & -> & Hr).
  { intros v Hv. by exists n. }
  { lia. }
  destruct Hr as [[-> Hc]|(-> & d1 & i1 & HL1 & Hi1 & Hst1 & Hd1 & Hf1)].
  { eexists _, _. split; [done|by left]. }
  destruct (finishNode_ok _ _ _ _ _ _ HL1 Hn) as (r & s2 & -> & Hr).
  eexists _, _. split; [done|]. destruct Hr as [?|(-> & d2 & i2 & Hwf2 & Hd2 & Hi2 & Hix2 & Hf2 & Hst2 & Hcase)]; [by left|].
  right. split; [done|]. exists d2.
  assert (Hne : ∀ u, is_Some (t_nodes s !! u) → u ≠ id) by (intros u Hu ->; rewrite Hnew in Hu; by destruct Hu).
  constructor; [done| | |by etrans|].
  - apply map_subseteq_spec. intros u i Hu. assert (u ≠ id) by eauto.
    rewrite Hf2 by done. apply Hf1; [done|]. simpl. by rewrite lookup_insert_ne.
  - intros u Hu. apply Hst2; [|apply Hst1; by right].
    destruct (wf_idx _ _ _ _ Hwf Hu) as [i Hi]. apply Hne. apply fmap_Some in Hi as (? & ? & _). eauto.
  - exists i2. split_and!; [done|rewrite Hix2, Hi1; simpl; lia|done].
Qed.

End cycles.
