(* ===== verification/GraphBuild.v ===== *)
(** * GraphBuild: what [BuildContainerGraph] builds

    The result of [detectCycles], the edges that the loops of
    [BuildContainerGraph] add, and when the whole function succeeds. *)

From stdpp Require Import functions.
From S2P Require Import Prelude Define Graph GraphCycles.

(** ** The whole of [detectCycles] *)

Section detect.
Context (nodes : gmap string containerNode) (Hclosed : closed_graph nodes).

Lemma wf_start : wf nodes [] [] (mkTarjan 0 ∅ []).
Proof using.
  clear Hclosed. constructor; simpl; unfold idx, on; simpl; try by constructor.
  all: intros *; rewrite ?lookup_empty; try done.
  - split; [by intros [? ?]|set_solver].
  - set_solver.
  - set_solver.
Qed.

Lemma connectAll_ok fuel order : ∀ done s,
  wf nodes [] done s → (∀ u, u ∈ order → is_Some (nodes !! u)) → todo nodes s ≤ fuel →
  ∃ r s', connectAll fuel nodes order s = Some (r, s') ∧
    ((r = Ok true ∧ cyclic nodes) ∨
     (r = Ok false ∧ ∃ done', wf nodes [] done' s' ∧ done ⊆ done' ∧ order ⊆ done')).
Proof.
  induction order as [|u order IH]; intros done s Hwf Ho Hf; simpl.
  { eexists _, _. split; [done|]. right. split; [done|]. exists done. split_and!; [done|done|].
    by intros ? ?%not_elem_of_nil. }
  assert (Ho' : ∀ u, u ∈ order → is_Some (nodes !! u)) by (intros; apply Ho; by right).
  destruct (t_nodes s !! u) as [i|] eqn:Hu.
  - destruct (IH done s Hwf Ho' Hf) as (r & s' & -> & Hr). eexists _, _. split; [done|].
    destruct Hr as [?|(-> & d & ? & Hd & Hod)]; [by left|right]. split; [done|]. exists d. split_and!; [done|done|].
    intros v [->|?]%elem_of_cons; [|auto]. apply Hd.
    destruct (proj1 (wf_seen _ _ _ _ Hwf u)) as [Hs|?]; [unfold idx; by rewrite Hu| |done].
    rewrite (wf_nil_stack _ _ _ Hwf) in Hs. by apply elem_of_nil in Hs.
  - destruct (strongConnect_ok nodes Hclosed fuel [] done s u Hwf) as (r & s1 & -> & Hr); try done.
    { apply Ho. by left. }
    { by intros ? ?%not_elem_of_nil. }
    destruct Hr as [[-> ?]|(-> & d1 & Hcn)]; [eexists _, _; split; [done|by left]|].
    destruct (IH d1 s1) as (r & s' & -> & Hr); [apply Hcn|done| |].
    { etrans; [|exact Hf]. apply todo_mono. intros v [i Hv]. exists i. eapply lookup_weaken; [done|apply Hcn]. }
    eexists _, _. split; [done|]. destruct Hr as [?|(-> & d & ? & Hd & Hod)]; [by left|right].
    split; [done|]. exists d. split_and!; [done|etrans; [apply Hcn|done]|].
    intros v [->|?]%elem_of_cons; [|auto]. apply Hd.
    destruct Hcn as [Hwf1 _ _ _ (i & _ & _ & [[? _]|(Hs & _)])]; [done|].
    rewrite (wf_nil_stack _ _ _ Hwf1) in Hs. by apply elem_of_nil in Hs.
Qed.
End detect.

Lemma detectCycles_ok order g :
  closed_graph (cg_nodes g) → order ≡ₚ elements (dom (cg_nodes g)) →
  (detectCycles order g = Some (Ok true) ∧ cyclic (cg_nodes g)) ∨
  (detectCycles order g = Some (Ok false) ∧ ¬ cyclic (cg_nodes g) ∧
   ∃ l, topo (cg_nodes g) l ∧ ∀ u, is_Some (cg_nodes g !! u) → u ∈ l).
Proof.
  intros Hc Ho. unfold detectCycles.
  assert (Hin : ∀ u, u ∈ order ↔ is_Some (cg_nodes g !! u)).
  { intros u. by rewrite Ho, elem_of_elements, elem_of_dom. }
  destruct (connectAll_ok (cg_nodes g) Hc (S (size (cg_nodes g))) order [] _ (wf_start _))
    as (r & s' & -> & Hr).
  { intros u Hu. by apply Hin. }
  { unfold todo. simpl. rewrite dom_empty_L, difference_empty_L, size_dom. lia. }
  destruct Hr as [[-> ?]|(-> & d & Hwf & _ & Hd)]; [by left|right]. split; [done|].
  assert (Hall : ∀ u, is_Some (cg_nodes g !! u) → u ∈ d) by (intros u Hu; apply Hd; by apply Hin).
  split; [|exists d; split; [apply Hwf|done]].
  apply (topo_acyclic _ d); [apply Hwf|]. intros u v (n & Hn & _). eauto.
Qed.

(** ** The edges *)

Lemma lookup_alter_fmap {A} (f : A → A) (m : gmap string A) i j :
  alter f i m !! j = (if decide (i = j) then f else id) <$> m !! j.
Proof. rewrite lookup_alter. case_decide; [by subst|by rewrite option_fmap_id]. Qed.

Section build.
Context (m : gmap string Container).

(** The graph has the nodes of [m] and the edges [E]. *)
Record GraphOf (E : string → list string) (g : ContainerGraph) : Prop := {
  go_ctr : ∀ u, cn_container <$> cg_nodes g !! u = m !! u;
  go_id : ∀ u n, cg_nodes g !! u = Some n → cn_id n = u;
  go_deps : ∀ u n, cg_nodes g !! u = Some n → cn_dependsOn n = E u;
  go_users : ∀ u v n, cg_nodes g !! v = Some n → u ∈ cn_dependedOn n ↔ v ∈ E u;
  go_top : ∀ v, v ∈ cg_notDependedOnNodes g ↔ is_Some (m !! v) ∧ ∀ u, v ∉ E u }.

Lemma go_is_Some E g u : GraphOf E g → is_Some (cg_nodes g !! u) ↔ is_Some (m !! u).
Proof. intros Hg. rewrite <-(go_ctr _ _ Hg). by rewrite fmap_is_Some. Qed.

Lemma GraphOf_ext E E' g : (∀ u, E u = E' u) → GraphOf E g → GraphOf E' g.
Proof.
  intros HE []. constructor; try done.
  - intros u n Hn. rewrite <-HE. eauto.
  - intros u v n Hn. rewrite <-HE. eauto.
  - intros v. rewrite go_top0. by setoid_rewrite HE.
Qed.

Lemma addEdge_ok E g id dep :
  GraphOf E g → is_Some (m !! id) → is_Some (m !! dep) →
  ∃ g', addEdge id g dep = Ok g' ∧ GraphOf (<[id := E id ++ [dep]]> E) g' ∧ cg_noDepNodes g' = cg_noDepNodes g.
Proof.
  intros Hg Hid Hdep. unfold addEdge.
  destruct (cg_nodes g !! dep) as [dn|] eqn:Hdn; last first.
  { apply (go_is_Some _ _ _ Hg) in Hdep as [? ?]. congruence. }
  eexists. split_and!; [done| |done].
  assert (Hlk : ∀ u n, alter (cn_add_dependedOn id) dep (alter (cn_add_dependsOn dep) id (cg_nodes g)) !! u = Some n →
    ∃ n0, cg_nodes g !! u = Some n0 ∧ cn_id n = cn_id n0 ∧
      cn_dependsOn n = (if decide (u = id) then cn_dependsOn n0 ++ [dep] else cn_dependsOn n0) ∧
      cn_dependedOn n = (if decide (u = dep) then cn_dependedOn n0 ++ [id] else cn_dependedOn n0)).
  { intros u n. rewrite !lookup_alter_fmap. destruct (cg_nodes g !! u) as [n0|] eqn:Hu; simpl; [|done].
    intros [= <-]. exists n0. repeat case_decide; simplify_eq/=; done. }
  destruct Hg as [Hctr Hids Hdeps Husers Htop]. constructor; simpl.
  - intros u. rewrite <-Hctr, !lookup_alter_fmap. destruct (cg_nodes g !! u); simpl; [|done].
    by repeat case_decide.
  - intros u n (n0 & Hn & -> & _)%Hlk. eauto.
  - intros u n (n0 & Hn & _ & -> & _)%Hlk. case_decide.
    + subst. rewrite fn_lookup_insert. by erewrite Hdeps.
    + rewrite fn_lookup_insert_ne by done. eauto.
  - intros u v n (n0 & Hn & _ & _ & ->)%Hlk. destruct (decide (u = id)) as [->|Hu].
    + rewrite fn_lookup_insert, elem_of_app, list_elem_of_singleton.
      case_decide; [subst; rewrite elem_of_app, list_elem_of_singleton|]; rewrite (Husers id _ n0 Hn); naive_solver.
    + rewrite fn_lookup_insert_ne by done. rewrite <-(Husers u v n0 Hn).
      case_decide; [rewrite elem_of_app, list_elem_of_singleton|]; naive_solver.
  - intros v. rewrite elem_of_difference, elem_of_singleton, Htop. split.
    + intros [[Hv HE] Hne]. split; [done|]. intros u. destruct (decide (u = id)) as [->|].
      * rewrite fn_lookup_insert, elem_of_app, list_elem_of_singleton. naive_solver.
      * by rewrite fn_lookup_insert_ne.
    + intros [Hv HE]. split; [split; [done|]|].
      * intros u. specialize (HE u). destruct (decide (u = id)) as [->|].
        -- rewrite fn_lookup_insert, elem_of_app in HE. tauto.
        -- by rewrite fn_lookup_insert_ne in HE.
      * specialize (HE id). rewrite fn_lookup_insert, elem_of_app, list_elem_of_singleton in HE. tauto.
Qed.

Lemma addDeps_ok id l : is_Some (m !! id) → (∀ v, v ∈ l → is_Some (m !! v)) → ∀ E g,
  GraphOf E g →
  ∃ g', foldR (addEdge id) g l = Ok g' ∧ GraphOf (<[id := E id ++ l]> E) g' ∧ cg_noDepNodes g' = cg_noDepNodes g.
Proof.
  intros Hid. induction l as [|v l IH]; intros Hl E g Hg; simpl.
  { eexists. split_and!; [done| |done]. eapply GraphOf_ext; [|done]. intros u. rewrite app_nil_r.
    destruct (decide (u = id)) as [->|]; [by rewrite fn_lookup_insert|by rewrite fn_lookup_insert_ne]. }
  destruct (addEdge_ok E g id v Hg Hid) as (g1 & -> & Hg1 & Hn1); [apply Hl; by left|]. simpl.
  destruct (IH ltac:(intros; apply Hl; by right) _ _ Hg1) as (g2 & -> & Hg2 & Hn2).
  eexists. split_and!; [done| |congruence]. eapply GraphOf_ext; [|done]. intros u.
  destruct (decide (u = id)) as [->|]; [|by rewrite !fn_lookup_insert_ne].
  rewrite !fn_lookup_insert. by rewrite <-app_assoc.
Qed.

Lemma addDeps_missing id l E : is_Some (m !! id) → (∃ v, v ∈ l ∧ m !! v = None) → ∀ g,
  GraphOf E g → foldR (addEdge id) g l = Err ErrNoSuchCtr.
Proof.
  intros Hid. revert E. induction l as [|v l IH]; intros E (x & Hx & Hm) g Hg; [by apply elem_of_nil in Hx|].
  simpl. destruct (m !! v) as [c|] eqn:Hv.
  - destruct (addEdge_ok E g id v Hg Hid ltac:(eauto)) as (g1 & -> & Hg1 & _). simpl.
    eapply IH; [|done]. exists x. split; [|done]. apply elem_of_cons in Hx as [->|?]; [congruence|done].
  - unfold addEdge. destruct (cg_nodes g !! v) eqn:Hn; [|done].
    pose proof (go_is_Some _ _ v Hg) as Hs. rewrite Hn, Hv in Hs. destruct Hs as [Hs _]. by destruct (Hs ltac:(eauto)).
Qed.

(** The dependencies of the containers in [p], none of the others. *)
Definition deps_of (u : string) : list string :=
  match m !! u with Some c => Dependencies c | None => [] end.
Definition edges_of (p : list string) (u : string) : list string :=
  if decide (u ∈ p) then deps_of u else [].

Lemma addAll_ok order : ∀ p g, GraphOf (edges_of p) g → cg_noDepNodes g = filter (λ u, deps_of u = []) p →
  NoDup (p ++ order) → (∀ u, u ∈ order → is_Some (m !! u)) →
  (∀ u v, u ∈ order → v ∈ deps_of u → is_Some (m !! v)) →
  ∃ g', foldR addEdges g order = Ok g' ∧ GraphOf (edges_of (p ++ order)) g' ∧
    cg_noDepNodes g' = filter (λ u, deps_of u = []) (p ++ order).
Proof.
  induction order as [|u order IH]; intros p g Hg Hn Hnd Ho Hd; simpl.
  { rewrite app_nil_r. eauto. }
  assert (Hu : u ∉ p).
  { apply NoDup_app in Hnd as (_ & Hx & _). intros Hup. apply (Hx u Hup). by left. }
  destruct (Ho u ltac:(by left)) as [c Hc].
  assert (Hstep : ∃ g1, addEdges g u = Ok g1 ∧ GraphOf (edges_of (p ++ [u])) g1 ∧
    cg_noDepNodes g1 = filter (λ u, deps_of u = []) (p ++ [u])).
  { unfold addEdges. destruct (cg_nodes g !! u) as [n|] eqn:Hnu; last first.
    { pose proof (go_ctr _ _ Hg u) as Hx. by rewrite Hnu, Hc in Hx. }
    pose proof (go_ctr _ _ Hg u) as Hx. rewrite Hnu, Hc in Hx. simplify_eq/=.
    assert (Hdu : deps_of u = Dependencies (cn_container n)) by (unfold deps_of; by rewrite Hc).
    destruct (addDeps_ok u (Dependencies (cn_container n)) ltac:(eauto)) with (E := edges_of p) (g := g)
      as (g1 & -> & Hg1 & Hn1); [|done|].
    { intros v Hv. apply (Hd u); [by left|by rewrite Hdu]. }
    eexists. split; [done|].
    assert (HE : GraphOf (edges_of (p ++ [u])) g1).
    { eapply GraphOf_ext; [|exact Hg1]. intros x. unfold edges_of. destruct (decide (x = u)) as [->|Hne].
      - rewrite fn_lookup_insert, decide_False by done. rewrite decide_True by set_solver. by rewrite Hdu.
      - rewrite fn_lookup_insert_ne by done. apply decide_ext. set_solver. }
    rewrite filter_app, filter_cons, Hdu. destruct (Dependencies (cn_container n)) as [|x l].
    - split; [by destruct HE|]. simpl. by rewrite Hn1, Hn.
    - rewrite decide_False by done. rewrite app_nil_r. split; [done|congruence]. }
  destruct Hstep as (g1 & -> & Hg1 & Hn1). simpl.
  destruct (IH (p ++ [u]) g1 Hg1 Hn1) as (g2 & -> & Hg2 & Hn2).
  { by rewrite <-app_assoc. }
  { intros; apply Ho; by right. }
  { intros; eapply Hd; [by right|done]. }
  rewrite <-app_assoc in *. eauto.
Qed.
End build.

(** ** The whole of [BuildContainerGraph] *)

(** The containers by ID; the last one of a list with the same ID counts. *)
Definition ctrMap (ctrs : list Container) : gmap string Container :=
  foldl (λ m c, <[ctr_ID c := c]> m) ∅ ctrs.

Lemma buildNodes_ok ctrs :
  GraphOf (ctrMap ctrs) (edges_of (ctrMap ctrs) []) (buildNodes ctrs) ∧ cg_noDepNodes (buildNodes ctrs) = [].
Proof.
  assert (Hgen : ∀ l m g, GraphOf m (λ _, []) g → cg_noDepNodes g = [] →
    GraphOf (foldl (λ m c, <[ctr_ID c := c]> m) m l) (λ _, []) (foldl addNode g l) ∧
    cg_noDepNodes (foldl addNode g l) = []).
  { induction l as [|c l IH]; intros m g Hg Hn; simpl; [done|]. apply IH; [|done].
    destruct Hg as [Hctr Hid Hdeps Husers Htop]. constructor; simpl.
    - intros u. rewrite !lookup_insert. case_decide; [done|apply Hctr].
    - intros u n. rewrite lookup_insert. case_decide; [|eauto]. subst. by intros [= <-].
    - intros u n. rewrite lookup_insert. case_decide; [|eauto]. by intros [= <-].
    - intros u v n. rewrite lookup_insert. case_decide; [|eauto]. intros [= <-]. set_solver.
    - intros v. rewrite elem_of_union, elem_of_singleton, Htop, lookup_insert.
      case_decide as Hv.
      + split; [intros _; split; [done|intros u; apply not_elem_of_nil]|by left].
      + split; [by intros [->|?]|by right]. }
  destruct (Hgen ctrs ∅ (mkContainerGraph ∅ [] ∅)) as [Hg Hn].
  { constructor; simpl; intros *; rewrite ?lookup_empty; try done.
    split; [set_solver|]. by intros [[? ?] _]. }
  { done. }
  split; [|done]. eapply GraphOf_ext; [|done]. intros u. unfold edges_of.
  by rewrite decide_False by apply not_elem_of_nil.
Qed.

Section spec.
Context (ctrs : list Container) (order1 order2 : list string).
Let m : gmap string Container := ctrMap ctrs.
Context (Ho1 : order1 ≡ₚ elements (dom m)) (Ho2 : order2 ≡ₚ elements (dom m)).

(** [u] names [v] as a dependency. *)
Definition depends (m : gmap string Container) (u v : string) : Prop := v ∈ deps_of m u.

Definition dep_cycle (m : gmap string Container) : Prop :=
  ∃ u v, u ≠ v ∧ rtc (depends m) u v ∧ rtc (depends m) v u.

Lemma edge_depends g u v : GraphOf m (deps_of m) g → edge (cg_nodes g) u v ↔ depends m u v.
Proof using.
  intros Hg. unfold edge, depends. split.
  - intros (n & Hn & Hv). by rewrite (go_deps _ _ _ Hg u n Hn) in Hv.
  - intros Hv. pose proof (go_ctr _ _ _ Hg u) as Hc. unfold deps_of in Hv.
    destruct (m !! u) as [c|] eqn:Hm; [|by apply elem_of_nil in Hv].
    apply fmap_Some in Hc as (n & Hn & _). exists n. split; [done|].
    rewrite (go_deps _ _ _ Hg u n Hn). unfold deps_of. by rewrite Hm.
Qed.

Lemma cyclic_depends g : GraphOf m (deps_of m) g → cyclic (cg_nodes g) ↔ dep_cycle m.
Proof using.
  intros Hg. unfold cyclic, dep_cycle.
  assert (Hr : ∀ u v, rtc (edge (cg_nodes g)) u v ↔ rtc (depends m) u v).
  { intros u v. split; apply rtc_subrel; intros x y; apply (edge_depends g x y Hg). }
  by setoid_rewrite Hr.
Qed.

Lemma order1_spec u : u ∈ order1 ↔ is_Some (m !! u).
Proof using Ho1. by rewrite Ho1, elem_of_elements, elem_of_dom. Qed.

Lemma edges_of_order1 u : edges_of m order1 u = deps_of m u.
Proof using Ho1.
  unfold edges_of. case_decide as Hu; [done|]. rewrite order1_spec in Hu. unfold deps_of.
  destruct (m !! u) eqn:Hm; [|done]. destruct Hu. eauto.
Qed.

Lemma addAll_missing p order g : GraphOf m (edges_of m p) g → cg_noDepNodes g = filter (λ u, deps_of m u = []) p →
  NoDup (p ++ order) → (∀ u, u ∈ order → is_Some (m !! u)) →
  (∃ u v, u ∈ order ∧ v ∈ deps_of m u ∧ m !! v = None) →
  foldR addEdges g order = Err ErrNoSuchCtr.
Proof using.
  revert p g. induction order as [|x order IH]; intros p g Hg Hn Hnd Ho (u & v & Hu & Hv & Hm).
  { by apply elem_of_nil in Hu. }
  destruct (decide (Exists (λ v, m !! v = None) (deps_of m x))) as [Hex|Hex].
  - apply Exists_exists in Hex. destruct (Ho x ltac:(by left)) as [c Hc].
    pose proof (go_ctr _ _ _ Hg x) as Hx. rewrite Hc in Hx. apply fmap_Some in Hx as (n & Hnx & ->).
    simpl. unfold addEdges. rewrite Hnx.
    assert (Hdx : deps_of m x = Dependencies (cn_container n)) by (unfold deps_of; by rewrite Hc).
    rewrite Hdx in Hex. by rewrite (addDeps_missing m x _ (edges_of m p) ltac:(eauto) Hex g Hg).
  - assert (Hall : ∀ y z, y ∈ [x] → z ∈ deps_of m y → is_Some (m !! z)).
    { intros y z ->%list_elem_of_singleton Hz. apply not_eq_None_Some. intros Hnone.
      apply Hex, Exists_exists. eauto. }
    destruct (addAll_ok m [x] p g Hg Hn) as (g1 & Hg1e & Hg1 & Hn1).
    { rewrite cons_middle, app_assoc in Hnd.
      by apply NoDup_app in Hnd as [? _]. }
    { intros y ->%list_elem_of_singleton. apply Ho. by left. }
    { done. }
    simpl in Hg1e |- *. destruct (addEdges g x) as [g1'|e]; simplify_eq/=.
    eapply IH; [exact Hg1|exact Hn1|by rewrite <-app_assoc|intros; apply Ho; by right|].
    exists u, v. split; [|done]. apply elem_of_cons in Hu as [->|?]; [|done].
    destruct (Hall x v) as [? ?]; [by left|done|congruence].
Qed.

Lemma BuildContainerGraph_ok :
  (∀ u v, depends m u v → is_Some (m !! v)) →
  ∃ g, GraphOf m (deps_of m) g ∧ (∀ u, u ∈ cg_noDepNodes g ↔ is_Some (m !! u) ∧ deps_of m u = []) ∧
    ((BuildContainerGraph order1 order2 ctrs = Some (Err ErrInternal) ∧ dep_cycle m) ∨
     (BuildContainerGraph order1 order2 ctrs = Some (Ok g) ∧ ¬ dep_cycle m ∧
      ∃ l, topo (cg_nodes g) l ∧ ∀ u, is_Some (cg_nodes g !! u) → u ∈ l)).
Proof using Ho1 Ho2.
  intros Hall. destruct (buildNodes_ok ctrs) as [Hg0 Hn0].
  destruct (addAll_ok m order1 [] (buildNodes ctrs) Hg0) as (g & Hg & HG & Hn).
  { by rewrite Hn0. }
  { simpl. rewrite Ho1. apply NoDup_elements. }
  { intros u. apply order1_spec. }
  { intros u v _ Hv. by apply (Hall u). }
  simpl in HG, Hn. assert (HG' : GraphOf m (deps_of m) g) by (eapply GraphOf_ext; [apply edges_of_order1|done]).
  exists g. split_and!; [done| |].
  - intros u. rewrite Hn, list_elem_of_filter, order1_spec. tauto.
  - unfold BuildContainerGraph. rewrite Hg, <-(cyclic_depends g HG').
    assert (Hdom : dom (cg_nodes g) = dom m).
    { apply set_eq. intros u. by rewrite !elem_of_dom, (go_is_Some m _ _ u HG'). }
    destruct (detectCycles_ok order2 g) as [(-> & ?)|(-> & ? & ?)].
    + intros u v Huv%(edge_depends _ _ _ HG'). apply (go_is_Some m _ _ v HG'). by apply (Hall u).
    + by rewrite Hdom.
    + by left.
    + by right.
Qed.

Lemma deps_present : (∀ u v, depends m u v → is_Some (m !! v)) ∨ (∃ u v, depends m u v ∧ m !! v = None).
Proof using.
  unfold depends, deps_of.
  destruct (decide (map_Forall (λ _ c, Forall (λ v, is_Some (m !! v)) (Dependencies c)) m)) as [Hall|Hex].
  - left. intros u v. destruct (m !! u) as [c|] eqn:Hu; [|by intros ?%elem_of_nil].
    specialize (Hall u c Hu). rewrite Forall_forall in Hall. auto.
  - right. apply map_not_Forall in Hex as (u & c & Hu & Hn); [|apply _].
    apply not_Forall_Exists in Hn; [|apply _]. apply Exists_exists in Hn as (v & Hv & Hm).
    exists u, v. rewrite Hu. split; [done|by apply eq_None_not_Some].
Qed.

Lemma BuildContainerGraph_missing :
  (∃ u v, depends m u v ∧ m !! v = None) →
  BuildContainerGraph order1 order2 ctrs = Some (Err ErrNoSuchCtr).
Proof using Ho1.
  intros (u & v & Huv & Hm). destruct (buildNodes_ok ctrs) as [Hg0 Hn0].
  unfold BuildContainerGraph. rewrite (addAll_missing [] order1 _ Hg0); [done|done| | |].
  - simpl. rewrite Ho1. apply NoDup_elements.
  - intros x. apply order1_spec.
  - exists u, v. split_and!; [|done|done]. apply order1_spec. unfold depends, deps_of in Huv.
    destruct (m !! u); [done|by apply elem_of_nil in Huv].
Qed.

Lemma BuildContainerGraph_inv g : BuildContainerGraph order1 order2 ctrs = Some (Ok g) →
  GraphOf m (deps_of m) g ∧ (∀ u, u ∈ cg_noDepNodes g ↔ is_Some (m !! u) ∧ deps_of m u = []) ∧
  ∃ l, topo (cg_nodes g) l ∧ ∀ u, is_Some (cg_nodes g !! u) → u ∈ l.
Proof using Ho1 Ho2.
  intros Hb. destruct deps_present as [Hp|Hm]; [|by rewrite (BuildContainerGraph_missing Hm) in Hb].
  destruct (BuildContainerGraph_ok Hp) as (g' & Hg & Hn & [[Hb' _]|(Hb' & _ & Hl)]);
    rewrite Hb in Hb'; by simplify_eq.
Qed.
End spec.
