(* ===== verification/GraphWalk.v ===== *)
(** * GraphWalk: the traversals of the dependency graph

    Termination, order and completeness of [startNode] and [removeNode] on a graph
    whose edges are recorded at both ends. *)

From S2P Require Import Prelude Define Graph GraphCycles.

Section walk.
Context {W : Type} `{ContainerOps W}.
Context (nodes : gmap string containerNode).

Definition deps (u : string) : list string :=
  match nodes !! u with Some n => cn_dependsOn n | None => [] end.
Definition users (u : string) : list string :=
  match nodes !! u with Some n => cn_dependedOn n | None => [] end.

(** Nodes carry their ID, and edges are recorded at both ends. *)
Record two_ended : Prop := {
  te_id : ∀ u n, nodes !! u = Some n → cn_id n = u;
  te_users : ∀ u d, d ∈ deps u ↔ u ∈ users d }.

Lemma deps_node u n : nodes !! u = Some n → cn_dependsOn n = deps u.
Proof. unfold deps. by intros ->. Qed.
Lemma users_node u n : nodes !! u = Some n → cn_dependedOn n = users u.
Proof. unfold users. by intros ->. Qed.

(** ** Progress: visits, and the nodes that are ready to be visited *)

Definition unvisited (s : Walk W) : nat := size (dom nodes ∖ list_to_set (wk_visited s)).

Lemma unvisited_mono s s' : wk_visited s ⊆ wk_visited s' → unvisited s' ≤ unvisited s.
Proof. intros Hs. unfold unvisited. apply subseteq_size. set_solver. Qed.

Lemma unvisited_mark id s s' : is_Some (nodes !! id) → id ∉ wk_visited s →
  wk_visited s' = id :: wk_visited s → unvisited s = S (unvisited s').
Proof.
  intros Hn Hid Hs. unfold unvisited. rewrite Hs. simpl.
  assert (Hdom : id ∈ dom nodes) by by apply elem_of_dom.
  replace (dom nodes ∖ list_to_set (wk_visited s))
    with ({[id]} ∪ dom nodes ∖ ({[id]} ∪ list_to_set (wk_visited s))).
  { rewrite (size_union {[id]} (dom nodes ∖ ({[id]} ∪ list_to_set (wk_visited s)))) by set_solver.
    by rewrite size_singleton. }
  apply set_eq. intros u. rewrite elem_of_union, !elem_of_difference, elem_of_union, elem_of_singleton.
  destruct (decide (u = id)) as [->|]; set_solver.
Qed.

Lemma visited_mark id (s : Walk W) : id ∉ wk_visited s → wk_visited (mark id s) = id :: wk_visited s.
Proof. intros Hid. simpl. by rewrite decide_False. Qed.

(** [u] is not visited, but everything that has to be visited before ([pre]) is. *)
Definition enabled (pre : string → list string) (s : Walk W) (u : string) : Prop :=
  (u ∉ wk_visited s) ∧ ∀ p, p ∈ pre u → p ∈ wk_visited s.

(** What a call for the nodes [l] achieves. *)
Record Progress (pre : string → list string) (l : list string) (b : bool) (s s' : Walk W) : Prop := {
  pg_visited : wk_visited s ⊆ wk_visited s';
  pg_enabled : ∀ u, enabled pre s' u → enabled pre s u ∧ u ∉ l;
  pg_marked : b = true → l ⊆ wk_visited s' }.

Lemma progress_nil pre b s : Progress pre [] b s s.
Proof. constructor; [done|set_solver|by intros _ ? ?%not_elem_of_nil]. Qed.

Lemma progress_cons pre x l b s s1 s2 :
  Progress pre [x] b s s1 → Progress pre l b s1 s2 → Progress pre (x :: l) b s s2.
Proof.
  intros [Hv1 He1 Hm1] [Hv2 He2 Hm2]. constructor; [by etrans| |].
  - intros u [Hu1 Hl]%He2. apply He1 in Hu1 as [? ?]. split; [done|]. set_solver.
  - intros Hb u [->|Hu]%elem_of_cons; [apply Hv2, (Hm1 Hb); by left|by apply Hm2].
Qed.

(** Marking a node and calling its successors makes progress on the node. *)
Lemma progress_mark pre id l b c s s1 s2 :
  id ∉ wk_visited s → wk_visited s1 = id :: wk_visited s →
  (∀ u, id ∈ pre u → u ∈ l) → Progress pre l c s1 s2 → Progress pre [id] b s s2.
Proof.
  intros Hid Hs1 Hpre [Hv He _]. constructor.
  - intros u Hu. apply Hv. rewrite Hs1. by right.
  - intros u [[Hu1 Hu2] Hl]%He. rewrite Hs1 in Hu1, Hu2. split; [split|]; [set_solver| |set_solver].
    intros p Hp. specialize (Hu2 p Hp). apply elem_of_cons in Hu2 as [->|?]; [|done]. by apply Hpre in Hp.
  - intros _ u ->%list_elem_of_singleton. apply Hv. rewrite Hs1. by left.
Qed.

(** A loop of calls: [f] takes fuel [n]. *)
Lemma foldO_progress pre (f : string → bool → Walk W → option (Walk W)) n b l :
  (∀ id s, is_Some (nodes !! id) → unvisited s < n → ∃ s', f id b s = Some s' ∧ Progress pre [id] b s s') →
  ∀ s, (∀ u, u ∈ l → is_Some (nodes !! u)) → unvisited s < n →
  ∃ s', foldO (λ u, f u b) l s = Some s' ∧ Progress pre l b s s'.
Proof.
  intros Hf. induction l as [|x l IH]; intros s Hl Hn; simpl.
  { eexists. split; [done|apply progress_nil]. }
  destruct (Hf x s) as (s1 & -> & Hp1); [apply Hl; by left|done|]. simpl.
  destruct (IH s1) as (s2 & -> & Hp2); [intros; apply Hl; by right| |].
  { pose proof (unvisited_mono s s1 (pg_visited _ _ _ _ _ Hp1)). lia. }
  eexists. split; [done|]. by eapply progress_cons.
Qed.

(** ** Visiting one node *)

(** Nothing but the errors of [id], the calls and the state change. *)
Definition same_visits (id : string) (s : Walk W) (r : bool * Walk W) : Prop :=
  wk_visited r.2 = wk_visited s ∧
  if r.1 then ∃ e, wk_errors r.2 = <[id := e]> (wk_errors s) else wk_errors r.2 = wk_errors s.

Lemma guarded_same id op s r : same_visits id s r → same_visits id s (guarded id op r).
Proof.
  unfold same_visits, guarded. destruct r as [[|] s1]; simpl; [done|].
  intros [Hv He]. destruct (op (wk_world s1)) as [[[]|e] w]; simpl; [done|].
  split; [done|]. exists e. by rewrite He.
Qed.
Lemma guarded_trace id op (r : bool * Walk W) : wk_trace (guarded id op r).2 = wk_trace r.2.
Proof. unfold guarded. destruct r as [[|] s1]; simpl; [done|]. by destruct (op _) as [[[]|e] w]. Qed.

Lemma startOne_same restart node s : same_visits (cn_id node) s (startOne restart node s).
Proof.
  unfold startOne. set (r1 := guarded _ _ (false, s)).
  assert (H1 : same_visits (cn_id node) s r1) by by apply guarded_same.
  set (r2 := guarded _ _ (r1.1, _)). assert (H2 : same_visits (cn_id node) s r2) by by apply guarded_same.
  clearbody r1 r2. repeat case_match; try done; by apply guarded_same.
Qed.

(** The calls made for one node. *)
Lemma startOne_trace restart node s : let id := cn_id node in
  ∃ tr, wk_trace (startOne restart node s).2 = tr ++ wk_trace s ∧
    (tr.*1 = [EvUnlock id; EvLock id] ∨ tr.*1 = [EvUnlock id; EvStart id; EvLock id] ∨
     tr.*1 = [EvUnlock id; EvRestart id; EvLock id]).
Proof.
  intros id. unfold startOne; fold id. set (r1 := guarded _ _ (false, s)).
  assert (H1 : wk_trace r1.2 = wk_trace s) by apply guarded_trace.
  set (r2 := guarded _ _ (r1.1, _)).
  assert (H2 : wk_trace r2.2 = (EvLock id, wk_world r1.2) :: wk_trace s) by (unfold r2; rewrite guarded_trace; simpl; by rewrite H1).
  clearbody r1 r2. repeat case_match; simpl; rewrite ?guarded_trace; simpl; rewrite H2;
    try (eexists [_; _]; split; [done|by left]); eexists [_; _; _]; (split; [done|]); simpl; auto.
Qed.
Context (Hte : two_ended).

Lemma deps_is_Some u d : d ∈ deps u → is_Some (nodes !! d).
Proof. rewrite (te_users Hte). unfold users. destruct (nodes !! d); [eauto|by intros ?%elem_of_nil]. Qed.
Lemma users_is_Some u d : u ∈ users d → is_Some (nodes !! u).
Proof. rewrite <-(te_users Hte). unfold deps. destruct (nodes !! u); [eauto|by intros ?%elem_of_nil]. Qed.


(** ** Starting: termination and completeness *)

#[local] Opaque startOne removeOne.

Lemma startNode_progress restart fuel : ∀ id setError s,
  is_Some (nodes !! id) → unvisited s < fuel →
  ∃ s', startNode fuel nodes restart id setError s = Some s' ∧ Progress deps [id] setError s s'.
Proof.
  induction fuel as [|fuel IH]; intros id setError s [n Hn] Hf; [lia|]. simpl.
  assert (Hpre : ∀ u, id ∈ deps u → u ∈ users id) by (intros u; by apply (te_users Hte)).
  assert (Hus : ∀ u, u ∈ users id → is_Some (nodes !! u)) by (intros u; apply users_is_Some).
  destruct (decide (id ∈ wk_visited s)) as [Hid|Hid].
  { eexists. split; [done|]. constructor; [done| |].
    - intros u Hu. split; [done|]. destruct Hu as [Hu _]. set_solver.
    - by intros _ u ->%list_elem_of_singleton. }
  rewrite Hn, (users_node id n Hn), (deps_node id n Hn). destruct setError.
  - pose proof (visited_mark id s Hid) as Hm.
    assert (Hc : unvisited s = S (unvisited (mark id s))) by eauto using unvisited_mark.
    destruct (foldO_progress deps (startNode fuel nodes restart) fuel true (users id))
      with (s := setErr id ErrCtrStateInvalid (mark id s)) as (s' & -> & Hp); [auto|done|unfold unvisited in *; simpl in *; lia|].
    eexists. split; [done|]. exact (progress_mark deps id _ true true s (setErr id ErrCtrStateInvalid (mark id s)) s' Hid Hm Hpre Hp).
  - case_decide as Hall.
    + pose proof (visited_mark id s Hid) as Hm.
      assert (Hc : unvisited s = S (unvisited (mark id s))) by eauto using unvisited_mark.
      destruct (startOne_same restart n (mark id s)) as [Hv _].
      set (r := startOne restart n (mark id s)) in *. clearbody r.
      destruct (foldO_progress deps (startNode fuel nodes restart) fuel r.1 (users id))
        with (s := r.2) as (s' & -> & Hp); [auto|done|unfold unvisited in *; rewrite Hv; lia|].
      eexists. split; [done|]. eapply (progress_mark deps id _ false r.1 s r.2 s' Hid); [by rewrite Hv|done|done].
    + eexists. split; [done|]. constructor; [done| |done].
      intros u Hu. split; [done|]. intros ->%list_elem_of_singleton.
      apply Hall, Forall_forall, Hu.
Qed.

Lemma start_all_progress restart fuel l s :
  (∀ u, u ∈ l → is_Some (nodes !! u)) → unvisited s < fuel →
  ∃ s', foldO (λ id, startNode fuel nodes restart id false) l s = Some s' ∧ Progress deps l false s s'.
Proof.
  intros Hl Hf. apply (foldO_progress deps (startNode fuel nodes restart) fuel false); [|done|done].
  intros. by apply startNode_progress.
Qed.

(** Without cycles, a graph in which no node is ready is visited completely. *)
Lemma all_visited l s : topo nodes l → (∀ u, is_Some (nodes !! u) → u ∈ l) → (∀ u, u ∉ deps u) →
  (∀ u, is_Some (nodes !! u) → ¬ enabled deps s u) → ∀ u, is_Some (nodes !! u) → u ∈ wk_visited s.
Proof.
  intros Ht Hl Hself He. cut (∀ u, u ∈ l → is_Some (nodes !! u) → u ∈ wk_visited s); [eauto|].
  clear Hl. induction l as [|d l IH]; [by intros u ?%elem_of_nil|].
  destruct Ht as (_ & Hs & Ht). specialize (IH Ht). intros u [->|Hl]%elem_of_cons Hu; [|auto].
  destruct (decide (d ∈ wk_visited s)) as [|Hd]; [done|]. destruct (He d Hu). split; [done|].
  intros p Hp. assert (Hedge : edge nodes d p).
  { destruct Hu as [n Hn]. exists n. split; [done|]. by rewrite (deps_node d n Hn). }
  destruct (Hs p Hedge) as [->|?]; [by destruct (Hself d)|]. apply IH; [done|by eapply deps_is_Some].
Qed.
(** ** Starting: order *)

(** [u] was started or restarted. *)
Definition acted (u : string) (tr : list event) : Prop := EvStart u ∈ tr ∨ EvRestart u ∈ tr.

(** No container is started twice, or after one that depends on it. *)
Fixpoint in_order (tr : list event) : Prop :=
  match tr with
  | [] => True
  | e :: tr =>
      match e with
      | EvStart x | EvRestart x => ¬ acted x tr ∧ ∀ u, acted u tr → x ∉ deps u
      | _ => True
      end ∧ in_order tr
  end.

(** [u] was started, or visited without a failure. *)
Definition went (s : Walk W) (u : string) : Prop :=
  acted u (wk_trace s).*1 ∨ (u ∈ wk_visited s ∧ wk_errors s !! u = None).

Record Safe (s : Walk W) : Prop := {
  sf_err : ∀ d, is_Some (wk_errors s !! d) → d ∈ wk_visited s;
  sf_acted : ∀ u, acted u (wk_trace s).*1 → u ∈ wk_visited s;
  sf_deps : ∀ u d, went s u → d ∈ deps u →
    d ∈ wk_visited s ∧ wk_errors s !! d = None ∧ d ≠ u;
  sf_order : in_order (wk_trace s).*1 }.

(** Everything that depends on a failed container was visited. *)
Definition propagated (s : Walk W) : Prop :=
  ∀ d u, is_Some (wk_errors s !! d) → u ∈ users d → u ∈ wk_visited s.

(** Failures recorded between [s] and [s'] were propagated. *)
Definition propagates (s s' : Walk W) : Prop :=
  ∀ d u, is_Some (wk_errors s' !! d) → u ∈ users d → is_Some (wk_errors s !! d) ∨ u ∈ wk_visited s'.

Lemma propagates_trans s s1 s2 :
  wk_visited s1 ⊆ wk_visited s2 → propagates s s1 → propagates s1 s2 → propagates s s2.
Proof.
  intros Hv H1 H2 d u Hd Hu. destruct (H2 d u Hd Hu) as [Hd1|]; [|by right].
  destruct (H1 d u Hd1 Hu) as [|]; [by left|right; by apply Hv].
Qed.

Lemma propagated_after s s' : propagated s → wk_visited s ⊆ wk_visited s' → propagates s s' → propagated s'.
Proof. intros Hp Hv Hs d u Hd Hu. destruct (Hs d u Hd Hu) as [?|]; [apply Hv; eauto|done]. Qed.

Lemma safe_mark_err id s : Safe s → id ∉ wk_visited s → Safe (setErr id ErrCtrStateInvalid (mark id s)).
Proof.
  intros [] Hid. constructor; simpl; rewrite ?decide_False by done.
  - intros d. rewrite lookup_insert_is_Some'. intros [<-|?]; [by left|right; auto].
  - intros u ?. right. auto.
  - intros u d Hu Hd. destruct (sf_deps0 u d) as (? & ? & ?); [|done|].
    { destruct Hu as [Hu|[Hu Hn]]; [by left|right]; simpl in *. rewrite decide_False in Hu by done.
      destruct (decide (u = id)) as [->|]; [by rewrite lookup_insert_eq in Hn|rewrite lookup_insert_ne in Hn by done].
      by apply elem_of_cons in Hu as [->|?]. }
    split_and!; [by right| |done]. rewrite lookup_insert_ne; [done|]. by intros <-.
  - done.
Qed.

Lemma in_order_app id tr l : (∀ u, acted u l → id ∉ deps u) → ¬ acted id l → in_order l →
  tr = [EvUnlock id; EvLock id] ∨ tr = [EvUnlock id; EvStart id; EvLock id] ∨
    tr = [EvUnlock id; EvRestart id; EvLock id] →
  in_order (tr ++ l) ∧ ∀ u, acted u (tr ++ l) → u = id ∨ acted u l.
Proof.
  assert (Ha : ∀ u e, acted u (e :: l) → (e ≠ EvStart u ∧ e ≠ EvRestart u) → acted u l).
  { unfold acted. intros u e [Hu|Hu] [? ?]; apply elem_of_cons in Hu as [?|?]; subst; auto; done. }
  intros Hd Hn Ho [->|[->| ->]]; simpl; (split; [split_and!; try done|]).
  all: try (intros Hx%Ha; [done|done]). all: try (intros u Hx%Ha; [by apply Hd|done]).
  all: intros u [Hu|Hu]; repeat (apply elem_of_cons in Hu as [?|Hu]; [simplify_eq; by left|]);
    right; first [by left|by right].
Qed.

(** Visiting a node whose dependencies were visited without failures. *)
Lemma safe_startOne restart id n s :
  Safe s → propagated s → nodes !! id = Some n → id ∉ wk_visited s →
  Forall (.∈ wk_visited s) (cn_dependsOn n) → Safe (startOne restart n (mark id s)).2.
Proof.
  intros [He Ha Hd Ho] Hp Hn Hid Hall. rewrite (deps_node id n Hn), Forall_forall in Hall.
  pose proof (te_id Hte id n Hn) as Hcn.
  destruct (startOne_same restart n (mark id s)) as [Hv Herr].
  destruct (startOne_trace restart n (mark id s)) as (tr & Htr & Hshape).
  rewrite Hcn in Hshape, Herr. rewrite (visited_mark id s Hid) in Hv.
  set (r := startOne restart n (mark id s)) in *. clearbody r.
  assert (Herr' : ∀ d, d ≠ id → wk_errors r.2 !! d = wk_errors s !! d).
  { intros d Hne. destruct (r.1); [destruct Herr as [e ->]; by rewrite lookup_insert_ne|by rewrite Herr]. }
  assert (Hacts : ∀ u, acted u (wk_trace s).*1 → id ∉ deps u).
  { intros u Hu Hin. by destruct (Hd u id (or_introl Hu) Hin). }
  assert (Hnew : ¬ acted id (wk_trace s).*1) by (intros Hx; by apply Hid, Ha).
  destruct (in_order_app id tr.*1 (wk_trace s).*1 Hacts Hnew Ho Hshape) as [Ho' Ha'].
  simpl in Htr. constructor; rewrite ?Htr, ?fmap_app, ?Hv.
  - intros d Hsome. destruct (decide (d = id)) as [->|Hne]; [by left|right].
    rewrite Herr' in Hsome by done. auto.
  - intros u [->|Hu]%Ha'; [by left|right; auto].
  - intros u d Hu Hdep. assert (Hw : u = id ∨ went s u).
    { destruct Hu as [Hu|[Hu Hn']]; [rewrite Htr, fmap_app in Hu; apply Ha' in Hu as [?|?]; [by left|right; by left]|].
      rewrite Hv in Hu. destruct (decide (u = id)) as [|Hne]; [by left|right]. right.
      rewrite Herr' in Hn' by done. by apply elem_of_cons in Hu as [?|?]. }
    destruct Hw as [->|Hw].
    + assert (Hne : d ≠ id) by (intros ->; by apply Hid, Hall). split_and!; [right; auto| |done].
      rewrite Herr' by done. apply eq_None_not_Some. intros Hsome.
      apply Hid. apply (Hp d); [done|]. by apply (te_users Hte).
    + destruct (Hd u d Hw Hdep) as (Hdv & Hdn & ?). split_and!; [by right| |done].
      rewrite Herr'; [done|]. by intros ->.
  - done.
Qed.

Lemma foldO_safe (f : string → bool → Walk W → option (Walk W)) b l :
  (∀ id s s', is_Some (nodes !! id) → Safe s → (b = false → propagated s) → f id b s = Some s' →
     Safe s' ∧ propagates s s' ∧ wk_visited s ⊆ wk_visited s') →
  ∀ s s', (∀ u, u ∈ l → is_Some (nodes !! u)) → Safe s → (b = false → propagated s) →
    foldO (λ u, f u b) l s = Some s' → Safe s' ∧ propagates s s' ∧ wk_visited s ⊆ wk_visited s'.
Proof.
  intros Hf. induction l as [|x l IH]; intros s s' Hl Hs Hp; simpl.
  { intros [= <-]. split_and!; [done| |done]. intros d u ? _. by left. }
  intros (s1 & H1 & H2)%bind_Some.
  destruct (Hf x s s1) as (Hs1 & Hp1 & Hv1); [apply Hl; by left|done|done|done|].
  destruct (IH s1 s') as (Hs2 & Hp2 & Hv2); [intros; apply Hl; by right|done| |done|].
  { intros Hb. eapply propagated_after; eauto. }
  split_and!; [done|by eapply propagates_trans|by etrans].
Qed.

Lemma foldO_marked (f : string → bool → Walk W → option (Walk W)) b l :
  (∀ id s s', f id b s = Some s' →
     wk_visited s ⊆ wk_visited s' ∧ (b = true → id ∈ wk_visited s')) →
  ∀ s s', foldO (λ u, f u b) l s = Some s' →
    wk_visited s ⊆ wk_visited s' ∧ (b = true → l ⊆ wk_visited s').
Proof.
  intros Hf. induction l as [|x l IH]; intros s s'; simpl.
  { intros [= <-]. split; [done|]. by intros _ ? ?%not_elem_of_nil. }
  intros (s1 & H1 & H2)%bind_Some. destruct (Hf x s s1 H1) as [Hv1 Hx].
  destruct (IH s1 s' H2) as [Hv2 Hl2]. split; [by etrans|].
  intros Hb u [->|?]%elem_of_cons; [apply Hv2; auto|by apply Hl2].
Qed.

Lemma startNode_marked restart fuel : ∀ id b s s',
  startNode fuel nodes restart id b s = Some s' →
  wk_visited s ⊆ wk_visited s' ∧ (b = true → id ∈ wk_visited s').
Proof.
  induction fuel as [|fuel IH]; intros id b s s'; simpl; [done|].
  case_decide as Hid; [by intros [= <-]|]. destruct (nodes !! id) as [n|] eqn:Hn; [|done].
  assert (Hm : wk_visited s ⊆ wk_visited (mark id s) ∧ id ∈ wk_visited (mark id s)).
  { rewrite visited_mark by done. split; [by right|by left]. }
  destruct b; [|case_decide; [|by intros [= <-]]].
  - intros [Hv _]%(foldO_marked (startNode fuel nodes restart)); [|by intros; apply IH].
    split; [etrans; [apply Hm|done]|]. intros _. by apply Hv, Hm.
  - destruct (startOne_same restart n (mark id s)) as [Hsv _].
    intros [Hv _]%(foldO_marked (startNode fuel nodes restart)); [|by intros; apply IH].
    rewrite Hsv in Hv. split; [etrans; [apply Hm|done]|done].
Qed.

Lemma startNode_safe restart fuel : ∀ id b s s',
  is_Some (nodes !! id) → Safe s → (b = false → propagated s) →
  startNode fuel nodes restart id b s = Some s' →
  Safe s' ∧ propagates s s' ∧ wk_visited s ⊆ wk_visited s'.
Proof.
  induction fuel as [|fuel IH]; intros id b s s' [n Hn] Hs Hp Hrun; [done|].
  pose proof (proj1 (startNode_marked _ _ _ _ _ _ Hrun)) as Hmono. revert Hrun. simpl.
  case_decide as Hid.
  { intros [= <-]. split_and!; [done| |done]. intros d u ? _. by left. }
  assert (Hus : ∀ u, u ∈ users id → is_Some (nodes !! u)) by (intros u; apply users_is_Some).
  assert (Hloop : ∀ c s1 s2, Safe s1 → (c = false → propagated s1) →
    foldO (λ u, startNode fuel nodes restart u c) (users id) s1 = Some s2 →
    Safe s2 ∧ propagates s1 s2 ∧ wk_visited s1 ⊆ wk_visited s2 ∧ (c = true → users id ⊆ wk_visited s2)).
  { intros c s1 s2 Hs1 Hp1 Hrun.
    destruct (foldO_safe (startNode fuel nodes restart) c (users id)) with (s := s1) (s' := s2) as (? & ? & ?);
      [by intros; eapply IH|done|done|done|done|].
    destruct (foldO_marked (startNode fuel nodes restart) c (users id)) with (s := s1) (s' := s2) as (_ & ?);
      [by intros; eapply startNode_marked|done|]. done. }
  rewrite Hn, (users_node id n Hn). destruct b; [|case_decide as Hall].
  - intros Hrun. destruct (Hloop true _ _ (safe_mark_err id s Hs Hid) ltac:(done) Hrun) as (Hs' & Hp' & _ & Hl).
    split_and!; [done| |done]. intros d u Hd Hu. destruct (decide (d = id)) as [->|Hne].
    + right. by apply Hl.
    + destruct (Hp' d u Hd Hu) as [Hd'|]; [|by right]. left. simpl in Hd'. by rewrite lookup_insert_ne in Hd'.
  - pose proof (safe_startOne restart id n s Hs (Hp eq_refl) Hn Hid Hall) as Hs1.
    destruct (startOne_same restart n (mark id s)) as [Hv He]. rewrite (te_id Hte id n Hn) in He.
    rewrite (visited_mark id s Hid) in Hv.
    set (r := startOne restart n (mark id s)) in *. clearbody r.
    intros Hrun. destruct (Hloop r.1 r.2 s' Hs1) as (Hs' & Hp' & _ & Hl); [|done|].
    { intros Hr. rewrite Hr in He. intros d u Hd Hu. rewrite He in Hd. rewrite Hv. right. by apply (Hp eq_refl d). }
    split_and!; [done| |done]. intros d u Hd Hu. destruct (Hp' d u Hd Hu) as [Hd'|]; [|by right].
    destruct (r.1) eqn:Hr.
    + destruct He as [e He]. rewrite He in Hd'. destruct (decide (d = id)) as [->|Hne]; [right; by apply Hl|].
      left. by rewrite lookup_insert_ne in Hd'.
    + rewrite He in Hd'. by left.
  - intros [= <-]. split_and!; [done| |done]. intros d u ? _. by left.
Qed.
Lemma in_order_split l1 e u l2 : in_order (l1 ++ e :: l2) → e = EvStart u ∨ e = EvRestart u →
  ¬ acted u (l1 ++ l2) ∧ ∀ d, d ∈ deps u → ¬ acted d l1.
Proof using.
  clear Hte. intros Ho He. induction l1 as [|x l1 IH]; simpl in *.
  { destruct Ho as [Ho _]. split; [destruct He as [-> | ->]; by destruct Ho|].
    by intros d _ [?%elem_of_nil|?%elem_of_nil]. }
  destruct Ho as [Hx Ho]. specialize (IH Ho) as [Hu Hd].
  assert (Hact : acted u (l1 ++ e :: l2)) by (unfold acted; set_solver).
  assert (Hx' : ∀ y, x = EvStart y ∨ x = EvRestart y → y ≠ u ∧ y ∉ deps u).
  { intros y [-> | ->]; destruct Hx as [Hn Hy]; (split; [by intros ->|by apply Hy]). }
  unfold acted in *. split.
  - intros [Hin|Hin]; apply elem_of_cons in Hin as [?|?]; try tauto; subst x;
      by destruct (Hx' u ltac:(auto)).
  - intros d Hdd [Hin|Hin]; apply elem_of_cons in Hin as [?|?]; try (by destruct (Hd d Hdd); auto); subst x;
      by destruct (Hx' d ltac:(auto)).
Qed.

(** ** Removing: one node *)

(** [alive d w]: the container [d] exists in [w].  A lookup finds the containers
    that exist, and none of the calls before a removal creates one. *)
Context (alive : string → W → Prop).
Context (alive_get : ∀ d w r w', op_GetContainer d w = (r, w') →
  (alive d w → is_Ok r = true) ∧ ∀ x, alive x w' → alive x w).
Context (alive_sync : ∀ id w r w', op_syncContainer id w = (r, w') → ∀ x, alive x w' → alive x w).
Context (alive_save : ∀ i w r w', op_savePod i w = (r, w') → ∀ x, alive x w' → alive x w).

Lemma checkUsers_same id l s r : same_visits id s r → same_visits id s (checkUsers id l r).
Proof using.
  revert r. induction l as [|d l IH]; intros r Hr; simpl; [done|]. apply IH.
  destruct Hr as [Hv He]. destruct (op_GetContainer d (wk_world r.2)) as [[[]|e] w]; split; simpl; try done.
  exists ErrDepExists. destruct (r.1); [destruct He as [e ->]; by rewrite insert_insert_eq|by rewrite He].
Qed.
Lemma checkUsers_trace id l r : wk_trace (checkUsers id l r).2 = wk_trace r.2.
Proof using.
  revert r. induction l as [|d l IH]; intros r; simpl; [done|]. rewrite IH.
  by destruct (op_GetContainer d (wk_world r.2)) as [[[]|e] w].
Qed.
Lemma checkUsers_failed id l s : (checkUsers id l (true, s)).1 = true.
Proof using.
  revert s. induction l as [|d l IH]; intros s; simpl; [done|].
  destruct (op_GetContainer d (wk_world s)) as [[[]|e] w]; apply IH.
Qed.
Lemma checkUsers_mono id l r x :
  alive x (wk_world (checkUsers id l r).2) → alive x (wk_world r.2).
Proof.
  revert r. induction l as [|d l IH]; intros r; simpl; [done|]. intros Hx%IH. revert Hx.
  destruct (op_GetContainer d (wk_world r.2)) as [[[]|e] w] eqn:Hg; simpl;
    apply alive_get in Hg as [_ Hm]; apply Hm.
Qed.
Lemma checkUsers_gone id l s d :
  (checkUsers id l (false, s)).1 = false → d ∈ l → ¬ alive d (wk_world (checkUsers id l (false, s)).2).
Proof.
  revert s. induction l as [|x l IH]; intros s; simpl; [by intros _ ?%elem_of_nil|].
  destruct (op_GetContainer x (wk_world s)) as [[[]|e] w] eqn:Hg; simpl.
  { by rewrite checkUsers_failed. }
  intros Hb [->|Hd]%elem_of_cons; [|by apply IH].
  intros Ha%checkUsers_mono. simpl in Ha. apply alive_get in Hg as [Hok Hm]. by apply Hm, Hok in Ha.
Qed.

Lemma guarded_mono id (op : ST error W ()) (r : bool * Walk W) x :
  (∀ w r w', op w = (r, w') → alive x w' → alive x w) →
  alive x (wk_world (guarded id op r).2) → alive x (wk_world r.2).
Proof.
  intros Hop. unfold guarded. destruct r as [[|] s]; simpl; [done|].
  destruct (op (wk_world s)) as [[[]|e] w] eqn:Hw; simpl; eauto.
Qed.
Lemma guarded_failed id op (r : bool * Walk W) : (guarded id op r).1 = false → r.1 = false.
Proof using. unfold guarded. by destruct r as [[|] s]. Qed.

Lemma removeOne_same n s : same_visits (cn_id n) s (removeOne n s).
Proof using.
  #[local] Transparent removeOne. unfold removeOne.
  set (r1 := checkUsers _ _ _). assert (H1 : same_visits (cn_id n) s r1) by by apply checkUsers_same.
  set (r2 := guarded _ _ (r1.1, _)). assert (H2 : same_visits (cn_id n) s r2) by by apply guarded_same.
  set (r3 := if negb r2.1 then _ else _). assert (H3 : same_visits (cn_id n) s r3).
  { unfold r3. clearbody r2. repeat case_match; try done. by apply guarded_same. }
  clearbody r3. destruct (negb r3.1); simpl; [|done]. by apply guarded_same.
Qed.

(** The calls made for one node: it is removed when nothing failed before, and
    only while nothing that depends on it exists. *)
Lemma removeOne_trace n s : let id := cn_id n in
  ∃ tr, wk_trace (removeOne n s).2 = tr ++ wk_trace s ∧
    ((tr.*1 = [EvUnlock id; EvLock id] ∧ (removeOne n s).1 = true) ∨
     (∃ w1 w2 w3, tr = [(EvUnlock id, w1); (EvRemove id, w2); (EvLock id, w3)] ∧
        ∀ d, d ∈ cn_dependedOn n → ¬ alive d w2)).
Proof.
  intros id. unfold removeOne; fold id.
  set (r1 := checkUsers _ _ _). assert (T1 : wk_trace r1.2 = wk_trace s) by apply checkUsers_trace.
  assert (A1 : r1.1 = false → ∀ d, d ∈ cn_dependedOn n → ¬ alive d (wk_world r1.2)).
  { intros Hb d Hd. by apply checkUsers_gone. }
  set (r2 := guarded _ _ (r1.1, _)).
  assert (T2 : wk_trace r2.2 = (EvLock id, wk_world r1.2) :: wk_trace s) by (unfold r2; rewrite guarded_trace; simpl; by rewrite T1).
  assert (A2 : r2.1 = false → ∀ d, d ∈ cn_dependedOn n → ¬ alive d (wk_world r2.2)).
  { intros Hb d Hd Ha. apply (A1 (guarded_failed _ _ _ Hb) d Hd).
    apply guarded_mono in Ha; [done|]. intros w r w' Hw. by apply (alive_sync _ _ _ _ Hw). }
  set (r3 := if negb r2.1 then _ else _).
  assert (T3 : wk_trace r3.2 = wk_trace r2.2) by (unfold r3; repeat case_match; rewrite ?guarded_trace; done).
  assert (A3 : r3.1 = false → ∀ d, d ∈ cn_dependedOn n → ¬ alive d (wk_world r3.2)).
  { unfold r3. destruct (r2.1) eqn:Hr2; simpl; [by rewrite Hr2|]. case_bool_decide; simpl; [|by rewrite ?Hr2; apply A2].
    intros Hb d Hd Ha. apply (A2 eq_refl d Hd). apply guarded_mono in Ha; [done|].
    intros w r w' Hw. by apply (alive_save _ _ _ _ Hw). }
  clearbody r3. destruct (r3.1) eqn:Hr3; simpl.
  - rewrite T3, T2. eexists [_; _]. split; [done|]. left. done.
  - rewrite guarded_trace. simpl. rewrite T3, T2. eexists [_; _; _]. split; [done|].
    right. eexists _, _, _. split; [done|]. by apply A3.
Qed.
#[local] Opaque removeOne.
(** ** Removing: the walk *)

Lemma removeNode_progress fuel : ∀ id setError s,
  is_Some (nodes !! id) → unvisited s < fuel →
  ∃ s', removeNode fuel nodes id setError s = Some s' ∧ Progress users [id] setError s s'.
Proof using Hte.
  clear alive_get alive_sync alive_save alive.
  induction fuel as [|fuel IH]; intros id setError s [n Hn] Hf; [lia|]. simpl.
  assert (Hpre : ∀ u, id ∈ users u → u ∈ deps id) by (intros u; by apply (te_users Hte)).
  assert (Hds : ∀ u, u ∈ deps id → is_Some (nodes !! u)) by (intros u; apply deps_is_Some).
  destruct (decide (id ∈ wk_visited s)) as [Hid|Hid].
  { eexists. split; [done|]. constructor; [done| |].
    - intros u Hu. split; [done|]. destruct Hu as [Hu _]. set_solver.
    - by intros _ u ->%list_elem_of_singleton. }
  rewrite Hn, (users_node id n Hn), (deps_node id n Hn).
  pose proof (visited_mark id s Hid) as Hm.
  assert (Hc : unvisited s = S (unvisited (mark id s))) by eauto using unvisited_mark.
  assert (Hvisit : ∀ s1, wk_visited s1 = id :: wk_visited s → ∀ b,
    ∃ s', foldO (λ succ, removeNode fuel nodes succ b) (deps id) s1 = Some s' ∧ Progress users (deps id) b s1 s').
  { intros s1 Hs1 b. apply (foldO_progress users (removeNode fuel nodes) fuel b); [by auto|done|].
    unfold unvisited in *. rewrite Hs1. rewrite Hm in Hc. lia. }
  destruct (removeOne_same n (mark id s)) as [Hv _].
  destruct setError; cbn [mbind option_bind].
  - destruct (Hvisit (setErr id ErrCtrStateInvalid (mark id s)) Hm true) as (s2 & -> & Hp).
    cbn [mbind option_bind].
    pose proof (progress_mark users id (deps id) true true s (setErr id ErrCtrStateInvalid (mark id s)) s2 Hid Hm Hpre Hp) as Hp2.
    case_decide as Hall; [|eauto].
    assert (Hin : id ∈ wk_visited s2) by (apply (pg_marked _ _ _ _ _ Hp2); [done|by left]).
    destruct (removeOne_same n (mark id s2)) as [Hv2 _]. simpl in Hv2. rewrite decide_True in Hv2 by done.
    set (r := removeOne n (mark id s2)) in *. clearbody r.
    destruct (foldO_progress users (removeNode fuel nodes) fuel r.1 (deps id)) with (s := r.2) as (s3 & -> & Hp3);
      [by auto|done| |].
    { pose proof (unvisited_mono _ _ (pg_visited _ _ _ _ _ Hp)) as Hle.
      unfold unvisited in *. rewrite Hv2. simpl in Hle. simpl in *. lia. }
    eexists. split; [done|]. destruct Hp2 as [Hpv Hpe Hpm], Hp3 as [Hqv Hqe _]. rewrite Hv2 in Hqv.
    constructor; [by etrans| |].
    + intros u [Hu _]%Hqe. apply Hpe. unfold enabled in *. by rewrite Hv2 in Hu.
    + intros _. etrans; [by apply Hpm|done].
  - case_decide as Hall.
    + set (r := removeOne n (mark id s)) in *. clearbody r. rewrite Hm in Hv.
      destruct (Hvisit r.2 Hv r.1) as (s2 & -> & Hp). eexists. split; [done|].
      exact (progress_mark users id _ false r.1 s r.2 s2 Hid Hv Hpre Hp).
    + eexists. split; [done|]. constructor; [done| |done].
      intros u Hu. split; [done|]. intros ->%list_elem_of_singleton. apply Hall, Forall_forall, Hu.
Qed.

Lemma remove_all_progress fuel l s :
  (∀ u, u ∈ l → is_Some (nodes !! u)) → unvisited s < fuel →
  ∃ s', foldO (λ id, removeNode fuel nodes id false) l s = Some s' ∧ Progress users l false s s'.
Proof using Hte.
  intros Hl Hf. apply (foldO_progress users (removeNode fuel nodes) fuel false); [|done|done].
  intros. by apply removeNode_progress.
Qed.

Lemma topo_split l1 x l2 y : topo nodes (l1 ++ x :: l2) → edge nodes y x → y ∈ l1 ++ x :: l2 →
  y ∈ l1 ∨ y = x.
Proof using.
  induction l1 as [|z l1 IH]; simpl; intros (Hz & Hs & Ht) Hyx Hy.
  - apply elem_of_cons in Hy as [->|Hy]; [by right|]. exfalso. apply Hz.
    eapply topo_closed; [done|done|by apply rtc_once].
  - apply elem_of_cons in Hy as [->|Hy]; [left; by left|].
    destruct (IH Ht Hyx Hy) as [?| ->]; [left; by right|by right].
Qed.

(** The counterpart of [all_visited] for a traversal against the edges. *)
Lemma all_visited_up l s : topo nodes l → (∀ u, is_Some (nodes !! u) → u ∈ l) → (∀ u, u ∉ deps u) →
  (∀ u, is_Some (nodes !! u) → ¬ enabled users s u) → ∀ u, is_Some (nodes !! u) → u ∈ wk_visited s.
Proof using Hte.
  intros Ht Hl Hself He.
  assert (Hpre : ∀ l1 l2, l = l1 ++ l2 → ∀ u, u ∈ l1 → is_Some (nodes !! u) → u ∈ wk_visited s).
  { intros l1. induction l1 as [|x l1 IH] using rev_ind; intros l2 Hll u Hu Hn; [by apply elem_of_nil in Hu|].
    rewrite <-app_assoc in Hll. simpl in Hll. specialize (IH (x :: l2) Hll).
    apply elem_of_app in Hu as [Hu|Hu]; [auto|]. apply list_elem_of_singleton in Hu as ->.
    destruct (decide (x ∈ wk_visited s)) as [|Hx]; [done|]. destruct (He x Hn). split; [done|].
    intros y Hy. pose proof (users_is_Some _ _ Hy) as Hyn. apply (te_users Hte) in Hy.
    assert (Hedge : edge nodes y x).
    { destruct Hyn as [m Hm]. exists m. split; [done|]. by rewrite (deps_node y m Hm). }
    subst l. destruct (topo_split l1 x l2 y Ht Hedge (Hl y Hyn)) as [?| ->]; [auto|by destruct (Hself x)]. }
  intros u Hu. apply (Hpre l []); [by rewrite app_nil_r|auto|done].
Qed.
(** ** Removing: each container once, and nothing that is still needed *)

Definition removes (tr : list (event * W)) : list string :=
  omap (λ e, match e.1 with EvRemove u => Some u | _ => None end) tr.

Record RSafe (s : Walk W) : Prop := {
  rs_gone : ∀ u w, (EvRemove u, w) ∈ wk_trace s → ∀ d, d ∈ users u → ¬ alive d w;
  rs_visited : ∀ u, u ∈ removes (wk_trace s) → u ∈ wk_visited s;
  rs_once : NoDup (removes (wk_trace s));
  rs_done : ∀ u, u ∈ wk_visited s → wk_errors s !! u = None → u ∈ removes (wk_trace s) }.

(** Only nodes that were not visited before are removed. *)
Definition grows (s s' : Walk W) : Prop :=
  wk_visited s ⊆ wk_visited s' ∧
  ∀ u, u ∈ removes (wk_trace s') → u ∈ removes (wk_trace s) ∨ u ∉ wk_visited s.

Lemma grows_refl s : grows s s.
Proof using. split; [done|by left]. Qed.
Lemma grows_trans s s1 s2 : grows s s1 → grows s1 s2 → grows s s2.
Proof using.
  intros [Hv1 Hr1] [Hv2 Hr2]. split; [by etrans|].
  intros u [Hu|Hu]%Hr2; [auto|]. right. intros ?. by apply Hu, Hv1.
Qed.

Lemma visited_marked id (s : Walk W) u : u ∈ wk_visited (mark id s) ↔ u = id ∨ u ∈ wk_visited s.
Proof using. simpl. case_decide; [|by rewrite elem_of_cons]. split; [by right|by intros [->|?]]. Qed.

Lemma rsafe_mark_err id s : RSafe s → RSafe (setErr id ErrCtrStateInvalid (mark id s)).
Proof.
  intros []. constructor; [done| |done|].
  - intros u Hu. apply (visited_marked id s). right. auto.
  - intros u Hu. apply (visited_marked id s) in Hu as [->|Hu]; simpl; [by rewrite lookup_insert_eq|].
    destruct (decide (u = id)) as [->|]; [by rewrite lookup_insert_eq|rewrite lookup_insert_ne by done; auto].
Qed.

Lemma rsafe_removeOne id n s :
  RSafe s → nodes !! id = Some n → id ∉ removes (wk_trace s) →
  let r := removeOne n (mark id s) in
  RSafe r.2 ∧ wk_visited r.2 = wk_visited (mark id s) ∧
  ∀ u, u ∈ removes (wk_trace r.2) → u = id ∨ u ∈ removes (wk_trace s).
Proof.
  intros [Hg Hv Ho Hd] Hn Hid. pose proof (te_id Hte id n Hn) as Hcn. simpl.
  destruct (removeOne_same n (mark id s)) as [Hrv Hre]. rewrite Hcn in Hre.
  destruct (removeOne_trace n (mark id s)) as (tr & Htr & Hshape). rewrite Hcn in Hshape.
  clear Hcn. rewrite (users_node id n Hn) in Hshape.
  set (r := removeOne n (mark id s)) in *. clearbody r. cbn [wk_trace mark] in Htr.
  assert (Herr : ∀ u, u ≠ id → wk_errors r.2 !! u = wk_errors s !! u).
  { intros u Hu. destruct (r.1); [destruct Hre as [e ->]; by rewrite lookup_insert_ne|by rewrite Hre]. }
  assert (Hvm : ∀ u, u ∈ wk_visited r.2 ↔ u = id ∨ u ∈ wk_visited s) by (intros; rewrite Hrv; apply visited_marked).
  destruct Hshape as [[Hsh Hb]|(w1 & w2 & w3 & -> & Hgone)].
  - rewrite Hb in Hre. destruct Hre as [e Hre].
    destruct tr as [|[e1 w1] [|[e2 w2] []]]; simplify_eq/=.
    assert (Hrem : removes (wk_trace r.2) = removes (wk_trace s)) by by rewrite Htr.
    split; [constructor|split; [done|rewrite Hrem; by right]].
    + intros u w. rewrite Htr, !elem_of_cons. intros [?|[?|Hu]]; [done|done|eauto].
    + intros u. rewrite Hrem, Hvm. auto.
    + by rewrite Hrem.
    + intros u. rewrite Hrem, Hvm. intros [->|Hu] Hn'; [by rewrite Hre, lookup_insert_eq in Hn'|].
      destruct (decide (u = id)) as [->|Hne]; [by rewrite Hre, lookup_insert_eq in Hn'|].
      rewrite Herr in Hn' by done. auto.
  - assert (Hrem : removes (wk_trace r.2) = id :: removes (wk_trace s)) by by rewrite Htr.
    split; [constructor|split; [done|rewrite Hrem; by intros u [?|?]%elem_of_cons; [left|right]]].
    + intros u w. rewrite Htr. simpl. rewrite !elem_of_cons.
      intros [?|[?|[?|Hu]]]; [done|by simplify_eq|done|eauto].
    + intros u. rewrite Hrem, Hvm, elem_of_cons. naive_solver.
    + rewrite Hrem. by constructor.
    + intros u. rewrite Hrem, Hvm, elem_of_cons. intros [->|Hu] Hn'; [by left|].
      destruct (decide (u = id)) as [->|Hne]; [by left|]. right. rewrite Herr in Hn' by done. auto.
Qed.

Lemma foldO_rsafe (f : string → bool → Walk W → option (Walk W)) b l :
  (∀ id s s', RSafe s → f id b s = Some s' → RSafe s' ∧ grows s s') →
  ∀ s s', RSafe s → foldO (λ u, f u b) l s = Some s' → RSafe s' ∧ grows s s'.
Proof.
  intros Hf. induction l as [|x l IH]; intros s s' Hs; simpl.
  { intros [= <-]. split; [done|apply grows_refl]. }
  intros (s1 & H1 & H2)%bind_Some. destruct (Hf x s s1 Hs H1) as [Hs1 Hg1].
  destruct (IH s1 s' Hs1 H2) as [Hs2 Hg2]. split; [done|by eapply grows_trans].
Qed.

Lemma removeNode_rsafe fuel : ∀ id b s s',
  RSafe s → removeNode fuel nodes id b s = Some s' → RSafe s' ∧ grows s s'.
Proof.
  induction fuel as [|fuel IH]; intros id b s s' Hs; simpl; [done|].
  case_decide as Hid; [intros [= <-]; split; [done|apply grows_refl]|].
  destruct (nodes !! id) as [n|] eqn:Hn; [|done].
  assert (Hvisit : ∀ s1 s2, RSafe s1 → grows s s1 → id ∉ removes (wk_trace s1) →
    (let r := removeOne n (mark id s1) in
     foldO (λ succ, removeNode fuel nodes succ r.1) (cn_dependsOn n) r.2) = Some s2 → RSafe s2 ∧ grows s s2).
  { intros s1 s2 Hs1 Hg1 Hnew Hrun. destruct (rsafe_removeOne id n s1 Hs1 Hn Hnew) as (Hs2 & Hv2 & Hr2).
    simpl in Hrun. set (r := removeOne n (mark id s1)) in *. clearbody r.
    apply (foldO_rsafe (removeNode fuel nodes)) in Hrun as [? Hg]; [|by intros; eapply IH|done].
    split; [done|]. eapply grows_trans; [|exact Hg]. split.
    - intros u Hu. rewrite Hv2, visited_marked. right. by apply Hg1.
    - intros u [->|Hu]%Hr2; [by right|]. by apply Hg1. }
  assert (Hnot : id ∉ removes (wk_trace s)) by (intros Hin; by apply Hid, (rs_visited _ Hs)).
  intros (s1 & H1 & H2)%bind_Some. destruct b; simplify_eq/=.
  - apply (foldO_rsafe (removeNode fuel nodes)) in H1 as [Hs1 Hg1];
      [|by intros; eapply IH|by apply rsafe_mark_err].
    assert (Hnew : id ∉ removes (wk_trace s1)).
    { intros Hin. apply Hg1 in Hin as [?|Hin]; [done|]. apply Hin. apply (visited_marked id s). by left. }
    assert (Hg : grows s s1).
    { eapply grows_trans; [|exact Hg1]. split; [|by left].
      intros u Hu. apply (visited_marked id s). by right. }
    case_decide; [by apply (Hvisit s1)|]. by simplify_eq.
  - case_decide; [by apply (Hvisit s1); [|apply grows_refl|..]|]. simplify_eq. split; [done|apply grows_refl].
Qed.
End walk.
