(* ===== verification/Life.v ===== *)
(** * Life: the life cycle of a container, state and environment

    The methods of [Container] in [libpod/container_internal.go] and
    [libpod/container_api.go] work on a handle: the configuration, which they do not
    change, the state [c.state] in memory, the flag [c.valid] and the lock [c.lock],
    which is shared with other processes.  The state is stored in the database, one
    row per container; everything else that the methods touch is the host: the OCI
    runtime and conmon, the file system, storage, the network, and the other
    containers.  The host is the class [Host]: it answers each request as it likes
    and changes in doing so, and it also says what other processes did to the row
    while the lock was free. *)

From S2P Require Import Prelude Define Ports Strconv Graph.

(** ** Assignments to the fields of [c.state] *)

Definition cs_set_RunDir (v : string) (r : ContainerState) : ContainerState :=
  mkContainerState (cs_State r) (cs_ConfigPath r) v (cs_Mounted r) (cs_Mountpoint r) (cs_StartedTime r) (cs_FinishedTime r) (cs_ExitCode r) (cs_Exited r) (cs_Error r) (cs_OOMKilled r) (cs_Checkpointed r) (cs_PID r) (cs_ConmonPID r) (cs_ExecSessions r) (cs_LegacyExecSessions r) (cs_NetNS r) (cs_NetworkStatusOld r) (cs_NetworkStatus r) (cs_BindMounts r) (cs_StoppedByUser r) (cs_RestartPolicyMatch r) (cs_RestartCount r) (cs_StartupHCPassed r) (cs_StartupHCSuccessCount r) (cs_StartupHCFailureCount r) (cs_ExtensionStageHooks r) (cs_NetInterfaceDescriptions r) (cs_Service r) (cs_CheckpointedTime r) (cs_RestoredTime r) (cs_CheckpointLog r) (cs_CheckpointPath r) (cs_RestoreLog r) (cs_Restored r).
Definition cs_set_Mounted (v : bool) (r : ContainerState) : ContainerState :=
  mkContainerState (cs_State r) (cs_ConfigPath r) (cs_RunDir r) v (cs_Mountpoint r) (cs_StartedTime r) (cs_FinishedTime r) (cs_ExitCode r) (cs_Exited r) (cs_Error r) (cs_OOMKilled r) (cs_Checkpointed r) (cs_PID r) (cs_ConmonPID r) (cs_ExecSessions r) (cs_LegacyExecSessions r) (cs_NetNS r) (cs_NetworkStatusOld r) (cs_NetworkStatus r) (cs_BindMounts r) (cs_StoppedByUser r) (cs_RestartPolicyMatch r) (cs_RestartCount r) (cs_StartupHCPassed r) (cs_StartupHCSuccessCount r) (cs_StartupHCFailureCount r) (cs_ExtensionStageHooks r) (cs_NetInterfaceDescriptions r) (cs_Service r) (cs_CheckpointedTime r) (cs_RestoredTime r) (cs_CheckpointLog r) (cs_CheckpointPath r) (cs_RestoreLog r) (cs_Restored r).
Definition cs_set_Mountpoint (v : string) (r : ContainerState) : ContainerState :=
  mkContainerState (cs_State r) (cs_ConfigPath r) (cs_RunDir r) (cs_Mounted r) v (cs_StartedTime r) (cs_FinishedTime r) (cs_ExitCode r) (cs_Exited r) (cs_Error r) (cs_OOMKilled r) (cs_Checkpointed r) (cs_PID r) (cs_ConmonPID r) (cs_ExecSessions r) (cs_LegacyExecSessions r) (cs_NetNS r) (cs_NetworkStatusOld r) (cs_NetworkStatus r) (cs_BindMounts r) (cs_StoppedByUser r) (cs_RestartPolicyMatch r) (cs_RestartCount r) (cs_StartupHCPassed r) (cs_StartupHCSuccessCount r) (cs_StartupHCFailureCount r) (cs_ExtensionStageHooks r) (cs_NetInterfaceDescriptions r) (cs_Service r) (cs_CheckpointedTime r) (cs_RestoredTime r) (cs_CheckpointLog r) (cs_CheckpointPath r) (cs_RestoreLog r) (cs_Restored r).
Definition cs_set_StartedTime (v : Z) (r : ContainerState) : ContainerState :=
  mkContainerState (cs_State r) (cs_ConfigPath r) (cs_RunDir r) (cs_Mounted r) (cs_Mountpoint r) v (cs_FinishedTime r) (cs_ExitCode r) (cs_Exited r) (cs_Error r) (cs_OOMKilled r) (cs_Checkpointed r) (cs_PID r) (cs_ConmonPID r) (cs_ExecSessions r) (cs_LegacyExecSessions r) (cs_NetNS r) (cs_NetworkStatusOld r) (cs_NetworkStatus r) (cs_BindMounts r) (cs_StoppedByUser r) (cs_RestartPolicyMatch r) (cs_RestartCount r) (cs_StartupHCPassed r) (cs_StartupHCSuccessCount r) (cs_StartupHCFailureCount r) (cs_ExtensionStageHooks r) (cs_NetInterfaceDescriptions r) (cs_Service r) (cs_CheckpointedTime r) (cs_RestoredTime r) (cs_CheckpointLog r) (cs_CheckpointPath r) (cs_RestoreLog r) (cs_Restored r).
Definition cs_set_FinishedTime (v : Z) (r : ContainerState) : ContainerState :=
  mkContainerState (cs_State r) (cs_ConfigPath r) (cs_RunDir r) (cs_Mounted r) (cs_Mountpoint r) (cs_StartedTime r) v (cs_ExitCode r) (cs_Exited r) (cs_Error r) (cs_OOMKilled r) (cs_Checkpointed r) (cs_PID r) (cs_ConmonPID r) (cs_ExecSessions r) (cs_LegacyExecSessions r) (cs_NetNS r) (cs_NetworkStatusOld r) (cs_NetworkStatus r) (cs_BindMounts r) (cs_StoppedByUser r) (cs_RestartPolicyMatch r) (cs_RestartCount r) (cs_StartupHCPassed r) (cs_StartupHCSuccessCount r) (cs_StartupHCFailureCount r) (cs_ExtensionStageHooks r) (cs_NetInterfaceDescriptions r) (cs_Service r) (cs_CheckpointedTime r) (cs_RestoredTime r) (cs_CheckpointLog r) (cs_CheckpointPath r) (cs_RestoreLog r) (cs_Restored r).
Definition cs_set_ExitCode (v : Z) (r : ContainerState) : ContainerState :=
  mkContainerState (cs_State r) (cs_ConfigPath r) (cs_RunDir r) (cs_Mounted r) (cs_Mountpoint r) (cs_StartedTime r) (cs_FinishedTime r) v (cs_Exited r) (cs_Error r) (cs_OOMKilled r) (cs_Checkpointed r) (cs_PID r) (cs_ConmonPID r) (cs_ExecSessions r) (cs_LegacyExecSessions r) (cs_NetNS r) (cs_NetworkStatusOld r) (cs_NetworkStatus r) (cs_BindMounts r) (cs_StoppedByUser r) (cs_RestartPolicyMatch r) (cs_RestartCount r) (cs_StartupHCPassed r) (cs_StartupHCSuccessCount r) (cs_StartupHCFailureCount r) (cs_ExtensionStageHooks r) (cs_NetInterfaceDescriptions r) (cs_Service r) (cs_CheckpointedTime r) (cs_RestoredTime r) (cs_CheckpointLog r) (cs_CheckpointPath r) (cs_RestoreLog r) (cs_Restored r).
Definition cs_set_Exited (v : bool) (r : ContainerState) : ContainerState :=
  mkContainerState (cs_State r) (cs_ConfigPath r) (cs_RunDir r) (cs_Mounted r) (cs_Mountpoint r) (cs_StartedTime r) (cs_FinishedTime r) (cs_ExitCode r) v (cs_Error r) (cs_OOMKilled r) (cs_Checkpointed r) (cs_PID r) (cs_ConmonPID r) (cs_ExecSessions r) (cs_LegacyExecSessions r) (cs_NetNS r) (cs_NetworkStatusOld r) (cs_NetworkStatus r) (cs_BindMounts r) (cs_StoppedByUser r) (cs_RestartPolicyMatch r) (cs_RestartCount r) (cs_StartupHCPassed r) (cs_StartupHCSuccessCount r) (cs_StartupHCFailureCount r) (cs_ExtensionStageHooks r) (cs_NetInterfaceDescriptions r) (cs_Service r) (cs_CheckpointedTime r) (cs_RestoredTime r) (cs_CheckpointLog r) (cs_CheckpointPath r) (cs_RestoreLog r) (cs_Restored r).
Definition cs_set_Error (v : string) (r : ContainerState) : ContainerState :=
  mkContainerState (cs_State r) (cs_ConfigPath r) (cs_RunDir r) (cs_Mounted r) (cs_Mountpoint r) (cs_StartedTime r) (cs_FinishedTime r) (cs_ExitCode r) (cs_Exited r) v (cs_OOMKilled r) (cs_Checkpointed r) (cs_PID r) (cs_ConmonPID r) (cs_ExecSessions r) (cs_LegacyExecSessions r) (cs_NetNS r) (cs_NetworkStatusOld r) (cs_NetworkStatus r) (cs_BindMounts r) (cs_StoppedByUser r) (cs_RestartPolicyMatch r) (cs_RestartCount r) (cs_StartupHCPassed r) (cs_StartupHCSuccessCount r) (cs_StartupHCFailureCount r) (cs_ExtensionStageHooks r) (cs_NetInterfaceDescriptions r) (cs_Service r) (cs_CheckpointedTime r) (cs_RestoredTime r) (cs_CheckpointLog r) (cs_CheckpointPath r) (cs_RestoreLog r) (cs_Restored r).
Definition cs_set_OOMKilled (v : bool) (r : ContainerState) : ContainerState :=
  mkContainerState (cs_State r) (cs_ConfigPath r) (cs_RunDir r) (cs_Mounted r) (cs_Mountpoint r) (cs_StartedTime r) (cs_FinishedTime r) (cs_ExitCode r) (cs_Exited r) (cs_Error r) v (cs_Checkpointed r) (cs_PID r) (cs_ConmonPID r) (cs_ExecSessions r) (cs_LegacyExecSessions r) (cs_NetNS r) (cs_NetworkStatusOld r) (cs_NetworkStatus r) (cs_BindMounts r) (cs_StoppedByUser r) (cs_RestartPolicyMatch r) (cs_RestartCount r) (cs_StartupHCPassed r) (cs_StartupHCSuccessCount r) (cs_StartupHCFailureCount r) (cs_ExtensionStageHooks r) (cs_NetInterfaceDescriptions r) (cs_Service r) (cs_CheckpointedTime r) (cs_RestoredTime r) (cs_CheckpointLog r) (cs_CheckpointPath r) (cs_RestoreLog r) (cs_Restored r).
Definition cs_set_Checkpointed (v : bool) (r : ContainerState) : ContainerState :=
  mkContainerState (cs_State r) (cs_ConfigPath r) (cs_RunDir r) (cs_Mounted r) (cs_Mountpoint r) (cs_StartedTime r) (cs_FinishedTime r) (cs_ExitCode r) (cs_Exited r) (cs_Error r) (cs_OOMKilled r) v (cs_PID r) (cs_ConmonPID r) (cs_ExecSessions r) (cs_LegacyExecSessions r) (cs_NetNS r) (cs_NetworkStatusOld r) (cs_NetworkStatus r) (cs_BindMounts r) (cs_StoppedByUser r) (cs_RestartPolicyMatch r) (cs_RestartCount r) (cs_StartupHCPassed r) (cs_StartupHCSuccessCount r) (cs_StartupHCFailureCount r) (cs_ExtensionStageHooks r) (cs_NetInterfaceDescriptions r) (cs_Service r) (cs_CheckpointedTime r) (cs_RestoredTime r) (cs_CheckpointLog r) (cs_CheckpointPath r) (cs_RestoreLog r) (cs_Restored r).
Definition cs_set_PID (v : Z) (r : ContainerState) : ContainerState :=
  mkContainerState (cs_State r) (cs_ConfigPath r) (cs_RunDir r) (cs_Mounted r) (cs_Mountpoint r) (cs_StartedTime r) (cs_FinishedTime r) (cs_ExitCode r) (cs_Exited r) (cs_Error r) (cs_OOMKilled r) (cs_Checkpointed r) v (cs_ConmonPID r) (cs_ExecSessions r) (cs_LegacyExecSessions r) (cs_NetNS r) (cs_NetworkStatusOld r) (cs_NetworkStatus r) (cs_BindMounts r) (cs_StoppedByUser r) (cs_RestartPolicyMatch r) (cs_RestartCount r) (cs_StartupHCPassed r) (cs_StartupHCSuccessCount r) (cs_StartupHCFailureCount r) (cs_ExtensionStageHooks r) (cs_NetInterfaceDescriptions r) (cs_Service r) (cs_CheckpointedTime r) (cs_RestoredTime r) (cs_CheckpointLog r) (cs_CheckpointPath r) (cs_RestoreLog r) (cs_Restored r).
Definition cs_set_ConmonPID (v : Z) (r : ContainerState) : ContainerState :=
  mkContainerState (cs_State r) (cs_ConfigPath r) (cs_RunDir r) (cs_Mounted r) (cs_Mountpoint r) (cs_StartedTime r) (cs_FinishedTime r) (cs_ExitCode r) (cs_Exited r) (cs_Error r) (cs_OOMKilled r) (cs_Checkpointed r) (cs_PID r) v (cs_ExecSessions r) (cs_LegacyExecSessions r) (cs_NetNS r) (cs_NetworkStatusOld r) (cs_NetworkStatus r) (cs_BindMounts r) (cs_StoppedByUser r) (cs_RestartPolicyMatch r) (cs_RestartCount r) (cs_StartupHCPassed r) (cs_StartupHCSuccessCount r) (cs_StartupHCFailureCount r) (cs_ExtensionStageHooks r) (cs_NetInterfaceDescriptions r) (cs_Service r) (cs_CheckpointedTime r) (cs_RestoredTime r) (cs_CheckpointLog r) (cs_CheckpointPath r) (cs_RestoreLog r) (cs_Restored r).
Definition cs_set_ExecSessions (v : gmap string ExecSession) (r : ContainerState) : ContainerState :=
  mkContainerState (cs_State r) (cs_ConfigPath r) (cs_RunDir r) (cs_Mounted r) (cs_Mountpoint r) (cs_StartedTime r) (cs_FinishedTime r) (cs_ExitCode r) (cs_Exited r) (cs_Error r) (cs_OOMKilled r) (cs_Checkpointed r) (cs_PID r) (cs_ConmonPID r) v (cs_LegacyExecSessions r) (cs_NetNS r) (cs_NetworkStatusOld r) (cs_NetworkStatus r) (cs_BindMounts r) (cs_StoppedByUser r) (cs_RestartPolicyMatch r) (cs_RestartCount r) (cs_StartupHCPassed r) (cs_StartupHCSuccessCount r) (cs_StartupHCFailureCount r) (cs_ExtensionStageHooks r) (cs_NetInterfaceDescriptions r) (cs_Service r) (cs_CheckpointedTime r) (cs_RestoredTime r) (cs_CheckpointLog r) (cs_CheckpointPath r) (cs_RestoreLog r) (cs_Restored r).
Definition cs_set_LegacyExecSessions (v : gmap string string) (r : ContainerState) : ContainerState :=
  mkContainerState (cs_State r) (cs_ConfigPath r) (cs_RunDir r) (cs_Mounted r) (cs_Mountpoint r) (cs_StartedTime r) (cs_FinishedTime r) (cs_ExitCode r) (cs_Exited r) (cs_Error r) (cs_OOMKilled r) (cs_Checkpointed r) (cs_PID r) (cs_ConmonPID r) (cs_ExecSessions r) v (cs_NetNS r) (cs_NetworkStatusOld r) (cs_NetworkStatus r) (cs_BindMounts r) (cs_StoppedByUser r) (cs_RestartPolicyMatch r) (cs_RestartCount r) (cs_StartupHCPassed r) (cs_StartupHCSuccessCount r) (cs_StartupHCFailureCount r) (cs_ExtensionStageHooks r) (cs_NetInterfaceDescriptions r) (cs_Service r) (cs_CheckpointedTime r) (cs_RestoredTime r) (cs_CheckpointLog r) (cs_CheckpointPath r) (cs_RestoreLog r) (cs_Restored r).
Definition cs_set_NetworkStatusOld (v : list string) (r : ContainerState) : ContainerState :=
  mkContainerState (cs_State r) (cs_ConfigPath r) (cs_RunDir r) (cs_Mounted r) (cs_Mountpoint r) (cs_StartedTime r) (cs_FinishedTime r) (cs_ExitCode r) (cs_Exited r) (cs_Error r) (cs_OOMKilled r) (cs_Checkpointed r) (cs_PID r) (cs_ConmonPID r) (cs_ExecSessions r) (cs_LegacyExecSessions r) (cs_NetNS r) v (cs_NetworkStatus r) (cs_BindMounts r) (cs_StoppedByUser r) (cs_RestartPolicyMatch r) (cs_RestartCount r) (cs_StartupHCPassed r) (cs_StartupHCSuccessCount r) (cs_StartupHCFailureCount r) (cs_ExtensionStageHooks r) (cs_NetInterfaceDescriptions r) (cs_Service r) (cs_CheckpointedTime r) (cs_RestoredTime r) (cs_CheckpointLog r) (cs_CheckpointPath r) (cs_RestoreLog r) (cs_Restored r).
Definition cs_set_NetworkStatus (v : gmap string string) (r : ContainerState) : ContainerState :=
  mkContainerState (cs_State r) (cs_ConfigPath r) (cs_RunDir r) (cs_Mounted r) (cs_Mountpoint r) (cs_StartedTime r) (cs_FinishedTime r) (cs_ExitCode r) (cs_Exited r) (cs_Error r) (cs_OOMKilled r) (cs_Checkpointed r) (cs_PID r) (cs_ConmonPID r) (cs_ExecSessions r) (cs_LegacyExecSessions r) (cs_NetNS r) (cs_NetworkStatusOld r) v (cs_BindMounts r) (cs_StoppedByUser r) (cs_RestartPolicyMatch r) (cs_RestartCount r) (cs_StartupHCPassed r) (cs_StartupHCSuccessCount r) (cs_StartupHCFailureCount r) (cs_ExtensionStageHooks r) (cs_NetInterfaceDescriptions r) (cs_Service r) (cs_CheckpointedTime r) (cs_RestoredTime r) (cs_CheckpointLog r) (cs_CheckpointPath r) (cs_RestoreLog r) (cs_Restored r).
Definition cs_set_StoppedByUser (v : bool) (r : ContainerState) : ContainerState :=
  mkContainerState (cs_State r) (cs_ConfigPath r) (cs_RunDir r) (cs_Mounted r) (cs_Mountpoint r) (cs_StartedTime r) (cs_FinishedTime r) (cs_ExitCode r) (cs_Exited r) (cs_Error r) (cs_OOMKilled r) (cs_Checkpointed r) (cs_PID r) (cs_ConmonPID r) (cs_ExecSessions r) (cs_LegacyExecSessions r) (cs_NetNS r) (cs_NetworkStatusOld r) (cs_NetworkStatus r) (cs_BindMounts r) v (cs_RestartPolicyMatch r) (cs_RestartCount r) (cs_StartupHCPassed r) (cs_StartupHCSuccessCount r) (cs_StartupHCFailureCount r) (cs_ExtensionStageHooks r) (cs_NetInterfaceDescriptions r) (cs_Service r) (cs_CheckpointedTime r) (cs_RestoredTime r) (cs_CheckpointLog r) (cs_CheckpointPath r) (cs_RestoreLog r) (cs_Restored r).
Definition cs_set_RestartPolicyMatch (v : bool) (r : ContainerState) : ContainerState :=
  mkContainerState (cs_State r) (cs_ConfigPath r) (cs_RunDir r) (cs_Mounted r) (cs_Mountpoint r) (cs_StartedTime r) (cs_FinishedTime r) (cs_ExitCode r) (cs_Exited r) (cs_Error r) (cs_OOMKilled r) (cs_Checkpointed r) (cs_PID r) (cs_ConmonPID r) (cs_ExecSessions r) (cs_LegacyExecSessions r) (cs_NetNS r) (cs_NetworkStatusOld r) (cs_NetworkStatus r) (cs_BindMounts r) (cs_StoppedByUser r) v (cs_RestartCount r) (cs_StartupHCPassed r) (cs_StartupHCSuccessCount r) (cs_StartupHCFailureCount r) (cs_ExtensionStageHooks r) (cs_NetInterfaceDescriptions r) (cs_Service r) (cs_CheckpointedTime r) (cs_RestoredTime r) (cs_CheckpointLog r) (cs_CheckpointPath r) (cs_RestoreLog r) (cs_Restored r).
Definition cs_set_RestartCount (v : Z) (r : ContainerState) : ContainerState :=
  mkContainerState (cs_State r) (cs_ConfigPath r) (cs_RunDir r) (cs_Mounted r) (cs_Mountpoint r) (cs_StartedTime r) (cs_FinishedTime r) (cs_ExitCode r) (cs_Exited r) (cs_Error r) (cs_OOMKilled r) (cs_Checkpointed r) (cs_PID r) (cs_ConmonPID r) (cs_ExecSessions r) (cs_LegacyExecSessions r) (cs_NetNS r) (cs_NetworkStatusOld r) (cs_NetworkStatus r) (cs_BindMounts r) (cs_StoppedByUser r) (cs_RestartPolicyMatch r) v (cs_StartupHCPassed r) (cs_StartupHCSuccessCount r) (cs_StartupHCFailureCount r) (cs_ExtensionStageHooks r) (cs_NetInterfaceDescriptions r) (cs_Service r) (cs_CheckpointedTime r) (cs_RestoredTime r) (cs_CheckpointLog r) (cs_CheckpointPath r) (cs_RestoreLog r) (cs_Restored r).
Definition cs_set_StartupHCPassed (v : bool) (r : ContainerState) : ContainerState :=
  mkContainerState (cs_State r) (cs_ConfigPath r) (cs_RunDir r) (cs_Mounted r) (cs_Mountpoint r) (cs_StartedTime r) (cs_FinishedTime r) (cs_ExitCode r) (cs_Exited r) (cs_Error r) (cs_OOMKilled r) (cs_Checkpointed r) (cs_PID r) (cs_ConmonPID r) (cs_ExecSessions r) (cs_LegacyExecSessions r) (cs_NetNS r) (cs_NetworkStatusOld r) (cs_NetworkStatus r) (cs_BindMounts r) (cs_StoppedByUser r) (cs_RestartPolicyMatch r) (cs_RestartCount r) v (cs_StartupHCSuccessCount r) (cs_StartupHCFailureCount r) (cs_ExtensionStageHooks r) (cs_NetInterfaceDescriptions r) (cs_Service r) (cs_CheckpointedTime r) (cs_RestoredTime r) (cs_CheckpointLog r) (cs_CheckpointPath r) (cs_RestoreLog r) (cs_Restored r).
Definition cs_set_StartupHCSuccessCount (v : Z) (r : ContainerState) : ContainerState :=
  mkContainerState (cs_State r) (cs_ConfigPath r) (cs_RunDir r) (cs_Mounted r) (cs_Mountpoint r) (cs_StartedTime r) (cs_FinishedTime r) (cs_ExitCode r) (cs_Exited r) (cs_Error r) (cs_OOMKilled r) (cs_Checkpointed r) (cs_PID r) (cs_ConmonPID r) (cs_ExecSessions r) (cs_LegacyExecSessions r) (cs_NetNS r) (cs_NetworkStatusOld r) (cs_NetworkStatus r) (cs_BindMounts r) (cs_StoppedByUser r) (cs_RestartPolicyMatch r) (cs_RestartCount r) (cs_StartupHCPassed r) v (cs_StartupHCFailureCount r) (cs_ExtensionStageHooks r) (cs_NetInterfaceDescriptions r) (cs_Service r) (cs_CheckpointedTime r) (cs_RestoredTime r) (cs_CheckpointLog r) (cs_CheckpointPath r) (cs_RestoreLog r) (cs_Restored r).
Definition cs_set_StartupHCFailureCount (v : Z) (r : ContainerState) : ContainerState :=
  mkContainerState (cs_State r) (cs_ConfigPath r) (cs_RunDir r) (cs_Mounted r) (cs_Mountpoint r) (cs_StartedTime r) (cs_FinishedTime r) (cs_ExitCode r) (cs_Exited r) (cs_Error r) (cs_OOMKilled r) (cs_Checkpointed r) (cs_PID r) (cs_ConmonPID r) (cs_ExecSessions r) (cs_LegacyExecSessions r) (cs_NetNS r) (cs_NetworkStatusOld r) (cs_NetworkStatus r) (cs_BindMounts r) (cs_StoppedByUser r) (cs_RestartPolicyMatch r) (cs_RestartCount r) (cs_StartupHCPassed r) (cs_StartupHCSuccessCount r) v (cs_ExtensionStageHooks r) (cs_NetInterfaceDescriptions r) (cs_Service r) (cs_CheckpointedTime r) (cs_RestoredTime r) (cs_CheckpointLog r) (cs_CheckpointPath r) (cs_RestoreLog r) (cs_Restored r).
Definition cs_set_CheckpointedTime (v : Z) (r : ContainerState) : ContainerState :=
  mkContainerState (cs_State r) (cs_ConfigPath r) (cs_RunDir r) (cs_Mounted r) (cs_Mountpoint r) (cs_StartedTime r) (cs_FinishedTime r) (cs_ExitCode r) (cs_Exited r) (cs_Error r) (cs_OOMKilled r) (cs_Checkpointed r) (cs_PID r) (cs_ConmonPID r) (cs_ExecSessions r) (cs_LegacyExecSessions r) (cs_NetNS r) (cs_NetworkStatusOld r) (cs_NetworkStatus r) (cs_BindMounts r) (cs_StoppedByUser r) (cs_RestartPolicyMatch r) (cs_RestartCount r) (cs_StartupHCPassed r) (cs_StartupHCSuccessCount r) (cs_StartupHCFailureCount r) (cs_ExtensionStageHooks r) (cs_NetInterfaceDescriptions r) (cs_Service r) v (cs_RestoredTime r) (cs_CheckpointLog r) (cs_CheckpointPath r) (cs_RestoreLog r) (cs_Restored r).
Definition cs_set_RestoredTime (v : Z) (r : ContainerState) : ContainerState :=
  mkContainerState (cs_State r) (cs_ConfigPath r) (cs_RunDir r) (cs_Mounted r) (cs_Mountpoint r) (cs_StartedTime r) (cs_FinishedTime r) (cs_ExitCode r) (cs_Exited r) (cs_Error r) (cs_OOMKilled r) (cs_Checkpointed r) (cs_PID r) (cs_ConmonPID r) (cs_ExecSessions r) (cs_LegacyExecSessions r) (cs_NetNS r) (cs_NetworkStatusOld r) (cs_NetworkStatus r) (cs_BindMounts r) (cs_StoppedByUser r) (cs_RestartPolicyMatch r) (cs_RestartCount r) (cs_StartupHCPassed r) (cs_StartupHCSuccessCount r) (cs_StartupHCFailureCount r) (cs_ExtensionStageHooks r) (cs_NetInterfaceDescriptions r) (cs_Service r) (cs_CheckpointedTime r) v (cs_CheckpointLog r) (cs_CheckpointPath r) (cs_RestoreLog r) (cs_Restored r).
Definition cs_set_CheckpointLog (v : string) (r : ContainerState) : ContainerState :=
  mkContainerState (cs_State r) (cs_ConfigPath r) (cs_RunDir r) (cs_Mounted r) (cs_Mountpoint r) (cs_StartedTime r) (cs_FinishedTime r) (cs_ExitCode r) (cs_Exited r) (cs_Error r) (cs_OOMKilled r) (cs_Checkpointed r) (cs_PID r) (cs_ConmonPID r) (cs_ExecSessions r) (cs_LegacyExecSessions r) (cs_NetNS r) (cs_NetworkStatusOld r) (cs_NetworkStatus r) (cs_BindMounts r) (cs_StoppedByUser r) (cs_RestartPolicyMatch r) (cs_RestartCount r) (cs_StartupHCPassed r) (cs_StartupHCSuccessCount r) (cs_StartupHCFailureCount r) (cs_ExtensionStageHooks r) (cs_NetInterfaceDescriptions r) (cs_Service r) (cs_CheckpointedTime r) (cs_RestoredTime r) v (cs_CheckpointPath r) (cs_RestoreLog r) (cs_Restored r).
Definition cs_set_CheckpointPath (v : string) (r : ContainerState) : ContainerState :=
  mkContainerState (cs_State r) (cs_ConfigPath r) (cs_RunDir r) (cs_Mounted r) (cs_Mountpoint r) (cs_StartedTime r) (cs_FinishedTime r) (cs_ExitCode r) (cs_Exited r) (cs_Error r) (cs_OOMKilled r) (cs_Checkpointed r) (cs_PID r) (cs_ConmonPID r) (cs_ExecSessions r) (cs_LegacyExecSessions r) (cs_NetNS r) (cs_NetworkStatusOld r) (cs_NetworkStatus r) (cs_BindMounts r) (cs_StoppedByUser r) (cs_RestartPolicyMatch r) (cs_RestartCount r) (cs_StartupHCPassed r) (cs_StartupHCSuccessCount r) (cs_StartupHCFailureCount r) (cs_ExtensionStageHooks r) (cs_NetInterfaceDescriptions r) (cs_Service r) (cs_CheckpointedTime r) (cs_RestoredTime r) (cs_CheckpointLog r) v (cs_RestoreLog r) (cs_Restored r).
Definition cs_set_RestoreLog (v : string) (r : ContainerState) : ContainerState :=
  mkContainerState (cs_State r) (cs_ConfigPath r) (cs_RunDir r) (cs_Mounted r) (cs_Mountpoint r) (cs_StartedTime r) (cs_FinishedTime r) (cs_ExitCode r) (cs_Exited r) (cs_Error r) (cs_OOMKilled r) (cs_Checkpointed r) (cs_PID r) (cs_ConmonPID r) (cs_ExecSessions r) (cs_LegacyExecSessions r) (cs_NetNS r) (cs_NetworkStatusOld r) (cs_NetworkStatus r) (cs_BindMounts r) (cs_StoppedByUser r) (cs_RestartPolicyMatch r) (cs_RestartCount r) (cs_StartupHCPassed r) (cs_StartupHCSuccessCount r) (cs_StartupHCFailureCount r) (cs_ExtensionStageHooks r) (cs_NetInterfaceDescriptions r) (cs_Service r) (cs_CheckpointedTime r) (cs_RestoredTime r) (cs_CheckpointLog r) (cs_CheckpointPath r) v (cs_Restored r).
Definition cs_set_Restored (v : bool) (r : ContainerState) : ContainerState :=
  mkContainerState (cs_State r) (cs_ConfigPath r) (cs_RunDir r) (cs_Mounted r) (cs_Mountpoint r) (cs_StartedTime r) (cs_FinishedTime r) (cs_ExitCode r) (cs_Exited r) (cs_Error r) (cs_OOMKilled r) (cs_Checkpointed r) (cs_PID r) (cs_ConmonPID r) (cs_ExecSessions r) (cs_LegacyExecSessions r) (cs_NetNS r) (cs_NetworkStatusOld r) (cs_NetworkStatus r) (cs_BindMounts r) (cs_StoppedByUser r) (cs_RestartPolicyMatch r) (cs_RestartCount r) (cs_StartupHCPassed r) (cs_StartupHCSuccessCount r) (cs_StartupHCFailureCount r) (cs_ExtensionStageHooks r) (cs_NetInterfaceDescriptions r) (cs_Service r) (cs_CheckpointedTime r) (cs_RestoredTime r) (cs_CheckpointLog r) (cs_CheckpointPath r) (cs_RestoreLog r) v.

(** ** The host *)

(** Requests that only succeed or fail.  The names are those of the functions
    called, or of the command of the OCI runtime. *)
Inductive request : Type :=
(* the OCI runtime and conmon *)
| RuntimeStart | RuntimeKill (signal : Z) (all : bool) | RuntimeDelete | RuntimePause | RuntimeResume
| AttachSocket | AttachStdio | AttachResize_ | PostDeleteHooks | WaitForExitFile | KillConmon (pid : Z)
(* files *)
| RemoveFile (name : string) | GenerateSpec | ResolveWorkDir | SaveSpec | FixVolumePermissions (volume : string)
| RemoveHealthCheckLog | UpdateHealthStatus | CreateTimer (startup : bool) | StartTimer (startup : bool)
| RemoveTransientFiles (startup : bool) | SdNotify | RemoveExecBundle (session : string) | RemoveArtifacts
| RemoveCIDFile (path : string) | RemoveHostsEntry | UpdateHosts | CreateUserNsRoot
(* storage *)
| UnmountOverlay | UnmountRootfs | UnmountSHM (mount : string) | CleanupOverlayMounts | UnmountImage
| RetrieveVolume (volume : string) | UnmountVolume (volume : string)
| LookupImage (source : string) | UnmountImageVolume (source : string)
| DeleteStorage | RemoveVolume (volume : string) | MountImage | ExportImage
(* the network *)
| SetupNetNS | ReloadContainerNetwork | TeardownNetNS | SetupSlirp4netns | SetupRootlessPorts
(* tables of the state database other than the row of the container *)
| AddContainerExitCode (code : Z) | PruneContainerExitCodes | RemoveContainerExecSessions
| GetContainerConfig | SafeRewriteConfig | CheckServicePods
(* locks *)
| LockPod | UnlockPod | AllocateLock | FreeLock.

#[export] Instance request_eq_dec : EqDecision request.
Proof. solve_decision. Defined.

(** The answer to [kill(pid, 0)]. *)
Inductive ping : Type := Alive | ESRCH | PingErr.

(** What [runtime state] says: the PID and the status of the container, that the
    command could not be started and complains about a container that does not
    exist, or another failure. *)
Inductive runtimeState : Type :=
| RuntimeStatus (pid : Z) (status : string)
| RuntimeGone
| RuntimeError.

(** What [createOCIContainer] gets from conmon: an error before conmon has answered, an
    answer that says that the creation failed (or that cannot be read), or the PID
    and the PID of conmon (0: unknown). *)
Inductive creation : Type :=
| NotCreated (e : error)
| PipeFailed (e : error)
| CreatedAs (pid conmonPID : Z).

(** The points at which a method waits for the lock. *)
Inductive acquire : Type :=
| AtCall      (* at its beginning *)
| AfterStop   (* in [stop], after the runtime has stopped the container *)
| AfterSleep  (* in [cleanupExecBundle], before the next attempt *)
| AtReady     (* in the goroutine of [Attach], when the terminal is attached *)
| AfterError. (* before it saves the error it returns *)

Class Host (H : Type) : Type := {
  h_request : request → H → result error () * H;
  (* OCI runtime *)
  h_create : H → creation * H;
  h_state : H → runtimeState * H;
  h_ping : Z → H → ping * H;
  h_signal : Z → Z → H → ping * H;                     (* [unix.Kill]: the PID and the signal *)
  h_waitPid : Z → Z → H → bool * H;                    (* whether the PID vanished in time *)
  h_statExitFile : H → result error (option Z) * H;    (* creation time; [None]: no file *)
  h_readExitFile : H → result error string * H;
  h_oom : H → bool * H;
  h_legacyPID : string → Z;                            (* the PID in a legacy exec session *)
  h_execExitCode : string → H → result error Z * H;
  (* storage and network *)
  h_mountStorage : H → result error string * H;
  h_mountedImage : H → result error Z * H;
  h_createNetNS : H → result error (string * gmap string string) * H;
  h_runDir : H → result error string * H;
  h_networkDisabled : string → H → result error bool * H;  (* of the container whose network is shared *)
  (* other containers and the pod *)
  h_container : string → H → result error Container * H;   (* [state.Container] *)
  h_status : string → H → result error ContainerStatus * H;(* [dep.State()] *)
  h_ops :: ContainerOps H;
  h_inUse : H → result error (list string) * H;            (* [state.ContainerInUse] *)
  h_pod : H → result error (Z * string) * H;               (* [state.Pod]: lock ID and exit policy *)
  h_updatePod : H → result error string * H;               (* [pod.updatePod]: the infra container *)
  h_errorText : error → string;                            (* [err.Error()] *)
  h_networkStatus : H → gmap string string;                (* the result of reloading the network *)
  h_order : list string → list string;                     (* iteration over a map *)
  (* the system *)
  h_rootless : bool;
  h_cgroup2 : H → result error bool * H;
  h_now : H → Z * H;
  h_database : H → result error () * H;                    (* a call of the database, apart from its answer *)
  h_others : acquire → option ContainerState → H → option ContainerState * H }.

(** ** The world of one handle *)

Inductive note : Type :=
| Requested (r : request)   (* a request to the host *)
| Created                   (* [CreateContainer] *)
| Event (name : string)     (* [c.newContainerEvent] *)
| Saved (s : ContainerStatus)
| QueuedPodStop             (* [stopIfOnlyInfraRemains] was put into the work queue *)
| RemovedRow.               (* the container was removed from the database *)

(** [l_locked]: this thread holds [c.lock].  [l_fatal]: it locked a mutex that it
    held, or unlocked one that it did not hold.  [l_panic]: it dereferenced a nil
    pointer; what it does afterwards is of no interest.  [l_db]: the row of the container,
    [None] when the database does not have it.  [l_trace]: what was done, newest
    first. *)
Record LWorld (H : Type) : Type := mkLWorld {
  l_state : ContainerState;
  l_valid : bool;
  l_locked : bool;
  l_fatal : bool;
  l_panic : bool;
  l_db : option ContainerState;
  l_host : H;
  l_trace : list note }.
Arguments mkLWorld {H}.
Arguments l_state {H}. Arguments l_valid {H}. Arguments l_locked {H}. Arguments l_fatal {H}. Arguments l_panic {H}.
Arguments l_db {H}. Arguments l_host {H}. Arguments l_trace {H}.

Section world.
Context {H : Type}.
Implicit Types w : LWorld H.

Definition l_set_state s w := mkLWorld s (l_valid w) (l_locked w) (l_fatal w) (l_panic w) (l_db w) (l_host w) (l_trace w).
Definition l_set_valid b w := mkLWorld (l_state w) b (l_locked w) (l_fatal w) (l_panic w) (l_db w) (l_host w) (l_trace w).
Definition l_set_locked b w := mkLWorld (l_state w) (l_valid w) b (l_fatal w) (l_panic w) (l_db w) (l_host w) (l_trace w).
Definition l_set_fatal w := mkLWorld (l_state w) (l_valid w) (l_locked w) true (l_panic w) (l_db w) (l_host w) (l_trace w).
Definition l_set_panic w := mkLWorld (l_state w) (l_valid w) (l_locked w) (l_fatal w) true (l_db w) (l_host w) (l_trace w).
Definition l_set_db d w := mkLWorld (l_state w) (l_valid w) (l_locked w) (l_fatal w) (l_panic w) d (l_host w) (l_trace w).
Definition l_set_host (h : H) w := mkLWorld (l_state w) (l_valid w) (l_locked w) (l_fatal w) (l_panic w) (l_db w) h (l_trace w).
Definition l_note n w := mkLWorld (l_state w) (l_valid w) (l_locked w) (l_fatal w) (l_panic w) (l_db w) (l_host w) (n :: l_trace w).
End world.

Abbreviation LM H := (ST error (LWorld H)).

Section base.
Context {H : Type} `{Host H}.

(** ** Access to the host *)

Definition host {A} (f : H → result error A * H) : LM H A := λ w,
  let '(r, h) := f (l_host w) in (r, l_set_host h w).

Definition host' {A} (f : H → A * H) : LM H A := λ w,
  let '(a, h) := f (l_host w) in (Ok a, l_set_host h w).

Definition noted (n : note) : LM H () := modify (l_note n).

Definition ask (r : request) : LM H () := _ ← noted (Requested r); host (h_request r).

(** The error as a value; [None] is [nil]. *)
Definition attempt {A} (m : LM H A) : LM H (option error) := λ w,
  let '(r, w') := m w in
  (Ok (match r with Ok _ => None | Err e => Some e end), w').

(** The result as a value. *)
Definition caught {A} (m : LM H A) : LM H (result error A) := λ w, let '(r, w') := m w in (Ok r, w').

(** [if err := m; err != nil { log }] *)
Definition ignore {A} (m : LM H A) : LM H () := _ ← attempt m; mret ().

Definition report (e : option error) : LM H () :=
  match e with Some e => throw e | None => mret () end.

(** [defer func() { if retErr != nil { f } }()] *)
Definition onError {A} (m : LM H A) (f : LM H ()) : LM H A := λ w,
  match m w with
  | (Ok a, w') => (Ok a, w')
  | (Err e, w') => let '(_, w'') := f w' in (Err e, w'')
  end.

(** [defer f]: [f] runs also when [m] fails. *)
Definition finally {A} (m : LM H A) (f : LM H ()) : LM H A := λ w,
  let '(r, w') := m w in let '(_, w'') := f w' in (r, w'').

(** A nil pointer is dereferenced. *)
Definition nilPointer : LM H () := modify l_set_panic.

(** Two ways in which the code keeps an error: the first one, or the last one. *)
Definition firstErr (a b : option error) : option error := match a with Some _ => a | None => b end.
Definition lastErr (a b : option error) : option error := match b with Some _ => b | None => a end.

(** ** The lock *)

Definition Lock (at_ : acquire) : LM H () := λ w,
  if l_locked w then (Ok (), l_set_fatal w)
  else let '(d, h) := h_others at_ (l_db w) (l_host w) in
       (Ok (), l_set_locked true (l_set_db d (l_set_host h w))).

Definition Unlock : LM H () := λ w,
  if l_locked w then (Ok (), l_set_locked false w) else (Ok (), l_set_fatal w).

(** ** The state in memory and its row *)

Definition status (w : LWorld H) : ContainerStatus := cs_State (l_state w).

Definition onState (f : ContainerState → ContainerState) : LM H () := modify (λ w, l_set_state (f (l_state w)) w).

Definition setStatus (s : ContainerStatus) : LM H () := onState (cs_set_State s).

Definition getState {A} (f : ContainerState → A) : LM H A := gets (λ w, f (l_state w)).

Definition ensureState (states : list ContainerStatus) : LM H bool := gets (λ w, bool_decide (status w ∈ states)).

(** [state.UpdateContainer]: the row replaces the state in memory. *)
Definition UpdateContainer : LM H () :=
  v ← gets l_valid;
  _ ← failIf (negb v) ErrCtrRemoved;
  _ ← host h_database;
  d ← gets l_db;
  match d with
  | None => _ ← modify (l_set_valid false); throw ErrNoSuchCtr
  | Some s => modify (l_set_state s)
  end.

(** [c.save]: [state.SaveContainer] *)
Definition save : LM H () :=
  v ← gets l_valid;
  _ ← failIf (negb v) ErrCtrRemoved;
  _ ← host h_database;
  d ← gets l_db;
  match d with
  | None => _ ← modify (l_set_valid false); throw ErrNoSuchCtr
  | Some _ => modify (λ w, l_note (Saved (status w)) (l_set_db (Some (l_state w)) w))
  end.

(** [c.valid] *)
Definition saveIfValid : LM H () :=
  v ← gets l_valid;
  if v : bool then save else mret ().

(** [ok, _ := state.HasContainer(c.ID())] *)
Definition hasContainer : LM H bool :=
  e ← attempt (host h_database);
  d ← gets l_db;
  mret (bool_decide (e = None ∧ is_Some d)).

(** [state.RemoveContainer], [state.RemoveContainerFromPod] *)
Definition removeRow : LM H () :=
  _ ← host h_database;
  d ← gets l_db;
  match d with
  | None => _ ← modify (l_set_valid false); throw ErrNoSuchCtr
  | Some _ => _ ← modify (l_set_db None); noted RemovedRow
  end.
End base.
