(* ===== verification/LifeOps.v ===== *)
(** * LifeOps: the life cycle of a container, internal operations

    The methods of [libpod/container_internal.go] and
    [libpod/container_internal_linux.go] that initialise, start, stop, pause,
    restart, clean up and remove a container, and the methods of
    [ConmonOCIRuntime] ([libpod/oci_conmon_common.go]) that they call.  None of them
    takes the lock at its beginning; [stop] gives it back while it waits, and so does
    [cleanupExecBundle] between two attempts. *)

From S2P Require Import Prelude Define Ports Strconv Graph Life.

Abbreviation Unknown := ContainerStateUnknown.
Abbreviation Configured := ContainerStateConfigured.
Abbreviation Created_ := ContainerStateCreated.
Abbreviation Running := ContainerStateRunning.
Abbreviation Stopped := ContainerStateStopped.
Abbreviation Paused := ContainerStatePaused.
Abbreviation Exited := ContainerStateExited.
Abbreviation Removing := ContainerStateRemoving.
Abbreviation Stopping := ContainerStateStopping.

Definition RestartPolicyNone : string := "".
Definition RestartPolicyNo : string := "no".
Definition RestartPolicyOnFailure : string := "on-failure".

Definition SIGKILL : Z := 9.
Definition SIGTERM : Z := 15.
Definition SIGWINCH : Z := 28.
(** Seconds *)
Definition killContainerTimeout : Z := 5.

Definition PIDNamespace : string := "pid".
Definition NetworkNamespace : string := "network".

Definition PodExitPolicyStop : string := "stop".

(** [uint] arithmetic *)
Definition uint64 (x : Z) : Z := x mod 2 ^ 64.

Section ops.
Context {H : Type} `{Host H} (config : ContainerConfig) (batched : bool).

(** ** The exit file *)

(** [time.Now()] *)
Definition now : LM H Z := host' h_now.

Definition handleExitFile (created : Z) : LM H () :=
  _ ← onState (cs_set_FinishedTime created);
  statusCodeStr ← host h_readExitFile;
  statusCode ← lift (atoi statusCodeStr);
  _ ← onState (cs_set_ExitCode (int32 statusCode));
  oom ← host' h_oom;
  _ ← (if oom : bool then onState (cs_set_OOMKilled true) else mret ());
  _ ← onState (cs_set_Exited true);
  _ ← noted (Event "died");
  code ← getState cs_ExitCode;
  ask (AddContainerExitCode code).

Definition checkExitFile : LM H () :=
  running ← ensureState [Running; Paused; Stopping];
  if negb running then mret () else
  info ← host h_statExitFile;
  match info with
  | None => mret ()
  | Some created =>
      _ ← onState (λ s, cs_set_ConmonPID 0 (cs_set_PID 0 (cs_set_State Stopped s)));
      handleExitFile created
  end.

Definition waitForExitFileAndSync : LM H () :=
  e ← attempt (ask WaitForExitFile);
  match e with
  | Some e =>
      t ← now;
      _ ← onState (λ s, cs_set_State Stopped (cs_set_FinishedTime t (cs_set_ExitCode (-1) s)));
      _ ← ignore save;
      throw e
  | None => _ ← checkExitFile; save
  end.

(** ** Synchronisation with the database *)

Definition restartPolicyMatches (oldState : ContainerStatus) (s : ContainerState) : bool :=
  bool_decide (cc_RestartPolicy config ≠ RestartPolicyNone ∧ cc_RestartPolicy config ≠ RestartPolicyNo ∧
    oldState ∈ [Running; Paused] ∧ cs_State s ∈ [Stopped; Exited] ∧ cs_StoppedByUser s = false).

Definition syncContainer : LM H () :=
  _ ← UpdateContainer;
  known ← ensureState [Created_; Running; Stopped; Stopping; Paused];
  _ ← (if known : bool then
         oldState ← gets status;
         _ ← checkExitFile;
         same ← ensureState [oldState];
         if same : bool then mret ()
         else
           _ ← onState (λ s, if restartPolicyMatches oldState s then cs_set_RestartPolicyMatch true s else s);
           save
       else mret ());
  v ← gets l_valid;
  failIf (negb v) ErrCtrRemoved.

(** ** Dependencies *)

Fixpoint depsNotRunning (deps notRunning : list string) : LM H (list string) :=
  match deps with
  | [] => mret notRunning
  | dep :: deps =>
      depCtr ← host (h_container dep);
      state ← host (h_status dep);
      depsNotRunning deps
        (if bool_decide (state ≠ Running) && negb (cc_IsInfra (ctr_config depCtr))
         then notRunning ++ [dep] else notRunning)
  end.

Definition checkDependenciesRunning : LM H (list string) := depsNotRunning (elements (config_deps config)) [].

Definition checkDependenciesAndHandleError : LM H () :=
  notRunning ← checkDependenciesRunning;
  when (notRunning ≠ []) ErrCtrStateInvalid.

(** [getAllDependencies]; [None] when the fuel runs out. *)
Fixpoint getAllDependencies (fuel : nat) (deps : list string) (visited : gmap string Container)
    : LM H (option (gmap string Container)) :=
  match fuel with
  | O => mret None
  | S fuel =>
      foldM (λ acc depID,
        match acc with
        | None => mret None
        | Some visited =>
            match visited !! depID with
            | Some _ => mret (Some visited)
            | None =>
                dep ← host (h_container depID);
                status ← host (h_status depID);
                if bool_decide (status = Running) then mret (Some visited)
                else getAllDependencies fuel (Dependencies dep) (<[depID := dep]> visited)
            end
        end) (Some visited) deps
  end.

(** [startDependencies]; the orders in which Go iterates over its maps are the
    host's.  Running out of fuel shows as [Blocked]. *)
Definition startDependencies (fuel : nat) : LM H () :=
  let deps := elements (config_deps config) in
  if decide (deps = []) then mret () else
  found ← getAllDependencies fuel deps ∅;
  match found with
  | None => throw Blocked
  | Some visited =>
      let depCtrs := omap (visited !!.) (h_order (elements (dom visited))) in
      match BuildContainerGraph (h_order (elements (dom visited))) (h_order (elements (dom visited))) depCtrs with
      | None => throw Blocked
      | Some (Err e) => throw e
      | Some (Ok graph) =>
          if decide (cg_noDepNodes graph = []) then
            if decide (cg_nodes graph = ∅) then mret () else throw ErrNoSuchCtr
          else λ w,
            match startGraph true graph (mkWalk ∅ [] [] ∅ None (l_host w)) with
            | None => (Err Blocked, w)
            | Some s => (if decide (wk_errors s = ∅) then Ok () else Err ErrInternal, l_set_host (wk_world s) w)
            end
      end
  end.

(** ** Storage *)

Definition markUnmounted : LM H () :=
  _ ← onState (λ s, cs_set_Mounted false (cs_set_Mountpoint "" s));
  saveIfValid.

(** The loop over the named volumes: the last error. *)
Fixpoint unmountVolumes (l : list ContainerNamedVolume) (err : option error) : LM H (option error) :=
  match l with
  | [] => mret err
  | v :: l =>
      e ← attempt (ask (RetrieveVolume (nv_Name v)));
      match e with
      | Some e => unmountVolumes l (Some e)
      | None =>
          e ← attempt (ask (UnmountVolume (nv_Name v)));
          unmountVolumes l (lastErr err e)
      end
  end.

Fixpoint unmountSHMs (l : list string) (err : option error) : LM H (option error) :=
  match l with
  | [] => mret err
  | m :: l => e ← attempt (ask (UnmountSHM m)); unmountSHMs l (lastErr err e)
  end.

Definition cleanupStorage : LM H () :=
  mounted ← getState cs_Mounted;
  if negb mounted then mret () else
  e ← (if cc_RootfsOverlay config then attempt (ask UnmountOverlay) else mret None);
  _ ← (match cc_RootfsMapping config with Some _ => ignore (ask UnmountRootfs) | None => mret () end);
  e ← unmountSHMs (cc_Mounts config) e;
  e' ← attempt (ask CleanupOverlayMounts);
  let e := lastErr e e' in
  if decide (cc_Rootfs config ≠ "") then
    e' ← attempt markUnmounted;
    report (lastErr e e')
  else
    e' ← attempt (ask UnmountImage);
    let e := match e' with
             | Some ErrNotAContainer | Some ErrContainerUnknown | Some ErrLayerNotMounted => e
             | _ => lastErr e e'
             end in
    e ← unmountVolumes (cc_NamedVolumes config) e;
    e' ← attempt markUnmounted;
    report (lastErr e e').

Definition teardownStorage : LM H () :=
  running ← ensureState [Running; Paused];
  _ ← failIf running ErrCtrStateInvalid;
  _ ← ask RemoveArtifacts;
  _ ← cleanupStorage;
  e ← attempt (ask DeleteStorage);
  match e with
  | Some ErrNotAContainer | Some ErrContainerUnknown => mret ()
  | e => report e
  end.

Definition mountStorage : LM H string :=
  mounted ← getState cs_Mounted;
  if mounted : bool then getState cs_Mountpoint else host h_mountStorage.

(** ** Network *)

(** [networkDisabled] of [container_linux.go] *)
Definition networkDisabled : bool :=
  if cc_CreateNetNS config then false
  else if cc_PostConfigureNetNS config then false
  else match list_find (λ ns, ns.1 = NetworkNamespace) (cc_SpecNamespaces config) with
       | Some (_, ns) => bool_decide (ns.2 = "")
       | None => false
       end.

Definition NetworkDisabled : LM H bool :=
  if decide (cc_NetNsCtr config ≠ "") then host (h_networkDisabled (cc_NetNsCtr config))
  else mret networkDisabled.

Definition cleanupNetwork : LM H () :=
  if decide (cc_NetNsCtr config ≠ "") then mret () else
  netDisabled ← NetworkDisabled;
  if netDisabled : bool then mret () else
  netNS ← getState cs_NetNS;
  if decide (netNS = "") then mret () else
  _ ← ignore (ask TeardownNetNS);
  _ ← onState (λ s, cs_set_NetworkStatusOld [] (cs_set_NetworkStatus ∅ (cs_set_NetNS "" s)));
  saveIfValid.

Definition completeNetworkSetup : LM H () :=
  netDisabled ← NetworkDisabled;
  if negb (cc_PostConfigureNetNS config) || netDisabled then mret () else
  _ ← syncContainer;
  _ ← ask SetupNetNS;
  _ ← save;
  ask UpdateHosts.

Definition IsSlirp4netns (n : string) : bool :=
  bool_decide (n = "slirp4netns") || String.prefix "slirp4netns:" n.

Definition setupRootlessNetwork : LM H () :=
  _ ← (if IsSlirp4netns (cc_NetMode config) then ask SetupSlirp4netns else mret ());
  if decide (h_rootless = true ∧ IsBridge (cc_NetMode config) = true ∧ cc_PortMappings config ≠ [])
  then ask SetupRootlessPorts else mret ().

(** ** Preparation *)

(** The network namespace and the storage are set up by two goroutines, which
    write different fields. *)
Definition prepare : LM H () :=
  netNS ← getState cs_NetNS;
  createNetNSErr ←
    (if cc_CreateNetNS config && bool_decide (netNS = "") && negb (cc_PostConfigureNetNS config) then
       attempt (r ← host h_createNetNS;
                onState (λ s, cs_set_NetworkStatus r.2 (cs_set_NetNS r.1 s)))
     else mret None);
  mountStorageErr ←
    attempt (mountPoint ← mountStorage;
             onState (λ s, cs_set_Mountpoint mountPoint (cs_set_Mounted true s)));
  let createErr := lastErr createNetNSErr mountStorageErr in
  createErr ←
    (if decide (createNetNSErr ≠ None ∧ mountStorageErr = None) then
       e ← attempt cleanupStorage; mret (lastErr createErr e)
     else mret createErr);
  createErr ←
    (if decide (createErr ≠ None) then e ← attempt cleanupNetwork; mret (lastErr createErr e)
     else mret createErr);
  _ ← report createErr;
  save.

(** ** The OCI runtime *)

(** [removeConmonFiles]: a file that does not exist counts as removed. *)
Definition removeConmonFiles : LM H () :=
  forM_ ["attach"; "ctl"; "winsz"; "oom"; "exit"] (λ f, ask (RemoveFile f)).

(** [r.DeleteContainer] *)
Definition DeleteContainer : LM H () := ask RuntimeDelete.

(** [createOCIContainer]: when conmon reports a failure, the container is deleted, and a
    failure of that is only logged.  What it leaves in the container's state are the
    PIDs. *)
Definition CreateContainer : LM H () :=
  _ ← noted Created;
  r ← host' h_create;
  match r with
  | NotCreated e => throw e
  | PipeFailed e => _ ← ignore DeleteContainer; throw e
  | CreatedAs pid conmonPID =>
      _ ← onState (cs_set_PID pid);
      if decide (0 < conmonPID)%Z then onState (cs_set_ConmonPID conmonPID) else mret ()
  end.

Definition StartContainer : LM H () :=
  _ ← ask RuntimeStart;
  t ← now;
  onState (cs_set_StartedTime t).

Definition runtimeStatus (status : string) : option ContainerStatus :=
  if decide (status = "created") then Some Created_
  else if decide (status = "paused") then Some Paused
  else if decide (status = "running") then Some Running
  else if decide (status = "stopped") then Some Stopped
  else None.

Definition UpdateContainerStatus : LM H () :=
  oldState ← gets status;
  out ← host' h_state;
  match out with
  | RuntimeError => throw ErrOCIRuntime
  | RuntimeGone =>
      _ ← ignore removeConmonFiles;
      _ ← onState (cs_set_ExitCode (-1));
      t ← now;
      _ ← onState (λ s, cs_set_State Exited (cs_set_FinishedTime t s));
      ask (AddContainerExitCode (-1))
  | RuntimeStatus pid st =>
      _ ← onState (cs_set_PID pid);
      match runtimeStatus st with
      | None => throw ErrInternal
      | Some st =>
          setStatus (if bool_decide (oldState = Stopping ∧ st ∈ [Paused; Running]) then Stopping else st)
      end
  end.

Definition KillContainer (signal : Z) (all : bool) : LM H () :=
  e ← attempt (ask (RuntimeKill signal all));
  match e with
  | None => mret ()
  | Some e =>
      _ ← ignore UpdateContainerStatus;
      gone ← ensureState [Stopped; Exited];
      if gone : bool then throw ErrCtrStateInvalid else throw e
  end.

Definition pingPID : LM H ping := pid ← getState cs_PID; host' (h_ping pid).

Definition waitContainerStop (timeout : Z) : LM H () :=
  pid ← getState cs_PID;
  dead ← host' (h_waitPid pid timeout);
  failIf (negb dead) ErrText.

(** The error of [unix.Kill] as an error of the function. *)
Definition pingErr (p : ping) : LM H () :=
  match p with PingErr => throw ErrHost | _ => mret () end.

(** The last part of [StopContainer]: [SIGKILL]. *)
Definition stopWithKill (all : bool) : LM H () :=
  e ← attempt (KillContainer SIGKILL all);
  match e with
  | None => waitContainerStop killContainerTimeout
  | Some e =>
      gone ← ensureState [Stopped; Exited];
      if bool_decide (e = ErrCtrStateInvalid) && gone then mret () else
      pid ← getState cs_PID;
      if decide (pid = 0%Z) then mret () else
      p ← pingPID;
      match p with ESRCH => mret () | _ => throw e end
  end.

(** When the stop signal cannot be sent, the function returns the error of the ping
    that follows, which shadows the first one. *)
Definition StopContainer (timeout : Z) (all : bool) : LM H () :=
  p ← pingPID;
  match p with
  | ESRCH => mret ()
  | _ =>
      if decide (0 < timeout)%Z then
        let stopSignal := if decide (cc_StopSignal config = 0%Z) then SIGTERM else cc_StopSignal config in
        e ← attempt (KillContainer stopSignal all);
        match e with
        | Some _ => p ← pingPID; match p with ESRCH => mret () | _ => pingErr p end
        | None =>
            e ← attempt (waitContainerStop timeout);
            match e with
            | None => mret ()
            | Some _ => stopWithKill all
            end
        end
      else stopWithKill all
  end.

Definition CheckConmonRunning : LM H bool :=
  pid ← getState cs_ConmonPID;
  if decide (pid = 0%Z) then ensureState [Running; Paused]
  else p ← host' (h_ping pid);
       match p with
       | Alive => mret true
       | ESRCH => mret false
       | PingErr => throw ErrHost
       end.

Definition deleteContainer : LM H () := _ ← DeleteContainer; ask PostDeleteHooks.

(** ** Initialisation *)

(** The assignments of [init] after the container was created. *)
Definition initState (retainRetries : bool) (s : ContainerState) : ContainerState :=
  let s := cs_set_Restored false (cs_set_Checkpointed false s) in
  let s := cs_set_RestoredTime 0 (cs_set_CheckpointedTime 0 s) in
  let s := cs_set_RestoreLog "" (cs_set_CheckpointLog "" (cs_set_CheckpointPath "" s)) in
  let s := cs_set_State Created_ (cs_set_Exited false (cs_set_ExitCode 0 s)) in
  let s := cs_set_RestartPolicyMatch false (cs_set_StoppedByUser false s) in
  let s := cs_set_StartupHCPassed false (cs_set_StartupHCSuccessCount 0 (cs_set_StartupHCFailureCount 0 s)) in
  if retainRetries then s else cs_set_RestartCount 0 s.

(** [state.RemoveContainerExecSessions] *)
Definition removeExecSessions : LM H () :=
  v ← gets l_valid;
  _ ← failIf (negb v) ErrCtrRemoved;
  ask RemoveContainerExecSessions.

Definition createHealthTimer : LM H () :=
  match cc_HealthCheckTest config with
  | None => mret ()
  | Some _ => ignore (ask (CreateTimer (cc_StartupHealthCheck config)))
  end.

Definition init (retainRetries : bool) : LM H () :=
  _ ← removeConmonFiles;
  _ ← ask GenerateSpec;
  _ ← ask ResolveWorkDir;
  _ ← ask SaveSpec;
  _ ← forM_ (cc_NamedVolumes config) (λ v, ask (FixVolumePermissions (nv_Name v)));
  _ ← CreateContainer;
  sessions ← getState cs_ExecSessions;
  _ ← (if decide (sessions = ∅) then mret ()
       else _ ← ignore removeExecSessions; onState (cs_set_ExecSessions ∅));
  _ ← onState (initState retainRetries);
  _ ← ignore (ask RemoveHealthCheckLog);
  _ ← save;
  _ ← createHealthTimer;
  finally completeNetworkSetup (noted (Event "init")).

Definition cleanupRuntime : LM H () :=
  known ← ensureState [Stopped; Created_];
  if negb known then mret () else
  _ ← checkExitFile;
  _ ← removeConmonFiles;
  _ ← deleteContainer;
  _ ← onState (λ s, if decide (cs_State s = Stopped) then cs_set_State Exited s
                    else if decide (cs_State s = Created_) then cs_set_State Configured s else s);
  saveIfValid.

Definition reinit (retainRetries : bool) : LM H () :=
  _ ← cleanupRuntime;
  init retainRetries.

(** [if state == Stopped { reinit } else if state is Configured or Exited { init }],
    which six methods share *)
Definition initIfNeeded (retainRetries : bool) : LM H () :=
  stopped ← ensureState [Stopped];
  if stopped : bool then reinit retainRetries else
  fresh ← ensureState [Configured; Exited];
  if fresh : bool then init retainRetries else mret ().

Definition start : LM H () :=
  _ ← StartContainer;
  _ ← setStatus Running;
  _ ← (if decide (cc_SdNotifyMode config = "ignore") then mret () else ignore (ask SdNotify));
  _ ← (match cc_HealthCheckTest config with
       | None => mret ()
       | Some test =>
           if decide (test = ["NONE"]) then mret () else
           _ ← ignore (ask UpdateHealthStatus);
           ignore (ask (StartTimer (cc_StartupHealthCheck config)))
       end);
  finally save (noted (Event "start")).

(** ** Cleaning up *)

Definition stopPodIfNeeded : LM H () :=
  if decide (cc_Pod config = "") then mret () else
  pod ← host h_pod;
  if decide (pod.2 = PodExitPolicyStop) then noted QueuedPodStop else mret ().

(** When an image is not found and there was an error before, the loop goes on with a
    nil image. *)
Fixpoint unmountImageVolumes (l : list string) (err : option error) : LM H (option error) :=
  match l with
  | [] => mret err
  | v :: l =>
      e ← attempt (ask (LookupImage v));
      match e, err with
      | Some e, None => unmountImageVolumes l (Some e)
      | _, _ =>
          _ ← (if decide (e = None) then mret () else nilPointer);
          e ← attempt (ask (UnmountImageVolume v));
          unmountImageVolumes l (firstErr err e)
      end
  end.

Definition removeTimers : LM H () :=
  match cc_HealthCheckTest config with
  | None => mret ()
  | Some _ =>
      passed ← getState cs_StartupHCPassed;
      ignore (ask (RemoveTransientFiles (cc_StartupHealthCheck config && negb passed)))
  end.

Definition cleanup : LM H () :=
  _ ← removeTimers;
  err ← attempt cleanupNetwork;
  _ ← (if decide (cc_NetNsCtr config = "") then mret () else ignore (ask RemoveHostsEntry));
  e ← attempt cleanupRuntime;
  let err := firstErr err e in
  e ← attempt cleanupStorage;
  let err := firstErr err e in
  err ← unmountImageVolumes (cc_ImageVolumes config) err;
  e ← attempt stopPodIfNeeded;
  let err := firstErr err e in
  e ← attempt (ask PruneContainerExitCodes);
  report (firstErr err e).

(** ** Stopping, pausing, restarting *)

Definition waitForConmonToExitAndSave : LM H () :=
  conmonAlive ← CheckConmonRunning;
  if negb conmonAlive then _ ← checkExitFile; save
  else _ ← save; waitForExitFileAndSync.

(** Whether all processes of the container are to be signalled. *)
Definition hasNamespace (ns : string) : bool := bool_decide (ns ∈ (cc_SpecNamespaces config).*1).

Definition stopAll : LM H bool :=
  if hasNamespace PIDNamespace then mret false
  else if cc_NoCgroups config then mret false
  else if h_rootless then host h_cgroup2
  else mret true.

Definition goneErr (e : error) : bool := bool_decide (e = ErrNoSuchCtr ∨ e = ErrCtrRemoved).

Definition stop (timeout : Z) : LM H () :=
  all ← stopAll;
  _ ← onState (λ s, cs_set_State Stopping (cs_set_StoppedByUser true s));
  _ ← save;
  _ ← (if batched then mret () else Unlock);
  stopErr ← attempt (StopContainer timeout all);
  synced ← (if batched then mret None else _ ← Lock AfterStop; attempt syncContainer);
  match synced with
  | Some e =>
      if goneErr e then _ ← setStatus Stopped; report stopErr
      else throw (default e stopErr)
  | None =>
      _ ← report stopErr;
      stopping ← ensureState [Stopping];
      if negb stopping then mret () else
      _ ← noted (Event "stop");
      waitForConmonToExitAndSave
  end.

Definition checkCgroups : LM H () :=
  _ ← failIf (cc_NoCgroups config) ErrNoCgroups;
  if h_rootless then cgroupv2 ← host h_cgroup2; failIf (negb cgroupv2) ErrNoCgroups
  else mret ().

Definition pause : LM H () :=
  _ ← checkCgroups;
  _ ← ask RuntimePause;
  _ ← setStatus Paused;
  save.

Definition unpause : LM H () :=
  _ ← failIf (cc_NoCgroups config) ErrNoCgroups;
  _ ← ask RuntimeResume;
  _ ← setStatus Running;
  save.

(** The part of [restartWithTimeout] that stops a running container. *)
Definition stopForRestart (timeout : Z) : LM H () :=
  running ← ensureState [Running];
  if negb running then mret () else
  conmonPID ← getState cs_ConmonPID;
  _ ← stop timeout;
  _ ← removeTimers;
  _ ← (if decide (conmonPID = 0%Z) then mret () else ignore (ask (KillConmon conmonPID)));
  cleanupNetwork.

Definition restartWithTimeout (timeout : Z) : LM H () :=
  ok ← ensureState [Configured; Created_; Running; Stopped; Exited];
  _ ← failIf (negb ok) ErrCtrStateInvalid;
  _ ← noted (Event "restart");
  _ ← stopForRestart timeout;
  onError (_ ← prepare; _ ← initIfNeeded false; start) (ignore cleanup).

Definition initAndStart : LM H () :=
  bad ← ensureState [Unknown; Removing];
  _ ← failIf bad ErrCtrStateInvalid;
  running ← ensureState [Running];
  if running : bool then mret () else
  paused ← ensureState [Paused];
  _ ← failIf paused ErrCtrStateInvalid;
  onError (_ ← prepare; _ ← initIfNeeded false; start) (ignore cleanup).

Definition prepareToStart (fuel : nat) (recursive : bool) : LM H () :=
  ok ← ensureState [Configured; Created_; Stopped; Exited];
  _ ← failIf (negb ok) ErrCtrStateInvalid;
  _ ← (if recursive then startDependencies fuel else checkDependenciesAndHandleError);
  onError (_ ← prepare; initIfNeeded false) (ignore cleanup).

(** ** The restart policy *)

Definition shouldRestart (s : ContainerState) : bool :=
  if negb (cs_RestartPolicyMatch s) || bool_decide (cc_RestartPolicy config = RestartPolicyNo) ||
     bool_decide (cc_RestartPolicy config = RestartPolicyNone) then false
  else if bool_decide (cc_RestartPolicy config = RestartPolicyOnFailure) then
    if bool_decide (cs_ExitCode s = 0%Z) then false
    else negb ((0 <? cc_RestartRetries config)%Z && (cc_RestartRetries config <=? cs_RestartCount s)%Z)
  else true.

Definition handleRestartPolicy : LM H bool :=
  should ← getState shouldRestart;
  if negb should then mret false else
  _ ← checkDependenciesAndHandleError;
  running ← ensureState [Running; Paused];
  if running : bool then mret false else
  unknown ← ensureState [Unknown];
  _ ← failIf unknown ErrInternal;
  _ ← noted (Event "restart");
  _ ← onState (λ s, cs_set_RestartCount (uint64 (cs_RestartCount s + 1)) s);
  _ ← save;
  onError (_ ← prepare;
           _ ← setupRootlessNetwork;
           _ ← initIfNeeded true;
           _ ← start;
           mret true) (ignore cleanup).

(** ** Exec sessions *)

Definition getKnownExecSessions (s : ContainerState) : list string :=
  elements (dom (cs_LegacyExecSessions s)) ++
  elements (dom (filter (λ kv, es_State kv.2 = ExecStateRunning) (cs_ExecSessions s))).

(** The session was found dead. *)
Definition buryExecSession (id : string) (exitCode : Z) (s : ContainerState) : ContainerState :=
  cs_set_ExecSessions (alter (λ e, mkExecSession (es_Id e) (es_ContainerId e) ExecStateStopped 0 exitCode (es_Config e))
                         id (cs_ExecSessions s)) s.

Definition getExecSessionPID (id : string) : LM H Z :=
  s ← gets l_state;
  match cs_ExecSessions s !! id, cs_LegacyExecSessions s !! id with
  | Some session, _ => mret (es_PID session)
  | None, Some oldSession => mret (h_legacyPID oldSession)
  | None, None => throw ErrNoSuchExecSession
  end.

(** Whether the session is still running *)
Definition ExecUpdateStatus (id : string) : LM H bool :=
  pid ← getExecSessionPID id;
  p ← host' (h_ping pid);
  match p with
  | ESRCH => mret false
  | PingErr => throw ErrHost
  | Alive => mret true
  end.

(** [unix.Kill]; the answer is whether there was such a process. *)
Definition signalPID (pid signal : Z) : LM H bool :=
  p ← host' (h_signal pid signal);
  match p with
  | ESRCH => mret false
  | PingErr => throw ErrHost
  | Alive => mret true
  end.

(** The second signal is [SIGTERM] too. *)
Definition ExecStopContainer (id : string) (timeout : Z) : LM H () :=
  pid ← getExecSessionPID id;
  p ← host' (h_ping pid);
  match p with
  | ESRCH => mret ()
  | PingErr => throw ErrHost
  | Alive =>
      dead ← (if decide (0 < timeout)%Z then
                found ← signalPID pid SIGTERM;
                if found : bool then host' (h_waitPid pid timeout) else mret true
              else mret false);
      if dead : bool then mret () else
      found ← signalPID pid SIGTERM;
      if negb found then mret () else
      dead ← host' (h_waitPid pid killContainerTimeout);
      failIf (negb dead) ErrText
  end.

(** [cleanupExecBundle]: while the directory of the session cannot be removed because it
    is in use, the state is saved and the lock is given back for a while, up to 50
    times.  When the state cannot be saved or read again, the function returns with
    the lock held.  [err] is the error of the last attempt. *)
Fixpoint removeExecBundle (attempts : nat) (id : string) (err : option error) : LM H () :=
  match attempts with
  | O => report err
  | S attempts =>
      e ← attempt (ask (RemoveExecBundle id));
      match e with
      | None | Some ErrNotExist => mret ()
      | Some ErrNotEmpty =>
          _ ← (if batched then mret () else _ ← save; Unlock);
          _ ← (if batched then mret () else _ ← Lock AfterSleep; syncContainer);
          removeExecBundle attempts id (Some ErrNotEmpty)
      | Some e => throw e
      end
  end.

Definition cleanupExecBundle (id : string) : LM H () := removeExecBundle 50 id None.

(** One iteration of [getActiveExecSessions]: the active sessions, the last error and
    whether the state has to be saved.  The session is looked up again in the state,
    which [cleanupExecBundle] may have read again for another session. *)
Definition checkExecSession (acc : list string * option error * bool) (id : string)
    : LM H (list string * option error * bool) :=
  let '(active, err, needSave) := acc in
  alive ← caught (ExecUpdateStatus id);
  match alive with
  | Err e => mret (active, Some e, needSave)
  | Ok true => mret (active ++ [id], err, needSave)
  | Ok false =>
      legacy ← getState (λ s, bool_decide (id ∈ dom (cs_LegacyExecSessions s)));
      err ← (if legacy : bool then
               _ ← onState (λ s, cs_set_LegacyExecSessions (delete id (cs_LegacyExecSessions s)) s);
               mret err
             else
               code ← caught (host (h_execExitCode id));
               _ ← onState (buryExecSession id (match code with Ok c => c | Err _ => -1 end));
               _ ← noted (Event "exec_died");
               mret (match code with Ok _ => err | Err e => Some e end));
      e ← attempt (cleanupExecBundle id);
      mret (active, lastErr err e, true)
  end.

Definition getActiveExecSessions : LM H (list string) :=
  known ← getState getKnownExecSessions;
  r ← foldM checkExecSession ([], None, false) known;
  let '(active, err, needSave) := r in
  e ← (if needSave : bool then attempt save else mret None);
  _ ← report (lastErr err e);
  mret active.

Fixpoint stopExecSessions (l : list string) (err : option error) : LM H (option error) :=
  match l with
  | [] => mret err
  | id :: l =>
      e ← attempt (ExecStopContainer id (cc_StopTimeout config));
      match e with
      | Some e => stopExecSessions l (Some e)
      | None => e ← attempt (cleanupExecBundle id); stopExecSessions l (lastErr err e)
      end
  end.

Definition removeAllExecSessions : LM H () :=
  known ← getState getKnownExecSessions;
  err ← stopExecSessions known None;
  e ← attempt removeExecSessions;
  _ ← onState (λ s, cs_set_LegacyExecSessions ∅ (cs_set_ExecSessions ∅ s));
  report (match e with Some ErrCtrRemoved => err | _ => lastErr err e end).
End ops.
