(* ===== verification/LifeApi.v ===== *)
(** * LifeApi: the life cycle of a container, the interface

    The methods of [libpod/container_api.go] that change a container, and
    [Runtime.removeContainer] ([libpod/runtime_ctr.go]).  Each of them takes the
    lock, synchronises the handle with the database and gives the lock back when it
    returns, unless it is part of a batch ([c.batched]). *)

From S2P Require Import Prelude Define Ports Strconv Graph Life LifeOps.

Section api.
Context {H : Type} `{Host H} (config : ContainerConfig) (batched : bool).

(** The first lines of most methods. *)
Definition locked {A} (body : LM H A) : LM H A :=
  if batched then body
  else _ ← Lock AtCall; finally (_ ← syncContainer config; body) Unlock.

Definition saveContainerError (e : error) : LM H () :=
  _ ← onState (cs_set_Error (h_errorText e));
  save.

(** The deferred function of [Start], [StartAndAttach] and [StopWithTimeout]: it takes
    the lock again, and saves the state as it was when the lock was given back. *)
Definition savingError {A} (m : LM H A) : LM H A := λ w,
  match m w with
  | (Ok a, w') => (Ok a, w')
  | (Err e, w') =>
      let '(_, w'') :=
        (if batched then ignore (saveContainerError e)
         else _ ← Lock AfterError; finally (ignore (saveContainerError e)) Unlock) w' in
      (Err e, w'')
  end.

(** ** Starting *)

Definition Init (fuel : nat) (recursive : bool) : LM H () :=
  locked (
    ok ← ensureState [Configured; Stopped; Exited];
    _ ← failIf (negb ok) ErrCtrStateInvalid;
    _ ← (if recursive then startDependencies config fuel else checkDependenciesAndHandleError config);
    _ ← onError (prepare config) (ignore (cleanup config));
    stopped ← ensureState [Stopped];
    if stopped : bool then reinit config false else init config false).

Definition Start (fuel : nat) (recursive : bool) : LM H () :=
  savingError (locked (
    _ ← prepareToStart config fuel recursive;
    start config)).

Definition StartAndAttach (fuel : nat) (recursive : bool) : LM H () :=
  savingError (locked (
    _ ← prepareToStart config fuel recursive;
    _ ← ask AttachSocket;
    _ ← start config;
    noted (Event "attach"))).

Definition RestartWithTimeout (timeout : Z) : LM H () :=
  locked (
    _ ← checkDependenciesAndHandleError config;
    restartWithTimeout config batched timeout).

(** ** Stopping *)

Definition StopWithTimeout (timeout : Z) : LM H () :=
  savingError (locked (
    stopped ← ensureState [Stopped; Exited];
    _ ← failIf stopped ErrCtrStopped;
    ok ← ensureState [Created_; Running; Stopping];
    _ ← failIf (negb ok) ErrCtrStateInvalid;
    stop config batched timeout)).

Definition Stop : LM H () := StopWithTimeout (cc_StopTimeout config).

Definition Kill (signal : Z) : LM H () :=
  locked (
    ok ← ensureState [Running; Stopping; Paused];
    _ ← failIf (negb ok) ErrCtrStateInvalid;
    _ ← KillContainer signal false;
    _ ← onState (cs_set_StoppedByUser true);
    _ ← noted (Event "kill");
    if decide (signal = SIGKILL) then waitForConmonToExitAndSave else mret ()).

Definition Pause : LM H () :=
  locked (
    paused ← ensureState [Paused];
    _ ← failIf paused ErrCtrStateInvalid;
    running ← ensureState [Running];
    _ ← failIf (negb running) ErrCtrStateInvalid;
    finally (pause config) (noted (Event "pause"))).

Definition Unpause : LM H () :=
  locked (
    paused ← ensureState [Paused];
    _ ← failIf (negb paused) ErrCtrStateInvalid;
    finally (unpause config) (noted (Event "unpause"))).

(** ** Attaching, mounting *)

(** The goroutine of [Attach]: the terminal is attached, and its size is reported.  It
    takes the lock in a batch too, but there it waits for the end of the batch. *)
Definition signalAttached : LM H () :=
  _ ← Lock AtReady;
  finally (ignore (KillContainer SIGWINCH false)) Unlock.

(** [passthrough]: the log driver is [passthrough]; [terminal]: [c.Terminal()].  The
    goroutine runs when [AttachReady] is signalled, while the streams are copied; in
    a batch it runs after the batch, and is not part of the call. *)
Definition Attach (passthrough terminal : bool) : LM H () :=
  _ ← failIf passthrough ErrNoLogs;
  _ ← (if batched then mret ()
       else _ ← Lock AtCall; finally (syncContainer config) Unlock);
  ok ← ensureState [Created_; Running];
  _ ← failIf (negb ok) ErrCtrStateInvalid;
  _ ← noted (Event "attach");
  _ ← ask AttachSocket;
  _ ← (if terminal && negb batched then signalAttached else mret ());
  ask AttachStdio.

Definition AttachResize : LM H () :=
  locked (
    ok ← ensureState [Created_; Running];
    _ ← failIf (negb ok) ErrCtrStateInvalid;
    ask AttachResize_).

Definition Mount : LM H () :=
  locked (finally (
    removing ← ensureState [Removing];
    _ ← failIf removing ErrCtrStateInvalid;
    ask MountImage) (noted (Event "mount"))).

Definition Unmount : LM H () :=
  locked (
    mounted ← getState cs_Mounted;
    _ ← (if mounted : bool then
           n ← host h_mountedImage;
           if decide (n = 1%Z) then
             running ← ensureState [Running; Paused];
             _ ← failIf running ErrCtrStateInvalid;
             sessions ← getActiveExecSessions config batched;
             _ ← when (sessions ≠ []) ErrCtrStateInvalid;
             throw ErrInternal
           else mret ()
         else mret ());
    finally (ask UnmountImage) (noted (Event "unmount"))).

Definition Export : LM H () :=
  locked (
    removing ← ensureState [Removing];
    _ ← failIf removing ErrCtrStateInvalid;
    finally (ask ExportImage) (noted (Event "mount"))).

Definition ReloadNetwork : LM H () :=
  locked (
    ok ← ensureState [Created_; Running];
    _ ← failIf (negb ok) ErrCtrStateInvalid;
    _ ← ask ReloadContainerNetwork;
    _ ← modify (λ w, l_set_state (cs_set_NetworkStatus (h_networkStatus (l_host w)) (l_state w)) w);
    save).

(** ** Synchronisation *)

Definition Sync : LM H () :=
  if batched then _ ← syncContainer config; noted (Event "sync")
  else _ ← Lock AtCall; finally (_ ← syncContainer config; noted (Event "sync")) Unlock.

Definition State : LM H ContainerStatus := locked (gets status).

Definition ShouldRestart : LM H bool :=
  r ← caught (locked (getState (shouldRestart config)));
  mret (match r with Ok b => b | Err _ => false end).

(** [c.refresh], after a reboot; [userNS]: the container has a user namespace of its
    own. *)
Definition refresh (userNS : bool) : LM H () :=
  _ ← UpdateContainer;
  v ← gets l_valid;
  _ ← failIf (negb v) ErrCtrRemoved;
  dir ← host h_runDir;
  _ ← onState (cs_set_RunDir dir);
  _ ← (if userNS then ask CreateUserNsRoot else mret ());
  _ ← ask AllocateLock;
  _ ← onState (λ s, cs_set_NetworkStatusOld [] (cs_set_NetworkStatus ∅ s));
  _ ← (if cc_rewrite config then ask SafeRewriteConfig else mret ());
  _ ← save;
  removeConmonFiles.

(** ** Cleaning up *)

Definition cleanupStates : list ContainerStatus := [Configured; Created_; Stopped; Stopping; Exited].

Definition cleanupBody : LM H () :=
  ok ← ensureState cleanupStates;
  _ ← failIf (negb ok) ErrCtrStateInvalid;
  didRestart ← handleRestartPolicy config;
  if didRestart : bool then mret () else
  _ ← (if hasNamespace config PIDNamespace then mret () else ignore (KillContainer SIGKILL true));
  sessions ← getActiveExecSessions config batched;
  _ ← when (sessions ≠ []) ErrCtrStateInvalid;
  finally (cleanup config) (noted (Event "cleanup")).

Definition Cleanup : LM H () :=
  if batched then cleanupBody
  else _ ← Lock AtCall;
       finally (e ← attempt (syncContainer config);
                match e with
                | Some e => if goneErr e then cleanupRuntime else throw e
                | None => cleanupBody
                end) Unlock.

(** ** Removal *)

Definition checkReadyForRemoval : LM H () :=
  unknown ← ensureState [Unknown];
  _ ← failIf unknown ErrCtrStateInvalid;
  running ← ensureState [Running; Paused; Stopping];
  _ ← failIf (running && negb (cc_IsInfra config)) ErrCtrStateInvalid;
  sessions ← getActiveExecSessions config batched;
  when (sessions ≠ []) ErrCtrStateInvalid.

(** A paused container is killed. *)
Definition killPaused : LM H () :=
  paused ← ensureState [Paused];
  if negb paused then mret () else
  isV2 ← host h_cgroup2;
  _ ← (if isV2 : bool then mret () else unpause config);
  _ ← KillContainer 9 false;
  waitForExitFileAndSync.

(** A running container is stopped; the answer is whether the container still
    exists afterwards. *)
Definition stopForRemoval (timeout : option Z) : LM H bool :=
  running ← ensureState [Running; Stopping];
  if negb running then mret true else
  e ← attempt (stop config batched (default (cc_StopTimeout config) timeout));
  _ ← (match e with Some ErrConmonDead => mret () | e => report e end);
  hasContainer.

(** The part of [removeContainer] that goes on after errors; the first one is
    returned. *)
Definition tearDown (removeVolume : bool) : LM H () :=
  err ← attempt (cleanup config);
  e ← attempt (removeAllExecSessions config batched);
  let err := firstErr err e in
  _ ← setStatus Removing;
  e ← attempt save;
  let err := firstErr err (match e with Some ErrCtrRemoved => None | e => e end) in
  e ← attempt (teardownStorage config);
  let err := firstErr err e in
  e ← (match cc_CIDFile config with Some f => attempt (ask (RemoveCIDFile f)) | None => mret None end);
  let err := firstErr err e in
  e ← attempt removeRow;
  let err := firstErr err e in
  e ← attempt (ask FreeLock);
  let err := firstErr err (match e with Some ErrNotExist => None | e => e end) in
  _ ← modify (l_set_valid false);
  _ ← noted (Event "remove");
  _ ← (if removeVolume then forM_ (cc_NamedVolumes config) (λ v, ignore (ask (RemoveVolume (nv_Name v))))
       else mret ());
  report err.

Definition removeLocked (force removeVolume ignoreDeps : bool) (timeout : option Z) : LM H () :=
  _ ← syncContainer config;
  _ ← (if cc_IsService config then ask CheckServicePods else mret ());
  _ ← (if force then mret () else checkReadyForRemoval);
  _ ← killPaused;
  _ ← (if ignoreDeps then mret () else deps ← host h_inUse; when (deps ≠ []) ErrCtrExists);
  exists_ ← stopForRemoval timeout;
  if negb exists_ then cleanupRuntime else tearDown removeVolume.

(** [defer pod.lock.Unlock()] *)
Definition lockingPod (body : LM H ()) : LM H () :=
  _ ← ask LockPod;
  finally (
    infraID ← host h_updatePod;
    _ ← when (cc_ID config = infraID) ErrText;
    body) (ask UnlockPod).

(** [removePod]: the pod is removed, its lock and the container's are held by the
    caller.  [rtValid]: the runtime is not shut down. *)
Definition removeContainer (rtValid force removeVolume removePod ignoreDeps : bool) (timeout : option Z) : LM H () :=
  v ← gets l_valid;
  known ← (if v : bool then mret true else hasContainer);
  if negb known then mret () else
  _ ← ask GetContainerConfig;
  let body :=
    if removePod then
      _ ← failIf (negb rtValid) ErrRuntimeStopped;
      removeLocked force removeVolume ignoreDeps timeout
    else
      _ ← Lock AtCall;
      finally (_ ← failIf (negb rtValid) ErrRuntimeStopped;
               removeLocked force removeVolume ignoreDeps timeout) Unlock in
  if decide (cc_Pod config = "") then body else
  pod ← caught (host h_pod);
  match pod with
  | Err e => _ ← nilPointer; throw e
  | Ok (lockID, _) =>
      if removePod then body
      else
        _ ← when (lockID = cc_LockID config) ErrWillDeadlock;
        lockingPod body
  end.
End api.
