(* ===== verification/LifeHoare.v ===== *)
(** * LifeHoare: reasoning about the life cycle

    [pres I m]: the computation [m] keeps [I], whatever it returns.  [hoare P m Q]:
    from a world that satisfies [P], [m] ends with a result and a world that satisfy
    [Q].  The rules of [pres] are hints, so that an invariant of all operations is
    proved from the few that touch what it speaks of. *)

From S2P Require Import Prelude Define Ports Strconv Graph Life LifeOps LifeApi.

Section pres.
Context {H : Type} `{Host H}.
Implicit Types (I : LWorld H → Prop).

Definition pres {A} I (m : LM H A) : Prop := ∀ w r w', I w → m w = (r, w') → I w'.

Definition hoare {A} (P : LWorld H → Prop) (m : LM H A) (Q : result error A → LWorld H → Prop) : Prop :=
  ∀ w r w', P w → m w = (r, w') → Q r w'.

(** ** Invariants *)

Lemma pres_ret {A} I (a : A) : pres I (mret a).
Proof. by intros w r w' Hw [= _ <-]. Qed.

Lemma pres_throw {A} I e : pres I (throw e : LM H A).
Proof. by intros w r w' Hw [= _ <-]. Qed.

Lemma pres_gets {A} I (f : LWorld H → A) : pres I (gets f).
Proof. by intros w r w' Hw [= _ <-]. Qed.

Lemma pres_lift {A} I (x : result error A) : pres I (lift x).
Proof. by intros w r w' Hw [= _ <-]. Qed.

Lemma pres_failIf I b e : pres I (failIf b e : LM H ()).
Proof. destruct b; [apply pres_throw|apply pres_ret]. Qed.

Lemma pres_modify I f : (∀ w, I w → I (f w)) → pres I (modify f).
Proof. intros Hf w r w' Hw [= _ <-]. by apply Hf. Qed.

Lemma pres_bind {A B} I (m : LM H A) (f : A → LM H B) :
  pres I m → (∀ a, pres I (f a)) → pres I (m ≫= f).
Proof.
  intros Hm Hf w r w' Hw Hr. unfold mbind, st_bind in Hr.
  destruct (m w) as [[a|e] w1] eqn:Hm1; [|injection Hr as _ <-; by eapply Hm].
  eapply Hf; [|exact Hr]. by eapply Hm.
Qed.

Lemma pres_attempt {A} I (m : LM H A) : pres I m → pres I (attempt m).
Proof. intros Hm w r w' Hw. unfold attempt. destruct (m w) as [x w1] eqn:Hm1. intros [= _ <-]. by eapply Hm. Qed.

Lemma pres_caught {A} I (m : LM H A) : pres I m → pres I (caught m).
Proof. intros Hm w r w' Hw. unfold caught. destruct (m w) as [x w1] eqn:Hm1. intros [= _ <-]. by eapply Hm. Qed.

Lemma pres_ignore {A} I (m : LM H A) : pres I m → pres I (ignore m).
Proof. intros Hm. apply pres_bind; [by apply pres_attempt|intros _; apply pres_ret]. Qed.

Lemma pres_report I e : pres I (report e : LM H ()).
Proof. destruct e; [apply pres_throw|apply pres_ret]. Qed.

Lemma pres_onError {A} I (m : LM H A) f : pres I m → pres I f → pres I (onError m f).
Proof.
  intros Hm Hf w r w' Hw. unfold onError. destruct (m w) as [[a|e] w1] eqn:Hm1.
  - intros [= _ <-]. by eapply Hm.
  - destruct (f w1) as [x w2] eqn:Hf1. intros [= _ <-]. eapply Hf; [|exact Hf1]. by eapply Hm.
Qed.

Lemma pres_finally {A} I (m : LM H A) f : pres I m → pres I f → pres I (finally m f).
Proof.
  intros Hm Hf w r w' Hw. unfold finally. destruct (m w) as [x w1] eqn:Hm1.
  destruct (f w1) as [y w2] eqn:Hf1. intros [= _ <-]. eapply Hf; [|exact Hf1]. by eapply Hm.
Qed.

Lemma pres_forM {A} I (l : list A) f : (∀ x, pres I (f x)) → pres I (forM_ l f : LM H ()).
Proof. intros Hf. induction l as [|x l IH]; [apply pres_ret|]. simpl. apply pres_bind; [apply Hf|by intros _]. Qed.

Lemma pres_foldM {A B} I (f : B → A → LM H B) b (l : list A) :
  (∀ b x, pres I (f b x)) → pres I (foldM f b l).
Proof.
  intros Hf. revert b. induction l as [|x l IH]; intros b; [apply pres_ret|]. simpl.
  apply pres_bind; [apply Hf|intros b'; apply IH].
Qed.

Lemma pres_host {A} I (f : H → result error A * H) :
  (∀ w, I w → I (l_set_host (f (l_host w)).2 w)) → pres I (host f).
Proof. intros Hf w r w' Hw. unfold host. specialize (Hf w Hw). destruct (f (l_host w)) as [x h]. by intros [= _ <-]. Qed.

Lemma pres_host' {A} I (f : H → A * H) :
  (∀ w, I w → I (l_set_host (f (l_host w)).2 w)) → pres I (host' f).
Proof. intros Hf w r w' Hw. unfold host'. specialize (Hf w Hw). destruct (f (l_host w)) as [x h]. by intros [= _ <-]. Qed.

(** ** Access to the row, when the database answers every call *)

Context (HD : ∀ h, (h_database h).1 = Ok ()).

Lemma database_ok {A} (w : LWorld H) (f : () → LM H A) :
  (host h_database ≫= f) w = f () (l_set_host (h_database (l_host w)).2 w).
Proof.
  unfold mbind, st_bind, host. pose proof (HD (l_host w)) as Hd. destruct (h_database (l_host w)) as [x h].
  simpl in Hd. by subst x.
Qed.

Lemma update_eq w : UpdateContainer w =
  if l_valid w then
    let w := l_set_host (h_database (l_host w)).2 w in
    match l_db w with
    | Some s => (Ok (), l_set_state s w)
    | None => (Err ErrNoSuchCtr, l_set_valid false w)
    end
  else (Err ErrCtrRemoved, w).
Proof.
  unfold UpdateContainer, mbind at 1, st_bind at 1, gets, failIf, throw. destruct (l_valid w); [|done]. simpl.
  unfold mbind at 1, st_bind at 1, mret, st_ret. rewrite database_ok. unfold mbind, st_bind. simpl. by destruct (l_db w).
Qed.

Lemma save_eq w : save w =
  if l_valid w then
    let w := l_set_host (h_database (l_host w)).2 w in
    match l_db w with
    | Some s => (Ok (), l_note (Saved (status w)) (l_set_db (Some (l_state w)) w))
    | None => (Err ErrNoSuchCtr, l_set_valid false w)
    end
  else (Err ErrCtrRemoved, w).
Proof.
  unfold save, mbind at 1, st_bind at 1, gets, failIf, throw. destruct (l_valid w); [|done]. simpl.
  unfold mbind at 1, st_bind at 1, mret, st_ret. rewrite database_ok. unfold mbind, st_bind. simpl. by destruct (l_db w).
Qed.

(** ** Triples *)

Lemma hoare_pres {A} I (m : LM H A) : pres I m → hoare I m (λ _, I).
Proof. done. Qed.

Lemma hoare_bind {A B} P R (m : LM H A) (f : A → LM H B) Q :
  hoare P m R → (∀ a, hoare (R (Ok a)) (f a) Q) → (∀ e w, R (Err e) w → Q (Err e) w) →
  hoare P (m ≫= f) Q.
Proof.
  intros Hm Hf He w r w' Hw Hr. unfold mbind, st_bind in Hr.
  destruct (m w) as [[a|e] w1] eqn:Hm1.
  - eapply Hf; [|exact Hr]. by eapply Hm in Hm1.
  - injection Hr as <- <-. apply He. by eapply Hm in Hm1.
Qed.

(** Computations that do not fail. *)
Definition total {A} (P : LWorld H → Prop) (m : LM H A) (R : LWorld H → Prop) : Prop :=
  hoare P m (λ r w, (∃ a, r = Ok a) ∧ R w).

Lemma hoare_total {A B} P R (m : LM H A) (f : A → LM H B) Q :
  total P m R → (∀ a, hoare R (f a) Q) → hoare P (m ≫= f) Q.
Proof.
  intros Hm Hf. eapply hoare_bind; [exact Hm| |].
  - intros a w r w' [_ Hw]. by apply Hf.
  - by intros e w [[a [=]] _].
Qed.

Lemma total_attempt {A} I (m : LM H A) : pres I m → total I (attempt m) I.
Proof.
  intros Hm w r w' Hw. unfold attempt. destruct (m w) as [x w1] eqn:Hm1. intros [= <- <-].
  split; [by eexists|]. by eapply Hm.
Qed.

Lemma total_pres {A} I (m : LM H A) : total I m I → pres I m.
Proof. intros Hm w r w' Hw Hr. by eapply Hm in Hr as [_ ?]. Qed.

Lemma hoare_finally {A} P R (m : LM H A) f (Q : LWorld H → Prop) :
  hoare P m (λ _, R) → hoare R f (λ _, Q) → hoare P (finally m f) (λ _, Q).
Proof.
  intros Hm Hf w r w' Hw. unfold finally. destruct (m w) as [x w1] eqn:Hm1. destruct (f w1) as [y w2] eqn:Hf1.
  intros [= _ <-]. eapply Hf; [|exact Hf1]. by eapply Hm in Hm1.
Qed.

Lemma hoare_weaken {A} P P' (m : LM H A) (Q Q' : result error A → LWorld H → Prop) :
  hoare P m Q → (∀ w, P' w → P w) → (∀ r w, Q r w → Q' r w) → hoare P' m Q'.
Proof. intros Hm HP HQ w r w' Hw Hr. eapply HQ, Hm; eauto. Qed.
End pres.

Create HintDb life.
#[export] Hint Resolve pres_ret pres_throw pres_gets pres_lift pres_failIf pres_bind pres_attempt pres_caught pres_ignore : life.
#[export] Hint Resolve pres_report pres_onError pres_finally pres_forM pres_foldM : life.

(** Splits a computation along its structure, down to the operations named in the
    hints. *)
Ltac pres_step :=
  match goal with
  | |- pres _ (mbind _ _) => apply pres_bind
  | |- pres _ (if ?b then _ else _) => destruct b
  | |- pres _ (match ?x with _ => _ end) => destruct x
  | |- pres _ (let '_ := ?x in _) => destruct x
  | |- pres _ (attempt _) => apply pres_attempt
  | |- pres _ (caught _) => apply pres_caught
  | |- pres _ (ignore _) => apply pres_ignore
  | |- pres _ (onError _ _) => apply pres_onError
  | |- pres _ (finally _ _) => apply pres_finally
  | |- pres _ (forM_ _ _) => apply pres_forM
  | |- pres _ (foldM _ _ _) => apply pres_foldM
  | |- ∀ _, _ => intros ?
  | |- pres _ _ => solve [eauto 2 with life]
  end.
Ltac pres_tac := repeat pres_step.

(** ** Which operations keep an invariant *)

(** Nothing that the restart policy looks at has changed, apart from the status and
    the exit code. *)
Definition samePolicy (s s' : ContainerState) : Prop :=
  cs_RestartCount s' = cs_RestartCount s ∧ cs_StoppedByUser s' = cs_StoppedByUser s ∧
  cs_RestartPolicyMatch s' = cs_RestartPolicyMatch s.

(** The states in which the OCI runtime has no such container *)
Definition outside : list ContainerStatus := [Configured; Exited].

(** An assignment that does not touch the policy and does not say that the container
    left the runtime. *)
Definition tame (f : ContainerState → ContainerState) : Prop :=
  ∀ s, samePolicy s (f s) ∧ (cs_State (f s) = cs_State s ∨ cs_State (f s) ∉ outside).

(** A note that does not speak of a creation or a start *)
Definition calm (n : note) : Prop := n ≠ Created ∧ n ≠ Requested RuntimeStart.

#[export] Instance note_eq_dec : EqDecision note.
Proof. solve_decision. Defined.

#[export] Instance calm_dec n : Decision (calm n).
Proof. unfold calm. apply _. Defined.

(** The calls of the host, all but [CreateContainer] *)
Inductive hostCall {H} `{Host H} : ∀ {A}, (H → result error A * H) → Prop :=
| hc_request q : hostCall (h_request q)
| hc_statExitFile : hostCall h_statExitFile
| hc_readExitFile : hostCall h_readExitFile
| hc_execExitCode id : hostCall (h_execExitCode id)
| hc_mountStorage : hostCall h_mountStorage
| hc_mountedImage : hostCall h_mountedImage
| hc_createNetNS : hostCall h_createNetNS
| hc_networkDisabled id : hostCall (h_networkDisabled id)
| hc_container id : hostCall (h_container id)
| hc_status id : hostCall (h_status id)
| hc_inUse : hostCall h_inUse
| hc_pod : hostCall h_pod
| hc_updatePod : hostCall h_updatePod
| hc_cgroup2 : hostCall h_cgroup2
| hc_database : hostCall h_database.

Inductive hostQuery {H} `{Host H} : ∀ {A}, (H → A * H) → Prop :=
| hq_state : hostQuery h_state
| hq_ping pid : hostQuery (h_ping pid)
| hq_signal pid s : hostQuery (h_signal pid s)
| hq_waitPid pid t : hostQuery (h_waitPid pid t)
| hq_oom : hostQuery h_oom
| hq_now : hostQuery h_now.

Section classes.
Context {H : Type} `{Host H} (config : ContainerConfig) (batched : bool) (I : LWorld H → Prop).

Class Keeps : Prop := {
  keeps_state f : tame f → pres I (onState f);
  keeps_host {A} (f : H → result error A * H) : hostCall f → pres I (host f);
  keeps_query {A} (f : H → A * H) : hostQuery f → pres I (host' f);
  keeps_noted n : calm n → pres I (noted n);
  keeps_nil : pres I nilPointer;
  keeps_UpdateContainer : pres I UpdateContainer;
  keeps_save : pres I save }.

Class KeepsRuntime : Prop := {
  keeps_cleanupRuntime : pres I cleanupRuntime;
  keeps_UpdateContainerStatus : pres I UpdateContainerStatus }.

Class KeepsSync : Prop := {
  keeps_syncContainer : pres I (syncContainer config);
  keeps_byUser : pres I (onState (cs_set_StoppedByUser true));
  keeps_stopping : pres I (onState (λ s, cs_set_State Stopping (cs_set_StoppedByUser true s))) }.

Class KeepsExec : Prop := keeps_cleanupExecBundle id : pres I (cleanupExecBundle config batched id).

Class KeepsStop : Prop := {
  keeps_stop t : pres I (stop config batched t);
  keeps_tearDown removeVolume : pres I (tearDown config batched removeVolume) }.

Class KeepsStart : Prop := {
  keeps_startDependencies fuel : pres I (startDependencies config fuel);
  keeps_init retainRetries : pres I (init config retainRetries);
  keeps_start : pres I (start config) }.
End classes.

#[export] Hint Constructors hostCall hostQuery : life.
#[export] Hint Resolve keeps_noted keeps_nil keeps_UpdateContainer keeps_save : life.
#[export] Hint Resolve keeps_cleanupRuntime keeps_UpdateContainerStatus keeps_syncContainer keeps_byUser keeps_stopping : life.
#[export] Hint Resolve keeps_cleanupExecBundle keeps_stop keeps_tearDown keeps_startDependencies keeps_init keeps_start : life.
#[export] Hint Extern 1 (calm _) => (split; discriminate) : life.
#[export] Hint Extern 1 (_ ≠ RuntimeStart) => discriminate : life.

#[export] Hint Extern 2 (pres _ (onState _)) => (simple apply keeps_state; [|solve [eauto 2 with life]]) : life.
#[export] Hint Extern 2 (pres _ (host _)) => (apply keeps_host; [..|constructor]) : life.
#[export] Hint Extern 2 (pres _ (host' _)) => (apply keeps_query; [..|constructor]) : life.

(** Assignments: case analysis on their conditions. *)
Ltac tame_tac :=
  intros ?; repeat case_decide; simpl;
  (split; [done | first [left; reflexivity
                        | right; unfold outside; rewrite !not_elem_of_cons; split_and!; [congruence|congruence|apply not_elem_of_nil]]]).
#[export] Hint Extern 1 (tame _) => tame_tac : life.
#[export] Hint Extern 1 (_ ∉ outside) =>
  (unfold outside; rewrite !not_elem_of_cons; split_and!; [congruence|congruence|apply not_elem_of_nil]) : life.

(** A signal to the container, without access to its row *)
Lemma pres_KillContainer {H} `{Host H} (I : LWorld H → Prop) signal all :
  (∀ f, pres I (onState f)) → (∀ A (f : H → result error A * H), hostCall f → pres I (host f)) →
  (∀ A (f : H → A * H), hostQuery f → pres I (host' f)) → (∀ n, calm n → pres I (noted n)) →
  pres I (KillContainer signal all).
Proof.
  intros Hs Hh Hq Hn.
  assert (∀ q, q ≠ RuntimeStart → pres I (ask q)).
  { intros q Hr. apply pres_bind; [apply Hn; split; congruence|intros _; apply Hh; constructor]. }
  unfold KillContainer, UpdateContainerStatus, removeConmonFiles, now, setStatus, ensureState.
  repeat first [apply Hs|apply Hh; constructor|apply Hq; constructor|pres_step].
Qed.

Lemma pres_and {H} {A} (I J : LWorld H → Prop) (m : LM H A) : pres I m → pres J m → pres (λ w, I w ∧ J w) m.
Proof. intros Hi Hj w r w' [??] Hr. split; [by eapply Hi|by eapply Hj]. Qed.

Lemma keeps_and {H} `{Host H} (I J : LWorld H → Prop) : Keeps I → Keeps J → Keeps (λ w, I w ∧ J w).
Proof. intros [] []. constructor; intros; apply pres_and; eauto. Qed.

Section keeps.
Context {H : Type} `{Host H} (config : ContainerConfig) (batched : bool) (I : LWorld H → Prop) `{!Keeps I}.

Lemma keeps_setStatus s : s ∉ outside → pres I (setStatus s).
Proof. intros Hs. apply keeps_state; [done|]. intros x. split; [done|by right]. Qed.

Lemma keeps_ask r : r ≠ RuntimeStart → pres I (ask r).
Proof. intros Hr. apply pres_bind; [apply keeps_noted; [done|]; split; congruence|intros _; apply keeps_host; [done|constructor]]. Qed.
#[local] Hint Resolve keeps_setStatus keeps_ask : life.

Lemma keeps_DeleteContainer : pres I DeleteContainer.
Proof. by apply keeps_ask. Qed.
#[local] Hint Resolve keeps_DeleteContainer : life.

Lemma keeps_saveIfValid : pres I saveIfValid.
Proof. unfold saveIfValid. pres_tac. Qed.
#[local] Hint Resolve keeps_saveIfValid : life.

Lemma keeps_checkExitFile : pres I checkExitFile.
Proof. unfold checkExitFile, handleExitFile, getState, ensureState. pres_tac. Qed.
#[local] Hint Resolve keeps_checkExitFile : life.

Lemma keeps_waitForExitFileAndSync : pres I waitForExitFileAndSync.
Proof. unfold waitForExitFileAndSync, now. pres_tac. Qed.
#[local] Hint Resolve keeps_waitForExitFileAndSync : life.

Lemma keeps_depsNotRunning deps acc : pres I (depsNotRunning deps acc).
Proof. revert acc. induction deps as [|d deps IH]; intros acc; simpl; pres_tac. Qed.
#[local] Hint Resolve keeps_depsNotRunning : life.

Lemma keeps_unmountVolumes l e : pres I (unmountVolumes l e).
Proof. revert e. induction l as [|v l IH]; intros e; simpl; pres_tac. Qed.
#[local] Hint Resolve keeps_unmountVolumes : life.

Lemma keeps_unmountSHMs l e : pres I (unmountSHMs l e).
Proof. revert e. induction l as [|v l IH]; intros e; simpl; pres_tac. Qed.
#[local] Hint Resolve keeps_unmountSHMs : life.

Lemma keeps_unmountImageVolumes l e : pres I (unmountImageVolumes l e).
Proof. revert e. induction l as [|v l IH]; intros e; simpl; pres_tac. Qed.
#[local] Hint Resolve keeps_unmountImageVolumes : life.

Lemma keeps_getExecSessionPID id : pres I (getExecSessionPID id).
Proof. unfold getExecSessionPID. pres_tac. Qed.
#[local] Hint Resolve keeps_getExecSessionPID : life.

Lemma keeps_ExecUpdateStatus id : pres I (ExecUpdateStatus id).
Proof. unfold ExecUpdateStatus. pres_tac. Qed.
#[local] Hint Resolve keeps_ExecUpdateStatus : life.

Lemma keeps_ExecStopContainer id t : pres I (ExecStopContainer id t).
Proof. unfold ExecStopContainer, signalPID. pres_tac. Qed.
#[local] Hint Resolve keeps_ExecStopContainer : life.

Lemma keeps_checkDependencies : pres I (checkDependenciesAndHandleError config).
Proof. unfold checkDependenciesAndHandleError, checkDependenciesRunning. pres_tac. Qed.
#[local] Hint Resolve keeps_checkDependencies : life.

Lemma keeps_getAllDependencies fuel deps visited : pres I (getAllDependencies fuel deps visited).
Proof. revert deps visited. induction fuel as [|fuel IH]; intros deps visited; simpl; pres_tac. Qed.
#[local] Hint Resolve keeps_getAllDependencies : life.

Lemma keeps_cleanupStorage : pres I (cleanupStorage config).
Proof. unfold cleanupStorage, markUnmounted, getState. pres_tac. Qed.
#[local] Hint Resolve keeps_cleanupStorage : life.

Lemma keeps_NetworkDisabled : pres I (NetworkDisabled config).
Proof. unfold NetworkDisabled. pres_tac. Qed.
#[local] Hint Resolve keeps_NetworkDisabled : life.

Lemma keeps_teardownStorage : pres I (teardownStorage config).
Proof. unfold teardownStorage, ensureState. pres_tac. Qed.
#[local] Hint Resolve keeps_teardownStorage : life.

Lemma keeps_cleanupNetwork : pres I (cleanupNetwork config).
Proof. unfold cleanupNetwork, getState. pres_tac. Qed.
#[local] Hint Resolve keeps_cleanupNetwork : life.

Lemma keeps_prepare : pres I (prepare config).
Proof. unfold prepare, mountStorage, getState. pres_tac. Qed.
#[local] Hint Resolve keeps_prepare : life.

Lemma keeps_setupRootlessNetwork : pres I (setupRootlessNetwork config).
Proof. unfold setupRootlessNetwork. pres_tac. Qed.
#[local] Hint Resolve keeps_setupRootlessNetwork : life.

Lemma keeps_removeConmonFiles : pres I removeConmonFiles.
Proof. unfold removeConmonFiles. pres_tac. Qed.
#[local] Hint Resolve keeps_removeConmonFiles : life.

Lemma keeps_pingPID : pres I pingPID.
Proof. unfold pingPID, getState. pres_tac. Qed.
#[local] Hint Resolve keeps_pingPID : life.

Lemma keeps_waitContainerStop t : pres I (waitContainerStop t).
Proof. unfold waitContainerStop, getState. pres_tac. Qed.
#[local] Hint Resolve keeps_waitContainerStop : life.

Lemma keeps_CheckConmonRunning : pres I CheckConmonRunning.
Proof. unfold CheckConmonRunning, getState, ensureState. pres_tac. Qed.
#[local] Hint Resolve keeps_CheckConmonRunning : life.

Lemma keeps_removeTimers : pres I (removeTimers config).
Proof. unfold removeTimers, getState. pres_tac. Qed.
#[local] Hint Resolve keeps_removeTimers : life.

Lemma keeps_waitForConmon : pres I waitForConmonToExitAndSave.
Proof. unfold waitForConmonToExitAndSave. pres_tac. Qed.
#[local] Hint Resolve keeps_waitForConmon : life.

Lemma keeps_stopAll : pres I (stopAll config).
Proof. unfold stopAll. pres_tac. Qed.
#[local] Hint Resolve keeps_stopAll : life.

Lemma keeps_removeExecSessions : pres I removeExecSessions.
Proof. unfold removeExecSessions. pres_tac. Qed.
#[local] Hint Resolve keeps_removeExecSessions : life.

Lemma keeps_hasContainer : pres I hasContainer.
Proof. unfold hasContainer. pres_tac. Qed.
#[local] Hint Resolve keeps_hasContainer : life.

Lemma keeps_pause : pres I (pause config).
Proof. unfold pause, checkCgroups. pres_tac. Qed.
#[local] Hint Resolve keeps_pause : life.

Lemma keeps_unpause : pres I (unpause config).
Proof. unfold unpause. pres_tac. Qed.
#[local] Hint Resolve keeps_unpause : life.

Lemma keeps_createHealthTimer : pres I (createHealthTimer config).
Proof. unfold createHealthTimer. pres_tac. Qed.
#[local] Hint Resolve keeps_createHealthTimer : life.

(** *** Exec sessions *)

Section exec.
Context `{!KeepsExec config batched I}.

Lemma keeps_stopExecSessions l e : pres I (stopExecSessions config batched l e).
Proof. revert e. induction l as [|v l IH]; intros e; simpl; pres_tac. Qed.
#[local] Hint Resolve keeps_stopExecSessions : life.

Lemma keeps_getActiveExecSessions : pres I (getActiveExecSessions config batched).
Proof. unfold getActiveExecSessions, checkExecSession, getState. pres_tac. Qed.
#[local] Hint Resolve keeps_getActiveExecSessions : life.

Lemma keeps_removeAllExecSessions : pres I (removeAllExecSessions config batched).
Proof. unfold removeAllExecSessions, getState. pres_tac. Qed.

Lemma keeps_checkReadyForRemoval : pres I (checkReadyForRemoval config batched).
Proof. unfold checkReadyForRemoval, ensureState. pres_tac. Qed.
End exec.
#[local] Hint Resolve keeps_getActiveExecSessions keeps_removeAllExecSessions keeps_checkReadyForRemoval : life.

Context `{!KeepsRuntime I}.

Lemma keeps_KillContainer sig all : pres I (KillContainer sig all).
Proof. unfold KillContainer, ensureState. pres_tac. Qed.
#[local] Hint Resolve keeps_KillContainer : life.

Lemma keeps_StopContainer t all : pres I (StopContainer config t all).
Proof. unfold StopContainer, stopWithKill, pingErr, ensureState, getState. pres_tac. Qed.
#[local] Hint Resolve keeps_StopContainer : life.

Lemma keeps_cleanup : pres I (cleanup config).
Proof. unfold cleanup, stopPodIfNeeded. pres_tac. Qed.
#[local] Hint Resolve keeps_cleanup : life.

Lemma keeps_killPaused : pres I (killPaused config).
Proof. unfold killPaused, ensureState. pres_tac. Qed.
#[local] Hint Resolve keeps_killPaused : life.

Context `{!KeepsSync config I}.

Lemma keeps_completeNetworkSetup : pres I (completeNetworkSetup config).
Proof. unfold completeNetworkSetup. pres_tac. Qed.
#[local] Hint Resolve keeps_completeNetworkSetup : life.

Context `{!KeepsExec config batched I, !KeepsStop config batched I}.

Lemma keeps_stopForRestart t : pres I (stopForRestart config batched t).
Proof. unfold stopForRestart, ensureState, getState. pres_tac. Qed.
#[local] Hint Resolve keeps_stopForRestart : life.

Lemma keeps_removeLocked force removeVolume ignoreDeps t : pres I (removeLocked config batched force removeVolume ignoreDeps t).
Proof. unfold removeLocked, stopForRemoval, ensureState. pres_tac. Qed.
#[local] Hint Resolve keeps_removeLocked : life.

Context `{!KeepsStart config I}.

Lemma keeps_initIfNeeded b : pres I (initIfNeeded config b).
Proof. unfold initIfNeeded, reinit, ensureState. pres_tac. Qed.
#[local] Hint Resolve keeps_initIfNeeded : life.

Lemma keeps_prepareToStart fuel recursive : pres I (prepareToStart config fuel recursive).
Proof. unfold prepareToStart, ensureState. pres_tac. Qed.
#[local] Hint Resolve keeps_prepareToStart : life.

Lemma keeps_initAndStart : pres I (initAndStart config).
Proof. unfold initAndStart, ensureState. pres_tac. Qed.
#[local] Hint Resolve keeps_initAndStart : life.

Lemma keeps_restartWithTimeout t : pres I (restartWithTimeout config batched t).
Proof. unfold restartWithTimeout, ensureState. pres_tac. Qed.
#[local] Hint Resolve keeps_restartWithTimeout : life.

End keeps.

#[export] Hint Resolve keeps_setStatus keeps_ask keeps_DeleteContainer keeps_saveIfValid keeps_checkExitFile keeps_waitForExitFileAndSync keeps_depsNotRunning : life.
#[export] Hint Resolve keeps_unmountVolumes keeps_unmountSHMs keeps_unmountImageVolumes keeps_getExecSessionPID keeps_ExecUpdateStatus keeps_ExecStopContainer keeps_checkDependencies keeps_getAllDependencies : life.
#[export] Hint Resolve keeps_cleanupStorage keeps_NetworkDisabled keeps_teardownStorage keeps_cleanupNetwork keeps_prepare keeps_setupRootlessNetwork : life.
#[export] Hint Resolve keeps_removeConmonFiles keeps_pingPID keeps_waitContainerStop keeps_CheckConmonRunning keeps_removeTimers keeps_waitForConmon : life.
#[export] Hint Resolve keeps_stopAll keeps_getActiveExecSessions keeps_removeExecSessions keeps_removeAllExecSessions keeps_hasContainer keeps_pause : life.
#[export] Hint Resolve keeps_unpause keeps_checkReadyForRemoval keeps_createHealthTimer keeps_KillContainer keeps_StopContainer keeps_cleanup : life.
#[export] Hint Resolve keeps_killPaused keeps_completeNetworkSetup keeps_stopForRestart keeps_removeLocked keeps_initIfNeeded keeps_prepareToStart : life.
#[export] Hint Resolve keeps_initAndStart keeps_restartWithTimeout : life.
