(* ===== verification/LifeInv.v ===== *)
(** * LifeInv: invariants of the state of a container

    An invariant [Inv C J] says [C] of the state in memory and of the row, and [J] of
    the rest.  When [C] only looks at the fields that the restart policy uses, and
    [J] does not look at the state, the operations that do not start a container
    keep it, and the others keep it when creation and start do.  The second part has
    the calls as one type and the discipline of the lock. *)

From S2P Require Import Prelude Define Ports Strconv Graph Life LifeOps LifeApi LifeHoare.

Section inv.
Context {H : Type} `{Host H} (config : ContainerConfig) (batched : bool).
Context (C : ContainerState → Prop) (J : LWorld H → Prop).

Definition Inv (w : LWorld H) : Prop :=
  C (l_state w) ∧ (∀ s, l_db w = Some s → C s) ∧ J w.

Context (HC : ∀ s s', samePolicy s s' → C s → C s').
Context (HJs : ∀ s w, J w → J (l_set_state s w)) (HJd : ∀ d w, J w → J (l_set_db d w)).
Context (HJv : ∀ b w, J w → J (l_set_valid b w)) (HJh : ∀ h w, J w → J (l_set_host h w)).
Context (HJn : ∀ n w, calm n → J w → J (l_note n w)) (HJp : ∀ w, J w → J (l_set_panic w)).

Lemma inv_modify f : (∀ w, C (l_state w) → C (l_state (f w))) → (∀ w, l_db (f w) = l_db w) →
  (∀ w, J w → J (f w)) → pres Inv (modify f).
Proof. intros Hs Hd Hj. apply pres_modify. intros w (Hcs & Hcd & Hcj). unfold Inv. rewrite Hd. auto. Qed.

Lemma inv_onState f : (∀ s, C s → C (f s)) → pres Inv (onState f).
Proof. intros Hf. apply inv_modify; simpl; auto. Qed.

Lemma inv_benign f : (∀ s, samePolicy s (f s)) → pres Inv (onState f).
Proof. intros Hf. apply inv_onState. intros s. by apply HC. Qed.

Lemma inv_host {A} (f : H → result error A * H) : pres Inv (host f).
Proof. apply pres_host. intros w (Hs & Hd & Hj). split_and!; simpl; auto. Qed.

Lemma inv_host' {A} (f : H → A * H) : pres Inv (host' f).
Proof. apply pres_host'. intros w (Hs & Hd & Hj). split_and!; simpl; auto. Qed.

Lemma inv_noted n : calm n → pres Inv (noted n).
Proof. intros Hn. by apply inv_modify; auto. Qed.

Lemma inv_valid b : pres Inv (modify (l_set_valid b)).
Proof. by apply inv_modify; auto. Qed.

Lemma inv_UpdateContainer : pres Inv UpdateContainer.
Proof.
  unfold UpdateContainer. do 3 (apply pres_bind; [first [apply pres_gets|apply pres_failIf|apply inv_host]|intros ?]).
  intros w r w' (Hs & Hdb & Hj) Hr. unfold mbind, st_bind, gets in Hr. destruct (l_db w) as [s|] eqn:Hd.
  - injection Hr as _ <-. split_and!; simpl; rewrite ?Hd; auto.
  - injection Hr as _ <-. split_and!; simpl; rewrite ?Hd; by auto.
Qed.

Lemma inv_save : pres Inv save.
Proof.
  unfold save. do 3 (apply pres_bind; [first [apply pres_gets|apply pres_failIf|apply inv_host]|intros ?]).
  intros w r w' (Hs & Hdb & Hj) Hr. unfold mbind, st_bind, gets in Hr. destruct (l_db w) as [s|] eqn:Hd.
  - injection Hr as _ <-. split_and!; simpl; rewrite ?Hd; auto.
    + by intros ? [= <-].
    + apply HJn; [by split|]. by apply HJd.
  - injection Hr as _ <-. split_and!; simpl; rewrite ?Hd; by auto.
Qed.

Lemma inv_removeRow : pres Inv removeRow.
Proof.
  apply pres_bind; [apply inv_host|intros _]. apply pres_bind; [apply pres_gets|intros d]. destruct d.
  - apply pres_bind; [|intros _; by apply inv_noted]. apply pres_modify. intros w (Hs & Hd & Hj). split_and!; simpl; auto. done.
  - apply pres_bind; [apply inv_valid|intros _; apply pres_throw].
Qed.

#[local] Hint Resolve inv_valid inv_removeRow : life.
#[local] Hint Extern 3 (pres Inv (onState _)) => (apply inv_benign; intros ?; repeat case_decide; done) : life.

Lemma inv_keeps : Keeps Inv.
Proof.
  constructor; intros.
  - apply inv_benign. intros s. by destruct (H1 s).
  - apply inv_host.
  - apply inv_host'.
  - by apply inv_noted.
  - by apply inv_modify; auto.
  - apply inv_UpdateContainer.
  - apply inv_save.
Qed.
#[local] Hint Resolve inv_keeps : life.

Lemma inv_keepsRuntime : KeepsRuntime Inv.
Proof.
  constructor.
  - unfold cleanupRuntime, deleteContainer, ensureState. pres_tac.
  - unfold UpdateContainerStatus, now, setStatus. pres_tac.
Qed.
#[local] Hint Resolve inv_keepsRuntime : life.

(** ** Synchronisation and stopping *)

Context (HCm : ∀ old s, restartPolicyMatches config old s = true → C s → C (cs_set_RestartPolicyMatch true s)).
Context (HCu : ∀ s, C s → C (cs_set_StoppedByUser true s)).

Lemma inv_keepsSync : KeepsSync config Inv.
Proof.
  constructor.
  - unfold syncContainer, ensureState. pres_tac. apply inv_onState. intros s Hs. destruct (restartPolicyMatches _ _ s) eqn:Hm; eauto.
  - by apply inv_onState.
  - apply inv_onState. intros s Hs. by eapply HC, HCu.
Qed.
#[local] Hint Resolve inv_keepsSync : life.

(** [stop] keeps the invariant when giving the lock back and taking it does. *)
Lemma inv_stop t : pres Inv (Lock AfterStop) → pres Inv Unlock → pres Inv (stop config batched t).
Proof. intros Hl Hu. unfold stop, ensureState. pres_tac. Qed.

(** So does [cleanupExecBundle]. *)
Lemma inv_keepsExec : pres Inv (Lock AfterSleep) → pres Inv Unlock → KeepsExec config batched Inv.
Proof.
  intros Hl Hu id. unfold cleanupExecBundle. generalize 50, (@None error). intros n. induction n as [|n IH]; intros err; simpl; pres_tac.
Qed.

Lemma inv_keepsStop : KeepsExec config batched Inv → (∀ t, pres Inv (stop config batched t)) → KeepsStop config batched Inv.
Proof. intros He Hs. constructor; [done|]. intros b. unfold tearDown. pres_tac. Qed.

(** ** Starting *)

Context (HCi : ∀ b s, C s → C (initState b s)) (HJa : ∀ n w, J w → J (l_note n w)).

Lemma inv_note n : pres Inv (noted n).
Proof. by apply inv_modify; auto. Qed.

Lemma inv_keepsStart : KeepsStart config Inv.
Proof.
  assert (∀ b, pres Inv (onState (initState b))) by (intros; by apply inv_onState; auto).
  assert (∀ q, pres Inv (ask q)) by (intros q; apply pres_bind; [apply inv_note|intros _; apply inv_host]).
  constructor.
  - intros fuel. unfold startDependencies. repeat first [progress pres_step|case_decide].
    intros w r w' (Hs & Hd & Hj) Hr. destruct (startGraph _ _ _); [case_decide|]; injection Hr as _ <-; split_and!; simpl; auto.
  - intros b. unfold init, CreateContainer, getState. pres_tac; first [apply inv_note|apply inv_host'].
  - unfold start, StartContainer, now. pres_tac.
Qed.
End inv.

(** ** The calls as one type, and the lock of a container *)

Inductive lcall : Type :=
| LInit (fuel : nat) (recursive : bool)
| LStart (fuel : nat) (recursive : bool)
| LStartAndAttach (fuel : nat) (recursive : bool)
| LRestart (timeout : Z)
| LStop (timeout : Z)
| LKill (signal : Z)
| LPause | LUnpause | LAttach (passthrough terminal : bool) | LAttachResize | LMount | LUnmount | LExport | LReloadNetwork
| LSync | LState | LShouldRestart | LCleanup
| LRemove (force removeVolume : bool) (timeout : option Z).

Section calls.
Context {H : Type} `{Host H} (config : ContainerConfig) (batched : bool).

Definition dropReply {A} (m : LM H A) : LM H () := _ ← m; mret ().

(** [Runtime.RemoveContainer] is not called on a container in a batch. *)
Definition lexec (c : lcall) : LM H () :=
  match c with
  | LInit fuel recursive => Init config batched fuel recursive
  | LStart fuel recursive => Start config batched fuel recursive
  | LStartAndAttach fuel recursive => StartAndAttach config batched fuel recursive
  | LRestart t => RestartWithTimeout config batched t
  | LStop t => StopWithTimeout config batched t
  | LKill signal => Kill config batched signal
  | LPause => Pause config batched
  | LUnpause => Unpause config batched
  | LAttach passthrough terminal => Attach config batched passthrough terminal
  | LAttachResize => AttachResize config batched
  | LMount => Mount config batched
  | LUnmount => Unmount config batched
  | LExport => Export config batched
  | LReloadNetwork => ReloadNetwork config batched
  | LSync => Sync config batched
  | LState => dropReply (State config batched)
  | LShouldRestart => dropReply (ShouldRestart config batched)
  | LCleanup => Cleanup config batched
  | LRemove force removeVolume t => removeContainer config false true force removeVolume false false t
  end.
End calls.

(** ** The lock *)

Section lock.
Context {H : Type} `{Host H} (config : ContainerConfig).

Definition lockIs (b : bool) (w : LWorld H) : Prop := l_fatal w = false ∧ l_locked w = b.
Abbreviation G b := (Inv (λ _, True) (lockIs b)).

Lemma G_lockIs b w : G b w ↔ lockIs b w.
Proof. split; [by intros (_ & _ & ?)|by intros ?; split_and!]. Qed.

Lemma lock_Unlock : total (G true) Unlock (G false).
Proof.
  intros w r w' [Hf Hl]%G_lockIs Hr. unfold Unlock in Hr. rewrite Hl in Hr. injection Hr as <- <-.
  split; [by eexists|]. by apply G_lockIs.
Qed.

Lemma lock_Lock a : total (G false) (Lock a) (G true).
Proof.
  intros w r w' [Hf Hl]%G_lockIs Hr. unfold Lock in Hr. rewrite Hl in Hr.
  destruct (h_others a (l_db w) (l_host w)) as [d h]. injection Hr as <- <-. split; [by eexists|]. by apply G_lockIs.
Qed.

(** Taking the lock, doing something with it, and giving it back. *)
Lemma lock_section {A} a (m : LM H A) : pres (G true) m → pres (G false) (_ ← Lock a; finally m Unlock).
Proof.
  intros Hm. eapply hoare_total; [apply lock_Lock|intros u]. eapply hoare_finally; [by apply hoare_pres|].
  eapply hoare_weaken; [apply lock_Unlock|done|by intros r w [_ ?]].
Qed.

Lemma lock_keeps b : Keeps (G b).
Proof. by apply inv_keeps. Qed.
Lemma lock_keepsRuntime b : KeepsRuntime (G b).
Proof. by apply inv_keepsRuntime. Qed.
Lemma lock_keepsSync b : KeepsSync config (G b).
Proof. by apply inv_keepsSync. Qed.
Lemma lock_keepsStart b : KeepsStart config (G b).
Proof. by apply inv_keepsStart. Qed.
#[local] Hint Resolve lock_keeps lock_keepsRuntime lock_keepsSync lock_keepsStart : life.

(** [stop] gives the lock back and takes it again. *)
Lemma lock_stop batched b t : (batched = false → b = true) → pres (G b) (stop config batched t).
Proof.
  intros Hb. unfold stop, ensureState. destruct batched; [pres_tac|].
  rewrite (Hb eq_refl). do 3 (apply pres_bind; [pres_tac|intros ?]).
  eapply hoare_total; [apply lock_Unlock|intros _u].
  eapply hoare_total; [apply (total_attempt (G false)); pres_tac|intros stopErr].
  eapply (hoare_total _ (G true)); [|intros synced; apply hoare_pres; pres_tac].
  eapply hoare_total; [apply lock_Lock|intros _u']. apply total_attempt. pres_tac.
Qed.

(** So does [cleanupExecBundle]; when it cannot save or read the state, it holds the
    lock. *)
Lemma lock_keepsExec batched b : (batched = false → b = true) → KeepsExec config batched (G b).
Proof.
  intros Hb id. unfold cleanupExecBundle. generalize 50, (@None error). intros n. induction n as [|n IH]; intros err; [pres_tac|].
  simpl. apply pres_bind; [pres_tac|intros e]. destruct e as [[]|]; try by pres_tac.
  destruct batched; [pres_tac|]. rewrite (Hb eq_refl) in *.
  eapply (hoare_bind _ (λ r, if is_Ok r then G false else G true)); [|intros _u|done].
  - eapply (hoare_bind _ (λ _, G true)); [apply hoare_pres; pres_tac|intros _u|done].
    intros w r w' Hw Hr. apply lock_Unlock in Hr as [[a ->] Hr]; done.
  - eapply (hoare_bind _ (λ _, G true)); [|intros _u'; apply hoare_pres, IH|done].
    eapply hoare_total; [apply lock_Lock|intros _u']. apply hoare_pres. pres_tac.
Qed.

Lemma lock_keepsStop batched b : (batched = false → b = true) → KeepsStop config batched (G b).
Proof. intros Hb. apply inv_keepsStop; try done; [by apply lock_keepsExec|]. intros t. by apply lock_stop. Qed.

(** ** The methods *)

Section methods.
Context (batched b : bool) (Hb : batched = false → b = false).

Lemma lock_locked {A} (m : LM H A) : (∀ b', (batched = false → b' = true) → pres (G b') m) → pres (G b) (locked config batched m).
Proof.
  intros Hm. unfold locked. destruct batched; [by apply Hm|]. rewrite (Hb eq_refl). apply lock_section.
  apply pres_bind; [pres_tac|intros _]. by apply Hm.
Qed.

Lemma lock_savingError {A} (m : LM H A) : pres (G b) m → pres (G b) (savingError batched m).
Proof.
  intros Hm w r w' Hw. unfold savingError. destruct (m w) as [[a|e] w1] eqn:Hm1.
  - intros [= _ <-]. by eapply Hm.
  - specialize (Hm _ _ _ Hw Hm1).
    assert (∀ b', pres (G b') (ignore (saveContainerError e))) as Hi by (unfold saveContainerError; intros b'; pres_tac).
    destruct batched.
    + destruct (ignore (saveContainerError e) w1) as [x w2] eqn:Hs. intros [= _ <-]. exact (Hi b _ _ _ Hm Hs).
    + rewrite (Hb eq_refl) in *. pose proof (lock_section AfterError _ (Hi true)) as Hp.
      destruct ((_ ← Lock AfterError; finally (ignore (saveContainerError e)) Unlock) w1) as [x w2] eqn:Hs.
      intros [= _ <-]. exact (Hp _ _ _ Hm Hs).
Qed.

Lemma lock_handleRestartPolicy b' : pres (G b') (handleRestartPolicy config).
Proof.
  unfold handleRestartPolicy, ensureState, getState. pres_tac. by apply inv_onState.
Qed.

Lemma lock_cleanupBody b' : (batched = false → b' = true) → pres (G b') (cleanupBody config batched).
Proof. intros Hb'. pose proof (lock_keepsExec batched b' Hb'). pose proof lock_handleRestartPolicy. unfold cleanupBody, ensureState. pres_tac. Qed.

Lemma lock_Restart t : pres (G b) (RestartWithTimeout config batched t).
Proof.
  apply lock_locked. intros b' Hb'. pose proof (lock_keepsExec batched b' Hb'). pose proof (lock_keepsStop batched b' Hb'). pres_tac.
Qed.

Lemma lock_signalAttached : pres (G false) signalAttached.
Proof. apply lock_section. pres_tac. Qed.

Lemma lock_Attach passthrough terminal : pres (G b) (Attach config batched passthrough terminal).
Proof.
  pose proof lock_signalAttached. unfold Attach, ensureState. apply pres_bind; [pres_tac|intros _]. apply pres_bind.
  - destruct batched; [pres_tac|]. rewrite (Hb eq_refl). apply lock_section. pres_tac.
  - destruct batched; [rewrite andb_false_r|rewrite (Hb eq_refl)]; pres_tac.
Qed.

Lemma lock_Sync : pres (G b) (Sync config batched).
Proof. unfold Sync. destruct batched; [pres_tac|]. rewrite (Hb eq_refl). apply lock_section. pres_tac. Qed.

Lemma lock_Cleanup : pres (G b) (Cleanup config batched).
Proof.
  pose proof lock_cleanupBody as Hc. unfold Cleanup. destruct batched; [by apply Hc|].
  rewrite (Hb eq_refl). apply lock_section. specialize (Hc true (λ _, eq_refl)). pres_tac.
Qed.

Lemma lock_removeLocked force removeVolume ignoreDeps t :
  pres (G true) (removeLocked config false force removeVolume ignoreDeps t).
Proof. pose proof (lock_keepsExec false true (λ _, eq_refl)). pose proof (lock_keepsStop false true (λ _, eq_refl)). pres_tac. Qed.

Lemma lock_remove force removeVolume t :
  pres (G false) (removeContainer config false true force removeVolume false false t).
Proof.
  pose proof lock_removeLocked. unfold removeContainer, lockingPod.
  assert (pres (G false) (_ ← Lock AtCall; finally (_ ← failIf (negb true) ErrRuntimeStopped;
    removeLocked config false force removeVolume false t) Unlock)) as Hbody by (apply lock_section; pres_tac).
  repeat first [exact Hbody|pres_step].
Qed.

(** The calls that are made in a batch or not; a removal is not. *)
Lemma lock_call c : ((∀ force removeVolume t, c ≠ LRemove force removeVolume t) ∨ b = false) →
  pres (G b) (lexec config batched c).
Proof.
  intros Hc. pose proof lock_Restart. pose proof lock_Attach. pose proof lock_Sync. pose proof lock_Cleanup.
  destruct c; cbn [lexec]; unfold dropReply; try (apply pres_bind; [|intros ?; apply pres_ret]); try done.
  all: try (apply lock_savingError).
  all: try (apply lock_locked; intros b' Hb'; pose proof (lock_keepsExec batched b' Hb'); pose proof (lock_keepsStop batched b' Hb'); unfold ensureState, getState, reinit; by pres_tac).
  - apply lock_locked. intros b' Hb'. unfold ensureState. pres_tac. apply pres_modify. done.
  - apply pres_bind; [|intros ?; apply pres_ret]. apply pres_caught, lock_locked. intros b' Hb'. unfold getState. pres_tac.
  - destruct Hc as [Hc| ->]; [by edestruct Hc|]. apply lock_remove.
Qed.
End methods.
End lock.
