(* ===== verification/LifeCalls.v ===== *)
(** * LifeCalls: invariants of the row of a container

    A call that takes the lock itself reads the row before it does anything else, so
    that what it keeps is an invariant of the row and of the host, whatever the handle
    has in memory.  [CallInv R I D]: [R] holds of the row while the lock is free, [I] of a
    handle that is synchronised, and [D] of one that may be invalid; the calls keep [R].
    The instance [RowInv]: a predicate on the row, when the database answers every
    call and what other processes do to the row while the lock is free keeps it too. *)

From S2P Require Import Prelude Define Ports Strconv Graph Life LifeOps LifeApi LifeHoare LifeInv.

(** Calls that create or start the container by themselves *)
Definition starting (c : lcall) : bool :=
  match c with LInit _ _ | LStart _ _ | LStartAndAttach _ _ | LRestart _ => true | _ => false end.

Section calls.
Context {H : Type} `{Host H} (config : ContainerConfig).

Class CallInv (R I D : LWorld H → Prop) : Prop := {
  ci_keeps : Keeps I;
  ci_runtime : KeepsRuntime I;
  ci_sync : KeepsSync config I;
  ci_exec : KeepsExec config false I;
  ci_stop : KeepsStop config false I;
  ci_handle : Keeps D;
  ci_synced w : I w → D w;
  ci_row w : D w → R w;
  ci_syncContainer : hoare R (syncContainer config) (λ r w, if is_Ok r then I w else D w);
  ci_cleanupRuntime : pres D cleanupRuntime;
  ci_Lock : pres R (Lock AtCall);
  ci_relock : pres D (Lock AfterError);
  ci_Unlock : pres D Unlock;
  ci_host {A} (f : H → result error A * H) : hostCall f → pres R (host f);
  ci_noted n : calm n → pres R (noted n);
  ci_nil : pres R nilPointer;
  ci_signalAttached : pres R signalAttached;
  ci_networkStatus : pres I (modify (λ w, l_set_state (cs_set_NetworkStatus (h_networkStatus (l_host w)) (l_state w)) w)) }.

Context (R I D : LWorld H → Prop) `{!CallInv R I D}.
#[local] Hint Extern 1 (Keeps I) => exact ci_keeps : life.
#[local] Hint Extern 1 (Keeps D) => exact ci_handle : life.
#[local] Hint Extern 1 (KeepsRuntime I) => exact ci_runtime : life.
#[local] Hint Extern 1 (KeepsSync _ I) => exact ci_sync : life.
#[local] Hint Extern 1 (KeepsExec _ _ I) => exact ci_exec : life.
#[local] Hint Extern 1 (KeepsStop _ _ I) => exact ci_stop : life.

(** Synchronising, then doing something with the synchronised handle. *)
Lemma call_synced {A} (m : LM H A) : pres I m → hoare R (_ ← syncContainer config; m) (λ _, D).
Proof.
  intros Hm. eapply hoare_bind; [apply ci_syncContainer| |done].
  intros u. eapply (hoare_weaken I _ _ (λ _, I)); [by apply hoare_pres|done|]. intros _ w. apply ci_synced.
Qed.

Lemma call_section {A} (m : LM H A) : hoare R m (λ _, D) → hoare R (_ ← Lock AtCall; finally m Unlock) (λ _, D).
Proof.
  intros Hm. eapply (hoare_bind _ (λ r w, (∃ u, r = Ok u) ∧ R w)).
  - intros w r w' Hw Hr. split; [|exact (ci_Lock _ _ _ Hw Hr)]. unfold Lock in Hr.
    destruct (l_locked w); [by injection Hr as <- _; eauto|].
    destruct (h_others _ _ _). injection Hr as <- _. eauto.
  - intros u. eapply (hoare_weaken R _ _ (λ _, D)); [|by intros w [_ ?]|done].
    eapply hoare_finally; [exact Hm|]. apply hoare_pres, ci_Unlock.
  - by intros e w [[u [=]] _].
Qed.

Lemma call_locked {A} (m : LM H A) : pres I m → hoare R (locked config false m) (λ _, D).
Proof. intros Hm. by apply call_section, call_synced. Qed.

Lemma call_savingError {A} (m : LM H A) : hoare R m (λ _, D) → hoare R (savingError false m) (λ _, D).
Proof.
  intros Hm w r w' Hw. unfold savingError. destruct (m w) as [[a|e] w1] eqn:Hm1.
  - intros [= _ <-]. by eapply Hm in Hm1.
  - assert (pres D (_ ← Lock AfterError; finally (ignore (saveContainerError e)) Unlock)) as Hp.
    { apply pres_bind; [apply ci_relock|intros _]. apply pres_finally; [|apply ci_Unlock].
      unfold saveContainerError. pres_tac. }
    destruct ((_ ← Lock AfterError; finally (ignore (saveContainerError e)) Unlock) w1) as [x w2] eqn:Hs.
    intros [= _ <-]. refine (Hp _ _ _ _ Hs). by eapply Hm in Hm1.
Qed.

Lemma call_row {A} (m : LM H A) : hoare R m (λ _, D) → hoare R m (λ _, R).
Proof. intros Hm w r w' Hw Hr. eapply ci_row. by eapply Hm in Hr. Qed.

Lemma call_bind {A B} (m : LM H A) (f : A → LM H B) :
  hoare R m (λ _, R) → (∀ a, pres R (f a)) → hoare R (m ≫= f) (λ _, R).
Proof. intros Hm Hf. eapply hoare_bind; [exact Hm|done|done]. Qed.

Lemma call_ask q : q ≠ RuntimeStart → pres R (ask q).
Proof. intros Hq. apply pres_bind; [apply ci_noted; split; congruence|intros _; apply ci_host; constructor]. Qed.
#[local] Hint Resolve call_ask ci_noted ci_nil ci_signalAttached : life.
#[local] Hint Extern 1 (pres R (host _)) => (apply ci_host; constructor) : life.

(** ** The calls *)

Context (Hrp : pres I (handleRestartPolicy config)).

Lemma call_cleanupBody : pres I (cleanupBody config false).
Proof. unfold cleanupBody, ensureState. pres_tac. Qed.

Lemma call_Cleanup : hoare R (Cleanup config false) (λ _, D).
Proof.
  apply call_section. intros w r w' Hw Hr. unfold mbind, st_bind, attempt in Hr.
  destruct (syncContainer config w) as [[u|e] w1] eqn:Hs; (eapply ci_syncContainer in Hs; [|exact Hw]); simpl in Hs.
  - apply ci_synced. refine (call_cleanupBody _ _ _ Hs Hr).
  - destruct (goneErr e) eqn:He; [|by injection Hr as _ <-]. refine (ci_cleanupRuntime _ _ _ Hs Hr).
Qed.

Lemma call_sync : hoare R (syncContainer config) (λ _, D).
Proof. intros w r w' Hw Hr. apply ci_syncContainer in Hr; [|done]. destruct r; [by apply ci_synced|done]. Qed.

Lemma call_Attach passthrough terminal : hoare R (Attach config false passthrough terminal) (λ _, R).
Proof.
  unfold Attach. apply call_bind; [apply hoare_pres; pres_tac|intros _].
  apply pres_bind; [apply call_row, call_section, call_sync|intros _]. unfold ensureState. pres_tac.
Qed.

Lemma call_remove force removeVolume t :
  hoare R (removeContainer config false true force removeVolume false false t) (λ _, R).
Proof.
  assert (pres R (_ ← Lock AtCall; finally (_ ← failIf (negb true) ErrRuntimeStopped;
    removeLocked config false force removeVolume false t) Unlock)) as Hbody.
  { apply call_row, call_section.
    assert (hoare R (removeLocked config false force removeVolume false t) (λ _, D)) as Hl; [|exact Hl].
    apply call_synced. unfold stopForRemoval, ensureState. pres_tac. }
  unfold removeContainer, lockingPod, hasContainer. apply hoare_pres. repeat first [exact Hbody|pres_step].
Qed.

(** A call that does not start the container *)
Lemma call_keeps c : starting c = false → hoare R (lexec config false c) (λ _, R).
Proof.
  intros Hc. destruct c; try done; cbn [lexec]; unfold dropReply.
  all: try (apply call_bind; [|intros ?; apply pres_ret]).
  all: try (apply call_row; try apply call_savingError; try apply call_locked; unfold ensureState, getState; by pres_tac).
  - apply call_Attach.
  - apply call_row, call_locked. unfold ensureState. pres_tac. apply ci_networkStatus.
  - apply call_bind; [|intros ?; apply pres_ret]. intros w r w' Hw. unfold caught.
    destruct (locked config false (getState (shouldRestart config)) w) as [x w1] eqn:Hl. intros [= _ <-].
    eapply call_row, Hl; [|exact Hw]. apply call_locked. apply pres_gets.
  - apply call_row, call_Cleanup.
  - apply call_remove.
Qed.

(** Any call, when creation and start keep the invariant too *)
Lemma call_any_keeps c : KeepsStart config I → hoare R (lexec config false c) (λ _, R).
Proof.
  intros Hk. destruct (starting c) eqn:Hc; [|by apply call_keeps]. destruct c; try done; cbn [lexec]; apply call_row.
  all: try apply call_savingError; apply call_locked; unfold ensureState, reinit; pres_tac.
Qed.
End calls.

(** ** A predicate on the row *)

Section row.
Context {H : Type} `{Host H} (config : ContainerConfig).
Context (C : ContainerState → Prop) (J : LWorld H → Prop).

Definition RowInv (w : LWorld H) : Prop := (∀ s, l_db w = Some s → C s) ∧ J w.

(** The handle is synchronised, or invalid. *)
Definition HandleInv (w : LWorld H) : Prop := (l_valid w = true → C (l_state w)) ∧ RowInv w.

Context (HC : ∀ s s', samePolicy s s' → C s → C s').
Context (HCm : ∀ old s, restartPolicyMatches config old s = true → C s → C (cs_set_RestartPolicyMatch true s)).
Context (HCu : ∀ s, C s → C (cs_set_StoppedByUser true s)).
Context (HJs : ∀ s w, J w → J (l_set_state s w)) (HJd : ∀ d w, J w → J (l_set_db d w)).
Context (HJv : ∀ b w, J w → J (l_set_valid b w)) (HJh : ∀ h w, J w → J (l_set_host h w)).
Context (HJn : ∀ n w, calm n → J w → J (l_note n w)) (HJp : ∀ w, J w → J (l_set_panic w)).
Context (HJl : ∀ b w, J w → J (l_set_locked b w)) (HJf : ∀ w, J w → J (l_set_fatal w)).
Context (HD : ∀ h, (h_database h).1 = Ok ()).
Context (HO : ∀ a d h s', (∀ s, d = Some s → C s) → (h_others a d h).1 = Some s' → C s').

Abbreviation I := (Inv C J).

Lemma Inv_Handle w : I w → HandleInv w.
Proof. intros (Hs & Hd & Hj). by split. Qed.

Lemma row_Lock P a : (∀ w b d h, P w → P (l_set_locked b (l_set_db d (l_set_host h w)))) →
  (∀ w, P w → P (l_set_fatal w)) → pres (λ w, P w ∧ RowInv w) (Lock a).
Proof.
  intros HP HP' w r w' (Hw & Hd & Hj) Hr. unfold Lock in Hr. destruct (l_locked w).
  - injection Hr as _ <-. split; [by apply HP'|]. by split; auto.
  - destruct (h_others a (l_db w) (l_host w)) as [d h] eqn:Ho. injection Hr as _ <-.
    split; [by apply HP|]. split; simpl; [|auto]. intros s ->. eapply (HO a _ (l_host w)); [exact Hd|by rewrite Ho].
Qed.

Lemma row_Unlock P : (∀ w, P w → P (l_set_locked false w)) → (∀ w, P w → P (l_set_fatal w)) →
  pres (λ w, P w ∧ RowInv w) Unlock.
Proof.
  intros HP HP' w r w' (Hw & Hd & Hj) Hr. unfold Unlock in Hr.
  destruct (l_locked w); injection Hr as _ <-; (split; [auto|by split; auto]).
Qed.

Lemma inv_row_iff w : I w ↔ C (l_state w) ∧ RowInv w.
Proof. done. Qed.

Lemma inv_Lock a : pres I (Lock a).
Proof. by apply (row_Lock (λ w, C (l_state w))). Qed.

Lemma inv_Unlock : pres I Unlock.
Proof. by apply (row_Unlock (λ w, C (l_state w))). Qed.

Lemma row_keeps : Keeps I.
Proof. by apply inv_keeps. Qed.
Lemma row_keepsRuntime : KeepsRuntime I.
Proof. by apply inv_keepsRuntime. Qed.
Lemma row_keepsSync : KeepsSync config I.
Proof. by apply inv_keepsSync. Qed.
Lemma row_keepsExec : KeepsExec config false I.
Proof. apply inv_keepsExec; try done; [apply inv_Lock|apply inv_Unlock]. Qed.
Lemma row_keepsStop : KeepsStop config false I.
Proof.
  apply inv_keepsStop; try done; [apply row_keepsExec|]. intros t. apply inv_stop; try done; [apply inv_Lock|apply inv_Unlock].
Qed.
#[local] Hint Resolve row_keeps row_keepsRuntime row_keepsSync row_keepsExec row_keepsStop : life.

(** ** Synchronisation establishes the invariant of the handle. *)

Lemma row_UpdateContainer : hoare RowInv UpdateContainer (λ r w, if is_Ok r then I w else RowInv w ∧ l_valid w = false).
Proof.
  intros w r w' [Hd Hj] Hr. unfold UpdateContainer, mbind, st_bind, gets, failIf, throw in Hr.
  destruct (l_valid w) eqn:Hv; simpl in Hr; [|by injection Hr as <- <-].
  unfold host in Hr. pose proof (HD (l_host w)) as Hdb. destruct (h_database (l_host w)) as [x h]. simpl in Hdb. subst x.
  simpl in Hr. destruct (l_db w) as [s|] eqn:Hs; injection Hr as <- <-; simpl.
  - split_and!; simpl; [by apply Hd|rewrite Hs; by apply Hd|auto].
  - split; [|done]. split; simpl; [by rewrite Hs|auto].
Qed.

Lemma row_sync : hoare RowInv (syncContainer config) (λ r w, if is_Ok r then I w else HandleInv w).
Proof.
  unfold syncContainer. eapply hoare_bind; [apply row_UpdateContainer| |].
  - intros u. eapply (hoare_weaken I _ _ (λ _, I)); [apply hoare_pres|done|intros [] w; [done|apply Inv_Handle]].
    unfold ensureState. pres_tac. apply inv_onState; [done|]. intros s Hs. destruct (restartPolicyMatches _ _ s) eqn:Hm; eauto.
  - intros e w [Hw Hv]. split; [by rewrite Hv|done].
Qed.

Lemma handle_Lock a : pres HandleInv (Lock a).
Proof. by apply (row_Lock (λ w, l_valid w = true → C (l_state w))). Qed.

Lemma handle_Unlock : pres HandleInv Unlock.
Proof. by apply (row_Unlock (λ w, l_valid w = true → C (l_state w))). Qed.

(** *** Operations on a handle that may be invalid *)

Lemma handle_benign f : (∀ s, samePolicy s (f s)) → pres HandleInv (onState f).
Proof.
  intros Hf. apply pres_modify. intros w (Hs & Hd & Hj). split; [|by split; simpl; auto].
  intros Hv. by apply (HC (l_state w)), Hs.
Qed.

Lemma handle_host {A} (f : H → result error A * H) : pres HandleInv (host f).
Proof. apply pres_host. intros w (Hs & Hd & Hj). split; [done|]. split; simpl; auto. Qed.

Lemma handle_host' {A} (f : H → A * H) : pres HandleInv (host' f).
Proof. apply pres_host'. intros w (Hs & Hd & Hj). split; [done|]. split; simpl; auto. Qed.

Lemma handle_noted n : calm n → pres HandleInv (noted n).
Proof. intros Hn. apply pres_modify. intros w (Hs & Hd & Hj). split; [done|]. split; simpl; auto. Qed.

Lemma handle_save : pres HandleInv save.
Proof.
  unfold save. intros w r w' (Hs & Hd & Hj) Hr. unfold mbind, st_bind, gets, failIf, throw in Hr.
  destruct (l_valid w) eqn:Hv; simpl in Hr; [|injection Hr as _ <-; split; [by rewrite Hv|done]].
  unfold host in Hr. destruct (h_database (l_host w)) as [[u|e'] h]; simpl in Hr; [|injection Hr as _ <-].
  - destruct (l_db w) as [s|] eqn:Hrow; injection Hr as _ <-.
    + split; simpl; [by auto|]. split; simpl; [intros ? [= <-]; auto|]. apply HJn; [by split|]. by auto.
    + split; simpl; [done|]. split; simpl; [by rewrite Hrow|]. auto.
  - split; simpl; [by rewrite Hv|]. split; simpl; auto.
Qed.

Lemma handle_keeps : Keeps HandleInv.
Proof.
  constructor; intros.
  - apply handle_benign. intros s. by destruct (H1 s).
  - apply handle_host.
  - apply handle_host'.
  - by apply handle_noted.
  - apply pres_modify. intros w (Hs & Hd & Hj). split; [done|]. by split; simpl; auto.
  - intros w r w' [_ Hw] Hr. apply row_UpdateContainer in Hr; [|done]. destruct r; [by apply Inv_Handle|].
    destruct Hr as [Hr Hv]. split; [by rewrite Hv|done].
  - apply handle_save.
Qed.
#[local] Hint Resolve handle_keeps : life.
#[local] Hint Extern 3 (pres HandleInv (onState _)) => (apply handle_benign; intros ?; repeat case_decide; done) : life.

Lemma handle_cleanupRuntime : pres HandleInv cleanupRuntime.
Proof. unfold cleanupRuntime, deleteContainer, ensureState. pres_tac. Qed.

Lemma row_signalAttached : pres RowInv signalAttached.
Proof.
  apply pres_bind; [intros w r w' Hw Hr; by eapply (row_Lock (λ _, True) AtReady)|intros _].
  apply pres_finally; [|intros w r w' Hw Hr; by eapply (row_Unlock (λ _, True))]. apply pres_ignore, pres_KillContainer.
  - intros f. apply pres_modify. intros w [Hd Hj]. split; simpl; auto.
  - intros A f _. apply pres_host. intros w [Hd Hj]. split; simpl; auto.
  - intros A f _. apply pres_host'. intros w [Hd Hj]. split; simpl; auto.
  - intros n Hn. apply pres_modify. intros w [Hd Hj]. split; simpl; auto.
Qed.

Lemma row_callInv : CallInv config RowInv I HandleInv.
Proof.
  constructor; auto with life.
  - apply Inv_Handle.
  - by intros w [_ ?].
  - apply row_sync.
  - apply handle_cleanupRuntime.
  - intros w r w' Hw Hr. by eapply (row_Lock (λ _, True) AtCall).
  - apply handle_Lock.
  - apply handle_Unlock.
  - intros A f _. apply pres_host. intros w [Hd Hj]. split; simpl; auto.
  - intros n Hn. apply pres_modify. intros w [Hd Hj]. split; simpl; auto.
  - apply pres_modify. intros w [Hd Hj]. split; simpl; auto.
  - apply row_signalAttached.
  - apply pres_modify. intros w (Hs & Hd & Hj). split_and!; simpl; [by apply (HC (l_state w))|done|auto].
Qed.
End row.

(** ** The restart policy *)

Section policy.
Context {H : Type} `{Host H} (config : ContainerConfig).

(** Looking at the dependencies changes nothing but the host. *)
Lemma checkDependencies_host w0 :
  pres (λ w, ∃ h, w = l_set_host h w0) (checkDependenciesAndHandleError config).
Proof.
  assert (∀ A (f : H → result error A * H), pres (λ w, ∃ h, w = l_set_host h w0) (host f)) as Hh.
  { intros A f. apply pres_host. intros w [h ->]. by eexists. }
  unfold checkDependenciesAndHandleError, checkDependenciesRunning. apply pres_bind; [|intros ?; apply pres_failIf].
  generalize (@nil string). induction (elements (config_deps config)) as [|d deps IH]; intros acc; simpl; pres_tac.
Qed.

(** An invariant is kept by [handleRestartPolicy] when it is kept by counting a restart
    that the policy asks for, and by the restart itself. *)
Lemma policy_keeps (C : ContainerState → Prop) (J : LWorld H → Prop) :
  let I := Inv C J in
  (∀ h w, J w → J (l_set_host h w)) → (∀ s w, J w → J (l_set_state s w)) →
  (∀ n w, calm n → J w → J (l_note n w)) →
  (∀ s, shouldRestart config s = true → C s → C (cs_set_RestartCount (uint64 (cs_RestartCount s + 1)) s)) →
  pres I (_ ← save;
          onError (_ ← prepare config; _ ← setupRootlessNetwork config; _ ← initIfNeeded config true;
                   _ ← start config; mret true) (ignore (cleanup config))) →
  pres I (handleRestartPolicy config).
Proof.
  intros I HJh HJs HJn Hcount Hrest w r w' Hw Hr. unfold handleRestartPolicy, getState, mbind, st_bind, gets in Hr.
  destruct (shouldRestart config (l_state w)) eqn:Hs; simpl in Hr; [|by injection Hr as _ <-].
  destruct (checkDependenciesAndHandleError config w) as [x w1] eqn:Hd.
  destruct (checkDependencies_host w w x w1) as [h ->]; [by exists (l_host w); destruct w|done|].
  destruct Hw as (Hm & Hrow & Hj). destruct x as [u|e]; [|injection Hr as _ <-; split_and!; simpl; auto].
  unfold ensureState, gets in Hr. destruct (bool_decide (_ ∈ [Running; Paused])); [injection Hr as _ <-; split_and!; simpl; auto|].
  destruct (bool_decide (_ ∈ [Unknown])); [injection Hr as _ <-; split_and!; simpl; auto|].
  eapply Hrest; [|exact Hr]. split_and!; simpl; [by apply Hcount|done|]. apply HJs, HJn; [by split|auto].
Qed.
End policy.

(** ** Histories

    Any number of calls, each with a handle of its own: another process, or another
    object in this one, has any state in memory. *)

Section steps.
Context {H : Type} `{Host H} (config : ContainerConfig) (allowed : lcall → Prop).

Inductive lstep : LWorld H → LWorld H → Prop :=
| lstep_call c w r w' : allowed c → lexec config false c w = (r, w') → lstep w w'
| lstep_handle s v w : lstep w (l_set_state s (l_set_valid v w)).

Lemma lsteps_keep (P : LWorld H → Prop) w w' :
  (∀ c, allowed c → hoare P (lexec config false c) (λ _, P)) →
  (∀ s v w, P w → P (l_set_state s (l_set_valid v w))) →
  P w → rtc lstep w w' → P w'.
Proof.
  intros Hc Hh Hw Hs. induction Hs as [|w w1 w2 Hs _ IH]; [done|]. apply IH.
  destruct Hs as [c w r w' Ha Hr|s v w]; [by eapply Hc in Hr|by apply Hh].
Qed.
End steps.
