(* ===== verification/LifeOrphan.v ===== *)
(** * LifeOrphan: no container is left behind in the OCI runtime

    When the row says that a container is not in the OCI runtime ([Configured] or
    [Exited]), it is not there.  [inRuntime] is the part of the host that matters: does
    the runtime have a container with this ID?  The class [OCILaws] states what
    the code relies on: only a creation puts it there, a deletion that
    succeeds takes it away, and the other processes follow the same rules.  At the end, what
    the removal of a container leaves. *)

From S2P Require Import Prelude Define Ports Strconv Graph Life LifeOps LifeApi LifeHoare LifeInv LifeCalls.

(** ** A predicate on the world that the operations of a walk keep *)

Section walk_world.
Context {W : Type} `{ContainerOps W} (P : W → Prop).
Context (Hdeps : ∀ id w, P w → P (op_checkDependenciesRunning id w).2).
Context (Hsync : ∀ id w, P w → P (op_syncContainer id w).2).
Context (Hstart : ∀ id w, P w → P (op_initAndStart id w).2).
Context (Hrestart : ∀ id t w, P w → P (op_restartWithTimeout id t w).2).

Lemma guarded_world id op (r : bool * Walk W) :
  (∀ w, P w → P (op w).2) → P (wk_world r.2) → P (wk_world (guarded id op r).2).
Proof.
  intros Hop Hr. unfold guarded. destruct r.1; [done|]. specialize (Hop _ Hr).
  by destruct (op (wk_world r.2)) as [[] w].
Qed.

Lemma checkDeps_world id w : P w → P (checkDeps id w).2.
Proof.
  intros Hw. unfold checkDeps. specialize (Hdeps id w Hw).
  by destruct (op_checkDependenciesRunning id w) as [[[|]|] w'].
Qed.

Lemma startOne_world restart node s : P (wk_world s) → P (wk_world (startOne restart node s).2).
Proof.
  intros Hs. unfold startOne. cbv zeta.
  set (r1 := guarded (cn_id node) (checkDeps (cn_id node)) (false, s)).
  assert (P (wk_world r1.2)) as H1 by (apply guarded_world; [apply checkDeps_world|done]).
  set (r2 := guarded (cn_id node) (op_syncContainer (cn_id node)) (r1.1, emit (EvLock (cn_id node)) r1.2)).
  assert (P (wk_world r2.2)) as H2 by (apply guarded_world; [apply Hsync|done]).
  repeat case_match; simpl; try done; apply guarded_world; simpl; auto.
Qed.

Lemma foldO_world (f : string → Walk W → option (Walk W)) l s s' :
  (∀ x t t', f x t = Some t' → P (wk_world t) → P (wk_world t')) →
  foldO f l s = Some s' → P (wk_world s) → P (wk_world s').
Proof.
  intros Hf. revert s. induction l as [|x l IH]; intros s; simpl; [by intros [= ->]|].
  intros Hr Hs. destruct (f x s) as [t|] eqn:Hx; simpl in Hr; [|done]. eapply IH; eauto.
Qed.

Lemma startNode_world restart fuel nodes : ∀ id b s s',
  startNode fuel nodes restart id b s = Some s' → P (wk_world s) → P (wk_world s').
Proof.
  induction fuel as [|fuel IH]; intros id b s s'; simpl; [done|]. case_decide; [by intros [= ->]|].
  destruct (nodes !! id) as [node|]; [|done]. destruct b; [|case_decide; [|by intros [= ->]]].
  - intros Hr Hs. by eapply foldO_world in Hr; eauto.
  - intros Hr Hs. eapply foldO_world in Hr; eauto. by apply startOne_world.
Qed.

Lemma startGraph_world restart g s s' : startGraph restart g s = Some s' → P (wk_world s) → P (wk_world s').
Proof. apply foldO_world. intros x t t'. apply startNode_world. Qed.
End walk_world.

(** ** The laws *)

Section orphan.
Context {H : Type} `{Host H} (config : ContainerConfig) (inRuntime : H → bool).

(** A state that says that the container is not in the runtime is right. *)
Definition Absent (s : ContainerState) (h : H) : Prop := cs_State s ∈ outside → inRuntime h = false.

Definition RowAbsent (d : option ContainerState) (h : H) : Prop := ∀ s, d = Some s → Absent s h.

(** [h'] does not have the container in the runtime unless [h] has it. *)
Definition noneAdded (h h' : H) : Prop := inRuntime h' = true → inRuntime h = true.

Class OCILaws : Prop := {
  rl_call {A} (f : H → result error A * H) h : hostCall f → noneAdded h (f h).2;
  rl_query {A} (f : H → A * H) h : hostQuery f → noneAdded h (f h).2;
  rl_delete h : (h_request RuntimeDelete h).1 = Ok () → inRuntime (h_request RuntimeDelete h).2 = false;
  rl_create h e : (h_create h).1 = NotCreated e → noneAdded h (h_create h).2;
  rl_gone h : (h_state h).1 = RuntimeGone → inRuntime (h_state h).2 = false;
  rl_checkDependenciesRunning id h : noneAdded h (op_checkDependenciesRunning id h).2;
  rl_syncContainer id h : noneAdded h (op_syncContainer id h).2;
  rl_initAndStart id h : noneAdded h (op_initAndStart id h).2;
  rl_restartWithTimeout id t h : noneAdded h (op_restartWithTimeout id t h).2;
  rl_others a d h : RowAbsent d h → RowAbsent (h_others a d h).1 (h_others a d h).2;
  rl_removed a h : (h_others a None h).1 = None }.

(** Nobody creates the container between the end of a call and the moment at which
    it takes the lock again to save its error. *)
Definition quietAfterError : Prop := ∀ d h, noneAdded h (h_others AfterError d h).2.

(** The deletion that follows a creation of which conmon says that it has failed
    succeeds. *)
Definition failedCreationDeleted : Prop :=
  ∀ h e h', h_create h = (PipeFailed e, h') → (h_request RuntimeDelete h').1 = Ok ().

Context `{!OCILaws} (HD : ∀ h, (h_database h).1 = Ok ()).

Lemma absent_mono s h h' : noneAdded h h' → Absent s h → Absent s h'.
Proof. intros Hn Ha Hs. specialize (Ha Hs). destruct (inRuntime h') eqn:Hh; [|done]. apply Hn in Hh. congruence. Qed.

Lemma absent_not_outside s h : cs_State s ∉ outside → Absent s h.
Proof. by intros Hs ?. Qed.

Lemma absent_false s h : inRuntime h = false → Absent s h.
Proof. by intros ? _. Qed.

Lemma absent_same s s' h : cs_State s' = cs_State s ∨ cs_State s' ∉ outside → Absent s h → Absent s' h.
Proof. intros [Hs|Hs] Ha; unfold Absent in *; [by rewrite Hs|done]. Qed.

(** ** The invariants *)

Definition RowA (w : LWorld H) : Prop := RowAbsent (l_db w) (l_host w).
Definition HandleA (w : LWorld H) : Prop := (l_valid w = true → Absent (l_state w) (l_host w)) ∧ RowA w.

(** The handle is valid, or the row is gone. *)
Definition Attached (w : LWorld H) : Prop := l_valid w = true ∨ l_db w = None.
Definition SyncedA (w : LWorld H) : Prop := HandleA w ∧ Attached w.

Lemma database_mono h : noneAdded h (h_database h).2.
Proof. apply (rl_call h_database). constructor. Qed.

Lemma row_mono d h h' : noneAdded h h' → RowAbsent d h → RowAbsent d h'.
Proof. intros Hn Hd s Hs. by eapply absent_mono, Hd. Qed.

Lemma handle_mono w h : noneAdded (l_host w) h → HandleA w → HandleA (l_set_host h w).
Proof. intros Hn [Hm Hd]. split; [intros Hv; by eapply absent_mono, Hm|by eapply row_mono]. Qed.

Lemma handleA_save : pres HandleA save.
Proof.
  intros w r w' Hw Hr. rewrite (save_eq HD) in Hr.
  destruct (l_valid w) eqn:Hv; [|by injection Hr as _ <-].
  apply (handle_mono _ (h_database (l_host w)).2) in Hw as [Hm Hd]; [|apply database_mono]. simpl in *.
  destruct (l_db w) as [s|] eqn:Hs; injection Hr as _ <-; (split; simpl; [done|]); unfold RowA; simpl.
  - intros s' [= <-]. by apply Hm.
  - by rewrite Hs.
Qed.

Lemma updateA : hoare RowA UpdateContainer (λ r w, HandleA w ∧ (is_Ok r = true → SyncedA w)).
Proof.
  intros w r w' Hw Hr. rewrite (update_eq HD) in Hr.
  destruct (l_valid w) eqn:Hv; [|injection Hr as <- <-; split; [split; [by rewrite Hv|done]|done]].
  apply (row_mono _ _ (h_database (l_host w)).2) in Hw; [|apply database_mono]. simpl in *.
  destruct (l_db w) as [s|] eqn:Hs; injection Hr as <- <-.
  - assert (HandleA (l_set_state s (l_set_host (h_database (l_host w)).2 w))).
    { split; simpl; [intros _; by apply Hw|]. unfold RowA. simpl. by rewrite Hs. }
    split; [done|]. intros _. split; [done|]. by left.
  - split; [|done]. split; [done|]. unfold RowA. simpl. by rewrite Hs.
Qed.

Lemma handleA_keeps : Keeps HandleA.
Proof.
  constructor.
  - intros f Hf. apply pres_modify. intros w [Hm Hd]. split; [|done]. intros Hv. eapply absent_same, Hm, Hv. apply Hf.
  - intros A f Hf. apply pres_host. intros w Hw. apply handle_mono; [by apply rl_call|done].
  - intros A f Hf. apply pres_host'. intros w Hw. apply handle_mono; [by apply rl_query|done].
  - intros n _. apply pres_modify. by intros w [Hm Hd].
  - apply pres_modify. by intros w [Hm Hd].
  - intros w r w' [_ Hw] Hr. by apply updateA in Hr as [Hr _].
  - apply handleA_save.
Qed.

Lemma attached_keeps : Keeps Attached.
Proof.
  constructor; intros; try (apply pres_modify; by intros w [Hv|Hd]; [left|right]).
  - apply pres_host. by intros w [Hv|Hd]; [left|right].
  - apply pres_host'. by intros w [Hv|Hd]; [left|right].
  - intros w r w' Hw Hr. rewrite (update_eq HD) in Hr.
    destruct (l_valid w) eqn:Hv; simpl in Hr; [destruct (l_db w) eqn:Hd; injection Hr as _ <-; [by left|by right]|by injection Hr as _ <-].
  - intros w r w' Hw Hr. rewrite (save_eq HD) in Hr.
    destruct (l_valid w) eqn:Hv; simpl in Hr; [destruct (l_db w) eqn:Hd; injection Hr as _ <-; [by left|by right]|by injection Hr as _ <-].
Qed.

Lemma syncedA_keeps : Keeps SyncedA.
Proof. apply keeps_and; [apply handleA_keeps|apply attached_keeps]. Qed.

(** The container is not in the runtime. *)
Definition Gone (w : LWorld H) : Prop := inRuntime (l_host w) = false.

Lemma gone_mono w h : noneAdded (l_host w) h → Gone w → Gone (l_set_host h w).
Proof. unfold Gone. intros Hn Hw. simpl. destruct (inRuntime h) eqn:Hh; [|done]. apply Hn in Hh. congruence. Qed.

Lemma gone_keeps : Keeps Gone.
Proof.
  constructor; intros; try by apply pres_modify.
  - apply pres_host. intros w. by apply gone_mono, rl_call.
  - apply pres_host'. intros w. by apply gone_mono, rl_query.
  - intros w r w' Hw Hr. rewrite (update_eq HD) in Hr.
    apply (gone_mono _ (h_database (l_host w)).2) in Hw as Hw1; [|apply database_mono].
    destruct (l_valid w); simpl in Hr; [destruct (l_db w)|]; by injection Hr as _ <-.
  - intros w r w' Hw Hr. rewrite (save_eq HD) in Hr.
    apply (gone_mono _ (h_database (l_host w)).2) in Hw as Hw1; [|apply database_mono].
    destruct (l_valid w); simpl in Hr; [destruct (l_db w)|]; by injection Hr as _ <-.
Qed.

(** Any state is right when the container is gone. *)
Lemma gone_onState (I : LWorld H → Prop) f :
  (∀ w s, HandleA (l_set_state s w) → I w → I (l_set_state s w)) → (∀ w, I w → HandleA w) →
  pres (λ w, I w ∧ Gone w) (onState f).
Proof.
  intros HI HIh. apply pres_modify. intros w [Hw Hg]. split; [|done]. apply HI; [|done].
  split; [intros _; by apply absent_false|]. by apply HIh in Hw as [_ ?].
Qed.

(** ** The operations that take the container out of the runtime *)

Section runtime.
Context (I : LWorld H → Prop) `{!Keeps I}.
Context (HI : ∀ w s, HandleA (l_set_state s w) → I w → I (l_set_state s w)) (HIh : ∀ w, I w → HandleA w).

Lemma gone_I_keeps : Keeps (λ w, I w ∧ Gone w).
Proof. apply keeps_and; [done|apply gone_keeps]. Qed.
#[local] Hint Resolve gone_I_keeps : life.

Lemma delete_gone : hoare I (ask RuntimeDelete) (λ r w, I w ∧ (is_Ok r = true → Gone w)).
Proof.
  assert (pres I (ask RuntimeDelete)) as Hp by pres_tac.
  intros w r w' Hw Hr. split; [exact (Hp _ _ _ Hw Hr)|]. intros Hok.
  unfold ask, noted, modify, mbind, st_bind, host in Hr. simpl in Hr.
  pose proof (rl_delete (l_host w)) as Hd. destruct (h_request RuntimeDelete (l_host w)) as [x h]. injection Hr as -> <-.
  destruct r as [[]|]; [by apply Hd|done].
Qed.

Lemma pres_gone {A} (m : LM H A) w r w' : pres (λ w, I w ∧ Gone w) m → I w → Gone w → m w = (r, w') → I w'.
Proof. intros Hm Hw Hg Hr. by destruct (Hm _ _ _ (conj Hw Hg) Hr). Qed.

(** Something after which the container is gone, then anything that keeps that. *)
Lemma gone_bind {A B} (m : LM H A) (f : A → LM H B) :
  hoare I m (λ r w, I w ∧ (is_Ok r = true → Gone w)) → (∀ a, pres (λ w, I w ∧ Gone w) (f a)) → pres I (m ≫= f).
Proof.
  intros Hm Hf. apply (hoare_bind _ _ _ _ (λ _, I) Hm); [|by intros e w [? _]].
  intros a w r w' [Hw Hg] Hr. by eapply Hf in Hr as [? _]; [|split; [done|by apply Hg]].
Qed.

Lemma deleteContainer_gone : hoare I deleteContainer (λ r w, I w ∧ (is_Ok r = true → Gone w)).
Proof.
  assert (pres (λ w, I w ∧ Gone w) (ask PostDeleteHooks)) as Hp by pres_tac.
  eapply hoare_bind; [apply delete_gone| |by intros e w [? _]].
  intros a w r w' [Hw Hg] Hr. destruct (Hp _ _ _ (conj Hw (Hg eq_refl)) Hr) as [??]. by split.
Qed.

Lemma cleanupRuntime_orphan : pres I cleanupRuntime.
Proof.
  unfold cleanupRuntime, ensureState. apply pres_bind; [pres_tac|intros known]. destruct (negb known); [pres_tac|].
  do 2 (apply pres_bind; [pres_tac|intros _]). apply gone_bind; [apply deleteContainer_gone|intros _].
  apply pres_bind; [by apply gone_onState|]. pres_tac.
Qed.

Lemma state_gone : hoare I (host' h_state) (λ r w, I w ∧ (r = Ok RuntimeGone → Gone w)).
Proof.
  assert (pres I (host' h_state)) as Hp by pres_tac.
  intros w r w' Hw Hr. split; [exact (Hp _ _ _ Hw Hr)|]. intros ->. pose proof (rl_gone (l_host w)) as Hg.
  unfold host' in Hr. destruct (h_state (l_host w)) as [out h]. injection Hr as -> <-. by apply Hg.
Qed.

Lemma runtimeStatus_inside s st : runtimeStatus s = Some st → st ∉ outside.
Proof. unfold runtimeStatus. repeat case_decide; intros [= <-]; unfold outside; set_solver. Qed.

Lemma UpdateContainerStatus_orphan : pres I UpdateContainerStatus.
Proof.
  unfold UpdateContainerStatus, now. apply pres_bind; [pres_tac|intros old].
  apply (hoare_bind _ _ _ _ (λ _, I) state_gone); [|by intros e w [? _]]. intros out w r w' [Hw Hg].
  destruct out as [pid st| |].
  - revert w r w' Hw Hg. intros w r w' Hw _. revert w r w' Hw. apply pres_bind; [pres_tac|intros _].
    destruct (runtimeStatus st) as [st'|] eqn:Hst; [|apply pres_throw]. apply keeps_setStatus; [done|].
    case_bool_decide; [unfold outside; set_solver|by eapply runtimeStatus_inside].
  - apply pres_gone; [|done|by apply Hg].
    apply pres_bind; [pres_tac|intros _]. apply pres_bind; [by apply gone_onState|intros _].
    apply pres_bind; [pres_tac|intros t]. apply pres_bind; [by apply gone_onState|intros _]. pres_tac.
  - by intros [= _ <-].
Qed.
End runtime.

Lemma handleA_cleanupRuntime : pres HandleA cleanupRuntime.
Proof. apply cleanupRuntime_orphan; [apply handleA_keeps|done|done]. Qed.

Lemma syncedA_state w s : HandleA (l_set_state s w) → SyncedA w → SyncedA (l_set_state s w).
Proof. by intros Hh [_ Ha]. Qed.

Lemma syncedA_keepsRuntime : KeepsRuntime SyncedA.
Proof.
  pose proof syncedA_keeps. pose proof syncedA_state. constructor.
  - apply cleanupRuntime_orphan; [done|done|by intros w [? _]].
  - apply UpdateContainerStatus_orphan; [done|done|by intros w [? _]].
Qed.
#[local] Hint Resolve syncedA_keeps syncedA_keepsRuntime attached_keeps : life.

(** An assignment that does not say that the container has left the runtime *)
Lemma syncedA_onState f : (∀ s, cs_State (f s) = cs_State s ∨ cs_State (f s) ∉ outside) → pres SyncedA (onState f).
Proof.
  intros Hf. apply pres_modify. intros w [[Hm Hd] Ha]. split; [|done]. split; [|done].
  intros Hv. eapply absent_same; [apply Hf|]. by apply Hm.
Qed.
#[local] Hint Extern 3 (pres SyncedA (onState _)) =>
  (apply syncedA_onState; intros ?; repeat case_match; simpl; first [by left|right; unfold outside; set_solver]) : life.

(** ** Synchronisation *)

Lemma syncedA_sync : pres SyncedA (syncContainer config).
Proof. unfold syncContainer, ensureState. pres_tac. Qed.

Lemma attached_sync : pres Attached (syncContainer config).
Proof. unfold syncContainer, ensureState. pres_tac. by apply pres_modify. Qed.

Lemma rowA_sync : hoare RowA (syncContainer config) (λ r w, HandleA w ∧ (is_Ok r = true → SyncedA w)).
Proof.
  unfold syncContainer. eapply hoare_bind; [apply updateA| |done]. intros u.
  eapply (hoare_weaken SyncedA _ _ (λ _, SyncedA)).
  - apply hoare_pres. unfold ensureState. pres_tac.
  - intros w [_ Hs]. by apply Hs.
  - intros r w Hw. split; [by destruct Hw|done].
Qed.

(** After giving the lock back and taking it again, the row is right whatever the handle says. *)
Lemma resync_orphan : total (λ w, RowA w ∧ Attached w) (attempt (syncContainer config)) SyncedA.
Proof.
  intros w r w' [Hw Ha]. unfold attempt. destruct (syncContainer config w) as [x w1] eqn:Hs. intros [= <- <-].
  split; [by eexists|]. pose proof (attached_sync _ _ _ Ha Hs). eapply rowA_sync in Hs as [Hs _]; [|done]. by split.
Qed.

Lemma syncedA_keepsSync : KeepsSync config SyncedA.
Proof. constructor; [apply syncedA_sync|pres_tac|pres_tac]. Qed.
#[local] Hint Resolve syncedA_keepsSync : life.

(** ** The lock *)

Lemma rowA_Lock a : total (λ w, RowA w ∧ Attached w) (Lock a) (λ w, RowA w ∧ Attached w).
Proof.
  intros w r w' [Hw Ha] Hr. unfold Lock in Hr. destruct (l_locked w); [injection Hr as <- <-; split; [by eexists|done]|].
  pose proof (rl_others a _ _ Hw) as Ho. pose proof (rl_removed a (l_host w)) as Hn.
  destruct Ha as [Ha|Ha]; [|rewrite Ha in *]; destruct (h_others a _ (l_host w)) as [d h];
    injection Hr as <- <-; (split; [by eexists|]); (split; [done|]); [by left|by right].
Qed.

Lemma syncedA_Unlock : total SyncedA Unlock SyncedA.
Proof. intros w r w' Hw Hr. unfold Unlock in Hr. destruct (l_locked w); injection Hr as <- <-; (split; [by eexists|done]). Qed.

Lemma stop_orphan t : pres SyncedA (stop config false t).
Proof.
  unfold stop, ensureState. do 3 (apply pres_bind; [pres_tac|intros ?]).
  eapply hoare_total; [apply syncedA_Unlock|intros _u].
  eapply hoare_total; [apply (total_attempt SyncedA); pres_tac|intros stopErr].
  eapply (hoare_total _ SyncedA); [|intros synced; apply hoare_pres; pres_tac].
  eapply (hoare_total _ (λ w, RowA w ∧ Attached w)); [|intros _u'; apply resync_orphan].
  eapply hoare_weaken; [apply rowA_Lock|by intros w [[_ ?] ?]|done].
Qed.

Lemma syncedA_keepsExec : KeepsExec config false SyncedA.
Proof.
  intros id. unfold cleanupExecBundle. generalize 50, (@None error). intros n. induction n as [|n IH]; intros err; [pres_tac|].
  simpl. apply pres_bind; [pres_tac|intros e]. destruct e as [[]|]; try by pres_tac.
  apply pres_bind; [apply pres_bind; [pres_tac|intros _; apply total_pres, syncedA_Unlock]|intros _].
  apply pres_bind; [|intros _; apply IH]. eapply (hoare_total _ (λ w, RowA w ∧ Attached w)).
  - eapply hoare_weaken; [apply rowA_Lock|by intros w [[_ ?] ?]|done].
  - intros _u w r w' Hw Hr. eapply resync_orphan; [exact Hw|]. unfold attempt. by rewrite Hr.
Qed.
#[local] Hint Resolve syncedA_keepsExec : life.

(** ** Removal: the handle becomes invalid only after the row is gone. *)

Lemma removeRow_gone : hoare (λ _, True) removeRow (λ _ w, l_db w = None).
Proof.
  intros w r w' _ Hr. unfold removeRow in Hr. rewrite (database_ok HD) in Hr. unfold mbind, st_bind in Hr. simpl in Hr.
  destruct (l_db w) eqn:Hd; by injection Hr as _ <-.
Qed.

Lemma noRow_keeps : Keeps (λ w : LWorld H, l_db w = None).
Proof.
  constructor; intros; try by apply pres_modify.
  - by apply pres_host.
  - by apply pres_host'.
  - intros w r w' Hw Hr. rewrite (update_eq HD) in Hr. simpl in Hr. rewrite Hw in Hr.
    destruct (l_valid w); by injection Hr as _ <-.
  - intros w r w' Hw Hr. rewrite (save_eq HD) in Hr. simpl in Hr. rewrite Hw in Hr.
    destruct (l_valid w); by injection Hr as _ <-.
Qed.
#[local] Hint Resolve noRow_keeps : life.

Lemma invalidated : total (λ w : LWorld H, l_db w = None) (modify (l_set_valid false)) SyncedA.
Proof.
  intros w r w' Hw [= <- <-]. split; [by eexists|]. split; [|by right]. split; [done|]. unfold RowA. simpl. by rewrite Hw.
Qed.

Lemma tearDown_orphan removeVolume : pres SyncedA (tearDown config false removeVolume).
Proof.
  unfold tearDown. do 6 (apply pres_bind; [pres_tac|intros ?]).
  eapply (hoare_total _ (λ w, l_db w = None)).
  { intros w r w' Hw. unfold attempt. destruct (removeRow w) as [x w1] eqn:Hr. intros [= <- <-].
    split; [by eexists|]. by eapply removeRow_gone in Hr. }
  intros e. eapply hoare_total; [apply (total_attempt (λ w, l_db w = None)); pres_tac|intros e'].
  eapply hoare_total; [apply invalidated|intros _u]. apply hoare_pres. pres_tac.
Qed.

Lemma syncedA_keepsStop : KeepsStop config false SyncedA.
Proof. constructor; [apply stop_orphan|apply tearDown_orphan]. Qed.
#[local] Hint Resolve syncedA_keepsStop : life.

(** ** Creation: the row says so before anything else can fail. *)

Context (Hdeleted : failedCreationDeleted).

Lemma create_attached : hoare SyncedA CreateContainer (λ r w, if is_Ok r then Attached w else SyncedA w).
Proof.
  intros w r w' [Hw Ha] Hr. pose proof (rl_create (l_host w)) as Hc. pose proof (Hdeleted (l_host w)) as Hf.
  unfold CreateContainer, DeleteContainer, ignore, attempt, ask, noted, modify, host, host', onState, mbind, st_bind in Hr.
  simpl in Hr. destruct (h_create (l_host w)) as [[e|e|pid conmon] h]; simpl in *.
  - injection Hr as <- <-. simpl. split; [|done]. apply (handle_mono (l_note Created w)); [by eapply Hc|done].
  - specialize (Hf e h eq_refl). pose proof (rl_delete h Hf) as Hgone.
    destruct (h_request RuntimeDelete h) as [x h']. injection Hr as <- <-. simpl in *. split; [|done].
    split; [by intros _ ?|by intros s _ ?].
  - case_decide; by injection Hr as <- <-.
Qed.

(** The handle says [Created]. *)
Definition CreatedA (w : LWorld H) : Prop := Attached w ∧ cs_State (l_state w) = Created_.

Lemma createdA_save : hoare CreatedA save (λ _, SyncedA).
Proof.
  intros w r w' [Ha Hs] Hr. rewrite (save_eq HD) in Hr. simpl in Hr.
  assert (cs_State (l_state w) ∉ outside) as Ho by (rewrite Hs; unfold outside; set_solver).
  destruct (l_valid w) eqn:Hv; [destruct (l_db w) eqn:Hd|]; injection Hr as _ <-.
  - split; [|by left]. split; [by intros _ ?|]. by intros s' [= <-] ?.
  - split; [|by right]. split; [done|]. unfold RowA. simpl. by rewrite Hd.
  - destruct Ha as [Ha|Ha]; [congruence|]. split; [|by right]. split; [by rewrite Hv|]. unfold RowA. by rewrite Ha.
Qed.

Lemma init_orphan retainRetries : pres SyncedA (init config retainRetries).
Proof.
  unfold init. do 5 (apply pres_bind; [pres_tac|intros ?]).
  eapply hoare_bind; [apply create_attached|intros u|done].
  eapply (hoare_total Attached Attached); [by intros w r w' Hw [= <- <-]; split; [eexists|]|intros sessions].
  eapply (hoare_total Attached Attached).
  { case_decide; [by intros w r w' Hw [= <- <-]; split; [eexists|]|].
    eapply (hoare_total Attached Attached); [|intros ?; by intros w r w' Hw [= <- <-]; split; [eexists|]].
    eapply (hoare_total Attached Attached); [apply total_attempt; pres_tac|by intros ? w r w' Hw [= <- <-]; split; [eexists|]]. }
  intros _u. eapply (hoare_total Attached CreatedA).
  { intros w r w' Hw [= <- <-]. split; [by eexists|]. split; [done|]. by destruct retainRetries. }
  intros _u1. eapply (hoare_total CreatedA CreatedA).
  { eapply (hoare_total CreatedA CreatedA); [apply total_attempt|by intros ? w r w' Hw [= <- <-]; split; [eexists|]].
    apply pres_bind; [by apply pres_modify|intros _; by apply pres_host]. }
  intros _u2. eapply hoare_bind; [apply createdA_save|intros _u3|done]. apply hoare_pres. pres_tac.
Qed.

Lemma startDependencies_orphan fuel : pres SyncedA (startDependencies config fuel).
Proof.
  unfold startDependencies. repeat first [progress pres_step|case_decide].
  intros w r w' [Hw Ha] Hr. destruct (startGraph _ _ _) as [s|] eqn:Hs; [|by injection Hr as _ <-].
  injection Hr as _ <-. split; [|done]. apply handle_mono; [|done].
  eapply (startGraph_world (noneAdded (l_host w))) in Hs; [exact Hs|..|by intros ?].
  all: intros; unfold noneAdded in *.
  - intros Hx%rl_checkDependenciesRunning. auto.
  - intros Hx%rl_syncContainer. auto.
  - intros Hx%rl_initAndStart. auto.
  - intros Hx%rl_restartWithTimeout. auto.
Qed.

Lemma syncedA_keepsStart : KeepsStart config SyncedA.
Proof.
  constructor; [apply startDependencies_orphan|apply init_orphan|].
  assert (∀ n, pres SyncedA (noted n)) as Hn by by intros n; apply pres_modify.
  assert (∀ q, pres SyncedA (ask q)) by (intros q; apply pres_bind; [apply Hn|intros _; pres_tac]).
  unfold start, StartContainer, now. pres_tac.
Qed.
#[local] Hint Resolve syncedA_keepsStart : life.

Lemma handleRestartPolicy_orphan : pres SyncedA (handleRestartPolicy config).
Proof. unfold handleRestartPolicy, ensureState, getState. pres_tac. Qed.

(** ** The calls *)

Lemma rowA_takeLock a : pres RowA (Lock a).
Proof.
  intros w r w' Hw Hr. unfold Lock in Hr. destruct (l_locked w); [by injection Hr as _ <-|].
  pose proof (rl_others a _ _ Hw). destruct (h_others a _ _). by injection Hr as _ <-.
Qed.

Lemma rowA_host {A} (f : H → result error A * H) : hostCall f → pres RowA (host f).
Proof. intros Hf. apply pres_host. intros w Hw. eapply row_mono; [by apply rl_call|done]. Qed.

Lemma rowA_signalAttached : pres RowA signalAttached.
Proof.
  apply pres_bind; [apply rowA_takeLock|intros _]. apply pres_finally.
  - apply pres_ignore, pres_KillContainer; [by intros f; apply pres_modify|by intros A f; apply rowA_host| |by intros n _; apply pres_modify].
    intros A f Hf. apply pres_host'. intros w Hw. eapply row_mono; [by apply rl_query|done].
  - intros w r w' Hw Hr. unfold Unlock in Hr. by destruct (l_locked w); injection Hr as _ <-.
Qed.

Lemma orphan_callInv : quietAfterError → CallInv config RowA SyncedA HandleA.
Proof.
  intros Hq. constructor; auto with life; try apply handleA_keeps.
  - by intros w [? _].
  - by intros w [_ ?].
  - intros w r w' Hw Hr. eapply rowA_sync in Hr as [Hh Hs]; [|done]. destruct r; [by apply Hs|done].
  - apply handleA_cleanupRuntime.
  - apply rowA_takeLock.
  - intros w r w' [Hm Hw] Hr. unfold Lock in Hr. destruct (l_locked w); [by injection Hr as _ <-|].
    pose proof (rl_others AfterError _ _ Hw). pose proof (Hq (l_db w) (l_host w)). destruct (h_others AfterError _ _).
    injection Hr as _ <-. split; [|done]. intros Hv. eapply absent_mono; [done|by apply Hm].
  - intros w r w' Hw Hr. unfold Unlock in Hr. by destruct (l_locked w); injection Hr as _ <-.
  - by intros A f; apply rowA_host.
  - intros n Hn. by apply pres_modify.
  - by apply pres_modify.
  - apply rowA_signalAttached.
  - apply pres_modify. intros w [[Hm Hd] Ha]. by split; [split|].
Qed.
End orphan.

(** ** Removal of a container *)

Section remove.
Context {H : Type} `{Host H} (config : ContainerConfig) (HD : ∀ h, (h_database h).1 = Ok ()).

(** A predicate on the row that the elementary steps keep is kept by the operations
    that take the container out of the runtime, and by synchronisation. *)
Section row.
Context (P : option ContainerState → Prop) (HP : ∀ s s', P (Some s) → P (Some s')).

Abbreviation Row := (λ w : LWorld H, P (l_db w)).

Lemma row_onState f : pres Row (onState f).
Proof. by apply pres_modify. Qed.

Lemma row_pred_keeps : Keeps Row.
Proof.
  constructor; intros; try by apply pres_modify.
  - by apply pres_host.
  - by apply pres_host'.
  - intros w r w' Hw Hr. rewrite (update_eq HD) in Hr. simpl in Hr.
    destruct (l_valid w); [destruct (l_db w) eqn:Hd|]; injection Hr as _ <-; simpl; by rewrite ?Hd in *.
  - intros w r w' Hw Hr. rewrite (save_eq HD) in Hr. simpl in Hr.
    destruct (l_valid w); [destruct (l_db w) eqn:Hd|]; injection Hr as _ <-; simpl; rewrite ?Hd in *; eauto.
Qed.
#[local] Hint Resolve row_pred_keeps row_onState : life.

Lemma row_pred_keepsRuntime : KeepsRuntime Row.
Proof.
  constructor; [unfold cleanupRuntime, deleteContainer, ensureState|unfold UpdateContainerStatus, now, setStatus]; pres_tac.
Qed.

Lemma row_pred_sync : pres Row (syncContainer config).
Proof. unfold syncContainer, ensureState. pres_tac. Qed.
#[local] Hint Resolve row_pred_sync : life.

(** What others do while the lock is free keeps it. *)
Lemma row_pred_keepsExec : (∀ a d h, P d → P (h_others a d h).1) → KeepsExec config false Row.
Proof.
  intros HO id. assert (pres Row Unlock).
  { intros w r w' Hw Hr. unfold Unlock in Hr. by destruct (l_locked w); injection Hr as _ <-. }
  assert (pres Row (Lock AfterSleep)).
  { intros w r w' Hw Hr. unfold Lock in Hr. destruct (l_locked w); [by injection Hr as _ <-|].
    pose proof (HO AfterSleep _ (l_host w) Hw). destruct (h_others AfterSleep _ _). by injection Hr as _ <-. }
  unfold cleanupExecBundle. generalize 50, (@None error). intros n. induction n as [|n IH]; intros err; simpl; pres_tac.
Qed.
(** A container on which others depend is refused. *)
Lemma removeLocked_in_use force removeVolume t deps :
  (∀ h, (h_inUse h).1 = Ok deps) → deps ≠ [] → (∀ a d h, P d → P (h_others a d h).1) →
  hoare Row (removeLocked config false force removeVolume false t) (λ r w, is_Ok r = false ∧ P (l_db w)).
Proof.
  intros Hu Hd HO. pose proof row_pred_keepsRuntime. pose proof (row_pred_keepsExec HO).
  unfold removeLocked. do 4 (eapply (hoare_bind _ (λ _, Row)); [apply hoare_pres; pres_tac|intros ?|done]).
  intros w r w' Hw Hr. unfold mbind, st_bind, host in Hr. pose proof (Hu (l_host w)) as Hh.
  destruct (h_inUse (l_host w)) as [x h]. simpl in Hh. subst x. simpl in Hr.
  rewrite bool_decide_true in Hr by done. by injection Hr as <- <-.
Qed.
End row.

Abbreviation NoRow := (λ w : LWorld H, l_db w = None).

Lemma noRow_keepsAll : Keeps NoRow ∧ KeepsRuntime NoRow.
Proof. split; [apply (row_pred_keeps (λ d, d = None))|apply (row_pred_keepsRuntime (λ d, d = None))]; done. Qed.

(** ** After a success the row is gone. *)

Definition removed {A} (r : result error A) (w : LWorld H) : Prop := is_Ok r = true → l_db w = None.

Lemma removed_bind {A B} (m : LM H A) (f : A → LM H B) :
  (∀ a, hoare (λ _, True) (f a) removed) → hoare (λ _, True) (m ≫= f) removed.
Proof. intros Hf. by eapply (hoare_bind _ (λ _ _, True)). Qed.

Lemma removed_finally {A} (m : LM H A) f : (∀ d, pres (λ w, l_db w = d) f) →
  hoare (λ _, True) m removed → hoare (λ _, True) (finally m f) removed.
Proof.
  intros Hf Hm w r w' _. unfold finally. destruct (m w) as [x w1] eqn:Hm1. destruct (f w1) as [y w2] eqn:Hf1.
  intros [= <- <-] Hok. rewrite (Hf (l_db w1) _ _ _ eq_refl Hf1). by eapply Hm in Hm1; [apply Hm1|].
Qed.

Lemma Unlock_row d : pres (λ w : LWorld H, l_db w = d) Unlock.
Proof. intros w r w' Hw. unfold Unlock. destruct (l_locked w); by intros [= _ <-]. Qed.

Lemma removeRow_noRow : hoare (λ _ : LWorld H, True) (attempt removeRow) (λ _, NoRow).
Proof.
  intros w r w' _ Hr. unfold attempt, removeRow in Hr. rewrite (database_ok HD) in Hr. unfold mbind, st_bind in Hr. simpl in Hr.
  destruct (l_db w) eqn:Hd; by injection Hr as _ <-.
Qed.

Lemma tearDown_removed removeVolume : hoare (λ _, True) (tearDown config false removeVolume) removed.
Proof.
  destruct noRow_keepsAll as [Hk _]. unfold tearDown. do 6 (apply removed_bind; intros ?).
  eapply hoare_bind; [apply removeRow_noRow|intros e|done].
  eapply (hoare_weaken NoRow _ _ (λ _, NoRow)); [|done|by intros r w ? _].
  assert (∀ b, pres NoRow (modify (l_set_valid b))) by by intros b; apply pres_modify.
  apply hoare_pres. pres_tac.
Qed.

Lemma hasContainer_noRow : hoare (λ _ : LWorld H, True) hasContainer (λ r w, r = Ok false → l_db w = None).
Proof.
  intros w r w' _ Hr. unfold hasContainer, attempt, host, mbind, st_bind, gets in Hr. pose proof (HD (l_host w)) as Hd.
  destruct (h_database (l_host w)) as [x h]. simpl in Hd. subst x. simpl in Hr. injection Hr as <- <-. simpl.
  intros [= Hb%bool_decide_eq_false]. apply eq_None_not_Some. tauto.
Qed.

Lemma stopForRemoval_noRow t : hoare (λ _, True) (stopForRemoval config false t) (λ r w, r = Ok false → l_db w = None).
Proof.
  unfold stopForRemoval. eapply (hoare_bind _ (λ _ _, True)); [done|intros running|done].
  destruct running; simpl; [|by intros w r w' _ [= <- <-]].
  do 2 (eapply (hoare_bind _ (λ _ _, True)); [done|intros ?|done]). apply hasContainer_noRow.
Qed.

Lemma removeLocked_removed force removeVolume ignoreDeps t :
  hoare (λ _, True) (removeLocked config false force removeVolume ignoreDeps t) removed.
Proof.
  unfold removeLocked. do 5 (apply removed_bind; intros ?). eapply hoare_bind; [apply stopForRemoval_noRow|intros e|done].
  destruct e; simpl; [|].
  - eapply hoare_weaken; [apply tearDown_removed|done|done].
  - destruct noRow_keepsAll as [Hk Hr]. eapply (hoare_weaken NoRow _ _ (λ _, NoRow)); [apply hoare_pres; pres_tac| |by intros r w ? _].
    intros w Hw. by apply Hw.
Qed.

Lemma ask_row q d : pres (λ w : LWorld H, l_db w = d) (ask q).
Proof. apply pres_bind; [by apply pres_modify|intros _; by apply pres_host]. Qed.

Lemma removeContainer_removed force removeVolume t :
  hoare (λ _, True) (removeContainer config false true force removeVolume false false t) removed.
Proof.
  unfold removeContainer. apply removed_bind. intros v.
  eapply (hoare_bind _ (λ r w, r = Ok false → l_db w = None)).
  { destruct v; [by intros w r w' _ [= <- <-]|apply hasContainer_noRow]. }
  2: done. intros known. destruct known; simpl; [|intros w r w' Hw [= <- <-] _; by apply Hw].
  eapply (hoare_weaken (λ _, True) _ _ removed); [|done|done]. apply removed_bind. intros _.
  assert (hoare (λ _, True) (_ ← Lock AtCall; finally (_ ← failIf (negb true) ErrRuntimeStopped;
    removeLocked config false force removeVolume false t) Unlock) removed) as Hbody.
  { apply removed_bind. intros _. apply removed_finally; [apply Unlock_row|]. apply removed_bind. intros _. apply removeLocked_removed. }
  case_decide; [exact Hbody|]. apply removed_bind. intros [[lockID p]|e]; [|by apply removed_bind; intros _ w r w' _ [= <- <-]].
  apply removed_bind. intros _. unfold lockingPod. apply removed_bind. intros _.
  apply removed_finally; [apply ask_row|]. do 2 (apply removed_bind; intros ?). exact Hbody.
Qed.

(** ** Refusals *)

Lemma removeLocked_running removeVolume ignoreDeps t w w1 :
  cc_IsInfra config = false → cc_IsService config = false → syncContainer config w = (Ok (), w1) →
  status w1 ∈ [Running; Paused; Stopping] →
  removeLocked config false false removeVolume ignoreDeps t w = (Err ErrCtrStateInvalid, w1).
Proof.
  intros Hi Hsv Hs Hst. unfold removeLocked, mbind, st_bind. rewrite Hs, Hsv. simpl.
  unfold checkReadyForRemoval, ensureState, gets, mbind, st_bind. rewrite !elem_of_cons, elem_of_nil in Hst.
  destruct Hst as [E|[E|[E|[]]]]; simpl; rewrite E, Hi; simpl; by rewrite E.
Qed.
End remove.
