(* ===== verification/LifeDeps.v ===== *)
(** * LifeDeps: the dependencies that are started with a container

    [getAllDependencies] and [startDependencies] when the database and the states of
    the other containers do not change while they run: the walk ends, and finds
    exactly the containers that are reached through containers that are not
    running. *)

From S2P Require Import Prelude Define Ports Strconv Graph GraphCycles GraphBuild Life LifeOps.

Section deps.
Context {H : Type} `{Host H}.

(** The containers of the database, and their states *)
Context (db : gmap string Container) (st : string → ContainerStatus).

(** What [state.Container] and [State] answer when nothing changes *)
Definition stableHost : Prop :=
  (∀ id h, h_container id h = (match db !! id with Some c => Ok c | None => Err ErrNoSuchCtr end, h)) ∧
  (∀ id h, h_status id h = (Ok (st id), h)).

(** The database has the dependencies of its containers. *)
Definition closedDb : Prop := ∀ id c d, db !! id = Some c → d ∈ Dependencies c → is_Some (db !! d).

(** Reached from [roots] through containers that are not running *)
Inductive needed (roots : list string) : string → Prop :=
| needed_root d : d ∈ roots → st d ≠ Running → needed roots d
| needed_dep id c d : needed roots id → db !! id = Some c → d ∈ Dependencies c → st d ≠ Running → needed roots d.

Context (Hstable : stableHost) (Hclosed : closedDb).

Lemma l_set_host_same (w : LWorld H) : l_set_host (l_host w) w = w.
Proof. by destruct w. Qed.

Lemma container_stable id (w : LWorld H) c : db !! id = Some c → host (h_container id) w = (Ok c, w).
Proof. destruct Hstable as [Hc _]. intros Hid. unfold host. by rewrite Hc, Hid, l_set_host_same. Qed.

Lemma status_stable id (w : LWorld H) : host (h_status id) w = (Ok (st id), w).
Proof. destruct Hstable as [_ Hs]. unfold host. by rewrite Hs, l_set_host_same. Qed.

(** What a call for [roots] adds to [visited] *)
Record Found (roots : list string) (visited v : gmap string Container) : Prop := {
  fd_old : visited ⊆ v;
  fd_db : v ⊆ db;
  fd_new id : is_Some (v !! id) → visited !! id = None → needed roots id;
  fd_roots d : d ∈ roots → st d ≠ Running → is_Some (v !! d);
  fd_deps id c d : v !! id = Some c → visited !! id = None → d ∈ Dependencies c → st d ≠ Running → is_Some (v !! d) }.

Lemma found_nil visited : visited ⊆ db → Found [] visited visited.
Proof.
  intros Hv. constructor; [done|done|..].
  - intros id [c Hc]. by rewrite Hc.
  - by intros d ?%elem_of_nil.
  - intros id c d Hc. by rewrite Hc.
Qed.

Lemma needed_mono roots roots' id : roots ⊆ roots' → needed roots id → needed roots' id.
Proof. intros Hr. induction 1; [apply needed_root|eapply needed_dep]; eauto. Qed.

(** A root that is running, or was visited before, adds nothing. *)
Lemma found_skip x roots visited v : (st x = Running ∨ is_Some (visited !! x)) →
  Found roots visited v → Found (x :: roots) visited v.
Proof.
  intros Hx [Ho Hd Hn Hr Hdep]. constructor; [done|done| | |done].
  - intros id Hi Hv. eapply needed_mono; [|by apply Hn]. set_solver.
  - intros d [->|Hin]%elem_of_cons Hs; [|by apply Hr]. destruct Hx as [?|[c Hc]]; [done|].
    exists c. by eapply lookup_weaken.
Qed.

(** The dependencies of a new container, then the other roots *)
Lemma found_step x c roots visited v1 v :
  db !! x = Some c → st x ≠ Running → visited !! x = None →
  Found (Dependencies c) (<[x := c]> visited) v1 → Found roots v1 v → Found (x :: roots) visited v.
Proof.
  intros Hx Hst Hnew [Ho1 Hd1 Hn1 Hr1 Hdep1] [Ho Hd Hn Hr Hdep].
  assert (v1 !! x = Some c) as Hx1 by (eapply lookup_weaken; [apply lookup_insert_eq|done]).
  assert (needed (x :: roots) x) as Hnx by (apply needed_root; [by left|done]).
  assert (∀ id, needed (Dependencies c) id → needed (x :: roots) id) as Hsub.
  { induction 1; eauto using needed_dep. }
  constructor; [|done|..].
  - etrans; [apply insert_subseteq, Hnew|]. by etrans.
  - intros id Hi Hv. destruct (v1 !! id) as [c1|] eqn:H1.
    + destruct (decide (id = x)) as [->|Hne]; [done|]. apply Hsub, Hn1; [by eexists|]. by rewrite lookup_insert_ne.
    + eapply needed_mono; [|by apply Hn]. set_solver.
  - intros d [->|Hin]%elem_of_cons Hs; [exists c; by eapply lookup_weaken|by apply Hr].
  - intros id c' d Hi Hv Hdc Hs. destruct (v1 !! id) as [c1|] eqn:H1; [|by eapply Hdep].
    assert (c' = c1) as -> by (apply (lookup_weaken _ v) in H1; [congruence|done]).
    assert (is_Some (v1 !! d)) as [cd Hcd]; [|exists cd; by eapply lookup_weaken].
    destruct (decide (id = x)) as [->|Hne]; [apply Hr1; congruence|].
    eapply Hdep1; [exact H1|by rewrite lookup_insert_ne|done|done].
Qed.

Lemma found_size visited x : visited ⊆ db → visited !! x = None → is_Some (db !! x) → size visited < size db.
Proof.
  intros Hv Hx [c Hc]. apply map_subset_size, map_subset_alt. split; [done|]. exists x. by rewrite Hx, Hc.
Qed.

Lemma getAllDependencies_found fuel : ∀ roots visited w,
  (∀ d, d ∈ roots → is_Some (db !! d)) → visited ⊆ db → size db - size visited < fuel →
  ∃ v, getAllDependencies fuel roots visited w = (Ok (Some v), w) ∧ Found roots visited v.
Proof.
  induction fuel as [|fuel IH]; intros roots visited w Hroots Hv Hfuel; [lia|]. cbn [getAllDependencies].
  revert visited w Hv Hfuel. induction roots as [|x roots IHr]; intros visited w Hv Hfuel.
  { exists visited. split; [done|by apply found_nil]. }
  assert (∀ d, d ∈ roots → is_Some (db !! d)) as Hroots' by (intros; apply Hroots; by right).
  specialize (IHr Hroots'). cbn [foldM]. unfold mbind at 1, st_bind at 1.
  destruct (visited !! x) as [c|] eqn:Hx.
  { destruct (IHr visited w Hv Hfuel) as (v & Hr & Hf). exists v. split; [exact Hr|]. apply found_skip; [|done]. right. by eexists. }
  destruct (Hroots x (list_elem_of_here _ _)) as [c Hc]. unfold mbind at 1, st_bind at 1.
  rewrite (container_stable x w c Hc). unfold mbind at 1, st_bind at 1. rewrite status_stable.
  case_bool_decide as Hrun.
  { destruct (IHr visited w Hv Hfuel) as (v & Hr & Hf). exists v. split; [exact Hr|]. apply found_skip; [|done]. by left. }
  assert (size visited < size db) as Hsz by (eapply found_size; [done|exact Hx|by eexists]).
  destruct (IH (Dependencies c) (<[x := c]> visited) w) as (v1 & Hr1 & Hf1).
  { intros d. by apply (Hclosed x). }
  { by apply insert_subseteq_l. }
  { rewrite map_size_insert_None by done. lia. }
  rewrite Hr1. destruct (IHr v1 w) as (v & Hr & Hf).
  { by apply (fd_db _ _ _ Hf1). }
  { pose proof (map_subseteq_size _ _ (fd_old _ _ _ Hf1)) as Hle. rewrite map_size_insert_None in Hle by done. lia. }
  exists v. split; [exact Hr|]. by eapply found_step.
Qed.

Lemma getAllDependencies_exact fuel roots w : (∀ d, d ∈ roots → is_Some (db !! d)) → size db < fuel →
  ∃ v, getAllDependencies fuel roots ∅ w = (Ok (Some v), w) ∧ v ⊆ db ∧ ∀ id, is_Some (v !! id) ↔ needed roots id.
Proof.
  intros Hroots Hfuel. destruct (getAllDependencies_found fuel roots ∅ w) as (v & Hr & Hf); [done|apply map_empty_subseteq|lia|].
  exists v. split_and!; [done|by apply (fd_db _ _ _ Hf)|]. intros id. split.
  - intros Hi. eapply fd_new; [exact Hf|done|apply lookup_empty].
  - induction 1 as [d Hd Hs|id c d Hid [c' Hc'] Hc Hdc Hs]; [by eapply fd_roots|].
    eapply (fd_deps _ _ _ Hf id c'); [done|apply lookup_empty| |done].
    apply (lookup_weaken _ db) in Hc'; [|by apply (fd_db _ _ _ Hf)]. congruence.
Qed.
End deps.

(** ** The slice made of the map that was found *)

Section slice.
Context (db : gmap string Container) (Hids : ∀ id c, db !! id = Some c → ctr_ID c = id).

Lemma ctrMap_snoc l c : ctrMap (l ++ [c]) = <[ctr_ID c := c]> (ctrMap l).
Proof. unfold ctrMap. by rewrite foldl_app. Qed.

Lemma ctrMap_omap v l id : v ⊆ db →
  ctrMap (omap (v !!.) l) !! id = if decide (id ∈ l) then v !! id else None.
Proof.
  intros Hv. induction l as [|x l IH] using rev_ind; [by rewrite decide_False by apply not_elem_of_nil|].
  rewrite omap_app. simpl. destruct (v !! x) as [c|] eqn:Hx.
  - rewrite ctrMap_snoc. assert (ctr_ID c = x) as -> by (apply Hids; by eapply lookup_weaken).
    destruct (decide (id = x)) as [->|Hne].
    + rewrite lookup_insert_eq, decide_True by set_solver. done.
    + rewrite lookup_insert_ne by done. rewrite IH. repeat case_decide; set_solver.
  - rewrite app_nil_r, IH. destruct (decide (id = x)) as [->|Hne]; repeat case_decide; set_solver.
Qed.

Lemma ctrMap_visited v order : v ⊆ db → order ≡ₚ elements (dom v) → ctrMap (omap (v !!.) order) = v.
Proof.
  intros Hv Ho. apply map_eq. intros id. rewrite ctrMap_omap by done. case_decide as Hin; [done|].
  rewrite Ho, elem_of_elements, not_elem_of_dom in Hin. done.
Qed.
End slice.
