(* ===== verification/UnitText.v ===== *)
(** * UnitText: Go strings as bytes

    The parser of systemd units ([pkg/systemd/parser]) works on strings byte by byte
    and, in loops with [range], rune by rune.  A string is a list of bytes; [runes] is
    the UTF-8 decoding of such a loop and [WriteRune] the encoding, with Go's treatment of
    invalid sequences, and the functions of the packages [strings], [unicode] and
    [strconv] are the ones that the parser uses. *)

From Stdlib Require Export Ascii.
From S2P Require Import Prelude.

Abbreviation text := (list ascii).

Definition T (s : string) : text := String.list_ascii_of_string s.

(** ** Bytes *)

Definition code (c : ascii) : N := N_of_ascii c.
Definition byte (n : N) : ascii := ascii_of_N n.

Definition NUL : ascii := "000"%char.
Definition TAB : ascii := "009"%char.
Definition LF : ascii := "010"%char.
Definition CR : ascii := "013"%char.
Definition SP : ascii := " "%char.
Definition DQ : ascii := "034"%char.
Definition SQ : ascii := "039"%char.
Definition BS : ascii := "092"%char.

Lemma code_byte n : (n < 256)%N → code (byte n) = n.
Proof. apply N_ascii_embedding. Qed.

Lemma byte_code c : byte (code c) = c.
Proof. apply ascii_N_embedding. Qed.

Lemma code_lt c : (code c < 256)%N.
Proof. apply N_ascii_bounded. Qed.

Lemma code_inj c c' : code c = code c' → c = c'.
Proof. intros Hc. by rewrite <- (byte_code c), Hc, byte_code. Qed.

(** ** UTF-8 *)

Local Open Scope N_scope.

Definition RuneError : N := 0xFFFD.
Definition MaxRune : N := 0x10FFFF.

Definition between (a x b : N) : bool := (a <=? x) && (x <=? b).
Definition continuation (x : N) : bool := between 0x80 x 0xBF.

(** The second byte that the first one admits in a sequence of three or four bytes *)
Definition second3 (x0 x1 : N) : bool :=
  if x0 =? 0xE0 then between 0xA0 x1 0xBF
  else if x0 =? 0xED then between 0x80 x1 0x9F
  else continuation x1.

Definition second4 (x0 x1 : N) : bool :=
  if x0 =? 0xF0 then between 0x90 x1 0xBF
  else if x0 =? 0xF4 then between 0x80 x1 0x8F
  else continuation x1.

Definition rune2 (x0 x1 : N) : N := (x0 - 0xC0) * 64 + (x1 - 0x80).
Definition rune3 (x0 x1 x2 : N) : N := (x0 - 0xE0) * 4096 + (x1 - 0x80) * 64 + (x2 - 0x80).
Definition rune4 (x0 x1 x2 x3 : N) : N :=
  (x0 - 0xF0) * 262144 + (x1 - 0x80) * 4096 + (x2 - 0x80) * 64 + (x3 - 0x80).

Definition valid2 (x0 x1 : N) : bool := between 0xC2 x0 0xDF && continuation x1.
Definition valid3 (x0 x1 x2 : N) : bool := between 0xE0 x0 0xEF && second3 x0 x1 && continuation x2.
Definition valid4 (x0 x1 x2 x3 : N) : bool :=
  between 0xF0 x0 0xF4 && second4 x0 x1 && continuation x2 && continuation x3.

(** The runes of a string with their bytes; a byte that does not begin a valid
    sequence is the rune [RuneError]. *)
Fixpoint chunks (s : text) : list (N * text) :=
  match s with
  | [] => []
  | b0 :: s0 =>
      if code b0 <? 0x80 then (code b0, [b0]) :: chunks s0 else
      match s0 with
      | b1 :: s1 =>
          if valid2 (code b0) (code b1) then (rune2 (code b0) (code b1), [b0; b1]) :: chunks s1 else
          match s1 with
          | b2 :: s2 =>
              if valid3 (code b0) (code b1) (code b2)
              then (rune3 (code b0) (code b1) (code b2), [b0; b1; b2]) :: chunks s2 else
              match s2 with
              | b3 :: s3 =>
                  if valid4 (code b0) (code b1) (code b2) (code b3)
                  then (rune4 (code b0) (code b1) (code b2) (code b3), [b0; b1; b2; b3]) :: chunks s3
                  else (RuneError, [b0]) :: chunks s0
              | [] => (RuneError, [b0]) :: chunks s0
              end
          | [] => (RuneError, [b0]) :: chunks s0
          end
      | [] => (RuneError, [b0]) :: chunks s0
      end
  end.

Definition runes (s : text) : list N := (chunks s).*1.

(** [strings.Builder.WriteRune] *)
Definition WriteRune (r : N) : text :=
  if r <? 0x80 then [byte r]
  else if r <? 0x800 then [byte (0xC0 + r / 64); byte (0x80 + r mod 64)]
  else if between 0xD800 r 0xDFFF || (MaxRune <? r) then [byte 0xEF; byte 0xBF; byte 0xBD]
  else if r <? 0x10000 then [byte (0xE0 + r / 4096); byte (0x80 + r / 64 mod 64); byte (0x80 + r mod 64)]
  else [byte (0xF0 + r / 262144); byte (0x80 + r / 4096 mod 64); byte (0x80 + r / 64 mod 64); byte (0x80 + r mod 64)].

(** [utf8.ValidString] *)
Definition ValidString (s : text) : bool :=
  forallb (λ c, match c with (r, [_]) => negb (r =? RuneError) | _ => true end) (chunks s).

(** ** [unicode] *)

Definition IsControl (r : N) : bool := (r <? 0x20) || between 0x7F r 0x9F.

Definition IsSpace (r : N) : bool :=
  between 9 r 13 || (r =? 0x20) || (r =? 0x85) || (r =? 0xA0) || (r =? 0x1680) || between 0x2000 r 0x200A ||
  (r =? 0x2028) || (r =? 0x2029) || (r =? 0x202F) || (r =? 0x205F) || (r =? 0x3000).

Definition lowerASCII (r : N) : N := if between 65 r 90 then r + 32 else r.

(** The smallest member of the orbit of a rune under simple folding, as far as it
    contains ASCII letters: the long s and the Kelvin sign. *)
Definition foldASCII (r : N) : N :=
  if r =? 0x17F then 115 else if r =? 0x212A then 107 else lowerASCII r.

Local Close Scope N_scope.

(** ** [strings] *)

(** [strings.IndexByte] *)
Definition IndexByte (s : text) (c : ascii) : option nat := fst <$> list_find (c =.) s.

(** [strings.ContainsRune] for a rune that was a byte *)
Definition ContainsByte (separators : text) (c : ascii) : bool := bool_decide (code c ∈ runes separators).

(** [strings.EqualFold] with an ASCII string *)
Definition EqualFold (s t : text) : bool := bool_decide (foldASCII <$> runes s = foldASCII <$> runes t).

Fixpoint dropSpaces (l : list (N * text)) : list (N * text) :=
  match l with
  | [] => []
  | (r, b) :: l' => if IsSpace r then dropSpaces l' else l
  end.

(** [strings.TrimRightFunc(s, unicode.IsSpace)] *)
Definition TrimRightSpace (s : text) : text := concat (rev (dropSpaces (rev (chunks s)))).*2.

(** [strings.Cut] at one byte *)
Definition CutByte (s : text) (c : ascii) : option (text * text) :=
  (λ i, (take i s, drop (S i) s)) <$> IndexByte s c.

Definition HasPrefix (s p : text) : bool := bool_decide (take (length p) s = p).

(** ** [strconv.ParseInt] with 64 bits *)

Definition digit (c : ascii) : option Z :=
  let n := Z.of_N (code c) in
  if decide (48 ≤ n ≤ 57)%Z then Some (n - 48)%Z
  else if decide (97 ≤ n ≤ 122)%Z then Some (n - 97 + 10)%Z
  else if decide (65 ≤ n ≤ 90)%Z then Some (n - 65 + 10)%Z
  else None.

Fixpoint digits (base acc : Z) (s : text) : option Z :=
  match s with
  | [] => Some acc
  | c :: s =>
      match digit c with
      | Some d => if decide (d < base)%Z then digits base (acc * base + d) s else None
      | None => None
      end
  end.

Definition ParseUint (s : text) (base : Z) : option Z :=
  match s with [] => None | _ => digits base 0 s end.

(** [None]: an error *)
Definition ParseInt (s : text) (base : Z) : option Z :=
  match s with
  | "-"%char :: s' => n ← ParseUint s' base; if decide (n ≤ 2 ^ 63)%Z then Some (- n)%Z else None
  | "+"%char :: s' => n ← ParseUint s' base; if decide (n < 2 ^ 63)%Z then Some n else None
  | _ => n ← ParseUint s base; if decide (n < 2 ^ 63)%Z then Some n else None
  end.
