(* ===== verification/UnitSplit.v ===== *)
(** * UnitSplit: splitting and joining the words of a unit's value

    [pkg/systemd/parser/split.go]: [cUnescapeOne], [extractFirstWord] and
    [splitString], which follow systemd, and [escapeWords].  The loops of
    [extractFirstWord] jump between labels and share the current byte; in the model
    each byte is one step of [scan], with the state of the loops as arguments. *)

From S2P Require Import Prelude UnitText.

Inductive splitError : Type := UnbalancedEscape | UnsupportedEscape | UnbalancedQuotes.

#[export] Instance splitError_eq_dec : EqDecision splitError.
Proof. solve_decision. Defined.

(** [SplitFlags] *)
Record SplitFlags : Type := mkSplitFlags {
  SplitRelax : bool;
  SplitCUnescape : bool;
  SplitUnescapeRelax : bool;
  SplitUnescapeSeparators : bool;
  SplitKeepQuote : bool;
  SplitUnquote : bool;
  SplitDontCoalesceSeparators : bool;
  SplitRetainEscape : bool;
  SplitRetainSeparators : bool }.

Definition WhitespaceSeparators : text := [SP; TAB; LF; CR].

Local Open Scope N_scope.

(** ** Escapes; [None] is [-1] *)

Definition unhexchar (v : ascii) : option N :=
  let n := code v in
  if between 48 n 57 then Some (n - 48)
  else if between 97 n 102 then Some (n - 97 + 10)
  else if between 65 n 70 then Some (n - 65 + 10)
  else None.

Definition isValidUnicode (c : N) : bool := c <=? MaxRune.

(** The value of hexadecimal digits *)
Fixpoint hexdigits (acc : N) (s : text) : option N :=
  match s with
  | [] => Some acc
  | c :: s => d ← unhexchar c; hexdigits (acc * 16 + d) s
  end.

(** [n] hexadecimal digits after the letter; the number of bytes used is [n + 1]. *)
Definition hexEscape (n : nat) (acceptNul : bool) (p : text) : option N :=
  let ds := take n p in
  if decide (length ds = n) then
    c ← hexdigits 0 ds;
    if (c =? 0) && negb acceptNul then None else Some c
  else None.

(** [cUnescapeOne]: the number of bytes and the rune.  The first seven cases of the
    octal digits are empty, so they end the [switch] with the rune 0; the last one
    reads the same byte three times, which is above 255. *)
Definition cUnescapeOne (p : text) (acceptNul : bool) : option (nat * N) :=
  match p with
  | [] => None
  | c :: p' =>
      let n := code c in
      if n =? 97 then Some (1%nat, 7)
      else if n =? 98 then Some (1%nat, 8)
      else if n =? 102 then Some (1%nat, 12)
      else if n =? 110 then Some (1%nat, 10)
      else if n =? 114 then Some (1%nat, 13)
      else if n =? 116 then Some (1%nat, 9)
      else if n =? 118 then Some (1%nat, 11)
      else if n =? 92 then Some (1%nat, 92)
      else if n =? 34 then Some (1%nat, 34)
      else if n =? 39 then Some (1%nat, 39)
      else if n =? 115 then Some (1%nat, 32)
      else if n =? 120 then r ← hexEscape 2 acceptNul p'; Some (3%nat, r)
      else if n =? 117 then r ← hexEscape 4 acceptNul p'; Some (5%nat, r)
      else if n =? 85 then
        r ← hexEscape 8 acceptNul p';
        if isValidUnicode r then Some (9%nat, r) else None
      else if between 48 n 54 then Some (1%nat, 0)
      else None
  end.

Local Close Scope N_scope.

(** ** Words *)

Section split.
Context (separators : text) (flags : SplitFlags).

Definition isSeparator (c : ascii) : bool := ContainsByte separators c.

(** The byte 0 stands for the end of the input; a byte 0 of the input does so, too. *)

(** Word, remaining input, whether there is a word *)
Definition extracted : Type := result splitError (text * text * bool).

(** The label [finish] with [p] at the given rest *)
Definition finish (s rest : text) : extracted :=
  match s with [] => Ok ([], [], false) | _ => Ok (s, rest, true) end.

(** The separators after a word *)
Fixpoint skipSeparators (s inp : text) : extracted :=
  match inp with
  | [] => finish s []
  | c :: inp' =>
      if bool_decide (c = NUL) then finish s []
      else if isSeparator c then skipSeparators s inp'
      else finish s inp
  end.

(** The second loop: the word so far, the open quote, whether the last byte was a
    backslash, and the bytes that an escape sequence has consumed in advance. *)
Fixpoint scan (s : text) (quote : option ascii) (backslash : bool) (skip : nat) (inp : text) : extracted :=
  match inp with
  | [] =>
      if backslash then
        if SplitUnescapeRelax flags && (bool_decide (quote = None) || SplitRelax flags) then finish (s ++ [BS]) []
        else if SplitRelax flags then finish s []
        else Err UnbalancedEscape
      else if bool_decide (quote = None) then finish s []
      else if SplitRelax flags then finish s []
      else Err UnbalancedQuotes
  | c :: inp' =>
      match skip with
      | S skip => scan s quote backslash skip inp'
      | O =>
          if backslash then
            if bool_decide (c = NUL) then
              if SplitUnescapeRelax flags && (bool_decide (quote = None) || SplitRelax flags) then finish (s ++ [BS]) []
              else if SplitRelax flags then finish s []
              else Err UnbalancedEscape
            else if SplitCUnescape flags || SplitUnescapeSeparators flags then
              match (if SplitCUnescape flags then cUnescapeOne inp false else None) with
              | Some (r, u) => scan (s ++ WriteRune u) quote false (r - 1) inp'
              | None =>
                  if SplitUnescapeSeparators flags && (isSeparator c || bool_decide (c = BS))
                  then scan (s ++ [c]) quote false 0 inp'
                  else if SplitUnescapeRelax flags then scan (s ++ [BS; c]) quote false 0 inp'
                  else Err UnsupportedEscape
              end
            else scan (s ++ [c]) quote false 0 inp'
          else
            match quote with
            | Some q =>
                if bool_decide (c = NUL) then
                  if SplitRelax flags then finish s [] else Err UnbalancedQuotes
                else if bool_decide (c = q) then
                  if SplitUnquote flags then scan s None false 0 inp' else scan (s ++ [c]) None false 0 inp'
                else if bool_decide (c = BS) && negb (SplitRetainEscape flags) then scan s quote true 0 inp'
                else scan (s ++ [c]) quote false 0 inp'
            | None =>
                if bool_decide (c = NUL) then finish s []
                else if bool_decide (c = SQ ∨ c = DQ) && (SplitKeepQuote flags || SplitUnquote flags) then
                  if SplitUnquote flags then scan s (Some c) false 0 inp' else scan (s ++ [c]) (Some c) false 0 inp'
                else if bool_decide (c = BS) && negb (SplitRetainEscape flags) then scan s quote true 0 inp'
                else if isSeparator c then
                  if SplitDontCoalesceSeparators flags then
                    Ok (s, if SplitRetainSeparators flags then inp else inp', true)
                  else if SplitRetainSeparators flags then finish s inp
                  else skipSeparators s inp
                else scan (s ++ [c]) None false 0 inp'
            end
      end
  end.

(** The first loop *)
Fixpoint extractFirstWord (inp : text) : extracted :=
  match inp with
  | [] => finish [] []
  | c :: inp' =>
      if bool_decide (c = NUL) then finish [] []
      else if isSeparator c then
        if SplitDontCoalesceSeparators flags then Ok ([], if SplitRetainSeparators flags then inp else inp', true)
        else extractFirstWord inp'
      else scan [] None false 0 inp
  end.

(** [splitStringAppend]; [None] when the fuel runs out. *)
Fixpoint splitLoop (fuel : nat) (acc : list text) (s : text) : option (result splitError (list text)) :=
  match fuel with
  | O => None
  | S fuel =>
      match extractFirstWord s with
      | Err e => Some (Err e)
      | Ok (word, remaining, moreWords) =>
          if moreWords : bool then splitLoop fuel (acc ++ [word]) remaining else Some (Ok acc)
      end
  end.

(** The slice that is returned with an error is the one that was passed. *)
Definition splitStringAppend (appendTo : list text) (s : text) : option (list text * option splitError) :=
  match splitLoop (S (length s)) appendTo s with
  | None => None
  | Some (Ok l) => Some (l, None)
  | Some (Err e) => Some (appendTo, Some e)
  end.

Definition splitString (s : text) : option (list text * option splitError) := splitStringAppend [] s.
End split.

(** ** Joining *)

Local Open Scope N_scope.

Definition charNeedEscape (c : N) : bool :=
  if 128 <? c then false
  else IsSpace c || IsControl c || (c =? 34) || (c =? 39) || (c =? 92).

Definition wordNeedEscape (word : text) : bool := existsb charNeedEscape (runes word).

(** One digit of the verb [%x] *)
Definition hexchar (n : N) : ascii := byte (if n <? 10 then 48 + n else 97 + (n - 10)).

Definition escapeChar (c : N) : text :=
  if charNeedEscape c then
    if c =? 7 then T "\a"
    else if c =? 8 then T "\b"
    else if c =? 10 then T "\n"
    else if c =? 13 then T "\r"
    else if c =? 9 then T "\t"
    else if c =? 11 then T "\v"
    else if c =? 12 then T "\f"
    else if c =? 92 then [BS; BS]
    else if c =? 32 then [SP]
    else if c =? 34 then [BS; DQ]
    else if c =? 39 then [SQ]
    else T "\x" ++ [hexchar (c / 16); hexchar (c mod 16)]
  else WriteRune c.

Local Close Scope N_scope.

Definition appendEscapeWord (word : text) : text := [DQ] ++ concat (escapeChar <$> runes word) ++ [DQ].

Definition escapeWord (word : text) : text := if wordNeedEscape word then appendEscapeWord word else word.

Fixpoint escapeMore (words : list text) : text :=
  match words with
  | [] => []
  | word :: words => SP :: escapeWord word ++ escapeMore words
  end.

Definition escapeWords (words : list text) : text :=
  match words with
  | [] => []
  | word :: words => escapeWord word ++ escapeMore words
  end.
