(* ===== verification/UnitWords.v ===== *)
(** * UnitWords: the words of a value

    UTF-8 round trips, splitting terminates, and splitting undoes joining. *)

From Stdlib Require Import ZifyN.
From S2P Require Import Prelude UnitText UnitSplit.

(** ** UTF-8 *)

(** The forms of a chunk *)
Inductive chunk : text → N → Prop :=
| chunk1 b : (code b < 128)%N → chunk [b] (code b)
| chunk2 b0 b1 : valid2 (code b0) (code b1) = true → chunk [b0; b1] (rune2 (code b0) (code b1))
| chunk3 b0 b1 b2 : valid3 (code b0) (code b1) (code b2) = true → chunk [b0; b1; b2] (rune3 (code b0) (code b1) (code b2))
| chunk4 b0 b1 b2 b3 : valid4 (code b0) (code b1) (code b2) (code b3) = true →
    chunk [b0; b1; b2; b3] (rune4 (code b0) (code b1) (code b2) (code b3))
| chunkError b : (128 ≤ code b)%N → chunk [b] RuneError.

Lemma chunks_step s : s ≠ [] → ∃ r b s', s = b ++ s' ∧ chunks s = (r, b) :: chunks s' ∧ chunk b r.
Proof.
  destruct s as [|b0 s0]; [done|intros _]. cbn [chunks]. destruct (code b0 <? 0x80)%N eqn:H0.
  { apply N.ltb_lt in H0. exists (code b0), [b0], s0. split_and!; [done|done|by constructor]. }
  apply N.ltb_ge in H0.
  assert (∃ r b s', b0 :: s0 = b ++ s' ∧ (RuneError, [b0]) :: chunks s0 = (r, b) :: chunks s' ∧ chunk b r) as He.
  { exists RuneError, [b0], s0. split_and!; [done|done|by constructor]. }
  destruct s0 as [|b1 s1]; [done|]. destruct (valid2 _ _) eqn:H2.
  { eexists _, [b0; b1], s1. split_and!; [done|done|by constructor]. }
  destruct s1 as [|b2 s2]; [done|]. destruct (valid3 _ _ _) eqn:H3.
  { eexists _, [b0; b1; b2], s2. split_and!; [done|done|by constructor]. }
  destruct s2 as [|b3 s3]; [done|]. destruct (valid4 _ _ _ _) eqn:H4; [|done].
  eexists _, [b0; b1; b2; b3], s3. split_and!; [done|done|by constructor].
Qed.

(** Induction over the runes of a string *)
Lemma chunks_ind (P : text → Prop) :
  P [] → (∀ r b s, chunk b r → chunks (b ++ s) = (r, b) :: chunks s → P s → P (b ++ s)) → ∀ s, P s.
Proof.
  intros H0 HS s. remember (length s) as n eqn:Hn. revert s Hn.
  induction (lt_wf n) as [n _ IH]; intros s ->. destruct (decide (s = [])) as [->|Hs]; [done|].
  destruct (chunks_step s Hs) as (r & b & s' & -> & Hc & Hb). apply (HS r); [done|done|].
  apply (IH (length s')); [|done]. rewrite length_app. destruct Hb; simpl; lia.
Qed.

Lemma chunks_concat s : concat (chunks s).*2 = s.
Proof. induction s as [|r b s Hb Hc IH] using chunks_ind; [done|]. rewrite Hc, fmap_cons. cbn [concat snd]. by rewrite IH. Qed.

Lemma byte_eq n b : n = code b → byte n = b.
Proof. intros ->. apply byte_code. Qed.

Ltac rune_bounds :=
  unfold valid2, valid3, valid4, second3, second4, continuation, between in *;
  repeat match goal with
  | H : context [if ?b then _ else _] |- _ => destruct b eqn:?
  end;
  rewrite ?andb_true_iff, ?N.leb_le, ?N.eqb_eq, ?N.eqb_neq in *.

(** Arithmetic with division by constants *)
Ltac Zify.zify_post_hook ::= Z.div_mod_to_equations.

Ltac bytes_eq := repeat (f_equal; try (apply byte_eq; lia)).

Lemma WriteRune_chunk b r : chunk b r → (∀ c, b = [c] → r ≠ RuneError) → WriteRune r = b.
Proof.
  intros Hb Hr. unfold WriteRune. destruct Hb as [b H0|b0 b1 H2|b0 b1 b2 H3|b0 b1 b2 b3 H4|b H0].
  - rewrite (proj2 (N.ltb_lt _ _)) by lia. by rewrite byte_code.
  - rune_bounds. unfold rune2. rewrite (proj2 (N.ltb_ge _ _)), (proj2 (N.ltb_lt _ _)) by lia.
    bytes_eq.
  - rune_bounds; unfold rune3, MaxRune; do 2 rewrite (proj2 (N.ltb_ge _ _)) by lia.
    all: rewrite (proj2 (orb_false_iff _ _)) by (split; [apply andb_false_iff; rewrite !N.leb_gt; lia|apply N.ltb_ge; lia]).
    all: rewrite (proj2 (N.ltb_lt _ _)) by lia.
    all: bytes_eq.
  - rune_bounds; unfold rune4, MaxRune; do 2 rewrite (proj2 (N.ltb_ge _ _)) by lia.
    all: rewrite (proj2 (orb_false_iff _ _)) by (split; [apply andb_false_iff; rewrite !N.leb_gt; lia|apply N.ltb_ge; lia]).
    all: rewrite !(proj2 (N.ltb_ge _ _)) by lia.
    all: bytes_eq.
  - by destruct (Hr b).
Qed.

Lemma runes_app b r s : chunks (b ++ s) = (r, b) :: chunks s → runes (b ++ s) = r :: runes s.
Proof. intros Hc. unfold runes. by rewrite Hc. Qed.

Lemma runes_valid s : ValidString s = true → concat (WriteRune <$> runes s) = s.
Proof.
  induction s as [|r b s Hb Hc IH] using chunks_ind; [done|]. unfold ValidString. rewrite Hc. cbn [forallb].
  rewrite andb_true_iff. intros [Hr Hs]. rewrite (runes_app b r s Hc), fmap_cons. cbn [concat]. rewrite IH by done.
  f_equal. apply WriteRune_chunk; [done|]. intros c ->. by apply negb_true_iff, N.eqb_neq in Hr.
Qed.

(** A chunk is one ASCII byte, or has no ASCII byte. *)
Lemma chunk_ascii b r : chunk b r → (∃ c, b = [c] ∧ r = code c ∧ (code c < 128)%N) ∨ (Forall (λ c, 128 ≤ code c)%N b ∧ (128 ≤ r)%N).
Proof.
  intros Hb. destruct Hb as [b H0|b0 b1 H2|b0 b1 b2 H3|b0 b1 b2 b3 H4|b H0].
  - left. by eexists.
  - right. rune_bounds. unfold rune2. rewrite !Forall_cons. split_and!; try lia. done.
  - right. rune_bounds; unfold rune3; rewrite !Forall_cons; split_and!; try lia; done.
  - right. rune_bounds; unfold rune4; rewrite !Forall_cons; split_and!; try lia; done.
  - right. split; [|done]. by repeat constructor.
Qed.

Lemma byte_rune c s : c ∈ s → (128 ≤ code c)%N ∨ code c ∈ runes s.
Proof.
  induction s as [|r b s Hb Hc IH] using chunks_ind; [by intros ?%elem_of_nil|]. rewrite (runes_app b r s Hc).
  intros [Hin|Hin]%elem_of_app.
  - destruct (chunk_ascii _ _ Hb) as [(d & -> & -> & _)|[Hall _]].
    + apply list_elem_of_singleton in Hin as ->. right. by left.
    + rewrite Forall_forall in Hall. left. by apply Hall.
  - destruct (IH Hin); [by left|right; by right].
Qed.

Lemma rune_byte r s : r ∈ runes s → (r < 128)%N → byte r ∈ s.
Proof.
  induction s as [|r0 b s Hb Hc IH] using chunks_ind; [by intros ?%elem_of_nil|]. rewrite (runes_app b r0 s Hc).
  intros [->|Hin]%elem_of_cons Hlt; [|apply elem_of_app; right; by apply IH].
  destruct (chunk_ascii _ _ Hb) as [(d & -> & -> & _)|[_ ?]]; [|lia]. rewrite byte_code. apply elem_of_app. left. by left.
Qed.

(** ** Scanning the words of a command line *)

(** The flags of [LookupAllArgs], [LookupLastArgs] and [LookupAllKeyVal] *)
Definition argFlags : SplitFlags := mkSplitFlags true true false false false true false false false.

Abbreviation scanArg := (scan WhitespaceSeparators argFlags).

(** A byte that means itself outside of quotes *)
Definition plain (c : ascii) : Prop := (128 ≤ code c)%N ∨ charNeedEscape (code c) = false.

Lemma plain_spec c : plain c → c ≠ NUL ∧ c ≠ SQ ∧ c ≠ DQ ∧ c ≠ BS ∧ isSeparator WhitespaceSeparators c = false.
Proof.
  intros Hc. assert (∀ d, (code d <? 128)%N && charNeedEscape (code d) = true → c ≠ d) as Hne.
  { intros d [Hd He]%andb_true_iff ->. apply N.ltb_lt in Hd. destruct Hc; [lia|congruence]. }
  split_and!; try (apply Hne; reflexivity).
  unfold isSeparator, ContainsByte. apply bool_decide_false. change (code c ∉ code <$> WhitespaceSeparators).
  intros (d & Hd & Hin)%list_elem_of_fmap. apply code_inj in Hd. revert Hd. apply Hne.
  unfold WhitespaceSeparators in Hin. rewrite !elem_of_cons, elem_of_nil in Hin.
  by destruct Hin as [->|[->|[->|[->|[]]]]].
Qed.

Lemma scan_plain w s rest : Forall plain w → scanArg s None false 0 (w ++ rest) = scanArg (s ++ w) None false 0 rest.
Proof.
  intros Hw. revert s. induction Hw as [|c w Hc Hw IH]; intros s; [by rewrite app_nil_r|].
  apply plain_spec in Hc as (H0 & H1 & H2 & H3 & H4). cbn [app scan]. rewrite H4, !bool_decide_false by tauto. simpl.
  rewrite IH. by rewrite <- app_assoc.
Qed.

Lemma scan_high w s rest : Forall (λ c, 128 ≤ code c)%N w →
  scanArg s (Some DQ) false 0 (w ++ rest) = scanArg (s ++ w) (Some DQ) false 0 rest.
Proof.
  intros Hw. revert s. induction Hw as [|c w Hc Hw IH]; intros s; [by rewrite app_nil_r|].
  destruct (plain_spec c) as (H0 & H1 & H2 & H3 & H4); [by left|]. cbn [app scan]. rewrite !bool_decide_false by tauto. simpl.
  rewrite IH. by rewrite <- app_assoc.
Qed.

Lemma WriteRune_high r : (128 ≤ r)%N → Forall (λ c, 128 ≤ code c)%N (WriteRune r).
Proof.
  intros Hr. unfold WriteRune. rewrite (proj2 (N.ltb_ge _ _)) by lia. repeat case_match; rewrite !Forall_cons; split_and!; try done.
  all: rewrite code_byte; try lia.
  all: repeat match goal with H : _ || _ = false |- _ => apply orb_false_iff in H as [??] | H : (_ <? _)%N = true |- _ => apply N.ltb_lt in H | H : (_ <? _)%N = false |- _ => apply N.ltb_ge in H end; try lia.
  all: unfold MaxRune in *; try lia.
Qed.

(** ASCII: by evaluation of each of them *)
Lemma scan_escape_ascii c s rest : (1 ≤ c ≤ 128)%N →
  scanArg s (Some DQ) false 0 (escapeChar c ++ rest) = scanArg (s ++ WriteRune c) (Some DQ) false 0 rest.
Proof.
  intros Hc. rewrite <- (N2Nat.id c). assert (N.to_nat c ∈ seq 1 128) as Hin by (apply elem_of_seq; lia). clear Hc.
  revert Hin. generalize (N.to_nat c). apply Forall_forall. repeat (apply Forall_cons; split; [reflexivity|]). apply Forall_nil. done.
Qed.

Lemma scan_escape c s rest : c ≠ 0%N →
  scanArg s (Some DQ) false 0 (escapeChar c ++ rest) = scanArg (s ++ WriteRune c) (Some DQ) false 0 rest.
Proof.
  intros Hc. destruct (decide (c ≤ 128)%N); [apply scan_escape_ascii; lia|]. unfold escapeChar, charNeedEscape.
  rewrite (proj2 (N.ltb_lt _ _)) by lia. apply scan_high, WriteRune_high. lia.
Qed.

Lemma scan_escapes l s rest : (0%N ∉ l) →
  scanArg s (Some DQ) false 0 (concat (escapeChar <$> l) ++ rest) = scanArg (s ++ concat (WriteRune <$> l)) (Some DQ) false 0 rest.
Proof.
  revert s. induction l as [|c l IH]; intros s Hl; [by rewrite app_nil_r|]. apply not_elem_of_cons in Hl as [Hc Hl].
  rewrite !fmap_cons. cbn [concat]. rewrite <- app_assoc, scan_escape by congruence. rewrite IH by done. by rewrite app_assoc.
Qed.

(** ** Words that survive: not empty, valid UTF-8, and without the byte 0 *)

Definition argument (w : text) : Prop := w ≠ [] ∧ ValidString w = true ∧ NUL ∉ w.

Lemma plain_word w : wordNeedEscape w = false → Forall plain w.
Proof.
  intros Hw. apply Forall_forall. intros c Hc. destruct (byte_rune c w Hc) as [?|Hr]; [by left|right].
  unfold wordNeedEscape in Hw. destruct (charNeedEscape (code c)) eqn:He; [|done].
  rewrite (proj2 (existsb_exists _ _)) in Hw; [done|]. exists (code c). by rewrite <- list_elem_of_In.
Qed.

Lemma scan_word w rest : argument w → scanArg [] None false 0 (escapeWord w ++ rest) = scanArg w None false 0 rest.
Proof.
  intros (Hne & Hv & Hnul). unfold escapeWord. destruct (wordNeedEscape w) eqn:Hw.
  - unfold appendEscapeWord. rewrite <- !app_assoc. cbn [app scan].
    change (scanArg [] (Some DQ) false 0 (concat (escapeChar <$> runes w) ++ [DQ] ++ rest) = scanArg w None false 0 rest).
    rewrite scan_escapes.
    + rewrite runes_valid by done. reflexivity.
    + intros H0. apply Hnul. change NUL with (byte 0). by apply rune_byte.
  - by rewrite scan_plain by by apply plain_word.
Qed.

(** The first byte of an escaped word is not a separator. *)
Lemma escapeWord_head w : argument w → ∃ c w', escapeWord w = c :: w' ∧ c ≠ NUL ∧ isSeparator WhitespaceSeparators c = false.
Proof.
  intros (Hne & _ & _). unfold escapeWord. destruct (wordNeedEscape w) eqn:Hw.
  - eexists DQ, _. split; [reflexivity|]. by split.
  - apply plain_word in Hw. destruct w as [|c w]; [done|]. apply Forall_cons in Hw as [Hc _].
    apply plain_spec in Hc as (? & _ & _ & _ & ?). by exists c, w.
Qed.

Lemma extract_word w rest : argument w →
  extractFirstWord WhitespaceSeparators argFlags (escapeWord w ++ rest) = scanArg w None false 0 rest.
Proof.
  intros Hw. rewrite <- scan_word by done. destruct (escapeWord_head w Hw) as (c & w' & -> & Hc & Hs).
  cbn [app extractFirstWord]. by rewrite bool_decide_false, Hs.
Qed.

Lemma finish_word w rest : w ≠ [] → finish w rest = Ok (w, rest, true).
Proof. by destruct w. Qed.

Lemma extract_more w ws : argument w → Forall argument ws →
  extractFirstWord WhitespaceSeparators argFlags (escapeWord w ++ escapeMore ws) = Ok (w, escapeWords ws, true).
Proof.
  intros Hw Hws. rewrite extract_word by done. assert (w ≠ []) as Hne by apply Hw.
  destruct ws as [|w1 ws]; cbn [escapeMore]; [by apply finish_word|].
  apply Forall_cons in Hws as [Hw1 _]. destruct (escapeWord_head w1 Hw1) as (c & w' & Hc & Hn & Hs).
  change (skipSeparators WhitespaceSeparators w (SP :: escapeWord w1 ++ escapeMore ws) = Ok (w, escapeWord w1 ++ escapeMore ws, true)).
  cbn [skipSeparators]. change (isSeparator WhitespaceSeparators SP) with true. rewrite bool_decide_false by done.
  rewrite Hc. cbn [app skipSeparators]. rewrite bool_decide_false, Hs by done. by apply finish_word.
Qed.

Lemma split_words ws acc fuel : Forall argument ws → length ws < fuel →
  splitLoop WhitespaceSeparators argFlags fuel acc (escapeWords ws) = Some (Ok (acc ++ ws)).
Proof.
  intros Hws. revert acc fuel. induction Hws as [|w ws Hw Hws IH]; intros acc [|fuel] Hf; simpl in Hf; try lia.
  - simpl. by rewrite app_nil_r.
  - cbn [splitLoop escapeWords]. rewrite extract_more by done. rewrite IH by lia. by rewrite <- app_assoc.
Qed.

Lemma escapeWords_length ws : Forall argument ws → length ws ≤ length (escapeWords ws).
Proof.
  assert (∀ ws, length ws ≤ length (escapeMore ws)) as Hm.
  { intros l. induction l as [|w l IH]; simpl; [lia|]. rewrite length_app. lia. }
  intros Hws. destruct Hws as [|w ws Hw Hws]; simpl; [lia|]. rewrite length_app.
  destruct (escapeWord_head w Hw) as (c & w' & -> & _). simpl. specialize (Hm ws). lia.
Qed.

(** ** Termination of splitting *)

Section termination.
Context (separators : text) (flags : SplitFlags).

Lemma finish_rest s inp w rem : finish s inp = Ok (w, rem, true) → rem = inp.
Proof. destruct s; simpl; [done|by intros [= _ <-]]. Qed.

Lemma skipSeparators_length s inp w rem : skipSeparators separators s inp = Ok (w, rem, true) → length rem ≤ length inp.
Proof.
  induction inp as [|c inp IH]; simpl; [by intros ->%finish_rest|].
  case_bool_decide; [intros ->%finish_rest; simpl; lia|]. destruct (isSeparator _ _); [intros ?%IH; lia|by intros ->%finish_rest].
Qed.

Ltac rest_tac IH :=
  match goal with
  | |- finish _ _ = _ → _ => let E := fresh in intros E%finish_rest; subst; simpl; lia
  | |- skipSeparators _ _ _ = _ → _ => let E := fresh in intros E%skipSeparators_length; simpl in *; lia
  | |- scan _ _ _ _ _ _ _ = _ → _ => let E := fresh in intros E%IH; simpl; lia
  | |- Err _ = _ → _ => done
  | |- Ok _ = _ → _ => intros [= _ <-]; simpl; lia
  end.

Lemma scan_length s q b k inp w rem : scan separators flags s q b k inp = Ok (w, rem, true) → length rem ≤ length inp.
Proof.
  revert s q b k. induction inp as [|c inp IH]; intros s q b k; cbn [scan]; repeat case_match; rest_tac IH.
Qed.

(** The scan of a byte that is not a separator *)
Lemma scan_consumes c inp w rem : isSeparator separators c = false → c ≠ NUL →
  scan separators flags [] None false 0 (c :: inp) = Ok (w, rem, true) → length rem ≤ length inp.
Proof.
  intros Hc Hn. cbn [scan]. rewrite Hc, (bool_decide_false (c = NUL)) by done. repeat case_match; try rest_tac scan_length.
Qed.

Context (Hf : SplitDontCoalesceSeparators flags && SplitRetainSeparators flags = false).

Lemma extract_progress inp w rem : extractFirstWord separators flags inp = Ok (w, rem, true) → length rem < length inp.
Proof.
  induction inp as [|c inp IH]; cbn [extractFirstWord]; [done|]. case_bool_decide; [done|].
  destruct (isSeparator separators c) eqn:Hc.
  - destruct (SplitDontCoalesceSeparators flags) eqn:Hd; [|intros ?%IH; simpl; lia].
    simpl in Hf. rewrite Hf. intros [= _ <-]. simpl. lia.
  - intros Hr. eapply scan_consumes in Hr; [simpl; lia|done|done].
Qed.

Lemma splitLoop_ends fuel : ∀ acc s, length s < fuel → is_Some (splitLoop separators flags fuel acc s).
Proof.
  induction fuel as [|fuel IH]; intros acc s Hs; [lia|]. simpl.
  destruct (extractFirstWord separators flags s) as [[[w rem] [|]]|e] eqn:He; [|by eexists|by eexists].
  apply extract_progress in He. apply IH. lia.
Qed.
End termination.
