(* ===== verification/UnitFile.v ===== *)
(** * UnitFile: unit files

    [pkg/systemd/parser/unitfile.go].  A [UnitFile] has a list of pointers to its
    groups and a map from names to the same pointers.  The groups are in a heap, so
    that a change through one of the two is seen through the other; a pointer is an
    index into it.  Lines belong to one group only and are values. *)

From S2P Require Import Prelude UnitText UnitSplit.

Record unitLine : Type := mkUnitLine { ul_key : text; ul_value : text; ul_isComment : bool }.
Record unitGroup : Type := mkUnitGroup { ug_name : text; ug_comments : list unitLine; ug_lines : list unitLine }.

#[export] Instance unitLine_eq_dec : EqDecision unitLine.
Proof. solve_decision. Defined.
#[export] Instance unitGroup_eq_dec : EqDecision unitGroup.
Proof. solve_decision. Defined.

Record UnitFile : Type := mkUnitFile {
  uf_groups : list nat;
  uf_groupByName : gmap text nat;
  uf_heap : list unitGroup;
  uf_Filename : text;
  uf_Path : text }.

Inductive parseError : Type :=
| InvalidGroupName (name : text)
| NoGroup
| InvalidKeyName (key : text)
| NotALine (lineNr : nat).

#[export] Instance parseError_eq_dec : EqDecision parseError.
Proof. solve_decision. Defined.

(** ** Lines *)

Definition isKey (key : text) (l : unitLine) : bool := negb (ul_isComment l) && bool_decide (ul_key l = key).
Definition isEmpty (l : unitLine) : bool := bool_decide (ul_value l = []).
Definition ul_set (value : text) (l : unitLine) : unitLine := mkUnitLine (ul_key l) value (ul_isComment l).
Definition dup (l : unitLine) : unitLine := mkUnitLine (ul_key l) (ul_value l) (ul_isComment l).

(** ** Groups *)

Definition newUnitGroup (name : text) : unitGroup := mkUnitGroup name [] [].
Definition addLine (line : unitLine) (g : unitGroup) : unitGroup := mkUnitGroup (ug_name g) (ug_comments g) (ug_lines g ++ [line]).
Definition addComment (line : unitLine) (g : unitGroup) : unitGroup := mkUnitGroup (ug_name g) (ug_comments g ++ [line]) (ug_lines g).
Definition prependComment (line : unitLine) (g : unitGroup) : unitGroup := mkUnitGroup (ug_name g) (line :: ug_comments g) (ug_lines g).
Definition ug_add (key value : text) (g : unitGroup) : unitGroup := addLine (mkUnitLine key value false) g.
Definition ug_rename (name : text) (g : unitGroup) : unitGroup := mkUnitGroup name (ug_comments g) (ug_lines g).

(** The last line with the key, with its index *)
Fixpoint findLastFrom (key : text) (i : nat) (lines : list unitLine) : option (nat * unitLine) :=
  match lines with
  | [] => None
  | l :: lines =>
      match findLastFrom key (S i) lines with
      | Some x => Some x
      | None => if isKey key l then Some (i, l) else None
      end
  end.

Definition findLast (key : text) (g : unitGroup) : option (nat * unitLine) := findLastFrom key 0 (ug_lines g).

(** [unitGroup.set] *)
Definition ug_setKey (key value : text) (g : unitGroup) : unitGroup :=
  match findLast key g with
  | Some (i, _) => mkUnitGroup (ug_name g) (ug_comments g) (alter (ul_set value) i (ug_lines g))
  | None => ug_add key value g
  end.

Definition ug_unset (key : text) (g : unitGroup) : unitGroup :=
  mkUnitGroup (ug_name g) (ug_comments g) (filter (λ l, isKey key l = false) (ug_lines g)).

Definition ug_merge (source g : unitGroup) : unitGroup :=
  mkUnitGroup (ug_name g) (ug_comments g ++ (dup <$> ug_comments source)) (ug_lines g ++ (dup <$> ug_lines source)).

(** ** Files *)

Definition NewUnitFile : UnitFile := mkUnitFile [] ∅ [] [] [].

Definition uf_set_groups v f := mkUnitFile v (uf_groupByName f) (uf_heap f) (uf_Filename f) (uf_Path f).
Definition uf_set_byName v f := mkUnitFile (uf_groups f) v (uf_heap f) (uf_Filename f) (uf_Path f).
Definition uf_set_heap v f := mkUnitFile (uf_groups f) (uf_groupByName f) v (uf_Filename f) (uf_Path f).
Definition uf_set_Filename v f := mkUnitFile (uf_groups f) (uf_groupByName f) (uf_heap f) v (uf_Path f).

(** A change of the group behind a pointer *)
Definition onGroup (p : nat) (m : unitGroup → unitGroup) (f : UnitFile) : UnitFile := uf_set_heap (alter m p (uf_heap f)) f.

(** The groups in order *)
Definition view (f : UnitFile) : list unitGroup := omap (uf_heap f !!.) (uf_groups f).

Definition ensureGroup (groupName : text) (f : UnitFile) : nat * UnitFile :=
  match uf_groupByName f !! groupName with
  | Some g => (g, f)
  | None =>
      let g := length (uf_heap f) in
      (g, mkUnitFile (uf_groups f ++ [g]) (<[groupName := g]> (uf_groupByName f)) (uf_heap f ++ [newUnitGroup groupName])
            (uf_Filename f) (uf_Path f))
  end.

Definition uf_merge (source f : UnitFile) : UnitFile :=
  foldl (λ f srcGroup, let '(g, f) := ensureGroup (ug_name srcGroup) f in onGroup g (ug_merge srcGroup) f) f (view source).

Definition Dup (f : UnitFile) : UnitFile := uf_set_Filename (uf_Filename f) (uf_merge f NewUnitFile).

(** ** Kinds of lines *)

Definition lineIsComment (line : text) : bool :=
  match line with [] => true | c :: _ => bool_decide (c = "#"%char ∨ c = ":"%char) end.

Definition lineIsGroup (line : text) : bool :=
  match line with
  | [] => false
  | c :: _ =>
      if bool_decide (c ≠ "["%char) then false
      else match IndexByte line "]"%char with
           | None => false
           | Some end_ => forallb (λ c, bool_decide (c = SP ∨ c = TAB)) (drop (S end_) line)
           end
  end.

Definition lineIsKeyValuePair (line : text) : bool :=
  match IndexByte line "="%char with
  | None | Some O => false
  | Some _ => true
  end.

Definition groupNameIsValid (name : text) : bool :=
  bool_decide (name ≠ []) &&
  forallb (λ c, negb ((c =? 93)%N || (c =? 91)%N || IsControl c)) (runes name).

Definition keyNameIsValid (name : text) : bool :=
  bool_decide (name ≠ []) && forallb (λ c, negb (c =? 61)%N) (runes name) &&
  negb (bool_decide (head name = Some SP)) && negb (bool_decide (last name = Some SP)).

(** ** The parser *)

(** [p_pendingComments]: the empty list is [nil]. *)
Record UnitFileParser : Type := mkParser {
  p_file : UnitFile;
  p_currentGroup : option nat;
  p_pendingComments : list unitLine;
  p_lineNr : nat }.

Definition p_set_pending v p := mkParser (p_file p) (p_currentGroup p) v (p_lineNr p).
Definition p_advance n p := mkParser (p_file p) (p_currentGroup p) (p_pendingComments p) (p_lineNr p + n).
Definition p_enter g f p := mkParser f (Some g) (p_pendingComments p) (p_lineNr p).

(** [p.currentGroup] is not nil when this is called. *)
Definition flushPendingComments (toComment : bool) (p : UnitFileParser) : UnitFileParser :=
  match p_currentGroup p with
  | None => p
  | Some g =>
      let add := if toComment then addComment else addLine in
      mkParser (onGroup g (λ gr, foldl (λ gr l, add l gr) gr (p_pendingComments p)) (p_file p))
        (p_currentGroup p) [] (p_lineNr p)
  end.

Definition parseComment (line : text) (p : UnitFileParser) : UnitFileParser :=
  p_set_pending (p_pendingComments p ++ [mkUnitLine [] line true]) p.

Definition parseGroup (line : text) (p : UnitFileParser) : result parseError UnitFileParser :=
  let end_ := default 0 (IndexByte line "]"%char) in
  let groupName := drop 1 (take end_ line) in
  if negb (groupNameIsValid groupName) then Err (InvalidGroupName groupName) else
  let '(g, f) := ensureGroup groupName (p_file p) in
  let p := p_enter g f p in
  match p_pendingComments p with
  | [] => Ok p
  | first :: rest =>
      let p := if isEmpty first then p_set_pending rest p else p in
      Ok (flushPendingComments true p)
  end.

Definition isSpaceByte (c : ascii) : bool := IsSpace (code c).

(** The bytes before [keyEnd] without trailing white space *)
Definition chompSpaces (s : text) : text :=
  rev ((fix go l := match l with c :: l' => if isSpaceByte c then go l' else l | [] => [] end) (rev s)).

Fixpoint chugSpaces (s : text) : text :=
  match s with c :: s' => if isSpaceByte c then chugSpaces s' else s | [] => [] end.

Definition parseKeyValuePair (line : text) (p : UnitFileParser) : result parseError UnitFileParser :=
  match p_currentGroup p with
  | None => Err NoGroup
  | Some g =>
      let keyEnd := default 0 (IndexByte line "="%char) in
      let key := chompSpaces (take keyEnd line) in
      if negb (keyNameIsValid key) then Err (InvalidKeyName key) else
      let value := chugSpaces (drop (S keyEnd) line) in
      let p := flushPendingComments false p in
      Ok (mkParser (onGroup g (ug_add key value) (p_file p)) (p_currentGroup p) (p_pendingComments p) (p_lineNr p))
  end.

Definition parseLine (line : text) (p : UnitFileParser) : result parseError UnitFileParser :=
  if lineIsComment line then Ok (parseComment line p)
  else if lineIsGroup line then parseGroup line p
  else if lineIsKeyValuePair line then parseKeyValuePair line p
  else Err (NotALine (p_lineNr p)).

Definition nextLine (data : text) (afterPos : nat) : text * text :=
  let rest := drop afterPos data in
  match IndexByte rest LF with
  | Some i => (take (i + afterPos) data, drop (i + afterPos + 1) data)
  | None => (data, [])
  end.

(** The loop over continuation lines: line, rest and number of lines; each iteration
    shortens the rest. *)
Fixpoint continueLine (fuel : nat) (origdata line data : text) (nLines : nat) : text * text * nat :=
  match fuel with
  | O => (line, data, nLines)
  | S fuel =>
      if bool_decide (data ≠ [] ∧ last line = Some BS) then
        let '(line, data) := nextLine origdata (length line + 1) in
        continueLine fuel origdata line data (nLines + 1)
      else (line, data, nLines)
  end.

(** One iteration of [Parse]: the line, with its continuations, and the rest *)
Definition takeLine (data : text) : text * text * nat :=
  let '(line, rest) := nextLine data 0 in
  if lineIsKeyValuePair line then continueLine (length rest) data line rest 1 else (line, rest, 1).

(** [None] when the fuel runs out.  An error leaves the file with what was read before. *)
Fixpoint parseLoop (fuel : nat) (data : text) (p : UnitFileParser) : option (result (parseError * UnitFileParser) UnitFileParser) :=
  match data with
  | [] => Some (Ok p)
  | _ =>
      match fuel with
      | O => None
      | S fuel =>
          let '(line, rest, nLines) := takeLine data in
          match parseLine line p with
          | Err e => Some (Err (e, p))
          | Ok p => parseLoop fuel rest (p_advance nLines p)
          end
      end
  end.

Definition Parse (data : text) (f : UnitFile) : option (result (parseError * UnitFile) UnitFile) :=
  match parseLoop (length data) data (mkParser f None [] 1) with
  | None => None
  | Some (Err (e, p)) => Some (Err (e, p_file p))
  | Some (Ok p) =>
      let p := match p_currentGroup p with
               | Some _ => p
               | None => let '(g, f) := ensureGroup [] (p_file p) in p_enter g f p
               end in
      Some (Ok (p_file (flushPendingComments false p)))
  end.

(** [path.Base] *)
Definition dropSlashes : text → text :=
  fix go s := match s with c :: s' => if bool_decide (c = "/"%char) then go s' else s | [] => [] end.

Definition Base (path : text) : text :=
  match path with
  | [] => T "."
  | _ =>
      let r := dropSlashes (rev path) in
      match r with
      | [] => T "/"
      | _ => rev (match IndexByte r "/"%char with Some i => take i r | None => r end)
      end
  end.

Inductive loadError : Type := ReadError | ParseError (e : parseError).

(** [os.ReadFile] is a parameter; the file that could not be parsed is discarded. *)
Definition ParseUnitFile (ReadFile : text → option text) (pathName : text) : option (result loadError UnitFile) :=
  match ReadFile pathName with
  | None => Some (Err ReadError)
  | Some data =>
      match Parse data (mkUnitFile [] ∅ [] (Base pathName) pathName) with
      | None => None
      | Some (Err (e, _)) => Some (Err (ParseError e))
      | Some (Ok f) => Some (Ok f)
      end
  end.

(** ** Printing *)

Definition ul_write (l : unitLine) : text :=
  if ul_isComment l then ul_value l ++ [LF] else ul_key l ++ T "=" ++ ul_value l ++ [LF].

Definition ug_write (g : unitGroup) : text :=
  concat (ul_write <$> ug_comments g) ++
  (if bool_decide (ug_name g = []) then []
   else T "[" ++ ug_name g ++ T "]" ++ [LF] ++ concat (ul_write <$> ug_lines g)).

(** A newline is written before every group but the first. *)
Definition writeGroups (gs : list unitGroup) : text :=
  match gs with
  | [] => []
  | g :: gs => ug_write g ++ concat ((λ g, LF :: ug_write g) <$> gs)
  end.

Definition ToString (f : UnitFile) : text := writeGroups (view f).
