(* ===== verification/UnitLookup.v ===== *)
(** * UnitLookup: queries and edits of unit files

    The rest of [pkg/systemd/parser/unitfile.go]: the groups and keys of a file, the
    look-ups with their conversions, and the edits.  The users and groups of the system,
    which [LookupUID] and [LookupGID] consult, are parameters. *)

From S2P Require Import Prelude UnitText UnitSplit UnitWords UnitFile.

(** ** Continuation lines *)

(** The text without the pairs of a backslash and a newline, which [strings.Cut] finds
    from left to right *)
Fixpoint applyLineContinuation (raw : text) : text :=
  match raw with
  | c :: ((d :: rest) as raw') =>
      if bool_decide (c = BS ∧ d = LF) then applyLineContinuation rest else c :: applyLineContinuation raw'
  | _ => raw
  end.

(** ** Groups *)

(** The group that a name stands for *)
Definition group (f : UnitFile) (groupName : text) : option unitGroup :=
  p ← uf_groupByName f !! groupName; uf_heap f !! p.

Definition HasGroup (f : UnitFile) (groupName : text) : bool := bool_decide (is_Some (uf_groupByName f !! groupName)).

Definition RemoveGroup (groupName : text) (f : UnitFile) : UnitFile :=
  match uf_groupByName f !! groupName with
  | Some g => uf_set_groups (filter (λ oldgroup, oldgroup ≠ g) (uf_groups f)) (uf_set_byName (delete groupName (uf_groupByName f)) f)
  | None => f
  end.

Definition RenameGroup (groupName newName : text) (f : UnitFile) : UnitFile :=
  match uf_groupByName f !! groupName with
  | None => f
  | Some g =>
      match uf_groupByName f !! newName with
      | None =>
          uf_set_byName (<[newName := g]> (delete groupName (uf_groupByName f))) (onGroup g (ug_rename newName) f)
      | Some newGroup =>
          if decide (g = newGroup) then f
          else match uf_heap f !! g with
               | Some source => RemoveGroup groupName (onGroup newGroup (ug_merge source) f)
               | None => f
               end
      end
  end.

Definition ListGroups (f : UnitFile) : list text := ug_name <$> view f.

Definition listKeysLoop (keys : list text) (line : unitLine) : list text :=
  if ul_isComment line then keys else if decide (ul_key line ∈ keys) then keys else keys ++ [ul_key line].

(** The set [hash] has the keys that were appended. *)
Definition ListKeys (f : UnitFile) (groupName : text) : list text :=
  match group f groupName with
  | None => []
  | Some g => foldl listKeysLoop [] (ug_lines g)
  end.

(** ** The last value of a key *)

Definition LookupLastRaw (f : UnitFile) (groupName key : text) : option text :=
  g ← group f groupName; ul_value ∘ snd <$> findLast key g.

Definition HasKey (f : UnitFile) (groupName key : text) : bool := bool_decide (is_Some (LookupLastRaw f groupName key)).

Definition LookupLast (f : UnitFile) (groupName key : text) : option text :=
  applyLineContinuation <$> LookupLastRaw f groupName key.

Definition Lookup (f : UnitFile) (groupName key : text) : option text := TrimRightSpace <$> LookupLast f groupName key.

Definition LookupBoolean (f : UnitFile) (groupName key : text) : option bool :=
  (λ v, EqualFold v (T "1") || EqualFold v (T "yes") || EqualFold v (T "true") || EqualFold v (T "on"))
    <$> Lookup f groupName key.

Definition LookupBooleanWithDefault (f : UnitFile) (groupName key : text) (defaultValue : bool) : bool :=
  default defaultValue (LookupBoolean f groupName key).

(** ** Numbers *)

(** The value of an [int64] after overflow *)
Definition int64 (n : Z) : Z := ((n + 2 ^ 63) mod 2 ^ 64 - 2 ^ 63)%Z.
Definition MaxUint32 : Z := (2 ^ 32 - 1)%Z.

(** The digits after the sign *)
Definition parseMagnitude (v : text) : option Z :=
  if HasPrefix v (T "0x") || HasPrefix v (T "0X") then ParseInt (drop 2 v) 16
  else if HasPrefix v (T "0") then ParseInt v 8
  else ParseInt v 10.

(** [None]: an error *)
Definition convertNumber (v : text) : option Z :=
  let '(v, mult) :=
    if HasPrefix v (T "+") then (drop 1 v, 1%Z)
    else if HasPrefix v (T "-") then (drop 1 v, (-11)%Z)
    else (v, 1%Z) in
  (λ intVal, int64 (intVal * mult)) <$> parseMagnitude v.

Definition LookupInt (f : UnitFile) (groupName key : text) (defaultValue : Z) : Z :=
  match Lookup f groupName key with
  | None => defaultValue
  | Some v => default defaultValue (convertNumber v)
  end.

Definition LookupUint32 (f : UnitFile) (groupName key : text) (defaultValue : Z) : Z :=
  let v := LookupInt f groupName key defaultValue in
  if decide (v < 0 ∨ MaxUint32 < v)%Z then defaultValue else v.

(** ** Users and groups *)

Inductive idError : Type :=
| NoKey (key : text)
| InvalidID (v : text)
| UnknownName (v : text)
| InvalidEntry (v : text).

(** [user.Lookup] and [user.LookupGroup]: the identifier of a name, as text *)
Class Names : Type := {
  userLookup : text → option text;
  groupLookup : text → option text }.

Section names.
Context {N : Names}.

(** The two functions of the source differ in the database only. *)
Definition lookupID (db : text → option text) (f : UnitFile) (groupName key : text) (defaultValue : Z) : result idError Z :=
  match Lookup f groupName key with
  | None => if decide (defaultValue = MaxUint32) then Err (NoKey key) else Ok defaultValue
  | Some v =>
      match convertNumber v with
      | Some intVal => if decide (intVal < 0 ∨ MaxUint32 ≤ intVal)%Z then Err (InvalidID v) else Ok intVal
      | None =>
          match db v with
          | None => Err (UnknownName v)
          | Some id =>
              match ParseInt id 10 with
              | None => Err (InvalidEntry v)
              | Some intVal => Ok (intVal mod 2 ^ 32)%Z
              end
          end
      end
  end.

Definition LookupUID := lookupID userLookup.
Definition LookupGID := lookupID groupLookup.
End names.

(** ** All values of a key *)

Definition lookupAllLoop (key : text) (values : list text) (line : unitLine) : list text :=
  if isKey key line then if decide (ul_value line = []) then [] else values ++ [ul_value line] else values.

Definition LookupAllRaw (f : UnitFile) (groupName key : text) : list text :=
  match group f groupName with
  | None => []
  | Some g => foldl (lookupAllLoop key) [] (ug_lines g)
  end.

Definition LookupAll (f : UnitFile) (groupName key : text) : list text :=
  applyLineContinuation <$> LookupAllRaw f groupName key.

Definition strvFlags : SplitFlags := mkSplitFlags false false false false false true false true false.

(** The functions that split values; [None] when the fuel of a split runs out. *)
Fixpoint appendStrv (res : list text) (values : list text) : option (list text) :=
  match values with
  | [] => Some res
  | value :: values => r ← splitStringAppend WhitespaceSeparators strvFlags res value; appendStrv (fst r) values
  end.

Definition LookupAllStrv (f : UnitFile) (groupName key : text) : option (list text) :=
  appendStrv [] (LookupAll f groupName key).

(** [splitString] with the flags of a command line; an error gives [None] inside. *)
Definition splitArgs (s : text) : option (option (list text)) :=
  (λ '(args, err), match err with None => Some args | Some _ => None end) <$> splitString WhitespaceSeparators argFlags s.

Fixpoint appendArgs (res : list text) (argsv : list text) : option (list text) :=
  match argsv with
  | [] => Some res
  | argsS :: argsv => args ← splitArgs argsS; appendArgs (res ++ default [] args) argsv
  end.

Definition LookupAllArgs (f : UnitFile) (groupName key : text) : option (list text) :=
  appendArgs [] (LookupAll f groupName key).

Definition LookupLastArgs (f : UnitFile) (groupName key : text) : option (option (list text)) :=
  match LookupLast f groupName key with
  | None => Some None
  | Some execKey => splitArgs execKey
  end.

Definition assignLoop (res : gmap text text) (assign : text) : gmap text text :=
  match CutByte assign "="%char with
  | Some (key, value) => <[key := value]> res
  | None => res
  end.

Fixpoint appendKeyVal (res : gmap text text) (allKeyvals : list text) : option (gmap text text) :=
  match allKeyvals with
  | [] => Some res
  | keyvals :: allKeyvals => assigns ← splitArgs keyvals; appendKeyVal (foldl assignLoop res (default [] assigns)) allKeyvals
  end.

Definition LookupAllKeyVal (f : UnitFile) (groupName key : text) : option (gmap text text) :=
  appendKeyVal ∅ (LookupAll f groupName key).

(** ** Edits *)

(** A change of the group with a name, which is created when it is missing *)
Definition editGroup (groupName : text) (m : unitGroup → unitGroup) (f : UnitFile) : UnitFile :=
  let '(g, f) := ensureGroup groupName f in onGroup g m f.

Definition Set_ (groupName key value : text) : UnitFile → UnitFile := editGroup groupName (ug_setKey key value).

(** A last key without a value is ignored. *)
Fixpoint setPairs (keyvals : list text) (g : unitGroup) : unitGroup :=
  match keyvals with
  | key :: value :: keyvals => setPairs keyvals (ug_setKey key value g)
  | _ => g
  end.

Definition Setv (groupName : text) (keyvals : list text) : UnitFile → UnitFile := editGroup groupName (setPairs keyvals).

Definition Add (groupName key value : text) : UnitFile → UnitFile := editGroup groupName (ug_add key value).

Definition AddCmdline (groupName key : text) (args : list text) : UnitFile → UnitFile := Add groupName key (escapeWords args).

Definition Unset (groupName key : text) (f : UnitFile) : UnitFile :=
  match uf_groupByName f !! groupName with
  | Some g => onGroup g (ug_unset key) f
  | None => f
  end.

(** The group of a comment: the empty name is the first group. *)
Definition commentGroup (groupName : text) (f : UnitFile) : nat * UnitFile :=
  match groupName, uf_groups f with
  | [], g :: _ => (g, f)
  | _, _ => ensureGroup groupName f
  end.

Definition commentLine (comment : text) : unitLine := mkUnitLine [] (T "# " ++ comment) true.

Definition AddComment (groupName : text) (comments : list text) (f : UnitFile) : UnitFile :=
  let '(g, f) := commentGroup groupName f in
  onGroup g (λ gr, foldl (λ gr c, addComment (commentLine c) gr) gr comments) f.

Definition PrependComment (groupName : text) (comments : list text) (f : UnitFile) : UnitFile :=
  let '(g, f) := commentGroup groupName f in
  onGroup g (λ gr, foldl (λ gr c, prependComment (commentLine c) gr) gr (rev comments)) f.
