(* ===== verification/UnitSpec.v ===== *)
(** * UnitSpec: a unit file as a list of groups

    The pointers and the map of a [UnitFile] implement a list of groups with distinct
    names.  [consistent] is the invariant of the representation and [view] the
    abstraction; every operation that changes a file keeps the invariant and does to the view what
    its counterpart on lists does. *)

From S2P Require Import Prelude UnitText UnitSplit UnitWords UnitFile UnitLookup.

(** ** Lists of groups *)

Abbreviation names gs := (ug_name <$> gs).

Definition named (n : text) (gs : list unitGroup) : option unitGroup := snd <$> list_find (λ g, ug_name g = n) gs.

Definition alterG (n : text) (m : unitGroup → unitGroup) (gs : list unitGroup) : list unitGroup :=
  (λ g, if decide (ug_name g = n) then m g else g) <$> gs.

Definition ensureG (n : text) (gs : list unitGroup) : list unitGroup :=
  if decide (n ∈ names gs) then gs else gs ++ [newUnitGroup n].

Definition removeG (n : text) (gs : list unitGroup) : list unitGroup := filter (λ g, ug_name g ≠ n) gs.

Definition renameG (old new : text) (gs : list unitGroup) : list unitGroup :=
  match named old gs with
  | None => gs
  | Some source =>
      if decide (new ∈ names gs) then if decide (old = new) then gs else removeG old (alterG new (ug_merge source) gs)
      else alterG old (ug_rename new) gs
  end.

Definition editG (n : text) (m : unitGroup → unitGroup) (gs : list unitGroup) : list unitGroup := alterG n m (ensureG n gs).

Definition mergeG (source gs : list unitGroup) : list unitGroup :=
  foldl (λ gs g, editG (ug_name g) (ug_merge g) gs) gs source.

(** The name that a comment's group name stands for *)
Definition commentName (n : text) (gs : list unitGroup) : text :=
  match n, gs with [], g :: _ => ug_name g | _, _ => n end.

(** A change that keeps the name *)
Definition keepsName (m : unitGroup → unitGroup) : Prop := ∀ g, ug_name (m g) = ug_name g.

Lemma alterG_names n m gs : keepsName m → names (alterG n m gs) = names gs.
Proof. intros Hm. unfold alterG. rewrite <- list_fmap_compose. apply list_fmap_ext. intros i g _. simpl. by case_decide. Qed.

Lemma ensureG_names n gs : NoDup (names gs) → NoDup (names (ensureG n gs)) ∧ n ∈ names (ensureG n gs).
Proof.
  intros Hgs. unfold ensureG. case_decide as Hn; [done|]. rewrite fmap_app. split; [|apply elem_of_app; right; by left].
  apply NoDup_app. split_and!; [done| |apply NoDup_singleton]. intros x Hx Hx'. simpl in Hx'.
  by apply list_elem_of_singleton in Hx' as ->.
Qed.

Lemma named_Some n gs g : named n gs = Some g → g ∈ gs ∧ ug_name g = n.
Proof.
  unfold named. rewrite fmap_Some. intros ([i g'] & (Hi & Hn & _)%list_find_Some & ->). split; [by eapply list_elem_of_lookup_2|done].
Qed.

Lemma named_None n gs : named n gs = None ↔ n ∉ names gs.
Proof.
  unfold named. rewrite fmap_None, list_find_None, Forall_forall. setoid_rewrite list_elem_of_fmap. naive_solver.
Qed.

Lemma named_In g gs : NoDup (names gs) → g ∈ gs → named (ug_name g) gs = Some g.
Proof.
  intros Hnd Hg. destruct (named (ug_name g) gs) as [g'|] eqn:Hn.
  - apply named_Some in Hn as [Hg' Hn]. f_equal. apply list_elem_of_lookup in Hg as [i Hi], Hg' as [j Hj].
    assert (i = j) as ->; [|congruence]. eapply NoDup_lookup; [exact Hnd|by rewrite list_lookup_fmap, Hi|by rewrite list_lookup_fmap, Hj, <- Hn].
  - apply named_None in Hn. destruct Hn. by apply list_elem_of_fmap_2.
Qed.

Lemma named_cons n g gs : named n (g :: gs) = (if decide (ug_name g = n) then Some g else named n gs).
Proof. unfold named. cbn [list_find]. case_decide; [done|]. by rewrite <- option_fmap_compose. Qed.

Lemma named_alterG n n' m gs : keepsName m → named n (alterG n' m gs) = (if decide (n = n') then m <$> named n gs else named n gs).
Proof.
  intros Hm. induction gs as [|g gs IH]; [by case_decide|]. unfold alterG in *. rewrite fmap_cons, !named_cons, IH.
  assert (ug_name (if decide (ug_name g = n') then m g else g) = ug_name g) as -> by (destruct (decide (ug_name g = n')); [apply Hm|done]).
  destruct (decide (ug_name g = n)) as [<-|]; [|done]. by case_decide.
Qed.

Lemma named_ensureG n n' gs : named n (ensureG n' gs) = (if decide (n = n' ∧ named n gs = None) then Some (newUnitGroup n) else named n gs).
Proof.
  unfold ensureG. case_decide as Hin.
  - rewrite decide_False; [done|]. intros [-> Hn]. by apply named_None in Hn.
  - induction gs as [|g gs IH].
    + simpl. rewrite named_cons. simpl. repeat case_decide; naive_solver.
    + rewrite fmap_cons, not_elem_of_cons in Hin. destruct Hin as [Hne Hin]. cbn [app]. rewrite !named_cons, IH by done.
      repeat case_decide; naive_solver.
Qed.

Lemma alterG_last n m gs g : n ∉ names gs → ug_name g = n → alterG n m (gs ++ [g]) = gs ++ [m g].
Proof.
  intros Hn Hg. unfold alterG. rewrite fmap_app. simpl. rewrite decide_True by done. f_equal.
  etrans; [|apply list_fmap_id]. apply list_fmap_ext. intros i x Hx. rewrite decide_False; [done|]. intros <-. apply Hn.
  eapply list_elem_of_fmap_2, list_elem_of_lookup_2, Hx.
Qed.

(** ** The invariant *)

Record consistent (f : UnitFile) : Prop := {
  con_nodup : NoDup (uf_groups f);
  con_heap p : p ∈ uf_groups f → is_Some (uf_heap f !! p);
  con_names n p : uf_groupByName f !! n = Some p ↔ p ∈ uf_groups f ∧ ug_name <$> uf_heap f !! p = Some n }.

Lemma view_elem f g : g ∈ view f ↔ ∃ p, p ∈ uf_groups f ∧ uf_heap f !! p = Some g.
Proof. apply list_elem_of_omap. Qed.

Lemma omap_map {A B} (F : B → B) (h h' : A → option B) (l : list A) : (∀ x, x ∈ l → h' x = F <$> h x) → omap h' l = F <$> omap h l.
Proof.
  induction l as [|x l IH]; intros Hh; [done|].
  assert (omap h' l = F <$> omap h l) as IH' by (apply IH; intros; apply Hh; by right).
  cbn. rewrite Hh by by left. destruct (h x); simpl; [f_equal|]; exact IH'.
Qed.

Lemma omap_filter {A B} (P : A → Prop) (Q : B → Prop) `{!∀ x, Decision (P x), !∀ y, Decision (Q y)} (h : A → option B) (l : list A) :
  (∀ x, x ∈ l → ∃ y, h x = Some y ∧ (P x ↔ Q y)) → omap h (filter P l) = filter Q (omap h l).
Proof.
  induction l as [|x l IH]; intros Hh; [done|]. destruct (Hh x ltac:(by left)) as (y & Hy & HPQ).
  assert (omap h (filter P l) = filter Q (omap h l)) as IH' by (apply IH; intros; apply Hh; by right).
  change (omap h (x :: l)) with (match h x with Some y => y :: omap h l | None => omap h l end).
  rewrite Hy, !filter_cons. destruct (decide (P x)).
  - rewrite decide_True by tauto. rewrite <- IH'. cbn. by rewrite Hy.
  - by rewrite decide_False by tauto.
Qed.

Section consistent.
Context (f : UnitFile) (Hf : consistent f).

Lemma view_names n p : uf_groupByName f !! n = Some p → ∃ g, uf_heap f !! p = Some g ∧ ug_name g = n ∧ g ∈ view f.
Proof.
  intros [Hp Hn]%(con_names _ Hf). apply fmap_Some in Hn as (g & Hg & ->). exists g. split_and!; [done|done|].
  apply view_elem. by exists p.
Qed.

Lemma view_NoDup : NoDup (names (view f)).
Proof.
  destruct Hf as [Hnd Hheap Hnames]. unfold view. revert Hnd Hheap Hnames. generalize (uf_groupByName f). intros m. clear Hf.
  intros Hnd Hheap Hnames.
  assert (∀ p q g g', p ∈ uf_groups f → q ∈ uf_groups f → uf_heap f !! p = Some g → uf_heap f !! q = Some g' → ug_name g = ug_name g' → p = q) as Hinj.
  { intros p q g g' Hp Hq Hg Hg' Hn. assert (m !! ug_name g = Some p) as H1 by (apply Hnames; by rewrite Hg).
    assert (m !! ug_name g = Some q) as H2 by (apply Hnames; by rewrite Hg', Hn). congruence. }
  clear Hnames Hheap. induction Hnd as [|p ps Hp Hnd IH]; [constructor|]. simpl.
  assert (NoDup (names (omap (uf_heap f !!.) ps))) as IH'.
  { apply IH. intros a b g g' ??. apply Hinj; by right. }
  destruct (uf_heap f !! p) as [g|] eqn:Hg; [|done]. rewrite fmap_cons. constructor; [|done].
  intros (g' & Hn & Hg')%list_elem_of_fmap. apply list_elem_of_omap in Hg' as (q & Hq & Hg').
  apply Hp. rewrite (Hinj p q g g'); [done|by left|by right|done|done|done].
Qed.

Lemma byName_view n : uf_groupByName f !! n = None ↔ n ∉ names (view f).
Proof.
  rewrite eq_None_not_Some. apply not_iff_compat. split.
  - intros (p & Hp). destruct (view_names _ _ Hp) as (g & _ & <- & Hg). by apply list_elem_of_fmap_2.
  - intros (g & -> & Hg)%list_elem_of_fmap. apply view_elem in Hg as (p & Hp & Hg). exists p. apply (con_names _ Hf). by rewrite Hg.
Qed.

(** A look-up by name finds the group of the view with the name. *)
Lemma group_named n : group f n = named n (view f).
Proof.
  unfold group. destruct (uf_groupByName f !! n) as [p|] eqn:Hp; simpl.
  - destruct (view_names _ _ Hp) as (g & Hg & <- & Hin). rewrite Hg. symmetry. apply named_In; [apply view_NoDup|done].
  - apply byName_view in Hp. symmetry. by apply named_None.
Qed.

(** The group behind a pointer is the one with its name. *)
Lemma heap_name n p q : uf_groupByName f !! n = Some p → q ∈ uf_groups f → (ug_name <$> uf_heap f !! q = Some n ↔ q = p).
Proof.
  intros Hp Hq. split.
  - intros Hn. assert (uf_groupByName f !! n = Some q) as Hq' by (by apply (con_names _ Hf)). congruence.
  - intros ->. by apply (con_names _ Hf).
Qed.

Lemma onGroup_view n p m : uf_groupByName f !! n = Some p → view (onGroup p m f) = alterG n m (view f).
Proof.
  intros Hp. unfold view, alterG, onGroup. simpl. apply omap_map. intros q Hq.
  pose proof (heap_name n p q Hp Hq) as Hn. destruct (con_heap _ Hf q Hq) as [g Hg]. rewrite Hg in Hn |- *. simpl in *.
  destruct (decide (q = p)) as [->|Hne].
  - rewrite list_lookup_alter_eq, Hg. simpl. rewrite decide_True; [done|]. naive_solver.
  - rewrite list_lookup_alter_ne, Hg by congruence. rewrite decide_False; [done|]. naive_solver.
Qed.

Lemma onGroup_consistent p m : keepsName m → consistent (onGroup p m f).
Proof.
  intros Hm. destruct Hf as [Hnd Hheap Hnames].
  assert (∀ q, ug_name <$> alter m p (uf_heap f) !! q = ug_name <$> uf_heap f !! q) as Hh.
  { intros q. destruct (decide (p = q)) as [->|Hne]; [|by rewrite list_lookup_alter_ne].
    rewrite list_lookup_alter_eq. destruct (uf_heap f !! q); simpl; [by rewrite Hm|done]. }
  constructor; simpl; [done| |].
  - intros q Hq. specialize (Hheap q Hq). rewrite <- fmap_is_Some with (f := ug_name) in Hheap |- *. by rewrite Hh.
  - intros n q. rewrite Hh. apply Hnames.
Qed.

Lemma ensureGroup_spec n p f' : ensureGroup n f = (p, f') →
  consistent f' ∧ uf_groupByName f' !! n = Some p ∧ view f' = ensureG n (view f).
Proof using Hf.
  unfold ensureGroup, ensureG. destruct (uf_groupByName f !! n) as [q|] eqn:Hq; intros [= <- <-].
  - split_and!; [done|done|]. rewrite decide_True; [done|]. apply dec_stable. rewrite <- byName_view. congruence.
  - rewrite decide_False by by apply byName_view. destruct Hf as [Hnd Hheap Hnames].
    assert (∀ q, q ∈ uf_groups f → q < length (uf_heap f)) as Hlt by (intros q Hin; apply lookup_lt_is_Some; auto).
    assert (∀ q, q ∈ uf_groups f → (uf_heap f ++ [newUnitGroup n]) !! q = uf_heap f !! q) as Hold.
    { intros q Hin. apply lookup_app_l. auto. }
    assert ((uf_heap f ++ [newUnitGroup n]) !! length (uf_heap f) = Some (newUnitGroup n)) as Hnew by by apply list_lookup_middle.
    assert (length (uf_heap f) ∉ uf_groups f) as Hfresh by (intros ?%Hlt; lia).
    split_and!; [constructor; simpl| |].
    + apply NoDup_app. split_and!; [done| |apply NoDup_singleton]. intros q Hin ->%list_elem_of_singleton. by apply Hfresh.
    + intros q [Hin| ->%list_elem_of_singleton]%elem_of_app; [rewrite Hold by done; auto|by rewrite Hnew].
    + intros n' q. destruct (decide (n' = n)) as [->|Hne].
      * rewrite lookup_insert_eq. split.
        -- intros [= <-]. rewrite Hnew. split; [|done]. apply elem_of_app. right. by left.
        -- intros [[Hin| ->%list_elem_of_singleton]%elem_of_app Hn]; [|done]. rewrite Hold in Hn by done.
           exfalso. assert (uf_groupByName f !! n = Some q); [by apply Hnames|congruence].
      * rewrite lookup_insert_ne, Hnames by done. split.
        -- intros [Hin Hn]. rewrite Hold by done. split; [|done]. apply elem_of_app. by left.
        -- intros [[Hin| ->%list_elem_of_singleton]%elem_of_app Hn]; [by rewrite Hold in Hn|].
           rewrite Hnew in Hn. simpl in Hn. congruence.
    + simpl. by rewrite lookup_insert_eq.
    + unfold view. simpl. rewrite omap_app. simpl. rewrite Hnew. f_equal.
      transitivity (id <$> omap (uf_heap f !!.) (uf_groups f)); [|by rewrite list_fmap_id]. apply omap_map.
      intros q Hin. rewrite Hold by done. by destruct (_ !! q).
Qed.

Lemma RemoveGroup_spec n : consistent (RemoveGroup n f) ∧ view (RemoveGroup n f) = removeG n (view f).
Proof using Hf.
  unfold RemoveGroup, removeG. destruct (uf_groupByName f !! n) as [p|] eqn:Hp.
  - split; [constructor; simpl|].
    + by apply NoDup_filter, con_nodup.
    + intros q [_ Hq]%list_elem_of_filter. by apply con_heap.
    + intros n' q. rewrite list_elem_of_filter. destruct (decide (n' = n)) as [->|Hne].
      * rewrite lookup_delete_eq. split; [done|]. intros [[Hne Hq] Hn]. destruct Hne. by apply (heap_name n p q).
      * rewrite lookup_delete_ne, (con_names _ Hf) by done. split; [|tauto]. intros [Hq Hn]. split_and!; [|done|done].
        intros ->. assert (Some n = Some n') as [= ->]; [|done]. rewrite <- Hn. symmetry. by apply (heap_name n p p).
    + apply omap_filter. intros q Hq. destruct (con_heap _ Hf q Hq) as [g Hg]. exists g. split; [done|].
      pose proof (heap_name n p q Hp Hq) as Hn. rewrite Hg in Hn. simpl in Hn. naive_solver.
  - split; [done|]. apply byName_view in Hp. revert Hp. clear. induction (view f) as [|g gs IH]; [done|].
    rewrite fmap_cons, not_elem_of_cons. intros [Hne Hgs]. rewrite filter_cons, decide_True by congruence. f_equal. by apply IH.
Qed.
End consistent.

(** ** Refinement *)

Lemma NewUnitFile_consistent : consistent NewUnitFile.
Proof.
  constructor; simpl; [constructor|by intros p ?%elem_of_nil|]. intros n p. rewrite lookup_empty, elem_of_nil. naive_solver.
Qed.

(** [f] implements the list [gs]. *)
Definition implements (f : UnitFile) (gs : list unitGroup) : Prop := consistent f ∧ view f = gs.

Lemma editGroup_spec n m f gs : keepsName m → implements f gs → implements (editGroup n m f) (editG n m gs).
Proof.
  intros Hm [Hf <-]. unfold editGroup, editG. destruct (ensureGroup n f) as [p f'] eqn:He.
  apply ensureGroup_spec in He as (Hf' & Hp & <-); [|done]. split; [by apply onGroup_consistent|by apply onGroup_view].
Qed.

Lemma uf_merge_spec source f gs : implements f gs → implements (uf_merge source f) (mergeG (view source) gs).
Proof.
  unfold uf_merge, mergeG. generalize (view source). intros l. revert f gs. induction l as [|g l IH]; intros f gs Hf; [done|].
  simpl. apply IH. change (implements (editGroup (ug_name g) (ug_merge g) f) (editG (ug_name g) (ug_merge g) gs)).
  by apply editGroup_spec.
Qed.

Lemma Unset_spec n key f gs : implements f gs → implements (Unset n key f) (alterG n (ug_unset key) gs).
Proof.
  intros [Hf <-]. unfold Unset. destruct (uf_groupByName f !! n) as [p|] eqn:Hp.
  - split; [by apply onGroup_consistent|by apply onGroup_view].
  - split; [done|]. apply byName_view in Hp; [|done]. unfold alterG. revert Hp. clear. induction (view f) as [|g gs IH]; [done|].
    rewrite fmap_cons, not_elem_of_cons. intros [Hne Hgs]. rewrite fmap_cons, decide_False by congruence. f_equal. by apply IH.
Qed.

Lemma view_head f p l : consistent f → uf_groups f = p :: l → ∃ g gs, view f = g :: gs ∧ uf_groupByName f !! ug_name g = Some p.
Proof.
  intros Hf Hp. destruct (con_heap _ Hf p) as [g Hg]; [rewrite Hp; by left|]. unfold view. rewrite Hp. exists g. eexists. split.
  - cbn. by rewrite Hg.
  - apply (con_names _ Hf). rewrite Hp, Hg. split; [by left|done].
Qed.

(** The group of a comment is the one with the name [commentName]. *)
Lemma commentGroup_spec n f p f' : consistent f → commentGroup n f = (p, f') →
  consistent f' ∧ uf_groupByName f' !! commentName n (view f) = Some p ∧ view f' = ensureG (commentName n (view f)) (view f).
Proof.
  intros Hf. unfold commentGroup. destruct n as [|c n].
  - destruct (uf_groups f) as [|q l] eqn:Hq.
    + intros He. assert (view f = []) as Hv by (unfold view; by rewrite Hq). apply ensureGroup_spec in He as (? & ? & ?); [|done].
      by rewrite Hv in *.
    + intros [= <- <-]. destruct (view_head f q l Hf Hq) as (g & gs & Hv & Hn). rewrite Hv. simpl. split_and!; [done|done|].
      unfold ensureG. rewrite decide_True; [done|]. by left.
  - intros He. apply ensureGroup_spec in He as (? & ? & ?); [|done]. by destruct (view f).
Qed.

Lemma foldl_keepsName {A} (F : A → unitGroup → unitGroup) (l : list A) : (∀ x, keepsName (F x)) → keepsName (λ g, foldl (λ g x, F x g) g l).
Proof. intros HF. induction l as [|x l IH]; intros g; [done|]. simpl. by rewrite IH, HF. Qed.

Lemma RenameGroup_spec old new f gs : implements f gs → implements (RenameGroup old new f) (renameG old new gs).
Proof.
  intros [Hf <-]. unfold RenameGroup, renameG. pose proof (group_named f Hf old) as Hg. unfold group in Hg.
  destruct (uf_groupByName f !! old) as [p|] eqn:Hp; simpl in Hg; [|by rewrite <- Hg].
  destruct (view_names f Hf old p Hp) as (g & Hheap & Hname & Hin). rewrite Hheap in Hg |- *. rewrite <- Hg.
  destruct (uf_groupByName f !! new) as [q|] eqn:Hq.
  - rewrite (decide_True (P := new ∈ _)); last first.
    { destruct (view_names f Hf new q Hq) as (g' & _ & <- & ?). by apply list_elem_of_fmap_2. }
    destruct (decide (p = q)) as [->|Hne].
    + rewrite decide_True; [done|]. destruct (view_names f Hf new q Hq) as (g' & ? & ? & ?). congruence.
    + rewrite decide_False by congruence. rewrite <- (onGroup_view f Hf new q) by done.
      apply RemoveGroup_spec. by apply onGroup_consistent.
  - assert (new ∉ names (view f)) as Hnew by (by apply byName_view). rewrite decide_False by done.
    assert (old ≠ new) as Hon by congruence.
    split; [|rewrite <- (onGroup_view f Hf old p) by done; done].
    assert (∀ x, alter (ug_rename new) p (uf_heap f) !! x = if decide (x = p) then Some (ug_rename new g) else uf_heap f !! x) as Hl.
    { intros x. case_decide as Hx; [subst x; by rewrite list_lookup_alter_eq, Hheap|by rewrite list_lookup_alter_ne by congruence]. }
    constructor; simpl; [apply (con_nodup _ Hf)| |].
    + intros x Hx. rewrite Hl. case_decide; [done|by apply (con_heap _ Hf)].
    + intros n x. rewrite Hl. pose proof (proj1 (proj1 (con_names _ Hf old p) Hp)) as Hpin.
      destruct (decide (n = new)) as [->|Hn1]; [|destruct (decide (n = old)) as [->|Hn2]].
      * rewrite lookup_insert_eq. case_decide; [naive_solver|]. rewrite <- (con_names _ Hf). split; congruence.
      * rewrite lookup_insert_ne, lookup_delete_eq by done. split; [done|]. case_decide as Hx; [simpl; intros [_ [= ->]]; done|].
        rewrite <- (con_names _ Hf). congruence.
      * rewrite lookup_insert_ne, lookup_delete_ne by done. case_decide as Hx; [subst x|apply (con_names _ Hf)].
        rewrite (con_names _ Hf), Hheap. simpl. split; [naive_solver|]. intros [_ [= ?]]. congruence.
Qed.

(** ** Sequences of edits *)

(** The exported methods that change a file *)
Inductive edit : Type :=
| EMerge (source : UnitFile)
| ESet (groupName key value : text)
| ESetv (groupName : text) (keyvals : list text)
| EAdd (groupName key value : text)
| EAddCmdline (groupName key : text) (args : list text)
| EUnset (groupName key : text)
| EAddComment (groupName : text) (comments : list text)
| EPrependComment (groupName : text) (comments : list text)
| ERemoveGroup (groupName : text)
| ERenameGroup (groupName newName : text).

Definition runEdit (e : edit) : UnitFile → UnitFile :=
  match e with
  | EMerge source => uf_merge source
  | ESet n k v => Set_ n k v
  | ESetv n l => Setv n l
  | EAdd n k v => Add n k v
  | EAddCmdline n k args => AddCmdline n k args
  | EUnset n k => Unset n k
  | EAddComment n l => AddComment n l
  | EPrependComment n l => PrependComment n l
  | ERemoveGroup n => RemoveGroup n
  | ERenameGroup n n' => RenameGroup n n'
  end.

(** What an edit does to a list of groups *)
Definition specEdit (e : edit) (gs : list unitGroup) : list unitGroup :=
  match e with
  | EMerge source => mergeG (view source) gs
  | ESet n k v => editG n (ug_setKey k v) gs
  | ESetv n l => editG n (setPairs l) gs
  | EAdd n k v => editG n (ug_add k v) gs
  | EAddCmdline n k args => editG n (ug_add k (escapeWords args)) gs
  | EUnset n k => alterG n (ug_unset k) gs
  | EAddComment n l =>
      editG (commentName n gs) (λ g, mkUnitGroup (ug_name g) (ug_comments g ++ (commentLine <$> l)) (ug_lines g)) gs
  | EPrependComment n l =>
      editG (commentName n gs) (λ g, mkUnitGroup (ug_name g) ((commentLine <$> l) ++ ug_comments g) (ug_lines g)) gs
  | ERemoveGroup n => removeG n gs
  | ERenameGroup n n' => renameG n n' gs
  end.

Lemma ug_setKey_name k v : keepsName (ug_setKey k v).
Proof. intros g. unfold ug_setKey. by destruct (findLast k g) as [[??]|]. Qed.

Lemma setPairs_name l : keepsName (setPairs l).
Proof.
  remember (length l) as n eqn:Hn. revert l Hn. induction (lt_wf n) as [n _ IH]. intros [|k [|v l]] Hn g; [done|done|].
  simpl. rewrite (IH (length l)) by (simpl in *; lia). apply ug_setKey_name.
Qed.

Lemma foldl_addComment l g :
  foldl (λ g c, addComment (commentLine c) g) g l = mkUnitGroup (ug_name g) (ug_comments g ++ (commentLine <$> l)) (ug_lines g).
Proof.
  revert g. induction l as [|c l IH]; intros g; [simpl; rewrite app_nil_r; by destruct g|]. simpl. rewrite IH. simpl. by rewrite <- app_assoc.
Qed.

Lemma foldl_prependComment l g :
  foldl (λ g c, prependComment (commentLine c) g) g (rev l) = mkUnitGroup (ug_name g) ((commentLine <$> l) ++ ug_comments g) (ug_lines g).
Proof.
  revert g. induction l as [|c l IH]; intros g; [by destruct g|]. cbn [rev]. rewrite foldl_app, IH. done.
Qed.

Lemma comment_spec n m f gs : keepsName m → implements f gs →
  implements (let '(p, f) := commentGroup n f in onGroup p m f) (editG (commentName n gs) m gs).
Proof.
  intros Hm [Hf <-]. destruct (commentGroup n f) as [p f'] eqn:Hc. apply commentGroup_spec in Hc as (Hf' & Hp & Hv); [|done].
  split; [by apply onGroup_consistent|]. unfold editG. rewrite <- Hv. by apply onGroup_view.
Qed.

Lemma alterG_ext n m m' gs : (∀ g, m g = m' g) → alterG n m gs = alterG n m' gs.
Proof. intros Hm. apply list_fmap_ext. intros i g _. simpl. by rewrite Hm. Qed.

Lemma edit_refines e f gs : implements f gs → implements (runEdit e f) (specEdit e gs).
Proof.
  intros Hf. destruct e; simpl.
  - by apply uf_merge_spec.
  - apply editGroup_spec; [apply ug_setKey_name|done].
  - apply editGroup_spec; [apply setPairs_name|done].
  - by apply editGroup_spec.
  - by apply editGroup_spec.
  - by apply Unset_spec.
  - unfold editG. rewrite <- (alterG_ext _ _ _ _ (foldl_addComment comments)).
    apply comment_spec; [|done]. by apply (foldl_keepsName (λ c, addComment (commentLine c))).
  - unfold editG. rewrite <- (alterG_ext _ _ _ _ (foldl_prependComment comments)).
    apply comment_spec; [|done]. by apply (foldl_keepsName (λ c, prependComment (commentLine c))).
  - destruct Hf as [Hf <-]. by apply RemoveGroup_spec.
  - by apply RenameGroup_spec.
Qed.

Definition runEdits (l : list edit) (f : UnitFile) : UnitFile := foldl (λ f e, runEdit e f) f l.

Lemma edits_refine_list l f gs : implements f gs → implements (runEdits l f) (foldl (λ gs e, specEdit e gs) gs l).
Proof. revert f gs. induction l as [|e l IH]; intros f gs Hf; [done|]. simpl. by apply IH, edit_refines. Qed.
