(* ===== verification/UnitParse.v ===== *)
(** * UnitParse: the parser of unit files

    The lines that [Parse] takes from its input, termination, and the effect of each kind
    of line on the list of groups that the file implements; and that it reads back what
    was printed. *)

From S2P Require Import Prelude UnitText UnitSplit UnitWords UnitFile UnitLookup UnitSpec.

(** ** Positions of bytes *)

Lemma IndexByte_app a b c : c ∉ a → IndexByte (a ++ c :: b) c = Some (length a).
Proof.
  intros Hc. unfold IndexByte. rewrite list_find_app_r; simpl.
  - by rewrite decide_True by done.
  - apply list_find_None, Forall_forall. intros x Hx ->. done.
Qed.

Lemma IndexByte_None s c : IndexByte s c = None ↔ c ∉ s.
Proof. unfold IndexByte. rewrite fmap_None, list_find_None, Forall_forall. naive_solver. Qed.

Lemma IndexByte_Some s c i : IndexByte s c = Some i → ∃ a b, s = a ++ c :: b ∧ length a = i ∧ c ∉ a.
Proof.
  unfold IndexByte. rewrite fmap_Some. intros ([j d] & (Hj & <- & Hlt)%list_find_Some & ->). simpl.
  exists (take j s), (drop (S j) s). pose proof (lookup_lt_Some _ _ _ Hj). split_and!.
  - symmetry. by apply take_drop_middle.
  - apply length_take_le. lia.
  - intros (k & Hk)%list_elem_of_lookup. apply lookup_take_Some in Hk as [Hk ?]. by apply (Hlt k c Hk).
Qed.

(** ** Lines of the input *)

Lemma nextLine_app a l rest : LF ∉ l → nextLine (a ++ l ++ LF :: rest) (length a) = (a ++ l, rest).
Proof.
  intros Hl. unfold nextLine. rewrite drop_app_length, IndexByte_app by done. f_equal.
  - rewrite app_assoc, take_app_length'; [done|]. rewrite length_app. lia.
  - rewrite app_assoc, drop_app_ge by (rewrite length_app; lia). rewrite length_app.
    by replace (length l + length a + 1 - (length a + length l)) with 1 by lia.
Qed.

Lemma nextLine_first l rest : LF ∉ l → nextLine (l ++ LF :: rest) 0 = (l, rest).
Proof. apply (nextLine_app []). Qed.

(** Either a newline is found, or the rest is empty. *)
Lemma nextLine_cases data k line rest : k ≤ length data → nextLine data k = (line, rest) →
  (data = line ++ LF :: rest ∧ k ≤ length line) ∨ (line = data ∧ rest = [] ∧ LF ∉ drop k data).
Proof.
  intros Hk. unfold nextLine. destruct (IndexByte (drop k data) LF) as [i|] eqn:Hi.
  - apply IndexByte_Some in Hi as (a & b & Hd & <- & Ha). rewrite <- (take_drop k data), Hd.
    assert (length (take k data) = k) as Hlen by (apply length_take_le; lia).
    intros [= <- <-]. left.
    rewrite app_assoc, take_app_length' by (rewrite length_app; lia). rewrite drop_app_ge by (rewrite length_app; lia).
    rewrite !length_app. replace (length a + k + 1 - (length (take k data) + length a)) with 1 by lia.
    split; [done|lia].
  - intros [= <- <-]. right. by apply IndexByte_None in Hi.
Qed.

Lemma nextLine_shorter data k line rest : data ≠ [] → k ≤ length data → nextLine data k = (line, rest) → length rest < length data.
Proof.
  intros Hne Hk Hn. destruct (nextLine_cases _ _ _ _ Hk Hn) as [[-> _]|(-> & -> & _)].
  - rewrite length_app. simpl. lia.
  - destruct data; simpl; [done|lia].
Qed.

(** The loop over continuation lines stops because of its condition. *)
Lemma continueLine_done fuel data line rest n line' rest' n' :
  data = line ++ LF :: rest ∨ rest = [] → length rest ≤ fuel → continueLine fuel data line rest n = (line', rest', n') →
  ¬ (rest' ≠ [] ∧ last line' = Some BS) ∧ length rest' ≤ length rest.
Proof.
  revert line rest n. induction fuel as [|fuel IH]; intros line rest n Hd Hf; cbn [continueLine].
  - destruct rest; [|simpl in Hf; lia]. intros [= <- <- <-]. naive_solver.
  - case_bool_decide as Hc; [|intros [= <- <- <-]; split; [done|lia]]. destruct Hc as [Hr Hl].
    destruct Hd as [Hd| ->]; [|done]. destruct (nextLine data (length line + 1)) as [line1 rest1] eqn:Hn.
    assert (length line + 1 ≤ length data) as Hle by (rewrite Hd, length_app; simpl; lia).
    assert (length rest1 < length rest ∧ (data = line1 ++ LF :: rest1 ∨ rest1 = [])) as [Hlt Hd1].
    { destruct (nextLine_cases _ _ _ _ Hle Hn) as [[Hd1 Hk]|(_ & -> & _)].
      - split; [|by left]. assert (length data = length data) as Hlen by done. rewrite Hd1 in Hlen at 1. rewrite Hd, !length_app in Hlen. simpl in Hlen. lia.
      - split; [|by right]. destruct rest; simpl; [done|lia]. }
    intros Hc. apply IH in Hc; [|done|lia]. destruct Hc. split; [done|lia].
Qed.

Lemma takeLine_done data line rest n : data ≠ [] → takeLine data = (line, rest, n) →
  length rest < length data ∧ (lineIsKeyValuePair line = true → ¬ (rest ≠ [] ∧ last line = Some BS) ∨ lineIsKeyValuePair (fst (nextLine data 0)) = false).
Proof.
  intros Hne. unfold takeLine. destruct (nextLine data 0) as [line0 rest0] eqn:Hn.
  assert (length rest0 < length data) as Hlt by (eapply nextLine_shorter; [done| |exact Hn]; lia).
  destruct (lineIsKeyValuePair line0) eqn:Hk.
  - intros Hc. apply continueLine_done in Hc as [Hd Hle]; [split; [lia|naive_solver]| |lia].
    destruct (nextLine_cases data 0 line0 rest0 ltac:(lia) Hn) as [[-> _]|(_ & -> & _)]; [by left|by right].
  - intros [= <- <- <-]. split; [done|]. by right.
Qed.

(** ** Termination *)

Lemma parseLoop_ends fuel : ∀ data p, length data ≤ fuel → is_Some (parseLoop fuel data p).
Proof.
  induction fuel as [|fuel IH]; intros [|c data] p Hf; try (simpl in Hf; lia); try by eexists.
  cbn [parseLoop]. destruct (takeLine (c :: data)) as [[line rest] n] eqn:Ht. apply takeLine_done in Ht as [Hlt _]; [|done].
  destruct (parseLine line p) as [p'|e]; [apply IH; lia|by eexists].
Qed.

Lemma Parse_is_Some data f : is_Some (Parse data f).
Proof.
  unfold Parse. destruct (parseLoop_ends (length data) data (mkParser f None [] 1) (le_n _)) as [r ->].
  destruct r as [p|[e p]]; [|by eexists]. destruct (p_currentGroup p); [by eexists|]. destruct (ensureGroup [] (p_file p)). by eexists.
Qed.

Lemma parseLoop_mono fuel fuel' data p r : parseLoop fuel data p = Some r → fuel ≤ fuel' → parseLoop fuel' data p = Some r.
Proof.
  revert fuel' data p. induction fuel as [|fuel IH]; intros fuel' [|c data] p Hp Hle; cbn [parseLoop] in Hp; try done.
  - by destruct fuel'.
  - by destruct fuel'.
  - destruct fuel' as [|fuel']; [lia|]. cbn [parseLoop]. destruct (takeLine (c :: data)) as [[line rest] n].
    destruct (parseLine line p) as [p'|e]; [|done]. apply IH; [done|lia].
Qed.

(** The loop on some input has a result. *)
Definition runs (data : text) (p : UnitFileParser) (r : result (parseError * UnitFileParser) UnitFileParser) : Prop :=
  ∃ fuel, parseLoop fuel data p = Some r.

Lemma runs_loop data p r : runs data p r → parseLoop (length data) data p = Some r.
Proof.
  intros [fuel Hf]. destruct (parseLoop_ends (length data) data p (le_n _)) as [r' Hr]. rewrite Hr. f_equal.
  destruct (decide (fuel ≤ length data)) as [Hle|Hle].
  - eapply parseLoop_mono in Hf; [|exact Hle]. congruence.
  - eapply (parseLoop_mono _ fuel) in Hr; [congruence|lia].
Qed.

Lemma runs_nil p : runs [] p (Ok p).
Proof. by exists 0. Qed.

Lemma runs_line t rest p p' n r : takeLine (t ++ LF :: rest) = (t, rest, n) → parseLine t p = Ok p' →
  runs rest (p_advance n p') r → runs (t ++ LF :: rest) p r.
Proof.
  intros Ht Hp [fuel Hr]. exists (S fuel). cbn [parseLoop]. destruct (t ++ LF :: rest) as [|c data] eqn:Hd; [by destruct t|].
  by rewrite Ht, Hp.
Qed.

(** ** Logical lines *)

(** Newlines are preceded by backslashes, and the last byte is not a backslash. *)
Fixpoint continued (t : text) : bool :=
  match t with
  | [] => true
  | c :: t' =>
      if bool_decide (c = LF) then false
      else if bool_decide (c = BS) then
        match t' with
        | [] => false
        | d :: t'' => if bool_decide (d = LF) then continued t'' else continued t'
        end
      else continued t'
  end.

Inductive logical : text → Prop :=
| logical_last l : LF ∉ l → last l ≠ Some BS → logical l
| logical_more l t : LF ∉ l → last l = Some BS → logical t → logical (l ++ LF :: t).

Lemma logical_cons c t : c ≠ LF → (c = BS → t ≠ []) → (head t ≠ Some LF ∨ c = BS) → logical t → logical (c :: t).
Proof.
  intros Hc Hbs Hh Ht. destruct Ht as [l Hl Hlast|l t Hl Hlast Ht].
  - apply logical_last; [apply not_elem_of_cons; split; [congruence|done]|]. destruct l as [|d l]; [|by rewrite last_cons_cons].
    simpl. intros [= ->]. by apply Hbs.
  - apply (logical_more (c :: l)); [by apply not_elem_of_cons| |done]. destruct l as [|d l]; [done|by rewrite last_cons_cons].
Qed.

Lemma continued_logical t : continued t = true → logical t.
Proof.
  remember (length t) as n eqn:Hn. revert t Hn. induction (lt_wf n) as [n _ IH]. intros t ->.
  destruct t as [|c t]; [intros _; apply logical_last; [apply not_elem_of_nil|done]|]. cbn [continued].
  case_bool_decide as Hlf; [done|]. case_bool_decide as Hbs.
  - destruct t as [|d t]; [done|]. case_bool_decide as Hd; intros Hc.
    + subst. apply (logical_more [BS]); [apply not_elem_of_cons; split; [done|apply not_elem_of_nil]|done|]. apply (IH (length t)); simpl; auto; lia.
    + apply logical_cons; [done|done|by right|]. apply (IH (length (d :: t))); simpl; auto; lia.
  - intros Hc. apply logical_cons; [done|done| |apply (IH (length t)); simpl; auto].
    left. destruct t as [|d t]; [done|]. cbn [continued] in Hc. case_bool_decide; [done|]. simpl. congruence.
Qed.

(** The number of newlines *)
Definition newlines (t : text) : nat := length (filter (LF =.) t).

Lemma newlines_app s t : newlines (s ++ t) = newlines s + newlines t.
Proof. unfold newlines. by rewrite filter_app, length_app. Qed.

Lemma newlines_none l : LF ∉ l → newlines l = 0.
Proof.
  unfold newlines. induction l as [|c l IH]; [done|]. rewrite not_elem_of_cons. intros [Hc Hl]. rewrite filter_cons, decide_False by done. by apply IH.
Qed.

Lemma newlines_cons t : newlines (LF :: t) = S (newlines t).
Proof. done. Qed.

Lemma continueLine_logical t a rest fuel n : logical t → length (t ++ LF :: rest) ≤ fuel → last a = Some BS →
  continueLine fuel (a ++ LF :: t ++ LF :: rest) a (t ++ LF :: rest) n = (a ++ LF :: t, rest, n + newlines (LF :: t)).
Proof.
  intros Ht. revert a fuel n. induction Ht as [l Hl Hlast|l t Hl Hlast Ht IH]; intros a fuel n Hf Ha.
  all: destruct fuel as [|fuel]; [rewrite length_app in Hf; simpl in Hf; lia|]; cbn [continueLine].
  all: rewrite bool_decide_true by (split; [destruct l; simpl; discriminate|done]).
  all: replace (length a + 1) with (length (a ++ [LF])) by (rewrite length_app; simpl; lia).
  - replace (a ++ LF :: l ++ LF :: rest) with ((a ++ [LF]) ++ l ++ LF :: rest) by by rewrite <- app_assoc.
    rewrite nextLine_app by done. rewrite <- !app_assoc. simpl.
    assert (¬ (rest ≠ [] ∧ last (a ++ LF :: l) = Some BS)) as Hstop.
    { intros [_ Hb]. rewrite last_app, last_cons in Hb. destruct (last l) eqn:Hll; [naive_solver|]. by inversion Hb. }
    rewrite newlines_cons, newlines_none by done.
    destruct fuel; cbn [continueLine]; [done|]. by rewrite bool_decide_false.
  - replace (a ++ LF :: (l ++ LF :: t) ++ LF :: rest) with ((a ++ [LF]) ++ l ++ LF :: (t ++ LF :: rest)) by (by rewrite <- !app_assoc).
    rewrite nextLine_app by done. rewrite <- !app_assoc. simpl.
    specialize (IH (a ++ LF :: l) fuel (n + 1)). rewrite <- !app_assoc in IH. simpl in IH. rewrite IH.
    + rewrite !newlines_cons, newlines_app, newlines_cons, (newlines_none l) by done. f_equal. lia.
    + rewrite !length_app in Hf |- *. simpl in Hf |- *. rewrite length_app in Hf. simpl in Hf. lia.
    + rewrite last_app, last_cons, Hlast. done.
Qed.

Lemma takeLine_logical t rest : logical t → (LF ∈ t → lineIsKeyValuePair (fst (nextLine t 0)) = true) →
  takeLine (t ++ LF :: rest) = (t, rest, 1 + newlines t).
Proof.
  intros Ht Hkv. unfold takeLine. destruct Ht as [l Hl Hlast|l t Hl Hlast Ht].
  - rewrite (nextLine_first l rest Hl), (newlines_none l Hl). destruct (lineIsKeyValuePair l); [|by eexists].
    destruct rest as [|c rest]; cbn [length continueLine]; [by eexists|]. rewrite bool_decide_false by tauto. by eexists.
  - rewrite <- app_assoc. simpl. rewrite (nextLine_first l _ Hl). rewrite (nextLine_first l t Hl) in Hkv. simpl in Hkv.
    rewrite Hkv by (apply elem_of_app; right; by left).
    rewrite newlines_app, (newlines_none l Hl). by apply continueLine_logical.
Qed.

Lemma takeLine_plain t rest : LF ∉ t → (lineIsKeyValuePair t = true → last t ≠ Some BS) → takeLine (t ++ LF :: rest) = (t, rest, 1).
Proof.
  intros Hl Hlast. unfold takeLine. rewrite (nextLine_first t rest Hl).
  destruct (lineIsKeyValuePair t); [|done]. destruct rest as [|c rest]; cbn [length continueLine]; [done|].
  rewrite bool_decide_false; [done|]. naive_solver.
Qed.

(** ** Parsing what was printed *)

(** ** The parser on lists of groups *)

(** The file of the parser implements [gs]; the current group is the one named [cur]. *)
Record at_ (p : UnitFileParser) (gs : list unitGroup) (cur : option text) (pending : list unitLine) : Prop := {
  at_file : implements (p_file p) gs;
  at_current : p_currentGroup p = (cur ≫= λ n, uf_groupByName (p_file p) !! n);
  at_exists : ∀ n, cur = Some n → is_Some (uf_groupByName (p_file p) !! n);
  at_pending : p_pendingComments p = pending }.

Definition addComments (l : list unitLine) (g : unitGroup) : unitGroup := mkUnitGroup (ug_name g) (ug_comments g ++ l) (ug_lines g).
Definition addLines (l : list unitLine) (g : unitGroup) : unitGroup := mkUnitGroup (ug_name g) (ug_comments g) (ug_lines g ++ l).

(** The comments that [parseGroup] keeps *)
Definition stripFirst (l : list unitLine) : list unitLine :=
  match l with [] => [] | first :: rest => if isEmpty first then rest else l end.

Lemma foldl_comments l g : foldl (λ g l, addComment l g) g l = addComments l g.
Proof.
  revert g. induction l as [|c l IH]; intros g; [unfold addComments; rewrite app_nil_r; by destruct g|].
  simpl. rewrite IH. unfold addComments. simpl. by rewrite <- app_assoc.
Qed.

Lemma foldl_lines l g : foldl (λ g l, addLine l g) g l = addLines l g.
Proof.
  revert g. induction l as [|c l IH]; intros g; [unfold addLines; rewrite app_nil_r; by destruct g|].
  simpl. rewrite IH. unfold addLines. simpl. by rewrite <- app_assoc.
Qed.

(** Changing the current group *)
Lemma at_onGroup p gs n pending g m pending' k : at_ p gs (Some n) pending → p_currentGroup p = Some g → keepsName m →
  at_ (mkParser (onGroup g m (p_file p)) (p_currentGroup p) pending' k) (alterG n m gs) (Some n) pending'.
Proof.
  intros [[Hf <-] Hc He Hp] Hg Hm. rewrite Hc in Hg. simpl in Hg.
  constructor; simpl; [split; [by apply onGroup_consistent|by apply onGroup_view]|done|done|done].
Qed.

Lemma at_current_Some p gs n pending : at_ p gs (Some n) pending → ∃ g, p_currentGroup p = Some g.
Proof. intros [_ Hc He _]. destruct (He n eq_refl) as [g Hg]. exists g. by rewrite Hc. Qed.

Lemma flush_spec toComment p gs n pending : at_ p gs (Some n) pending →
  at_ (flushPendingComments toComment p) (alterG n (if toComment then addComments pending else addLines pending) gs) (Some n) [].
Proof.
  intros Hp. destruct (at_current_Some _ _ _ _ Hp) as [g Hg]. unfold flushPendingComments. pose proof (at_pending _ _ _ _ Hp) as Hpd.
  rewrite Hg, Hpd, <- Hg. destruct toComment.
  - rewrite (alterG_ext n (addComments pending) (λ g, foldl (λ g l, addComment l g) g pending)) by (intros; by rewrite foldl_comments).
    eapply at_onGroup; [done|done|]. by apply (foldl_keepsName addComment).
  - rewrite (alterG_ext n (addLines pending) (λ g, foldl (λ g l, addLine l g) g pending)) by (intros; by rewrite foldl_lines).
    eapply at_onGroup; [done|done|]. by apply (foldl_keepsName addLine).
Qed.

Lemma parseComment_spec line p gs cur pending : at_ p gs cur pending →
  at_ (parseComment line p) gs cur (pending ++ [mkUnitLine [] line true]).
Proof. intros [Hf Hc He <-]. by constructor. Qed.

Lemma p_advance_at k p gs cur pending : at_ p gs cur pending → at_ (p_advance k p) gs cur pending.
Proof. intros [????]. by constructor. Qed.

(** The name between the brackets *)
Definition lineGroupName (line : text) : text := drop 1 (take (default 0 (IndexByte line "]"%char)) line).

Lemma parseGroup_spec line p p' gs cur pending : at_ p gs cur pending → parseGroup line p = Ok p' →
  at_ p' (alterG (lineGroupName line) (addComments (stripFirst pending)) (ensureG (lineGroupName line) gs)) (Some (lineGroupName line)) [].
Proof.
  intros [[Hf <-] Hc He Hp]. unfold parseGroup. change (drop 1 _) with (lineGroupName line). set (n := lineGroupName line).
  destruct (groupNameIsValid n); [|done]. simpl. destruct (ensureGroup n (p_file p)) as [g f'] eqn:Hg.
  apply ensureGroup_spec in Hg as (Hf' & Hn & Hv); [|done]. rewrite Hp. rewrite <- Hv.
  assert (∀ pd, at_ (p_set_pending pd (p_enter g f' p)) (view f') (Some n) pd) as Hat.
  { intros pd. constructor; simpl; [done|done|naive_solver|done]. }
  destruct pending as [|c pending]; intros [= <-].
  - rewrite (alterG_ext n _ id) by (intros []; unfold addComments; simpl; by rewrite app_nil_r).
    unfold alterG, id. replace (_ <$> view f') with (view f') by (symmetry; etrans; [apply list_fmap_ext; intros; by case_decide|apply list_fmap_id]).
    specialize (Hat []). rewrite <- Hp in Hat. unfold p_set_pending, p_enter in Hat |- *. simpl in *. by rewrite Hp in *.
  - simpl. destruct (isEmpty c); apply (flush_spec true); [apply Hat|].
    specialize (Hat (c :: pending)). unfold p_set_pending, p_enter in *. simpl in *. by rewrite Hp.
Qed.

(** The key and the value of a line *)
Definition lineKey (line : text) : text := chompSpaces (take (default 0 (IndexByte line "="%char)) line).
Definition lineValue (line : text) : text := chugSpaces (drop (S (default 0 (IndexByte line "="%char))) line).

Lemma parseKeyValuePair_spec line p p' gs cur pending : at_ p gs cur pending → parseKeyValuePair line p = Ok p' →
  ∃ n, cur = Some n ∧ at_ p' (alterG n (addLines (pending ++ [mkUnitLine (lineKey line) (lineValue line) false])) gs) cur [].
Proof.
  intros Hat. unfold parseKeyValuePair. destruct (p_currentGroup p) as [g|] eqn:Hg; [|done].
  change (chompSpaces _) with (lineKey line). change (chugSpaces _) with (lineValue line).
  destruct (keyNameIsValid (lineKey line)); [|done]. intros [= <-].
  destruct cur as [n|]; [|by rewrite (at_current _ _ _ _ Hat) in Hg]. exists n. split; [done|].
  pose proof (flush_spec false _ _ _ _ Hat) as Hfl. assert (p_currentGroup (flushPendingComments false p) = Some g) as Hg'.
  { unfold flushPendingComments. by rewrite Hg. }
  apply (at_onGroup _ _ _ _ g (ug_add (lineKey line) (lineValue line)) [] (p_lineNr (flushPendingComments false p))) in Hfl; [|done|done].
  assert (p_pendingComments (flushPendingComments false p) = []) as -> by (unfold flushPendingComments; by rewrite Hg).
  revert Hfl. unfold alterG. rewrite <- list_fmap_compose. erewrite list_fmap_ext; [intros Hfl; exact Hfl|].
  intros i x _. simpl. destruct (decide (ug_name x = n)) as [<-|]; simpl.
  - rewrite decide_True by done. unfold ug_add, addLine, addLines. simpl. by rewrite app_assoc.
  - by rewrite decide_False.
Qed.

(** ** The invariant of the parser *)

Lemma parseLine_invariant line p p' gs cur pending : at_ p gs cur pending → parseLine line p = Ok p' →
  ∃ gs cur pending, at_ p' gs cur pending.
Proof.
  intros Hat. unfold parseLine. destruct (lineIsComment line).
  { intros [= <-]. eexists _, _, _. by apply parseComment_spec. }
  destruct (lineIsGroup line); [intros Hp; eexists _, _, _; by eapply parseGroup_spec|].
  destruct (lineIsKeyValuePair line); [|done]. intros Hp. eapply parseKeyValuePair_spec in Hp as (n & _ & Hp); [|done]. eauto.
Qed.

Lemma parseLoop_invariant fuel data p r gs cur pending : at_ p gs cur pending → parseLoop fuel data p = Some r →
  ∃ gs cur pending, at_ (match r with Ok p' => p' | Err (_, p') => p' end) gs cur pending.
Proof.
  revert data p gs cur pending. induction fuel as [|fuel IH]; intros [|c data] p gs cur pending Hat; cbn [parseLoop].
  - intros [= <-]. eauto.
  - done.
  - intros [= <-]. eauto.
  - destruct (takeLine (c :: data)) as [[line rest] n]. destruct (parseLine line p) as [p1|e] eqn:Hl; [|intros [= <-]; eauto].
    destruct (parseLine_invariant _ _ _ _ _ _ Hat Hl) as (gs1 & cur1 & pd1 & Hat1). eapply IH. by apply p_advance_at.
Qed.

Lemma at_start f gs : implements f gs → at_ (mkParser f None [] 1) gs None [].
Proof. intros Hf. by constructor. Qed.

(** The end of [Parse] *)
Lemma Parse_Ok data f gs p gs' cur pending : implements f gs → runs data (mkParser f None [] 1) (Ok p) → at_ p gs' cur pending →
  ∃ f', Parse data f = Some (Ok f') ∧
    implements f' (match cur with Some n => alterG n (addLines pending) gs' | None => editG [] (addLines pending) gs' end).
Proof.
  intros Hf Hr%runs_loop Hat. unfold Parse. rewrite Hr. destruct cur as [n|].
  - destruct (at_current_Some _ _ _ _ Hat) as [g Hg]. rewrite Hg. eexists. split; [done|].
    apply (flush_spec false) in Hat. by destruct Hat.
  - rewrite (at_current _ _ _ _ Hat). simpl. destruct (ensureGroup [] (p_file p)) as [g f'] eqn:He. eexists. split; [done|].
    destruct Hat as [[Hfile <-] _ _ Hp]. apply ensureGroup_spec in He as (Hf' & Hn & Hv); [|done].
    assert (at_ (p_enter g f' p) (view f') (Some []) pending) as Hat by (constructor; simpl; [done|done|naive_solver|done]).
    apply (flush_spec false) in Hat. unfold editG. rewrite <- Hv. by destruct Hat.
Qed.

Lemma Parse_consistent data f r : consistent f → Parse data f = Some r →
  consistent (match r with Ok f' => f' | Err (_, f') => f' end).
Proof.
  intros Hf Hp. assert (implements f (view f)) as Hi by done.
  destruct (parseLoop_ends (length data) data (mkParser f None [] 1) (le_n _)) as [r0 Hr].
  destruct (parseLoop_invariant _ _ _ _ _ _ _ (at_start _ _ Hi) Hr) as (gs & cur & pending & Hat).
  destruct r0 as [p|[e p]].
  - destruct (Parse_Ok data f (view f) p gs cur pending Hi) as (f1 & Hf1 & Hi1); [by eexists|done|].
    rewrite Hf1 in Hp. injection Hp as <-. by destruct Hi1.
  - unfold Parse in Hp. rewrite Hr in Hp. injection Hp as <-. by destruct Hat as [[??] _ _ _].
Qed.

(** ** Groups that can be printed *)

(** A comment that looks like a key with a value must not end in a backslash: the parser
    joins the next line to it. *)
Definition printableComment (l : unitLine) : bool :=
  ul_isComment l && bool_decide (ul_key l = []) && lineIsComment (ul_value l) && bool_decide (LF ∉ ul_value l) &&
  negb (lineIsKeyValuePair (ul_value l) && bool_decide (last (ul_value l) = Some BS)).

Definition startsKey (key : text) : bool :=
  match key with [] => false | c :: _ => bool_decide (c ∉ T "#:[") end.

(** A key does not look like another kind of line and does not end in white space; a value
    does not begin with it, and continues on another line only after a backslash. *)
Definition printableKey (l : unitLine) : bool :=
  negb (ul_isComment l) && keyNameIsValid (ul_key l) && startsKey (ul_key l) && bool_decide (LF ∉ ul_key l) &&
  bool_decide (chompSpaces (ul_key l) = ul_key l) && bool_decide (chugSpaces (ul_value l) = ul_value l) &&
  continued (ul_key l ++ T "=" ++ ul_value l).

Definition printableGroup (g : unitGroup) : bool :=
  groupNameIsValid (ug_name g) && forallb printableComment (ug_comments g) &&
  forallb (λ l, printableComment l || printableKey l) (ug_lines g).

Definition endsInComment (g : unitGroup) : bool :=
  match last (ug_lines g) with Some l => ul_isComment l | None => false end.

(** Comments at the end of a group that is not the last would be read as the comments of
    the next one. *)
Fixpoint separated (gs : list unitGroup) : bool :=
  match gs with
  | g :: ((_ :: _) as gs') => negb (endsInComment g) && separated gs'
  | _ => true
  end.

(** The first line of the file is not empty. *)
Definition printable (gs : list unitGroup) : bool :=
  match gs with
  | [] => false
  | g :: _ => bool_decide (NoDup (names gs)) && forallb printableGroup gs && separated gs &&
      match ug_comments g with c :: _ => negb (isEmpty c) | [] => true end
  end.

(** ** Reading printed lines *)

(** The parser in the state [p] reads [t] and is then in the state [p']. *)
Definition reads (t : text) (p p' : UnitFileParser) : Prop := ∀ rest r, runs rest p' r → runs (t ++ rest) p r.

Lemma reads_nil p : reads [] p p.
Proof. by intros rest r. Qed.

Lemma reads_app t1 t2 p p1 p2 : reads t1 p p1 → reads t2 p1 p2 → reads (t1 ++ t2) p p2.
Proof. intros H1 H2 rest r Hr. rewrite <- app_assoc. by apply H1, H2. Qed.

Lemma reads_line t n p p' : (∀ rest, takeLine (t ++ LF :: rest) = (t, rest, n)) → parseLine t p = Ok p' → reads (t ++ [LF]) p (p_advance n p').
Proof. intros Ht Hp rest r Hr. rewrite <- app_assoc. by eapply runs_line. Qed.

Lemma reads_comment l p gs cur pending : printableComment l = true → at_ p gs cur pending →
  ∃ p', reads (ul_write l) p p' ∧ at_ p' gs cur (pending ++ [l]).
Proof.
  unfold printableComment, ul_write. rewrite !andb_true_iff, !bool_decide_eq_true, negb_true_iff.
  intros ((((Hc & Hk) & Hv) & Hlf) & Hbs) Hat. rewrite Hc. eexists. split.
  - apply reads_line; [|unfold parseLine; by rewrite Hv]. intros rest. apply takeLine_plain; [done|].
    intros Hkv Hlast. rewrite Hkv, bool_decide_true in Hbs; done.
  - apply p_advance_at. destruct l as [k v c]. simpl in *. subst. by apply parseComment_spec.
Qed.

Lemma valid_name_bytes n c : groupNameIsValid n = true → c ∈ n → c ≠ "]"%char ∧ c ≠ LF.
Proof.
  unfold groupNameIsValid. rewrite andb_true_iff, forallb_forall. intros [_ Hn] Hc.
  destruct (byte_rune c n Hc) as [Hh|Hr].
  - by split; intros ->.
  - rewrite list_elem_of_In in Hr. specialize (Hn _ Hr). by split; intros ->.
Qed.

Lemma header_line n : groupNameIsValid n = true →
  IndexByte (T "[" ++ n ++ T "]") "]"%char = Some (S (length n)) ∧ lineIsGroup (T "[" ++ n ++ T "]") = true ∧ lineGroupName (T "[" ++ n ++ T "]") = n.
Proof.
  intros Hn. assert (IndexByte (T "[" ++ n ++ T "]") "]"%char = Some (S (length n))) as Hi.
  { change (T "[" ++ n ++ T "]") with (("["%char :: n) ++ "]"%char :: []). rewrite IndexByte_app; [done|].
    intros [|Hin]%elem_of_cons; [done|]. by apply (valid_name_bytes n "]"%char) in Hn as [??]. }
  split; [done|]. split.
  - unfold lineIsGroup. change (T "[" ++ n ++ T "]") with ("["%char :: n ++ T "]") in *. rewrite Hi.
    rewrite bool_decide_false by naive_solver. rewrite drop_ge; [done|]. simpl. rewrite length_app. simpl. lia.
  - unfold lineGroupName. rewrite Hi. change (T "[" ++ n ++ T "]") with ("["%char :: n ++ T "]"). cbn [default from_option id take drop].
    by rewrite drop_0, take_app_length.
Qed.

Lemma reads_header n p gs cur pending : groupNameIsValid n = true → at_ p gs cur pending →
  ∃ p', reads (T "[" ++ n ++ T "]" ++ [LF]) p p' ∧ at_ p' (alterG n (addComments (stripFirst pending)) (ensureG n gs)) (Some n) [].
Proof.
  intros Hn Hat. destruct (header_line n Hn) as (Hi & Hg & Hname).
  assert (∃ p', parseGroup (T "[" ++ n ++ T "]") p = Ok p') as [p' Hp].
  { unfold parseGroup. change (drop 1 _) with (lineGroupName (T "[" ++ n ++ T "]")). rewrite Hname, Hn. simpl.
    destruct (ensureGroup n (p_file p)). destruct (p_pendingComments _); eauto. }
  exists (p_advance 1 p'). split.
  - replace (T "[" ++ n ++ T "]" ++ [LF]) with ((T "[" ++ n ++ T "]") ++ [LF]) by by rewrite <- !app_assoc.
    apply reads_line; [intros rest; apply takeLine_plain|].
    + rewrite !not_elem_of_app. split_and!; [by intros ?%list_elem_of_singleton| |by intros ?%list_elem_of_singleton].
      intros Hin. by apply (valid_name_bytes n LF) in Hn as [??].
    + intros _. rewrite app_assoc, last_app. done.
    + unfold parseLine. by rewrite Hg.
  - apply p_advance_at. eapply parseGroup_spec in Hp; [|done]. by rewrite Hname in Hp.
Qed.

Lemma key_no_equals k c : keyNameIsValid k = true → c ∈ k → c ≠ "="%char.
Proof.
  unfold keyNameIsValid. rewrite !andb_true_iff, forallb_forall. intros [[[_ Hn] _] _] Hc ->.
  destruct (byte_rune _ k Hc) as [Hh|Hr]; [done|]. rewrite list_elem_of_In in Hr. by specialize (Hn _ Hr).
Qed.

(** A line that begins with a key *)
Lemma key_line k v : keyNameIsValid k = true → startsKey k = true →
  IndexByte (k ++ "="%char :: v) "="%char = Some (length k) ∧ lineIsComment (k ++ "="%char :: v) = false ∧
  lineIsGroup (k ++ "="%char :: v) = false ∧ lineIsKeyValuePair (k ++ "="%char :: v) = true.
Proof.
  intros Hk Hs. assert (IndexByte (k ++ "="%char :: v) "="%char = Some (length k)) as Hi.
  { apply IndexByte_app. intros Hin. by apply (key_no_equals k "="%char) in Hin. }
  split; [done|]. unfold lineIsKeyValuePair. rewrite Hi. destruct k as [|c k]; [done|]. unfold startsKey in Hs. apply bool_decide_eq_true in Hs.
  assert (c ≠ "#"%char ∧ c ≠ ":"%char ∧ c ≠ "["%char) as (? & ? & ?).
  { split_and!; intros ->; apply Hs; cbn; rewrite !elem_of_cons; auto. }
  simpl. by rewrite bool_decide_false, bool_decide_true by tauto.
Qed.

Lemma parseKey_line k v p gs n pending : keyNameIsValid k = true → startsKey k = true → chompSpaces k = k → chugSpaces v = v →
  at_ p gs (Some n) pending →
  ∃ p', parseLine (k ++ "="%char :: v) p = Ok p' ∧ at_ p' (alterG n (addLines (pending ++ [mkUnitLine k v false])) gs) (Some n) [].
Proof.
  intros Hk Hs Hck Hcv Hat. destruct (key_line k v Hk Hs) as (Hi & Hc & Hg & Hkv). unfold parseLine. rewrite Hc, Hg, Hkv.
  assert (lineKey (k ++ "="%char :: v) = k ∧ lineValue (k ++ "="%char :: v) = v) as [Hlk Hlv].
  { unfold lineKey, lineValue. rewrite Hi. cbn [default from_option id]. rewrite take_app_length, drop_app_ge by lia.
    by replace (S (length k) - length k) with 1 by lia. }
  assert (∃ p', parseKeyValuePair (k ++ "="%char :: v) p = Ok p') as [p' Hp].
  { unfold parseKeyValuePair. destruct (at_current_Some _ _ _ _ Hat) as [g ->]. change (chompSpaces _) with (lineKey (k ++ "="%char :: v)).
    rewrite Hlk, Hk. simpl. eauto. }
  exists p'. split; [done|]. eapply parseKeyValuePair_spec in Hp as (n' & Hn' & Hp); [|done].
  injection Hn' as <-. by rewrite Hlk, Hlv in Hp.
Qed.

(** The first line of a key with a continued value begins with the key. *)
Lemma nextLine_key k v : LF ∉ k → ∃ v', fst (nextLine (k ++ "="%char :: v) 0) = k ++ "="%char :: v'.
Proof.
  intros Hk. unfold nextLine. rewrite drop_0. destruct (IndexByte v LF) as [i|] eqn:Hi.
  - apply IndexByte_Some in Hi as (a & b & -> & _ & Ha). exists a.
    replace (k ++ "="%char :: a ++ LF :: b) with ((k ++ "="%char :: a) ++ LF :: b) by by rewrite <- app_assoc.
    rewrite IndexByte_app by (rewrite not_elem_of_app, not_elem_of_cons; done). simpl. by rewrite Nat.add_0_r, take_app_length.
  - apply IndexByte_None in Hi. exists v. rewrite (proj2 (IndexByte_None _ _)); [done|]. by rewrite not_elem_of_app, not_elem_of_cons.
Qed.

Lemma reads_key l p gs n pending : printableKey l = true → at_ p gs (Some n) pending →
  ∃ p', reads (ul_write l) p p' ∧ at_ p' (alterG n (addLines (pending ++ [l])) gs) (Some n) [].
Proof.
  unfold printableKey, ul_write. rewrite !andb_true_iff, !bool_decide_eq_true, negb_true_iff.
  intros ((((((Hc & Hk) & Hs) & Hlf) & Hck) & Hcv) & Hcont) Hat. rewrite Hc.
  destruct (parseKey_line _ _ _ _ _ _ Hk Hs Hck Hcv Hat) as (p' & Hp & Hat').
  change (T "=" ++ ul_value l ++ [LF]) with ("="%char :: ul_value l ++ [LF]).
  change (T "=" ++ ul_value l) with ("="%char :: ul_value l) in Hcont.
  exists (p_advance (1 + newlines (ul_key l ++ "="%char :: ul_value l)) p'). split.
  - replace (ul_key l ++ "="%char :: ul_value l ++ [LF]) with ((ul_key l ++ "="%char :: ul_value l) ++ [LF]) by by rewrite <- app_assoc.
    apply reads_line; [|done]. intros rest. apply takeLine_logical; [by apply continued_logical|]. intros _.
    destruct (nextLine_key (ul_key l) (ul_value l) Hlf) as [v Hv]. rewrite Hv. by apply key_line.
  - apply p_advance_at. destruct l as [k v c]. simpl in *. by subst.
Qed.

(** ** Reading printed groups *)

Lemma ensureG_new n gs : n ∉ names gs → ensureG n gs = gs ++ [newUnitGroup n].
Proof. intros Hn. unfold ensureG. by rewrite decide_False. Qed.

Lemma reads_comments cs p gs cur pending : forallb printableComment cs = true → at_ p gs cur pending →
  ∃ p', reads (concat (ul_write <$> cs)) p p' ∧ at_ p' gs cur (pending ++ cs).
Proof.
  revert p pending. induction cs as [|c cs IH]; intros p pending Hcs Hat.
  - exists p. rewrite app_nil_r. split; [apply reads_nil|done].
  - cbn [forallb] in Hcs. apply andb_true_iff in Hcs as [Hc Hcs]. destruct (reads_comment c p gs cur pending Hc Hat) as (p1 & Hr1 & Hat1).
    destruct (IH p1 _ Hcs Hat1) as (p2 & Hr2 & Hat2). exists p2. split; [by eapply reads_app|]. by rewrite <- app_assoc in Hat2.
Qed.

(** The lines of the group that is read: those that it has and the pending ones *)
Lemma reads_lines ls p gs n cs ls0 pending :
  forallb (λ l, printableComment l || printableKey l) ls = true → n ∉ names gs → Forall (λ l, ul_isComment l = true) pending →
  at_ p (gs ++ [mkUnitGroup n cs ls0]) (Some n) pending →
  ∃ p' ls1 pending1, reads (concat (ul_write <$> ls)) p p' ∧ at_ p' (gs ++ [mkUnitGroup n cs ls1]) (Some n) pending1 ∧
    ls1 ++ pending1 = ls0 ++ pending ++ ls ∧ Forall (λ l, ul_isComment l = true) pending1.
Proof.
  intros Hls Hn. revert p ls0 pending Hls. induction ls as [|l ls IH]; intros p ls0 pending Hls Hpd Hat.
  { exists p, ls0, pending. rewrite app_nil_r. split_and!; [apply reads_nil|done|done|done]. }
  cbn [forallb] in Hls. apply andb_true_iff in Hls as [Hl Hls]. apply orb_true_iff in Hl as [Hl|Hl].
  - destruct (reads_comment l p _ _ _ Hl Hat) as (p1 & Hr1 & Hat1).
    destruct (IH p1 ls0 (pending ++ [l])) as (p2 & ls1 & pd1 & Hr2 & Hat2 & Heq & Hpd1); [done| |done|].
    { apply Forall_app_2; [done|]. apply Forall_singleton. unfold printableComment in Hl. by destruct (ul_isComment l). }
    exists p2, ls1, pd1. split_and!; [by eapply reads_app|done| |done]. by rewrite Heq, <- app_assoc.
  - destruct (reads_key l p _ _ _ Hl Hat) as (p1 & Hr1 & Hat1). rewrite alterG_last in Hat1 by done.
    destruct (IH p1 (ls0 ++ pending ++ [l]) []) as (p2 & ls1 & pd1 & Hr2 & Hat2 & Heq & Hpd1); [done|constructor|done|].
    exists p2, ls1, pd1. split_and!; [by eapply reads_app|done| |done]. by rewrite Heq, <- !app_assoc.
Qed.

Lemma reads_group g p gs cur pending :
  printableGroup g = true → ug_name g ∉ names gs → stripFirst (pending ++ ug_comments g) = ug_comments g → at_ p gs cur pending →
  ∃ p' ls1 pending1, reads (ug_write g) p p' ∧ at_ p' (gs ++ [mkUnitGroup (ug_name g) (ug_comments g) ls1]) (Some (ug_name g)) pending1 ∧
    ls1 ++ pending1 = ug_lines g ∧ Forall (λ l, ul_isComment l = true) pending1.
Proof.
  unfold printableGroup. rewrite !andb_true_iff. intros [[Hn Hcs] Hls] Hfresh Hstrip Hat.
  destruct (reads_comments _ _ _ _ _ Hcs Hat) as (p1 & Hr1 & Hat1).
  destruct (reads_header _ _ _ _ _ Hn Hat1) as (p2 & Hr2 & Hat2).
  rewrite Hstrip, ensureG_new, alterG_last in Hat2 by done. unfold addComments in Hat2. simpl in Hat2.
  destruct (reads_lines _ _ _ _ _ _ _ Hls Hfresh (Forall_nil_2 _) Hat2) as (p3 & ls1 & pd1 & Hr3 & Hat3 & Heq & Hpd).
  exists p3, ls1, pd1. split_and!; [|done|done|done]. unfold ug_write. apply (reads_app _ _ _ p1); [done|].
  assert (ug_name g ≠ []) as Hne. { intros Hg. by rewrite Hg in Hn. }
  rewrite bool_decide_false by done. rewrite !app_assoc. apply (reads_app _ _ _ p2); [|done]. by rewrite <- !app_assoc.
Qed.

(** Nothing is pending after a group that does not end in a comment. *)
Lemma pending_none g ls1 pending : endsInComment g = false → ls1 ++ pending = ug_lines g → Forall (λ l, ul_isComment l = true) pending →
  pending = [] ∧ ls1 = ug_lines g.
Proof.
  unfold endsInComment. intros He Hls Hpd. rewrite <- Hls in He |- *. destruct pending as [|l pending _] using rev_ind; [by rewrite app_nil_r|].
  rewrite app_assoc, last_snoc in He. apply Forall_app in Hpd as [_ Hl].
  apply Forall_cons in Hl as [Hl _]. congruence.
Qed.

(** The groups after the first, each after an empty line *)
Lemma reads_groups gs : ∀ g p done pending ls1,
  forallb printableGroup gs = true → NoDup (names (done ++ g :: gs)) → separated (g :: gs) = true →
  at_ p (done ++ [mkUnitGroup (ug_name g) (ug_comments g) ls1]) (Some (ug_name g)) pending →
  ls1 ++ pending = ug_lines g → Forall (λ l, ul_isComment l = true) pending →
  ∃ p' done' g' pending' ls', reads (concat ((λ g, LF :: ug_write g) <$> gs)) p p' ∧ done ++ g :: gs = done' ++ [g'] ∧
    at_ p' (done' ++ [mkUnitGroup (ug_name g') (ug_comments g') ls']) (Some (ug_name g')) pending' ∧ ls' ++ pending' = ug_lines g'.
Proof.
  induction gs as [|g1 gs IH]; intros g p done pending ls1 Hgs Hnd Hsep Hat Heq Hpd.
  { exists p, done, g, pending, ls1. split_and!; [apply reads_nil|done|done|done]. }
  cbn [forallb] in Hgs. apply andb_true_iff in Hgs as [Hg1 Hgs]. cbn [separated] in Hsep. apply andb_true_iff in Hsep as [Hsep Hseps].
  apply negb_true_iff in Hsep. destruct (pending_none _ _ _ Hsep Heq Hpd) as [-> ->].
  assert (mkUnitGroup (ug_name g) (ug_comments g) (ug_lines g) = g) as Hg by by destruct g. rewrite Hg in Hat.
  destruct (reads_comment (mkUnitLine [] [] true) p _ _ _ eq_refl Hat) as (p1 & Hr1 & Hat1).
  replace (done ++ g :: g1 :: gs) with ((done ++ [g]) ++ g1 :: gs) in Hnd |- * by by rewrite <- app_assoc.
  assert (ug_name g1 ∉ names (done ++ [g])) as Hfresh.
  { rewrite fmap_app in Hnd. apply NoDup_app in Hnd as (_ & Hdis & _). intros Hin. apply (Hdis _ Hin). by left. }
  assert (stripFirst (([] ++ [mkUnitLine [] [] true]) ++ ug_comments g1) = ug_comments g1) as Hstrip by reflexivity.
  destruct (reads_group g1 p1 _ _ _ Hg1 Hfresh Hstrip Hat1) as (p2 & ls2 & pd2 & Hr2 & Hat2 & Heq2 & Hpd2).
  destruct (IH g1 p2 (done ++ [g]) pd2 ls2) as (p3 & done' & g' & pd' & ls' & Hr3 & Hd & Hat3 & Heq3); [done|done|done|done|done|done|].
  exists p3, done', g', pd', ls'. split_and!; [|done|done|done]. rewrite fmap_cons. cbn [concat].
  change (LF :: ug_write g1) with ([LF] ++ ug_write g1). rewrite <- app_assoc. eapply reads_app; [exact Hr1|]. by eapply reads_app.
Qed.

Lemma print_parse_view gs : printable gs = true → ∃ f, Parse (writeGroups gs) NewUnitFile = Some (Ok f) ∧ implements f gs.
Proof.
  destruct gs as [|g gs]; [done|]. unfold printable. rewrite !andb_true_iff, bool_decide_eq_true. intros [[[Hnd Hgs] Hsep] Hfirst].
  cbn [forallb] in Hgs. apply andb_true_iff in Hgs as [Hg Hgs].
  assert (implements NewUnitFile []) as Hnew by (split; [apply NewUnitFile_consistent|done]).
  assert (stripFirst ([] ++ ug_comments g) = ug_comments g) as Hstrip.
  { simpl. destruct (ug_comments g) as [|c cs]; [done|]. simpl. apply negb_true_iff in Hfirst. by rewrite Hfirst. }
  destruct (reads_group g _ [] None [] Hg (not_elem_of_nil _) Hstrip (at_start _ _ Hnew)) as (p1 & ls1 & pd1 & Hr1 & Hat1 & Heq1 & Hpd1).
  destruct (reads_groups gs g p1 [] pd1 ls1 Hgs Hnd Hsep Hat1 Heq1 Hpd1) as (p2 & done' & g' & pd' & ls' & Hr2 & Hd & Hat2 & Heq2).
  assert (runs (writeGroups (g :: gs)) (mkParser NewUnitFile None [] 1) (Ok p2)) as Hruns.
  { rewrite <- (app_nil_r (writeGroups (g :: gs))). exact (reads_app _ _ _ _ _ Hr1 Hr2 [] _ (runs_nil p2)). }
  destruct (Parse_Ok _ _ _ _ _ _ _ Hnew Hruns Hat2) as (f & Hf & Hi).
  exists f. split; [done|]. simpl in Hd. rewrite Hd in Hnd |- *. rewrite alterG_last in Hi; [|..].
  - unfold addLines in Hi. simpl in Hi. rewrite Heq2 in Hi. by destruct g'.
  - rewrite fmap_app in Hnd. apply NoDup_app in Hnd as (_ & Hdis & _). intros Hin. apply (Hdis _ Hin). by left.
  - done.
Qed.

(** A file of comments only: they are lines of a group without a name, which prints no lines. *)
Lemma comments_parse cs : forallb printableComment cs = true →
  ∃ f, Parse (concat (ul_write <$> cs)) NewUnitFile = Some (Ok f) ∧ implements f [mkUnitGroup [] [] cs].
Proof.
  intros Hcs. assert (implements NewUnitFile []) as Hnew by (split; [apply NewUnitFile_consistent|done]).
  destruct (reads_comments cs _ _ _ _ Hcs (at_start _ _ Hnew)) as (p & Hr & Hat).
  assert (runs (concat (ul_write <$> cs)) (mkParser NewUnitFile None [] 1) (Ok p)) as Hruns.
  { rewrite <- (app_nil_r (concat _)). exact (Hr [] _ (runs_nil p)). }
  destruct (Parse_Ok _ _ _ _ _ _ _ Hnew Hruns Hat) as (f & Hf & Hi). by exists f.
Qed.
