(* ===== verification/UnitValues.v ===== *)
(** * UnitValues: what look-ups return

    The values of keys after edits, command lines that are written and split again, and the
    termination of the look-ups that split values. *)

From S2P Require Import Prelude UnitText UnitSplit UnitWords UnitFile UnitLookup UnitSpec.

(** ** The last value of a key *)

Fixpoint lastValue (key : text) (lines : list unitLine) : option text :=
  match lines with
  | [] => None
  | l :: lines =>
      match lastValue key lines with
      | Some v => Some v
      | None => if isKey key l then Some (ul_value l) else None
      end
  end.

Lemma findLastFrom_value key i lines : ul_value ∘ snd <$> findLastFrom key i lines = lastValue key lines.
Proof.
  revert i. induction lines as [|l lines IH]; intros i; [done|]. simpl. rewrite <- (IH (S i)).
  destruct (findLastFrom key (S i) lines) as [[j x]|]; [done|]. simpl. by destruct (isKey key l).
Qed.

Lemma LookupLastRaw_value f n key : LookupLastRaw f n key = group f n ≫= λ g, lastValue key (ug_lines g).
Proof. unfold LookupLastRaw, findLast. destruct (group f n); [|done]. apply findLastFrom_value. Qed.

Lemma lastValue_app key l1 l2 : lastValue key (l1 ++ l2) = match lastValue key l2 with Some v => Some v | None => lastValue key l1 end.
Proof. induction l1 as [|l l1 IH]; simpl; [by destruct (lastValue key l2)|]. rewrite IH. by destruct (lastValue key l2). Qed.

Lemma findLastFrom_index key i lines j l : findLastFrom key i lines = Some (j, l) → i ≤ j.
Proof.
  revert i. induction lines as [|x lines IH]; intros i; simpl; [done|].
  destruct (findLastFrom key (S i) lines) as [[j' x']|] eqn:Hf; [intros [= -> ->]; apply IH in Hf; lia|].
  destruct (isKey key x); [intros [= <- <-]; lia|done].
Qed.

Lemma isKey_spec key l : isKey key l = true ↔ ul_isComment l = false ∧ ul_key l = key.
Proof. unfold isKey. rewrite andb_true_iff, negb_true_iff, bool_decide_eq_true. done. Qed.

Lemma isKey_set key value l : isKey key (ul_set value l) = isKey key l.
Proof. done. Qed.

(** Setting the last line of a key *)
Lemma alter_lastValue key key' value i lines j l : findLastFrom key i lines = Some (j, l) →
  lastValue key' (alter (ul_set value) (j - i) lines) = if decide (key' = key) then Some value else lastValue key' lines.
Proof.
  revert i. induction lines as [|x lines IH]; intros i; cbn [findLastFrom]; [done|].
  destruct (findLastFrom key (S i) lines) as [[j' x']|] eqn:Hf.
  - intros [= -> ->]. pose proof (findLastFrom_index _ _ _ _ _ Hf). replace (j - i) with (S (j - S i)) by lia.
    cbn. rewrite (IH (S i) Hf). destruct (decide (key' = key)); [done|done].
  - pose proof (findLastFrom_value key (S i) lines) as Hv. rewrite Hf in Hv. simpl in Hv.
    destruct (isKey key x) eqn:Hx; [|done]. intros [= <- <-]. rewrite Nat.sub_diag. cbn.
    destruct (decide (key' = key)) as [->|Hne].
    + rewrite <- Hv. change (isKey key (ul_set value x)) with (isKey key x). by rewrite Hx.
    + assert (isKey key' (ul_set value x) = false ∧ isKey key' x = false) as [-> ->]; [|done].
      apply isKey_spec in Hx as [_ Hx]. split; apply not_true_iff_false; rewrite isKey_spec; simpl; naive_solver.
Qed.

Lemma setKey_lastValue key key' value g :
  lastValue key' (ug_lines (ug_setKey key value g)) = if decide (key' = key) then Some value else lastValue key' (ug_lines g).
Proof.
  unfold ug_setKey, findLast. destruct (findLastFrom key 0 (ug_lines g)) as [[j l]|] eqn:Hf; simpl.
  - pose proof (alter_lastValue key key' value 0 _ j l Hf) as Ha. by rewrite Nat.sub_0_r in Ha.
  - pose proof (findLastFrom_value key 0 (ug_lines g)) as Hv. rewrite Hf in Hv. rewrite lastValue_app. simpl.
    unfold isKey. simpl. repeat case_decide; naive_solver.
Qed.

Lemma add_lastValue key key' value g :
  lastValue key' (ug_lines (ug_add key value g)) = if decide (key' = key) then Some value else lastValue key' (ug_lines g).
Proof. simpl. rewrite lastValue_app. simpl. unfold isKey. simpl. repeat case_decide; naive_solver. Qed.

Lemma unset_lastValue key key' g :
  lastValue key' (ug_lines (ug_unset key g)) = if decide (key' = key) then None else lastValue key' (ug_lines g).
Proof.
  unfold ug_unset. cbn [ug_lines]. induction (ug_lines g) as [|l lines IH]; [by case_decide|]. rewrite filter_cons.
  destruct (decide (isKey key l = false)) as [Hl|Hl]; cbn [lastValue]; rewrite IH.
  - destruct (decide (key' = key)) as [->|Hne]; [by rewrite Hl|done].
  - destruct (decide (key' = key)) as [->|Hne]; [done|]. assert (isKey key' l = false) as ->; [|by destruct (lastValue key' lines)].
    apply not_false_iff_true, isKey_spec in Hl as [_ Hl]. apply not_true_iff_false. rewrite isKey_spec. naive_solver.
Qed.

(** ** All values of a key *)

Definition allValues (key : text) (lines : list unitLine) : list text := foldl (lookupAllLoop key) [] lines.

Lemma add_allValues key key' value g :
  allValues key' (ug_lines (ug_add key value g)) =
  if decide (key' = key) then if decide (value = []) then [] else allValues key' (ug_lines g) ++ [value] else allValues key' (ug_lines g).
Proof. simpl. unfold allValues. rewrite foldl_app. simpl. unfold lookupAllLoop at 1, isKey. simpl. repeat case_decide; naive_solver. Qed.

(** ** Groups after edits *)

Lemma group_edit n n' m f : keepsName m → consistent f →
  group (editGroup n m f) n' = if decide (n' = n) then Some (m (default (newUnitGroup n) (group f n))) else group f n'.
Proof.
  intros Hm Hf. destruct (editGroup_spec n m f (view f) Hm ltac:(done)) as [Hf' Hv].
  rewrite !group_named by done. rewrite Hv. unfold editG. rewrite named_alterG, named_ensureG by done.
  destruct (decide (n' = n)) as [->|Hne]; [|by rewrite decide_False by naive_solver].
  destruct (named n (view f)); simpl; [by rewrite decide_False by naive_solver|by rewrite decide_True].
Qed.

Lemma group_unset n n' key f : consistent f →
  group (Unset n key f) n' = if decide (n' = n) then ug_unset key <$> group f n' else group f n'.
Proof.
  intros Hf. destruct (Unset_spec n key f (view f) ltac:(done)) as [Hf' Hv]. rewrite !group_named by done. rewrite Hv. by apply named_alterG.
Qed.

Lemma named_removeG n n' gs : named n' (removeG n gs) = if decide (n' = n) then None else named n' gs.
Proof.
  induction gs as [|g gs IH]; [by case_decide|]. unfold removeG in *. rewrite filter_cons. destruct (decide (ug_name g ≠ n)) as [Hg|Hg].
  - rewrite !named_cons, IH. repeat case_decide; naive_solver.
  - rewrite named_cons, IH. apply dec_stable in Hg. subst. repeat case_decide; naive_solver.
Qed.

Lemma group_remove n n' f : consistent f → group (RemoveGroup n f) n' = if decide (n' = n) then None else group f n'.
Proof. intros Hf. destruct (RemoveGroup_spec f Hf n) as [Hf' Hv]. rewrite !group_named by done. rewrite Hv. apply named_removeG. Qed.

(** Look-ups see the view only. *)
Lemma group_view f f' n : consistent f → consistent f' → view f = view f' → group f n = group f' n.
Proof. intros Hf Hf' Hv. rewrite !group_named by done. by rewrite Hv. Qed.

Lemma LookupAllRaw_add f n n' key key' value : consistent f → LookupAllRaw (Add n key value f) n' key' =
  if decide (n' = n ∧ key' = key) then if decide (value = []) then [] else LookupAllRaw f n' key' ++ [value] else LookupAllRaw f n' key'.
Proof.
  intros Hf. unfold LookupAllRaw, Add. rewrite group_edit by done. destruct (decide (n' = n)) as [->|Hne].
  - change (foldl (lookupAllLoop key') []) with (allValues key'). rewrite add_allValues.
    destruct (group f n) as [g|]; simpl; repeat case_decide; naive_solver.
  - by rewrite (decide_False (P := n' = n ∧ _)) by naive_solver.
Qed.

(** ** Command lines *)

(** A word that can be written: valid UTF-8 without the byte 0 *)
Definition writable (w : text) : Prop := ValidString w = true ∧ NUL ∉ w.

Lemma writable_argument w : writable w → w ≠ [] → argument w.
Proof. by intros [??]. Qed.

Fixpoint dropEmpty (ws : list text) : list text := match ws with [] :: ws => dropEmpty ws | _ => ws end.

Abbreviation nonEmpty := (filter (λ w : text, w ≠ [])).

Lemma nonEmpty_drop ws : nonEmpty (dropEmpty ws) = nonEmpty ws.
Proof. induction ws as [|[|c w] ws IH]; [done| |done]. by rewrite filter_cons_False by tauto. Qed.

Lemma dropEmpty_writable ws : Forall writable ws → Forall writable (dropEmpty ws).
Proof. induction 1 as [|[|c w] ws Hw Hws IH]; [done|done|by constructor]. Qed.

Lemma dropEmpty_head ws w ws' : dropEmpty ws = w :: ws' → w ≠ [].
Proof. induction ws as [|[|c x] ws IH]; naive_solver. Qed.

(** The separators before the next word, and the empty words among them *)
Lemma skip_words w ws : Forall writable ws →
  skipSeparators WhitespaceSeparators w (escapeMore ws) = finish w (escapeWords (dropEmpty ws)).
Proof.
  induction 1 as [|w1 ws Hw Hws IH]; [done|]. cbn [escapeMore skipSeparators]. change (isSeparator WhitespaceSeparators SP) with true.
  rewrite bool_decide_false by done. destruct w1 as [|c w1]; [exact IH|]. cbn [dropEmpty escapeWords].
  destruct (escapeWord_head (c :: w1)) as (d & w' & -> & Hd & Hs); [by apply writable_argument|].
  cbn [app skipSeparators]. by rewrite bool_decide_false, Hs by done.
Qed.

Lemma extract_skip ws : Forall writable ws →
  extractFirstWord WhitespaceSeparators argFlags (escapeMore ws) = extractFirstWord WhitespaceSeparators argFlags (escapeWords (dropEmpty ws)).
Proof.
  induction 1 as [|w1 ws Hw Hws IH]; [done|]. cbn [escapeMore extractFirstWord]. change (isSeparator WhitespaceSeparators SP) with true.
  rewrite bool_decide_false by done. destruct w1 as [|c w1]; [exact IH|done].
Qed.

Lemma extract_words ws : Forall writable ws →
  extractFirstWord WhitespaceSeparators argFlags (escapeWords ws) =
  match dropEmpty ws with [] => Ok ([], [], false) | w :: ws' => Ok (w, escapeWords (dropEmpty ws'), true) end.
Proof.
  intros Hws. transitivity (extractFirstWord WhitespaceSeparators argFlags (escapeWords (dropEmpty ws))).
  { destruct Hws as [|[|c w] ws Hw Hws]; [done|exact (extract_skip ws Hws)|done]. }
  pose proof (dropEmpty_head ws) as Hne. apply dropEmpty_writable in Hws. destruct Hws as [|w ws' Hw Hws']; [done|]. specialize (Hne _ _ eq_refl).
  cbn [escapeWords]. rewrite extract_word by by apply writable_argument. rewrite <- (finish_word w) by done.
  rewrite <- skip_words by done. destruct ws' as [|w1 ws']; [done|]. cbn [escapeMore]. reflexivity.
Qed.

Lemma split_writable fuel : ∀ ws acc, Forall writable ws → length (nonEmpty ws) < fuel →
  splitLoop WhitespaceSeparators argFlags fuel acc (escapeWords ws) = Some (Ok (acc ++ nonEmpty ws)).
Proof.
  induction fuel as [|fuel IH]; intros ws acc Hws Hf; [lia|]. cbn [splitLoop]. rewrite extract_words by done.
  rewrite <- (nonEmpty_drop ws) in Hf |- *.
  pose proof (dropEmpty_head ws) as Hne. apply dropEmpty_writable in Hws. destruct Hws as [|w ws' Hw Hws']; [by rewrite app_nil_r|]. specialize (Hne _ _ eq_refl).
  rewrite filter_cons_True in Hf |- * by done. simpl in Hf. rewrite IH; [|by apply dropEmpty_writable|rewrite nonEmpty_drop; lia].
  by rewrite nonEmpty_drop, <- app_assoc.
Qed.

Lemma nonEmpty_length ws : Forall writable ws → length (nonEmpty ws) ≤ length (escapeWords ws).
Proof.
  assert (∀ l, length (nonEmpty l) ≤ length (escapeMore l)) as Hm.
  { intros l. induction l as [|w l IH]; simpl; [lia|]. rewrite filter_cons, length_app. case_decide; simpl; lia. }
  intros Hws. destruct Hws as [|w ws Hw Hws]; [done|]. specialize (Hm ws). cbn [escapeWords]. rewrite filter_cons, length_app.
  case_decide as Hne; [|lia]. destruct (escapeWord_head w) as (c & w' & -> & _); [by apply writable_argument|]. simpl. lia.
Qed.

(** Splitting a command line gives the words that are not empty. *)
Lemma splitArgs_words ws : Forall writable ws → splitArgs (escapeWords ws) = Some (Some (nonEmpty ws)).
Proof.
  intros Hws. unfold splitArgs, splitString, splitStringAppend. pose proof (nonEmpty_length ws Hws).
  by rewrite split_writable by (done || lia).
Qed.

Lemma escapeChar_LF c : LF ∉ escapeChar c.
Proof.
  destruct (decide (c ≤ 128)%N) as [Hc|Hc].
  - rewrite <- (N2Nat.id c). assert (N.to_nat c ∈ seq 0 129) as Hin by (apply elem_of_seq; lia). clear Hc.
    revert Hin. generalize (N.to_nat c). apply Forall_forall.
    assert (forallb (λ n, bool_decide (LF ∉ escapeChar (N.of_nat n))) (seq 0 129) = true) as Hb by by vm_compute.
    rewrite forallb_forall in Hb. apply Forall_forall. intros n Hn. apply list_elem_of_In in Hn. specialize (Hb _ Hn).
    by apply bool_decide_eq_true in Hb.
  - unfold escapeChar, charNeedEscape. rewrite (proj2 (N.ltb_lt _ _)) by lia. intros Hin.
    pose proof (WriteRune_high c ltac:(lia)) as Hh. rewrite Forall_forall in Hh. by specialize (Hh _ Hin).
Qed.

Lemma concat_elem {A} (c : A) (ls : list (list A)) : c ∈ concat ls → ∃ l, l ∈ ls ∧ c ∈ l.
Proof. rewrite !list_elem_of_In, in_concat. intros (l & ? & ?). exists l. by rewrite !list_elem_of_In. Qed.

Lemma escapeWord_LF w : LF ∉ escapeWord w.
Proof.
  unfold escapeWord. destruct (wordNeedEscape w) eqn:Hw.
  - unfold appendEscapeWord. rewrite !not_elem_of_app. split_and!; [by intros ?%list_elem_of_singleton| |by intros ?%list_elem_of_singleton].
    intros (l & (c & -> & _)%list_elem_of_fmap & Hl)%concat_elem. by apply escapeChar_LF in Hl.
  - apply plain_word in Hw. rewrite Forall_forall in Hw. intros Hin. by destruct (Hw _ Hin).
Qed.

Lemma escapeWords_LF ws : LF ∉ escapeWords ws.
Proof.
  assert (∀ l, LF ∉ escapeMore l) as Hm.
  { intros l. induction l as [|w l IH]; [apply not_elem_of_nil|]. cbn [escapeMore]. rewrite not_elem_of_cons, not_elem_of_app.
    split_and!; [done|apply escapeWord_LF|done]. }
  destruct ws as [|w ws]; [apply not_elem_of_nil|]. cbn [escapeWords]. rewrite not_elem_of_app. split; [apply escapeWord_LF|apply Hm].
Qed.

Lemma continuation_none s : LF ∉ s → applyLineContinuation s = s.
Proof.
  induction s as [|c s IH]; [done|]. rewrite not_elem_of_cons. intros [Hc Hs]. destruct s as [|d s]; [done|].
  change (applyLineContinuation (c :: d :: s)) with (if bool_decide (c = BS ∧ d = LF) then applyLineContinuation s else c :: applyLineContinuation (d :: s)).
  rewrite bool_decide_false; [by rewrite IH|]. intros [_ ->]. apply Hs. by left.
Qed.

Lemma cmdline_last n key args f : consistent f → Forall writable args →
  LookupLastArgs (AddCmdline n key args f) n key = Some (Some (nonEmpty args)).
Proof.
  intros Hf Hargs. unfold LookupLastArgs, LookupLast. rewrite LookupLastRaw_value. unfold AddCmdline, Add.
  rewrite group_edit by done. rewrite decide_True by done. cbn [option_bind mbind]. rewrite add_lastValue, decide_True by done. cbn.
  rewrite continuation_none by apply escapeWords_LF. by apply splitArgs_words.
Qed.

(** ** An empty word in quotes *)

Lemma skip_nothing separators inp : skipSeparators separators [] inp = Ok ([], [], false).
Proof. induction inp as [|c inp IH]; simpl; [done|]. case_bool_decide; [done|]. by destruct (isSeparator separators c). Qed.

Lemma extract_empty_quotes rest :
  extractFirstWord WhitespaceSeparators argFlags (DQ :: DQ :: SP :: rest) = Ok ([], [], false).
Proof. exact (skip_nothing WhitespaceSeparators (SP :: rest)). Qed.

Lemma splitArgs_empty_quotes w rest : argument w → splitArgs (escapeWord w ++ SP :: DQ :: DQ :: SP :: rest) = Some (Some [w]).
Proof.
  intros Hw. unfold splitArgs, splitString, splitStringAppend. destruct (length (escapeWord w ++ SP :: DQ :: DQ :: SP :: rest)) as [|n] eqn:Hn.
  { rewrite length_app in Hn. simpl in Hn. lia. }
  cbn [splitLoop]. rewrite extract_word by done. assert (w ≠ []) as Hne by apply Hw.
  replace (scan WhitespaceSeparators argFlags w None false 0 (SP :: DQ :: DQ :: SP :: rest)) with (finish w (DQ :: DQ :: SP :: rest)) by done.
  rewrite finish_word by done. by rewrite extract_empty_quotes.
Qed.

(** ** The look-ups that split values return *)

Lemma splitStringAppend_ends separators flags acc s :
  SplitDontCoalesceSeparators flags && SplitRetainSeparators flags = false → is_Some (splitStringAppend separators flags acc s).
Proof.
  intros Hf. unfold splitStringAppend. destruct (splitLoop_ends separators flags Hf (S (length s)) acc s ltac:(lia)) as [[l|e] ->]; by eexists.
Qed.

Lemma splitArgs_ends s : is_Some (splitArgs s).
Proof. unfold splitArgs. apply fmap_is_Some. by apply splitStringAppend_ends. Qed.

Lemma appendStrv_ends values res : is_Some (appendStrv res values).
Proof.
  revert res. induction values as [|v values IH]; intros res; [by eexists|]. simpl.
  destruct (splitStringAppend_ends WhitespaceSeparators strvFlags res v eq_refl) as [r ->]. apply IH.
Qed.

Lemma appendArgs_ends values res : is_Some (appendArgs res values).
Proof. revert res. induction values as [|v values IH]; intros res; [by eexists|]. simpl. destruct (splitArgs_ends v) as [r ->]. apply IH. Qed.

Lemma appendKeyVal_ends values res : is_Some (appendKeyVal res values).
Proof. revert res. induction values as [|v values IH]; intros res; [by eexists|]. simpl. destruct (splitArgs_ends v) as [r ->]. apply IH. Qed.

(** ** Numbers *)

Lemma digits_nonneg base acc s n : (0 ≤ acc)%Z → (0 ≤ base)%Z → digits base acc s = Some n → (0 ≤ n)%Z.
Proof.
  revert acc. induction s as [|c s IH]; intros acc Ha Hb; simpl; [by intros [= <-]|].
  assert (∀ d, digit c = Some d → (0 ≤ d)%Z) as Hd by (intros d; unfold digit; repeat case_decide; intros [= <-]; lia).
  destruct (digit c) as [d|]; [|done]. specialize (Hd d eq_refl). case_decide; [|done]. apply IH; [|done]. nia.
Qed.

(** No sign and no leading zero *)
Definition unsigned (v : text) : bool := negb (HasPrefix v (T "+") || HasPrefix v (T "-") || HasPrefix v (T "0")).

Lemma parseMagnitude_decimal v : unsigned v = true → parseMagnitude v = ParseInt v 10.
Proof.
  unfold unsigned, parseMagnitude, HasPrefix. rewrite negb_true_iff, !orb_false_iff, !bool_decide_eq_false. intros [[Hp Hm] Hz].
  destruct v as [|c v]; [done|]. simpl in *. assert (c ≠ "0"%char) as Hc by (intros ->; by apply Hz).
  rewrite !bool_decide_false by naive_solver. done.
Qed.

Lemma ParseInt_unsigned v n : unsigned v = true → ParseInt v 10 = Some n → (0 ≤ n < 2 ^ 63)%Z.
Proof.
  unfold unsigned, HasPrefix. rewrite negb_true_iff, !orb_false_iff, !bool_decide_eq_false. intros [[Hp Hm] _].
  assert (ParseInt v 10 = n ← ParseUint v 10; if decide (n < 2 ^ 63)%Z then Some n else None) as ->.
  { destruct v as [|c v]; [done|]. simpl in Hp, Hm. unfold ParseInt. repeat case_match; try done; subst; by destruct Hp || by destruct Hm. }
  unfold ParseUint. destruct v as [|c v]; [done|]. simpl. intros (m & Hd & Hn)%bind_Some. case_decide; [|done]. injection Hn as <-.
  split; [|done]. eapply (digits_nonneg 10 0 (c :: v)); [lia|lia|exact Hd].
Qed.

Lemma int64_id n : (- 2 ^ 63 ≤ n < 2 ^ 63)%Z → int64 n = n.
Proof. intros Hn. unfold int64. rewrite Z.mod_small; lia. Qed.

Lemma convertNumber_unsigned v n : unsigned v = true → ParseInt v 10 = Some n → convertNumber v = Some n.
Proof.
  intros Hu Hn. pose proof (ParseInt_unsigned v n Hu Hn). unfold convertNumber. pose proof Hu as Hu'. unfold unsigned in Hu'.
  rewrite negb_true_iff, !orb_false_iff in Hu'. destruct Hu' as [[-> ->] _]. rewrite parseMagnitude_decimal, Hn by done. simpl.
  rewrite Z.mul_1_r, int64_id; [done|lia].
Qed.

Lemma convertNumber_negative v n : unsigned v = true → ParseInt v 10 = Some n → convertNumber ("-"%char :: v) = Some (int64 (n * -11)).
Proof.
  intros Hu Hn. unfold convertNumber. replace (HasPrefix ("-"%char :: v) (T "+")) with false by done.
  replace (HasPrefix ("-"%char :: v) (T "-")) with true by done. simpl. by rewrite drop_0, parseMagnitude_decimal, Hn.
Qed.
