(* ===== verification/QuadletText.v ===== *)
(** * QuadletText: strings, paths and formats

    What [pkg/systemd/quadlet] uses of the packages [strings], [path/filepath], [sort],
    [regexp] and [fmt], on strings as lists of bytes. *)

From S2P Require Import Prelude Define Strconv UnitText.

(** ** [strings] *)

Definition HasSuffix (s p : text) : bool := HasPrefix (rev s) (rev p).

Definition LastIndexByte (s : text) (c : ascii) : option nat := (λ i, length s - S i) <$> IndexByte (rev s) c.

(** [strings.SplitN] with a separator of one byte and [n] at least 1 *)
Fixpoint SplitN (s : text) (c : ascii) (n : nat) : list text :=
  match n with
  | S (S _ as n') => match CutByte s c with Some (a, b) => a :: SplitN b c n' | None => [s] end
  | _ => [s]
  end.

(** [strings.TrimSpace] *)
Definition TrimSpace (s : text) : text := TrimRightSpace (concat (dropSpaces (chunks s)).*2).

(** [strings.Join] *)
Fixpoint JoinWith (sep : text) (l : list text) : text :=
  match l with
  | [] => []
  | [x] => x
  | x :: l => x ++ sep ++ JoinWith sep l
  end.

(** [strings.ToLower]: ASCII letters are mapped here; the tables of [unicode.ToLower] for the
    other runes are a parameter. *)
Definition ToLower (toLowerRune : N → N) (s : text) : text :=
  concat ((λ r, WriteRune (if (r <? 128)%N then lowerASCII r else toLowerRune r)) <$> runes s).

(** [%d] of an unsigned integer *)
Definition decimal (n : Z) : text := T (itoa n).

(** ** [sort.Strings] *)

Fixpoint text_leb (s t : text) : bool :=
  match s, t with
  | [], _ => true
  | _ :: _, [] => false
  | c :: s, d :: t => if (code c <? code d)%N then true else if (code d <? code c)%N then false else text_leb s t
  end.

Definition text_le (s t : text) : Prop := text_leb s t = true.

#[export] Instance text_le_dec : RelDecision text_le.
Proof. intros s t. unfold text_le. apply _. Defined.

Definition sortStrings (l : list text) : list text := merge_sort text_le l.

(** ** [path/filepath] *)

(** The elements between slashes; the list is not empty. *)
Fixpoint elementsFrom (cur s : text) : list text :=
  match s with
  | [] => [cur]
  | c :: s => if bool_decide (c = "/"%char) then cur :: elementsFrom [] s else elementsFrom (cur ++ [c]) s
  end.

Definition IsAbs (path : text) : bool := HasPrefix path (T "/").

(** One element of [filepath.Clean]; a rooted path has no element [..]. *)
Definition cleanStep (rooted : bool) (out : list text) (elem : text) : list text :=
  if decide (elem = [] ∨ elem = T ".") then out
  else if decide (elem = T "..") then
    match last out with
    | Some e => if decide (e = T "..") then out ++ [elem] else removelast out
    | None => if rooted then out else [elem]
    end
  else out ++ [elem].

Definition Clean (path : text) : text :=
  let rooted := IsAbs path in
  let out := foldl (cleanStep rooted) [] (elementsFrom [] path) in
  if rooted then T "/" ++ JoinWith (T "/") out
  else match out with [] => T "." | _ => JoinWith (T "/") out end.

Definition Join (a b : text) : text :=
  match a, b with
  | [], [] => []
  | [], _ => Clean b
  | _, _ => Clean (a ++ T "/" ++ b)
  end.

Definition Dir (path : text) : text :=
  Clean (match LastIndexByte path "/"%char with Some i => take (S i) path | None => [] end).

(** ** The expression [\d+(-\d+)?(/udp|/tcp)?$] *)

Definition isDigit (c : ascii) : bool := between 48 (code c) 57.

(** The rest after the digits *)
Fixpoint dropDigits (s : text) : text :=
  match s with c :: s' => if isDigit c then dropDigits s' else s | [] => [] end.

Definition startsDigit (s : text) : bool := match s with c :: _ => isDigit c | [] => false end.

Definition isProtocol (s : text) : bool := bool_decide (s ∈ [[]; T "/udp"; T "/tcp"]).

(** A match from the first byte to the end.  The byte after the digits decides how to go
    on, so the longest run of digits is the only one to try. *)
Definition matchPortRange (s : text) : bool :=
  startsDigit s &&
  match dropDigits s with
  | "-"%char :: s' => startsDigit s' && isProtocol (dropDigits s')
  | s' => isProtocol s'
  end.

(** The match may begin anywhere. *)
Fixpoint validPortRange (s : text) : bool :=
  matchPortRange s || match s with [] => false | _ :: s' => validPortRange s' end.

(** ** [fmt.Sprintf] of a format that is not a constant, without operands *)

Definition isFlag (c : ascii) : bool := bool_decide (c ∈ T "#0+- ").

Fixpoint dropFlags (s : text) : text :=
  match s with c :: s' => if isFlag c then dropFlags s' else s | [] => [] end.

(** [parsenum]: the number, whether there is one, and the rest *)
Fixpoint parsenum (num : Z) (isnum : bool) (s : text) : bool * text :=
  match s with
  | c :: s' =>
      if isDigit c then
        if decide (10 ^ 6 < num)%Z then (false, []) else parsenum (num * 10 + (Z.of_N (code c) - 48)) true s'
      else (isnum, s)
  | [] => (isnum, [])
  end.

(** [argNumber] when there are no operands: the rest, whether the number is good, and
    whether an index was found *)
Definition argNumber (s : text) (good : bool) : text * bool * bool :=
  match s with
  | "["%char :: s' =>
      if decide (length s < 3) then (s', false, false)
      else match IndexByte s' "]"%char with
           | None => (s', false, false)
           | Some i =>
               let '(ok, rest) := parsenum 0 false (take i s') in
               (drop (S i) s', false, bool_decide (i ≠ 0) && ok && bool_decide (rest = []))
           end
  | _ => (s, good, false)
  end.

(** One directive after its percent sign: what is written, the rest, and whether the
    format goes on *)
Definition directive (s : text) : text * text * bool :=
  let s := dropFlags s in
  let '(s, good, afterIndex) := argNumber s true in
  let '(w1, s, good, afterIndex) :=
    match s with
    | "*"%char :: s' => (T "%!(BADWIDTH)", s', good, false)
    | _ => let '(wid, s') := parsenum 0 false s in ([], s', good && negb (afterIndex && wid), afterIndex)
    end in
  let '(w2, s, good, afterIndex) :=
    match s with
    | "."%char :: s' =>
        let good := good && negb afterIndex in
        let '(s', good, afterIndex) := argNumber s' good in
        match s' with
        | "*"%char :: s'' => (T "%!(BADPREC)", s'', good, false)
        | _ => ([], snd (parsenum 0 false s'), good, afterIndex)
        end
    | _ => ([], s, good, afterIndex)
    end in
  let '(s, good) := if afterIndex : bool then (s, good) else let '(s', good', _) := argNumber s good in (s', good') in
  match chunks s with
  | [] => (w1 ++ w2 ++ T "%!(NOVERB)", [], false)
  | (verb, bytes) :: _ =>
      let s := drop (length bytes) s in
      if (verb =? 37)%N then (w1 ++ w2 ++ T "%", s, true)
      else if negb good then (w1 ++ w2 ++ T "%!" ++ WriteRune verb ++ T "(BADINDEX)", s, true)
      else (w1 ++ w2 ++ T "%!" ++ WriteRune verb ++ T "(MISSING)", s, true)
  end.

(** Each directive is shorter than the rest of the format, whose length is the fuel. *)
Fixpoint sprintfLoop (fuel : nat) (s : text) : text :=
  match fuel with
  | O => []
  | S fuel =>
      match IndexByte s "%"%char with
      | None => s
      | Some i =>
          let '(out, rest, more) := directive (drop (S i) s) in
          take i s ++ out ++ (if more : bool then sprintfLoop fuel rest else [])
      end
  end.

Definition Sprintf (format : text) : text := sprintfLoop (S (length format)) format.

Lemma Sprintf_plain s : "%"%char ∉ s → Sprintf s = s.
Proof.
  intros Hs. unfold Sprintf. cbn [sprintfLoop]. destruct (IndexByte s "%"%char) as [i|] eqn:Hi; [|done].
  unfold IndexByte in Hi. apply fmap_Some in Hi as ([j c] & (Hj & <- & _)%list_find_Some & _).
  destruct Hs. by eapply list_elem_of_lookup_2.
Qed.
