(* ===== verification/Quadlet.v ===== *)
(** * Quadlet: services from container, volume, network and kube files

    [pkg/systemd/quadlet/quadlet.go] and [podmancmdline.go].  A conversion reads one unit
    file and builds another one, the service, and a command line; both are the state of the
    computation.  The sections of [ConvertContainer] are definitions of their own.

    Parameters (class [QuadletEnv]): the environment variable [PODMAN], the directory of
    binaries that is set at build time, the working directory, and the tables of
    [unicode.ToLower]. *)

From S2P Require Import Prelude UnitText UnitSplit UnitWords UnitFile UnitLookup QuadletText.

Class QuadletEnv : Type := {
  getenvPODMAN : text;
  binDir : text;
  Getwd : option text;
  toLowerRune : N → N }.

Inductive quadletError : Type :=
| UnsupportedKey (key groupName : text)
| NoImageOrRootfs
| ImageAndRootfs
| InvalidKillMode (killMode : text)
| InvalidServiceType (serviceType : text)
| InvalidPort (port : text)
| InvalidPublishedPort (port : text)
| UidMapWithoutRemap
| GidMapWithoutRemap
| ManualUnsupported
| KeepIDUnsupported
| UnsupportedRemap (remapUsers : text)
| NoYaml
| NoWorkingDirectory
| MoreGateways
| MoreRanges
| GatewayWithoutSubnet
| TypeWithoutDevice
| OptionsWithoutDevice
| Diverges.

#[export] Instance quadletError_eq_dec : EqDecision quadletError.
Proof. solve_decision. Defined.

(** The service and [PodmanCmdline.Args] *)
Record conversion : Type := mkConversion { cv_service : UnitFile; cv_args : list text }.

Abbreviation Q := (ST quadletError conversion).

(** ** Names *)

Definition ContainerGroup : text := T "Container".
Definition InstallGroup : text := T "Install".
Definition KubeGroup : text := T "Kube".
Definition NetworkGroup : text := T "Network".
Definition ServiceGroup : text := T "Service".
Definition UnitGroup : text := T "Unit".
Definition VolumeGroup : text := T "Volume".
Definition XContainerGroup : text := T "X-Container".
Definition XKubeGroup : text := T "X-Kube".
Definition XNetworkGroup : text := T "X-Network".
Definition XVolumeGroup : text := T "X-Volume".
Definition defaultLogDriver : text := T "passthrough".

Definition supportedContainerKeys : list text :=
  T <$> ["AddCapability"; "AddDevice"; "Annotation"; "ContainerName"; "DropCapability"; "Environment"; "EnvironmentFile";
         "EnvironmentHost"; "Exec"; "ExposeHostPort"; "Group"; "Image"; "Label"; "LogDriver"; "Network"; "NoNewPrivileges";
         "Notify"; "PodmanArgs"; "PublishPort"; "ReadOnly"; "RemapGid"; "RemapUid"; "RemapUidSize"; "RemapUsers"; "Rootfs";
         "RunInit"; "SeccompProfile"; "SecurityLabelDisable"; "SecurityLabelFileType"; "SecurityLabelLevel";
         "SecurityLabelType"; "Secret"; "Timezone"; "User"; "VolatileTmp"; "Volume"].

Definition supportedVolumeKeys : list text := T <$> ["Copy"; "Device"; "Group"; "Label"; "Options"; "Type"; "User"].

Definition supportedNetworkKeys : list text :=
  T <$> ["Label"; "DisableDNS"; "Driver"; "Gateway"; "IPAMDriver"; "IPRange"; "IPv6"; "Internal"; "Options"; "Subnet"].

Definition supportedKubeKeys : list text :=
  T <$> ["ConfigMap"; "LogDriver"; "Network"; "PublishPort"; "RemapGid"; "RemapUid"; "RemapUidSize"; "RemapUsers"; "Yaml"].

Definition replaceExtension (name extension extraPrefix extraSuffix : text) : text :=
  let baseName := match LastIndexByte name "."%char with Some (S _ as dot) => take dot name | _ => name end in
  extraPrefix ++ baseName ++ extraSuffix ++ extension.

Definition isPortRange (port : text) : bool := validPortRange port.

Fixpoint checkKeys (keys : list text) (groupName : text) (supportedKeys : list text) : option quadletError :=
  match keys with
  | [] => None
  | key :: keys => if decide (key ∈ supportedKeys) then checkKeys keys groupName supportedKeys else Some (UnsupportedKey key groupName)
  end.

Definition checkForUnknownKeys (unit : UnitFile) (groupName : text) (supportedKeys : list text) : Q () :=
  match checkKeys (ListKeys unit groupName) groupName supportedKeys with None => mret () | Some e => throw e end.

(** The loop of [splitPorts]: the bytes since [start], and whether a bracket is open *)
Fixpoint splitPortsFrom (part : text) (bracket : bool) (ports : text) : list text :=
  match ports with
  | [] => [part]
  | c :: ports =>
      if bracket then splitPortsFrom (part ++ [c]) (negb (bool_decide (c = "]"%char))) ports
      else if bool_decide (c = "["%char) then splitPortsFrom (part ++ [c]) true ports
      else if bool_decide (c = ":"%char) then part :: splitPortsFrom [] false ports
      else splitPortsFrom (part ++ [c]) false ports
  end.

Definition splitPorts (ports : text) : list text := splitPortsFrom [] false ports.

Definition usernsOpts (kind : text) (opts : list text) : text :=
  kind ++ (match opts with [] => [] | _ => T ":" end) ++ JoinWith (T ",") opts.

(** ** Building the service and the command line *)

Definition onService (m : UnitFile → UnitFile) : Q () := modify (λ s, mkConversion (m (cv_service s)) (cv_args s)).
Definition service : Q UnitFile := gets cv_service.

(** [PodmanCmdline.add] *)
Definition addArgs (args : list text) : Q () := modify (λ s, mkConversion (cv_service s) (cv_args s ++ args)).

Definition addKeys (arg : text) (keys : gmap text text) : Q () :=
  forM_ (sortStrings (map_to_list keys).*1) (λ k, addArgs [arg; k ++ T "=" ++ default [] (keys !! k)]).

Definition addEnv : gmap text text → Q () := addKeys (T "--env").
Definition addLabels : gmap text text → Q () := addKeys (T "--label").
Definition addAnnotations : gmap text text → Q () := addKeys (T "--annotation").
Definition addBool (arg : text) (val : bool) : Q () := addArgs [if val then arg else arg ++ T "=false"].

(** An argument when there is a value *)
Definition addOption (prefix : text) (value : option text) : Q () :=
  match value with Some ((_ :: _) as v) => addArgs [prefix ++ v] | _ => mret () end.

(** The look-ups that split values *)
Definition splitting {A} (r : option A) : Q A := match r with Some a => mret a | None => throw Diverges end.

Section quadlet.
Context {Env : QuadletEnv}.

Definition podmanBinary : text := match getenvPODMAN with [] => Join binDir (T "podman") | podman => podman end.

Definition NewPodmanCmdline (args : list text) : Q () := modify (λ s, mkConversion (cv_service s) (podmanBinary :: args)).

Definition addCmdline (key : text) : Q () := modify (λ s, mkConversion (AddCmdline ServiceGroup key (cv_args s) (cv_service s)) (cv_args s)).

(** ** Parts that several conversions share *)

Definition getAbsolutePath (quadletUnitFile : UnitFile) (filePath : text) : Q text :=
  if IsAbs filePath then mret filePath
  else match uf_Path quadletUnitFile with
       | [] => match Getwd with Some wd => mret (Join wd filePath) | None => throw NoWorkingDirectory end
       | path => mret (Join (Dir path) filePath)
       end.

Definition handleLogDriver (unitFile : UnitFile) (groupName : text) : Q () :=
  addArgs [T "--log-driver"; default defaultLogDriver (Lookup unitFile groupName (T "LogDriver"))].

Definition publishArg (ip hostPort containerPort : text) : text :=
  match ip, hostPort with
  | _ :: _, _ :: _ => ip ++ T ":" ++ hostPort ++ T ":" ++ containerPort
  | _ :: _, [] => ip ++ T "::" ++ containerPort
  | [], _ :: _ => hostPort ++ T ":" ++ containerPort
  | [], [] => containerPort
  end.

Definition publishPort (port : text) : Q () :=
  let port := TrimSpace port in
  let publish ip hostPort containerPort :=
    let ip := if decide (ip = T "0.0.0.0") then [] else ip in
    _ ← failIf (bool_decide (hostPort ≠ []) && negb (isPortRange hostPort)) (InvalidPort hostPort);
    _ ← failIf (bool_decide (containerPort ≠ []) && negb (isPortRange containerPort)) (InvalidPort containerPort);
    addArgs [T "--publish"; publishArg ip hostPort containerPort] in
  match splitPorts port with
  | [containerPort] => publish [] [] containerPort
  | [hostPort; containerPort] => publish [] hostPort containerPort
  | [ip; hostPort; containerPort] => publish ip hostPort containerPort
  | _ => throw (InvalidPublishedPort port)
  end.

Definition handlePublishPorts (unitFile : UnitFile) (groupName : text) : Q () :=
  forM_ (LookupAll unitFile groupName (T "PublishPort")) publishPort.

Definition addNetwork (network : text) : Q () :=
  match network with
  | [] => mret ()
  | _ =>
      let '(quadletNetworkName, options) := match CutByte network ":"%char with Some (a, b) => (a, Some b) | None => (network, None) end in
      if HasSuffix quadletNetworkName (T ".network") then
        let networkName := replaceExtension quadletNetworkName [] (T "systemd-") [] in
        let networkServiceName := replaceExtension quadletNetworkName (T ".service") [] (T "-network") in
        _ ← onService (Add UnitGroup (T "Requires") networkServiceName);
        _ ← onService (Add UnitGroup (T "After") networkServiceName);
        addArgs [T "--network=" ++ match options with Some o => networkName ++ T ":" ++ o | None => networkName end]
      else addArgs [T "--network=" ++ network]
  end.

Definition addNetworks (quadletUnitFile : UnitFile) (groupName : text) : Q () :=
  forM_ (LookupAll quadletUnitFile groupName (T "Network")) addNetwork.

Definition autoOpts (unitFile : UnitFile) (groupName : text) (uidMaps gidMaps : list text) : list text :=
  let uidSize := LookupUint32 unitFile groupName (T "RemapUidSize") 0 in
  ((T "uidmapping=" ++.) <$> uidMaps) ++ ((T "gidmapping=" ++.) <$> gidMaps) ++
  (if decide (0 < uidSize)%Z then [T "size=" ++ decimal uidSize] else []).

(** The value of [RemapUsers] is not trimmed; the options of [auto] are used as a format. *)
Definition handleUserRemap (unitFile : UnitFile) (groupName : text) (isUser supportManual : bool) : Q () :=
  uidMaps ← splitting (LookupAllStrv unitFile groupName (T "RemapUid"));
  gidMaps ← splitting (LookupAllStrv unitFile groupName (T "RemapGid"));
  let remapUsers := default [] (LookupLast unitFile groupName (T "RemapUsers")) in
  if decide (remapUsers = []) then
    _ ← failIf (bool_decide (uidMaps ≠ [])) UidMapWithoutRemap;
    failIf (bool_decide (gidMaps ≠ [])) GidMapWithoutRemap
  else if decide (remapUsers = T "manual") then
    if supportManual then
      _ ← addArgs ((T "--uidmap=" ++.) <$> uidMaps);
      addArgs ((T "--gidmap=" ++.) <$> gidMaps)
    else throw ManualUnsupported
  else if decide (remapUsers = T "auto") then
    addArgs [Sprintf (T "--userns=" ++ usernsOpts (T "auto") (autoOpts unitFile groupName uidMaps gidMaps))]
  else if decide (remapUsers = T "keep-id") then
    if isUser then addArgs [T "--userns=keep-id"] else throw KeepIDUnsupported
  else throw (UnsupportedRemap remapUsers).

(** Only two kill modes are allowed; the default is set. *)
Definition checkKillMode : Q () :=
  svc ← service;
  match Lookup svc ServiceGroup (T "KillMode") with
  | Some killMode => failIf (negb (bool_decide (killMode = T "mixed" ∨ killMode = T "control-group"))) (InvalidKillMode killMode)
  | None => onService (Set_ ServiceGroup (T "KillMode") (T "mixed"))
  end.

Definition addSourcePath (unit : UnitFile) : Q () :=
  match uf_Path unit with [] => mret () | path => onService (Add UnitGroup (T "SourcePath") path) end.

Definition setSyslogIdentifier (unit : UnitFile) : Q () :=
  if HasKey unit ServiceGroup (T "SyslogIdentifier") then mret ()
  else onService (Set_ ServiceGroup (T "SyslogIdentifier") (T "%N")).

(** ** Containers *)

Section container.
Context (container : UnitFile).

Abbreviation lookup key := (Lookup container ContainerGroup (T key)).
Abbreviation flag key := (LookupBooleanWithDefault container ContainerGroup (T key) false).

(** The image or the root file system *)
Definition imageArgs : Q (list text) :=
  match default [] (lookup "Image"), default [] (lookup "Rootfs") with
  | [], [] => throw NoImageOrRootfs
  | [], rootfs => mret [T "--rootfs"; rootfs]
  | image, [] => mret [image]
  | _, _ => throw ImageAndRootfs
  end.

Definition addStopCommands : Q () :=
  _ ← onService (Add UnitGroup (T "RequiresMountsFor") (T "%t/containers"));
  _ ← onService (Add ServiceGroup (T "ExecStop") (podmanBinary ++ T " rm -f -i --cidfile=%t/%N.cid"));
  onService (Add ServiceGroup (T "ExecStopPost") (T "-" ++ podmanBinary ++ T " rm -f -i --cidfile=%t/%N.cid")).

(** The type of the service and the notification *)
Definition handleServiceType : Q () :=
  svc ← service;
  let serviceType := Lookup svc ServiceGroup (T "Type") in
  _ ← (match serviceType with
       | Some t => failIf (negb (bool_decide (t = T "notify" ∨ t = T "oneshot"))) (InvalidServiceType t)
       | None => mret ()
       end);
  if decide (serviceType = Some (T "oneshot")) then mret () else
  _ ← addArgs [if flag "Notify" then T "--sdnotify=container" else T "--sdnotify=conmon"];
  _ ← onService (Setv ServiceGroup [T "Type"; T "notify"; T "NotifyAccess"; T "all"]);
  addArgs [T "-d"].

Definition addSecurity : Q () :=
  _ ← addArgs (if flag "NoNewPrivileges" then [T "--security-opt=no-new-privileges"] else []);
  _ ← addArgs (if flag "SecurityLabelDisable" then [T "--security-opt"; T "label:disable"] else []);
  _ ← addArgs (match lookup "SecurityLabelType" with Some ((_ :: _) as v) => [T "--security-opt"; T "label=type:" ++ v] | _ => [] end);
  _ ← addArgs (match lookup "SecurityLabelFileType" with Some ((_ :: _) as v) => [T "--security-opt"; T "label=filetype:" ++ v] | _ => [] end);
  _ ← addArgs (match lookup "SecurityLabelLevel" with Some ((_ :: _) as v) => [T "--security-opt"; T "label=level:" ++ v] | _ => [] end);
  devices ← splitting (LookupAllStrv container ContainerGroup (T "AddDevice"));
  _ ← addArgs ((T "--device=" ++.) <$> devices);
  _ ← addArgs (match lookup "SeccompProfile" with Some v => [T "--security-opt"; T "seccomp=" ++ v] | None => [] end);
  dropCaps ← splitting (LookupAllStrv container ContainerGroup (T "DropCapability"));
  _ ← addArgs ((λ caps, T "--cap-drop=" ++ ToLower toLowerRune caps) <$> dropCaps);
  addCaps ← splitting (LookupAllStrv container ContainerGroup (T "AddCapability"));
  addArgs ((λ caps, T "--cap-add=" ++ ToLower toLowerRune caps) <$> addCaps).

Definition addReadOnly : Q () :=
  let readOnly := LookupBoolean container ContainerGroup (T "ReadOnly") in
  _ ← (match readOnly with Some val => addBool (T "--read-only") val | None => mret () end);
  if flag "VolatileTmp" then
    if default false readOnly then mret () else addArgs [T "--tmpfs"; T "/tmp:rw,size=512M,mode=1777"]
  else if default false readOnly then addArgs [T "--read-only-tmpfs=false"] else mret ().

Definition addUser : Q () :=
  let hasUser := HasKey container ContainerGroup (T "User") in
  let hasGroup := HasKey container ContainerGroup (T "Group") in
  if hasUser || hasGroup then
    let uid := LookupUint32 container ContainerGroup (T "User") 0 in
    let gid := LookupUint32 container ContainerGroup (T "Group") 0 in
    addArgs [T "--user"; if hasGroup then decimal uid ++ T ":" ++ decimal gid else decimal uid]
  else mret ().

(** A source that is a path or the name of a volume file *)
Definition volumeSource (source : text) : Q text :=
  if HasPrefix source (T "/") then
    _ ← onService (Add UnitGroup (T "RequiresMountsFor") source); mret source
  else if HasSuffix source (T ".volume") then
    let volumeServiceName := replaceExtension source (T ".service") [] (T "-volume") in
    _ ← onService (Add UnitGroup (T "Requires") volumeServiceName);
    _ ← onService (Add UnitGroup (T "After") volumeServiceName);
    mret (replaceExtension source [] (T "systemd-") [])
  else mret source.

Definition addVolumeArg (volume : text) : Q () :=
  let '(source, dest, options) :=
    match SplitN volume ":"%char 3 with
    | [source; dest] => (source, dest, [])
    | [source; dest; options] => (source, dest, T ":" ++ options)
    | l => ([], default [] (head l), [])
    end in
  match source with
  | [] => addArgs [T "-v"; dest]
  | _ => source ← volumeSource source; addArgs [T "-v"; match source with [] => dest | _ => source ++ T ":" ++ dest ++ options end]
  end.

Definition exposePort (exposedPort : text) : Q () :=
  let exposedPort := TrimSpace exposedPort in
  _ ← failIf (negb (isPortRange exposedPort)) (InvalidPort exposedPort);
  addArgs [T "--expose=" ++ exposedPort].

Definition addEnvFile (envFile : text) : Q () :=
  filePath ← getAbsolutePath container envFile;
  addArgs [T "--env-file"; filePath].

(** Labels, annotations, environment, secrets and further arguments *)
Definition addMetadata (podmanEnv : gmap text text) : Q () :=
  _ ← addEnv podmanEnv;
  labels ← splitting (LookupAllKeyVal container ContainerGroup (T "Label"));
  _ ← addLabels labels;
  annotations ← splitting (LookupAllKeyVal container ContainerGroup (T "Annotation"));
  _ ← addAnnotations annotations;
  envFiles ← splitting (LookupAllArgs container ContainerGroup (T "EnvironmentFile"));
  _ ← forM_ envFiles addEnvFile;
  _ ← (match LookupBoolean container ContainerGroup (T "EnvironmentHost") with
       | Some envHost => addBool (T "--env-host") envHost
       | None => mret ()
       end);
  secrets ← splitting (LookupAllArgs container ContainerGroup (T "Secret"));
  _ ← forM_ secrets (λ secret, addArgs [T "--secret"; secret]);
  podmanArgs ← splitting (LookupAllArgs container ContainerGroup (T "PodmanArgs"));
  addArgs podmanArgs.

(** The options of [podman run] from the log driver to the further arguments *)
Definition addRunOptions (isUser : bool) (podmanEnv : gmap text text) : Q () :=
  _ ← handleLogDriver container ContainerGroup;
  _ ← onService (Add ServiceGroup (T "Delegate") (T "yes"));
  _ ← addArgs [T "--cgroups=split"];
  _ ← addOption (T "--tz=") (lookup "Timezone");
  _ ← addNetworks container ContainerGroup;
  _ ← (match LookupBoolean container ContainerGroup (T "RunInit") with Some runInit => addBool (T "--init") runInit | None => mret () end);
  _ ← handleServiceType;
  _ ← setSyslogIdentifier container;
  _ ← addSecurity;
  _ ← addReadOnly;
  _ ← addUser;
  _ ← handleUserRemap container ContainerGroup isUser true;
  _ ← forM_ (LookupAll container ContainerGroup (T "Volume")) addVolumeArg;
  _ ← forM_ (LookupAll container ContainerGroup (T "ExposeHostPort")) exposePort;
  _ ← handlePublishPorts container ContainerGroup;
  addMetadata podmanEnv.

(** The checks and what does not belong to the command line: the arguments for the image,
    and the environment *)
Definition prepareService : Q (list text * gmap text text) :=
  _ ← addSourcePath container;
  _ ← checkForUnknownKeys container ContainerGroup supportedContainerKeys;
  _ ← onService (RenameGroup ContainerGroup XContainerGroup);
  image ← imageArgs;
  _ ← onService (Add ServiceGroup (T "Environment") (T "PODMAN_SYSTEMD_UNIT=%n"));
  _ ← checkKillMode;
  podmanEnv ← splitting (LookupAllKeyVal container ContainerGroup (T "Environment"));
  _ ← addStopCommands;
  mret (image, podmanEnv).

Definition convertContainer (isUser : bool) : Q () :=
  '(image, podmanEnv) ← prepareService;
  let containerName := match lookup "ContainerName" with Some ((_ :: _) as name) => name | _ => T "systemd-%N" end in
  _ ← NewPodmanCmdline [T "run"];
  _ ← addArgs [T "--name=" ++ containerName];
  _ ← addArgs [T "--cidfile=%t/%N.cid"; T "--replace"; T "--rm"];
  _ ← addRunOptions isUser podmanEnv;
  _ ← addArgs image;
  execArgs ← splitting (LookupLastArgs container ContainerGroup (T "Exec"));
  _ ← addArgs (default [] execArgs);
  addCmdline (T "ExecStart").
End container.

(** The service of a conversion begins as a copy of the file. *)
Definition convert (unit : UnitFile) (filename : text) (m : Q ()) : result quadletError UnitFile :=
  match m (mkConversion (uf_set_Filename filename (Dup unit)) []) with
  | (Ok _, s) => Ok (cv_service s)
  | (Err e, _) => Err e
  end.

Definition ConvertContainer (container : UnitFile) (isUser : bool) : result quadletError UnitFile :=
  convert container (replaceExtension (uf_Filename container) (T ".service") [] []) (convertContainer container isUser).

(** ** Networks *)

Fixpoint addSubnets (subnets gateways ipRanges : list text) : list text :=
  match subnets with
  | [] => []
  | subnet :: subnets =>
      (T "--subnet=" ++ subnet) ::
      ((T "--gateway=" ++.) <$> option_list (head gateways)) ++ ((T "--ip-range=" ++.) <$> option_list (head ipRanges)) ++
      addSubnets subnets (tail gateways) (tail ipRanges)
  end.

Definition handleSubnets (network : UnitFile) : Q () :=
  let subnets := LookupAll network NetworkGroup (T "Subnet") in
  let gateways := LookupAll network NetworkGroup (T "Gateway") in
  let ipRanges := LookupAll network NetworkGroup (T "IPRange") in
  if decide (0 < length subnets) then
    _ ← failIf (bool_decide (length subnets < length gateways)) MoreGateways;
    _ ← failIf (bool_decide (length subnets < length ipRanges)) MoreRanges;
    addArgs (addSubnets subnets gateways ipRanges)
  else failIf (bool_decide (0 < length ipRanges ∨ 0 < length gateways)) GatewayWithoutSubnet.

Definition setOneshot : Q () :=
  onService (Setv ServiceGroup [T "Type"; T "oneshot"; T "RemainAfterExit"; T "yes"; T "SyslogIdentifier"; T "%N"]).

Definition convertNetwork (network : UnitFile) (name : text) : Q () :=
  _ ← checkForUnknownKeys network NetworkGroup supportedNetworkKeys;
  _ ← onService (RenameGroup NetworkGroup XNetworkGroup);
  let networkName := replaceExtension name [] (T "systemd-") [] in
  _ ← onService (Add UnitGroup (T "RequiresMountsFor") (T "%t/containers"));
  _ ← NewPodmanCmdline [T "network"; T "create"; T "--ignore"];
  _ ← addArgs (if LookupBooleanWithDefault network NetworkGroup (T "DisableDNS") false then [T "--disable-dns"] else []);
  _ ← addOption (T "--driver=") (Lookup network NetworkGroup (T "Driver"));
  _ ← handleSubnets network;
  _ ← addArgs (if LookupBooleanWithDefault network NetworkGroup (T "Internal") false then [T "--internal"] else []);
  _ ← addOption (T "--ipam-driver=") (Lookup network NetworkGroup (T "IPAMDriver"));
  _ ← addArgs (if LookupBooleanWithDefault network NetworkGroup (T "IPv6") false then [T "--ipv6"] else []);
  networkOptions ← splitting (LookupAllKeyVal network NetworkGroup (T "Options"));
  _ ← addKeys (T "--opt") networkOptions;
  labels ← splitting (LookupAllKeyVal network NetworkGroup (T "Label"));
  _ ← addLabels labels;
  _ ← addArgs [networkName];
  _ ← addCmdline (T "ExecStart");
  setOneshot.

Definition ConvertNetwork (network : UnitFile) (name : text) : result quadletError UnitFile :=
  convert network (replaceExtension (uf_Filename network) (T ".service") [] (T "-network")) (convertNetwork network name).

(** ** Volumes *)

(** The options after [o=] *)
Definition appendOpt (opts opt : text) : text := match opts with [] => opt | _ => opts ++ T "," ++ opt end.

Definition ownerOpts (volume : UnitFile) : text :=
  let opts := if HasKey volume VolumeGroup (T "User") then T "uid=" ++ decimal (LookupUint32 volume VolumeGroup (T "User") 0) else [] in
  if HasKey volume VolumeGroup (T "Group") then appendOpt opts (T "gid=" ++ decimal (LookupUint32 volume VolumeGroup (T "Group") 0)) else opts.

Definition convertVolume (volume : UnitFile) (name : text) : Q () :=
  _ ← checkForUnknownKeys volume VolumeGroup supportedVolumeKeys;
  _ ← onService (RenameGroup VolumeGroup XVolumeGroup);
  let volumeName := replaceExtension name [] (T "systemd-") [] in
  _ ← onService (Add UnitGroup (T "RequiresMountsFor") (T "%t/containers"));
  labels ← splitting (LookupAllKeyVal volume VolumeGroup (T "Label"));
  _ ← NewPodmanCmdline [T "volume"; T "create"; T "--ignore"];
  let opts := ownerOpts volume in
  _ ← addArgs (match LookupBoolean volume VolumeGroup (T "Copy") with
               | Some true => [T "--opt"; T "copy"]
               | Some false => [T "--opt"; T "nocopy"]
               | None => []
               end);
  let dev := default [] (Lookup volume VolumeGroup (T "Device")) in
  _ ← addArgs (match dev with [] => [] | _ => [T "--opt"; T "device=" ++ dev] end);
  let devType := default [] (Lookup volume VolumeGroup (T "Type")) in
  _ ← failIf (bool_decide (devType ≠ [] ∧ dev = [])) TypeWithoutDevice;
  _ ← addArgs (match devType with [] => [] | _ => [T "--opt"; T "type=" ++ devType] end);
  let mountOpts := default [] (Lookup volume VolumeGroup (T "Options")) in
  _ ← failIf (bool_decide (mountOpts ≠ [] ∧ dev = [])) OptionsWithoutDevice;
  let opts := match mountOpts with [] => opts | _ => appendOpt opts mountOpts end in
  _ ← addArgs (match opts with [] => [] | _ => [T "--opt"; T "o=" ++ opts] end);
  _ ← addLabels labels;
  _ ← addArgs [volumeName];
  _ ← addCmdline (T "ExecStart");
  setOneshot.

Definition ConvertVolume (volume : UnitFile) (name : text) : result quadletError UnitFile :=
  convert volume (replaceExtension (uf_Filename volume) (T ".service") [] (T "-volume")) (convertVolume volume name).

(** ** Kube *)

Definition addConfigMap (kube : UnitFile) (configMap : text) : Q () :=
  configMapPath ← getAbsolutePath kube configMap;
  addArgs [T "--configmap"; configMapPath].

Definition convertKube (kube : UnitFile) (isUser : bool) : Q () :=
  _ ← addSourcePath kube;
  _ ← checkForUnknownKeys kube KubeGroup supportedKubeKeys;
  _ ← onService (RenameGroup KubeGroup XKubeGroup);
  let yaml := default [] (Lookup kube KubeGroup (T "Yaml")) in
  _ ← failIf (bool_decide (yaml = [])) NoYaml;
  yamlPath ← getAbsolutePath kube yaml;
  _ ← checkKillMode;
  _ ← onService (Add ServiceGroup (T "Environment") (T "PODMAN_SYSTEMD_UNIT=%n"));
  _ ← onService (Add UnitGroup (T "RequiresMountsFor") (T "%t/containers"));
  _ ← onService (Setv ServiceGroup [T "Type"; T "notify"; T "NotifyAccess"; T "all"]);
  _ ← setSyslogIdentifier kube;
  _ ← NewPodmanCmdline [T "kube"; T "play"];
  _ ← addArgs [T "--replace"; T "--service-container=true"];
  _ ← handleLogDriver kube KubeGroup;
  _ ← handleUserRemap kube KubeGroup isUser false;
  _ ← addNetworks kube KubeGroup;
  configMaps ← splitting (LookupAllStrv kube KubeGroup (T "ConfigMap"));
  _ ← forM_ configMaps (addConfigMap kube);
  _ ← handlePublishPorts kube KubeGroup;
  _ ← addArgs [yamlPath];
  _ ← addCmdline (T "ExecStart");
  _ ← NewPodmanCmdline [T "kube"; T "down"];
  _ ← addArgs [yamlPath];
  addCmdline (T "ExecStop").

Definition ConvertKube (kube : UnitFile) (isUser : bool) : result quadletError UnitFile :=
  convert kube (replaceExtension (uf_Filename kube) (T ".service") [] []) (convertKube kube isUser).
End quadlet.
