(* ===== verification/QuadletInv.v ===== *)
(** * QuadletInv: what a conversion keeps

    Every part of a conversion adds to the groups [Unit] and [Service] of the service and
    to the end of the command line.  [steps] says so of a computation, together with
    termination; it is closed under the constructs of the monad. *)

From S2P Require Import Prelude UnitText UnitSplit UnitWords UnitFile UnitLookup UnitSpec UnitValues QuadletText Quadlet.

(** ** Services *)

(** [s'] differs from [s] in the groups [Unit] and [Service] only, and not in the last
    values of the keys [K] of [Service]. *)
Definition frame (K : list text) (s s' : UnitFile) : Prop :=
  consistent s' ∧ (∀ n, n ≠ UnitGroup → n ≠ ServiceGroup → group s' n = group s n) ∧
  (∀ key, key ∈ K → LookupLastRaw s' ServiceGroup key = LookupLastRaw s ServiceGroup key).

Lemma frame_refl K s : consistent s → frame K s s.
Proof. intros Hs. by split_and!. Qed.

Lemma frame_trans K s1 s2 s3 : frame K s1 s2 → frame K s2 s3 → frame K s1 s3.
Proof.
  intros (_ & Hg1 & Hk1) (H3 & Hg2 & Hk2). split_and!; [done| |].
  - intros n Hu Hs. by rewrite Hg2, Hg1.
  - intros key Hk. by rewrite Hk2, Hk1.
Qed.

Lemma frame_weaken K K' s s' : K' ⊆ K → frame K s s' → frame K' s s'.
Proof. intros HK (Hc & Hg & Hk). split_and!; auto. Qed.

Lemma editGroup_consistent n m s : keepsName m → consistent s → consistent (editGroup n m s).
Proof. intros Hm Hs. by apply (editGroup_spec n m s (view s)). Qed.

(** A change of one of the two groups that keeps the values of the keys *)
Lemma frame_edit K n m s : keepsName m → consistent s →
  n = UnitGroup ∨ n = ServiceGroup ∧ (∀ g key, key ∈ K → lastValue key (ug_lines (m g)) = lastValue key (ug_lines g)) →
  frame K s (editGroup n m s).
Proof.
  intros Hm Hs Hn. split_and!; [by apply editGroup_consistent| |].
  - intros n' Hu Hsv. rewrite group_edit, decide_False by naive_solver. done.
  - intros key Hk. rewrite !LookupLastRaw_value, group_edit by done. case_decide as He; [|done]. subst n.
    destruct Hn as [|[_ Hl]]; [done|]. cbn [mbind option_bind]. rewrite Hl by done. by destruct (group s ServiceGroup).
Qed.

Lemma frame_Add K n key value s : consistent s → n = UnitGroup ∨ n = ServiceGroup ∧ key ∉ K → frame K s (Add n key value s).
Proof.
  intros Hs Hn. apply frame_edit; [done|done|]. destruct Hn as [|[-> Hk]]; [by left|right]. split; [done|].
  intros g key' Hk'. rewrite add_lastValue, decide_False; [done|]. naive_solver.
Qed.

Lemma frame_Set K key value s : consistent s → key ∉ K → frame K s (Set_ ServiceGroup key value s).
Proof.
  intros Hs Hk. apply frame_edit; [apply ug_setKey_name|done|]. right. split; [done|].
  intros g key' Hk'. rewrite setKey_lastValue, decide_False; [done|]. naive_solver.
Qed.

(** The keys of a list of keys and values *)
Fixpoint pairKeys (l : list text) : list text := match l with key :: _ :: l => key :: pairKeys l | _ => [] end.

Lemma setPairs_lastValue key l : ∀ g, key ∉ pairKeys l → lastValue key (ug_lines (setPairs l g)) = lastValue key (ug_lines g).
Proof.
  remember (length l) as n eqn:Hn. revert l Hn. induction (lt_wf n) as [n _ IH]. intros [|k [|v l]] Hn g; [done|done|].
  cbn [pairKeys setPairs]. rewrite not_elem_of_cons. intros [Hne Hl]. rewrite (IH (length l)) by (simpl in *; try lia; done).
  by rewrite setKey_lastValue, decide_False by congruence.
Qed.

Lemma frame_Setv K l s : consistent s → (∀ key, key ∈ K → key ∉ pairKeys l) → frame K s (Setv ServiceGroup l s).
Proof.
  intros Hs Hk. apply frame_edit; [apply setPairs_name|done|]. right. split; [done|]. intros g key Hin. apply setPairs_lastValue. auto.
Qed.

(** ** Computations *)

(** A computation that frames the service, extends the command line and terminates *)
Definition steps {A} (K : list text) (m : Q A) : Prop :=
  ∀ s, consistent (cv_service s) →
    match m s with
    | (Ok _, s') => frame K (cv_service s) (cv_service s') ∧ ∃ l, cv_args s' = cv_args s ++ l
    | (Err e, _) => e ≠ Diverges
    end.

Section steps.
Context (K : list text).

Lemma steps_ret {A} (a : A) : steps K (mret a : Q A).
Proof. intros s Hs. split; [by apply frame_refl|]. exists []. by rewrite app_nil_r. Qed.

Lemma steps_throw {A} e : e ≠ Diverges → steps K (throw e : Q A).
Proof. by intros He s Hs. Qed.

Lemma steps_failIf b e : e ≠ Diverges → steps K (failIf b e).
Proof. intros He. destruct b; [by apply steps_throw|apply steps_ret]. Qed.

Lemma steps_gets {A} (f : conversion → A) : steps K (gets f).
Proof. intros s Hs. split; [by apply frame_refl|]. exists []. by rewrite app_nil_r. Qed.

Lemma steps_bind {A B} (m : Q A) (k : A → Q B) : steps K m → (∀ a, steps K (k a)) → steps K (m ≫= k).
Proof.
  intros Hm Hk s Hs. unfold mbind, st_bind. specialize (Hm s Hs). destruct (m s) as [[a|e] s1]; [|done].
  destruct Hm as (Hf & l1 & Hl1). specialize (Hk a s1 ltac:(apply Hf)). destruct (k a s1) as [[b|e] s2]; [|done].
  destruct Hk as (Hf2 & l2 & Hl2). split; [by eapply frame_trans|]. exists (l1 ++ l2). by rewrite Hl2, Hl1, app_assoc.
Qed.

Lemma steps_forM {A} (l : list A) (f : A → Q ()) : (∀ x, steps K (f x)) → steps K (forM_ l f).
Proof. intros Hf. induction l as [|x l IH]; [apply steps_ret|]. apply steps_bind; [apply Hf|]. intros _. exact IH. Qed.

Lemma steps_addArgs l : steps K (addArgs l).
Proof. intros s Hs. split; [by apply frame_refl|]. by exists l. Qed.

Lemma steps_service m : (∀ s, consistent s → frame K s (m s)) → steps K (onService m).
Proof. intros Hm s Hs. split; [by apply Hm|]. exists []. by rewrite app_nil_r. Qed.

Lemma steps_AddUnit key value : steps K (onService (Add UnitGroup key value)).
Proof. apply steps_service. intros s Hs. apply frame_Add; auto. Qed.

Lemma steps_AddService key value : key ∉ K → steps K (onService (Add ServiceGroup key value)).
Proof. intros Hk. apply steps_service. intros s Hs. apply frame_Add; auto. Qed.

Lemma steps_SetService key value : key ∉ K → steps K (onService (Set_ ServiceGroup key value)).
Proof. intros Hk. apply steps_service. intros s Hs. by apply frame_Set. Qed.

Lemma steps_SetvService l : (∀ key, key ∈ K → key ∉ pairKeys l) → steps K (onService (Setv ServiceGroup l)).
Proof. intros Hk. apply steps_service. intros s Hs. by apply frame_Setv. Qed.

Lemma steps_splitting {A} (r : option A) : is_Some r → steps K (splitting r).
Proof. intros [a ->]. apply steps_ret. Qed.
End steps.

Lemma LookupAllStrv_ends f n key : is_Some (LookupAllStrv f n key).
Proof. apply appendStrv_ends. Qed.

Lemma LookupAllArgs_ends f n key : is_Some (LookupAllArgs f n key).
Proof. apply appendArgs_ends. Qed.

Lemma LookupAllKeyVal_ends f n key : is_Some (LookupAllKeyVal f n key).
Proof. apply appendKeyVal_ends. Qed.

Lemma LookupLastArgs_ends f n key : is_Some (LookupLastArgs f n key).
Proof. unfold LookupLastArgs. destruct (LookupLast f n key); [apply splitArgs_ends|by eexists]. Qed.

Create HintDb quadlet.
#[export] Hint Resolve steps_ret steps_gets steps_addArgs steps_AddUnit : quadlet.
#[export] Hint Resolve LookupAllStrv_ends LookupAllArgs_ends LookupAllKeyVal_ends LookupLastArgs_ends : quadlet.

(** The keys of [Service] that the parts do not set *)
Abbreviation kept := [T "KillMode"; T "Type"].

Ltac key_tac := first [discriminate | by apply (bool_decide_unpack _); vm_compute | done].

(** One construct at a time *)
Ltac steps_tac :=
  repeat first
  [ solve [auto with quadlet]
  | match goal with |- ∀ _, _ => intros ? end
  | apply steps_throw; discriminate
  | apply steps_failIf; discriminate
  | apply steps_AddService; key_tac
  | apply steps_SetService; key_tac
  | apply steps_splitting; solve [auto with quadlet]
  | apply steps_forM
  | apply steps_bind
  | case_match ].

Section parts.
Context {Env : QuadletEnv} (unit : UnitFile) (groupName : text).

Lemma steps_addKeys arg keys : steps kept (addKeys arg keys).
Proof. unfold addKeys. steps_tac. Qed.

Lemma steps_addOption p v : steps kept (addOption p v).
Proof. unfold addOption. steps_tac. Qed.

Lemma steps_getAbsolutePath p : steps kept (getAbsolutePath unit p).
Proof. unfold getAbsolutePath. steps_tac. Qed.

Lemma steps_publishPort p : steps kept (publishPort p).
Proof. unfold publishPort. steps_tac. Qed.

Lemma steps_addNetwork n : steps kept (addNetwork n).
Proof. unfold addNetwork. steps_tac. Qed.

Lemma steps_handleUserRemap isUser manual : steps kept (handleUserRemap unit groupName isUser manual).
Proof. unfold handleUserRemap. steps_tac. Qed.

Lemma steps_addSourcePath : steps kept (addSourcePath unit).
Proof. unfold addSourcePath. steps_tac. Qed.

Lemma steps_setSyslogIdentifier : steps kept (setSyslogIdentifier unit).
Proof. unfold setSyslogIdentifier. steps_tac. Qed.
End parts.
#[export] Hint Resolve steps_addKeys steps_addOption steps_getAbsolutePath steps_publishPort steps_addNetwork steps_handleUserRemap : quadlet.
#[export] Hint Resolve steps_addSourcePath steps_setSyslogIdentifier : quadlet.

Section container_parts.
Context {Env : QuadletEnv} (container : UnitFile).

Lemma steps_addStopCommands : steps kept addStopCommands.
Proof. unfold addStopCommands. steps_tac. Qed.

Lemma steps_addSecurity : steps kept (addSecurity container).
Proof. unfold addSecurity. steps_tac. Qed.

Lemma steps_addReadOnly : steps kept (addReadOnly container).
Proof. unfold addReadOnly, addBool. steps_tac. Qed.

Lemma steps_addUser : steps kept (addUser container).
Proof. unfold addUser. steps_tac. Qed.

Lemma steps_addVolumeArg v : steps kept (addVolumeArg v).
Proof. unfold addVolumeArg, volumeSource. steps_tac. Qed.

Lemma steps_exposePort p : steps kept (exposePort p).
Proof. unfold exposePort. steps_tac. Qed.

Lemma steps_addEnvFile p : steps kept (addEnvFile container p).
Proof. unfold addEnvFile. steps_tac. Qed.
End container_parts.
#[export] Hint Resolve steps_addStopCommands steps_addSecurity steps_addReadOnly steps_addUser steps_addVolumeArg steps_exposePort steps_addEnvFile : quadlet.

Section metadata.
Context {Env : QuadletEnv} (container : UnitFile).

Lemma steps_addMetadata env : steps kept (addMetadata container env).
Proof. unfold addMetadata, addEnv, addLabels, addAnnotations, addBool. steps_tac. Qed.

Lemma steps_weaken {A} K K' (m : Q A) : K' ⊆ K → steps K m → steps K' m.
Proof.
  intros HK Hm s Hs. specialize (Hm s Hs). destruct (m s) as [[a|e] s']; [|done]. destruct Hm as [Hf Hl].
  split; [by eapply frame_weaken|done].
Qed.
End metadata.
#[export] Hint Resolve steps_addMetadata : quadlet.
