(* ===== verification/QuadletConvert.v ===== *)
(** * QuadletConvert: the services that conversions produce *)

From S2P Require Import Prelude UnitText UnitSplit UnitWords UnitFile UnitLookup UnitSpec UnitValues QuadletText Quadlet QuadletInv.

(** ** Copies *)

Lemma ug_merge_new g : ug_merge g (newUnitGroup (ug_name g)) = g.
Proof.
  assert (∀ l : list unitLine, dup <$> l = l) as Hd. { intros l. etrans; [apply list_fmap_ext|apply list_fmap_id]. by intros i [] _. }
  unfold ug_merge. simpl. rewrite !Hd. by destruct g.
Qed.

Lemma mergeG_copy gs acc : NoDup (names (acc ++ gs)) → mergeG gs acc = acc ++ gs.
Proof.
  unfold mergeG. revert acc. induction gs as [|g gs IH]; intros acc Hnd; [by rewrite app_nil_r|]. simpl.
  assert (ug_name g ∉ names acc) as Hg.
  { rewrite fmap_app in Hnd. apply NoDup_app in Hnd as (_ & Hdis & _). intros Hin. apply (Hdis _ Hin). by left. }
  assert (editG (ug_name g) (ug_merge g) acc = acc ++ [g]) as ->.
  { unfold editG, ensureG. rewrite decide_False by done. rewrite alterG_last by done. by rewrite ug_merge_new. }
  rewrite IH; rewrite <- app_assoc; done.
Qed.

Lemma Dup_copy f name : consistent f → consistent (uf_set_Filename name (Dup f)) ∧ view (uf_set_Filename name (Dup f)) = view f.
Proof.
  intros Hf. assert (implements NewUnitFile []) as Hn by (split; [apply NewUnitFile_consistent|done]).
  destruct (uf_merge_spec f NewUnitFile [] Hn) as [Hc Hv]. rewrite mergeG_copy in Hv by (by apply view_NoDup). simpl in Hv.
  split; [|exact Hv]. destruct Hc. by constructor.
Qed.

(** ** Renaming a group *)

Lemma named_rename old new n gs : NoDup (names gs) → new ∉ names gs →
  named n (alterG old (ug_rename new) gs) =
  if decide (n = new) then ug_rename new <$> named old gs else if decide (n = old) then None else named n gs.
Proof.
  intros Hnd Hnew. induction gs as [|g gs IH]; [by repeat case_decide|]. rewrite fmap_cons in Hnd, Hnew.
  apply NoDup_cons in Hnd as [Hg Hnd]. apply not_elem_of_cons in Hnew as [Hng Hnew]. specialize (IH Hnd Hnew).
  assert (∀ m, alterG old m (g :: gs) = (if decide (ug_name g = old) then m g else g) :: alterG old m gs) as -> by done.
  rewrite !named_cons, IH. destruct (decide (ug_name g = old)) as [Ho|Ho]; simpl.
  - subst old. destruct (decide (n = new)) as [->|Hn]; [by rewrite decide_True|]. rewrite (decide_False (P := new = n)) by congruence.
    destruct (decide (n = ug_name g)) as [->|Hne]; [done|]. by rewrite (decide_False (P := ug_name g = n)) by congruence.
  - destruct (decide (n = new)) as [->|Hn]; [by rewrite decide_False by congruence|]. destruct (decide (n = old)) as [->|Hne]; [by rewrite decide_False|done].
Qed.

Lemma group_rename old new n f : consistent f → old ≠ new →
  group (RenameGroup old new f) n =
  if decide (n = old) then None
  else if decide (n = new) then
    match group f old, group f new with
    | Some g, Some h => Some (ug_merge g h)
    | Some g, None => Some (ug_rename new g)
    | None, h => h
    end
  else group f n.
Proof.
  intros Hf Hne. destruct (RenameGroup_spec old new f (view f) ltac:(done)) as [Hf' Hv]. rewrite !group_named by done. rewrite Hv.
  unfold renameG. destruct (named old (view f)) as [g|] eqn:Ho; [|by repeat case_decide; simplify_eq].
  destruct (decide (new ∈ names (view f))) as [Hin|Hin].
  - rewrite (decide_False (P := old = new)) by done. rewrite named_removeG, named_alterG by done.
    destruct (decide (n = old)); [done|]. destruct (decide (n = new)) as [->|]; [|done].
    destruct (named new (view f)) eqn:Hn; [done|]. by apply named_None in Hn.
  - rewrite named_rename by (done || by apply view_NoDup). rewrite (proj2 (named_None new _)), Ho by done.
    repeat case_decide; naive_solver.
Qed.

(** ** Unknown keys *)

Lemma checkKeys_spec keys n supported :
  match checkKeys keys n supported with
  | None => Forall (.∈ supported) keys
  | Some e => ∃ key, e = UnsupportedKey key n ∧ key ∈ keys ∧ key ∉ supported
  end.
Proof.
  induction keys as [|key keys IH]; [constructor|]. cbn [checkKeys]. case_decide as Hk.
  - destruct (checkKeys keys n supported) as [e|]; [|by constructor]. destruct IH as (k & -> & ? & ?). exists k. split_and!; [done|by right|done].
  - exists key. split_and!; [done|by left|done].
Qed.

(** ** The kill mode and the type of the service *)

Lemma Lookup_kept K s s' key : frame K s s' → key ∈ K → Lookup s' ServiceGroup key = Lookup s ServiceGroup key.
Proof. intros (_ & _ & Hk) Hin. unfold Lookup, LookupLast. by rewrite Hk. Qed.

Lemma Lookup_Set s n key v : consistent s → LookupLastRaw (Set_ n key v s) n key = Some v.
Proof.
  intros Hs. rewrite LookupLastRaw_value. unfold Set_. rewrite group_edit by (done || apply ug_setKey_name). rewrite decide_True by done.
  cbn [mbind option_bind]. by rewrite setKey_lastValue, decide_True.
Qed.

Abbreviation allowedKillMode svc := (∃ m, Lookup svc ServiceGroup (T "KillMode") = Some m ∧ (m = T "mixed" ∨ m = T "control-group")).
Abbreviation allowedType svc := (∃ t, Lookup svc ServiceGroup (T "Type") = Some t ∧ (t = T "notify" ∨ t = T "oneshot")).

Lemma checkKillMode_spec s u s' : consistent (cv_service s) → checkKillMode s = (Ok u, s') →
  frame [T "Type"] (cv_service s) (cv_service s') ∧ cv_args s' = cv_args s ∧ allowedKillMode (cv_service s').
Proof.
  intros Hs. unfold checkKillMode, service. intros Hr. st_step. st_step.
  destruct (Lookup (cv_service s) ServiceGroup (T "KillMode")) as [m|] eqn:Hl.
  - st_step. apply negb_false_iff, bool_decide_eq_true in H. split_and!; [by apply frame_refl|done|]. eauto.
  - unfold onService in Hr. st_step. simpl. split_and!; [apply frame_Set; [done|key_tac]|done|].
    exists (T "mixed"). split; [|by left]. unfold Lookup, LookupLast. rewrite Lookup_Set by done. reflexivity.
Qed.

Lemma steps_checkKillMode : steps [T "Type"] checkKillMode.
Proof.
  intros s Hs. destruct (checkKillMode s) as [[u|e] s'] eqn:Hr.
  - apply checkKillMode_spec in Hr as (Hf & Ha & _); [|done]. split; [done|]. exists []. by rewrite app_nil_r.
  - unfold checkKillMode, service in Hr. apply st_bind_Err in Hr as [Hr|(svc & s1 & _ & Hr)]; [done|].
    destruct (Lookup svc ServiceGroup (T "KillMode")); [|done]. unfold failIf in Hr. destruct (negb _); by inversion Hr.
Qed.

Section type.
Context {Env : QuadletEnv} (container : UnitFile).

Lemma handleServiceType_spec s u s' : consistent (cv_service s) → handleServiceType container s = (Ok u, s') →
  frame [T "KillMode"] (cv_service s) (cv_service s') ∧ (∃ l, cv_args s' = cv_args s ++ l) ∧ allowedType (cv_service s').
Proof.
  intros Hs Hr. unfold handleServiceType, service in Hr.
  apply st_bind_Ok in Hr as (svc & s1 & Hg & Hr). injection Hg as <- <-. apply st_bind_Ok in Hr as (u1 & s1 & Hc & Hr).
  assert (s1 = s) as ->. { destruct (Lookup _ _ _); [by apply failIf_Ok in Hc as [_ ->]|by inversion Hc]. }
  clear Hc. case_decide as Ht.
  - st_step. split_and!; [by apply frame_refl|exists []; by rewrite app_nil_r|]. eauto.
  - unfold onService, addArgs in Hr. repeat st_step. simpl.
    split_and!; [apply frame_Setv; [done|intros key ->%list_elem_of_singleton; key_tac]|eexists; by rewrite <- app_assoc|].
    exists (T "notify"). split; [|by left]. unfold Lookup, LookupLast. rewrite LookupLastRaw_value. unfold Setv.
    rewrite group_edit by (done || apply setPairs_name). rewrite decide_True by done. cbn [mbind option_bind setPairs].
    rewrite setKey_lastValue, decide_False by key_tac. rewrite setKey_lastValue, decide_True by done. reflexivity.
Qed.

Lemma steps_handleServiceType : steps [T "KillMode"] (handleServiceType container).
Proof.
  unfold handleServiceType, service. steps_tac. apply steps_SetvService. intros key ->%list_elem_of_singleton. key_tac.
Qed.
End type.

(** ** Sequences *)

Lemma steps_bind_Ok {A B} K (m : Q A) (k : A → Q B) s b s' : steps K m → consistent (cv_service s) → (m ≫= k) s = (Ok b, s') →
  ∃ a s1, m s = (Ok a, s1) ∧ k a s1 = (Ok b, s') ∧ frame K (cv_service s) (cv_service s1) ∧ ∃ l, cv_args s1 = cv_args s ++ l.
Proof.
  intros Hm Hs (a & s1 & H1 & H2)%st_bind_Ok. exists a, s1. specialize (Hm s Hs). rewrite H1 in Hm. destruct Hm. split_and!; done.
Qed.

Lemma steps_Ok {A} K (m : Q A) s a s' : steps K m → consistent (cv_service s) → m s = (Ok a, s') →
  frame K (cv_service s) (cv_service s') ∧ ∃ l, cv_args s' = cv_args s ++ l.
Proof. intros Hm Hs Hr. specialize (Hm s Hs). by rewrite Hr in Hm. Qed.

(** A sublist of the kept keys *)
Ltac steps_sub := apply (steps_weaken kept); [by intros ? ->%list_elem_of_singleton; rewrite !elem_of_cons; auto | steps_tac].

Section run_options.
Context {Env : QuadletEnv} (container : UnitFile).

(** The options before and after the type of the service *)
Lemma addRunOptions_parts isUser env : ∃ before after, steps kept before ∧ steps kept after ∧
  ∀ s, addRunOptions container isUser env s = (before ≫= λ _ : (), handleServiceType container ≫= λ _, after) s.
Proof.
  eexists (_ ← handleLogDriver container ContainerGroup;
           _ ← onService (Add ServiceGroup (T "Delegate") (T "yes"));
           _ ← addArgs [T "--cgroups=split"];
           _ ← addOption (T "--tz=") (Lookup container ContainerGroup (T "Timezone"));
           _ ← addNetworks container ContainerGroup;
           match LookupBoolean container ContainerGroup (T "RunInit") with Some runInit => addBool (T "--init") runInit | None => mret () end), _.
  split_and!; [|shelve|].
  - unfold handleLogDriver, addNetworks, addBool. steps_tac.
  - intros s. unfold addRunOptions, mbind, st_bind. repeat (case_match; try done). all: reflexivity.
  Unshelve. unfold handlePublishPorts. steps_tac.
Qed.
End run_options.

Lemma frame_sub K s s' : frame kept s s' → K ⊆ kept → frame K s s'.
Proof. intros Hf HK. by eapply frame_weaken. Qed.

Ltac sub_tac := by intros ? ->%list_elem_of_singleton; rewrite !elem_of_cons; auto.

Section container_spec.
Context {Env : QuadletEnv} (container : UnitFile).

Lemma addRunOptions_spec isUser env s u s' : consistent (cv_service s) → addRunOptions container isUser env s = (Ok u, s') →
  frame [T "KillMode"] (cv_service s) (cv_service s') ∧ (∃ l, cv_args s' = cv_args s ++ l) ∧ allowedType (cv_service s').
Proof.
  intros Hs Hr. destruct (addRunOptions_parts container isUser env) as (before & after & Hb & Ha & Heq). rewrite Heq in Hr.
  apply (steps_bind_Ok kept) in Hr as (u1 & s1 & _ & Hr & Hf1 & l1 & Hl1); [|done|done].
  apply st_bind_Ok in Hr as (u2 & s2 & Ht & Hr). apply handleServiceType_spec in Ht as (Hf2 & (l2 & Hl2) & t & Ht & Hin); [|by apply Hf1].
  apply (steps_Ok kept) in Hr as (Hf3 & l3 & Hl3); [|done|by apply Hf2]. split_and!.
  - eapply frame_trans; [eapply frame_sub; [done|sub_tac]|]. eapply frame_trans; [done|]. eapply frame_sub; [done|sub_tac].
  - exists (l1 ++ l2 ++ l3). by rewrite Hl3, Hl2, Hl1, <- !app_assoc.
  - exists t. split; [|done]. rewrite <- Ht. eapply Lookup_kept; [exact Hf3|]. right. by left.
Qed.

(** The group of the file is renamed and all others but two are as they were. *)
Definition groupsKept (old new : text) (f svc : UnitFile) : Prop :=
  ∀ n, n ≠ UnitGroup → n ≠ ServiceGroup → group svc n = group (RenameGroup old new f) n.

Lemma steps_checkForUnknownKeys n supported : steps kept (checkForUnknownKeys container n supported).
Proof.
  unfold checkForUnknownKeys. pose proof (checkKeys_spec (ListKeys container n) n supported) as Hk.
  destruct (checkKeys _ _ _); [|apply steps_ret]. destruct Hk as (k & -> & _). by apply steps_throw.
Qed.

Lemma checkForUnknownKeys_Ok n supported s u s' : checkForUnknownKeys container n supported s = (Ok u, s') →
  s' = s ∧ Forall (.∈ supported) (ListKeys container n).
Proof.
  unfold checkForUnknownKeys. pose proof (checkKeys_spec (ListKeys container n) n supported) as Hk.
  destruct (checkKeys _ _ _); intros Hr; [by inversion Hr|]. by injection Hr as _ <-.
Qed.

(** A file before the renaming, framed by additions to [Unit] *)
Lemma RenameGroup_frame old new s s' n : frame kept s s' → consistent s → old ≠ new →
  old ≠ UnitGroup → old ≠ ServiceGroup → new ≠ UnitGroup → new ≠ ServiceGroup → n ≠ UnitGroup → n ≠ ServiceGroup →
  group (RenameGroup old new s') n = group (RenameGroup old new s) n.
Proof.
  intros (Hc & Hg & _) Hs Hne H1 H2 H3 H4 H5 H6. rewrite !group_rename by done. by rewrite !Hg.
Qed.

(** The value of a key of the group [Container]; an empty one counts as none. *)
Abbreviation given key := (default [] (Lookup container ContainerGroup (T key))).

(** Exactly one of the two keys has a value. *)
Definition isImage (image : list text) : Prop :=
  (given "Image" ≠ [] ∧ given "Rootfs" = [] ∧ image = [given "Image"]) ∨
  (given "Rootfs" ≠ [] ∧ given "Image" = [] ∧ image = [T "--rootfs"; given "Rootfs"]).

Lemma imageArgs_Ok s image s' : imageArgs container s = (Ok image, s') → s' = s ∧ isImage image.
Proof.
  unfold imageArgs, isImage. destruct (Lookup container ContainerGroup (T "Image")) as [[|c i]|], (Lookup container ContainerGroup (T "Rootfs")) as [[|d r]|];
    simpl; intros Hr; inversion Hr; subst; (split; [done|]); first [by left|by right].
Qed.

Lemma view_group f f' n : consistent f → consistent f' → view f' = view f → group f' n = group f n.
Proof. intros. by apply group_view. Qed.

Lemma prepareService_spec s image env s' : consistent container → consistent (cv_service s) → view (cv_service s) = view container →
  prepareService container s = (Ok (image, env), s') →
  consistent (cv_service s') ∧ Forall (.∈ supportedContainerKeys) (ListKeys container ContainerGroup) ∧ isImage image ∧
  allowedKillMode (cv_service s') ∧ groupsKept ContainerGroup XContainerGroup container (cv_service s').
Proof.
  intros Hcon Hs Hv Hr. unfold prepareService in Hr.
  apply (steps_bind_Ok kept) in Hr as (u1 & s1 & _ & Hr & Hf1 & _); [|auto with quadlet|done].
  apply st_bind_Ok in Hr as (u2 & s2 & Hk & Hr). apply checkForUnknownKeys_Ok in Hk as [-> Hkeys].
  apply st_bind_Ok in Hr as (u3 & s3 & Hn & Hr). injection Hn as _ <-.
  apply st_bind_Ok in Hr as (img & s4 & Hi & Hr). apply imageArgs_Ok in Hi as [-> Himg].
  assert (consistent (RenameGroup ContainerGroup XContainerGroup (cv_service s1))) as Hren.
  { apply (RenameGroup_spec _ _ _ (view (cv_service s1))). split; [by apply Hf1|done]. }
  apply (steps_bind_Ok kept) in Hr as (u5 & s5 & _ & Hr & Hf5 & _); [|apply steps_AddService; key_tac|done].
  apply st_bind_Ok in Hr as (u6 & s6 & Hm & Hr). apply checkKillMode_spec in Hm as (Hf6 & _ & m & Hm & Hmin); [|by apply Hf5].
  apply (steps_bind_Ok kept) in Hr as (env' & s7 & _ & Hr & Hf7 & _); [|apply steps_splitting; auto with quadlet|by apply Hf6].
  apply (steps_bind_Ok kept) in Hr as (u8 & s8 & _ & Hr & Hf8 & _); [|auto with quadlet|by apply Hf7].
  injection Hr as -> -> ->. pose proof (frame_trans _ _ _ _ Hf7 Hf8) as Hf. split_and!; [by apply Hf|done|done| |].
  - exists m. split; [|done]. rewrite <- Hm. eapply Lookup_kept; [exact Hf|]. by left.
  - intros n Hu Hsv. destruct Hf as (_ & Hg & _), Hf6 as (_ & Hg6 & _), Hf5 as (_ & Hg5 & _).
    rewrite Hg, Hg6, Hg5 by done. simpl. rewrite (RenameGroup_frame _ _ (cv_service s)) by (done || key_tac).
    rewrite !group_rename by (done || key_tac). by rewrite !(view_group container (cv_service s)) by done.
Qed.

Lemma AddCmdline_frame K key args s : consistent s → key ∉ K → frame K s (AddCmdline ServiceGroup key args s).
Proof. intros Hs Hk. apply frame_Add; [done|by right]. Qed.

Lemma convertContainer_spec isUser s u s' : consistent container → consistent (cv_service s) → view (cv_service s) = view container →
  convertContainer container isUser s = (Ok u, s') →
  ∃ svc image opts, cv_service s' = AddCmdline ServiceGroup (T "ExecStart") (cv_args s') svc ∧ consistent svc ∧
    Forall (.∈ supportedContainerKeys) (ListKeys container ContainerGroup) ∧ isImage image ∧
    cv_args s' = [podmanBinary; T "run"] ++ opts ++ image ++ default [] (default None (LookupLastArgs container ContainerGroup (T "Exec"))) ∧
    allowedKillMode svc ∧ allowedType svc ∧ groupsKept ContainerGroup XContainerGroup container svc.
Proof.
  intros Hcon Hs Hv Hr. unfold convertContainer in Hr.
  apply st_bind_Ok in Hr as ([image env] & s1 & Hp & Hr). apply prepareService_spec in Hp as (Hs1 & Hkeys & Himg & Hkm & Hg); [|done|done|done].
  apply st_bind_Ok in Hr as (u2 & s2 & H2 & Hr). injection H2 as _ <-.
  apply st_bind_Ok in Hr as (u3 & s3 & H3 & Hr). injection H3 as _ <-.
  apply st_bind_Ok in Hr as (u4 & s4 & H4 & Hr). injection H4 as _ <-.
  apply st_bind_Ok in Hr as (u5 & s5 & H5 & Hr). apply addRunOptions_spec in H5 as (Hf5 & (l & Hl) & Ht); [|done]. cbn [cv_service cv_args] in *.
  apply st_bind_Ok in Hr as (u6 & s6 & H6 & Hr). injection H6 as _ <-.
  apply st_bind_Ok in Hr as (ea & s7 & H7 & Hr). unfold splitting in H7.
  destruct (LookupLastArgs_ends container ContainerGroup (T "Exec")) as [ea' Hea]. rewrite Hea in H7 |- *. injection H7 as -> <-.
  apply st_bind_Ok in Hr as (u8 & s8 & H8 & Hr). injection H8 as _ <-. injection Hr as _ <-. cbn [cv_service cv_args default from_option id].
  exists (cv_service s5), image, (drop 2 (cv_args s5)). split_and!; [done|by apply Hf5|done|done| | |done|].
  - rewrite <- app_assoc. rewrite Hl. reflexivity.
  - destruct Hkm as (m & Hm & Hin). exists m. split; [|done]. rewrite <- Hm. eapply Lookup_kept; [exact Hf5|]. by left.
  - intros n Hu Hsv. destruct Hf5 as (_ & Hg5 & _). rewrite Hg5 by done. by apply Hg.
Qed.
End container_spec.

(** ** Termination *)

Definition ends {A} (m : Q A) : Prop :=
  ∀ s, consistent (cv_service s) → match m s with (Ok _, s') => consistent (cv_service s') | (Err e, _) => e ≠ Diverges end.

Lemma steps_ends {A} K (m : Q A) : steps K m → ends m.
Proof. intros Hm s Hs. specialize (Hm s Hs). destruct (m s) as [[a|e] s']; [|done]. by destruct Hm as [[? _] _]. Qed.

Lemma ends_bind {A B} (m : Q A) (k : A → Q B) : ends m → (∀ a, ends (k a)) → ends (m ≫= k).
Proof.
  intros Hm Hk s Hs. unfold mbind, st_bind. specialize (Hm s Hs). destruct (m s) as [[a|e] s1]; [|done]. by apply Hk.
Qed.

Lemma ends_RenameGroup old new : ends (onService (RenameGroup old new)).
Proof. intros s Hs. by apply (RenameGroup_spec old new _ (view (cv_service s))). Qed.

Lemma ends_imageArgs container : ends (imageArgs container).
Proof. apply (steps_ends kept). unfold imageArgs. steps_tac. Qed.

Section ends.
Context {Env : QuadletEnv}.

Lemma ends_NewPodmanCmdline args : ends (NewPodmanCmdline args).
Proof. by intros s Hs. Qed.

Lemma ends_addCmdline key : ends (addCmdline key).
Proof. intros s Hs. by apply (AddCmdline_frame []); [|apply not_elem_of_nil]. Qed.

Lemma ends_addRunOptions container isUser env : ends (addRunOptions container isUser env).
Proof.
  destruct (addRunOptions_parts container isUser env) as (before & after & Hb & Ha & Heq). intros s Hs. rewrite Heq. revert s Hs.
  change (ends (before ≫= λ _ : (), handleServiceType container ≫= λ _, after)).
  apply ends_bind; [by eapply steps_ends|]. intros _. apply ends_bind; [eapply steps_ends, steps_handleServiceType|]. intros _. by eapply steps_ends.
Qed.
End ends.
#[export] Hint Resolve ends_RenameGroup ends_imageArgs ends_NewPodmanCmdline ends_addCmdline ends_addRunOptions : quadlet.

Ltac ends_tac :=
  repeat first
  [ solve [auto with quadlet]
  | match goal with |- ∀ _, _ => intros ? end
  | apply (steps_ends kept), steps_checkForUnknownKeys
  | apply (steps_ends _ _ steps_checkKillMode)
  | apply (steps_ends kept); solve [steps_tac]
  | apply (steps_ends []); apply steps_SetvService; by intros ? ?%elem_of_nil
  | apply ends_bind
  | case_match ].

Section ends_all.
Context {Env : QuadletEnv}.

Lemma ends_convertContainer container isUser : ends (convertContainer container isUser).
Proof. unfold convertContainer, prepareService. ends_tac. Qed.

Lemma ends_convertNetwork network name : ends (convertNetwork network name).
Proof. unfold convertNetwork, handleSubnets, setOneshot, addLabels. ends_tac. Qed.

Lemma ends_convertVolume volume name : ends (convertVolume volume name).
Proof. unfold convertVolume, setOneshot, addLabels. ends_tac. Qed.

Lemma ends_convertKube kube isUser : ends (convertKube kube isUser).
Proof. unfold convertKube, handleLogDriver, addNetworks, handlePublishPorts, addConfigMap. ends_tac. Qed.

Lemma convert_ends unit filename m : consistent unit → ends m → convert unit filename m ≠ Err Diverges.
Proof.
  intros Hu Hm. unfold convert. destruct (Dup_copy unit filename Hu) as [Hc _].
  specialize (Hm (mkConversion (uf_set_Filename filename (Dup unit)) []) Hc). destruct (m _) as [[a|e] s]; [done|]. naive_solver.
Qed.
End ends_all.
