(* ===== verification/QuadletUnits.v ===== *)
(** * QuadletUnits: the services of networks, volumes and kube files, and published ports *)

From S2P Require Import Prelude UnitText UnitSplit UnitWords UnitFile UnitLookup UnitSpec UnitParse UnitValues QuadletText Quadlet QuadletInv QuadletConvert.

Ltac assoc_tac := repeat (rewrite ?st_bind_assoc, ?st_bind_ret; first [reflexivity | apply st_bind_ext; intros ? ?]).

(** ** The last command line of a key *)

(** [key] of [Service] was last set by [AddCmdline] with [args]. *)
Definition hasCmdline (svc : UnitFile) (key : text) (args : list text) : Prop :=
  LookupLastRaw svc ServiceGroup key = Some (escapeWords args).

Lemma hasCmdline_args svc key args : hasCmdline svc key args → Forall writable args →
  LookupLastArgs svc ServiceGroup key = Some (Some (nonEmpty args)).
Proof.
  intros Hc Ha. unfold LookupLastArgs, LookupLast. rewrite Hc. cbn. rewrite continuation_none by apply escapeWords_LF. by apply splitArgs_words.
Qed.

Lemma AddCmdline_has svc key args : consistent svc → hasCmdline (AddCmdline ServiceGroup key args svc) key args.
Proof.
  intros Hs. unfold hasCmdline, AddCmdline, Add. rewrite LookupLastRaw_value, group_edit by done. rewrite decide_True by done.
  cbn [mbind option_bind]. by rewrite add_lastValue, decide_True.
Qed.

Lemma hasCmdline_frame K s s' key args : frame K s s' → key ∈ K → hasCmdline s key args → hasCmdline s' key args.
Proof. intros (_ & _ & Hk) Hin. unfold hasCmdline. by rewrite Hk. Qed.

(** ** Services that run once *)

Section oneshot.
Context {Env : QuadletEnv}.

Definition createService (args : list text) (mid : Q ()) (name : text) : Q () :=
  NewPodmanCmdline args ≫= λ _, mid ≫= λ _, addArgs [name] ≫= λ _, addCmdline (T "ExecStart") ≫= λ _, setOneshot.

Lemma setOneshot_spec s u s' : consistent (cv_service s) → setOneshot s = (Ok u, s') →
  frame [T "ExecStart"] (cv_service s) (cv_service s') ∧ cv_args s' = cv_args s ∧ Lookup (cv_service s') ServiceGroup (T "Type") = Some (T "oneshot").
Proof.
  intros Hs [= _ <-]. cbn [cv_service cv_args]. split_and!; [|done|].
  - apply frame_Setv; [done|]. intros key ->%list_elem_of_singleton. key_tac.
  - unfold Lookup, LookupLast. rewrite LookupLastRaw_value. unfold Setv. rewrite group_edit by (done || apply setPairs_name).
    rewrite decide_True by done. cbn [mbind option_bind setPairs]. do 2 rewrite setKey_lastValue, decide_False by key_tac.
    rewrite setKey_lastValue, decide_True by done. reflexivity.
Qed.

Lemma createService_spec args mid name s u s' : steps kept mid → consistent (cv_service s) → createService args mid name s = (Ok u, s') →
  consistent (cv_service s') ∧ Lookup (cv_service s') ServiceGroup (T "Type") = Some (T "oneshot") ∧
  (∃ opts, hasCmdline (cv_service s') (T "ExecStart") (podmanBinary :: args ++ opts ++ [name])) ∧
  (∀ n, n ≠ UnitGroup → n ≠ ServiceGroup → group (cv_service s') n = group (cv_service s) n).
Proof.
  intros Hmid Hs Hr. unfold createService in Hr.
  apply st_bind_Ok in Hr as (u1 & s1 & H1 & Hr). injection H1 as _ <-.
  apply (steps_bind_Ok kept) in Hr as (u2 & s2 & _ & Hr & Hf2 & opts & Hl2); [|done|done]. cbn [cv_service cv_args] in *.
  apply st_bind_Ok in Hr as (u3 & s3 & H3 & Hr). injection H3 as _ <-.
  apply st_bind_Ok in Hr as (u4 & s4 & H4 & Hr). injection H4 as _ <-. cbn [cv_service cv_args] in *.
  pose proof (AddCmdline_frame [] (T "ExecStart") (cv_args s2 ++ [name]) (cv_service s2) ltac:(apply Hf2) (not_elem_of_nil _)) as Hf4.
  apply setOneshot_spec in Hr as (Hf5 & _ & Ht); [|apply Hf4]. split_and!; [apply Hf5|done| |].
  - exists opts. eapply hasCmdline_frame; [exact Hf5|by left|]. cbn [cv_service].
    replace (podmanBinary :: args ++ opts ++ [name]) with (cv_args s2 ++ [name]) by (rewrite Hl2; simpl; by rewrite <- app_assoc).
    apply AddCmdline_has, Hf2.
  - intros n Hu Hsv. destruct Hf5 as (_ & Hg5 & _), Hf4 as (_ & Hg4 & _), Hf2 as (_ & Hg2 & _). by rewrite Hg5, Hg4, Hg2.
Qed.

(** What the two conversions do before *)
Lemma create_spec unit old new supported args mid name filename u s' : consistent unit → steps kept mid →
  old ≠ new → old ≠ UnitGroup → old ≠ ServiceGroup → new ≠ UnitGroup → new ≠ ServiceGroup →
  (checkForUnknownKeys unit old supported ≫= λ _, onService (RenameGroup old new) ≫= λ _,
   onService (Add UnitGroup (T "RequiresMountsFor") (T "%t/containers")) ≫= λ _, createService args mid name)
    (mkConversion (uf_set_Filename filename (Dup unit)) []) = (Ok u, s') →
  let svc := cv_service s' in
  consistent svc ∧ Forall (.∈ supported) (ListKeys unit old) ∧ Lookup svc ServiceGroup (T "Type") = Some (T "oneshot") ∧
  (∃ opts, hasCmdline svc (T "ExecStart") (podmanBinary :: args ++ opts ++ [name])) ∧ groupsKept old new unit svc.
Proof.
  intros Hu Hmid Hne H1 H2 H3 H4 Hr svc. destruct (Dup_copy unit filename Hu) as [Hc Hv].
  apply st_bind_Ok in Hr as (u1 & s1 & Hk & Hr). apply checkForUnknownKeys_Ok in Hk as [-> Hkeys].
  apply st_bind_Ok in Hr as (u2 & s2 & Hn & Hr). injection Hn as _ <-. cbn [cv_service cv_args] in Hr.
  assert (consistent (RenameGroup old new (uf_set_Filename filename (Dup unit)))) as Hren by (by apply (RenameGroup_spec old new _ (view unit))).
  apply (steps_bind_Ok kept) in Hr as (u3 & s3 & _ & Hr & Hf3 & _); [|apply steps_AddUnit|done].
  apply createService_spec in Hr as (Hcs & Ht & Hcmd & Hg); [|done|apply Hf3]. split_and!; [done|done|done|done|].
  intros n Hnu Hns. unfold svc. rewrite Hg by done. destruct Hf3 as (_ & Hg3 & _). rewrite Hg3 by done. cbn [cv_service].
  rewrite !group_rename by done. by rewrite !(group_view _ unit _ Hc Hu Hv).
Qed.

Lemma convertNetwork_parts network name : ∃ mid, steps kept mid ∧
  ∀ s, convertNetwork network name s =
    (checkForUnknownKeys network NetworkGroup supportedNetworkKeys ≫= λ _, onService (RenameGroup NetworkGroup XNetworkGroup) ≫= λ _,
     onService (Add UnitGroup (T "RequiresMountsFor") (T "%t/containers")) ≫= λ _,
     createService [T "network"; T "create"; T "--ignore"] mid (replaceExtension name [] (T "systemd-") [])) s.
Proof.
  eexists (_ ← addArgs (if LookupBooleanWithDefault network NetworkGroup (T "DisableDNS") false then [T "--disable-dns"] else []);
    _ ← addOption (T "--driver=") (Lookup network NetworkGroup (T "Driver"));
    _ ← handleSubnets network;
    _ ← addArgs (if LookupBooleanWithDefault network NetworkGroup (T "Internal") false then [T "--internal"] else []);
    _ ← addOption (T "--ipam-driver=") (Lookup network NetworkGroup (T "IPAMDriver"));
    _ ← addArgs (if LookupBooleanWithDefault network NetworkGroup (T "IPv6") false then [T "--ipv6"] else []);
    networkOptions ← splitting (LookupAllKeyVal network NetworkGroup (T "Options"));
    _ ← addKeys (T "--opt") networkOptions;
    labels ← splitting (LookupAllKeyVal network NetworkGroup (T "Label"));
    addLabels labels).
  split; [unfold handleSubnets, addLabels; steps_tac|].
  intros s. unfold convertNetwork, createService. assoc_tac.
Qed.

Lemma convertVolume_parts volume name : ∃ mid, steps kept mid ∧
  ∀ s, convertVolume volume name s =
    (checkForUnknownKeys volume VolumeGroup supportedVolumeKeys ≫= λ _, onService (RenameGroup VolumeGroup XVolumeGroup) ≫= λ _,
     onService (Add UnitGroup (T "RequiresMountsFor") (T "%t/containers")) ≫= λ _,
     createService [T "volume"; T "create"; T "--ignore"] mid (replaceExtension name [] (T "systemd-") [])) s.
Proof.
  destruct (LookupAllKeyVal_ends volume VolumeGroup (T "Label")) as [labels Hlabels].
  set (dev := default [] (Lookup volume VolumeGroup (T "Device"))). set (devType := default [] (Lookup volume VolumeGroup (T "Type"))).
  set (mountOpts := default [] (Lookup volume VolumeGroup (T "Options"))).
  set (opts := match mountOpts with [] => ownerOpts volume | _ => appendOpt (ownerOpts volume) mountOpts end).
  exists (_ ← addArgs (match LookupBoolean volume VolumeGroup (T "Copy") with
               | Some true => [T "--opt"; T "copy"]
               | Some false => [T "--opt"; T "nocopy"]
               | None => []
               end);
    _ ← addArgs (match dev with [] => [] | _ => [T "--opt"; T "device=" ++ dev] end);
    _ ← failIf (bool_decide (devType ≠ [] ∧ dev = [])) TypeWithoutDevice;
    _ ← addArgs (match devType with [] => [] | _ => [T "--opt"; T "type=" ++ devType] end);
    _ ← failIf (bool_decide (mountOpts ≠ [] ∧ dev = [])) OptionsWithoutDevice;
    _ ← addArgs (match opts with [] => [] | _ => [T "--opt"; T "o=" ++ opts] end);
    addLabels labels).
  split; [unfold addLabels; clearbody opts dev devType mountOpts; steps_tac|].
  intros s. unfold convertVolume, createService. rewrite Hlabels. cbn [splitting]. assoc_tac.
Qed.

Lemma ConvertNetwork_spec network name svc : consistent network → ConvertNetwork network name = Ok svc →
  consistent svc ∧ Forall (.∈ supportedNetworkKeys) (ListKeys network NetworkGroup) ∧ Lookup svc ServiceGroup (T "Type") = Some (T "oneshot") ∧
  (∃ opts, hasCmdline svc (T "ExecStart") (podmanBinary :: T "network" :: T "create" :: T "--ignore" :: opts ++ [replaceExtension name [] (T "systemd-") []])) ∧
  groupsKept NetworkGroup XNetworkGroup network svc.
Proof.
  intros Hn. destruct (convertNetwork_parts network name) as (mid & Hmid & Heq). unfold ConvertNetwork, convert.
  match goal with |- match ?r with _ => _ end = _ → _ => destruct r as [[u|e] s'] eqn:Hr; [|done] end. intros [= <-].
  rewrite Heq in Hr. eapply (create_spec network NetworkGroup XNetworkGroup) in Hr; (done || key_tac || exact Hr).
Qed.

Lemma ConvertVolume_spec volume name svc : consistent volume → ConvertVolume volume name = Ok svc →
  consistent svc ∧ Forall (.∈ supportedVolumeKeys) (ListKeys volume VolumeGroup) ∧ Lookup svc ServiceGroup (T "Type") = Some (T "oneshot") ∧
  (∃ opts, hasCmdline svc (T "ExecStart") (podmanBinary :: T "volume" :: T "create" :: T "--ignore" :: opts ++ [replaceExtension name [] (T "systemd-") []])) ∧
  groupsKept VolumeGroup XVolumeGroup volume svc.
Proof.
  intros Hn. destruct (convertVolume_parts volume name) as (mid & Hmid & Heq). unfold ConvertVolume, convert.
  match goal with |- match ?r with _ => _ end = _ → _ => destruct r as [[u|e] s'] eqn:Hr; [|done] end. intros [= <-].
  rewrite Heq in Hr. eapply (create_spec volume VolumeGroup XVolumeGroup) in Hr; (done || key_tac || exact Hr).
Qed.
End oneshot.

(** ** Kube *)

Section kube.
Context {Env : QuadletEnv} (kube : UnitFile) (isUser : bool).

(** The command that plays the file *)
Definition playCommand (yamlPath : text) : Q () :=
  _ ← addArgs [T "--replace"; T "--service-container=true"];
  _ ← handleLogDriver kube KubeGroup;
  _ ← handleUserRemap kube KubeGroup isUser false;
  _ ← addNetworks kube KubeGroup;
  configMaps ← splitting (LookupAllStrv kube KubeGroup (T "ConfigMap"));
  _ ← forM_ configMaps (addConfigMap kube);
  handlePublishPorts kube KubeGroup.

Lemma steps_playCommand yamlPath : steps kept (playCommand yamlPath).
Proof. unfold playCommand, handleLogDriver, addNetworks, addConfigMap, handlePublishPorts. steps_tac. Qed.

(** The two command lines *)
Definition kubeCommands (yamlPath : text) : Q () :=
  NewPodmanCmdline [T "kube"; T "play"] ≫= λ _, playCommand yamlPath ≫= λ _, addArgs [yamlPath] ≫= λ _, addCmdline (T "ExecStart") ≫= λ _,
  NewPodmanCmdline [T "kube"; T "down"] ≫= λ _, addArgs [yamlPath] ≫= λ _, addCmdline (T "ExecStop").

Lemma kubeCommands_spec yamlPath s u s' : consistent (cv_service s) → kubeCommands yamlPath s = (Ok u, s') →
  frame kept (cv_service s) (cv_service s') ∧
  (∃ opts, hasCmdline (cv_service s') (T "ExecStart") (podmanBinary :: T "kube" :: T "play" :: opts ++ [yamlPath])) ∧
  hasCmdline (cv_service s') (T "ExecStop") [podmanBinary; T "kube"; T "down"; yamlPath].
Proof.
  intros Hs Hr. unfold kubeCommands in Hr. apply st_bind_Ok in Hr as (u1 & s1 & H1 & Hr). injection H1 as _ <-.
  apply (steps_bind_Ok kept) in Hr as (u2 & s2 & _ & Hr & Hf2 & opts & Hl2); [|apply steps_playCommand|done]. cbn [cv_service cv_args] in *.
  apply st_bind_Ok in Hr as (u3 & s3 & H3 & Hr). injection H3 as _ <-.
  apply st_bind_Ok in Hr as (u4 & s4 & H4 & Hr). injection H4 as _ <-. cbn [cv_service cv_args] in *.
  assert (consistent (cv_service s2)) as Hs2 by apply Hf2.
  pose proof (AddCmdline_frame kept (T "ExecStart") (cv_args s2 ++ [yamlPath]) _ Hs2 ltac:(key_tac)) as Hf4.
  pose proof (AddCmdline_has _ (T "ExecStart") (cv_args s2 ++ [yamlPath]) Hs2) as Hh4.
  apply st_bind_Ok in Hr as (u5 & s5 & H5 & Hr). injection H5 as _ <-.
  apply st_bind_Ok in Hr as (u6 & s6 & H6 & Hr). injection H6 as _ <-. injection Hr as _ <-. cbn [cv_service cv_args app] in *.
  set (f := AddCmdline ServiceGroup (T "ExecStart") (cv_args s2 ++ [yamlPath]) (cv_service s2)) in *.
  set (a := [podmanBinary; T "kube"; T "down"; yamlPath]).
  change (let f' := AddCmdline ServiceGroup (T "ExecStop") a f in frame kept (cv_service s) f' ∧
    (∃ opts, hasCmdline f' (T "ExecStart") (podmanBinary :: T "kube" :: T "play" :: opts ++ [yamlPath])) ∧ hasCmdline f' (T "ExecStop") a).
  intros f'. pose proof (AddCmdline_frame (T "ExecStart" :: kept) (T "ExecStop") a f ltac:(apply Hf4) ltac:(key_tac)) as Hf6.
  pose proof (AddCmdline_has f (T "ExecStop") a ltac:(apply Hf4)) as Hh6.
  split_and!; [| |exact Hh6].
  - eapply frame_trans; [exact Hf2|]. eapply frame_trans; [exact Hf4|]. eapply frame_weaken; [|exact Hf6]. by intros ? ?; right.
  - exists opts. eapply hasCmdline_frame; [exact Hf6|by left|]. by rewrite Hl2 in Hh4.
Qed.

Lemma setNotify_spec s u s' : consistent (cv_service s) →
  onService (Setv ServiceGroup [T "Type"; T "notify"; T "NotifyAccess"; T "all"]) s = (Ok u, s') →
  frame [T "KillMode"] (cv_service s) (cv_service s') ∧ LookupLastRaw (cv_service s') ServiceGroup (T "Type") = Some (T "notify").
Proof.
  intros Hs [= _ <-]. cbn [cv_service]. split; [apply frame_Setv; [done|intros key ->%list_elem_of_singleton; key_tac]|].
  rewrite LookupLastRaw_value. unfold Setv. rewrite group_edit by (done || apply setPairs_name). rewrite decide_True by done.
  cbn [mbind option_bind setPairs]. rewrite setKey_lastValue, decide_False by key_tac. by rewrite setKey_lastValue, decide_True.
Qed.

Lemma convertKube_parts s : convertKube kube isUser s =
  (addSourcePath kube ≫= λ _, checkForUnknownKeys kube KubeGroup supportedKubeKeys ≫= λ _, onService (RenameGroup KubeGroup XKubeGroup) ≫= λ _,
   failIf (bool_decide (default [] (Lookup kube KubeGroup (T "Yaml")) = [])) NoYaml ≫= λ _,
   getAbsolutePath kube (default [] (Lookup kube KubeGroup (T "Yaml"))) ≫= λ yamlPath, checkKillMode ≫= λ _,
   onService (Add ServiceGroup (T "Environment") (T "PODMAN_SYSTEMD_UNIT=%n")) ≫= λ _,
   onService (Add UnitGroup (T "RequiresMountsFor") (T "%t/containers")) ≫= λ _,
   onService (Setv ServiceGroup [T "Type"; T "notify"; T "NotifyAccess"; T "all"]) ≫= λ _,
   setSyslogIdentifier kube ≫= λ _, kubeCommands yamlPath) s.
Proof. unfold convertKube, kubeCommands, playCommand. assoc_tac. Qed.

(** A path that is relative to the directory of the quadlet file, or, when the file has no path,
    to the working directory *)
Definition absolutePath (filePath path : text) : Prop :=
  if IsAbs filePath then path = filePath
  else if decide (uf_Path kube = []) then ∃ wd, Getwd = Some wd ∧ path = Join wd filePath
  else path = Join (Dir (uf_Path kube)) filePath.

Lemma getAbsolutePath_Ok filePath path s s' : getAbsolutePath kube filePath s = (Ok path, s') → absolutePath filePath path.
Proof.
  unfold getAbsolutePath, absolutePath. destruct (IsAbs filePath); [by intros [= <- <-]|]. destruct (uf_Path kube) as [|c p] eqn:Hp.
  - rewrite decide_True by done. destruct Getwd as [wd|]; intros [= <- <-]. by exists wd.
  - rewrite decide_False by done. by intros [= <- <-].
Qed.

(** The file that a kube file names *)
Definition playedFile (path : text) : Prop :=
  ∃ yaml, Lookup kube KubeGroup (T "Yaml") = Some yaml ∧ yaml ≠ [] ∧ absolutePath yaml path.

Lemma ConvertKube_spec svc : consistent kube → ConvertKube kube isUser = Ok svc →
  consistent svc ∧ Forall (.∈ supportedKubeKeys) (ListKeys kube KubeGroup) ∧ allowedKillMode svc ∧
  Lookup svc ServiceGroup (T "Type") = Some (T "notify") ∧ groupsKept KubeGroup XKubeGroup kube svc ∧
  ∃ yamlPath, playedFile yamlPath ∧ (∃ opts, hasCmdline svc (T "ExecStart") (podmanBinary :: T "kube" :: T "play" :: opts ++ [yamlPath])) ∧
    hasCmdline svc (T "ExecStop") [podmanBinary; T "kube"; T "down"; yamlPath].
Proof.
  intros Hk. unfold ConvertKube, convert. destruct (Dup_copy kube (replaceExtension (uf_Filename kube) (T ".service") [] []) Hk) as [Hc Hv].
  match goal with |- match ?r with _ => _ end = _ → _ => destruct r as [[u|e] s'] eqn:Hr; [|done] end. intros [= <-].
  rewrite convertKube_parts in Hr. revert Hr. generalize dependent (uf_set_Filename (replaceExtension (uf_Filename kube) (T ".service") [] []) (Dup kube)).
  intros f Hc Hv Hr. apply (steps_bind_Ok kept) in Hr as (u1 & s1 & _ & Hr & Hf1 & _); [|auto with quadlet|done]. cbn [cv_service] in Hf1.
  apply st_bind_Ok in Hr as (u2 & s2 & H2 & Hr). apply checkForUnknownKeys_Ok in H2 as [-> Hkeys].
  apply st_bind_Ok in Hr as (u3 & s3 & H3 & Hr). injection H3 as _ <-.
  assert (consistent (RenameGroup KubeGroup XKubeGroup (cv_service s1))) as Hren.
  { apply (RenameGroup_spec _ _ _ (view (cv_service s1))). split; [by apply Hf1|done]. }
  apply (steps_bind_Ok kept) in Hr as (u4 & s4 & Hy & Hr & Hf4 & _); [|by apply steps_failIf|done].
  apply (steps_bind_Ok kept) in Hr as (yamlPath & s5 & Hp & Hr & Hf5 & _); [|auto with quadlet|by apply Hf4].
  assert (playedFile yamlPath) as Hplayed.
  { apply getAbsolutePath_Ok in Hp. unfold playedFile. case_bool_decide; [done|].
    destruct (Lookup kube KubeGroup (T "Yaml")) as [yaml|]; [by exists yaml|done]. }
  apply st_bind_Ok in Hr as (u6 & s6 & Hm & Hr). apply checkKillMode_spec in Hm as (Hf6 & _ & m & Hm & Hmin); [|by apply Hf5].
  apply (steps_bind_Ok kept) in Hr as (u7 & s7 & _ & Hr & Hf7 & _); [|apply steps_AddService; key_tac|by apply Hf6].
  apply (steps_bind_Ok kept) in Hr as (u8 & s8 & _ & Hr & Hf8 & _); [|apply steps_AddUnit|by apply Hf7].
  apply st_bind_Ok in Hr as (u9 & s9 & H9 & Hr). apply setNotify_spec in H9 as [Hf9 Ht]; [|by apply Hf8].
  apply (steps_bind_Ok kept) in Hr as (u10 & s10 & _ & Hr & Hf10 & _); [|auto with quadlet|by apply Hf9].
  apply kubeCommands_spec in Hr as (Hf11 & Hstart & Hstop); [|by apply Hf10].
  pose proof (frame_trans _ _ _ _ Hf10 Hf11) as Hlast. split_and!; [apply Hlast|done| | | |by eauto].
  - exists m. split; [|done]. rewrite <- Hm. rewrite (Lookup_kept _ _ _ _ Hlast), (Lookup_kept _ _ _ _ Hf9) by by left.
    rewrite (Lookup_kept _ _ _ _ Hf8), (Lookup_kept _ _ _ _ Hf7) by by left. done.
  - rewrite (Lookup_kept _ _ _ _ Hlast) by (right; by left). unfold Lookup, LookupLast. by rewrite Ht.
  - intros n Hu Hsv. destruct Hlast as (_ & G1 & _), Hf9 as (_ & G2 & _), Hf8 as (_ & G3 & _), Hf7 as (_ & G4 & _).
    destruct Hf6 as (_ & G5 & _), Hf5 as (_ & G6 & _), Hf4 as (_ & G7 & _). rewrite G1, G2, G3, G4, G5, G6, G7 by done. cbn [cv_service].
    rewrite (RenameGroup_frame _ _ f) by (done || key_tac). rewrite !group_rename by (done || key_tac). by rewrite !(group_view _ kube _ Hc Hk Hv).
Qed.
End kube.

(** ** Ports *)

Lemma JoinWith_cons sep x l : l ≠ [] → JoinWith sep (x :: l) = x ++ sep ++ JoinWith sep l.
Proof. by destruct l. Qed.

Lemma splitPortsFrom_nonempty part b s : splitPortsFrom part b s ≠ [].
Proof. revert part b. induction s as [|c s IH]; intros part b; simpl; repeat case_match; try done. Qed.

Lemma splitPortsFrom_join s : ∀ part b, JoinWith (T ":") (splitPortsFrom part b s) = part ++ s.
Proof.
  induction s as [|c s IH]; intros part b; cbn [splitPortsFrom]; [simpl; by rewrite app_nil_r|].
  destruct b; [by rewrite IH, <- app_assoc|]. case_bool_decide; [by rewrite IH, <- app_assoc|]. case_bool_decide as Hc.
  - subst c. rewrite JoinWith_cons by apply splitPortsFrom_nonempty. by rewrite IH.
  - by rewrite IH, <- app_assoc.
Qed.

Lemma dropDigits_split s : startsDigit s = true → ∃ pre c, s = pre ++ c :: dropDigits s ∧ isDigit c = true.
Proof.
  induction s as [|c s IH]; [done|]. cbn [startsDigit dropDigits]. intros Hc. rewrite Hc.
  destruct (startsDigit s) eqn:Hs.
  - destruct IH as (pre & d & Heq & Hd); [done|]. exists (c :: pre), d. split; [simpl; by f_equal|done].
  - exists [], c. split; [|done]. simpl. destruct s as [|d s]; [done|]. simpl in Hs |- *. by rewrite Hs.
Qed.

(** A text that ends in a digit, or in a digit and a protocol *)
Definition endsInDigit (s : text) : Prop := ∃ pre c proto, s = pre ++ c :: proto ∧ isDigit c = true ∧ isProtocol proto = true.

Lemma endsInDigit_app pre s : endsInDigit s → endsInDigit (pre ++ s).
Proof. intros (p & c & proto & -> & Hc & Hp). exists (pre ++ p), c, proto. by rewrite <- app_assoc. Qed.

Lemma matchPortRange_ends s : matchPortRange s = true → endsInDigit s.
Proof.
  unfold matchPortRange. rewrite andb_true_iff. intros [Hs Hm]. destruct (dropDigits_split s Hs) as (pre & c & Heq & Hc).
  destruct (decide (isProtocol (dropDigits s) = true)) as [Hp|Hp]; [by exists pre, c, (dropDigits s)|].
  assert (∃ s', dropDigits s = "-"%char :: s' ∧ startsDigit s' = true ∧ isProtocol (dropDigits s') = true) as (s' & Hd & Hs' & Hp').
  { revert Hm Hp. destruct (dropDigits s) as [|d s']; [done|]. intros Hm Hp. destruct (decide (d = "-"%char)) as [->|Hd].
    - exists s'. by apply andb_true_iff in Hm as [??].
    - destruct d as [[] [] [] [] [] [] [] []]; done. }
  destruct (dropDigits_split s' Hs') as (pre' & c' & Heq' & Hc'). rewrite Heq, Hd, Heq'.
  exists (pre ++ c :: "-"%char :: pre'), c', (dropDigits s'). split_and!; [by rewrite <- app_assoc|done|done].
Qed.

Lemma isPortRange_spec s : isPortRange s = true ↔ endsInDigit s.
Proof.
  unfold isPortRange. split.
  - induction s as [|c s IH]; cbn [validPortRange]; rewrite orb_true_iff; intros [Hm|Hv]; try done; try by apply matchPortRange_ends.
    apply (endsInDigit_app [c]). auto.
  - intros (pre & c & proto & -> & Hc & Hp). induction pre as [|d pre IH]; [|simpl; rewrite IH; by apply orb_true_r].
    simpl. apply orb_true_iff. left. unfold matchPortRange. cbn [startsDigit dropDigits]. rewrite Hc. cbn [andb].
    unfold isProtocol in Hp. apply bool_decide_eq_true in Hp. rewrite !elem_of_cons in Hp. destruct Hp as [->|[->|[->|Hp]]]; try reflexivity.
    by apply elem_of_nil in Hp.
Qed.

Section publish.
Context {Env : QuadletEnv}.

(** The three parts of a published port *)
Definition portParts (port : text) (ip hostPort containerPort : text) : Prop :=
  (splitPorts (TrimSpace port) = [containerPort] ∧ ip = [] ∧ hostPort = []) ∨
  (splitPorts (TrimSpace port) = [hostPort; containerPort] ∧ ip = []) ∨
  splitPorts (TrimSpace port) = [ip; hostPort; containerPort].

Lemma publishPort_spec port s s' : publishPort port s = (Ok (), s') ↔
  ∃ ip hostPort containerPort, portParts port ip hostPort containerPort ∧
    (hostPort = [] ∨ isPortRange hostPort = true) ∧ (containerPort = [] ∨ isPortRange containerPort = true) ∧
    s' = mkConversion (cv_service s) (cv_args s ++ [T "--publish"; publishArg (if decide (ip = T "0.0.0.0") then [] else ip) hostPort containerPort]).
Proof.
  assert (∀ p, bool_decide (p ≠ []) && negb (isPortRange p) = false ↔ p = [] ∨ isPortRange p = true) as Hb.
  { intros p. rewrite andb_false_iff, negb_false_iff, bool_decide_eq_false. destruct (decide (p = [])); naive_solver. }
  assert (∀ ip h c, (failIf (bool_decide (h ≠ []) && negb (isPortRange h)) (InvalidPort h) ≫= λ _,
     failIf (bool_decide (c ≠ []) && negb (isPortRange c)) (InvalidPort c) ≫= λ _,
     addArgs [T "--publish"; publishArg (if decide (ip = T "0.0.0.0") then [] else ip) h c]) s = (Ok (), s') ↔
     (h = [] ∨ isPortRange h = true) ∧ (c = [] ∨ isPortRange c = true) ∧
     s' = mkConversion (cv_service s) (cv_args s ++ [T "--publish"; publishArg (if decide (ip = T "0.0.0.0") then [] else ip) h c])) as Hp.
  { intros ip h c. rewrite !st_bind_Ok. setoid_rewrite failIf_Ok. setoid_rewrite Hb. split.
    - intros (u & s1 & [Hh ->] & Hr). apply st_bind_Ok in Hr as (u2 & s2 & Hc & Hr). apply failIf_Ok in Hc as [Hc ->]. apply Hb in Hc.
      injection Hr as <-. done.
    - intros (Hh & Hc & ->). exists (), s. split; [done|]. apply st_bind_Ok. exists (), s. split; [|done]. apply failIf_Ok. by rewrite Hb. }
  unfold publishPort, portParts. destruct (splitPorts (TrimSpace port)) as [|p1 [|p2 [|p3 [|p4 l]]]] eqn:Hs.
  all: cbv beta iota zeta; rewrite ?Hp; split; [intros Hr|intros (ip & h & c & Hparts & Hh & Hc & Hr)]; naive_solver.
Qed.
End publish.
