(* ===== verification/QuadletMain.v ===== *)
(** * QuadletMain: the generator

    [cmd/quadlet/main.go]: the units of the source directories, their conversion, the text
    of the generated files and the names of the links that enable them.  Parameters: the
    files of a directory ([os.ReadDir]) and their contents ([os.ReadFile]), the name of the
    program, and the order in which Go iterates over the map of units.  Creating files,
    directories and links, and logging, are not modelled. *)

From S2P Require Import Prelude UnitText UnitSplit UnitWords UnitFile UnitLookup UnitSpec UnitParse UnitValues QuadletText Quadlet QuadletInv QuadletConvert.

(** [filepath.Ext] *)
Definition Ext (path : text) : text :=
  match LastIndexByte path "."%char with
  | Some i => if decide ("/"%char ∈ drop i path) then [] else drop i path
  | None => []
  end.

Definition supportedExtensions : list text := T <$> [".container"; ".volume"; ".kube"; ".network"].

Definition isExtSupported (filename : text) : bool := bool_decide (Ext filename ∈ supportedExtensions).

(** The table [unicode.Hex_Digit] *)
Definition isHexDigit (r : N) : bool :=
  (between 48 r 57 || between 65 r 70 || between 97 r 102 ||
   between 0xFF10 r 0xFF19 || between 0xFF21 r 0xFF26 || between 0xFF41 r 0xFF46)%N.

Definition isImageID (imageName : text) : bool :=
  HasPrefix imageName (T "sha256:") ||
  (bool_decide (length imageName = 64) && forallb isHexDigit (runes imageName)).

Definition isUnambiguousName (imageName : text) : bool :=
  isImageID imageName ||
  match IndexByte imageName "/"%char with
  | None => false
  | Some firstSlash =>
      let domain := take firstSlash imageName in
      bool_decide ("."%char ∈ domain ∨ ":"%char ∈ domain) || bool_decide (domain = T "localhost")
  end.

(** Whether [warnIfAmbiguousName] warns *)
Definition warnsAmbiguousName (container : UnitFile) : bool :=
  match Lookup container ContainerGroup (T "Image") with
  | Some imageName => negb (isUnambiguousName imageName)
  | None => false
  end.

Definition getUnitDirs (QUADLET_UNIT_DIRS : text) (UserConfigDir : option text) (user : bool) : list text :=
  match QUADLET_UNIT_DIRS with
  | _ :: _ => SplitN QUADLET_UNIT_DIRS ":"%char (S (length QUADLET_UNIT_DIRS))
  | [] =>
      if user then match UserConfigDir with Some configDir => [Join configDir (T "containers/systemd")] | None => [] end
      else [T "/etc/containers/systemd"; T "/usr/share/containers/systemd"]
  end.

Section generator.
Context {Env : QuadletEnv} (ReadDir : text → option (list text)) (ReadFile : text → option text).

(** One file of a directory.  A file that cannot be loaded does not count, so that a file of
    the same name in a later directory is used. *)
Definition loadUnit (sourcePath : text) (units : gmap text UnitFile) (name : text) : gmap text UnitFile :=
  if decide (units !! name = None ∧ isExtSupported name = true) then
    match ParseUnitFile ReadFile (Join sourcePath name) with
    | Some (Ok f) => <[name := f]> units
    | _ => units
    end
  else units.

Definition loadUnitsFromDir (units : gmap text UnitFile) (sourcePath : text) : gmap text UnitFile :=
  match ReadDir sourcePath with
  | None => units
  | Some files => foldl (loadUnit sourcePath) units files
  end.

Definition loadUnits (sourcePaths : list text) : gmap text UnitFile := foldl loadUnitsFromDir ∅ sourcePaths.

Definition convertUnit (isUser : bool) (name : text) (unit : UnitFile) : option (result quadletError UnitFile) :=
  if HasSuffix name (T ".container") then Some (ConvertContainer unit isUser)
  else if HasSuffix name (T ".volume") then Some (ConvertVolume unit name)
  else if HasSuffix name (T ".kube") then Some (ConvertKube unit isUser)
  else if HasSuffix name (T ".network") then Some (ConvertNetwork unit name)
  else None.

Definition uf_set_Path v f := mkUnitFile (uf_groups f) (uf_groupByName f) (uf_heap f) (uf_Filename f) v.

(** The text of the generated file *)
Definition generateServiceFile (program : text) (service : UnitFile) : text :=
  ToString (PrependComment [] [T "Automatically generated by " ++ program; []] service).

(** The names of the links, relative to the output directory *)
Definition serviceSymlinks (service : UnitFile) : option (list text) :=
  aliases ← LookupAllStrv service InstallGroup (T "Alias");
  wantedBy ← LookupAllStrv service InstallGroup (T "WantedBy");
  requiredBy ← LookupAllStrv service InstallGroup (T "RequiredBy");
  let dirLinks suffix units := (λ u, u ++ suffix ++ uf_Filename service) <$> filter (λ u, "/"%char ∉ u) units in
  Some ((Clean <$> aliases) ++ dirLinks (T ".wants/") wantedBy ++ dirLinks (T ".requires/") requiredBy).

(** The files that one unit generates: path and text *)
Definition generateUnit (program outputPath : text) (isUser : bool) (name : text) (unit : UnitFile) : option (text * text) :=
  match convertUnit isUser name unit with
  | Some (Ok service) =>
      let service := uf_set_Path (Join outputPath (uf_Filename service)) service in
      Some (uf_Path service, generateServiceFile program service)
  | _ => None
  end.

(** The loop of [main] over the units; a later file overwrites an earlier one with the same path. *)
Definition generate (program outputPath : text) (isUser : bool) (units : list (text * UnitFile)) : gmap text text :=
  foldl (λ out '(name, unit), match generateUnit program outputPath isUser name unit with Some (path, data) => <[path := data]> out | None => out end)
    ∅ units.

(** ** Loading *)

(** The file of the first directory that has one *)
Fixpoint firstUnit (sourcePaths : list text) (name : text) : option UnitFile :=
  match sourcePaths with
  | [] => None
  | sourcePath :: sourcePaths =>
      match ReadDir sourcePath with
      | Some files =>
          if decide (name ∈ files ∧ isExtSupported name = true) then
            match ParseUnitFile ReadFile (Join sourcePath name) with
            | Some (Ok f) => Some f
            | _ => firstUnit sourcePaths name
            end
          else firstUnit sourcePaths name
      | None => firstUnit sourcePaths name
      end
  end.

Lemma loadUnit_lookup sourcePath units file name :
  loadUnit sourcePath units file !! name =
  match units !! name with
  | Some f => Some f
  | None => if decide (name = file ∧ isExtSupported name = true)
            then match ParseUnitFile ReadFile (Join sourcePath name) with Some (Ok f) => Some f | _ => None end
            else None
  end.
Proof.
  unfold loadUnit. destruct (decide (units !! file = None ∧ isExtSupported file = true)) as [[Hn He]|Hf].
  - destruct (decide (name = file)) as [->|Hne].
    + rewrite Hn, decide_True by done. destruct (ParseUnitFile _ _) as [[f|e]|]; [by rewrite lookup_insert_eq|done|done].
    + rewrite (decide_False (P := name = file ∧ _)) by naive_solver.
      destruct (ParseUnitFile _ _) as [[f|e]|]; [rewrite lookup_insert_ne by done|..]; by destruct (units !! name).
  - destruct (units !! name) as [f|] eqn:Hu; [done|]. rewrite (decide_False (P := name = file ∧ _)); [done|]. naive_solver.
Qed.

Lemma loadUnits_dir sourcePath files units name :
  foldl (loadUnit sourcePath) units files !! name =
  match units !! name with
  | Some f => Some f
  | None => if decide (name ∈ files ∧ isExtSupported name = true)
            then match ParseUnitFile ReadFile (Join sourcePath name) with Some (Ok f) => Some f | _ => None end
            else None
  end.
Proof.
  revert units. induction files as [|file files IH]; intros units; cbn [foldl].
  - rewrite (decide_False (P := name ∈ [] ∧ _)) by (by intros [?%elem_of_nil _]). by destruct (units !! name).
  - rewrite IH, loadUnit_lookup. destruct (units !! name) as [f|]; [done|].
    destruct (ParseUnitFile ReadFile (Join sourcePath name)) as [[f|e]|]; repeat case_decide; set_solver.
Qed.

(** The first directory in the list that has a file of the name that can be loaded wins. *)
Theorem generator_first_directory_wins sourcePaths name : loadUnits sourcePaths !! name = firstUnit sourcePaths name.
Proof.
  assert (∀ units, foldl loadUnitsFromDir units sourcePaths !! name = match units !! name with Some f => Some f | None => firstUnit sourcePaths name end) as Hl.
  { induction sourcePaths as [|dir dirs IH]; intros units; simpl; [by destruct (units !! name)|]. rewrite IH. unfold loadUnitsFromDir.
    destruct (ReadDir dir) as [files|]; [|done]. rewrite loadUnits_dir. destruct (units !! name) as [f|]; [done|].
    case_decide; [|done]. by destruct (ParseUnitFile _ _) as [[f|e]|]. }
  unfold loadUnits. by rewrite Hl, lookup_empty.
Qed.

(** Loading a file never runs out of fuel. *)
Lemma ParseUnitFile_ends path : is_Some (ParseUnitFile ReadFile path).
Proof.
  unfold ParseUnitFile. destruct (ReadFile path) as [data|]; [|by eexists].
  destruct (Parse_is_Some data (mkUnitFile [] ∅ [] (Base path) path)) as [r ->]. destruct r as [f|[e f]]; by eexists.
Qed.

(** What is loaded is consistent, so that the theorems about conversions apply to it. *)
Lemma loaded_consistent path f : ParseUnitFile ReadFile path = Some (Ok f) → consistent f.
Proof.
  unfold ParseUnitFile. destruct (ReadFile path) as [data|]; [|done]. destruct (Parse data _) as [[f'|[e f']]|] eqn:Hp; [|done|done].
  intros [= <-]. eapply (Parse_consistent _ _ (Ok f')); [|exact Hp].
  constructor; simpl; [constructor|by intros p ?%elem_of_nil|]. intros n p. rewrite lookup_empty, elem_of_nil. naive_solver.
Qed.
End generator.
