(* ===== verification/Locks.v ===== *)
(** * Locks: the interface of the lock managers

    [libpod/lock/lock.go]: the interfaces [Manager] and [Locker].  A lock is its ID, an unsigned
    integer of 32 bits, and the methods of a [Locker] take the ID of the lock.  The class
    [ManagerLaws] states what the comments of the interface promise; [LocksMemory], [LocksFile]
    and [LocksShm] are its three implementations, and [Renumber] is a client.

    A method that cannot go on (it waits for a lock that is held, or it searches for ever)
    returns [LockBlocked]. *)

From S2P Require Import Prelude.

Local Open Scope Z_scope.

Inductive lockError : Type :=
| NoLocks                       (* a manager of zero locks *)
| AllAllocated
| LockIDTooLarge (id : Z)
| LockInUse (id : Z)
| LocksClosed
| DirectoryExists
| NoDirectory
| FileError                     (* the host refuses *)
| Errno (code : Z)
| ExceededNumLocks (maxLocks : Z)
| LockBlocked (id : Z)
| NotLocked (id : Z)
| UnknownLockType.

#[export] Instance lockError_eq_dec : EqDecision lockError.
Proof. solve_decision. Defined.

Abbreviation LM := (ST lockError).

Definition uint32 (n : Z) : Z := n mod 2 ^ 32.

(** ** The operations *)

Class Manager (M : Type) : Type := {
  AllocateLock : LM M Z;
  RetrieveLock : Z → LM M Z;
  AllocateAndRetrieveLock : Z → LM M Z;
  FreeAllLocks : LM M ();
  Lock : Z → LM M ();
  Unlock : Z → LM M ();
  Free : Z → LM M () }.

(** ** The laws *)

Section outcomes.
Context {M : Type} (valid : M → Prop) (allocated : M → Z → Prop).

(** The lock [id] was free and is now the only other one that is allocated. *)
Definition takes (m : M) (id : Z) (m' : M) : Prop :=
  valid m' ∧ 0 ≤ id < 2 ^ 32 ∧ ¬ allocated m id ∧ ∀ i, allocated m' i ↔ i = id ∨ allocated m i.

(** No lock is freed. *)
Definition keepsLocks (m m' : M) : Prop := valid m' ∧ ∀ i, allocated m i → allocated m' i.

(** No lock but [id] is freed, and none is allocated. *)
Definition mayFree (m : M) (id : Z) (m' : M) : Prop :=
  valid m' ∧ ∀ i, (allocated m' i → allocated m i) ∧ (i ≠ id → allocated m i → allocated m' i).

(** [id] is freed and nothing else. *)
Definition frees (m : M) (id : Z) (m' : M) : Prop :=
  valid m' ∧ ∀ i, allocated m' i ↔ i ≠ id ∧ allocated m i.

End outcomes.

(** A call that fails to allocate can leave a lock allocated that nobody has. *)
Class ManagerLaws (M : Type) `{Manager M} : Type := {
  valid : M → Prop;
  allocated : M → Z → Prop;
  AllocateLock_law m r m' : valid m → AllocateLock m = (r, m') →
    match r with Ok id => takes valid allocated m id m' | Err _ => keepsLocks valid allocated m m' end;
  AllocateAndRetrieveLock_law id m r m' : valid m → 0 ≤ id < 2 ^ 32 → AllocateAndRetrieveLock id m = (r, m') →
    match r with Ok id' => id' = id ∧ takes valid allocated m id m' | Err _ => keepsLocks valid allocated m m' end;
  RetrieveLock_law id m r m' : RetrieveLock id m = (r, m') → m' = m ∧ ∀ id', r = Ok id' → id' = id;
  Lock_law id m r m' : valid m → 0 ≤ id < 2 ^ 32 → Lock id m = (r, m') → keepsLocks valid allocated m m';
  Unlock_law id m r m' : valid m → 0 ≤ id < 2 ^ 32 → Unlock id m = (r, m') → keepsLocks valid allocated m m';
  Free_law id m r m' : valid m → 0 ≤ id < 2 ^ 32 → Free id m = (r, m') →
    match r with Ok _ => frees valid allocated m id m' | Err _ => mayFree valid allocated m id m' end;
  FreeAllLocks_law m r m' : valid m → FreeAllLocks m = (r, m') →
    valid m' ∧ (∀ i, allocated m' i → allocated m i) ∧ (r = Ok () → ∀ i, ¬ allocated m' i) }.

(** ** Histories

    The calls of the interface in any order and with any result.  [owned] are the locks that
    calls have returned and that have not been freed since. *)

Section history.
Context `{ManagerLaws M}.

Inductive lockStep : M * gset Z → M * gset Z → Prop :=
| step_allocate m id m' owned : AllocateLock m = (Ok id, m') → lockStep (m, owned) (m', {[id]} ∪ owned)
| step_allocate_err m e m' owned : AllocateLock m = (Err e, m') → lockStep (m, owned) (m', owned)
| step_given id m id' m' owned : 0 ≤ id < 2 ^ 32 → AllocateAndRetrieveLock id m = (Ok id', m') → lockStep (m, owned) (m', {[id']} ∪ owned)
| step_given_err id m e m' owned : 0 ≤ id < 2 ^ 32 → AllocateAndRetrieveLock id m = (Err e, m') → lockStep (m, owned) (m', owned)
| step_retrieve id m r m' owned : RetrieveLock id m = (r, m') → lockStep (m, owned) (m', owned)
| step_lock id m r m' owned : 0 ≤ id < 2 ^ 32 → Lock id m = (r, m') → lockStep (m, owned) (m', owned)
| step_unlock id m r m' owned : 0 ≤ id < 2 ^ 32 → Unlock id m = (r, m') → lockStep (m, owned) (m', owned)
| step_free id m r m' owned : 0 ≤ id < 2 ^ 32 → Free id m = (r, m') → lockStep (m, owned) (m', owned ∖ {[id]})
| step_freeAll m r m' owned : FreeAllLocks m = (r, m') → lockStep (m, owned) (m', ∅).

Definition ownedAllocated (s : M * gset Z) : Prop := valid s.1 ∧ ∀ i, i ∈ s.2 → allocated s.1 i.

Lemma lockStep_owned s s' : lockStep s s' → ownedAllocated s → ownedAllocated s'.
Proof.
  intros Hs [Hv Ho]. destruct Hs; simpl in *.
  - destruct (AllocateLock_law _ _ _ Hv H1) as (Hv' & _ & _ & Ha). split; simpl; [done|]. intros i Hi.
    apply Ha. apply elem_of_union in Hi as [->%elem_of_singleton|Hi]; auto.
  - destruct (AllocateLock_law _ _ _ Hv H1) as (Hv' & Ha). split; simpl; auto.
  - destruct (AllocateAndRetrieveLock_law _ _ _ _ Hv H1 H2) as (-> & Hv' & _ & _ & Ha). split; simpl; [done|]. intros i Hi.
    apply Ha. apply elem_of_union in Hi as [->%elem_of_singleton|Hi]; auto.
  - destruct (AllocateAndRetrieveLock_law _ _ _ _ Hv H1 H2) as (Hv' & Ha). split; simpl; auto.
  - destruct (RetrieveLock_law _ _ _ _ H1) as [-> _]. split; simpl; auto.
  - destruct (Lock_law _ _ _ _ Hv H1 H2) as (Hv' & Ha). split; simpl; auto.
  - destruct (Unlock_law _ _ _ _ Hv H1 H2) as (Hv' & Ha). split; simpl; auto.
  - pose proof (Free_law _ _ _ _ Hv H1 H2) as Hf. split; simpl.
    + destruct r; apply Hf.
    + intros i [Hi Hne%not_elem_of_singleton]%elem_of_difference. destruct r; apply Hf; auto.
  - destruct (FreeAllLocks_law _ _ _ Hv H1) as (Hv' & _). split; simpl; [done|]. intros i Hi. set_solver.
Qed.

Lemma history_owned s s' : rtc lockStep s s' → ownedAllocated s → ownedAllocated s'.
Proof. induction 1 as [|x y z Hxy _ IH]; intros Hx; [done|]. by apply IH, (lockStep_owned x). Qed.

End history.
