(* ===== verification/LocksMemory.v ===== *)
(** * LocksMemory: the lock manager in memory

    [libpod/lock/in_memory_locks.go].  A [Mutex] is shared by everybody who has retrieved it,
    and it is an element of the manager: its methods are functions of the manager and of its ID. *)

From S2P Require Import Prelude Locks.

Local Open Scope Z_scope.

Record Mutex : Type := mkMutex { mx_id : Z; mx_locked : bool; mx_allocated : bool }.
Record InMemoryManager : Type := mkInMemoryManager { im_locks : list Mutex; im_numLocks : Z }.

Definition mx_set_allocated (b : bool) (m : Mutex) : Mutex := mkMutex (mx_id m) (mx_locked m) b.
Definition mx_set_locked (b : bool) (m : Mutex) : Mutex := mkMutex (mx_id m) b (mx_allocated m).

Definition NewInMemoryManager (numLocks : Z) : result lockError InMemoryManager :=
  if decide (numLocks = 0) then Err NoLocks
  else Ok (mkInMemoryManager ((λ i, mkMutex (Z.of_nat i) false false) <$> seq 0 (Z.to_nat numLocks)) numLocks).

(** The loop of [AllocateLock] *)
Fixpoint firstFree (locks : list Mutex) : option (Z * list Mutex) :=
  match locks with
  | [] => None
  | lock :: locks =>
      if mx_allocated lock then (λ '(id, l), (id, lock :: l)) <$> firstFree locks
      else Some (mx_id lock, mx_set_allocated true lock :: locks)
  end.

Definition AllocateLock : LM InMemoryManager Z := λ m,
  match firstFree (im_locks m) with
  | Some (id, locks) => (Ok id, mkInMemoryManager locks (im_numLocks m))
  | None => (Err AllAllocated, m)
  end.

Definition RetrieveLock (id : Z) : LM InMemoryManager Z := λ m,
  if decide (im_numLocks m ≤ id) then (Err (LockIDTooLarge id), m) else (Ok id, m).

Definition onMutex (id : Z) (f : Mutex → Mutex) (m : InMemoryManager) : InMemoryManager :=
  mkInMemoryManager (alter f (Z.to_nat id) (im_locks m)) (im_numLocks m).

(** The last case, an index out of range, would be a panic. *)
Definition AllocateAndRetrieveLock (id : Z) : LM InMemoryManager Z := λ m,
  if decide (im_numLocks m ≤ id) then (Err (LockIDTooLarge id), m)
  else match im_locks m !! Z.to_nat id with
       | Some lock => if mx_allocated lock then (Err (LockInUse id), m) else (Ok id, onMutex id (mx_set_allocated true) m)
       | None => (Err (LockIDTooLarge id), m)
       end.

Definition FreeAllLocks : LM InMemoryManager () := λ m,
  (Ok (), mkInMemoryManager (mx_set_allocated false <$> im_locks m) (im_numLocks m)).

(** The methods of [Mutex].  [sync.Mutex] panics when it is unlocked while it is not locked. *)
Definition Free (id : Z) : LM InMemoryManager () := λ m, (Ok (), onMutex id (mx_set_allocated false) m).

Definition Lock (id : Z) : LM InMemoryManager () := λ m,
  match im_locks m !! Z.to_nat id with
  | Some lock => if mx_locked lock then (Err (LockBlocked id), m) else (Ok (), onMutex id (mx_set_locked true) m)
  | None => (Err (LockIDTooLarge id), m)
  end.

Definition Unlock (id : Z) : LM InMemoryManager () := λ m,
  match im_locks m !! Z.to_nat id with
  | Some lock => if mx_locked lock then (Ok (), onMutex id (mx_set_locked false) m) else (Err (NotLocked id), m)
  | None => (Err (LockIDTooLarge id), m)
  end.

#[export] Instance memory_manager : Manager InMemoryManager := {|
  Locks.AllocateLock := AllocateLock;
  Locks.RetrieveLock := RetrieveLock;
  Locks.AllocateAndRetrieveLock := AllocateAndRetrieveLock;
  Locks.FreeAllLocks := FreeAllLocks;
  Locks.Lock := Lock;
  Locks.Unlock := Unlock;
  Locks.Free := Free |}.

(** ** The laws *)

(** Each lock is at the place of its ID. *)
Record valid (m : InMemoryManager) : Prop := {
  valid_length : Z.of_nat (length (im_locks m)) = im_numLocks m;
  valid_range : im_numLocks m ≤ 2 ^ 32;
  valid_id i lock : im_locks m !! i = Some lock → mx_id lock = Z.of_nat i }.

Definition allocated (m : InMemoryManager) (id : Z) : Prop :=
  0 ≤ id ∧ ∃ lock, im_locks m !! Z.to_nat id = Some lock ∧ mx_allocated lock = true.

Lemma NewInMemoryManager_valid numLocks m :
  0 ≤ numLocks < 2 ^ 32 → NewInMemoryManager numLocks = Ok m → valid m ∧ ∀ id, ¬ allocated m id.
Proof.
  intros Hn. unfold NewInMemoryManager. destruct (decide (numLocks = 0)); [done|]. intros [= <-]. split; [split; simpl|].
  - rewrite length_fmap, length_seq. lia.
  - lia.
  - intros i lock (j & -> & [-> _]%lookup_seq)%list_lookup_fmap_Some. done.
  - intros id (_ & lock & (j & -> & _)%list_lookup_fmap_Some & [=]).
Qed.

(** Changes of the flags keep the shape of the manager. *)
Lemma valid_onMutex id f m : (∀ x, mx_id (f x) = mx_id x) → valid m → valid (onMutex id f m).
Proof.
  intros Hf [Hl Hr Hi]. split; simpl; [by rewrite length_alter|done|]. intros i lock Hlk.
  destruct (decide (i = Z.to_nat id)) as [->|Hne].
  - rewrite list_lookup_alter_eq in Hlk. apply fmap_Some in Hlk as (x & Hx & ->). rewrite Hf. by apply Hi.
  - rewrite list_lookup_alter_ne in Hlk by done. by apply Hi.
Qed.

Lemma allocated_onMutex id f m i : 0 ≤ id → allocated (onMutex id f m) i ↔
  if decide (i = id) then ∃ lock, im_locks m !! Z.to_nat id = Some lock ∧ mx_allocated (f lock) = true else allocated m i.
Proof.
  intros Hid. unfold allocated; simpl. destruct (decide (i = id)) as [->|Hne].
  - rewrite list_lookup_alter_eq. split.
    + intros (_ & lock & (x & Hx & ->)%fmap_Some & Ha). eauto.
    + intros (x & -> & Ha). split; [done|]. by exists (f x).
  - destruct (decide (0 ≤ i)) as [Hi|Hi]; [|naive_solver]. rewrite list_lookup_alter_ne by lia. done.
Qed.

Lemma firstFree_spec locks :
  match firstFree locks with
  | Some (id, locks') => ∃ n lock, locks !! n = Some lock ∧ mx_allocated lock = false ∧ id = mx_id lock ∧
      locks' = alter (mx_set_allocated true) n locks ∧ ∀ j l, (j < n)%nat → locks !! j = Some l → mx_allocated l = true
  | None => ∀ j l, locks !! j = Some l → mx_allocated l = true
  end.
Proof.
  induction locks as [|lock locks IH]; simpl; [done|]. destruct (mx_allocated lock) eqn:Ha.
  - destruct (firstFree locks) as [[id locks']|]; simpl.
    + destruct IH as (n & x & Hx & Hf & -> & -> & Hlt). exists (S n), x. split_and!; try done.
      intros [|j] l Hj; simpl; [by intros [= <-]|]. apply Hlt. lia.
    + intros [|j] l; simpl; [by intros [= <-]|apply IH].
  - exists 0%nat, lock. split_and!; try done. lia.
Qed.

Lemma onMutex_allocate m id lock :
  valid m → 0 ≤ id < 2 ^ 32 → im_locks m !! Z.to_nat id = Some lock → mx_allocated lock = false →
  takes valid allocated m id (onMutex id (mx_set_allocated true) m).
Proof.
  intros Hv Hid Hl Ha. split; [by apply valid_onMutex|]. split; [done|]. split.
  - intros (_ & x & Hx & Ht). rewrite Hl in Hx. congruence.
  - intros i. rewrite allocated_onMutex by lia. destruct (decide (i = id)); naive_solver.
Qed.

Lemma onMutex_locked m id b : valid m → 0 ≤ id → keepsLocks valid allocated m (onMutex id (mx_set_locked b) m).
Proof.
  intros Hv Hid. split; [by apply valid_onMutex|]. intros i Hi. rewrite allocated_onMutex by done.
  destruct (decide (i = id)) as [->|]; [|done]. destruct Hi as (_ & x & Hx & Ha). eauto.
Qed.

#[export] Program Instance memory_laws : ManagerLaws InMemoryManager := {|
  Locks.valid := valid; Locks.allocated := allocated |}.
Next Obligation.
  intros m r m' Hv. simpl. unfold AllocateLock. pose proof (firstFree_spec (im_locks m)) as Hf.
  destruct (firstFree (im_locks m)) as [[id locks]|]; intros [= <- <-]; [|split; auto].
  destruct Hf as (n & lock & Hl & Ha & -> & -> & _). pose proof (valid_id m Hv n lock Hl) as ->.
  pose proof (lookup_lt_Some _ _ _ Hl). pose proof (valid_length m Hv). pose proof (valid_range m Hv).
  destruct (onMutex_allocate m (Z.of_nat n) lock) as (Hm & Ht); [done|lia|by rewrite Nat2Z.id|done|].
  unfold onMutex in Hm, Ht. rewrite Nat2Z.id in Hm, Ht. done.
Qed.
Next Obligation.
  intros id m r m' Hv Hid. simpl. unfold AllocateAndRetrieveLock.
  destruct (decide _); [intros [= <- <-]; split; auto|]. destruct (im_locks m !! Z.to_nat id) as [lock|] eqn:Hl; [|intros [= <- <-]; split; auto].
  destruct (mx_allocated lock) eqn:Ha; intros [= <- <-]; [split; auto|]. split; [done|]. by apply (onMutex_allocate m id lock).
Qed.
Next Obligation.
  intros id m r m'. simpl. unfold RetrieveLock. destruct (decide _); intros [= <- <-]; naive_solver.
Qed.
Next Obligation.
  intros id m r m' Hv Hid. simpl. unfold Lock. destruct (im_locks m !! Z.to_nat id) as [lock|]; [|intros [= <- <-]; split; auto].
  destruct (mx_locked lock); intros [= <- <-]; [split; auto|]. apply onMutex_locked; [done|lia].
Qed.
Next Obligation.
  intros id m r m' Hv Hid. simpl. unfold Unlock. destruct (im_locks m !! Z.to_nat id) as [lock|]; [|intros [= <- <-]; split; auto].
  destruct (mx_locked lock); intros [= <- <-]; [|split; auto]. apply onMutex_locked; [done|lia].
Qed.
Next Obligation.
  intros id m r m' Hv Hid [= <- <-]. split; [by apply valid_onMutex|]. intros i. rewrite allocated_onMutex by lia.
  destruct (decide (i = id)); naive_solver.
Qed.
Next Obligation.
  intros m r m' Hv [= <- <-]. assert (∀ i, ¬ allocated (mkInMemoryManager (mx_set_allocated false <$> im_locks m) (im_numLocks m)) i) as Hn.
  { intros i (_ & lock & (x & -> & _)%list_lookup_fmap_Some & [=]). }
  split; [|split; [by intros i ?%Hn|done]]. destruct Hv as [Hl Hr Hi]. split; simpl; [by rewrite length_fmap|done|].
  intros i lock (x & -> & Hx)%list_lookup_fmap_Some. exact (Hi i x Hx).
Qed.

(** The lock that [AllocateLock] returns is the least one that is free, and it fails only when
    all are allocated. *)
Lemma memory_least m r m' : valid m → AllocateLock m = (r, m') →
  match r with
  | Ok id => ∀ i, 0 ≤ i < id → allocated m i
  | Err e => e = AllAllocated ∧ ∀ i, 0 ≤ i < im_numLocks m → allocated m i
  end.
Proof.
  intros Hv. unfold AllocateLock. pose proof (firstFree_spec (im_locks m)) as Hf. pose proof (valid_length m Hv) as Hlen.
  destruct (firstFree (im_locks m)) as [[id locks]|]; intros [= <- <-].
  - destruct Hf as (n & lock & Hl & Ha & -> & -> & Hlt). rewrite (valid_id m Hv n lock Hl). intros i Hi.
    pose proof (lookup_lt_Some _ _ _ Hl). destruct (lookup_lt_is_Some_2 (im_locks m) (Z.to_nat i)) as [x Hx]; [lia|].
    split; [lia|]. exists x. split; [done|]. apply (Hlt (Z.to_nat i)); [lia|done].
  - split; [done|]. intros i Hi. destruct (lookup_lt_is_Some_2 (im_locks m) (Z.to_nat i)) as [x Hx]; [lia|].
    split; [lia|]. exists x. split; [done|]. by apply (Hf (Z.to_nat i)).
Qed.
