(* ===== verification/LocksFile.v ===== *)
(** * LocksFile: the lock manager on files

    [libpod/lock/file/file_lock.go] and [libpod/lock/file_lock_manager.go], seen by one process.
    The directory has one file for each allocated lock, named by its number.  Calls to the host
    can fail: their results are part of the state ([fl_faults]; when none is left, they succeed). *)

From S2P Require Import Prelude Locks.

Local Open Scope Z_scope.

(** [fl_open] are the lock files that the process has opened once (the map [lockFiles] of the
    package [lockfile]), and [fl_held] the ones it has locked. *)
Record FileLocks : Type := mkFileLocks {
  fl_valid : bool;
  fl_exists : bool;
  fl_files : gset Z;
  fl_open : gset Z;
  fl_held : gset Z;
  fl_faults : list bool }.

Definition set_dir b v f := mkFileLocks (fl_valid f) b v (fl_open f) (fl_held f) (fl_faults f).
Definition set_files v f := set_dir (fl_exists f) v f.
Definition set_open v f := mkFileLocks (fl_valid f) (fl_exists f) (fl_files f) v (fl_held f) (fl_faults f).
Definition set_held v f := mkFileLocks (fl_valid f) (fl_exists f) (fl_files f) (fl_open f) v (fl_faults f).

(** The result of the next call to the host *)
Definition hostOk : LM FileLocks bool := λ f,
  match fl_faults f with
  | [] => (Ok true, f)
  | b :: l => (Ok b, mkFileLocks (fl_valid f) (fl_exists f) (fl_files f) (fl_open f) (fl_held f) l)
  end.

(** ** [file_lock.go] *)

Definition CreateFileLock : LM FileLocks () := λ f,
  if fl_exists f then (Err DirectoryExists, f)
  else match hostOk f with
       | (Ok true, f) => (Ok (), mkFileLocks true true ∅ (fl_open f) (fl_held f) (fl_faults f))
       | (_, f) => (Err FileError, f)
       end.

Definition OpenFileLock : LM FileLocks () := λ f,
  if fl_exists f then (Ok (), mkFileLocks true true (fl_files f) (fl_open f) (fl_held f) (fl_faults f))
  else (Err NoDirectory, f).

Definition checkValid : LM FileLocks () := λ f, if fl_valid f then (Ok (), f) else (Err LocksClosed, f).

(** Each file is removed or not. *)
Fixpoint removeFiles (files : list Z) : LM FileLocks bool :=
  match files with
  | [] => mret true
  | id :: files =>
      ok ← hostOk;
      _ ← (if ok : bool then modify (λ f, set_files (fl_files f ∖ {[id]}) f) else mret ());
      rest ← removeFiles files;
      mret (ok && rest)
  end.

(** [os.RemoveAll] removes what it can.  The flag [valid] is not reset. *)
Definition Close : LM FileLocks () :=
  _ ← checkValid;
  files ← gets fl_files;
  ok ← removeFiles (elements files);
  ok' ← hostOk;
  if ok && ok' then modify (set_dir false ∅) else throw FileError.

(** [os.OpenFile] with [O_EXCL]: [None] when the file exists *)
Definition createExclusive (id : Z) : LM FileLocks (option ()) :=
  files ← gets fl_files;
  if decide (id ∈ files) then mret None
  else
    dir ← gets fl_exists;
    ok ← hostOk;
    if dir && ok then _ ← modify (λ f, set_files ({[id]} ∪ fl_files f) f); mret (Some ()) else throw FileError.

(** The loop over all numbers; they are of 32 bits and wrap around. *)
Fixpoint allocateFrom (fuel : nat) (id : Z) : LM FileLocks Z :=
  match fuel with
  | O => throw (LockBlocked id)
  | S fuel =>
      created ← createExclusive id;
      match created with
      | Some _ => mret id
      | None => allocateFrom fuel (uint32 (id + 1))
      end
  end.

(** One round more than there are files is enough. *)
Definition AllocateLock : LM FileLocks Z :=
  _ ← checkValid;
  files ← gets fl_files;
  allocateFrom (S (size files)) 0.

Definition AllocateGivenLock (lck : Z) : LM FileLocks () :=
  _ ← checkValid;
  created ← createExclusive lck;
  match created with Some _ => mret () | None => throw (LockInUse lck) end.

Definition DeallocateLock (lck : Z) : LM FileLocks () :=
  _ ← checkValid;
  files ← gets fl_files;
  ok ← hostOk;
  if decide (lck ∈ files ∧ ok = true) then modify (λ f, set_files (fl_files f ∖ {[lck]}) f) else throw FileError.

Definition DeallocateAllLocks : LM FileLocks () :=
  _ ← checkValid;
  dir ← gets fl_exists;
  readable ← hostOk;
  if dir && readable then
    files ← gets fl_files;
    ok ← removeFiles (elements files);
    if ok : bool then mret () else throw FileError
  else throw FileError.

(** [openLock] of the package [lockfile]: the file, and its directory, are created when they
    are missing. *)
Definition openLock (lck : Z) : LM FileLocks () :=
  ok ← hostOk;
  if ok : bool then modify (λ f, set_dir true ({[lck]} ∪ fl_files f) f) else throw FileError.

(** [lockfile.GetLockFile]: a file that the process knows is not opened again. *)
Definition GetLockFile (lck : Z) : LM FileLocks () :=
  known ← gets fl_open;
  if decide (lck ∈ known) then mret ()
  else _ ← openLock lck; modify (λ f, set_open ({[lck]} ∪ fl_open f) f).

(** [l.Lock()] waits for the lock and then opens the file (and panics when this fails). *)
Definition LockFileLock (lck : Z) : LM FileLocks () :=
  _ ← checkValid;
  _ ← GetLockFile lck;
  held ← gets fl_held;
  if decide (lck ∈ held) then throw (LockBlocked lck)
  else _ ← openLock lck; modify (λ f, set_held ({[lck]} ∪ fl_held f) f).

(** [l.Unlock()] panics when the lock is not held. *)
Definition UnlockFileLock (lck : Z) : LM FileLocks () :=
  _ ← checkValid;
  _ ← GetLockFile lck;
  held ← gets fl_held;
  if decide (lck ∈ held) then modify (λ f, set_held (fl_held f ∖ {[lck]}) f) else throw (NotLocked lck).

(** ** [FileLockManager] *)

Definition AllocateAndRetrieveLock (id : Z) : LM FileLocks Z := _ ← AllocateGivenLock id; mret id.
Definition RetrieveLock (id : Z) : LM FileLocks Z := mret id.

#[export] Instance file_manager : Manager FileLocks := {|
  Locks.AllocateLock := AllocateLock;
  Locks.RetrieveLock := RetrieveLock;
  Locks.AllocateAndRetrieveLock := AllocateAndRetrieveLock;
  Locks.FreeAllLocks := DeallocateAllLocks;
  Locks.Lock := LockFileLock;
  Locks.Unlock := UnlockFileLock;
  Locks.Free := DeallocateLock |}.

(** ** The laws *)

Definition allocated (f : FileLocks) (id : Z) : Prop := id ∈ fl_files f.
Definition valid (f : FileLocks) : Prop := ∀ id, id ∈ fl_files f → 0 ≤ id < 2 ^ 32.

(** What each step does to the files *)
Lemma hostOk_run f : ∃ ok f', hostOk f = (Ok ok, f') ∧ fl_valid f' = fl_valid f ∧ fl_exists f' = fl_exists f ∧
  fl_files f' = fl_files f ∧ fl_open f' = fl_open f ∧ fl_held f' = fl_held f.
Proof. unfold hostOk. destruct (fl_faults f) as [|b l]; eauto 10. Qed.

Lemma checkValid_run f r f' : checkValid f = (r, f') → f' = f.
Proof. unfold checkValid. destruct (fl_valid f); by intros [= _ <-]. Qed.

Lemma createExclusive_run id f r f' : createExclusive id f = (r, f') →
  match r with
  | Ok (Some _) => (id ∉ fl_files f) ∧ fl_files f' = {[id]} ∪ fl_files f
  | Ok None => id ∈ fl_files f ∧ f' = f
  | Err e => e = FileError ∧ fl_files f' = fl_files f
  end.
Proof.
  unfold createExclusive, mbind, st_bind, gets, mret, st_ret. destruct (decide (id ∈ fl_files f)) as [Hin|Hin]; [by intros [= <- <-]|].
  destruct (hostOk_run f) as (ok & f1 & -> & _ & _ & Hf & _). destruct (fl_exists f && ok); intros [= <- <-]; [|done].
  simpl. by rewrite Hf.
Qed.

Lemma openLock_run id f r f' : openLock id f = (r, f') → fl_files f ⊆ fl_files f' ∧ fl_files f' ⊆ {[id]} ∪ fl_files f.
Proof.
  unfold openLock, mbind, st_bind. destruct (hostOk_run f) as (ok & f1 & -> & _ & _ & Hf & _).
  destruct ok; intros [= <- <-]; simpl; set_solver.
Qed.

Lemma GetLockFile_run id f r f' : GetLockFile id f = (r, f') → fl_files f ⊆ fl_files f' ∧ fl_files f' ⊆ {[id]} ∪ fl_files f.
Proof.
  unfold GetLockFile. rewrite (st_bind_run _ _ f (fl_open f) f) by done. destruct (decide _); [intros [= <- <-]; set_solver|].
  unfold mbind, st_bind. destruct (openLock id f) as [[u|e] f1] eqn:Ho; intros [= <- <-]; by apply openLock_run in Ho.
Qed.

Lemma removeFiles_run l f : ∃ ok f', removeFiles l f = (Ok ok, f') ∧ fl_files f' ⊆ fl_files f ∧
  (ok = true → ∀ i, i ∈ fl_files f' → i ∉ l).
Proof.
  revert f. induction l as [|id l IH]; intros f; simpl; [exists true, f; set_solver|].
  destruct (hostOk_run f) as (ok & f1 & Hh & _ & _ & Hf & _). rewrite (st_bind_run _ _ _ _ _ Hh).
  set (f2 := if ok then set_files (fl_files f1 ∖ {[id]}) f1 else f1).
  rewrite (st_bind_run _ _ _ () f2) by (subst f2; by destruct ok). destruct (IH f2) as (rest & f3 & Hr & Hsub & Hall).
  rewrite (st_bind_run _ _ _ _ _ Hr). exists (ok && rest), f3. split; [done|].
  assert (fl_files f2 ⊆ fl_files f) as Hs by (subst f2; destruct ok; simpl; set_solver). split; [set_solver|].
  intros [-> ->]%andb_prop i Hi. specialize (Hall eq_refl i Hi). subst f2. simpl in *. set_solver.
Qed.

(** The search meets an existing file each time it goes on. *)
Lemma allocateFrom_run fuel id f r f' : 0 ≤ id < 2 ^ 32 → allocateFrom fuel id f = (r, f') →
  match r with
  | Ok id' => 0 ≤ id' < 2 ^ 32 ∧ (id' ∉ fl_files f) ∧ fl_files f' = {[id']} ∪ fl_files f
  | Err _ => fl_files f' = fl_files f
  end.
Proof.
  revert id. induction fuel as [|fuel IH]; intros id Hid; simpl; [by intros [= <- <-]|].
  unfold mbind, st_bind. destruct (createExclusive id f) as [[[u|]|e] f1] eqn:Hc; apply createExclusive_run in Hc.
  - intros [= <- <-]. by destruct Hc.
  - destruct Hc as [_ ->]. apply IH. by apply Z.mod_pos_bound.
  - intros [= <- <-]. apply Hc.
Qed.

Lemma keeps_subset f f' id : valid f → 0 ≤ id < 2 ^ 32 → fl_files f ⊆ fl_files f' → fl_files f' ⊆ {[id]} ∪ fl_files f →
  keepsLocks valid allocated f f'.
Proof. unfold keepsLocks, valid, allocated. intros Hv Hid H1 H2. set_solver. Qed.

Lemma takes_insert f f' id : valid f → 0 ≤ id < 2 ^ 32 → id ∉ fl_files f → fl_files f' = {[id]} ∪ fl_files f →
  takes valid allocated f id f'.
Proof. unfold takes, valid, allocated. intros Hv Hid Hn ->. split; [set_solver|]. split; [done|]. set_solver. Qed.

Lemma keeps_same f f' : valid f → fl_files f' = fl_files f → keepsLocks valid allocated f f'.
Proof. unfold keepsLocks, valid, allocated. by intros Hv ->. Qed.

Lemma LockFileLock_run id f r f' : LockFileLock id f = (r, f') → fl_files f ⊆ fl_files f' ∧ fl_files f' ⊆ {[id]} ∪ fl_files f.
Proof.
  unfold LockFileLock. unfold mbind at 1, st_bind at 1. destruct (checkValid f) as [[u|e] f1] eqn:Hc; apply checkValid_run in Hc as ->; [|intros [= <- <-]; set_solver].
  unfold mbind at 1, st_bind at 1. destruct (GetLockFile id f) as [[u'|e] f1] eqn:Hg; apply GetLockFile_run in Hg; [|by intros [= <- <-]].
  rewrite (st_bind_run _ _ f1 (fl_held f1) f1) by done. destruct (decide _); [by intros [= <- <-]|].
  unfold mbind, st_bind. destruct (openLock id f1) as [[u''|e] f2] eqn:Ho; apply openLock_run in Ho; intros [= <- <-]; simpl; set_solver.
Qed.

Lemma UnlockFileLock_run id f r f' : UnlockFileLock id f = (r, f') → fl_files f ⊆ fl_files f' ∧ fl_files f' ⊆ {[id]} ∪ fl_files f.
Proof.
  unfold UnlockFileLock. unfold mbind at 1, st_bind at 1. destruct (checkValid f) as [[u|e] f1] eqn:Hc; apply checkValid_run in Hc as ->; [|intros [= <- <-]; set_solver].
  unfold mbind at 1, st_bind at 1. destruct (GetLockFile id f) as [[u'|e] f1] eqn:Hg; apply GetLockFile_run in Hg; [|by intros [= <- <-]].
  rewrite (st_bind_run _ _ f1 (fl_held f1) f1) by done. destruct (decide _); by intros [= <- <-].
Qed.

#[export] Program Instance file_laws : ManagerLaws FileLocks := {| Locks.valid := valid; Locks.allocated := allocated |}.
Next Obligation.
  intros f r f' Hv. simpl. unfold AllocateLock, mbind, st_bind, gets. destruct (checkValid f) as [[u|e] f1] eqn:Hc; apply checkValid_run in Hc as ->.
  - intros Hr. apply allocateFrom_run in Hr; [|done]. destruct r as [id|e]; [|by apply keeps_same]. destruct Hr as (Hid & Hn & Hf). by apply takes_insert.
  - intros [= <- <-]. by apply keeps_same.
Qed.
Next Obligation.
  intros id f r f' Hv Hid. simpl. unfold AllocateAndRetrieveLock, AllocateGivenLock. rewrite st_bind_assoc. unfold mbind at 1, st_bind at 1.
  destruct (checkValid f) as [[u|e] f1] eqn:Hc; apply checkValid_run in Hc as ->; [|intros [= <- <-]; by apply keeps_same].
  unfold mbind, st_bind. destruct (createExclusive id f) as [[[u'|]|e] f1] eqn:Hx; apply createExclusive_run in Hx; intros [= <- <-].
  - split; [done|]. destruct Hx. by apply takes_insert.
  - destruct Hx as [_ ->]. by apply keeps_same.
  - apply keeps_same; [done|apply Hx].
Qed.
Next Obligation. intros id f r f' [= <- <-]. naive_solver. Qed.
Next Obligation. intros id f r f' Hv Hid Hr. apply LockFileLock_run in Hr as [H1 H2]. by apply (keeps_subset f f' id). Qed.
Next Obligation. intros id f r f' Hv Hid Hr. apply UnlockFileLock_run in Hr as [H1 H2]. by apply (keeps_subset f f' id). Qed.
Next Obligation.
  intros id f r f' Hv Hid. simpl. unfold DeallocateLock, mbind, st_bind, gets. destruct (checkValid f) as [[u|e] f1] eqn:Hc; apply checkValid_run in Hc as ->.
  - destruct (hostOk_run f) as (ok & f1 & -> & _ & _ & Hf & _). unfold frees, mayFree, valid, allocated in *.
    destruct (decide _) as [[Hin ->]|]; intros [= <- <-]; simpl; rewrite Hf; set_solver.
  - intros [= <- <-]. split; [done|]. naive_solver.
Qed.
Next Obligation.
  intros f r f' Hv. simpl. unfold DeallocateAllLocks. unfold mbind at 1, st_bind at 1.
  destruct (checkValid f) as [[u|e] f1] eqn:Hc; apply checkValid_run in Hc as ->; [|intros [= <- <-]; naive_solver].
  destruct (hostOk_run f) as (ok & f1 & Hh & _ & _ & Hf & _). rewrite (st_bind_run _ _ f (fl_exists f) f), (st_bind_run _ _ _ _ _ Hh) by done.
  unfold valid, allocated in *. destruct (fl_exists f && ok); [|intros [= <- <-]; rewrite Hf; naive_solver].
  rewrite (st_bind_run _ _ f1 (fl_files f1) f1) by done. destruct (removeFiles_run (elements (fl_files f1)) f1) as (b & f2 & Hr & Hsub & Hall).
  rewrite (st_bind_run _ _ _ _ _ Hr). rewrite Hf in Hsub, Hall. destruct b; intros [= <- <-]; (split; [set_solver|split; [set_solver|]]); [|done].
  intros _ i Hi. specialize (Hall eq_refl i Hi). set_solver.
Qed.

(** ** The search ends *)

Lemma size_initial (X : gset Z) n : (∀ j, 0 ≤ j < n → j ∈ X) → n ≤ Z.of_nat (size X).
Proof.
  intros HX. set (l := Z.of_nat <$> seq 0 (Z.to_nat n)).
  assert (list_to_set l ⊆ X) as Hsub%subseteq_size.
  { intros i Hi. apply elem_of_list_to_set in Hi. apply list_elem_of_fmap in Hi as (k & -> & Hk%elem_of_seq). apply HX. lia. }
  rewrite size_list_to_set in Hsub; [|apply (NoDup_fmap_2 Z.of_nat), NoDup_seq]. subst l. rewrite length_fmap, length_seq in Hsub. lia.
Qed.

Lemma allocateFrom_least fuel n f r f' : Z.of_nat (size (fl_files f)) < 2 ^ 32 → 0 ≤ n →
  (∀ j, 0 ≤ j < n → j ∈ fl_files f) → Z.of_nat (size (fl_files f)) < n + Z.of_nat fuel →
  allocateFrom fuel n f = (r, f') →
  match r with Ok id => ∀ j, 0 ≤ j < id → j ∈ fl_files f | Err e => e = FileError end.
Proof.
  intros Hsz. revert n. induction fuel as [|fuel IH]; intros n Hn Hall Hfuel; simpl.
  - pose proof (size_initial _ _ Hall). lia.
  - unfold mbind, st_bind. destruct (createExclusive n f) as [[[u|]|e] f1] eqn:Hc; apply createExclusive_run in Hc.
    + intros [= <- <-]. done.
    + destruct Hc as [Hin ->]. assert (∀ j, 0 ≤ j < n + 1 → j ∈ fl_files f) as Hall'.
      { intros j Hj. destruct (decide (j = n)) as [->|]; [done|]. apply Hall. lia. }
      pose proof (size_initial _ _ Hall'). unfold uint32. rewrite Z.mod_small by lia. apply IH; [lia|done|lia].
    + intros [= <- <-]. apply Hc.
Qed.

(** With a file for every number the search never ends. *)
Lemma allocateFrom_full fuel id f : 0 ≤ id < 2 ^ 32 → (∀ j, 0 ≤ j < 2 ^ 32 → j ∈ fl_files f) →
  ∃ n, allocateFrom fuel id f = (Err (LockBlocked n), f).
Proof.
  intros Hid Hall. revert id Hid. induction fuel as [|fuel IH]; intros id Hid; simpl; [by exists id|].
  rewrite (st_bind_run _ _ f None f); [apply IH; by apply Z.mod_pos_bound|].
  unfold createExclusive. rewrite (st_bind_run _ _ f (fl_files f) f) by done. by rewrite decide_True by auto.
Qed.

Lemma file_least f r f' : valid f → Z.of_nat (size (fl_files f)) < 2 ^ 32 → AllocateLock f = (r, f') →
  match r with Ok id => ∀ j, 0 ≤ j < id → allocated f j | Err e => e = LocksClosed ∨ e = FileError end.
Proof.
  intros Hv Hsz. unfold AllocateLock. unfold mbind at 1, st_bind at 1. unfold checkValid. destruct (fl_valid f); [|intros [= <- <-]; by left].
  rewrite (st_bind_run _ _ f (fl_files f) f) by done. intros Hr. apply allocateFrom_least in Hr; [|done|done|lia|lia].
  destruct r; [done|by right].
Qed.

(** A lock that was freed and is locked once more has its file again: it is allocated, although
    no call has returned it. *)
Lemma lock_after_free f f1 f2 id : Free id f = (Ok (), f1) → Lock id f1 = (Ok (), f2) → ¬ allocated f1 id ∧ allocated f2 id.
Proof.
  intros Hf Hl. split.
  - simpl in Hf. unfold DeallocateLock in Hf. apply st_bind_Ok in Hf as (u & f0 & Hc & Hf). apply checkValid_run in Hc as ->.
    rewrite (st_bind_run _ _ f (fl_files f) f) in Hf by done. destruct (hostOk_run f) as (ok & f3 & Hh & _ & _ & Hfl & _).
    rewrite (st_bind_run _ _ _ _ _ Hh) in Hf. destruct (decide _); [|done]. injection Hf as <-. unfold allocated. simpl. set_solver.
  - simpl in Hl. unfold LockFileLock in Hl. apply st_bind_Ok in Hl as (u & f0 & _ & Hl). apply st_bind_Ok in Hl as (u' & f3 & _ & Hl).
    rewrite (st_bind_run _ _ f3 (fl_held f3) f3) in Hl by done. destruct (decide _); [done|]. apply st_bind_Ok in Hl as (u'' & f4 & Ho & Hl).
    injection Hl as <-. unfold openLock in Ho. destruct (hostOk_run f3) as (ok & f5 & Hh & _). rewrite (st_bind_run _ _ _ _ _ Hh) in Ho.
    destruct ok; [|done]. injection Ho as <-. unfold allocated. simpl. set_solver.
Qed.
