(* ===== verification/LocksShm.v ===== *)
(** * LocksShm: the lock manager in shared memory

    [libpod/lock/shm/shm_lock.c] with its header, [libpod/lock/shm/shm_lock.go] and
    [libpod/lock/shm_lock_manager_linux.go].  The segment has bitmaps of 32 bits, one bit for each
    lock that is allocated, and a mutex for each lock.  The results of the next operations on
    mutexes are part of the state ([sh_codes], 0 or an error number; when none is left, they are
    0), and so are the mutexes that the caller holds.  The second part shows what the loops
    compute, in terms of the bit of each lock, and the laws of the interface. *)

From S2P Require Import Prelude Locks.

Local Open Scope Z_scope.

(** ** [shm_lock.c] *)

Definition BITMAP_SIZE : Z := 32.
Definition MAGIC : Z := 0x87D1.
Definition EPERM : Z := 1.
Definition ENOENT : Z := 2.
Definition EBADF : Z := 9.
Definition EFAULT : Z := 14.
Definition EEXIST : Z := 17.
Definition EINVAL : Z := 22.
Definition ENOSPC : Z := 28.
Definition ERANGE : Z := 34.

Record shm_struct : Type := mkShm {
  sh_magic : Z;
  sh_num_bitmaps : Z;
  sh_num_locks : Z;
  sh_bitmaps : list Z;
  sh_held : gset Z;
  sh_codes : list Z }.

Definition set_bitmaps v s := mkShm (sh_magic s) (sh_num_bitmaps s) (sh_num_locks s) v (sh_held s) (sh_codes s).
Definition set_sh_held v s := mkShm (sh_magic s) (sh_num_bitmaps s) (sh_num_locks s) (sh_bitmaps s) v (sh_codes s).
Definition set_codes v s := mkShm (sh_magic s) (sh_num_bitmaps s) (sh_num_locks s) (sh_bitmaps s) (sh_held s) v.

(** The number of bitmaps, rounded up *)
Definition numBitmaps (num_locks : Z) : Z :=
  num_locks / BITMAP_SIZE + (if decide (num_locks mod BITMAP_SIZE = 0) then 0 else 1).

(** [errno] is the error of the first system call that fails.  The product is computed with 64
    bits and stored with 32. *)
Definition setup_lock_shm (num_locks : Z) (errno : option Z) : result Z shm_struct :=
  if decide (num_locks = 0) then Err (- EINVAL)
  else match errno with
       | Some e => Err (- e)
       | None =>
           let num_bitmaps := numBitmaps num_locks in
           Ok (mkShm MAGIC num_bitmaps (uint32 (num_bitmaps * BITMAP_SIZE)) (replicate (Z.to_nat num_bitmaps) 0) ∅ [])
       end.

(** [shm] is the segment that exists, or the error of the system. *)
Definition open_lock_shm (num_locks : Z) (shm : result Z shm_struct) : result Z shm_struct :=
  if decide (num_locks = 0) then Err (- EINVAL)
  else match shm with
       | Err e => Err (- e)
       | Ok shm =>
           if decide (sh_magic shm ≠ MAGIC) then Err (- EBADF)
           else if decide (sh_num_locks shm ≠ numBitmaps num_locks * BITMAP_SIZE) then Err (- ERANGE)
           else Ok shm
       end.

Abbreviation C A := (shm_struct → A * shm_struct).

(** [take_mutex] and [release_mutex] on the mutex of the segment *)
Definition mutexCode : C Z := λ s,
  match sh_codes s with [] => (0, s) | code :: l => (code, set_codes l s) end.

(** The loop over the bits of a bitmap; [test_map] is shifted out after 32 rounds. *)
Fixpoint findZero (fuel : nat) (test_map num_within_bitmap bitmap : Z) : option (Z * Z) :=
  match fuel with
  | O => None
  | S fuel =>
      if decide (test_map = 0) then None
      else if decide (Z.land test_map bitmap = 0) then Some (test_map, num_within_bitmap)
      else findZero fuel (uint32 (Z.shiftl test_map 1)) (num_within_bitmap + 1) bitmap
  end.

(** The loop over the bitmaps from the number [i] *)
Fixpoint scanBitmaps (i : Z) (bitmaps : list Z) : option (Z * list Z) :=
  match bitmaps with
  | [] => None
  | bitmap :: bitmaps =>
      let next := (λ '(sem_number, l), (sem_number, bitmap :: l)) <$> scanBitmaps (i + 1) bitmaps in
      if decide (bitmap ≠ 0xFFFFFFFF) then
        match findZero 33 1 0 bitmap with
        | Some (test_map, n) => Some (BITMAP_SIZE * i + n, Z.lor bitmap test_map :: bitmaps)
        | None => next
        end
      else next
  end.

(** The mutex is released, and its error goes before the result. *)
Definition releaseWith (result : Z) : C Z := λ s,
  let '(ret_code, s) := mutexCode s in if decide (ret_code ≠ 0) then (- ret_code, s) else (result, s).

(** A negative number is an error. *)
Definition allocate_semaphore : C Z := λ s,
  let '(ret_code, s) := mutexCode s in
  if decide (ret_code ≠ 0) then (- ret_code, s)
  else match scanBitmaps 0 (sh_bitmaps s) with
       | Some (sem_number, bitmaps) => releaseWith sem_number (set_bitmaps bitmaps s)
       | None => releaseWith (- ENOSPC) s
       end.

(** The common part of [allocate_given_semaphore] and [deallocate_semaphore]: the mutex is taken
    around the test and the change of one bit; [change] gives the error or the new bitmap. *)
Definition withBitmap (sem_index : Z) (change : Z → Z → result Z Z) : C Z := λ s,
  if decide (sh_num_locks s ≤ sem_index) then (- EINVAL, s)
  else
    let bitmap_index := sem_index / BITMAP_SIZE in
    if decide (sh_num_bitmaps s ≤ bitmap_index) then (- EFAULT, s)
    else
      let test_map := Z.shiftl 1 (sem_index mod BITMAP_SIZE) in
      let '(ret_code, s) := mutexCode s in
      if decide (ret_code ≠ 0) then (- ret_code, s)
      else match change test_map (default 0 (sh_bitmaps s !! Z.to_nat bitmap_index)) with
           | Err e => releaseWith (- e) s
           | Ok bitmap => releaseWith 0 (set_bitmaps (<[Z.to_nat bitmap_index := bitmap]> (sh_bitmaps s)) s)
           end.

Definition allocate_given_semaphore (sem_index : Z) : C Z :=
  withBitmap sem_index (λ test_map bitmap, if decide (Z.land test_map bitmap ≠ 0) then Err EEXIST else Ok (Z.lor bitmap test_map)).

(** The inverted mask has 32 bits. *)
Definition deallocate_semaphore (sem_index : Z) : C Z :=
  withBitmap sem_index (λ test_map bitmap,
    if decide (Z.land test_map bitmap = 0) then Err ENOENT else Ok (Z.land bitmap (uint32 (Z.lnot test_map)))).

Definition deallocate_all_semaphores : C Z := λ s,
  let '(ret_code, s) := mutexCode s in
  if decide (ret_code ≠ 0) then (- ret_code, s) else releaseWith 0 (set_bitmaps (const 0 <$> sh_bitmaps s) s).

(** The mutex of a lock, which need not be allocated.  The mutexes are robust: unlocking one
    that the caller does not hold is [EPERM]. *)
Definition lock_semaphore (sem_index : Z) : C (result lockError Z) := λ s,
  if decide (sh_num_locks s ≤ sem_index) then (Ok (- EINVAL), s)
  else
    let '(ret_code, s) := mutexCode s in
    if decide (ret_code ≠ 0) then (Ok (- ret_code), s)
    else if decide (sem_index ∈ sh_held s) then (Err (LockBlocked sem_index), s)
    else (Ok 0, set_sh_held ({[sem_index]} ∪ sh_held s) s).

Definition unlock_semaphore (sem_index : Z) : C Z := λ s,
  if decide (sh_num_locks s ≤ sem_index) then (- EINVAL, s)
  else
    let '(ret_code, s) := mutexCode s in
    if decide (ret_code ≠ 0) then (- ret_code, s)
    else if decide (sem_index ∈ sh_held s) then (0, set_sh_held (sh_held s ∖ {[sem_index]}) s)
    else (- EPERM, s).

(** ** [shm_lock.go] *)

Record SHMLocks : Type := mkSHMLocks { sm_struct : shm_struct; sm_maxLocks : Z; sm_valid : bool }.

Definition CreateSHMLock (numLocks : Z) (errno : option Z) : result lockError SHMLocks :=
  if decide (numLocks = 0) then Err NoLocks
  else match setup_lock_shm numLocks errno with
       | Err code => Err (Errno (- code))
       | Ok s => Ok (mkSHMLocks s (sh_num_locks s) true)
       end.

(** The number of locks is the given one, and not the one of the segment. *)
Definition OpenSHMLock (numLocks : Z) (shm : result Z shm_struct) : result lockError SHMLocks :=
  if decide (numLocks = 0) then Err NoLocks
  else match open_lock_shm numLocks shm with
       | Err code => Err (Errno (- code))
       | Ok s => Ok (mkSHMLocks s numLocks true)
       end.

Definition shmCall {A} (f : C A) : LM SHMLocks A := λ m,
  let '(a, s) := f (sm_struct m) in (Ok a, mkSHMLocks s (sm_maxLocks m) (sm_valid m)).

Definition checkOpen : LM SHMLocks () := λ m, if sm_valid m then (Ok (), m) else (Err LocksClosed, m).

(** [munmap] is the error of unmapping the segment, or 0. *)
Definition Close (munmap : Z) : LM SHMLocks () :=
  _ ← checkOpen;
  _ ← modify (λ m, mkSHMLocks (sm_struct m) (sm_maxLocks m) false);
  if decide (munmap ≠ 0) then throw (Errno munmap) else mret ().

Definition AllocateSemaphore : LM SHMLocks Z :=
  _ ← checkOpen;
  retCode ← shmCall allocate_semaphore;
  max ← gets sm_maxLocks;
  if decide (retCode < 0) then throw (if decide (- retCode = ENOSPC) then ExceededNumLocks max else Errno (- retCode))
  else mret (uint32 retCode).

Definition retErr (retCode : Z) : LM SHMLocks () := if decide (retCode < 0) then throw (Errno (- retCode)) else mret ().

Definition AllocateGivenSemaphore (sem : Z) : LM SHMLocks () :=
  _ ← checkOpen;
  shmCall (allocate_given_semaphore sem) ≫= retErr.

Definition checkMax (sem : Z) : LM SHMLocks () :=
  max ← gets sm_maxLocks;
  if decide (max < sem) then throw (LockIDTooLarge sem) else mret ().

Definition DeallocateSemaphore (sem : Z) : LM SHMLocks () :=
  _ ← checkOpen;
  _ ← checkMax sem;
  shmCall (deallocate_semaphore sem) ≫= retErr.

Definition DeallocateAllSemaphores : LM SHMLocks () :=
  _ ← checkOpen;
  shmCall deallocate_all_semaphores ≫= retErr.

Definition LockSemaphore (sem : Z) : LM SHMLocks () :=
  _ ← checkOpen;
  _ ← checkMax sem;
  r ← shmCall (lock_semaphore sem);
  match r with Ok retCode => retErr retCode | Err e => throw e end.

Definition UnlockSemaphore (sem : Z) : LM SHMLocks () :=
  _ ← checkOpen;
  _ ← checkMax sem;
  shmCall (unlock_semaphore sem) ≫= retErr.

(** ** [SHMLockManager] *)

Definition checkID (id : Z) : LM SHMLocks () :=
  max ← gets sm_maxLocks;
  if decide (max ≤ id) then throw (LockIDTooLarge id) else mret ().

Definition AllocateAndRetrieveLock (id : Z) : LM SHMLocks Z :=
  _ ← checkID id;
  _ ← AllocateGivenSemaphore id;
  mret id.

Definition RetrieveLock (id : Z) : LM SHMLocks Z := _ ← checkID id; mret id.

#[export] Instance shm_manager : Manager SHMLocks := {|
  Locks.AllocateLock := AllocateSemaphore;
  Locks.RetrieveLock := RetrieveLock;
  Locks.AllocateAndRetrieveLock := AllocateAndRetrieveLock;
  Locks.FreeAllLocks := DeallocateAllSemaphores;
  Locks.Lock := LockSemaphore;
  Locks.Unlock := UnlockSemaphore;
  Locks.Free := DeallocateSemaphore |}.

(** ** The bitmaps of the shared-memory locks *)

(** ** Words of 32 bits *)

Definition word (b : Z) : Prop := 0 ≤ b < 2 ^ 32.

Lemma word_bits b : word b ↔ 0 ≤ b ∧ ∀ j, 32 ≤ j → Z.testbit b j = false.
Proof.
  unfold word. split.
  - intros Hb. split; [lia|]. intros j Hj. rewrite <- (Z.mod_small b (2 ^ 32)) by done. by apply Z.mod_pow2_bits_high.
  - intros [Hb Hj]. split; [done|]. destruct (Z.lt_ge_cases b (2 ^ 32)) as [|Hge]; [done|].
    assert (32 ≤ Z.log2 b) as Hl by (apply Z.log2_le_pow2; lia). specialize (Hj _ Hl). rewrite Z.bit_log2 in Hj by lia. done.
Qed.

Lemma full_word b : word b → (∀ j, 0 ≤ j < 32 → Z.testbit b j = true) → b = 0xFFFFFFFF.
Proof.
  intros [Hb Hhi]%word_bits Hlo. apply Z.bits_inj'. intros j Hj. change 0xFFFFFFFF with (Z.ones 32).
  destruct (Z.lt_ge_cases j 32); [rewrite Hlo, Z.ones_spec_low by lia; done|]. rewrite Hhi, Z.ones_spec_high by lia. done.
Qed.

Lemma full_word_bits j : 0 ≤ j < 32 → Z.testbit 0xFFFFFFFF j = true.
Proof. intros Hj. change 0xFFFFFFFF with (Z.ones 32). apply Z.ones_spec_low. lia. Qed.

Lemma land_bit k b : 0 ≤ k → Z.land (2 ^ k) b = 0 ↔ Z.testbit b k = false.
Proof.
  intros Hk. split.
  - intros Hz. apply (f_equal (λ z, Z.testbit z k)) in Hz. rewrite Z.land_spec, Z.pow2_bits_true, Z.bits_0 in Hz by done. done.
  - intros Hb. apply Z.bits_inj'. intros j Hj. rewrite Z.land_spec, Z.bits_0, Z.pow2_bits_eqb by done.
    destruct (Z.eqb_spec k j) as [->|]; [by rewrite Hb|done].
Qed.

Lemma set_bit b k j : 0 ≤ k → 0 ≤ j → Z.testbit (Z.lor b (2 ^ k)) j = bool_decide (j = k) || Z.testbit b j.
Proof.
  intros Hk Hj. rewrite Z.lor_spec, Z.pow2_bits_eqb by done. rewrite orb_comm. f_equal.
  case_bool_decide; [by apply Z.eqb_eq|]. apply Z.eqb_neq. lia.
Qed.

Lemma clear_bit b k j : 0 ≤ k → 0 ≤ j < 32 → Z.testbit (Z.land b (uint32 (Z.lnot (2 ^ k)))) j = bool_decide (j ≠ k) && Z.testbit b j.
Proof.
  intros Hk Hj. unfold uint32. rewrite Z.land_spec, Z.mod_pow2_bits_low, Z.lnot_spec, Z.pow2_bits_eqb by lia. rewrite andb_comm. f_equal.
  case_bool_decide; destruct (Z.eqb_spec k j); subst; simpl; done || lia.
Qed.

Lemma word_set_bit b k : word b → 0 ≤ k < 32 → word (Z.lor b (2 ^ k)).
Proof.
  intros [Hb Hh]%word_bits Hk. apply word_bits. split; [apply Z.lor_nonneg; split; [done|apply Z.pow_nonneg; lia]|].
  intros j Hj. rewrite set_bit, Hh by lia. rewrite bool_decide_eq_false_2 by lia. done.
Qed.

Lemma word_clear_bit b x : word b → word (Z.land b x).
Proof.
  intros [Hb Hh]%word_bits. apply word_bits. split; [apply Z.land_nonneg; by left|]. intros j Hj. by rewrite Z.land_spec, Hh.
Qed.

(** ** The search *)

Lemma shift_mask k : 0 ≤ k < 32 → uint32 (Z.shiftl (uint32 (2 ^ k)) 1) = uint32 (2 ^ (k + 1)).
Proof.
  intros Hk. unfold uint32. rewrite (Z.mod_small (2 ^ k)). { rewrite Z.shiftl_mul_pow2, <- Z.pow_add_r by lia. done. }
  split; [apply Z.pow_nonneg; lia|]. apply Z.pow_lt_mono_r; lia.
Qed.

Lemma mask_small k : 0 ≤ k < 32 → uint32 (2 ^ k) = 2 ^ k.
Proof. intros Hk. apply Z.mod_small. split; [apply Z.pow_nonneg; lia|]. apply Z.pow_lt_mono_r; lia. Qed.

Lemma findZero_spec fuel k b : 0 ≤ k ≤ 32 → Z.of_nat fuel + k = 33 →
  match findZero fuel (uint32 (2 ^ k)) k b with
  | Some (t, n) => k ≤ n < 32 ∧ t = 2 ^ n ∧ Z.testbit b n = false ∧ ∀ j, k ≤ j < n → Z.testbit b j = true
  | None => ∀ j, k ≤ j < 32 → Z.testbit b j = true
  end.
Proof.
  revert k. induction fuel as [|fuel IH]; intros k Hk Hf; [lia|]. simpl. destruct (decide (k = 32)) as [->|Hne].
  { rewrite decide_True by done. lia. }
  assert (0 < 2 ^ k) by (apply Z.pow_pos_nonneg; lia). rewrite decide_False by (rewrite mask_small; lia).
  destruct (decide (Z.land (uint32 (2 ^ k)) b = 0)) as [Hz|Hz]; rewrite mask_small, land_bit in Hz by lia.
  { rewrite mask_small by lia. split; [lia|]. split; [done|]. split; [done|]. lia. }
  rewrite shift_mask by lia. specialize (IH (k + 1) ltac:(lia) ltac:(lia)). apply not_false_is_true in Hz.
  assert (∀ m, (∀ j, k + 1 ≤ j < m → Z.testbit b j = true) → ∀ j, k ≤ j < m → Z.testbit b j = true) as Hext.
  { intros m Hm j Hj. destruct (decide (j = k)) as [->|]; [done|]. apply Hm. lia. }
  destruct (findZero fuel _ _ b) as [[t n]|]; [|by apply Hext]. destruct IH as (Hn & Ht & Hb & Hall).
  split; [lia|]. split; [done|]. split; [done|]. by apply Hext.
Qed.

(** The bit of a lock *)
Definition bit (bitmaps : list Z) (id : Z) : bool :=
  match bitmaps !! Z.to_nat (id / BITMAP_SIZE) with
  | Some bitmap => Z.testbit bitmap (id mod BITMAP_SIZE)
  | None => false
  end.

Lemma bit_cons b l x : 0 ≤ x → bit (b :: l) x = if decide (x < 32) then Z.testbit b x else bit l (x - 32).
Proof.
  intros Hx. unfold bit, BITMAP_SIZE. destruct (decide (x < 32)) as [Hlt|Hge].
  - rewrite Z.div_small, Z.mod_small by lia. done.
  - assert (x / 32 = (x - 32) / 32 + 1 ∧ x mod 32 = (x - 32) mod 32) as [-> ->] by (Z.div_mod_to_equations; lia).
    assert (0 ≤ (x - 32) / 32) by (apply Z.div_pos; lia). by replace (Z.to_nat ((x - 32) / 32 + 1)) with (S (Z.to_nat ((x - 32) / 32))) by lia.
Qed.

Lemma bit_insert l n b x : (n < length l)%nat → 0 ≤ x →
  bit (<[n := b]> l) x = if decide (Z.to_nat (x / BITMAP_SIZE) = n) then Z.testbit b (x mod BITMAP_SIZE) else bit l x.
Proof.
  intros Hn Hx. unfold bit. destruct (decide _) as [<-|Hne]; [by rewrite list_lookup_insert_eq|]. by rewrite list_lookup_insert_ne.
Qed.

Lemma bit_range l x : 0 ≤ x → bit l x = true → x < 32 * Z.of_nat (length l).
Proof.
  unfold bit, BITMAP_SIZE. intros Hx. destruct (l !! Z.to_nat (x / 32)) as [b|] eqn:Hl; [|done]. intros _. apply lookup_lt_Some in Hl.
  pose proof (Z.mod_pos_bound x 32). pose proof (Z.div_mod x 32). lia.
Qed.

(** [id] is the least lock whose bit is not set, counted from [i] words on, and the new
    bitmaps have that bit in addition. *)
Definition setsLeast (i : Z) (l : list Z) (id : Z) (l' : list Z) : Prop :=
  let n := id - 32 * i in
  0 ≤ n < 32 * Z.of_nat (length l) ∧ bit l n = false ∧ (∀ j, 0 ≤ j < n → bit l j = true) ∧
  length l' = length l ∧ Forall word l' ∧ ∀ j, 0 ≤ j → bit l' j = bool_decide (j = n) || bit l j.

Lemma scanBitmaps_spec l i : Forall word l →
  match scanBitmaps i l with
  | Some (id, l') => setsLeast i l id l'
  | None => ∀ j, 0 ≤ j < 32 * Z.of_nat (length l) → bit l j = true
  end.
Proof.
  intros Hl. revert i. induction Hl as [|b l Hb Hl IH]; intros i; cbn [scanBitmaps]; [simpl; lia|].
  set (next := (λ '(sem_number, l), (sem_number, b :: l)) <$> scanBitmaps (i + 1) l).
  assert ((∀ j, 0 ≤ j < 32 → Z.testbit b j = true) →
    match next with Some (id, l') => setsLeast i (b :: l) id l' | None => ∀ j, 0 ≤ j < 32 * Z.of_nat (length (b :: l)) → bit (b :: l) j = true end) as Hnext.
  { intros Hfull. subst next. specialize (IH (i + 1)). destruct (scanBitmaps (i + 1) l) as [[id l']|]; simpl.
    - destruct IH as (Hn & Hz & Hall & Hlen & Hw & Hbits). split; [simpl; lia|]. assert (0 ≤ id - 32 * i - 32) by lia. split_and!.
      + rewrite bit_cons, decide_False by lia. by replace (id - 32 * i - 32) with (id - 32 * (i + 1)) by lia.
      + intros j Hj. rewrite bit_cons by lia. destruct (decide (j < 32)); [apply Hfull; lia|]. apply Hall. lia.
      + simpl. by rewrite Hlen.
      + by constructor.
      + intros j Hj. rewrite !bit_cons by lia. destruct (decide (j < 32)); [rewrite bool_decide_eq_false_2 by lia; done|].
        rewrite Hbits by lia. f_equal. apply bool_decide_ext. lia.
    - intros j Hj. rewrite bit_cons by lia. destruct (decide (j < 32)); [apply Hfull; lia|]. apply IH. simpl in Hj. lia. }
  destruct (decide (b ≠ 0xFFFFFFFF)) as [Hne|Heq]; [|apply dec_stable in Heq as ->; apply Hnext; exact full_word_bits].
  pose proof (findZero_spec 33 0 b ltac:(lia) ltac:(lia)) as Hf. change (uint32 (2 ^ 0)) with 1 in Hf.
  destruct (findZero 33 1 0 b) as [[t n]|]; [|by destruct Hne; apply full_word].
  destruct Hf as (Hn & -> & Hz & Hall). unfold setsLeast, BITMAP_SIZE. replace (32 * i + n - 32 * i) with n by lia. split; [simpl; lia|]. split_and!.
  - rewrite bit_cons, decide_True by lia. done.
  - intros j Hj. rewrite bit_cons, decide_True by lia. apply Hall. lia.
  - done.
  - constructor; [apply word_set_bit; [done|lia]|done].
  - intros j Hj. rewrite !bit_cons by lia. destruct (decide (j < 32)); [apply set_bit; lia|]. rewrite bool_decide_eq_false_2 by lia. done.
Qed.

(** ** The laws *)

Definition bitOf (m : SHMLocks) : Z → bool := bit (sh_bitmaps (sm_struct m)).

Definition allocated (m : SHMLocks) (id : Z) : Prop := 0 ≤ id ∧ bitOf m id = true.

Record validShm (s : shm_struct) : Prop := {
  valid_words : Forall word (sh_bitmaps s);
  valid_count : Z.of_nat (length (sh_bitmaps s)) = sh_num_bitmaps s;
  valid_locks : sh_num_locks s ≤ 32 * sh_num_bitmaps s;
  valid_range : 32 * sh_num_bitmaps s ≤ 2 ^ 32;
  valid_codes : Forall (λ c, 0 ≤ c) (sh_codes s) }.

Definition valid (m : SHMLocks) : Prop := validShm (sm_struct m).

(** A step on the segment that keeps it valid and leaves its size and its bitmaps; the error
    codes are consumed. *)
Definition sameBits (s s' : shm_struct) : Prop :=
  sh_bitmaps s' = sh_bitmaps s ∧ sh_num_bitmaps s' = sh_num_bitmaps s ∧ sh_num_locks s' = sh_num_locks s.

Lemma mutexCode_run s : validShm s → ∃ code s', mutexCode s = (code, s') ∧ 0 ≤ code ∧ validShm s' ∧ sameBits s s'.
Proof.
  intros [Hw Hc Hl Hr Hcodes]. unfold mutexCode. destruct (sh_codes s) as [|code l] eqn:Hs.
  - exists 0, s. split_and!; try done. split; try done. by rewrite Hs.
  - apply Forall_cons in Hcodes as [Hcode Hcodes]. exists code, (set_codes l s). split_and!; done.
Qed.

(** Releasing the mutex returns the result or a negative error, and changes no bit. *)
Lemma releaseWith_run x s : validShm s → ∃ r s', releaseWith x s = (r, s') ∧ (r = x ∨ r < 0) ∧ validShm s' ∧ sameBits s s'.
Proof.
  intros Hv. unfold releaseWith. destruct (mutexCode_run s Hv) as (code & s1 & -> & Hcode & Hv1 & Hs).
  destruct (decide (code ≠ 0)); eexists _, _; (split; [done|]); split_and!; auto. right. lia.
Qed.

Lemma validShm_bitmaps s l : validShm s → length l = length (sh_bitmaps s) → Forall word l → validShm (set_bitmaps l s).
Proof. intros [Hw Hc Hl Hr Hcodes] Hlen Hl'. split; simpl; try done. by rewrite Hlen. Qed.

(** [allocate_semaphore] *)
Lemma allocate_semaphore_run s : validShm s → ∃ r s', allocate_semaphore s = (r, s') ∧ validShm s' ∧ sh_num_bitmaps s' = sh_num_bitmaps s ∧
  sh_num_locks s' = sh_num_locks s ∧
  if decide (r < 0)
  then (∀ j, 0 ≤ j → bit (sh_bitmaps s) j = true → bit (sh_bitmaps s') j = true) ∧
       (sh_codes s = [] → r = - ENOSPC ∧ s' = s ∧ ∀ j, 0 ≤ j < 32 * sh_num_bitmaps s → bit (sh_bitmaps s) j = true)
  else setsLeast 0 (sh_bitmaps s) r (sh_bitmaps s').
Proof.
  intros Hv. unfold allocate_semaphore. destruct (mutexCode_run s Hv) as (code & s1 & Hm & Hcode & Hv1 & Hb1 & Hn1 & Hl1). rewrite Hm.
  destruct (decide (code ≠ 0)) as [Hne|Heq].
  { eexists _, _. split; [done|]. rewrite decide_True by lia. split_and!; try done.
    - intros j Hj. by rewrite Hb1.
    - intros Hc. unfold mutexCode in Hm. rewrite Hc in Hm. congruence. }
  rewrite Hb1. pose proof (scanBitmaps_spec (sh_bitmaps s) 0 (valid_words s Hv)) as Hscan.
  destruct (scanBitmaps 0 (sh_bitmaps s)) as [[id l']|].
  - pose proof Hscan as (Hid & _ & _ & Hlen & Hw & Hbits). assert (validShm (set_bitmaps l' s1)) as Hv2 by (apply validShm_bitmaps; [done|by rewrite Hb1|done]).
    destruct (releaseWith_run id _ Hv2) as (r & s2 & Hrel & Hr & Hv3 & Hb3 & Hn3 & Hl3). exists r, s2.
    split; [done|]. split; [done|]. split; [simpl in *; congruence|]. split; [simpl in *; congruence|]. simpl in Hb3. rewrite Hb3.
    destruct (decide (r < 0)) as [Hneg|Hpos]; [|destruct Hr as [->|]; [done|lia]]. split.
    + intros j Hj Hbit. by rewrite Hbits, Hbit, orb_true_r.
    + intros Hc. exfalso. unfold mutexCode in Hm. rewrite Hc in Hm. injection Hm as <- <-. unfold releaseWith, mutexCode in Hrel. simpl in Hrel.
      rewrite Hc in Hrel. simpl in Hrel. injection Hrel as <- <-. lia.
  - destruct (releaseWith_run (- ENOSPC) _ Hv1) as (r & s2 & Hrel & Hr & Hv3 & Hb3 & Hn3 & Hl3). exists r, s2.
    split; [done|]. split; [done|]. split; [congruence|]. split; [congruence|]. rewrite decide_True by (unfold ENOSPC in *; lia). split.
    + intros j Hj. by rewrite Hb3, Hb1.
    + intros Hc. unfold mutexCode in Hm. rewrite Hc in Hm. injection Hm as <- <-. unfold releaseWith, mutexCode in Hrel.
      rewrite Hc in Hrel. simpl in Hrel. injection Hrel as <- <-. rewrite <- (valid_count s Hv). done.
Qed.

(** The operations on one bit *)
Lemma withBitmap_run id change s : validShm s → 0 ≤ id →
  (∀ t b e, change t b = Err e → 0 < e) → (∀ b b', word b → change (2 ^ (id mod 32)) b = Ok b' → word b') →
  ∃ r s', withBitmap id change s = (r, s') ∧ validShm s' ∧ r ≤ 0 ∧ sh_num_locks s' = sh_num_locks s ∧
    (r < 0 ∧ sameBits s s' ∨
     ∃ b b', id < 32 * sh_num_bitmaps s ∧ sh_bitmaps s !! Z.to_nat (id / 32) = Some b ∧ change (2 ^ (id mod 32)) b = Ok b' ∧
       sh_bitmaps s' = <[Z.to_nat (id / 32) := b']> (sh_bitmaps s)).
Proof.
  intros Hv Hid Herr Hok. pose proof (Z.mod_pos_bound id 32 ltac:(lia)) as Hmod. pose proof (Z.div_pos id 32 Hid ltac:(lia)) as Hdiv.
  unfold withBitmap, BITMAP_SIZE. destruct (decide (sh_num_locks s ≤ id)) as [Hle|Hgt].
  { eexists _, _. split; [done|]. split_and!; try done. left. done. }
  destruct (decide (sh_num_bitmaps s ≤ id / 32)) as [Hle|Hlt].
  { eexists _, _. split; [done|]. split_and!; try done. left. done. }
  destruct (mutexCode_run s Hv) as (code & s1 & -> & Hcode & Hv1 & Hs1). destruct (decide (code ≠ 0)).
  { eexists _, _. split; [done|]. pose proof Hs1 as (_ & _ & ?). split_and!; try done; [lia|]. left. split; [lia|done]. }
  destruct Hs1 as (Hb1 & Hn1 & Hl1). rewrite Hb1, Z.shiftl_1_l.
  destruct (lookup_lt_is_Some_2 (sh_bitmaps s) (Z.to_nat (id / 32))) as [b Hb]; [pose proof (valid_count s Hv); lia|]. rewrite Hb. simpl.
  destruct (change (2 ^ (id mod 32)) b) as [b'|e] eqn:Hch.
  - assert (validShm (set_bitmaps (<[Z.to_nat (id / 32) := b']> (sh_bitmaps s)) s1)) as Hv2.
    { apply validShm_bitmaps; [done|by rewrite length_insert, Hb1|]. apply Forall_insert; [apply (valid_words s Hv)|].
      apply (Hok b b'); [|done]. eapply Forall_lookup_1; [apply (valid_words s Hv)|done]. }
    destruct (releaseWith_run 0 _ Hv2) as (r & s2 & -> & Hr & Hv3 & Hb3 & Hn3 & Hl3). exists r, s2. split; [done|]. split; [done|].
    split; [lia|]. split; [simpl in *; congruence|]. right. exists b, b'. split; [Z.div_mod_to_equations; lia|]. done.
  - pose proof (Herr _ _ _ Hch). destruct (releaseWith_run (- e) _ Hv1) as (r & s2 & -> & Hr & Hv3 & Hb3 & Hn3 & Hl3). exists r, s2.
    split; [done|]. split; [done|]. split; [lia|]. split; [congruence|]. left. split; [lia|]. unfold sameBits. split_and!; congruence.
Qed.

(** The bits after one word has changed *)
Lemma bit_update l id b' j : 0 ≤ id → (Z.to_nat (id / 32) < length l)%nat → 0 ≤ j →
  bit (<[Z.to_nat (id / 32) := b']> l) j = if decide (j / 32 = id / 32) then Z.testbit b' (j mod 32) else bit l j.
Proof.
  intros Hid Hlt Hj. rewrite bit_insert by done. unfold BITMAP_SIZE. pose proof (Z.div_pos id 32 Hid ltac:(lia)). pose proof (Z.div_pos j 32 Hj ltac:(lia)).
  destruct (decide (j / 32 = id / 32)) as [E|E]; [rewrite decide_True by lia; done|]. rewrite decide_False by lia. done.
Qed.

Lemma same_index i j : i / 32 = j / 32 → i = j ↔ i mod 32 = j mod 32.
Proof. intros Hd. pose proof (Z.div_mod i 32 ltac:(lia)). pose proof (Z.div_mod j 32 ltac:(lia)). split; [by intros ->|]. lia. Qed.

Lemma bit_lookup l id b : l !! Z.to_nat (id / 32) = Some b → bit l id = Z.testbit b (id mod 32).
Proof. intros Hb. unfold bit, BITMAP_SIZE. by rewrite Hb. Qed.

Lemma bit_set_update l id b j : 0 ≤ id → l !! Z.to_nat (id / 32) = Some b → 0 ≤ j →
  bit (<[Z.to_nat (id / 32) := Z.lor b (2 ^ (id mod 32))]> l) j = bool_decide (j = id) || bit l j.
Proof.
  intros Hid Hb Hj. rewrite bit_update by (done || by apply lookup_lt_Some in Hb). pose proof (Z.mod_pos_bound id 32 ltac:(lia)). pose proof (Z.mod_pos_bound j 32 ltac:(lia)).
  destruct (decide (j / 32 = id / 32)) as [E|E].
  - rewrite set_bit by lia. rewrite (bit_lookup l j b) by (by rewrite E). f_equal. apply bool_decide_ext. symmetry. by apply same_index.
  - rewrite bool_decide_eq_false_2; [done|]. by intros ->.
Qed.

Lemma bit_clear_update l id b j : 0 ≤ id → l !! Z.to_nat (id / 32) = Some b → 0 ≤ j →
  bit (<[Z.to_nat (id / 32) := Z.land b (uint32 (Z.lnot (2 ^ (id mod 32))))]> l) j = bool_decide (j ≠ id) && bit l j.
Proof.
  intros Hid Hb Hj. rewrite bit_update by (done || by apply lookup_lt_Some in Hb). pose proof (Z.mod_pos_bound id 32 ltac:(lia)). pose proof (Z.mod_pos_bound j 32 ltac:(lia)).
  destruct (decide (j / 32 = id / 32)) as [E|E].
  - rewrite clear_bit by lia. rewrite (bit_lookup l j b) by (by rewrite E). f_equal. apply bool_decide_ext. apply not_iff_compat. symmetry. by apply same_index.
  - rewrite bool_decide_eq_true_2; [done|]. by intros ->.
Qed.

(** [allocate_given_semaphore] and [deallocate_semaphore] *)
Lemma allocate_given_run id s : validShm s → 0 ≤ id → ∃ r s', allocate_given_semaphore id s = (r, s') ∧ validShm s' ∧ r ≤ 0 ∧
  (r < 0 ∧ sameBits s s' ∨ bit (sh_bitmaps s) id = false ∧ id < 2 ^ 32 ∧ ∀ j, 0 ≤ j → bit (sh_bitmaps s') j = bool_decide (j = id) || bit (sh_bitmaps s) j).
Proof.
  intros Hv Hid. pose proof (Z.mod_pos_bound id 32 ltac:(lia)). unfold allocate_given_semaphore.
  edestruct (withBitmap_run id) as (r & s' & Hr & Hv' & Hneg & _ & Hcase); [exact Hv|exact Hid|..]; [| |exists r, s'; split; [exact Hr|]].
  - intros t b e. simpl. destruct (decide _); [by intros [= <-]|done].
  - intros b b' Hb. simpl. destruct (decide _); [done|]. intros [= <-]. apply word_set_bit; [done|lia].
  - split; [done|]. split; [done|]. destruct Hcase as [?|(b & b' & Hlt & Hb & Hch & Hbits)]; [by left|right].
    simpl in Hch. destruct (decide _) as [|Hz]; [done|]. apply dec_stable in Hz. injection Hch as <-. rewrite land_bit in Hz by lia.
    split; [by rewrite (bit_lookup _ _ b)|]. split; [pose proof (valid_range s Hv); lia|]. intros j Hj. rewrite Hbits. by apply bit_set_update.
Qed.

Lemma deallocate_run id s : validShm s → 0 ≤ id → ∃ r s', deallocate_semaphore id s = (r, s') ∧ validShm s' ∧ r ≤ 0 ∧
  (r < 0 ∧ sameBits s s' ∨ bit (sh_bitmaps s) id = true ∧ ∀ j, 0 ≤ j → bit (sh_bitmaps s') j = bool_decide (j ≠ id) && bit (sh_bitmaps s) j).
Proof.
  intros Hv Hid. pose proof (Z.mod_pos_bound id 32 ltac:(lia)). unfold deallocate_semaphore.
  edestruct (withBitmap_run id) as (r & s' & Hr & Hv' & Hneg & _ & Hcase); [exact Hv|exact Hid|..]; [| |exists r, s'; split; [exact Hr|]].
  - intros t b e. simpl. destruct (decide _); [by intros [= <-]|done].
  - intros b b' Hb. simpl. destruct (decide _); [done|]. intros [= <-]. by apply word_clear_bit.
  - split; [done|]. split; [done|]. destruct Hcase as [?|(b & b' & Hlt & Hb & Hch & Hbits)]; [by left|right].
    simpl in Hch. destruct (decide _) as [|Hz]; [done|]. injection Hch as <-. rewrite land_bit in Hz by lia. apply not_false_is_true in Hz.
    split; [by rewrite (bit_lookup _ _ b)|]. intros j Hj. rewrite Hbits. by apply bit_clear_update.
Qed.

Lemma bit_zeros (l : list Z) j : bit (const 0 <$> l) j = false.
Proof. unfold bit. destruct ((const 0 <$> l) !! Z.to_nat (j / BITMAP_SIZE)) as [b|] eqn:Hl; [|done]. apply list_lookup_fmap_Some in Hl as (x & -> & _). apply Z.bits_0. Qed.

Lemma deallocate_all_run s : validShm s → ∃ r s', deallocate_all_semaphores s = (r, s') ∧ validShm s' ∧ r ≤ 0 ∧
  (r < 0 ∧ sameBits s s' ∨ ∀ j, bit (sh_bitmaps s') j = false).
Proof.
  intros Hv. unfold deallocate_all_semaphores. destruct (mutexCode_run s Hv) as (code & s1 & -> & Hcode & Hv1 & Hs1).
  destruct (decide (code ≠ 0)). { eexists _, _. split; [done|]. split; [done|]. split; [lia|]. left. split; [lia|done]. }
  assert (validShm (set_bitmaps (const 0 <$> sh_bitmaps s1) s1)) as Hv2.
  { apply validShm_bitmaps; [done|by rewrite length_fmap|]. apply Forall_forall. intros x Hx. apply list_elem_of_fmap in Hx as (y & -> & _). done. }
  destruct (releaseWith_run 0 _ Hv2) as (r & s2 & -> & Hr & Hv3 & Hb3 & _). exists r, s2. split; [done|]. split; [done|]. split; [lia|].
  right. intros j. rewrite Hb3. apply bit_zeros.
Qed.

(** Locking and unlocking change no bit. *)
Lemma lock_semaphore_run id s : validShm s → ∃ r s', lock_semaphore id s = (r, s') ∧ validShm s' ∧ sameBits s s'.
Proof.
  intros Hv. unfold lock_semaphore. destruct (decide _); [by eexists _, _|]. destruct (mutexCode_run s Hv) as (code & s1 & -> & _ & Hv1 & Hs1).
  destruct (decide (code ≠ 0)); [by eexists _, _|]. destruct (decide _); eexists _, _; (split; [done|]); [done|]. split; [|done]. by destruct Hv1.
Qed.

Lemma unlock_semaphore_run id s : validShm s → ∃ r s', unlock_semaphore id s = (r, s') ∧ validShm s' ∧ sameBits s s'.
Proof.
  intros Hv. unfold unlock_semaphore. destruct (decide _); [by eexists _, _|]. destruct (mutexCode_run s Hv) as (code & s1 & -> & _ & Hv1 & Hs1).
  destruct (decide (code ≠ 0)); [by eexists _, _|]. destruct (decide _); eexists _, _; (split; [done|]); [|done]. split; [|done]. by destruct Hv1.
Qed.

(** *** From the C code to the Go code *)

Lemma checkOpen_run m r m' : checkOpen m = (r, m') → m' = m.
Proof. unfold checkOpen. destruct (sm_valid m); by intros [= _ <-]. Qed.
Lemma checkMax_run id m r m' : checkMax id m = (r, m') → m' = m.
Proof. unfold checkMax, mbind, st_bind, gets. destruct (decide _); by intros [= _ <-]. Qed.
Lemma checkID_run id m r m' : checkID id m = (r, m') → m' = m.
Proof. unfold checkID, mbind, st_bind, gets. destruct (decide _); by intros [= _ <-]. Qed.

(** A run of a guard [g] that changes nothing, followed by [k] *)
Lemma guarded_run {A} (g : LM SHMLocks ()) (k : LM SHMLocks A) m r m' :
  (∀ r m', g m = (r, m') → m' = m) → (g ≫= λ _, k) m = (r, m') → (∃ e, r = Err e ∧ m' = m) ∨ k m = (r, m').
Proof.
  intros Hg. unfold mbind, st_bind. destruct (g m) as [[u|e] m1] eqn:Hm; pose proof (Hg _ _ eq_refl) as ->; [by right|].
  intros [= <- <-]. left. eauto.
Qed.

Lemma shmCall_retErr (f : C Z) m r m' x s' : f (sm_struct m) = (x, s') → (shmCall f ≫= retErr) m = (r, m') →
  sm_struct m' = s' ∧ (r = Ok () ↔ 0 ≤ x).
Proof.
  intros Hf. unfold shmCall, retErr, mbind, st_bind. rewrite Hf. simpl. destruct (decide (x < 0)); intros [= <- <-]; (split; [done|]); split; done || lia.
Qed.

Lemma keeps_bits m m' : validShm (sm_struct m') → sameBits (sm_struct m) (sm_struct m') → keepsLocks valid allocated m m'.
Proof. intros Hv (Hb & _). split; [done|]. intros i [Hi Hbit]. split; [done|]. unfold bitOf in *. by rewrite Hb. Qed.

Lemma keeps_refl m : valid m → keepsLocks valid allocated m m.
Proof. intros Hv. by split. Qed.

Lemma takes_bits m m' id : validShm (sm_struct m') → 0 ≤ id < 2 ^ 32 → bitOf m id = false →
  (∀ j, 0 ≤ j → bitOf m' j = bool_decide (j = id) || bitOf m j) → takes valid allocated m id m'.
Proof.
  intros Hv Hid Hz Hbits. split; [done|]. split; [done|]. split; [intros [_ Ht]; congruence|].
  intros i. unfold allocated. split.
  - intros [Hi Hb]. rewrite Hbits in Hb by done. apply orb_true_iff in Hb as [Hb|Hb]; [left; by apply bool_decide_eq_true in Hb|by right].
  - intros [->|[Hi Hb]]; (split; [lia|]); rewrite Hbits by lia; apply orb_true_iff; [left; by apply bool_decide_eq_true|by right].
Qed.

(** *** [SHMLockManager] *)

Lemma AllocateSemaphore_run m r m' : valid m → AllocateSemaphore m = (r, m') →
  (∃ e, r = Err e) ∧ m' = m ∨
  valid m' ∧ match r with
  | Ok id => setsLeast 0 (sh_bitmaps (sm_struct m)) id (sh_bitmaps (sm_struct m'))
  | Err e => keepsLocks valid allocated m m' ∧ (sh_codes (sm_struct m) = [] →
      e = ExceededNumLocks (sm_maxLocks m) ∧ m' = m ∧ ∀ j, 0 ≤ j < 32 * sh_num_bitmaps (sm_struct m) → allocated m j)
  end.
Proof.
  intros Hv Hr. apply guarded_run in Hr as [(e & -> & ->)|Hr]; [left; eauto| |exact (checkOpen_run m)]. right.
  destruct (allocate_semaphore_run _ Hv) as (x & s' & Hx & Hv' & _ & _ & Hcase). unfold shmCall, mbind, st_bind in Hr. rewrite Hx in Hr. simpl in Hr.
  destruct (decide (x < 0)) as [Hneg|Hpos].
  - injection Hr as <- <-. split; [done|]. destruct Hcase as [Hkeep Hfull]. split.
    + split; [done|]. intros i [Hi Hb]. split; [done|]. by apply Hkeep.
    + intros Hc. destruct (Hfull Hc) as (-> & -> & Hall). split; [done|]. split; [by destruct m|]. intros j Hj. split; [lia|]. by apply Hall.
  - destruct Hcase as (Hn & Hrest). assert (uint32 x = x) as E.
    { apply Z.mod_small. pose proof (valid_range _ Hv). pose proof (valid_count _ Hv). lia. }
    rewrite E in Hr. injection Hr as <- <-. split; [done|]. by split.
Qed.

(** Without failing mutexes *)
Lemma AllocateSemaphore_open m r m' : valid m → sm_valid m = true → sh_codes (sm_struct m) = [] → AllocateSemaphore m = (r, m') →
  sm_maxLocks m' = sm_maxLocks m ∧
  match r with
  | Ok id =>
      0 ≤ id < 32 * sh_num_bitmaps (sm_struct m) ∧ bitOf m id = false ∧ (∀ j, 0 ≤ j < id → bitOf m j = true) ∧
      (∀ j, 0 ≤ j → bitOf m' j = bool_decide (j = id) || bitOf m j)
  | Err e => e = ExceededNumLocks (sm_maxLocks m) ∧ m' = m ∧ ∀ j, 0 ≤ j < 32 * sh_num_bitmaps (sm_struct m) → bitOf m j = true
  end.
Proof.
  intros Hv Ho Hc Hr. unfold AllocateSemaphore in Hr. rewrite (st_bind_run _ _ m () m) in Hr by (unfold checkOpen; by rewrite Ho).
  destruct (allocate_semaphore_run _ Hv) as (x & s' & Hx & _ & _ & _ & Hcase). unfold shmCall, mbind, st_bind in Hr. rewrite Hx in Hr. simpl in Hr.
  destruct (decide (x < 0)) as [Hneg|Hpos].
  - injection Hr as <- <-. split; [done|]. destruct Hcase as [_ Hfull]. destruct (Hfull Hc) as (-> & -> & Hall). split; [done|]. split; [by destruct m|done].
  - destruct Hcase as (Hn & Hz & Hall & _ & _ & Hbits). rewrite Z.mul_0_r, Z.sub_0_r in Hn, Hz, Hall, Hbits.
    pose proof (valid_range _ Hv). pose proof (valid_count _ Hv). unfold uint32 in Hr. rewrite Z.mod_small in Hr by lia. injection Hr as <- <-.
    split; [done|]. split; [lia|]. done.
Qed.

#[export] Program Instance shm_laws : ManagerLaws SHMLocks := {| Locks.valid := valid; Locks.allocated := allocated |}.
Next Obligation.
  intros m r m' Hv Hr. destruct (AllocateSemaphore_run m r m' Hv Hr) as [[[e ->] ->]|[Hv' Hcase]]; [by apply keeps_refl|].
  destruct r as [id|e]; [|apply Hcase]. destruct Hcase as (Hn & Hz & _ & _ & _ & Hbits). rewrite Z.mul_0_r, Z.sub_0_r in Hn, Hz.
  pose proof (valid_range _ Hv). pose proof (valid_count _ Hv). apply takes_bits; [done|lia|done|]. intros j Hj. unfold bitOf.
  rewrite (Hbits j Hj), Z.mul_0_r, Z.sub_0_r. done.
Qed.
Next Obligation.
  intros id m r m' Hv Hid Hr. apply guarded_run in Hr as [(e & -> & ->)|Hr]; [by apply keeps_refl| |exact (checkID_run id m)].
  unfold AllocateGivenSemaphore in Hr. rewrite st_bind_assoc in Hr. apply guarded_run in Hr as [(e & -> & ->)|Hr]; [by apply keeps_refl| |exact (checkOpen_run m)].
  destruct (allocate_given_run id _ Hv ltac:(lia)) as (x & s' & Hx & Hv' & Hneg & Hcase).
  destruct ((shmCall (allocate_given_semaphore id) ≫= retErr) m) as [ru m1] eqn:Hc. destruct (shmCall_retErr _ _ _ _ _ _ Hx Hc) as [Hs Hok].
  destruct ru as [[]|e].
  - rewrite (st_bind_run _ _ _ _ _ Hc) in Hr. injection Hr as <- <-. split; [done|]. destruct Hcase as [[Hlt _]|(Hz & Hlt & Hbits)]; [pose proof (proj1 Hok eq_refl); lia|].
    apply takes_bits; [by rewrite Hs|lia|done|]. intros j Hj. unfold bitOf. rewrite Hs. by apply Hbits.
  - rewrite (st_bind_run_err _ _ _ _ _ Hc) in Hr. injection Hr as <- <-. destruct Hcase as [[Hlt Hsame]|(Hz & Hlt & Hbits)].
    + apply keeps_bits; by rewrite Hs.
    + split; [unfold valid; by rewrite Hs|]. intros i [Hi Hb]. split; [done|]. unfold bitOf. rewrite Hs, Hbits by done. apply orb_true_iff. by right.
Qed.
Next Obligation.
  intros id m r m' Hr. apply guarded_run in Hr as [(e & -> & ->)|Hr]; [done| |exact (checkID_run id m)]. injection Hr as <- <-. naive_solver.
Qed.
Next Obligation.
  intros id m r m' Hv Hid Hr. apply guarded_run in Hr as [(e & -> & ->)|Hr]; [by apply keeps_refl| |exact (checkOpen_run m)].
  apply guarded_run in Hr as [(e & -> & ->)|Hr]; [by apply keeps_refl| |exact (checkMax_run id m)].
  destruct (lock_semaphore_run id _ Hv) as (x & s' & Hx & Hv' & Hs). unfold shmCall, mbind, st_bind in Hr. rewrite Hx in Hr.
  assert (sm_struct m' = s') as E. { destruct x as [c|e]; [unfold retErr in Hr; destruct (decide _)|]; by injection Hr as <- <-. }
  apply keeps_bits; by rewrite E.
Qed.
Next Obligation.
  intros id m r m' Hv Hid Hr. apply guarded_run in Hr as [(e & -> & ->)|Hr]; [by apply keeps_refl| |exact (checkOpen_run m)].
  apply guarded_run in Hr as [(e & -> & ->)|Hr]; [by apply keeps_refl| |exact (checkMax_run id m)].
  destruct (unlock_semaphore_run id _ Hv) as (x & s' & Hx & Hv' & Hs). destruct (shmCall_retErr _ _ _ _ _ _ Hx Hr) as [E _].
  apply keeps_bits; by rewrite E.
Qed.
Next Obligation.
  assert (∀ m id, valid m → mayFree valid allocated m id m) as Hrefl by (intros m id Hv; split; [done|auto]).
  intros id m r m' Hv Hid Hr. apply guarded_run in Hr as [(e & -> & ->)|Hr]; [by apply Hrefl| |exact (checkOpen_run m)].
  apply guarded_run in Hr as [(e & -> & ->)|Hr]; [by apply Hrefl| |exact (checkMax_run id m)].
  destruct (deallocate_run id _ Hv ltac:(lia)) as (x & s' & Hx & Hv' & Hneg & Hcase). destruct (shmCall_retErr _ _ _ _ _ _ Hx Hr) as [E Hok].
  destruct Hcase as [[Hlt (Hb & _)]|(Ht & Hbits)].
  - destruct r as [[]|e]; [pose proof (proj1 Hok eq_refl); lia|]. split; [unfold valid; by rewrite E|]. unfold allocated, bitOf. rewrite E, Hb. auto.
  - assert (∀ i, allocated m' i ↔ i ≠ id ∧ allocated m i) as Hfree.
    { intros i. unfold allocated, bitOf. rewrite E. split.
      - intros [Hi Hb]. rewrite Hbits in Hb by done. apply andb_true_iff in Hb as [Hb1 Hb2]. apply bool_decide_eq_true in Hb1. done.
      - intros (Hne & Hi & Hb). split; [done|]. rewrite Hbits by done. apply andb_true_iff. split; [by apply bool_decide_eq_true|done]. }
    assert (valid m') as Hvm by (unfold valid; by rewrite E). destruct r as [[]|e]; split; [done..|]. intros i. rewrite Hfree. naive_solver.
Qed.
Next Obligation.
  intros m r m' Hv Hr. apply guarded_run in Hr as [(e & -> & ->)|Hr]; [by split| |exact (checkOpen_run m)].
  destruct (deallocate_all_run _ Hv) as (x & s' & Hx & Hv' & Hneg & Hcase). destruct (shmCall_retErr _ _ _ _ _ _ Hx Hr) as [E Hok].
  split; [unfold valid; by rewrite E|]. unfold allocated, bitOf. rewrite E. destruct Hcase as [[Hlt (Hb & _)]|Hz].
  - rewrite Hb. split; [auto|]. intros Hu. pose proof (proj1 Hok Hu). lia.
  - split; [intros i [_ Ht]|intros _ i [_ Ht]]; rewrite Hz in Ht; done.
Qed.

(** ** Making the locks *)

Lemma CreateSHMLock_valid n m : 0 ≤ n < 2 ^ 32 → CreateSHMLock n None = Ok m →
  valid m ∧ sm_valid m = true ∧ sh_codes (sm_struct m) = [] ∧ ∀ id, ¬ allocated m id.
Proof.
  intros Hn. unfold CreateSHMLock, setup_lock_shm. destruct (decide (n = 0)); [done|]. intros [= <-].
  assert (0 ≤ numBitmaps n ∧ 32 * numBitmaps n ≤ 2 ^ 32) as [H0 H1].
  { unfold numBitmaps, BITMAP_SIZE. destruct (decide _); Z.div_mod_to_equations; lia. }
  split; [|split; [done|split; [done|]]].
  - split; simpl.
    + apply Forall_replicate. done.
    + rewrite length_replicate. lia.
    + unfold uint32, BITMAP_SIZE. pose proof (Z.mod_le (numBitmaps n * 32) (2 ^ 32)). lia.
    + done.
    + done.
  - intros id [_ Hb]. unfold bitOf, bit in Hb. simpl in Hb. destruct (replicate _ 0 !! _) as [b|] eqn:Hl; [|done].
    apply lookup_replicate in Hl as [-> _]. by rewrite Z.bits_0 in Hb.
Qed.
