(* ===== verification/Renumber.v ===== *)
(** * Renumber: renumbering the locks

    [Runtime.renumberLocks] ([libpod/runtime_renumber.go]), which gives every container, pod and
    volume a new lock.  It uses any lock manager through its interface, and the BoltDB state.
    The event it emits at the end is not modelled.  The second part has the objects that the
    listings return, the entry that each rewrite changes, and the loops.  The last part is the
    choice of the lock manager, [getLockManager] ([libpod/runtime.go]). *)

From S2P Require Import Prelude LocksFile LocksShm Define Bolt BoltTx BoltInternal BoltState Locks BoltInv BoltSafe BoltRename.

Local Open Scope Z_scope.

Inductive renumberError : Type :=
| LockFailure (e : lockError)
| StateFailure (e : error).

Definition cc_set_LockID (v : Z) (r : ContainerConfig) : ContainerConfig :=
  mkContainerConfig (cc_ID r) (cc_Name r) (cc_Pod r) (cc_Namespace r) v (cc_Dependencies r) (cc_rewrite r) (cc_NamedVolumes r) (cc_IPCNsCtr r) (cc_MountNsCtr r) (cc_NetNsCtr r) (cc_PIDNsCtr r) (cc_UserNsCtr r) (cc_UTSNsCtr r) (cc_CgroupNsCtr r) (cc_StaticIP r) (cc_StaticMAC r) (cc_PortMappings r) (cc_OldPortMappings r) (cc_Networks r) (cc_NetworksDeprecated r) (cc_NetMode r) (cc_StopTimeout r) (cc_RestartPolicy r) (cc_RestartRetries r) (cc_OCIRuntime r) (cc_IsInfra r) (cc_IsService r) (cc_InitContainerType r) (cc_NoCgroups r) (cc_CreateNetNS r) (cc_PostConfigureNetNS r) (cc_SpecNamespaces r) (cc_HealthCheckTest r) (cc_StartupHealthCheck r) (cc_Rootfs r) (cc_RootfsOverlay r) (cc_RootfsMapping r) (cc_Mounts r) (cc_ImageVolumes r) (cc_StopSignal r) (cc_SdNotifyMode r) (cc_CIDFile r) (cc_other r).

Definition pc_set_LockID (v : Z) (r : PodConfig) : PodConfig :=
  mkPodConfig (pc_ID r) (pc_Name r) (pc_Namespace r) v (pc_HasInfra r) (pc_ServiceContainerID r) (pc_other r).

Definition vc_set_LockID (v : Z) (r : VolumeConfig) : VolumeConfig :=
  mkVolumeConfig (vc_Name r) v (vc_Driver r) (vc_MountPoint r) (vc_CreatedTime r) (vc_Options r) (vc_IsAnon r) (vc_UID r) (vc_GID r) (vc_Size r) (vc_Inodes r) (vc_DisableQuota r) (vc_StorageName r) (vc_StorageID r) (vc_StorageImageID r) (vc_other r).

Section renumber.
Context `{Runtime} {L : Type} `{Manager L}.

Abbreviation R := (ST renumberError (L * World)).

Definition onLocks {A} (m : LM L A) : R A := λ s,
  match m s.1 with
  | (Ok a, l) => (Ok a, (l, s.2))
  | (Err e, l) => (Err (LockFailure e), (l, s.2))
  end.

Definition onState {A} (m : M A) : R A := λ s,
  match m s.2 with
  | (Ok a, w) => (Ok a, (s.1, w))
  | (Err e, w) => (Err (StateFailure e), (s.1, w))
  end.

(** The bodies of the three loops *)
Definition renumberContainer (ctr : Define.Container) : R () :=
  lock ← onLocks AllocateLock;
  onState (RewriteContainerConfig ctr (cc_set_LockID lock (ctr_config ctr))).

Definition renumberPod (pod : Define.Pod) : R () :=
  lock ← onLocks AllocateLock;
  onState (RewritePodConfig pod (pc_set_LockID lock (pod_config pod))).

Definition renumberVolume (vol : Define.Volume) : R () :=
  lock ← onLocks AllocateLock;
  onState (RewriteVolumeConfig vol (vc_set_LockID lock (vol_config vol))).

Definition renumberLocks : R () :=
  _ ← onLocks FreeAllLocks;
  allCtrs ← onState (AllContainers false);
  _ ← forM_ allCtrs renumberContainer;
  allPods ← onState AllPods;
  _ ← forM_ allPods renumberPod;
  allVols ← onState AllVolumes;
  forM_ allVols renumberVolume.

End renumber.

(** ** What renumbering does to the database *)

Section listing.
Context `{Runtime}.

(** ** Loading objects changes no field of the state but its cache of OCI runtimes *)

Definition env_eq (w w' : World) : Prop :=
  w_valid w' = w_valid w ∧ w_dbLock w' = w_dbLock w ∧ w_db w' = w_db w ∧
  w_openFault w' = w_openFault w ∧ w_commitFault w' = w_commitFault w.

#[global] Instance env_eq_po : PreOrder env_eq.
Proof. split; [done|]. intros x y z (?&?&?&?&?) (?&?&?&?&?). repeat split; congruence. Qed.

Definition quiet {A} (m : M A) : Prop := ∀ w r w', m w = (r, w') → env_eq w w'.

Lemma quiet_bind {A B} (m : M A) (f : A → M B) : quiet m → (∀ a, quiet (f a)) → quiet (m ≫= f).
Proof.
  intros Hm Hf w r w'. unfold mbind, st_bind. destruct (m w) as [[a|e] w1] eqn:Hw; apply Hm in Hw.
  - intros Hr%Hf. by etrans.
  - by intros [= <- <-].
Qed.
Lemma quiet_ret {A} (a : A) : quiet (mret a : M A).
Proof. by intros w r w' [= <- <-]. Qed.
Lemma quiet_gets {A} (f : World → A) : quiet (gets f).
Proof. by intros w r w' [= <- <-]. Qed.
Lemma quiet_lift {A} (x : result error A) : quiet (lift x : M A).
Proof. by intros w r w' [= <- <-]. Qed.
Lemma quiet_throw {A} e : quiet (throw e : M A).
Proof. by intros w r w' [= <- <-]. Qed.
Lemma quiet_orNil {A} (x : option A) e : quiet (orNil x (mret ()) e).
Proof. destruct x; by intros w r w' [= <- <-]. Qed.
Lemma quiet_runtime n : quiet (modify (add_ociRuntime n)).
Proof. by intros w r w' [= <- <-]. Qed.

Local Hint Resolve quiet_ret quiet_gets quiet_lift quiet_throw quiet_orNil quiet_runtime : libpod.
Local Hint Extern 1 (quiet (_ ≫= _)) => apply quiet_bind; [|intros ?] : libpod.
Local Hint Extern 1 (quiet (match ?x with _ => _ end)) => destruct x : libpod.

Lemma quiet_ctr id b : quiet (getContainerFromDB id b false).
Proof. unfold getContainerFromDB, getContainerConfigFromDB, resolveOCIRuntime, Bucket, Get. auto 20 with libpod. Qed.
Lemma quiet_pod id b : quiet (getPodFromDB id b).
Proof. unfold getPodFromDB, Bucket, Get. auto 20 with libpod. Qed.
Lemma quiet_vol id b : quiet (getVolumeFromDB id b).
Proof. unfold getVolumeFromDB, Bucket, Get. auto 20 with libpod. Qed.

(** ** The loop of the listings *)

Definition listing {X} (bkt : path) (load : string → M X) (acc : list X) (ids : list (string * entry)) : M (list X) :=
  foldM (λ xs kv,
    c ← Bucket bkt kv.1;
    _ ← orNil c (mret ()) ErrInternal;
    r ← attempt (load kv.1);
    mret (match r with Ok x => xs ++ [x] | Err _ => xs end)) acc ids.

(** [ps] pairs the keys with the objects loaded for them; the other keys cannot be loaded. *)
Record listed {X} (load : string → M X) (db : Db) (keys : list string) (ps : list (string * X)) : Prop := {
  listed_sub : ps.*1 `sublist_of` keys;
  listed_load k x : (k, x) ∈ ps → ∃ w w', w_db w = db ∧ load k w = (Ok x, w');
  listed_skip k : k ∈ keys → k ∉ ps.*1 → ∃ w w' e, w_db w = db ∧ load k w = (Err e, w') }.

Lemma listing_run {X} bkt (load : string → M X) ids acc w l w' :
  (∀ k, quiet (load k)) → NoDup ids.*1 → listing bkt load acc ids w = (Ok l, w') →
  env_eq w w' ∧ ∃ ps, l = acc ++ ps.*2 ∧ listed load (w_db w) ids.*1 ps.
Proof.
  intros Hq. unfold listing. revert acc w. induction ids as [|[k e] ids IH]; intros acc w Hnd; simpl.
  { intros [= <- <-]. split; [done|]. exists []. rewrite app_nil_r. split; [done|]. split; [done|by intros k x ?%not_elem_of_nil|by intros k ?%not_elem_of_nil]. }
  apply NoDup_cons in Hnd as [Hk Hnd]. intros Hr. apply st_bind_Ok in Hr as (xs & w1 & Hbody & Hr).
  apply st_bind_Ok in Hbody as (c & w2 & [= <- <-] & Hbody). apply st_bind_Ok in Hbody as (p & w3 & Hor & Hbody).
  apply orNil_Ok in Hor as [_ ->]. apply st_bind_Ok in Hbody as (r & w4 & Ha & Hbody). unfold attempt in Ha.
  destruct (load k w) as [r0 w5] eqn:Hload. injection Ha as <- <-. injection Hbody as <- <-.
  pose proof (Hq k w r0 w5 Hload) as He. apply IH in Hr as (Hw & ps & -> & Hls); [|done]. split; [by etrans|].
  destruct He as (_ & _ & Hdb & _). rewrite Hdb in Hls. destruct Hls as [Hsub Hl Hs].
  assert (k ∉ ps.*1) as Hkps by (intros Hin; apply Hk; eapply elem_of_submseteq; [exact Hin|by apply sublist_submseteq]).
  destruct r0 as [x|e0]; simpl.
  - exists ((k, x) :: ps). rewrite <- app_assoc. split; [done|]. split; simpl.
    + by constructor.
    + intros k' x' [[= -> ->]|Hin]%elem_of_cons; [by exists w, w5|by apply Hl].
    + intros k' [->|Hin]%elem_of_cons Hn; [by destruct Hn; left|]. apply Hs; [done|]. intros ?. apply Hn. by right.
  - exists ps. split; [done|]. split; simpl.
    + by apply sublist_cons.
    + exact Hl.
    + intros k' [->|Hin]%elem_of_cons Hn; [by exists w, w5, e0|]. by apply Hs.
Qed.

Lemma listed_NoDup {X} (load : string → M X) db b ps : listed load db (children [b] db).*1 ps → NoDup ps.*1.
Proof. intros Hls. eapply sublist_NoDup; [|apply (listed_sub _ _ _ _ Hls)]. apply NoDup_children_keys. Qed.

Lemma key_children db b k : k ∈ (children [b] db).*1 ↔ ∃ e, db !! [b; k] = Some e.
Proof.
  rewrite list_elem_of_fmap. split.
  - intros ([k' e] & -> & Hin%elem_of_children). eauto.
  - intros [e He]. exists (k, e). split; [done|]. by apply elem_of_children.
Qed.

(** The three listings *)
Definition listAll {X} (a b : string) (load : string → path → M X) : M (list X) :=
  _ ← checkValid;
  withDB (View (
    all ← getTopBucket a;
    bkt ← getTopBucket b;
    ids ← gets (λ w, children all (w_db w));
    listing bkt (λ k, load k bkt) [] ids)).

Lemma AllContainers_list : AllContainers false = listAll allCtrsBkt ctrBkt (λ k b, getContainerFromDB k b false).
Proof. reflexivity. Qed.
Lemma AllPods_list : AllPods = listAll allPodsBkt podBkt getPodFromDB.
Proof. reflexivity. Qed.
Lemma AllVolumes_list : AllVolumes = listAll allVolsBkt volBkt getVolumeFromDB.
Proof. reflexivity. Qed.

(** A listing reads the database that is there. *)
Lemma listAll_run {X} a b (load : string → path → M X) w l w' : (∀ k p, quiet (load k p)) → listAll a b load w = (Ok l, w') →
  w_db w' = w_db w ∧ ∃ ps, l = ps.*2 ∧ listed (λ k, load k [b]) (w_db w) (children [a] (w_db w)).*1 ps.
Proof.
  intros Hq Hl. apply st_bind_Ok in Hl as ([] & w0 & (_ & ->)%checkValid_Ok & Hl). apply withDB_Ok in Hl as (_ & _ & w1 & Hv & ->).
  apply View_Ok in Hv as (w2 & Hr & ->).
  apply st_bind_Ok in Hr as (x & w3 & (_ & -> & ->)%getTopBucket_Ok & Hr). apply st_bind_Ok in Hr as (y & w4 & (_ & -> & ->)%getTopBucket_Ok & Hr).
  apply st_bind_Ok in Hr as (ids & w5 & [= <- <-] & Hr). apply listing_run in Hr as (_ & ps & -> & Hls); [|by intros k|apply NoDup_children_keys].
  split; [done|]. by exists ps.
Qed.

(** ** What is loaded *)

Lemma load_ctr id w x w' : getContainerFromDB id [ctrBkt] false w = (Ok x, w') →
  ∃ cfg lock, stored_config (w_db w) id cfg ∧ ctr_config x = migratePorts cfg ∧ rt_RetrieveLock (cc_LockID (migratePorts cfg)) = Ok lock.
Proof.
  unfold getContainerFromDB, getContainerConfigFromDB. intros Hr. tx_inv. unfold stored_config. eauto 10.
Qed.

Lemma resolve_runs name w : ∃ oci w', resolveOCIRuntime name w = (Ok oci, w').
Proof.
  unfold resolveOCIRuntime. destruct (decide _); [by eexists _, _|]. rewrite (st_bind_run _ _ w (bool_decide (name ∈ w_ociRuntimes w)) w) by done.
  destruct (bool_decide _); [by eexists _, _|]. destruct (_ && _); by eexists _, _.
Qed.

Lemma load_ctr_err id w e w' cfg lock : is_ctr (w_db w) id → stored_config (w_db w) id cfg →
  rt_RetrieveLock (cc_LockID (migratePorts cfg)) = Ok lock → getContainerFromDB id [ctrBkt] false w ≠ (Err e, w').
Proof.
  intros Hi (js & Hjs & Hu) Hl. unfold getContainerFromDB. rewrite (st_bind_run _ _ w (migratePorts cfg) w).
  { rewrite (st_bind_run _ _ w newContainerState w), (st_bind_run _ _ w lock w) by (done || by rewrite Hl).
    destruct (resolve_runs (cc_OCIRuntime (migratePorts cfg)) w) as (oci & w1 & Ho). by rewrite (st_bind_run _ _ _ _ _ Ho). }
  unfold getContainerConfigFromDB. tx_go. unfold bucket at 1. cbn [app]. rewrite Hi.
  tx_go. tx_go. unfold bget at 1. cbn [app]. rewrite Hjs. tx_go. rewrite Hu. by tx_go.
Qed.

Lemma load_pod id w x w' : getPodFromDB id [podBkt] w = (Ok x, w') →
  ∃ js lock, w_db w !! [podBkt; id; configKey] = Some (Val js) ∧ unmarshal js = Ok (pod_config x) ∧ rt_RetrieveLock (pc_LockID (pod_config x)) = Ok lock.
Proof. unfold getPodFromDB. intros Hr. tx_inv. simpl. eauto 10. Qed.

Lemma load_pod_err id w e w' js cfg lock : is_pod (w_db w) id → w_db w !! [podBkt; id; configKey] = Some (Val js) → unmarshal js = Ok cfg →
  rt_RetrieveLock (pc_LockID cfg) = Ok lock → getPodFromDB id [podBkt] w ≠ (Err e, w').
Proof.
  intros Hi Hjs Hu Hl. unfold getPodFromDB. tx_go. unfold bucket at 1. cbn [app]. rewrite Hi.
  tx_go. tx_go. unfold bget at 1. cbn [app]. rewrite Hjs. tx_go. rewrite Hu. tx_go. rewrite Hl. by tx_go.
Qed.

(** The state of a volume can be decoded. *)
Definition vol_state_ok (db : Db) (name : string) : Prop :=
  match bget db [volBkt; name] stateKey with Some js => ∃ st : VolumeState, unmarshal js = Ok st | None => True end.

Lemma load_vol id w x w' : getVolumeFromDB id [volBkt] w = (Ok x, w') →
  ∃ js lock, w_db w !! [volBkt; id; configKey] = Some (Val js) ∧ unmarshal js = Ok (vol_config x) ∧ rt_RetrieveLock (vc_LockID (vol_config x)) = Ok lock.
Proof. unfold getVolumeFromDB. intros Hr. tx_inv; simpl; eauto 10. Qed.

Lemma load_vol_err id w e w' js cfg lock : is_vol (w_db w) id → w_db w !! [volBkt; id; configKey] = Some (Val js) → unmarshal js = Ok cfg →
  vol_state_ok (w_db w) id → rt_RetrieveLock (vc_LockID cfg) = Ok lock → getVolumeFromDB id [volBkt] w ≠ (Err e, w').
Proof.
  intros Hi Hjs Hu Hs Hl. unfold getVolumeFromDB. tx_go. unfold bucket at 1. cbn [app]. rewrite Hi.
  tx_go. tx_go. unfold bget at 1. cbn [app]. rewrite Hjs. tx_go. rewrite Hu. tx_go. tx_go. unfold vol_state_ok in Hs.
  unfold mbind, st_bind. destruct (bget _ _ stateKey) as [sj|]; [destruct Hs as [st ->]; unfold lift|]; simpl; unfold lift; by rewrite Hl.
Qed.

End listing.

Section loops.
Context `{RuntimeLaws} {L : Type} `{ManagerLaws L}.

(** ** The loops *)

Lemma onLocks_Ok {A} (m : LM L A) s a s' : onLocks m s = (Ok a, s') ↔ ∃ l, m s.1 = (Ok a, l) ∧ s' = (l, s.2).
Proof.
  unfold onLocks. destruct (m s.1) as [[x|e] l]; split.
  - intros [= <- <-]. eauto.
  - by intros (l' & [= <- <-] & ->).
  - done.
  - by intros (l' & [=] & _).
Qed.

Lemma onState_Ok {A} (m : M A) (s : L * World) a s' : onState m s = (Ok a, s') ↔ ∃ w, m s.2 = (Ok a, w) ∧ s' = (s.1, w).
Proof.
  unfold onState. destruct (m s.2) as [[x|e] w]; split.
  - intros [= <- <-]. eauto.
  - by intros (w' & [= <- <-] & ->).
  - done.
  - by intros (w' & [=] & _).
Qed.

(** The entry of the configuration of an object *)
Abbreviation cfgPath b k := [b; k; configKey].

(** An iteration takes a free lock and writes the configuration of its object with it. *)
Definition iterates {X} (b : string) (key : X → string) (written : X → Z → string → Prop) (body : X → ST renumberError (L * World) ()) : Prop :=
  ∀ x m w m' w', valid m → body x (m, w) = (Ok (), (m', w')) →
    ∃ lock js, takes valid allocated m lock m' ∧ written x lock js ∧ w_db w !! [b; key x] = Some Bkt ∧
      w_db w' = <[cfgPath b (key x) := Val js]> (w_db w) ∧ (ready w → ready w').

Record looped {X} (b : string) (key : X → string) (written : X → Z → string → Prop) (xs : list X) (m : L) (db : Db) (m' : L) (db' : Db)
    (locks : list Z) : Prop := {
  looped_valid : valid m';
  looped_keeps i : allocated m i → allocated m' i;
  looped_nodup : NoDup locks;
  looped_fresh l : l ∈ locks → allocated m' l ∧ ¬ allocated m l;
  looped_written : Forall2 (λ x l, ∃ js, written x l js ∧ db' !! cfgPath b (key x) = Some (Val js)) xs locks;
  looped_frame p : (∀ x, x ∈ xs → p ≠ cfgPath b (key x)) → db' !! p = db !! p;
  looped_only i : allocated m' i → i ∈ locks ∨ allocated m i;
  looped_bucket x : x ∈ xs → db !! [b; key x] = Some Bkt }.

Lemma loop_run {X} b key written body (xs : list X) m w m' w' : iterates b key written body → NoDup (key <$> xs) → valid m →
  forM_ xs body (m, w) = (Ok (), (m', w')) → (ready w → ready w') ∧ ∃ locks, looped b key written xs m (w_db w) m' (w_db w') locks.
Proof.
  intros Hit. revert m w. induction xs as [|x xs IH]; intros m w Hnd Hv; simpl.
  { intros [= <- <-]. split; [done|]. exists [].
    split; [done|done|constructor|by intros l ?%not_elem_of_nil|constructor|done|by right|by intros x ?%not_elem_of_nil]. }
  apply NoDup_cons in Hnd as [Hx Hnd]. intros Hr. apply st_bind_Ok in Hr as ([] & [m1 w1] & Hit1 & Hr).
  apply Hit in Hit1 as (lock & js & (Hv1 & _ & Hfree & Hal) & Hw & Hb & Hdb & Hready); [|done].
  apply IH in Hr as (Hready' & locks & [Lv Lk Ln Lf Lw Lfr Lo Lb]); [|done|done]. split; [auto|].
  exists (lock :: locks). split.
  - done.
  - intros i Hi. apply Lk, Hal. by right.
  - apply NoDup_cons. split; [|done]. intros Hin%Lf. apply Hin, Hal. by left.
  - intros l [->|Hin]%elem_of_cons; [split; [apply Lk, Hal; by left|done]|]. apply Lf in Hin as [? Hn]. split; [done|]. intros Hl. apply Hn, Hal. by right.
  - constructor; [|done]. exists js. split; [done|]. rewrite Lfr, Hdb; [apply lookup_insert_eq|].
    intros y Hy E. injection E as E. apply Hx. rewrite E. by apply list_elem_of_fmap_2.
  - intros p Hp. rewrite Lfr by (intros y Hy; apply Hp; by right). rewrite Hdb. apply lookup_insert_ne. symmetry. apply Hp. by left.
  - intros i [Hi|Hi]%Lo; [left; by right|]. apply Hal in Hi as [->|Hi]; [left; by left|by right].
  - intros y [->|Hy]%elem_of_cons; [done|]. apply Lb in Hy. by rewrite Hdb, lookup_insert_ne in Hy.
Qed.

Definition ctr_written (x : Define.Container) (lock : Z) (js : string) : Prop := unmarshal js = Ok (json_view (cc_set_LockID lock (ctr_config x))).
Definition pod_written (x : Define.Pod) (lock : Z) (js : string) : Prop := unmarshal js = Ok (pc_set_LockID lock (pod_config x)).
Definition vol_written (x : Define.Volume) (lock : Z) (js : string) : Prop := unmarshal js = Ok (vc_set_LockID lock (vol_config x)).

(** What the rewrites do *)
Lemma rewrite_ctr ctr cfg w w' : RewriteContainerConfig ctr cfg w = (Ok (), w') →
  ∃ js, marshal cfg = Ok js ∧ is_ctr (w_db w) (ctr_ID ctr) ∧ w_db w' = <[cfgPath ctrBkt (ctr_ID ctr) := Val js]> (w_db w) ∧ (ready w → ready w').
Proof.
  unfold RewriteContainerConfig, ctrBucketOf. intros Hr. tx_inv. eexists. split; [done|]. split; [done|]. split; [done|]. by intros [].
Qed.

Lemma rewrite_pod pod cfg w w' : RewritePodConfig pod cfg w = (Ok (), w') →
  ∃ js, marshal cfg = Ok js ∧ is_pod (w_db w) (pod_ID pod) ∧ w_db w' = <[cfgPath podBkt (pod_ID pod) := Val js]> (w_db w) ∧ (ready w → ready w').
Proof.
  unfold RewritePodConfig, podBucketOf. intros Hr. tx_inv. eexists. split; [done|]. split; [done|]. split; [done|]. by intros [].
Qed.

Lemma rewrite_vol vol cfg w w' : RewriteVolumeConfig vol cfg w = (Ok (), w') →
  ∃ js, marshal cfg = Ok js ∧ is_vol (w_db w) (vol_Name vol) ∧ w_db w' = <[cfgPath volBkt (vol_Name vol) := Val js]> (w_db w) ∧ (ready w → ready w').
Proof.
  unfold RewriteVolumeConfig, volBucketOf. intros Hr. tx_inv. eexists. split; [done|]. split; [done|]. split; [done|]. by intros [].
Qed.

Lemma iterates_ctr : iterates ctrBkt ctr_ID ctr_written renumberContainer.
Proof.
  intros x m w m' w' Hv Hr. apply st_bind_Ok in Hr as (lock & s & (m1 & Ha & ->)%onLocks_Ok & Hr). apply onState_Ok in Hr as (w1 & Hr & [= -> ->]).
  apply rewrite_ctr in Hr as (js & Hj & Hc & Hdb & Hready). exists lock, js. pose proof (AllocateLock_law _ _ _ Hv Ha). split_and!; try done. by apply unmarshal_marshal.
Qed.

Lemma iterates_pod : iterates podBkt pod_ID pod_written renumberPod.
Proof.
  intros x m w m' w' Hv Hr. apply st_bind_Ok in Hr as (lock & s & (m1 & Ha & ->)%onLocks_Ok & Hr). apply onState_Ok in Hr as (w1 & Hr & [= -> ->]).
  apply rewrite_pod in Hr as (js & Hj & Hc & Hdb & Hready). exists lock, js. pose proof (AllocateLock_law _ _ _ Hv Ha). split_and!; try done. by apply unmarshal_marshal in Hj.
Qed.

Lemma iterates_vol : iterates volBkt vol_Name vol_written renumberVolume.
Proof.
  intros x m w m' w' Hv Hr. apply st_bind_Ok in Hr as (lock & s & (m1 & Ha & ->)%onLocks_Ok & Hr). apply onState_Ok in Hr as (w1 & Hr & [= -> ->]).
  apply rewrite_vol in Hr as (js & Hj & Hc & Hdb & Hready). exists lock, js. pose proof (AllocateLock_law _ _ _ Hv Ha). split_and!; try done. by apply unmarshal_marshal in Hj.
Qed.

(** ** The invariant *)

(** The loaded container agrees with the stored one. *)
Definition agrees (db : Db) (x : Define.Container) : Prop :=
  ∃ cfg, stored_config db (ctr_ID x) cfg ∧ same_refs cfg (ctr_config x) ∧ cc_Name cfg = cc_Name (ctr_config x).

Lemma agrees_rewritten db x y js lock : agrees db x → agrees db y → ctr_written x lock js → agrees (<[cfgPath ctrBkt (ctr_ID x) := Val js]> db) y.
Proof.
  intros (cx & Hx & Rx & Nx) (cy & Hy & Ry & Ny) Hw. unfold agrees, stored_config. destruct (decide (ctr_ID y = ctr_ID x)) as [E|E].
  - rewrite E in Hy. pose proof (stored_config_fun _ _ _ _ Hx Hy) as <-. exists (json_view (cc_set_LockID lock (ctr_config x))).
    split; [exists js; rewrite E, lookup_insert_eq; done|]. split; [|change (cc_Name (ctr_config x) = cc_Name (ctr_config y)); congruence].
    change (same_refs (ctr_config x) (ctr_config y)). by rewrite <- Rx.
  - exists cy. split; [|done]. destruct Hy as (s & Hs & Hu). exists s. split; [|done]. rewrite lookup_insert_ne; [done|]. intros E'. injection E' as E'. congruence.
Qed.

Lemma loop_inv_ctr xs m w m' w' : valid m → Inv (w_db w) → (∀ x, x ∈ xs → agrees (w_db w) x) →
  forM_ xs renumberContainer (m, w) = (Ok (), (m', w')) → Inv (w_db w').
Proof.
  intros Hv HI Hall Hr. assert (valid m' ∧ Inv (w_db w') ∧ ∀ x, x ∈ xs → agrees (w_db w') x) as (_ & HI' & _); [|done].
  refine (forM_ind (λ s, valid s.1 ∧ Inv (w_db s.2) ∧ ∀ x, x ∈ xs → agrees (w_db s.2) x) xs renumberContainer (m, w) () (m', w') _ _ Hr); [|done].
  intros x [m1 w1] [] [m2 w2] Hx (Hv1 & HI1 & Hag) Hb. simpl in *. destruct (iterates_ctr _ _ _ _ _ Hv1 Hb) as (lock & js & (Hv2 & _) & Hw & Hc & Hdb & _).
  rewrite Hdb. split; [done|]. split; [|intros y Hy; apply (agrees_rewritten _ x y js lock); auto].
  destruct (Hag x Hx) as (cfg & Hs & Hrefs & Hn). by apply (rewrite_inv _ _ js cfg (json_view (cc_set_LockID lock (ctr_config x)))).
Qed.

Lemma loop_inv_pod xs m w m' w' : Inv (w_db w) → forM_ xs renumberPod (m, w) = (Ok (), (m', w')) → Inv (w_db w').
Proof.
  intros HI Hr. refine (forM_ind (λ s : L * World, Inv (w_db s.2)) xs renumberPod (m, w) () (m', w') _ HI Hr).
  intros x [m1 w1] [] [m2 w2] _ HI1 Hb. apply st_bind_Ok in Hb as (lock & s & (m3 & _ & ->)%onLocks_Ok & Hb).
  apply onState_Ok in Hb as (w3 & Hb & [= -> ->]). by apply (RewritePodConfig_safe x _ _ _ _ HI1 I) in Hb.
Qed.

Lemma loop_inv_vol xs m w m' w' : Inv (w_db w) → forM_ xs renumberVolume (m, w) = (Ok (), (m', w')) → Inv (w_db w').
Proof.
  intros HI Hr. refine (forM_ind (λ s : L * World, Inv (w_db s.2)) xs renumberVolume (m, w) () (m', w') _ HI Hr).
  intros x [m1 w1] [] [m2 w2] _ HI1 Hb. apply st_bind_Ok in Hb as (lock & s & (m3 & _ & ->)%onLocks_Ok & Hb).
  apply onState_Ok in Hb as (w3 & Hb & [= -> ->]). by apply (RewriteVolumeConfig_safe x _ _ _ _ HI1 I) in Hb.
Qed.

(** ** The keys of the loaded objects *)

(** The configurations of pods and volumes carry their own names. *)
Definition named_pods (db : Db) : Prop :=
  ∀ p js cfg, db !! cfgPath podBkt p = Some (Val js) → unmarshal js = Ok cfg → pc_ID cfg = p.
Definition named_vols (db : Db) : Prop :=
  ∀ v js cfg, db !! cfgPath volBkt v = Some (Val js) → unmarshal js = Ok cfg → vc_Name cfg = v.

Lemma keys_NoDup {X} (load : string → M X) db b ps (key : X → string) : listed load db (children [b] db).*1 ps →
  (∀ k x, (k, x) ∈ ps → key x = k) → key <$> ps.*2 = ps.*1 ∧ NoDup (key <$> ps.*2).
Proof.
  intros Hls Hkey. assert (key <$> ps.*2 = ps.*1) as E; [|rewrite E; split; [done|by eapply listed_NoDup]].
  clear Hls. induction ps as [|[k x] ps IH]; simpl; [done|]. f_equal; [apply Hkey; by left|]. apply IH. intros k' x' Hin. apply Hkey. by right.
Qed.

Lemma ctr_key db ps k x : Inv db → listed (λ k, getContainerFromDB k [ctrBkt] false) db (children [allCtrsBkt] db).*1 ps → (k, x) ∈ ps →
  ctr_ID x = k ∧ agrees db x.
Proof.
  intros HI Hls Hin. destruct (listed_load _ _ _ _ Hls k x Hin) as (w & w' & Hdb & Hl). apply load_ctr in Hl as (cfg & lock & Hs & Hc & _). rewrite Hdb in Hs.
  assert (is_ctr db k) as Hk. { destruct Hs as (s & Hs & _). by apply (sub_ctr db k configKey [] (Val s) (inv_tree db HI)). }
  destruct (inv_ctr_cfg db (inv_ctrs db HI) k Hk) as (cfg' & Hs' & Hid & _). pose proof (stored_config_fun _ _ _ _ Hs Hs') as <-.
  assert (ctr_ID x = k) as E. { unfold ctr_ID. rewrite Hc. unfold migratePorts. by destruct (decide _). } split; [done|].
  exists cfg. rewrite E, Hc. split; [done|]. unfold migratePorts. by destruct (decide _).
Qed.

Lemma pod_key db ps k x : named_pods db → listed (λ k, getPodFromDB k [podBkt]) db (children [allPodsBkt] db).*1 ps → (k, x) ∈ ps → pod_ID x = k.
Proof.
  intros HN Hls Hin. destruct (listed_load _ _ _ _ Hls k x Hin) as (w & w' & Hdb & Hl). apply load_pod in Hl as (js & lock & Hj & Hu & _).
  rewrite Hdb in Hj. by apply (HN k js).
Qed.

Lemma vol_key db ps k x : named_vols db → listed (λ k, getVolumeFromDB k [volBkt]) db (children [allVolsBkt] db).*1 ps → (k, x) ∈ ps → vol_Name x = k.
Proof.
  intros HN Hls Hin. destruct (listed_load _ _ _ _ Hls k x Hin) as (w & w' & Hdb & Hl). apply load_vol in Hl as (js & lock & Hj & Hu & _).
  rewrite Hdb in Hj. by apply (HN k js).
Qed.

(** Loops on one kind of object do not change the other kinds. *)
Lemma looped_other {X} b key written (xs : list X) m db m' db' locks p : looped b key written xs m db m' db' locks →
  (∀ k, p ≠ cfgPath b k) → db' !! p = db !! p.
Proof. intros Hl Hp. apply (looped_frame _ _ _ _ _ _ _ _ _ Hl). intros x _. apply Hp. Qed.

(** ** Renumbering *)

(** The three loops of a run, with the objects they list and the locks they assign *)
Record renumbered (m0 : L) (db : Db) (m' : L) (db' : Db) (ctrs : list (string * Define.Container)) (pods : list (string * Define.Pod))
    (vols : list (string * Define.Volume)) (m1 : L) (db1 : Db) (m2 : L) (db2 : Db) (lc lp lv : list Z) : Prop := {
  rn_ctrs : listed (λ k, getContainerFromDB k [ctrBkt] false) db (children [allCtrsBkt] db).*1 ctrs;
  rn_ctr_keys : ctr_ID <$> ctrs.*2 = ctrs.*1;
  rn_ctr_loop : looped ctrBkt ctr_ID ctr_written ctrs.*2 m0 db m1 db1 lc;
  rn_pods : listed (λ k, getPodFromDB k [podBkt]) db1 (children [allPodsBkt] db1).*1 pods;
  rn_pod_keys : pod_ID <$> pods.*2 = pods.*1;
  rn_pod_loop : looped podBkt pod_ID pod_written pods.*2 m1 db1 m2 db2 lp;
  rn_vols : listed (λ k, getVolumeFromDB k [volBkt]) db2 (children [allVolsBkt] db2).*1 vols;
  rn_vol_keys : vol_Name <$> vols.*2 = vols.*1;
  rn_vol_loop : looped volBkt vol_Name vol_written vols.*2 m2 db2 m' db' lv;
  rn_inv1 : Inv db1;
  rn_inv2 : Inv db2;
  rn_inv : Inv db' }.

Lemma renumber_run m w m' w' : valid m → Inv (w_db w) → named_pods (w_db w) → named_vols (w_db w) →
  renumberLocks (m, w) = (Ok (), (m', w')) →
  ∃ m0 ctrs pods vols m1 db1 m2 db2 lc lp lv, (∀ i, ¬ allocated m0 i) ∧
    renumbered m0 (w_db w) m' (w_db w') ctrs pods vols m1 db1 m2 db2 lc lp lv.
Proof.
  intros Hv HI Hnp Hnv Hr. unfold renumberLocks in Hr. apply st_bind_Ok in Hr as ([] & s0 & (m0 & Hf & ->)%onLocks_Ok & Hr). cbn [fst snd] in Hf, Hr.
  destruct (FreeAllLocks_law _ _ _ Hv Hf) as (Hv0 & _ & Hfree). specialize (Hfree eq_refl).
  apply st_bind_Ok in Hr as (cs & s1 & (w1 & Hl & ->)%onState_Ok & Hr). cbn [fst snd] in Hl, Hr.
  rewrite AllContainers_list in Hl. apply listAll_run in Hl as (Hd1 & ctrs & -> & Hctrs); [|intros k p; apply quiet_ctr].
  destruct (keys_NoDup _ _ _ _ ctr_ID Hctrs) as [Ek Hnd]; [intros k x Hin; by apply (ctr_key (w_db w) ctrs)|].
  apply st_bind_Ok in Hr as ([] & [m1 w2] & Hloop & Hr). pose proof Hloop as HI1. apply loop_inv_ctr in HI1; [|done|by rewrite Hd1|].
  2: { intros x ([k y] & -> & Hin)%list_elem_of_fmap. rewrite Hd1. by apply (ctr_key (w_db w) ctrs k y). }
  apply (loop_run _ _ _ _ _ _ _ _ _ iterates_ctr Hnd Hv0) in Hloop as (_ & lc & Hlc). rewrite Hd1 in Hlc. pose proof (looped_valid _ _ _ _ _ _ _ _ _ Hlc) as Hv1.
  apply st_bind_Ok in Hr as (ps & s3 & (w3 & Hl & ->)%onState_Ok & Hr). cbn [fst snd] in Hl, Hr.
  rewrite AllPods_list in Hl. apply listAll_run in Hl as (Hd3 & pods & -> & Hpods); [|intros k p; apply quiet_pod].
  assert (named_pods (w_db w2)) as Hnp2. { intros p js cfg Hj. rewrite (looped_other _ _ _ _ _ _ _ _ _ _ Hlc) in Hj by done. by apply Hnp. }
  destruct (keys_NoDup _ _ _ _ pod_ID Hpods) as [Ekp Hndp]; [intros k x Hin; by apply (pod_key (w_db w2) pods)|].
  apply st_bind_Ok in Hr as ([] & [m2 w4] & Hloop & Hr). pose proof Hloop as HI2. apply loop_inv_pod in HI2; [|by rewrite Hd3].
  apply (loop_run _ _ _ _ _ _ _ _ _ iterates_pod Hndp Hv1) in Hloop as (_ & lp & Hlp). rewrite Hd3 in Hlp. pose proof (looped_valid _ _ _ _ _ _ _ _ _ Hlp) as Hv2.
  apply st_bind_Ok in Hr as (vs & s5 & (w5 & Hl & ->)%onState_Ok & Hr). cbn [fst snd] in Hl, Hr.
  rewrite AllVolumes_list in Hl. apply listAll_run in Hl as (Hd5 & vols & -> & Hvols); [|intros k p; apply quiet_vol].
  assert (named_vols (w_db w4)) as Hnv4.
  { intros v js cfg Hj. rewrite (looped_other _ _ _ _ _ _ _ _ _ _ Hlp), (looped_other _ _ _ _ _ _ _ _ _ _ Hlc) in Hj by done. by apply Hnv. }
  destruct (keys_NoDup _ _ _ _ vol_Name Hvols) as [Ekv Hndv]; [intros k x Hin; by apply (vol_key (w_db w4) vols)|].
  pose proof Hr as HI3. apply loop_inv_vol in HI3; [|by rewrite Hd5].
  apply (loop_run _ _ _ _ _ _ _ _ _ iterates_vol Hndv Hv2) in Hr as (_ & lv & Hlv). rewrite Hd5 in Hlv.
  exists m0, ctrs, pods, vols, m1, (w_db w2), m2, (w_db w4), lc, lp, lv. split; [done|]. split; done.
Qed.

(** ** The locks that the database has *)

Definition object (db : Db) (b id : string) : Prop := b ∈ [ctrBkt; podBkt; volBkt] ∧ db !! [b; id] = Some Bkt.

(** The lock in an encoded configuration of a container, a pod or a volume *)
Definition lockIn (b js : string) : option Z :=
  if decide (b = ctrBkt) then match (unmarshal js : result error ContainerConfig) with Ok c => Some (cc_LockID c) | Err _ => None end
  else if decide (b = podBkt) then match (unmarshal js : result error PodConfig) with Ok c => Some (pc_LockID c) | Err _ => None end
  else match (unmarshal js : result error VolumeConfig) with Ok c => Some (vc_LockID c) | Err _ => None end.

Definition storedLock (db : Db) (b id : string) : option Z :=
  match db !! cfgPath b id with Some (Val js) => lockIn b js | _ => None end.

(** Every object can be loaded: its configuration is there and its lock can be retrieved. *)
Record loadable (db : Db) : Prop := {
  load_ctrs i cfg : is_ctr db i → stored_config db i cfg → ∃ l, rt_RetrieveLock (cc_LockID cfg) = Ok l;
  load_pods p : is_pod db p → ∃ js cfg l, db !! cfgPath podBkt p = Some (Val js) ∧ unmarshal js = Ok cfg ∧ pc_ID cfg = p ∧
    rt_RetrieveLock (pc_LockID cfg) = Ok l;
  load_vols v : is_vol db v → ∃ js cfg l, db !! cfgPath volBkt v = Some (Val js) ∧ unmarshal js = Ok cfg ∧ vc_Name cfg = v ∧
    vol_state_ok db v ∧ rt_RetrieveLock (vc_LockID cfg) = Ok l }.

Lemma loadable_pods db : Inv db → loadable db → named_pods db.
Proof.
  intros HI HL p js cfg Hj Hu. destruct (load_pods db HL p) as (js' & cfg' & l & Hj' & Hu' & Hid & _); [by apply (sub_pod db p configKey [] (Val js) (inv_tree db HI))|]. congruence.
Qed.

Lemma loadable_vols db : Inv db → loadable db → named_vols db.
Proof.
  intros HI HL p js cfg Hj Hu. destruct (load_vols db HL p) as (js' & cfg' & l & Hj' & Hu' & Hid & _); [by apply (sub_vol db p configKey [] (Val js) (inv_tree db HI))|]. congruence.
Qed.

Lemma migratePorts_LockID cfg : cc_LockID (migratePorts cfg) = cc_LockID cfg.
Proof. unfold migratePorts. by destruct (decide _). Qed.

(** Every object is listed. *)
Lemma ctr_listed db ctrs i : Inv db → loadable db → listed (λ k, getContainerFromDB k [ctrBkt] false) db (children [allCtrsBkt] db).*1 ctrs → is_ctr db i → i ∈ ctrs.*1.
Proof.
  intros HI HL Hls Hi. destruct (decide (i ∈ ctrs.*1)) as [|Hn]; [done|]. exfalso.
  destruct (inv_ctr_reg db (inv_registry db HI) i Hi) as [n Hn']. destruct (inv_ctr_cfg db (inv_ctrs db HI) i Hi) as (cfg & Hs & _).
  destruct (load_ctrs db HL i cfg Hi Hs) as [l Hl]. destruct (listed_skip _ _ _ _ Hls i) as (w & w' & e & Hdb & He); [|done|].
  - apply key_children. exists (Val n). by apply (inv_all_ctrs db (inv_registry db HI)).
  - revert He. apply (load_ctr_err i w e w' cfg l); [by rewrite Hdb|by rewrite Hdb|by rewrite migratePorts_LockID].
Qed.

Lemma pod_listed db db1 pods p : Inv db1 → loadable db → (∀ q, (∀ k, q ≠ cfgPath ctrBkt k) → db1 !! q = db !! q) →
  listed (λ k, getPodFromDB k [podBkt]) db1 (children [allPodsBkt] db1).*1 pods → is_pod db p → p ∈ pods.*1.
Proof.
  intros HI HL Hf Hls Hp. destruct (decide (p ∈ pods.*1)) as [|Hn]; [done|]. exfalso. assert (is_pod db1 p) as Hp1 by (unfold is_pod; by rewrite Hf).
  destruct (inv_pod_reg db1 (inv_registry db1 HI) p Hp1) as [n Hn']. destruct (load_pods db HL p Hp) as (js & cfg & l & Hj & Hu & _ & Hl).
  destruct (listed_skip _ _ _ _ Hls p) as (w & w' & e & Hdb & He); [|done|].
  - apply key_children. exists (Val n). by apply (inv_all_pods db1 (inv_registry db1 HI)).
  - revert He. apply (load_pod_err p w e w' js cfg l); [by rewrite Hdb|by rewrite Hdb, Hf|done|done].
Qed.

Lemma vol_listed db db2 vols v : Inv db2 → loadable db → (∀ q, (∀ b k, b ∈ [ctrBkt; podBkt] → q ≠ cfgPath b k) → db2 !! q = db !! q) →
  listed (λ k, getVolumeFromDB k [volBkt]) db2 (children [allVolsBkt] db2).*1 vols → is_vol db v → v ∈ vols.*1.
Proof.
  intros HI HL Hf Hls Hv. destruct (decide (v ∈ vols.*1)) as [|Hn]; [done|]. exfalso.
  assert (∀ q x, db2 !! (volBkt :: q :: x) = db !! (volBkt :: q :: x)) as Hvf by (intros q x; apply Hf; intros b k Hb E; revert Hb; injection E; intros; subst; set_solver).
  destruct (load_vols db HL v Hv) as (js & cfg & l & Hj & Hu & _ & Hs & Hl).
  destruct (listed_skip _ _ _ _ Hls v) as (w & w' & e & Hdb & He); [|done|].
  - apply key_children. exists (Val v). apply (inv_all_vols db2 (inv_vols db2 HI)). split; [|done]. unfold is_vol. by rewrite Hvf.
  - revert He. apply (load_vol_err v w e w' js cfg l); rewrite ?Hdb; [unfold is_vol; by rewrite Hvf|by rewrite Hvf|done| |done].
    unfold vol_state_ok, bget in *. cbn [app] in *. by rewrite Hvf.
Qed.

(** The objects of a loop with their locks *)
Definition assigned {X} (b : string) (key : X → string) (xs : list X) (locks : list Z) : list ((string * string) * Z) :=
  zip ((λ x, (b, key x)) <$> xs) locks.

Lemma assigned_locks {X} b key written (xs : list X) m db m' db' locks : looped b key written xs m db m' db' locks → (assigned b key xs locks).*2 = locks.
Proof. intros Hl. apply snd_zip. rewrite length_fmap. by rewrite (Forall2_length _ _ _ (looped_written _ _ _ _ _ _ _ _ _ Hl)). Qed.

Lemma assigned_all {X} b key written (xs : list X) m db m' db' locks k : looped b key written xs m db m' db' locks →
  k ∈ key <$> xs → ∃ l, ((b, k), l) ∈ assigned b key xs locks.
Proof.
  intros Hl (x & -> & Hx)%list_elem_of_fmap. pose proof (Forall2_length _ _ _ (looped_written _ _ _ _ _ _ _ _ _ Hl)) as Hlen.
  apply list_elem_of_lookup in Hx as [i Hi]. destruct (lookup_lt_is_Some_2 locks i) as [l Hli]; [apply lookup_lt_Some in Hi; lia|].
  exists l. apply list_elem_of_lookup. exists i. unfold assigned. apply lookup_zip_Some. split; [|done]. by rewrite list_lookup_fmap, Hi.
Qed.

Lemma assigned_stored {X} b key written (xs : list X) m db m' db' locks b' k l : looped b key written xs m db m' db' locks →
  (∀ x l js, written x l js → lockIn b js = Some l) → ((b', k), l) ∈ assigned b key xs locks →
  b' = b ∧ db !! [b; k] = Some Bkt ∧ storedLock db' b k = Some l ∧ allocated m' l.
Proof.
  intros Hl Hw [i Hi]%list_elem_of_lookup. unfold assigned in Hi. apply lookup_zip_Some in Hi as [Hx Hli].
  apply list_lookup_fmap_Some in Hx as (x & [= -> ->] & Hx).
  destruct (Forall2_lookup_lr _ _ _ _ _ _ (looped_written _ _ _ _ _ _ _ _ _ Hl) Hx Hli) as (js & Hjs & Hdb).
  split; [done|]. split; [apply (looped_bucket _ _ _ _ _ _ _ _ _ Hl), list_elem_of_lookup; eauto|].
  split; [unfold storedLock; rewrite Hdb; by apply (Hw x)|].
  apply (looped_fresh _ _ _ _ _ _ _ _ _ Hl). apply list_elem_of_lookup. eauto.
Qed.

Lemma ctr_lockIn x l js : ctr_written x l js → lockIn ctrBkt js = Some l.
Proof. unfold ctr_written, lockIn. intros ->. done. Qed.
Lemma pod_lockIn x l js : pod_written x l js → lockIn podBkt js = Some l.
Proof. unfold pod_written, lockIn. intros ->. done. Qed.
Lemma vol_lockIn x l js : vol_written x l js → lockIn volBkt js = Some l.
Proof. unfold vol_written, lockIn. intros ->. done. Qed.

Lemma NoDup_snd_inj {A B} (l : list (A * B)) a a' b : NoDup l.*2 → (a, b) ∈ l → (a', b) ∈ l → a = a'.
Proof.
  intros Hnd [i Hi]%list_elem_of_lookup [j Hj]%list_elem_of_lookup.
  assert (i = j) as ->. { apply (NoDup_lookup l.*2 i j b Hnd); rewrite list_lookup_fmap; [by rewrite Hi|by rewrite Hj]. } congruence.
Qed.

(** The locks of a run: every listed object has one, it is the one that is stored, and no two
    are equal. *)
Lemma renumbered_locks m0 db m' db' ctrs pods vols m1 db1 m2 db2 lc lp lv : (∀ i, ¬ allocated m0 i) →
  renumbered m0 db m' db' ctrs pods vols m1 db1 m2 db2 lc lp lv →
  ∃ E, NoDup E.*2 ∧ (∀ b k l, ((b, k), l) ∈ E → object db b k ∧ storedLock db' b k = Some l ∧ allocated m' l) ∧ (∀ i, allocated m' i → i ∈ E.*2) ∧
    (∀ k, k ∈ ctrs.*1 → ∃ l, ((ctrBkt, k), l) ∈ E) ∧ (∀ k, k ∈ pods.*1 → ∃ l, ((podBkt, k), l) ∈ E) ∧ (∀ k, k ∈ vols.*1 → ∃ l, ((volBkt, k), l) ∈ E).
Proof.
  intros Hnone [Rc Kc Lc Rp Kp Lp Rv Kv Lv _ _ _].
  exists (assigned ctrBkt ctr_ID ctrs.*2 lc ++ assigned podBkt pod_ID pods.*2 lp ++ assigned volBkt vol_Name vols.*2 lv). split_and!.
  - rewrite !fmap_app, (assigned_locks _ _ _ _ _ _ _ _ _ Lc), (assigned_locks _ _ _ _ _ _ _ _ _ Lp), (assigned_locks _ _ _ _ _ _ _ _ _ Lv).
    apply NoDup_app. split; [apply Lc|]. split; [|apply NoDup_app; split; [apply Lp|split; [|apply Lv]]].
    + intros l Hl%(looped_fresh _ _ _ _ _ _ _ _ _ Lc) [Hin%(looped_fresh _ _ _ _ _ _ _ _ _ Lp)|Hin%(looped_fresh _ _ _ _ _ _ _ _ _ Lv)]%elem_of_app.
      * by apply Hin, Hl.
      * apply Hin, (looped_keeps _ _ _ _ _ _ _ _ _ Lp), Hl.
    + intros l Hl%(looped_fresh _ _ _ _ _ _ _ _ _ Lp) Hin%(looped_fresh _ _ _ _ _ _ _ _ _ Lv). by apply Hin, Hl.
  - intros b k l [Hin|[Hin|Hin]%elem_of_app]%elem_of_app.
    + apply (assigned_stored _ _ _ _ _ _ _ _ _ _ _ _ Lc ctr_lockIn) in Hin as (-> & Hb & Hs & Ha). split; [split; [by_dec|done]|].
      split; [|by apply (looped_keeps _ _ _ _ _ _ _ _ _ Lv), (looped_keeps _ _ _ _ _ _ _ _ _ Lp)].
      unfold storedLock in *. by rewrite (looped_other _ _ _ _ _ _ _ _ _ _ Lv), (looped_other _ _ _ _ _ _ _ _ _ _ Lp) by done.
    + apply (assigned_stored _ _ _ _ _ _ _ _ _ _ _ _ Lp pod_lockIn) in Hin as (-> & Hb & Hs & Ha).
      rewrite (looped_other _ _ _ _ _ _ _ _ _ _ Lc) in Hb by done. split; [split; [by_dec|done]|]. split; [|by apply (looped_keeps _ _ _ _ _ _ _ _ _ Lv)].
      unfold storedLock in *. by rewrite (looped_other _ _ _ _ _ _ _ _ _ _ Lv) by done.
    + apply (assigned_stored _ _ _ _ _ _ _ _ _ _ _ _ Lv vol_lockIn) in Hin as (-> & Hb & Hs & Ha).
      rewrite (looped_other _ _ _ _ _ _ _ _ _ _ Lp), (looped_other _ _ _ _ _ _ _ _ _ _ Lc) in Hb by done. split; [split; [by_dec|done]|done].
  - intros i Hi. rewrite !fmap_app, (assigned_locks _ _ _ _ _ _ _ _ _ Lc), (assigned_locks _ _ _ _ _ _ _ _ _ Lp), (assigned_locks _ _ _ _ _ _ _ _ _ Lv).
    rewrite !elem_of_app. apply (looped_only _ _ _ _ _ _ _ _ _ Lv) in Hi as [Hi|Hi]; [auto|].
    apply (looped_only _ _ _ _ _ _ _ _ _ Lp) in Hi as [Hi|Hi]; [auto|]. apply (looped_only _ _ _ _ _ _ _ _ _ Lc) in Hi as [Hi|Hi]; [auto|].
    by apply Hnone in Hi.
  - intros k Hk. rewrite <- Kc in Hk. destruct (assigned_all _ _ _ _ _ _ _ _ _ _ Lc Hk) as [l Hl]. exists l. apply elem_of_app. by left.
  - intros k Hk. rewrite <- Kp in Hk. destruct (assigned_all _ _ _ _ _ _ _ _ _ _ Lp Hk) as [l Hl]. exists l. apply elem_of_app. right. apply elem_of_app. by left.
  - intros k Hk. rewrite <- Kv in Hk. destruct (assigned_all _ _ _ _ _ _ _ _ _ _ Lv Hk) as [l Hl]. exists l. apply elem_of_app. right. apply elem_of_app. by right.
Qed.

End loops.

(** ** The choice of the lock manager *)

Inductive lockManager : Type :=
| FileManager (locks : LocksFile.FileLocks)
| SHMManager (locks : LocksShm.SHMLocks).

(** [files] is the directory of lock files, and [segment] the shared segment or the error of
    opening it; [removed] and [created] are the errors of removing it and of creating one. *)
Definition getLockManager (lockType : string) (doRenumber : bool) (numLocks : Z) (files : LocksFile.FileLocks)
    (segment : result Z LocksShm.shm_struct) (removed : bool) (created : option Z) : result lockError lockManager :=
  if decide (lockType = "file") then
    match LocksFile.OpenFileLock files with
    | (Ok _, locks) => Ok (FileManager locks)
    | (Err NoDirectory, locks) =>
        match LocksFile.CreateFileLock locks with (Ok _, locks) => Ok (FileManager locks) | (Err e, _) => Err e end
    | (Err e, _) => Err e
    end
  else if decide (lockType = "" ∨ lockType = "shm") then
    let new := match LocksShm.CreateSHMLock numLocks created with Ok locks => Ok (SHMManager locks) | Err e => Err e end in
    match LocksShm.OpenSHMLock numLocks segment with
    | Ok locks => Ok (SHMManager locks)
    | Err e =>
        if decide (e = Errno LocksShm.ENOENT) then new
        else if decide (e = Errno LocksShm.ERANGE ∧ doRenumber = true) then
          if removed then new else Err FileError
        else Err e
    end
  else Err UnknownLockType.

(** A segment that an earlier runtime has made for [n] locks *)
Definition segmentFor (n : Z) (s : shm_struct) : Prop :=
  sh_magic s = MAGIC ∧ sh_num_locks s = numBitmaps n * BITMAP_SIZE.

(** When the number of locks has changed, the runtime fails unless it is to renumber; then the
    locks are made anew with the number of locks it is configured with (rounded up). *)
Theorem getLockManager_changed n n' s files doRenumber :
  0 < n → 0 < n' → segmentFor n s → numBitmaps n ≠ numBitmaps n' →
  getLockManager "shm" doRenumber n' files (Ok s) true None =
    if doRenumber then Ok (SHMManager (mkSHMLocks
      (mkShm MAGIC (numBitmaps n') (uint32 (numBitmaps n' * BITMAP_SIZE)) (replicate (Z.to_nat (numBitmaps n')) 0) ∅ [])
      (uint32 (numBitmaps n' * BITMAP_SIZE)) true))
    else Err (Errno ERANGE).
Proof.
  intros Hn Hn' [Hm Hl] Hne. unfold getLockManager, OpenSHMLock, open_lock_shm, CreateSHMLock, setup_lock_shm.
  rewrite !(decide_False (P := n' = 0)) by lia. rewrite (decide_False (P := sh_magic s ≠ MAGIC)) by (intros E; congruence).
  rewrite (decide_True (P := sh_num_locks s ≠ _)) by (rewrite Hl; unfold BITMAP_SIZE; lia). by destruct doRenumber.
Qed.
