(* ===== verification/PortSpec.v ===== *)
(** * PortSpec: the port flags of the command line

    [pkg/specgenutil/util.go]: [--publish] and [--expose] are parsed to port mappings and to a map
    from ports to protocols.  [net.ParseIP] followed by [String] is an argument. *)

From Stdlib Require Import Ascii DecimalString DecimalZ DecimalFacts.
From S2P Require Import Prelude Define Strconv.

Local Open Scope Z_scope.

Inductive specError : Type :=
| ProtocolTwice
| V6NoBracket
| V6NoColon
| V6Twice
| V6NeedsPorts
| V6TooManyPorts
| BadPortFormat
| EmptyContainerPort
| EmptyProtocol
| EmptyHostIP
| BadHostIP (ip : string)
| BadRangeFormat
| NegativePort
| NoEndPort
| EndNotHigher (endPort startPort : Z)
| BadPortNumber
| PortOutOfBounds (num : Z)
| DifferentLengths (hostLen ctrLen : Z).

#[export] Instance specError_eq_dec : EqDecision specError.
Proof. solve_decision. Defined.

(** ** [strings] *)

Abbreviation str_app := String.append.

(** [strings.Split] at a separator of one byte *)
Fixpoint splitOn (sep : ascii) (s : string) : list string :=
  match s with
  | EmptyString => [""]
  | String c s =>
      if decide (c = sep) then "" :: splitOn sep s
      else match splitOn sep s with [] => [String c ""] | x :: l => String c x :: l end
  end.

(** [strings.Join] *)
Fixpoint joinOn (sep : string) (l : list string) : string :=
  match l with
  | [] => ""
  | [x] => x
  | x :: l => str_app x (str_app sep (joinOn sep l))
  end.

(** [strings.HasPrefix] and [strings.TrimPrefix] for a prefix of one byte *)
Definition hasPrefix (c : ascii) (s : string) : bool := match s with String c' _ => bool_decide (c' = c) | EmptyString => false end.
Definition trimPrefix (c : ascii) (s : string) : string := match s with String c' s' => if decide (c' = c) then s' else s | EmptyString => s end.

(** ** Ports and ranges *)

Definition parseAndValidatePort (port : string) : result specError Z :=
  match atoi port with
  | Err _ => Err BadPortNumber
  | Ok num => if decide (num < 1 ∨ 65535 < num) then Err (PortOutOfBounds num) else Ok (num mod 2 ^ 16)
  end.

Definition parseAndValidateRange (portRange : string) : result specError (Z * Z) :=
  match splitOn "-" portRange with
  | [first] =>
      if decide (first = "") then Err NegativePort
      else startPort ← parseAndValidatePort first; Ok (startPort, 1)
  | [first; second] =>
      if decide (first = "") then Err NegativePort
      else
        startPort ← parseAndValidatePort first;
        if decide (second = "") then Err NoEndPort
        else
          endPort ← parseAndValidatePort second;
          if decide (endPort ≤ startPort) then Err (EndNotHigher endPort startPort)
          else Ok (startPort, (endPort - startPort + 1) mod 2 ^ 16)
  | _ => Err BadRangeFormat
  end.

(** ** [--expose] *)

(** The loop over the ports of one range *)
Definition exposeNumber (proto : string) (m : gmap Z string) (portNum : Z) : gmap Z string :=
  match m !! portNum with
  | None => <[portNum := proto]> m
  | Some protocols => <[portNum := joinOn "," (splitOn "," protocols ++ splitOn "," proto)]> m
  end.

Definition exposeOne (m : gmap Z string) (e : string) : result specError (gmap Z string) :=
  let add first proto :=
    r ← parseAndValidateRange first;
    Ok (foldl (exposeNumber proto) m ((λ index, (r.1 + index) mod 2 ^ 16) <$> seqZ 0 r.2)) in
  match splitOn "/" e with
  | [first] => add first "tcp"
  | [first; proto] => add first proto
  | _ => Err ProtocolTwice
  end.

Fixpoint exposeEach (m : gmap Z string) (expose : list string) : result specError (gmap Z string) :=
  match expose with
  | [] => Ok m
  | e :: expose => m ← exposeOne m e; exposeEach m expose
  end.

Definition CreateExpose (expose : list string) : result specError (gmap Z string) := exposeEach ∅ expose.

(** ** [--publish] *)

Section parseIP.
(** [net.ParseIP] and [String] of its result; [None] where it is nil *)
Context (parseIP : string → option string).

Definition splitProtocol (protocol : option string) : result specError string :=
  match protocol with
  | None => Ok ""
  | Some protocol => if decide (protocol = "") then Err EmptyProtocol else Ok protocol
  end.

Definition splitHostIP (hostIP : option string) : result specError string :=
  match hostIP with
  | None => Ok ""
  | Some hostIP =>
      if decide (hostIP = "") then Err EmptyHostIP
      else if decide (hostIP = "0.0.0.0") then Ok ""
      else match parseIP hostIP with None => Err (BadHostIP hostIP) | Some testIP => Ok testIP end
  end.

Definition splitHostPort (hostPort : option string) (ctrLen : Z) : result specError Z :=
  match hostPort with
  | None => Ok 0
  | Some hostPort =>
      if decide (hostPort = "") then Ok 0
      else
        r ← parseAndValidateRange hostPort;
        if decide (r.2 = ctrLen) then Ok r.1 else Err (DifferentLengths r.2 ctrLen)
  end.

Definition parseSplitPort (hostIP hostPort : option string) (ctrPort : string) (protocol : option string) : result specError PortMapping :=
  if decide (ctrPort = "") then Err EmptyContainerPort
  else
    ctr ← parseAndValidateRange ctrPort;
    newProtocol ← splitProtocol protocol;
    newHostIP ← splitHostIP hostIP;
    newHostPort ← splitHostPort hostPort ctr.2;
    Ok (mkPortMapping newHostIP ctr.1 newHostPort ctr.2 newProtocol).

(** The optional address in brackets and what follows it *)
Definition splitV6 (remainder : string) : result specError (option string * string) :=
  match splitOn "]" remainder with
  | [_] => Ok (None, remainder)
  | [a; b] =>
      if hasPrefix "[" a then if hasPrefix ":" b then Ok (Some (trimPrefix "[" a), trimPrefix ":" b) else Err V6NoColon
      else Err V6NoBracket
  | _ => Err V6Twice
  end.

Definition splitRemainder (v6 : option string) (remainder : string) (proto : option string) : result specError PortMapping :=
  match splitOn ":" remainder with
  | [ctrPort] => if decide (v6 = None) then parseSplitPort None None ctrPort proto else Err V6NeedsPorts
  | [hostPort; ctrPort] => parseSplitPort v6 (Some hostPort) ctrPort proto
  | [hostIP; hostPort; ctrPort] => if decide (v6 = None) then parseSplitPort (Some hostIP) (Some hostPort) ctrPort proto else Err V6TooManyPorts
  | _ => Err BadPortFormat
  end.

(** One iteration of [CreatePortBindings] *)
Definition createBinding (p : string) : result specError PortMapping :=
  let bind remainder proto := r ← splitV6 remainder; splitRemainder r.1 r.2 proto in
  match splitOn "/" p with
  | [remainder] => bind remainder None
  | [remainder; proto] => bind remainder (Some proto)
  | _ => Err ProtocolTwice
  end.

Fixpoint CreatePortBindings (ports : list string) : result specError (list PortMapping) :=
  match ports with
  | [] => Ok []
  | p :: ports => newPort ← createBinding p; rest ← CreatePortBindings ports; Ok (newPort :: rest)
  end.
End parseIP.

(** ** The documented format *)

(** [start] or [start-end] *)
Definition printRange (start range : Z) : string :=
  if decide (range = 1) then itoa start else str_app (itoa start) (String "-" (itoa (start + range - 1))).

Fixpoint has (c : ascii) (s : string) : bool := match s with EmptyString => false | String c' s => bool_decide (c' = c) || has c s end.

Definition printHostIP (ip : string) : string :=
  if decide (ip = "") then "" else if has ":" ip then String "[" (str_app ip "]:") else str_app ip ":".

(** [[[hostip:]hostport[-endPort]:]containerport[-endPort][/protocol]] *)
Definition printPublish (m : PortMapping) : string :=
  str_app (printHostIP (pm_HostIP m))
    (str_app (if decide (pm_HostPort m = 0) then if decide (pm_HostIP m = "") then "" else ":" else str_app (printRange (pm_HostPort m) (pm_Range m)) ":")
      (str_app (printRange (pm_ContainerPort m) (pm_Range m))
        (if decide (pm_Protocol m = "") then "" else String "/" (pm_Protocol m)))).

(** ** Splitting what was printed *)

Lemma has_app c a b : has c (str_app a b) = has c a || has c b.
Proof. induction a as [|x a IH]; simpl; [done|]. by rewrite IH, orb_assoc. Qed.

Lemma splitOn_none c s : has c s = false → splitOn c s = [s].
Proof. induction s as [|x s IH]; simpl; [done|]. intros [Hx Hs]%orb_false_iff. apply bool_decide_eq_false in Hx. by rewrite decide_False, IH. Qed.

Lemma splitOn_app c a b : has c a = false → splitOn c (str_app a (String c b)) = a :: splitOn c b.
Proof.
  induction a as [|x a IH]; simpl; [by rewrite decide_True|]. intros [Hx Hs]%orb_false_iff. apply bool_decide_eq_false in Hx.
  by rewrite decide_False, IH.
Qed.

Definition digitChar (c : ascii) : bool := let n := N_of_ascii c in ((48 <=? n) && (n <=? 57))%N.

Lemma uint_no c d : digitChar c = false → has c (NilEmpty.string_of_uint d) = false.
Proof.
  intros Hc. induction d as [|d IH|d IH|d IH|d IH|d IH|d IH|d IH|d IH|d IH|d IH]; simpl; [done|..];
    (apply orb_false_iff; split; [|done]); apply bool_decide_eq_false; intros <-; done.
Qed.

Lemma itoa_no c n : 0 ≤ n → digitChar c = false → has c (itoa n) = false.
Proof.
  intros Hn Hc. unfold itoa. destruct n as [|p|p]; [| |lia].
  - simpl. apply orb_false_iff. split; [|done]. apply bool_decide_eq_false. by intros <-.
  - simpl. destruct (Pos.to_uint p) eqn:E; simpl; try (rewrite <- E); apply (uint_no c) with (d := Pos.to_uint p) in Hc; rewrite E in Hc; try done.
    by destruct (DecimalPos.Unsigned.to_uint_nonnil p).
Qed.

Lemma itoa_nonempty n : itoa n ≠ "".
Proof. unfold itoa. destruct (Z.to_int n) as [d|d]; simpl; [|done]. by destruct d. Qed.

Definition portOk (start range : Z) : Prop := 1 ≤ start ∧ 1 ≤ range ∧ start + range ≤ 65536.

Lemma bindOk {E A B} (a : A) (f : A → result E B) : (x ← Ok a; f x) = f a.
Proof. done. Qed.

Lemma parse_itoa n : 1 ≤ n ≤ 65535 → parseAndValidatePort (itoa n) = Ok n.
Proof.
  intros Hn. unfold parseAndValidatePort. rewrite atoi_itoa by (unfold minInt64, maxInt64; lia). rewrite decide_False by lia. by rewrite Z.mod_small by lia.
Qed.

Lemma parse_printRange start range : portOk start range → parseAndValidateRange (printRange start range) = Ok (start, range).
Proof.
  intros (H1 & H2 & H3). unfold printRange, parseAndValidateRange. pose proof (itoa_nonempty start). pose proof (itoa_nonempty (start + range - 1)). destruct (decide (range = 1)) as [->|Hne].
  - rewrite splitOn_none by (by apply itoa_no; [lia|]). rewrite decide_False by done. rewrite parse_itoa by lia. done.
  - rewrite splitOn_app by (by apply itoa_no; [lia|]). rewrite splitOn_none by (by apply itoa_no; [lia|]).
    rewrite decide_False by done. rewrite (parse_itoa start), bindOk by lia. rewrite decide_False by done. rewrite parse_itoa, bindOk by lia.
    rewrite decide_False by lia. rewrite Z.mod_small by lia. do 2 f_equal. lia.
Qed.

Lemma printRange_no c start range : portOk start range → digitChar c = false → c ≠ "-"%char → has c (printRange start range) = false.
Proof.
  intros (H1 & H2 & H3) Hc Hd. unfold printRange. destruct (decide _); [by apply itoa_no; [lia|]|]. rewrite has_app. simpl.
  rewrite !itoa_no by (done || lia). rewrite bool_decide_eq_false_2 by done. done.
Qed.

Lemma printRange_nonempty start range : printRange start range ≠ "".
Proof. unfold printRange. pose proof (itoa_nonempty start) as Hn. destruct (decide _); [done|]. by destruct (itoa start). Qed.

(** A mapping that the flag can express *)
Record expressible (parseIP : string → option string) (m : PortMapping) : Prop := {
  ex_container : portOk (pm_ContainerPort m) (pm_Range m);
  ex_host : pm_HostPort m = 0 ∨ portOk (pm_HostPort m) (pm_Range m);
  ex_protocol : has "/" (pm_Protocol m) = false;
  ex_ip : pm_HostIP m = "" ∨ pm_HostIP m ≠ "0.0.0.0" ∧ parseIP (pm_HostIP m) = Some (pm_HostIP m) ∧ has "/" (pm_HostIP m) = false ∧ has "]" (pm_HostIP m) = false }.

(** The host part, without the address *)
Definition printHost (hostPort range : Z) : string := if decide (hostPort = 0) then "" else printRange hostPort range.

Lemma printHost_no c h r : h = 0 ∨ portOk h r → digitChar c = false → c ≠ "-"%char → has c (printHost h r) = false.
Proof. intros Hh Hc Hd. unfold printHost. destruct (decide _); [done|]. apply printRange_no; [|done..]. by destruct Hh. Qed.

Lemma splitHostPort_print h r : h = 0 ∨ portOk h r → splitHostPort (Some (printHost h r)) r = Ok h.
Proof.
  intros Hh. unfold splitHostPort, printHost. destruct (decide (h = 0)) as [->|]; [by rewrite decide_True|].
  rewrite decide_False by apply printRange_nonempty. rewrite parse_printRange by by destruct Hh. rewrite bindOk. by rewrite decide_True.
Qed.

Lemma splitProtocol_print p : splitProtocol (if decide (p = "") then None else Some p) = Ok p.
Proof. unfold splitProtocol. destruct (decide (p = "")); [by subst|]. by rewrite decide_False. Qed.

Section roundtrip.
Context (parseIP : string → option string).

Lemma parseSplit_print m (ip hostPort : option string) : expressible parseIP m → splitHostIP parseIP ip = Ok (pm_HostIP m) →
  splitHostPort hostPort (pm_Range m) = Ok (pm_HostPort m) →
  parseSplitPort parseIP ip hostPort (printRange (pm_ContainerPort m) (pm_Range m)) (if decide (pm_Protocol m = "") then None else Some (pm_Protocol m)) = Ok m.
Proof.
  intros [Hc _ _ _] Hip Hh. unfold parseSplitPort. rewrite decide_False by apply printRange_nonempty. rewrite parse_printRange by done.
  rewrite bindOk, splitProtocol_print, bindOk, Hip, bindOk. simpl. rewrite Hh, bindOk. by destruct m.
Qed.

Lemma splitHostIP_print m : expressible parseIP m → pm_HostIP m ≠ "" → splitHostIP parseIP (Some (pm_HostIP m)) = Ok (pm_HostIP m).
Proof. intros [_ _ _ [?|(H1 & H2 & _)]] Hne; [done|]. unfold splitHostIP. rewrite !decide_False by done. by rewrite H2. Qed.

(** The part before the protocol *)
Definition printPorts (m : PortMapping) : string :=
  str_app (printHostIP (pm_HostIP m))
    (str_app (if decide (pm_HostPort m = 0) then if decide (pm_HostIP m = "") then "" else ":" else str_app (printRange (pm_HostPort m) (pm_Range m)) ":")
      (printRange (pm_ContainerPort m) (pm_Range m))).

Lemma str_app_assoc a b c : str_app (str_app a b) c = str_app a (str_app b c).
Proof. induction a as [|x a IH]; [done|]. change (String x (str_app (str_app a b) c) = String x (str_app a (str_app b c))). by rewrite IH. Qed.
Lemma str_app_cons c a b : str_app (String c a) b = String c (str_app a b).
Proof. done. Qed.
Lemma str_app_nil a : str_app a "" = a.
Proof. induction a as [|x a IH]; [done|]. change (String x (str_app a "") = String x a). by rewrite IH. Qed.

Lemma printPorts_no c m : expressible parseIP m → digitChar c = false → c ≠ "-"%char → c ≠ ":"%char → c ≠ "["%char → c ≠ "]"%char → has c (pm_HostIP m) = false → has c (printPorts m) = false.
Proof.
  intros [Hc Hh _ _] Hd H1 H2 H3 H4 Hip. unfold printPorts, printHostIP. rewrite !has_app, (printRange_no c) by done.
  assert (has c (if decide (pm_HostPort m = 0) then if decide (pm_HostIP m = "") then "" else ":" else str_app (printRange (pm_HostPort m) (pm_Range m)) ":") = false) as ->.
  { repeat destruct (decide _); simpl; rewrite ?has_app; simpl; rewrite ?(bool_decide_eq_false_2 (":"%char = c)) by done; [done..|]. rewrite printRange_no; [done| |done..]. by destruct Hh. }
  destruct (decide _); simpl; [done|]. destruct (has ":" _); simpl; rewrite ?has_app, ?Hip; simpl; rewrite ?bool_decide_eq_false_2 by done; done.
Qed.

(** Without an address in brackets *)
Lemma splitV6_none s : has "]" s = false → splitV6 s = Ok (None, s).
Proof. intros Hs. unfold splitV6. by rewrite splitOn_none. Qed.

Lemma splitV6_some ip s : has "]" ip = false → has "]" s = false → splitV6 (String "[" (str_app ip (str_app "]:" s))) = Ok (Some ip, s).
Proof.
  intros Hip Hs. unfold splitV6. change (String "[" (str_app ip (str_app "]:" s))) with (str_app (String "[" ip) (String "]" (String ":" s))).
  rewrite splitOn_app by done. by rewrite splitOn_none.
Qed.

Definition printTail (m : PortMapping) : string := str_app (printHost (pm_HostPort m) (pm_Range m)) (String ":" (printRange (pm_ContainerPort m) (pm_Range m))).

Lemma printTail_no c m : expressible parseIP m → digitChar c = false → c ≠ "-"%char → c ≠ ":"%char → has c (printTail m) = false.
Proof.
  intros [Hc Hh _ _] Hd H1 H2. unfold printTail. rewrite has_app. simpl. rewrite printHost_no, printRange_no by done. by rewrite bool_decide_eq_false_2.
Qed.

Lemma splitTail m : expressible parseIP m → splitOn ":" (printTail m) = [printHost (pm_HostPort m) (pm_Range m); printRange (pm_ContainerPort m) (pm_Range m)].
Proof.
  intros [Hc Hh _ _]. unfold printTail. rewrite splitOn_app by by apply printHost_no. by rewrite splitOn_none by by apply printRange_no.
Qed.

(** What is printed before the protocol *)
Lemma printPorts_cases m : printPorts m =
  if decide (pm_HostIP m = "") then if decide (pm_HostPort m = 0) then printRange (pm_ContainerPort m) (pm_Range m) else printTail m
  else if has ":" (pm_HostIP m) then String "[" (str_app (pm_HostIP m) (str_app "]:" (printTail m))) else str_app (pm_HostIP m) (String ":" (printTail m)).
Proof.
  unfold printPorts, printHostIP, printTail, printHost. destruct (decide (pm_HostIP m = "")) as [E|E].
  - destruct (decide (pm_HostPort m = 0)); [done|]. change (str_app "" ?x) with x. by rewrite str_app_assoc.
  - destruct (has ":" (pm_HostIP m)), (decide (pm_HostPort m = 0)); rewrite ?str_app_cons, ?str_app_assoc; done.
Qed.

Lemma parse_ports m : expressible parseIP m →
  (r ← splitV6 (printPorts m); splitRemainder parseIP r.1 r.2 (if decide (pm_Protocol m = "") then None else Some (pm_Protocol m))) = Ok m.
Proof.
  intros He. pose proof He as [Hc Hh _ Hip]. rewrite printPorts_cases. destruct (decide (pm_HostIP m = "")) as [E|E].
  - destruct (decide (pm_HostPort m = 0)) as [Ez|Ez]; rewrite splitV6_none, bindOk; unfold splitRemainder; simpl.
    + rewrite splitOn_none by by apply printRange_no. apply parseSplit_print; [done|by rewrite E|by rewrite Ez].
    + by apply printRange_no.
    + rewrite splitTail by done. apply parseSplit_print; [done|by rewrite E|by apply splitHostPort_print].
    + by apply printTail_no.
  - destruct Hip as [?|(H1 & H2 & H3 & H4)]; [done|]. destruct (has ":" (pm_HostIP m)) eqn:Ev.
    + rewrite splitV6_some, bindOk by (done || by apply printTail_no). unfold splitRemainder. simpl. rewrite splitTail by done.
      apply parseSplit_print; [done|by apply splitHostIP_print|by apply splitHostPort_print].
    + rewrite splitV6_none, bindOk. 2: { rewrite has_app. simpl. rewrite H4. by apply printTail_no. }
      unfold splitRemainder. simpl. rewrite splitOn_app, splitTail by done. simpl.
      apply parseSplit_print; [done|by apply splitHostIP_print|by apply splitHostPort_print].
Qed.

Lemma parse_publish m : expressible parseIP m → createBinding parseIP (printPublish m) = Ok m.
Proof.
  intros He. pose proof He as [_ _ Hp Hip]. unfold createBinding.
  assert (has "/" (printPorts m) = false) as Hno. { apply printPorts_no; try done. destruct Hip as [->|(_&_&?&_)]; done. }
  assert (printPublish m = str_app (printPorts m) (if decide (pm_Protocol m = "") then "" else String "/" (pm_Protocol m))) as ->.
  { unfold printPublish, printPorts. by rewrite !str_app_assoc. }
  pose proof (parse_ports m He) as Hparse. destruct (decide (pm_Protocol m = "")).
  - by rewrite str_app_nil, splitOn_none.
  - by rewrite splitOn_app, splitOn_none.
Qed.

Lemma parse_publish_all ms : Forall (expressible parseIP) ms → CreatePortBindings parseIP (printPublish <$> ms) = Ok ms.
Proof. induction 1 as [|m ms Hm _ IH]; csimpl; [done|]. by rewrite parse_publish, bindOk, IH. Qed.
End roundtrip.
