(* ===== verification/PortMap.v ===== *)
(** * PortMap: the port mappings of a new container

    [pkg/specgen/generate/ports.go]: the requested mappings are validated, grouped by host address
    and protocol, sorted, joined to ranges, and given random host ports where they have none.
    Ports are 16-bit integers and an array of 65536 flags is the set of its indices.  The answers
    of [utils.GetRandomPort], the order in which maps are traversed, and [net.ParseIP] are
    arguments. *)

From Stdlib Require Import Ascii.
From S2P Require Import Prelude Define Strconv PortSpec.

Local Open Scope Z_scope.

Inductive portError : Type :=
| UnrecognizedProtocol (p : string)
| SCTPNotAllowed
| NoProtocols
| InvalidHostIP (ip : string)
| ZeroContainerPort
| ContainerRangeTooLarge
| HostRangeTooLarge
| ConflictingHostPort (port : Z) (protocol : string)
| NoOpenPort (port range : Z)
| NoRandomPort
| ExposedZero
| ImageExpose (e : specError).

#[export] Instance portError_eq_dec : EqDecision portError.
Proof. solve_decision. Defined.

Definition uint16 (n : Z) : Z := n mod 2 ^ 16.

Definition pm_set_Range (v : Z) (p : PortMapping) : PortMapping :=
  mkPortMapping (pm_HostIP p) (pm_ContainerPort p) (pm_HostPort p) v (pm_Protocol p).
Definition pm_set_HostPort (v : Z) (p : PortMapping) : PortMapping :=
  mkPortMapping (pm_HostIP p) (pm_ContainerPort p) v (pm_Range p) (pm_Protocol p).

(** The mappings so far, the used ports of the group at hand, the used ports of each protocol,
    and the next answers of [utils.GetRandomPort] ([None] is an error) *)
Record portState : Type := mkPortState {
  ps_ports : list PortMapping;
  ps_allHost : gset Z;
  ps_allContainer : gset Z;
  ps_currentHost : gset Z;
  ps_hostMap : gmap string (gset Z);
  ps_containerMap : gmap string (gset Z);
  ps_random : list (option Z) }.

Abbreviation PM := (ST portError portState).

Definition set_random v s := mkPortState (ps_ports s) (ps_allHost s) (ps_allContainer s) (ps_currentHost s) (ps_hostMap s) (ps_containerMap s) v.

(** ** Joining *)

(** The ports from [base], counted with 16 bits *)
Definition portSet (base range : Z) : gset Z := list_to_set ((λ i, uint16 (base + i)) <$> seqZ 0 range).

Definition addPortToUsedPorts (port : PortMapping) : PM () := modify (λ s,
  let hosts := portSet (pm_HostPort port) (pm_Range port) in
  mkPortState (ps_ports s ++ [port]) (hosts ∪ ps_allHost s)
    (portSet (pm_ContainerPort port) (pm_Range port) ∪ ps_allContainer s) (hosts ∪ ps_currentHost s)
    (ps_hostMap s) (ps_containerMap s) (ps_random s)).

Definition joinTwoPortsToRangePortIfPossible (previousPort : option PortMapping) (port : PortMapping) : PM PortMapping :=
  match previousPort with
  | None => mret port
  | Some previousPort =>
      let append := _ ← addPortToUsedPorts previousPort; mret port in
      if decide (pm_HostPort port ≤ uint16 (pm_HostPort previousPort + pm_Range previousPort)) then
        let portDiff := uint16 (pm_HostPort port - pm_HostPort previousPort) in
        if decide (portDiff = uint16 (pm_ContainerPort port - pm_ContainerPort previousPort)) then
          let newRange := uint16 (pm_Range port + portDiff) in
          mret (if decide (pm_Range previousPort < newRange) then pm_set_Range newRange previousPort else previousPort)
        else if decide (pm_HostPort port < uint16 (pm_HostPort previousPort + pm_Range previousPort - 1)) then
          throw (ConflictingHostPort (pm_HostPort port) (pm_Protocol port))
        else append
      else append
  end.

Definition GetRandomPort : PM Z := λ s,
  match ps_random s with
  | Some p :: l => (Ok p, set_random l s)
  | None :: l => (Err NoRandomPort, set_random l s)
  | [] => (Err NoRandomPort, s)
  end.

(** The loop of [getRandomHostPort] *)
Fixpoint randomTries (n : nat) (hostPorts : gset Z) (port : PortMapping) : PM PortMapping :=
  match n with
  | O => throw (NoOpenPort (pm_ContainerPort port) (pm_Range port))
  | S n =>
      ranPort ← GetRandomPort;
      if decide (65535 < ranPort + pm_Range port) then randomTries n hostPorts port
      else if existsb (λ j, bool_decide (ranPort + j ∈ hostPorts)) (seqZ 0 (pm_Range port)) then randomTries n hostPorts port
      else mret (pm_set_HostPort (uint16 ranPort) port)
  end.

Definition getRandomHostPort (hostPorts : gset Z) (port : PortMapping) : PM PortMapping := randomTries 15 hostPorts port.

(** A random host port for the mapping, which is then appended *)
Definition addRandom (port : PortMapping) : PM () :=
  current ← gets ps_currentHost;
  newPort ← getRandomHostPort current port;
  addPortToUsedPorts newPort.

Definition joinTwoContainerPortsToRangePortIfPossible (previousPort : option PortMapping) (port : PortMapping) : PM PortMapping :=
  match previousPort with
  | None => mret port
  | Some previousPort =>
      if decide (pm_ContainerPort port < uint16 (pm_ContainerPort previousPort + pm_Range previousPort)) then
        let newRange := uint16 (pm_ContainerPort port - pm_ContainerPort previousPort + pm_Range port) in
        mret (if decide (pm_Range previousPort < newRange) then pm_set_Range newRange previousPort else previousPort)
      else _ ← addRandom previousPort; mret port
  end.

(** ** One host address and protocol *)

Record tempMapping : Type := mkTemp { tm_hostPort : Z; tm_containerPort : Z; tm_rangePort : Z }.

(** The order of [sort.Slice]: host port 0 is last.  Mappings that are equal in it can come in
    any order. *)
Definition temp_le (a b : tempMapping) : Prop :=
  let key t := if decide (tm_hostPort t = 0) then 65536 else tm_hostPort t in
  key a < key b ∨ key a = key b ∧ tm_containerPort a ≤ tm_containerPort b.

#[export] Instance temp_le_dec a b : Decision (temp_le a b).
Proof. unfold temp_le. apply _. Defined.

Definition toMapping (hostIP protocol : string) (t : tempMapping) : PortMapping :=
  mkPortMapping hostIP (tm_containerPort t) (tm_hostPort t) (tm_rangePort t) protocol.

(** The loop over the mappings with a host port; the others are left. *)
Fixpoint joinFixed (hostIP protocol : string) (previousPort : option PortMapping) (ports : list tempMapping)
    : PM (option PortMapping * list tempMapping) :=
  match ports with
  | [] => mret (previousPort, [])
  | t :: rest =>
      if decide (tm_hostPort t = 0) then mret (previousPort, ports)
      else
        p ← joinTwoPortsToRangePortIfPossible previousPort (toMapping hostIP protocol t);
        joinFixed hostIP protocol (Some p) rest
  end.

Fixpoint joinZero (hostIP protocol : string) (previousPort : option PortMapping) (ports : list tempMapping) : PM (option PortMapping) :=
  match ports with
  | [] => mret previousPort
  | t :: rest =>
      p ← joinTwoContainerPortsToRangePortIfPossible previousPort (mkPortMapping hostIP (tm_containerPort t) 0 (tm_rangePort t) protocol);
      joinZero hostIP protocol (Some p) rest
  end.

(** The used ports of the protocol are copied, and written back at the end. *)
Definition loadUsed (protocol : string) : PM () := modify (λ s,
  mkPortState (ps_ports s) (default ∅ (ps_hostMap s !! protocol)) (default ∅ (ps_containerMap s !! protocol)) ∅
    (ps_hostMap s) (ps_containerMap s) (ps_random s)).
Definition storeUsed (protocol : string) : PM () := modify (λ s,
  mkPortState (ps_ports s) (ps_allHost s) (ps_allContainer s) (ps_currentHost s)
    (<[protocol := ps_allHost s]> (ps_hostMap s)) (<[protocol := ps_allContainer s]> (ps_containerMap s)) (ps_random s)).

Definition portGroup (hostIP protocol : string) (ports : list tempMapping) : PM () :=
  if decide (ports = []) then mret ()
  else
    _ ← loadUsed protocol;
    r ← joinFixed hostIP protocol None (merge_sort temp_le ports);
    _ ← match r.1 with Some p => addPortToUsedPorts p | None => mret () end;
    previousPort ← joinZero hostIP protocol None r.2;
    _ ← match previousPort with Some p => addRandom p | None => mret () end;
    storeUsed protocol.

(** ** All mappings *)

(** [strings.ToLower], for ASCII *)
Definition lowerChar (c : Ascii.ascii) : Ascii.ascii :=
  let n := Ascii.N_of_ascii c in if ((65 <=? n) && (n <=? 90))%N then Ascii.ascii_of_N (n + 32) else c.
Fixpoint ToLower (s : string) : string :=
  match s with EmptyString => EmptyString | String c s => String (lowerChar c) (ToLower s) end.

Fixpoint addProtocols (allowSCTP : bool) (l : list string) (acc : gset string) : result portError (gset string) :=
  match l with
  | [] => Ok acc
  | p :: l =>
      let p := ToLower p in
      if decide (p = "tcp" ∨ p = "") then addProtocols allowSCTP l ({["tcp"]} ∪ acc)
      else if decide (p = "udp") then addProtocols allowSCTP l ({["udp"]} ∪ acc)
      else if decide (p = "sctp") then if allowSCTP then addProtocols allowSCTP l ({["sctp"]} ∪ acc) else Err SCTPNotAllowed
      else Err (UnrecognizedProtocol p)
  end.

(** The source returns the protocols in any order. *)
Definition checkProtocol (protocol : string) (allowSCTP : bool) : result portError (list string) :=
  match addProtocols allowSCTP (splitOn "," protocol) ∅ with
  | Err e => Err e
  | Ok protocols => if decide (protocols = ∅) then Err NoProtocols else Ok (elements protocols)
  end.

Abbreviation portMapT := (gmap (string * string) (list tempMapping)).

Definition pushMapping (hostIP : string) (p : tempMapping) (m : portMapT) (proto : string) : portMapT :=
  <[(hostIP, proto) := default [] (m !! (hostIP, proto)) ++ [p]]> m.

Definition rangeOf (port : PortMapping) : Z := if decide (pm_Range port = 0) then 1 else pm_Range port.

(** One iteration of the first loop of [ParsePortMapping] *)
Definition validateMapping (parseIP : string → bool) (m : portMapT) (port : PortMapping) : result portError portMapT :=
  match checkProtocol (pm_Protocol port) true with
  | Err e => Err e
  | Ok protocols =>
      if decide (pm_HostIP port ≠ "" ∧ parseIP (pm_HostIP port) = false) then Err (InvalidHostIP (pm_HostIP port))
      else if decide (pm_ContainerPort port = 0) then Err ZeroContainerPort
      else if decide (65535 < rangeOf port - 1 + pm_ContainerPort port) then Err ContainerRangeTooLarge
      else if decide (65535 < rangeOf port - 1 + pm_HostPort port) then Err HostRangeTooLarge
      else Ok (foldl (pushMapping (pm_HostIP port) (mkTemp (pm_HostPort port) (pm_ContainerPort port) (rangeOf port))) m protocols)
  end.

Fixpoint validateMappings (parseIP : string → bool) (m : portMapT) (ports : list PortMapping) : result portError portMapT :=
  match ports with
  | [] => Ok m
  | port :: ports => match validateMapping parseIP m port with Ok m => validateMappings parseIP m ports | Err e => Err e end
  end.

(** The protocols of one exposed port.  The set of used ports is a copy, which is marked and
    dropped: the next exposed port does not see the mark. *)
Fixpoint exposeProtocols (port : Z) (protocols : list string) : PM (list string) :=
  match protocols with
  | [] => mret []
  | protocol :: rest =>
      used ← gets (λ s, default ∅ (ps_containerMap s !! protocol));
      if decide (port ∈ used) then rest' ← exposeProtocols port rest; mret (protocol :: rest')
      else
        p ← getRandomHostPort used (mkPortMapping "" port 0 1 protocol);
        _ ← modify (λ s, mkPortState (ps_ports s ++ [p]) (ps_allHost s) (ps_allContainer s) (ps_currentHost s) (ps_hostMap s) (ps_containerMap s) (ps_random s));
        exposeProtocols port rest
  end.

Fixpoint exposeAll (exposePorts : list (Z * list string)) : PM (list (Z * list string)) :=
  match exposePorts with
  | [] => mret []
  | (port, protocols) :: rest =>
      newProtocols ← exposeProtocols port protocols;
      rest' ← exposeAll rest;
      mret (if decide (newProtocols = []) then rest' else (port, newProtocols) :: rest')
  end.

(** [visit] is the order in which the groups are visited; the result has the exposed ports that
    are left. *)
Definition ParsePortMapping (parseIP : string → bool) (visit : list (string * string)) (random : list (option Z))
    (portMappings : list PortMapping) (exposePorts : list (Z * list string))
    : result portError (list PortMapping * list (Z * list string)) :=
  if decide (portMappings = [] ∧ exposePorts = []) then Ok ([], [])
  else match validateMappings parseIP ∅ portMappings with
       | Err e => Err e
       | Ok portMap =>
           let run := _ ← forM_ visit (λ k, portGroup k.1 k.2 (default [] (portMap !! k))); exposeAll exposePorts in
           match run (mkPortState [] ∅ ∅ ∅ ∅ ∅ random) with
           | (Ok exposed, s) => Ok (ps_ports s, exposed)
           | (Err e, _) => Err e
           end
       end.

Fixpoint appendProtocolsNoDuplicates (slice protocols : list string) : list string :=
  match protocols with
  | [] => slice
  | proto :: protocols => appendProtocolsNoDuplicates (if decide (proto ∈ slice) then slice else slice ++ [proto]) protocols
  end.

(** ** The mappings of a container *)

Definition GenExposedPorts (exposedPorts : list string) : result portError (gmap Z string) :=
  match CreateExpose exposedPorts with Ok m => Ok m | Err e => Err (ImageExpose e) end.

Abbreviation exposeMap := (gmap Z (list string)).

(** One port of the image or of the specification *)
Definition addExpose (toExpose : exposeMap) (port : Z) (proto : string) : result portError exposeMap :=
  if decide (port = 0) then Err ExposedZero
  else
    protocols ← checkProtocol proto false;
    Ok (<[port := appendProtocolsNoDuplicates (default [] (toExpose !! port)) protocols]> toExpose).

Fixpoint addExposes (toExpose : exposeMap) (l : list (Z * string)) : result portError exposeMap :=
  match l with
  | [] => Ok toExpose
  | (port, proto) :: l => toExpose ← addExpose toExpose port proto; addExposes toExpose l
  end.

(** [image]: the exposed ports of the image, if there is one; [order]: the order in which a map is
    traversed.  [publishPorts] is the map [toExpose] itself, so that the caller gets what
    [ParsePortMapping] leaves of it. *)
Definition createPortMappings (parseIP : string → bool) (visit : list (string * string)) (random : list (option Z))
    (order : ∀ A : Type, gmap Z A → list (Z * A)) (image : option (list string))
    (PortMappings : list PortMapping) (Expose : gmap Z string) (PublishExposedPorts : bool)
    : result portError (list PortMapping * exposeMap) :=
  expose ← match image with None => Ok ∅ | Some exposedPorts => GenExposedPorts exposedPorts end;
  toExpose ← addExposes ∅ (order _ expose ++ order _ Expose);
  let publishPorts := if PublishExposedPorts then order _ toExpose else [] in
  r ← ParsePortMapping parseIP visit random PortMappings publishPorts;
  Ok (r.1, if PublishExposedPorts then list_to_map r.2 else toExpose).

(** ** What a mapping covers *)

Definition covers (m : PortMapping) (h c : Z) : Prop :=
  ∃ i, 0 ≤ i < pm_Range m ∧ h = pm_HostPort m + i ∧ c = pm_ContainerPort m + i.
Definition onHost (m : PortMapping) (h : Z) : Prop := 0 ≤ h - pm_HostPort m < pm_Range m.
Definition inContainer (m : PortMapping) (c : Z) : Prop := 0 ≤ c - pm_ContainerPort m < pm_Range m.

(** The ranges are not empty and within the ports. *)
Definition containerOk (m : PortMapping) : Prop :=
  1 ≤ pm_ContainerPort m ∧ 1 ≤ pm_Range m ∧ pm_ContainerPort m + pm_Range m ≤ 65536.
Definition mappingOk (m : PortMapping) : Prop := containerOk m ∧ 1 ≤ pm_HostPort m ∧ pm_HostPort m + pm_Range m ≤ 65536.

Lemma covers_container m c : inContainer m c ↔ ∃ h, covers m h c.
Proof.
  unfold inContainer, covers. split.
  - intros Hc. exists (pm_HostPort m + (c - pm_ContainerPort m)), (c - pm_ContainerPort m). lia.
  - intros (h & i & Hi & _ & ->). lia.
Qed.

Lemma elem_of_portSet base range x : 0 ≤ base → base + range ≤ 65536 → x ∈ portSet base range ↔ 0 ≤ x - base < range.
Proof.
  intros Hb Hr. unfold portSet. rewrite elem_of_list_to_set, list_elem_of_fmap. setoid_rewrite elem_of_seqZ. unfold uint16. split.
  - intros (i & -> & Hi). rewrite Z.mod_small; lia.
  - intros Hx. exists (x - base). split; [rewrite Z.mod_small; lia|lia].
Qed.

(** [s'] has the mappings [new] in addition, and their ports are in use. *)
Record emits (new : list PortMapping) (s s' : portState) : Prop := {
  em_ports : ps_ports s' = ps_ports s ++ new;
  em_used x : x ∈ ps_currentHost s' ↔ x ∈ ps_currentHost s ∨ ∃ m, m ∈ new ∧ onHost m x;
  em_container x : x ∈ ps_allContainer s' ↔ x ∈ ps_allContainer s ∨ ∃ m, m ∈ new ∧ inContainer m x;
  em_map : ps_containerMap s' = ps_containerMap s;
  em_random : ∃ l, ps_random s = l ++ ps_random s' }.

Lemma emits_nil s : emits [] s s.
Proof. split; [by rewrite app_nil_r|set_solver|set_solver|done|by exists []]. Qed.

Lemma emits_app new1 new2 s1 s2 s3 : emits new1 s1 s2 → emits new2 s2 s3 → emits (new1 ++ new2) s1 s3.
Proof.
  intros [P1 U1 C1 M1 [l1 R1]] [P2 U2 C2 M2 [l2 R2]]. split.
  - by rewrite P2, P1, app_assoc.
  - intros x. rewrite U2, U1. setoid_rewrite elem_of_app. naive_solver.
  - intros x. rewrite C2, C1. setoid_rewrite elem_of_app. naive_solver.
  - by rewrite M2.
  - exists (l1 ++ l2). by rewrite R1, R2, app_assoc.
Qed.

Lemma addPort_emits port s s' u : mappingOk port → addPortToUsedPorts port s = (Ok u, s') → emits [port] s s'.
Proof.
  intros [(Hc1 & Hr & Hc2) [Hh1 Hh2]] [= _ <-]. split; simpl; [done| | |done|by exists []];
    intros x; rewrite elem_of_union, elem_of_portSet by lia; setoid_rewrite list_elem_of_singleton; unfold onHost, inContainer; naive_solver.
Qed.

(** ** Mappings with a host port *)

Definition sameGroup (a b : PortMapping) : Prop := pm_HostIP a = pm_HostIP b ∧ pm_Protocol a = pm_Protocol b.

(** Two mappings are joined to one that covers what they cover, or the first is emitted. *)
Lemma join_spec prev port s p s' : mappingOk prev → mappingOk port → pm_HostPort prev ≤ pm_HostPort port →
  joinTwoPortsToRangePortIfPossible (Some prev) port s = (Ok p, s') →
  s' = s ∧ mappingOk p ∧ sameGroup p prev ∧ pm_HostPort p = pm_HostPort prev ∧ (∀ h c, covers p h c ↔ covers prev h c ∨ covers port h c) ∨
  p = port ∧ emits [prev] s s'.
Proof.
  intros Hp Hq Hle. unfold joinTwoPortsToRangePortIfPossible.
  assert (∀ r s2, (_ ← addPortToUsedPorts prev; mret port) s = (Ok r, s2) → r = port ∧ emits [prev] s s2) as Happ.
  { intros r s2 Hr. apply st_bind_Ok in Hr as (u & s3 & Ha & [= <- <-]). split; [done|]. by apply (addPort_emits prev s s3 u). }
  pose proof Hp as [(Pc1 & Pr & Pc2) [Ph1 Ph2]]. pose proof Hq as [(Qc1 & Qr & Qc2) [Qh1 Qh2]].
  destruct (decide _) as [Hadj|]; [|intros Hr; right; by apply Happ].
  assert (pm_HostPort prev + pm_Range prev < 65536) as Hnw.
  { destruct (decide (pm_HostPort prev + pm_Range prev = 65536)) as [E|]; [|lia]. rewrite E in Hadj. vm_compute (uint16 65536) in Hadj. lia. }
  unfold uint16 in *. rewrite (Z.mod_small (pm_HostPort prev + _)) in Hadj by lia. rewrite (Z.mod_small (pm_HostPort port - _)) by lia.
  destruct (decide _) as [Hdiff|]; [|destruct (decide _); [done|]; intros Hr; right; by apply Happ].
  assert (pm_ContainerPort port - pm_ContainerPort prev = pm_HostPort port - pm_HostPort prev) as Ed.
  { pose proof (Z.mod_pos_bound (pm_ContainerPort port - pm_ContainerPort prev) (2 ^ 16) ltac:(lia)).
    pose proof (Z.div_mod (pm_ContainerPort port - pm_ContainerPort prev) (2 ^ 16) ltac:(lia)).
    set (q := (pm_ContainerPort port - pm_ContainerPort prev) / 2 ^ 16) in *. assert (q = 0 ∨ q ≤ -1 ∨ 1 ≤ q) as [E|[E|E]] by lia; lia. }
  rewrite Z.mod_small by lia. intros [= <- <-]. left. split; [done|].
  destruct (decide _) as [Hlt|Hge]; unfold mappingOk, containerOk, sameGroup, covers; simpl; (split; [lia|]); (split; [done|]); (split; [done|]); intros h c; split.
  - intros (i & Hi & -> & ->). destruct (decide (i < pm_Range prev)); [left; exists i; lia|right]. exists (i - (pm_HostPort port - pm_HostPort prev)). lia.
  - intros [(i & Hi & -> & ->)|(i & Hi & -> & ->)]; [exists i; lia|]. exists (i + (pm_HostPort port - pm_HostPort prev)). lia.
  - intros (i & Hi & -> & ->). left. exists i. lia.
  - intros [(i & Hi & -> & ->)|(i & Hi & -> & ->)]; [exists i; lia|]. exists (i + (pm_HostPort port - pm_HostPort prev)). lia.
Qed.

Definition inGroup (hostIP protocol : string) (m : PortMapping) : Prop := pm_HostIP m = hostIP ∧ pm_Protocol m = protocol.

Definition tempOk (t : tempMapping) : Prop :=
  1 ≤ tm_containerPort t ∧ 1 ≤ tm_rangePort t ∧ tm_containerPort t + tm_rangePort t ≤ 65536 ∧
  0 ≤ tm_hostPort t ∧ tm_hostPort t + tm_rangePort t ≤ 65536.

Lemma toMapping_ok hostIP protocol t : tempOk t → tm_hostPort t ≠ 0 → mappingOk (toMapping hostIP protocol t) ∧ inGroup hostIP protocol (toMapping hostIP protocol t).
Proof. unfold tempOk, mappingOk, containerOk, inGroup. simpl. intros. split; [lia|done]. Qed.

(** After a mapping without a host port there are only such mappings. *)
Lemma sorted_zero t ports : StronglySorted temp_le (t :: ports) → Forall tempOk (t :: ports) → tm_hostPort t = 0 → Forall (λ t, tm_hostPort t = 0) (t :: ports).
Proof.
  intros Hs Hok Hz. apply StronglySorted_inv in Hs as [_ Hs]. constructor; [done|]. rewrite Forall_forall in *. intros u Hu. specialize (Hs u Hu).
  assert (tempOk u) as Hk by (apply Hok; by right). unfold temp_le in Hs. rewrite Hz in Hs. rewrite decide_True in Hs by done.
  unfold tempOk in Hk. destruct (decide (tm_hostPort u = 0)); [done|]. lia.
Qed.

Definition groupOk (hostIP protocol : string) (m : PortMapping) : Prop := mappingOk m ∧ inGroup hostIP protocol m.

(** The pairs of ports that a list of mappings covers *)
Definition covered (l : list PortMapping) (h c : Z) : Prop := Exists (λ m, covers m h c) l.

Lemma covered_app l l' h c : covered (l ++ l') h c ↔ covered l h c ∨ covered l' h c.
Proof. apply Exists_app. Qed.
Lemma covered_cons m l h c : covered (m :: l) h c ↔ covers m h c ∨ covered l h c.
Proof. apply Exists_cons. Qed.
Lemma covered_nil h c : covered [] h c ↔ False.
Proof. apply Exists_nil. Qed.

Ltac cover := intros h c; simpl; rewrite ?covered_app, ?covered_cons, ?covered_nil in *; tauto.

(** One step of the loop *)
Lemma joinStep_spec hostIP protocol previous t s p s' :
  tempOk t → tm_hostPort t ≠ 0 → (∀ q, previous = Some q → groupOk hostIP protocol q ∧ pm_HostPort q ≤ tm_hostPort t) →
  joinTwoPortsToRangePortIfPossible previous (toMapping hostIP protocol t) s = (Ok p, s') →
  ∃ new, emits new s s' ∧ Forall (groupOk hostIP protocol) new ∧ groupOk hostIP protocol p ∧ pm_HostPort p ≤ tm_hostPort t ∧
    ∀ h c, covered (new ++ [p]) h c ↔ covered (option_list previous ++ [toMapping hostIP protocol t]) h c.
Proof.
  intros Hk Hnz Hprev Hj. pose proof (toMapping_ok hostIP protocol t Hk Hnz) as Ht. destruct previous as [q|].
  - destruct (Hprev q eq_refl) as [Hq Hle]. pose proof Hq as [Hqok Hqg]. apply join_spec in Hj as [(-> & Hpok & Hsg & Eh & Hc)|[-> He]]; [| |done|apply Ht|done].
    + exists []. split; [apply emits_nil|]. split; [constructor|]. split; [split; [done|]; destruct Hsg, Hqg; split; congruence|].
      split; [lia|]. intros h c. specialize (Hc h c). revert h c Hc. intros h c Hc. simpl. rewrite !covered_cons, covered_nil. tauto.
    + exists [q]. split; [done|]. split; [by constructor; [|constructor]|]. split; [done|]. split; [done|]. cover.
  - injection Hj as <- <-. exists []. split; [apply emits_nil|]. split; [constructor|]. split; [done|]. split; [done|]. cover.
Qed.

Lemma joinFixed_spec hostIP protocol previous ports s r s' :
  Forall tempOk ports → StronglySorted temp_le ports →
  (∀ p, previous = Some p → groupOk hostIP protocol p ∧ ∀ t, t ∈ ports → tm_hostPort t ≠ 0 → pm_HostPort p ≤ tm_hostPort t) →
  joinFixed hostIP protocol previous ports s = (Ok r, s') →
  ∃ new front, emits new s s' ∧ ports = front ++ r.2 ∧ Forall (λ t, tm_hostPort t ≠ 0) front ∧ Forall (λ t, tm_hostPort t = 0) r.2 ∧
    Forall (groupOk hostIP protocol) (new ++ option_list r.1) ∧
    ∀ h c, covered (new ++ option_list r.1) h c ↔ covered (option_list previous ++ (toMapping hostIP protocol <$> front)) h c.
Proof.
  revert previous s. induction ports as [|t ports IH]; intros previous s Hok Hs Hprev; simpl.
  - intros [= <- <-]. exists [], []. split; [apply emits_nil|]. split; [done|]. split; [done|]. split; [done|]. simpl. rewrite app_nil_r. split; [|done].
    destruct previous as [p|]; simpl; [|done]. constructor; [by apply Hprev|constructor].
  - destruct (decide (tm_hostPort t = 0)) as [Hz|Hnz].
    + intros [= <- <-]. exists [], []. split; [apply emits_nil|]. split; [done|]. split; [done|]. split; [by apply sorted_zero|]. simpl. rewrite app_nil_r. split; [|done].
      destruct previous as [p|]; simpl; [|done]. constructor; [by apply Hprev|constructor].
    + intros Hr. apply st_bind_Ok in Hr as (p & s1 & Hj & Hr). apply Forall_cons in Hok as [Hkt Hok]. apply StronglySorted_inv in Hs as [Hs Hle].
      apply joinStep_spec in Hj as (new0 & He & Hg & Hp & Hph & Hcov); [|done|done|]. 2: { intros q Hq. destruct (Hprev q Hq) as [? Hql]. split; [done|]. apply Hql; [by left|done]. }
      apply IH in Hr as (new & front & He' & Efr & Hf & Hz & Hgn & Hcn); [|done|done|].
      2: { intros q [= <-]. split; [done|]. intros u Hu Hnu. rewrite Forall_forall in Hle. specialize (Hle u Hu). unfold temp_le in Hle. rewrite !decide_False in Hle by done. lia. }
      exists (new0 ++ new), (t :: front). split; [by eapply emits_app|]. split; [simpl; by rewrite Efr|]. split; [by constructor|]. split; [done|].
      split; [rewrite <- app_assoc; by apply Forall_app|]. intros h c. specialize (Hcov h c). specialize (Hcn h c). simpl in *.
      rewrite !covered_app, ?covered_cons, ?covered_nil in *. tauto.
Qed.

(** ** Mappings without a host port *)

Definition randomOk (random : list (option Z)) : Prop := Forall (λ r, match r with Some p => 1 ≤ p ≤ 65535 | None => True end) random.

(** Each mapping uses host ports that neither [used] nor an earlier mapping has. *)
Fixpoint fresh (used : Z → Prop) (l : list PortMapping) : Prop :=
  match l with
  | [] => True
  | m :: l => (∀ x, onHost m x → ¬ used x) ∧ fresh (λ x, used x ∨ onHost m x) l
  end.

Lemma fresh_impl used used' l : (∀ x, used' x → used x) → fresh used l → fresh used' l.
Proof. revert used used'. induction l as [|m l IH]; intros used used' Hu; simpl; [done|]. intros [Hm Hl]. split; [naive_solver|]. eapply IH; [|done]. naive_solver. Qed.

Lemma fresh_app used l l' : fresh used l → fresh (λ x, used x ∨ ∃ m, m ∈ l ∧ onHost m x) l' → fresh used (l ++ l').
Proof.
  revert used. induction l as [|m l IH]; intros used; simpl.
  - intros _. apply fresh_impl. naive_solver.
  - intros [Hm Hl] Hl'. split; [done|]. apply IH; [done|]. eapply fresh_impl; [|done]. setoid_rewrite elem_of_cons. naive_solver.
Qed.

Lemma randomTries_spec n used port s p s' : randomOk (ps_random s) → containerOk port →
  randomTries n used port s = (Ok p, s') →
  ∃ h, p = pm_set_HostPort h port ∧ 1 ≤ h ∧ h + pm_Range port ≤ 65536 ∧ (∀ x, onHost p x → x ∉ used) ∧
    s' = set_random (ps_random s') s ∧ ∃ l, ps_random s = l ++ ps_random s'.
Proof.
  intros Hr Hc. revert s Hr. induction n as [|n IH]; intros s Hr; [done|]. intros Ht.
  change (randomTries (S n) used port) with (ranPort ← GetRandomPort;
      if decide (65535 < ranPort + pm_Range port) then randomTries n used port
      else if existsb (λ j, bool_decide (ranPort + j ∈ used)) (seqZ 0 (pm_Range port)) then randomTries n used port
      else mret (pm_set_HostPort (uint16 ranPort) port) : PM PortMapping) in Ht.
  apply st_bind_Ok in Ht as (r & s1 & Hg & Ht). unfold GetRandomPort in Hg. destruct (ps_random s) as [|[q|] l] eqn:El; [done| |done].
  injection Hg as -> <-. apply Forall_cons in Hr as [Hq Hl].
  assert (randomTries n used port (set_random l s) = (Ok p, s') → ∃ h, p = pm_set_HostPort h port ∧ 1 ≤ h ∧ h + pm_Range port ≤ 65536 ∧ (∀ x, onHost p x → x ∉ used) ∧
    s' = set_random (ps_random s') s ∧ ∃ l0, Some r :: l = l0 ++ ps_random s') as Hagain.
  { intros Hn. destruct (IH (set_random l s) Hl Hn) as (h & E & H1 & H2 & H3 & E1 & l0 & E3). exists h. do 5 (split; [done|]). exists (Some r :: l0). simpl in *. by rewrite E3. }
  destruct (decide _) as [|Hle]; [by apply Hagain|]. destruct (existsb _ _) eqn:Ex; [by apply Hagain|]. injection Ht as <- <-.
  destruct Hc as (_ & Hr1 & _). unfold uint16. rewrite Z.mod_small by lia. exists r. split; [done|]. split; [lia|]. split; [lia|]. split; [|split; [done|]; by exists [Some r]].
  unfold onHost. simpl. intros x Hx Hu. apply not_true_iff_false in Ex. apply Ex, existsb_exists. exists (x - r). split.
  - apply list_elem_of_In, elem_of_seqZ. lia.
  - apply bool_decide_eq_true. by replace (r + (x - r)) with x by lia.
Qed.

(** The container ports a list of mappings covers *)
Definition coveredC (l : list PortMapping) (c : Z) : Prop := Exists (λ m, inContainer m c) l.

Lemma coveredC_app l l' c : coveredC (l ++ l') c ↔ coveredC l c ∨ coveredC l' c.
Proof. apply Exists_app. Qed.
Lemma coveredC_cons m l c : coveredC (m :: l) c ↔ inContainer m c ∨ coveredC l c.
Proof. apply Exists_cons. Qed.
Lemma coveredC_nil c : coveredC [] c ↔ False.
Proof. apply Exists_nil. Qed.

(** What is emitted by the second loop: mappings of the group with fresh host ports *)
Record emitsRandom (hostIP protocol : string) (new : list PortMapping) (s s' : portState) : Prop := {
  er_emits : emits new s s';
  er_ok : Forall (groupOk hostIP protocol) new;
  er_fresh : fresh (λ x, x ∈ ps_currentHost s) new }.

Lemma emitsRandom_nil hostIP protocol s : emitsRandom hostIP protocol [] s s.
Proof. split; [apply emits_nil|done|done]. Qed.

Lemma emitsRandom_app hostIP protocol l l' s1 s2 s3 :
  emitsRandom hostIP protocol l s1 s2 → emitsRandom hostIP protocol l' s2 s3 → emitsRandom hostIP protocol (l ++ l') s1 s3.
Proof.
  intros [E1 O1 F1] [E2 O2 F2]. split; [by eapply emits_app|by apply Forall_app|]. apply fresh_app; [done|]. eapply fresh_impl; [|done].
  intros x. apply (em_used _ _ _ E1).
Qed.

Lemma emits_randomOk new s s' : emits new s s' → randomOk (ps_random s) → randomOk (ps_random s').
Proof. intros [_ _ _ _ [l E]]. unfold randomOk. rewrite E, Forall_app. by intros [_ ?]. Qed.

Lemma addRandom_spec hostIP protocol port s u s' : randomOk (ps_random s) → containerOk port → inGroup hostIP protocol port →
  addRandom port s = (Ok u, s') → ∃ m, emitsRandom hostIP protocol [m] s s' ∧ ∀ c, inContainer m c ↔ inContainer port c.
Proof.
  intros Hr Hc Hg Ha. unfold addRandom in Ha. apply st_bind_Ok in Ha as (cur & s1 & [= <- <-] & Ha). apply st_bind_Ok in Ha as (m & s1 & Hm & Ha).
  apply randomTries_spec in Hm as (h & -> & H1 & H2 & Hf & E1 & l & E3); [|done|done]. exists (pm_set_HostPort h port). split; [|done].
  apply addPort_emits in Ha as [P U C M [l' R]]. 2: { destruct Hc as (?&?&?). split; [|simpl; lia]. by split. }
  split.
  - rewrite E1 in P, U, C, M. split; [done|done|done|done|exists (l ++ l'); by rewrite E3, R, app_assoc].
  - constructor; [|constructor]. split; [|done]. destruct Hc as (?&?&?). split; [|simpl; lia]. by split.
  - by split.
Qed.

(** One step of the loop *)
Definition zeroOk (hostIP protocol : string) (m : PortMapping) : Prop := containerOk m ∧ inGroup hostIP protocol m.

Lemma joinContainer_spec hostIP protocol prev port s p s' : randomOk (ps_random s) →
  zeroOk hostIP protocol prev → zeroOk hostIP protocol port → pm_ContainerPort prev ≤ pm_ContainerPort port →
  joinTwoContainerPortsToRangePortIfPossible (Some prev) port s = (Ok p, s') →
  ∃ new, emitsRandom hostIP protocol new s s' ∧ zeroOk hostIP protocol p ∧ pm_ContainerPort p ≤ pm_ContainerPort port ∧
    ∀ c, coveredC (new ++ [p]) c ↔ inContainer prev c ∨ inContainer port c.
Proof.
  intros Hr [Hp Gp] [Hq Gq] Hle. unfold joinTwoContainerPortsToRangePortIfPossible. destruct (decide _) as [Hlt|].
  - pose proof Hp as (P1 & P2 & P3). pose proof Hq as (Q1 & Q2 & Q3).
    assert (pm_ContainerPort prev + pm_Range prev < 65536) as Hnw.
    { destruct (decide (pm_ContainerPort prev + pm_Range prev = 65536)) as [E|]; [|lia]. rewrite E in Hlt. vm_compute (uint16 65536) in Hlt. lia. }
    unfold uint16 in *. rewrite Z.mod_small in Hlt by lia. rewrite Z.mod_small by lia.
    intros [= <- <-]. exists []. split; [apply emitsRandom_nil|]. unfold zeroOk, containerOk, inGroup in *. setoid_rewrite coveredC_cons. setoid_rewrite coveredC_nil. unfold inContainer.
    destruct (decide _); simpl; (split; [split; [lia|done]|]); (split; [lia|]); intros c; lia.
  - intros Ha. apply st_bind_Ok in Ha as (u & s1 & Ha & [= <- <-]). apply (addRandom_spec hostIP protocol) in Ha as (m & He & Hm); [|done|done|done].
    exists [m]. split; [done|]. split; [done|]. split; [lia|]. intros c. simpl. rewrite !coveredC_cons, coveredC_nil, Hm. tauto.
Qed.

Definition zeroMapping (hostIP protocol : string) (t : tempMapping) : PortMapping :=
  mkPortMapping hostIP (tm_containerPort t) 0 (tm_rangePort t) protocol.

Lemma joinZero_spec hostIP protocol previous ports s r s' : randomOk (ps_random s) →
  Forall tempOk ports → Forall (λ t, tm_hostPort t = 0) ports → StronglySorted temp_le ports →
  (∀ p, previous = Some p → zeroOk hostIP protocol p ∧ ∀ t, t ∈ ports → pm_ContainerPort p ≤ tm_containerPort t) →
  joinZero hostIP protocol previous ports s = (Ok r, s') →
  ∃ new, emitsRandom hostIP protocol new s s' ∧ (∀ p, r = Some p → zeroOk hostIP protocol p) ∧
    ∀ c, coveredC (new ++ option_list r) c ↔ coveredC (option_list previous ++ (zeroMapping hostIP protocol <$> ports)) c.
Proof.
  revert previous s. induction ports as [|t ports IH]; intros previous s Hr Hok Hz Hs Hprev; simpl.
  - intros [= <- <-]. exists []. split; [apply emitsRandom_nil|]. split; [intros p Hp; by apply Hprev|]. intros c. by rewrite app_nil_r.
  - intros Hj. apply st_bind_Ok in Hj as (p & s1 & Hj & Hrest). apply Forall_cons in Hok as [Hkt Hok]. apply Forall_cons in Hz as [Hzt Hz]. apply StronglySorted_inv in Hs as [Hs Hle].
    assert (zeroOk hostIP protocol (zeroMapping hostIP protocol t)) as Ht. { destruct Hkt as (?&?&?&?). split; [|done]. by split. }
    assert (∃ new, emitsRandom hostIP protocol new s s1 ∧ zeroOk hostIP protocol p ∧ pm_ContainerPort p ≤ tm_containerPort t ∧
      ∀ c, coveredC (new ++ [p]) c ↔ coveredC (option_list previous) c ∨ inContainer (zeroMapping hostIP protocol t) c) as (new0 & He0 & Hp & Hpt & Hc0).
    { destruct previous as [q|].
      - destruct (Hprev q eq_refl) as [Hq Hql]. apply (joinContainer_spec hostIP protocol) in Hj as (new & He & Hp & Hc & Hcov); [|done|done|done|simpl; apply Hql; by left].
        exists new. split; [done|]. split; [done|]. split; [done|]. intros c. rewrite Hcov. simpl. rewrite coveredC_cons, coveredC_nil. unfold zeroMapping. tauto.
      - injection Hj as <- <-. exists []. split; [apply emitsRandom_nil|]. split; [done|]. split; [done|]. intros c. simpl. rewrite coveredC_cons, coveredC_nil. unfold zeroMapping. tauto. }
    apply IH in Hrest as (new & He & Hr' & Hc); [|by eapply emits_randomOk; [apply He0|]|done|done|done|].
    2: { intros q [= <-]. split; [done|]. intros u Hu. rewrite Forall_forall in Hle, Hz. specialize (Hle u Hu). specialize (Hz u Hu). simpl in Hz. unfold temp_le in Hle. rewrite Hz, Hzt in Hle. lia. }
    exists (new0 ++ new). split; [by eapply emitsRandom_app|]. split; [done|]. intros c. specialize (Hc c). specialize (Hc0 c). simpl in *.
    rewrite !coveredC_app, ?coveredC_cons, ?coveredC_nil in *. tauto.
Qed.

(** ** One group *)

#[export] Instance temp_le_total : Total temp_le.
Proof. intros a b. unfold temp_le. lia. Qed.
#[export] Instance temp_le_trans : Transitive temp_le.
Proof. intros a b c. unfold temp_le. lia. Qed.

(** The mappings of one host address and protocol: those with a given host port cover the given
    pairs of ports, the others have host ports of their own. *)
Record published (hostIP protocol : string) (given : Z → Z → Prop) (anyPort : Z → Prop) (out : list PortMapping) : Prop := {
  pub_ok : Forall (groupOk hostIP protocol) out;
  pub_split : ∃ fixed random, out = fixed ++ random ∧ (∀ h c, covered fixed h c ↔ given h c) ∧
    (∀ c, coveredC random c ↔ anyPort c) ∧ fresh (λ x, ∃ m, m ∈ fixed ∧ onHost m x) random }.

Definition givenBy (ports : list tempMapping) (h c : Z) : Prop :=
  ∃ t, t ∈ ports ∧ tm_hostPort t ≠ 0 ∧ 0 ≤ h - tm_hostPort t < tm_rangePort t ∧ c - tm_containerPort t = h - tm_hostPort t.
Definition anyBy (ports : list tempMapping) (c : Z) : Prop :=
  ∃ t, t ∈ ports ∧ tm_hostPort t = 0 ∧ 0 ≤ c - tm_containerPort t < tm_rangePort t.

Lemma published_nil hostIP protocol : published hostIP protocol (givenBy []) (anyBy []) [].
Proof.
  split; [done|]. exists [], []. split; [done|]. split; [intros h c; rewrite covered_nil|split; [intros c; rewrite coveredC_nil|done]];
    (split; [done|]); intros (t & Ht & _); by apply not_elem_of_nil in Ht.
Qed.

Lemma option_add port hostIP protocol s u s' : Forall (groupOk hostIP protocol) (option_list port) →
  match port with Some p => addPortToUsedPorts p | None => mret () end s = (Ok u, s') → emits (option_list port) s s'.
Proof.
  destruct port as [p|]; simpl; intros Ho.
  - apply Forall_cons in Ho as [[Hp _] _]. by apply addPort_emits.
  - intros [= _ <-]. apply emits_nil.
Qed.

Lemma option_addRandom port hostIP protocol s u s' : randomOk (ps_random s) → (∀ p, port = Some p → zeroOk hostIP protocol p) →
  match port with Some p => addRandom p | None => mret () end s = (Ok u, s') →
  ∃ new, emitsRandom hostIP protocol new s s' ∧ ∀ c, coveredC new c ↔ coveredC (option_list port) c.
Proof.
  destruct port as [p|]; simpl; intros Hr Ho.
  - destruct (Ho p eq_refl) as [Hc Hg]. intros Ha. apply (addRandom_spec hostIP protocol) in Ha as (m & He & Hm); [|done..].
    exists [m]. split; [done|]. intros c. by rewrite !coveredC_cons, !coveredC_nil, Hm.
  - intros [= _ <-]. exists []. split; [apply emitsRandom_nil|done].
Qed.

Lemma covered_given hostIP protocol front rest h c : Forall (λ t, tm_hostPort t ≠ 0) front → Forall (λ t, tm_hostPort t = 0) rest →
  covered (toMapping hostIP protocol <$> front) h c ↔ givenBy (front ++ rest) h c.
Proof.
  intros Hf Hz. unfold covered, givenBy. rewrite Exists_exists. setoid_rewrite list_elem_of_fmap. rewrite !Forall_forall in *. split.
  - intros (m & (t & -> & Ht) & i & Hi & -> & ->). simpl in *. exists t. split; [apply elem_of_app; by left|]. split; [by apply Hf|]. lia.
  - intros (t & Ht & Hnz & Hh & Hc). apply elem_of_app in Ht as [Ht|Ht]; [|by destruct Hnz; apply Hz].
    eexists. split; [by exists t|]. exists (h - tm_hostPort t). simpl. lia.
Qed.

Lemma covered_any hostIP protocol front rest c : Forall (λ t, tm_hostPort t ≠ 0) front → Forall (λ t, tm_hostPort t = 0) rest →
  coveredC (zeroMapping hostIP protocol <$> rest) c ↔ anyBy (front ++ rest) c.
Proof.
  intros Hf Hz. unfold coveredC, anyBy. rewrite Exists_exists. setoid_rewrite list_elem_of_fmap. rewrite !Forall_forall in *. split.
  - intros (m & (t & -> & Ht) & Hi). exists t. split; [apply elem_of_app; by right|]. split; [by apply Hz|]. done.
  - intros (t & Ht & Hnz & Hh). apply elem_of_app in Ht as [Ht|Ht]; [by destruct (Hf t Ht)|]. eexists. split; [by exists t|]. done.
Qed.

Lemma sorted_given ports h c : givenBy (merge_sort temp_le ports) h c ↔ givenBy ports h c.
Proof. unfold givenBy. by setoid_rewrite (merge_sort_Permutation temp_le ports). Qed.
Lemma sorted_any ports c : anyBy (merge_sort temp_le ports) c ↔ anyBy ports c.
Proof. unfold anyBy. by setoid_rewrite (merge_sort_Permutation temp_le ports). Qed.

Lemma sorted_app_r {A} (R : A → A → Prop) l l' : StronglySorted R (l ++ l') → StronglySorted R l'.
Proof. induction l as [|x l IH]; simpl; [done|]. intros Hs. apply IH. by apply StronglySorted_inv in Hs as [? _]. Qed.

(** The ports of the containers that are used after the mappings [out] have been added *)
Definition usedContainer (s : portState) (protocol : string) : gset Z := default ∅ (ps_containerMap s !! protocol).
Definition addsContainer (out : list PortMapping) (s s' : portState) : Prop :=
  ∀ protocol x, x ∈ usedContainer s' protocol ↔ x ∈ usedContainer s protocol ∨ ∃ m, m ∈ out ∧ pm_Protocol m = protocol ∧ inContainer m x.

Lemma addsContainer_nil s : addsContainer [] s s.
Proof. intros protocol x. set_solver. Qed.
Lemma addsContainer_app out out' s1 s2 s3 : addsContainer out s1 s2 → addsContainer out' s2 s3 → addsContainer (out ++ out') s1 s3.
Proof. intros H1 H2 protocol x. rewrite (H2 protocol x), (H1 protocol x). setoid_rewrite elem_of_app. naive_solver. Qed.

Lemma store_adds hostIP protocol out s s1 s' u : emits out (loadUsed protocol s).2 s1 → Forall (groupOk hostIP protocol) out →
  storeUsed protocol s1 = (Ok u, s') → addsContainer out s s'.
Proof.
  intros [_ _ C M _] Hg [= _ <-] protocol' x. unfold usedContainer in *. simpl in *. rewrite M. rewrite Forall_forall in Hg. destruct (decide (protocol' = protocol)) as [->|Hne].
  - rewrite lookup_insert_eq. simpl. rewrite C. split; (intros [?|(m & Hm & Hx)]; [by left|right]); exists m; [|naive_solver]. split; [done|]. destruct (Hg m Hm) as [_ [_ ?]]. done.
  - rewrite lookup_insert_ne by done. split; [by left|]. intros [?|(m & Hm & Ep & _)]; [done|]. destruct (Hg m Hm) as [_ [_ ?]]. congruence.
Qed.

Lemma portGroup_spec hostIP protocol ports s u s' : randomOk (ps_random s) → Forall tempOk ports →
  portGroup hostIP protocol ports s = (Ok u, s') →
  ∃ out, ps_ports s' = ps_ports s ++ out ∧ published hostIP protocol (givenBy ports) (anyBy ports) out ∧
    randomOk (ps_random s') ∧ addsContainer out s s'.
Proof.
  intros Hr Hok. unfold portGroup. destruct (decide _) as [->|_].
  { intros [= _ <-]. exists []. split; [by rewrite app_nil_r|]. split; [apply published_nil|]. split; [done|apply addsContainer_nil]. }
  intros Hp. apply st_bind_Ok in Hp as (u0 & s0 & [= _ <-] & Hp). apply st_bind_Ok in Hp as (r & s1 & Hf & Hp).
  apply st_bind_Ok in Hp as (u1 & s2 & Ha & Hp). apply st_bind_Ok in Hp as (r' & s3 & Hz & Hp). apply st_bind_Ok in Hp as (u2 & s4 & Hb & Hst).
  pose proof (StronglySorted_merge_sort temp_le ports) as Hsort.
  assert (Forall tempOk (merge_sort temp_le ports)) as Hok' by by rewrite (merge_sort_Permutation temp_le ports).
  apply joinFixed_spec in Hf as (new1 & front & E1 & Efr & Hnz & Hzz & Hg1 & Hc1); [|done..].
  apply Forall_app in Hg1 as Hg1'. destruct Hg1' as [_ Hopt]. apply (option_add _ hostIP protocol) in Ha; [|done].
  pose proof (emits_app _ _ _ _ _ E1 Ha) as E2. pose proof (emits_randomOk _ _ _ E2 Hr) as Hr2.
  rewrite Efr in Hok', Hsort. apply Forall_app in Hok' as [_ Hok2].
  apply (joinZero_spec hostIP protocol) in Hz as (new2 & E3 & Hr' & Hc2); [|done|done|done|by eapply sorted_app_r|done].
  pose proof (emits_randomOk _ _ _ (er_emits _ _ _ _ _ E3) Hr2) as Hr3.
  apply (option_addRandom _ hostIP protocol) in Hb as (new3 & E4 & Hc3); [|done|done].
  pose proof (emitsRandom_app _ _ _ _ _ _ _ E3 E4) as E5. pose proof (emits_app _ _ _ _ _ E2 (er_emits _ _ _ _ _ E5)) as E6.
  assert (Forall (groupOk hostIP protocol) ((new1 ++ option_list r.1) ++ new2 ++ new3)) as Hgr. { apply Forall_app. split; [done|]. apply E5. }
  pose proof (store_adds _ _ _ s _ _ _ E6 Hgr Hst) as Hadds. injection Hst as _ <-.
  eexists. split; [exact (em_ports _ _ _ E6)|]. split; [|split; [exact (emits_randomOk _ _ _ E6 Hr)|done]]. split.
  - done.
  - exists (new1 ++ option_list r.1), (new2 ++ new3). split; [done|]. split; [|split].
    + intros h c. rewrite Hc1. simpl. rewrite (covered_given _ _ front r.2) by done. rewrite <- Efr. apply sorted_given.
    + intros c. rewrite <- sorted_any, Efr. rewrite <- (covered_any hostIP protocol) by done. specialize (Hc2 c). simpl in Hc2. rewrite <- Hc2, !coveredC_app. by rewrite Hc3.
    + eapply fresh_impl; [|apply E5]. intros x Hx. apply (em_used _ _ _ E2). by right.
Qed.

(** ** All groups *)

Definition groupRequests (m : portMapT) (k : string * string) : list tempMapping := default [] (m !! k).

Definition groupOut (m : portMapT) (k : string * string) : list PortMapping → Prop :=
  published k.1 k.2 (givenBy (groupRequests m k)) (anyBy (groupRequests m k)).

Lemma groups_spec m visit s u s' : randomOk (ps_random s) → (∀ k, Forall tempOk (groupRequests m k)) →
  forM_ visit (λ k, portGroup k.1 k.2 (groupRequests m k)) s = (Ok u, s') →
  ∃ outs, ps_ports s' = ps_ports s ++ concat outs ∧ Forall2 (groupOut m) visit outs ∧
    randomOk (ps_random s') ∧ addsContainer (concat outs) s s'.
Proof.
  intros Hr Hok. revert s Hr. induction visit as [|k visit IH]; intros s Hr; simpl.
  - intros [= _ <-]. exists []. split; [by rewrite app_nil_r|]. split; [constructor|]. split; [done|apply addsContainer_nil].
  - intros Hp. apply st_bind_Ok in Hp as (u1 & s1 & Hk & Hp). apply portGroup_spec in Hk as (out & E & Hout & Hr1 & Ha); [|done..].
    apply IH in Hp as (outs & E' & Houts & Hr2 & Has); [|done]. exists (out :: outs). split; [by rewrite E', E, <- app_assoc|].
    split; [by constructor|]. split; [done|]. by eapply addsContainer_app.
Qed.

#[export] Instance inGroup_dec hostIP protocol m : Decision (inGroup hostIP protocol m).
Proof. unfold inGroup. apply _. Defined.

Lemma filter_keeps {A} (P : A → Prop) `{∀ x, Decision (P x)} l : Forall P l → filter P l = l.
Proof. induction 1; [done|]. by rewrite filter_cons_True, IHForall by done. Qed.
Lemma filter_drops {A} (P : A → Prop) `{∀ x, Decision (P x)} l : Forall (λ x, ¬ P x) l → filter P l = [].
Proof. induction 1; [done|]. by rewrite filter_cons_False, IHForall by done. Qed.

Lemma groups_other m k visit outs : k ∉ visit → Forall2 (groupOut m) visit outs → filter (inGroup k.1 k.2) (concat outs) = [].
Proof.
  intros Hk. induction 1 as [|k' out visit outs Hout _ IH]; [done|]. simpl. rewrite filter_app, IH, app_nil_r by set_solver.
  apply filter_drops. eapply Forall_impl; [apply (pub_ok _ _ _ _ _ Hout)|]. intros p [_ [E1 E2]] [E3 E4]. destruct k, k'. simpl in *. set_solver.
Qed.

Lemma groups_filter m k visit outs : NoDup visit → k ∈ visit → Forall2 (groupOut m) visit outs →
  groupOut m k (filter (inGroup k.1 k.2) (concat outs)).
Proof.
  intros Hnd Hk Hall. induction Hall as [|k' out visit outs Hout Hall IH]; [by apply not_elem_of_nil in Hk|].
  apply NoDup_cons in Hnd as [Hni Hnd]. simpl. rewrite filter_app. destruct (decide (k = k')) as [<-|Hne].
  - rewrite (groups_other m k visit outs Hni Hall), app_nil_r. rewrite filter_keeps; [done|].
    eapply Forall_impl; [apply (pub_ok _ _ _ _ _ Hout)|]. by intros p [_ ?].
  - rewrite filter_drops; [apply IH; [done|set_solver]|]. eapply Forall_impl; [apply (pub_ok _ _ _ _ _ Hout)|].
    intros p [_ [E1 E2]] [E3 E4]. destruct k, k'. simpl in *. congruence.
Qed.

(** ** Validation *)

Definition portUint16 (p : PortMapping) : Prop :=
  0 ≤ pm_HostPort p < 65536 ∧ 0 ≤ pm_ContainerPort p < 65536 ∧ 0 ≤ pm_Range p < 65536.

(** The mapping is for this host address and one of its protocols is this one. *)
Definition requests (hostIP protocol : string) (p : PortMapping) : Prop :=
  pm_HostIP p = hostIP ∧ ∃ l, checkProtocol (pm_Protocol p) true = Ok l ∧ protocol ∈ l.

Definition tempOf (p : PortMapping) : tempMapping := mkTemp (pm_HostPort p) (pm_ContainerPort p) (rangeOf p).

Lemma pushAll hostIP t protocols m k u : u ∈ groupRequests (foldl (pushMapping hostIP t) m protocols) k ↔
  u ∈ groupRequests m k ∨ u = t ∧ k.1 = hostIP ∧ k.2 ∈ protocols.
Proof.
  revert m. induction protocols as [|pr protocols IH]; intros m; simpl; [set_solver|]. rewrite IH, elem_of_cons.
  assert (u ∈ groupRequests (pushMapping hostIP t m pr) k ↔ u ∈ groupRequests m k ∨ u = t ∧ k = (hostIP, pr)) as ->.
  { unfold groupRequests, pushMapping. destruct (decide (k = (hostIP, pr))) as [->|Hne].
    - rewrite lookup_insert_eq. simpl. rewrite elem_of_app, list_elem_of_singleton. tauto.
    - rewrite lookup_insert_ne by done. tauto. }
  destruct k as [ip pr']. simpl. assert ((ip, pr') = (hostIP, pr) ↔ ip = hostIP ∧ pr' = pr) as -> by (split; [by intros [= -> ->]|by intros [-> ->]]). tauto.
Qed.

Lemma rangeOf_pos p : portUint16 p → 1 ≤ rangeOf p.
Proof. unfold portUint16, rangeOf. case_decide; lia. Qed.

Lemma validateMapping_Ok parseIP m p m' : portUint16 p → validateMapping parseIP m p = Ok m' →
  tempOk (tempOf p) ∧ (∃ l, checkProtocol (pm_Protocol p) true = Ok l) ∧
  ∀ k u, u ∈ groupRequests m' k ↔ u ∈ groupRequests m k ∨ u = tempOf p ∧ requests k.1 k.2 p.
Proof.
  intros Hp. pose proof (rangeOf_pos p Hp) as Hr. unfold validateMapping, portUint16 in *. destruct (checkProtocol _ _) as [l|] eqn:El; [|done].
  repeat (destruct (decide _); [done|]). intros [= <-]. split; [|split; [by exists l|]].
  - unfold tempOk, tempOf. simpl. lia.
  - intros k u. rewrite pushAll. unfold requests. rewrite El. split; intros [?|(E1 & E2 & E3)]; [by left| |by left|].
    + right. split; [done|]. split; [done|]. by exists l.
    + right. destruct E3 as (l' & [= <-] & Hl'). done.
Qed.

Lemma validateMappings_Ok parseIP m ports m' : Forall portUint16 ports → validateMappings parseIP m ports = Ok m' →
  Forall (λ p, tempOk (tempOf p)) ports ∧
  ∀ k u, u ∈ groupRequests m' k ↔ u ∈ groupRequests m k ∨ ∃ p, p ∈ ports ∧ u = tempOf p ∧ requests k.1 k.2 p.
Proof.
  revert m. induction ports as [|p ports IH]; intros m Hu; simpl.
  - intros [= <-]. split; [done|]. set_solver.
  - apply Forall_cons in Hu as [Hp Hu]. destruct (validateMapping parseIP m p) as [m1|] eqn:E; [|done]. intros Hv.
    apply validateMapping_Ok in E as (Hk & _ & H1); [|done]. apply IH in Hv as [Hall H2]; [|done]. split; [by constructor|].
    intros k u. rewrite H2, H1. setoid_rewrite elem_of_cons. naive_solver.
Qed.

(** ** Exposed ports *)

Definition exposedMapping (port : Z) (protocol : string) (m : PortMapping) : Prop :=
  pm_HostIP m = "" ∧ pm_ContainerPort m = port ∧ pm_Range m = 1 ∧ pm_Protocol m = protocol ∧ 1 ≤ pm_HostPort m ≤ 65535.

(** [s'] has new mappings of exposed ports. *)
Record exposes (new : list PortMapping) (s s' : portState) : Prop := {
  ex_ports : ps_ports s' = ps_ports s ++ new;
  ex_map : ps_containerMap s' = ps_containerMap s;
  ex_random : randomOk (ps_random s') }.

(** A mapping is made exactly for the protocols in which the container port is not used. *)
Lemma exposeProtocols_spec port protocols s left s' : randomOk (ps_random s) → 1 ≤ port ≤ 65535 → exposeProtocols port protocols s = (Ok left, s') →
  ∃ new, exposes new s s' ∧ left = filter (λ p, port ∈ usedContainer s p) protocols ∧
    Forall2 (exposedMapping port) (filter (λ p, port ∉ usedContainer s p) protocols) new.
Proof.
  intros Hr Hport. revert s left Hr. induction protocols as [|p protocols IH]; intros s left Hr; simpl.
  - intros [= <- <-]. exists []. split; [|done]. split; [by rewrite app_nil_r|done|done].
  - intros Ht. apply st_bind_Ok in Ht as (used & s1 & [= <- <-] & Ht). destruct (decide _) as [Hu|Hu].
    + apply st_bind_Ok in Ht as (left' & s1 & Ht & [= <- <-]). apply IH in Ht as (new & Hnew & -> & Hall); [|done]. exists new. split; [done|].
      rewrite filter_cons_True by done. rewrite filter_cons_False by (intros Hn; by apply Hn). done.
    + apply st_bind_Ok in Ht as (m & s1 & Hm & Ht). apply st_bind_Ok in Ht as (u & s2 & [= _ <-] & Ht).
      apply randomTries_spec in Hm as (h & -> & H1 & H2 & Hf & E1 & l & E2); [|done|unfold containerOk; simpl; lia].
      assert (randomOk (ps_random s1)) as Hr1. { unfold randomOk in Hr. rewrite E2 in Hr. by apply Forall_app in Hr as [_ ?]. }
      apply IH in Ht as (new & [P M R] & -> & Hall); [|done]. unfold usedContainer in *. simpl in *. rewrite E1 in P, M, Hall |- *. simpl in *.
      eexists (_ :: new). split; [split; [by rewrite P, <- app_assoc|done|done]|]. rewrite filter_cons_False by done. rewrite filter_cons_True by done. split; [done|].
      constructor; [|done]. unfold exposedMapping. simpl in *. split; [done|]. split; [done|]. split; [done|]. split; [done|]. lia.
Qed.

Definition portsValid (l : list (Z * list string)) : Prop := Forall (λ e, 1 ≤ e.1 ≤ 65535) l.

(** The ports and protocols of a list *)
Definition listed (l : list (Z * list string)) (port : Z) (protocol : string) : Prop := ∃ protocols, (port, protocols) ∈ l ∧ protocol ∈ protocols.

Lemma exposeAll_spec l s left s' : randomOk (ps_random s) → portsValid l → exposeAll l s = (Ok left, s') →
  ∃ new, exposes new s s' ∧ (∀ port protocol, listed left port protocol ↔ listed l port protocol ∧ port ∈ usedContainer s protocol) ∧
    (∀ port protocol, listed l port protocol → port ∉ usedContainer s protocol → Exists (exposedMapping port protocol) new) ∧
    (∀ m, m ∈ new → ∃ port protocol, listed l port protocol ∧ (port ∉ usedContainer s protocol) ∧ exposedMapping port protocol m).
Proof.
  revert s left. induction l as [|[port protocols] l IH]; intros s left Hr Hv; simpl.
  - intros [= <- <-]. exists []. split; [split; [by rewrite app_nil_r|done|done]|]. unfold listed. split; [|split]; [intros; set_solver|intros; set_solver|set_solver].
  - apply Forall_cons in Hv as [Hport Hv]. intros Ht. apply st_bind_Ok in Ht as (np & s1 & Hp & Ht). apply st_bind_Ok in Ht as (left' & s2 & Ha & [= <- <-]).
    apply exposeProtocols_spec in Hp as (new1 & [P1 M1 R1] & -> & Hall); [|done|done].
    apply IH in Ha as (new2 & [P2 M2 R2] & Hleft & Hex & Honly); [|done|done]. unfold usedContainer in *. rewrite M1 in Hleft, Hex, Honly.
    assert (∀ q pr, listed ((port, protocols) :: l) q pr ↔ (q = port ∧ pr ∈ protocols) ∨ listed l q pr) as Hcons.
    { intros q pr. unfold listed. setoid_rewrite elem_of_cons. naive_solver. }
    exists (new1 ++ new2). split; [split; [by rewrite P2, P1, <- app_assoc|by rewrite M2|done]|]. split; [|split].
    + intros q pr. rewrite Hcons. set (f := filter (λ p, port ∈ default ∅ (ps_containerMap s !! p)) protocols). assert (∀ pr, pr ∈ f ↔ (port ∈ default ∅ (ps_containerMap s !! pr)) ∧ pr ∈ protocols) as Hf by (intros; unfold f; by rewrite list_elem_of_filter).
      assert (listed (if decide (f = []) then left' else (port, f) :: left') q pr ↔ (q = port ∧ pr ∈ f) ∨ listed left' q pr) as ->.
      { destruct (decide (f = [])) as [->|]; [split; [by right|]; intros [[_ Hn]|?]; [by apply not_elem_of_nil in Hn|done]|]. unfold listed. setoid_rewrite elem_of_cons. naive_solver. }
      rewrite Hf, Hleft. naive_solver.
    + intros q pr Hl Hq. apply Hcons in Hl as [[-> Hpr]|Hl]; apply Exists_app; [left|right; by apply Hex].
      assert (pr ∈ filter (λ p, port ∉ default ∅ (ps_containerMap s !! p)) protocols) as Hin by (by rewrite list_elem_of_filter).
      apply list_elem_of_lookup in Hin as [i Hi]. destruct (Forall2_lookup_l _ _ _ _ _ Hall Hi) as (m & Hm & Hme). apply Exists_exists. exists m. split; [by eapply list_elem_of_lookup_2|done].
    + intros m Hm. apply elem_of_app in Hm as [Hm|Hm].
      * apply list_elem_of_lookup in Hm as [i Hi]. destruct (Forall2_lookup_r _ _ _ _ _ Hall Hi) as (pr & Hpr & Hme). exists port, pr.
        apply list_elem_of_lookup_2 in Hpr. rewrite list_elem_of_filter in Hpr. destruct Hpr as [Hu Hin]. split; [apply Hcons; by left|done].
      * destruct (Honly m Hm) as (q & pr & Hl & Hu & Hme). exists q, pr. split; [apply Hcons; by right|done].
Qed.

(** ** Protocols *)

Definition knownProtocols : list string := ["tcp"; "udp"; "sctp"].

Lemma addProtocols_known allowSCTP l acc r : (∀ x, x ∈ acc → x ∈ knownProtocols) → addProtocols allowSCTP l acc = Ok r → ∀ x, x ∈ r → x ∈ knownProtocols.
Proof.
  revert acc. induction l as [|p l IH]; intros acc Hacc; simpl; [by intros [= <-]|].
  repeat destruct (decide _); [| |destruct allowSCTP; [|done]|done]; (apply IH; unfold knownProtocols in *; set_solver).
Qed.

Lemma checkProtocol_known protocol allowSCTP l : checkProtocol protocol allowSCTP = Ok l → NoDup l ∧ ∀ x, x ∈ l → x ∈ knownProtocols.
Proof.
  unfold checkProtocol. destruct (addProtocols _ _ _) as [r|] eqn:E; [|done]. destruct (decide _); [done|]. intros [= <-].
  split; [apply NoDup_elements|]. intros x. rewrite elem_of_elements. eapply addProtocols_known; [|done]. set_solver.
Qed.

(** ** Requests with host ports that do not overlap *)

Definition hostsApart (t u : tempMapping) : Prop :=
  tm_hostPort t + tm_rangePort t ≤ tm_hostPort u ∨ tm_hostPort u + tm_rangePort u ≤ tm_hostPort t.

#[export] Instance hostsApart_sym : Symmetric hostsApart.
Proof. intros t u. unfold hostsApart. lia. Qed.

(** Any two elements of a list are related. *)
Fixpoint pairwise {A} (R : A → A → Prop) (l : list A) : Prop :=
  match l with [] => True | x :: l => Forall (R x) l ∧ pairwise R l end.

Lemma pairwise_perm {A} (R : A → A → Prop) `{!Symmetric R} l l' : l ≡ₚ l' → pairwise R l → pairwise R l'.
Proof.
  induction 1 as [|x l l' Hp IH|x y l|l1 l2 l3 _ IH1 _ IH2]; simpl; [done| |..].
  - intros [Hx Hl]. split; [by rewrite <- Hp|auto].
  - intros [Hy [Hx Hl]]. apply Forall_cons in Hy as [Hyx Hy]. split; [constructor; [by symmetry|done]|done].
  - auto.
Qed.

Lemma pairwise_snoc {A} (R : A → A → Prop) `{!Symmetric R} l x : pairwise R l → Forall (R x) l → pairwise R (l ++ [x]).
Proof.
  induction l as [|y l IH]; simpl; [done|]. intros [Hy Hl] [Hxy Hx]%Forall_cons. split; [|auto]. apply Forall_app. split; [done|]. constructor; [by symmetry|done].
Qed.

Lemma covers_host m h : onHost m h ↔ ∃ c, covers m h c.
Proof.
  unfold onHost, covers. split.
  - intros Hh. exists (pm_ContainerPort m + (h - pm_HostPort m)), (h - pm_HostPort m). lia.
  - intros (c & i & Hi & -> & _). lia.
Qed.

(** A host port outside the previous mapping is no conflict. *)
Lemma join_accepts prev port s : mappingOk prev → mappingOk port → pm_HostPort prev ≤ pm_HostPort port → ¬ onHost prev (pm_HostPort port) →
  ∃ p s', joinTwoPortsToRangePortIfPossible (Some prev) port s = (Ok p, s').
Proof.
  intros [(_ & Hp0 & _) [Hp1 Hp2]] Hq Hle Hno. unfold onHost in Hno. unfold joinTwoPortsToRangePortIfPossible. destruct (decide _); [|by eexists _, _].
  destruct (decide _); [by eexists _, _|]. destruct (decide _) as [Hlt|]; [|by eexists _, _]. exfalso. unfold uint16 in Hlt. rewrite Z.mod_small in Hlt; lia.
Qed.

Lemma joinFixed_accepts hostIP protocol previous ports s :
  Forall tempOk ports → Forall (λ t, tm_hostPort t ≠ 0) ports → StronglySorted temp_le ports → pairwise hostsApart ports →
  (∀ p, previous = Some p → groupOk hostIP protocol p ∧ ∀ t, t ∈ ports → pm_HostPort p ≤ tm_hostPort t ∧ ¬ onHost p (tm_hostPort t)) →
  ∃ r s', joinFixed hostIP protocol previous ports s = (Ok r, s') ∧ r.2 = [].
Proof.
  revert previous s. induction ports as [|t ports IH]; intros previous s Hok Hnz Hs Hd Hprev; simpl; [by eexists _, _|].
  apply Forall_cons in Hok as [Hkt Hok]. apply Forall_cons in Hnz as [Ht Hnz]. apply StronglySorted_inv in Hs as [Hs Hle]. destruct Hd as [Hdt Hd].
  rewrite decide_False by done. pose proof (toMapping_ok hostIP protocol t Hkt Ht) as Htm.
  assert (∃ p s1, joinTwoPortsToRangePortIfPossible previous (toMapping hostIP protocol t) s = (Ok p, s1)) as (p & s1 & Hj).
  { destruct previous as [q|]; [|by eexists _, _]. destruct (Hprev q eq_refl) as [[Hq _] Hq']. destruct (Hq' t) as [Hl Hn]; [by left|]. apply join_accepts; [done|apply Htm|done|done]. }
  rewrite (st_bind_run _ _ _ _ _ Hj). pose proof Hj as Hj'. apply joinStep_spec in Hj' as (new & _ & _ & Hp & Hpt & Hcov); [|done|done|].
  2: { intros q Hq. destruct (Hprev q Hq) as [? Hq']. split; [done|]. apply Hq'. by left. }
  apply IH; [done|done|done|done|]. intros q [= <-]. split; [done|]. intros u Hu. rewrite Forall_forall in Hle, Hdt, Hnz. specialize (Hle u Hu). specialize (Hdt u Hu). specialize (Hnz u Hu). simpl in Hnz.
  unfold temp_le in Hle. rewrite !decide_False in Hle by done. split; [lia|]. intros Hon. apply covers_host in Hon as [c Hc].
  assert (covered (new ++ [p]) (tm_hostPort u) c) as Hc'. { apply covered_app. right. apply covered_cons. by left. }
  apply Hcov in Hc'. apply covered_app in Hc' as [Hc'|Hc'].
  - destruct previous as [q|]; simpl in Hc'; [|by apply covered_nil in Hc']. apply covered_cons in Hc' as [Hc'|Hc']; [|by apply covered_nil in Hc'].
    destruct (Hprev q eq_refl) as [_ Hq']. destruct (Hq' u) as [_ Hn]; [by right|]. apply Hn, covers_host. by exists c.
  - apply covered_cons in Hc' as [Hc'|Hc']; [|by apply covered_nil in Hc']. assert (onHost (toMapping hostIP protocol t) (tm_hostPort u)) as Hon by (apply covers_host; by exists c).
    unfold onHost in Hon. simpl in Hon. rewrite Forall_forall in Hok. destruct (Hok u Hu) as (_ & Hr & _). unfold hostsApart in Hdt. lia.
Qed.

Lemma portGroup_accepts hostIP protocol ports s :
  Forall tempOk ports → Forall (λ t, tm_hostPort t ≠ 0) ports → pairwise hostsApart ports → ∃ s', portGroup hostIP protocol ports s = (Ok (), s').
Proof.
  intros Hok Hnz Hd. unfold portGroup. destruct (decide _); [by eexists|]. pose proof (merge_sort_Permutation temp_le ports) as Hperm.
  erewrite st_bind_run by done.
  destruct (joinFixed_accepts hostIP protocol None (merge_sort temp_le ports) (loadUsed protocol s).2) as (r & s1 & Hj & Er);
    [by rewrite Hperm|by rewrite Hperm|apply StronglySorted_merge_sort; apply _|by eapply pairwise_perm; [apply _|symmetry; apply Hperm|]|done|].
  rewrite (st_bind_run _ _ _ _ _ Hj), Er. destruct r.1; by eexists.
Qed.

Lemma groups_accept m visit s : (∀ k, Forall tempOk (groupRequests m k)) → (∀ k, Forall (λ t, tm_hostPort t ≠ 0) (groupRequests m k)) →
  (∀ k, pairwise hostsApart (groupRequests m k)) → ∃ s', forM_ visit (λ k, portGroup k.1 k.2 (groupRequests m k)) s = (Ok (), s').
Proof.
  intros H1 H2 H3. revert s. induction visit as [|k visit IH]; intros s; simpl; [by eexists|].
  destruct (portGroup_accepts k.1 k.2 (groupRequests m k) s (H1 k) (H2 k) (H3 k)) as [s1 E]. rewrite (st_bind_run _ _ _ _ _ E). apply IH.
Qed.

(** A mapping that passes the checks of [ParsePortMapping] *)
Record validPort (parseIP : string → bool) (p : PortMapping) : Prop := {
  vp_uint : portUint16 p;
  vp_protocol : ∃ l, checkProtocol (pm_Protocol p) true = Ok l;
  vp_ip : pm_HostIP p = "" ∨ parseIP (pm_HostIP p) = true;
  vp_container : 1 ≤ pm_ContainerPort p ∧ pm_ContainerPort p + rangeOf p ≤ 65536;
  vp_host : pm_HostPort p + rangeOf p ≤ 65536 }.

(** Two mappings share no address and protocol, or no host port. *)
Definition apart (p q : PortMapping) : Prop :=
  ∀ ip protocol, requests ip protocol p → requests ip protocol q → hostsApart (tempOf p) (tempOf q).

Lemma push_group hostIP t protocols m k : NoDup protocols →
  groupRequests (foldl (pushMapping hostIP t) m protocols) k = groupRequests m k ++ (if decide (k.1 = hostIP ∧ k.2 ∈ protocols) then [t] else []).
Proof.
  intros Hnd. revert m. induction protocols as [|pr protocols IH]; intros m; simpl.
  { rewrite decide_False by set_solver. by rewrite app_nil_r. }
  apply NoDup_cons in Hnd as [Hpr Hnd]. rewrite IH by done.
  assert (groupRequests (pushMapping hostIP t m pr) k = groupRequests m k ++ if decide (k = (hostIP, pr)) then [t] else []) as ->.
  { unfold groupRequests, pushMapping. destruct (decide (k = (hostIP, pr))) as [->|Hne]; [by rewrite lookup_insert_eq|by rewrite lookup_insert_ne, app_nil_r]. }
  rewrite <- app_assoc. f_equal. destruct k as [ip pr']. simpl. destruct (decide (ip = hostIP)) as [->|Hip].
  - destruct (decide (pr' = pr)) as [->|Hne].
    + rewrite decide_True by done. rewrite decide_False by tauto. rewrite decide_True by set_solver. done.
    + rewrite decide_False by congruence. simpl. destruct (decide (pr' ∈ protocols)); [rewrite !decide_True by set_solver|rewrite !decide_False by set_solver]; done.
  - rewrite decide_False by congruence. rewrite !decide_False by tauto. done.
Qed.

Lemma validateMapping_valid parseIP m p : validPort parseIP p → ∃ m', validateMapping parseIP m p = Ok m' ∧
  ∀ k, groupRequests m' k = groupRequests m k ∨ requests k.1 k.2 p ∧ groupRequests m' k = groupRequests m k ++ [tempOf p].
Proof.
  intros [Hu [l Hl] Hip Hc Hh]. unfold validateMapping. rewrite Hl. rewrite decide_False by (intros [? E]; destruct Hip; [done|congruence]).
  rewrite !decide_False by (unfold portUint16 in Hu; lia). eexists. split; [done|]. intros k. destruct (checkProtocol_known _ _ _ Hl) as [Hnd _].
  rewrite push_group by done. destruct (decide _) as [[E1 E2]|]; [right|left; by rewrite app_nil_r]. split; [|done]. split; [done|]. by exists l.
Qed.

Lemma validateMappings_valid parseIP ports m : Forall (validPort parseIP) ports → pairwise apart ports →
  (∀ k, pairwise hostsApart (groupRequests m k)) →
  (∀ k t p, t ∈ groupRequests m k → p ∈ ports → requests k.1 k.2 p → hostsApart (tempOf p) t) →
  ∃ m', validateMappings parseIP m ports = Ok m' ∧ ∀ k, pairwise hostsApart (groupRequests m' k).
Proof.
  revert m. induction ports as [|p ports IH]; intros m Hv Ha Hm Hmp; simpl; [by eexists|].
  apply Forall_cons in Hv as [Hp Hv]. destruct Ha as [Hpa Ha]. destruct (validateMapping_valid parseIP m p Hp) as (m1 & -> & Hk).
  apply IH; [done|done| |].
  - intros k. destruct (Hk k) as [->|[Hreq ->]]; [done|]. apply pairwise_snoc; [apply _|done|]. apply Forall_forall. intros t Ht. eapply Hmp; [done|by left|done].
  - intros k t q Ht Hq Hreq. destruct (Hk k) as [E|[Hreq' E]]; rewrite E in Ht; [eapply Hmp; [done|by right|done]|].
    apply elem_of_app in Ht as [Ht|Ht%list_elem_of_singleton]; [eapply Hmp; [done|by right|done]|]. subst t. symmetry. rewrite Forall_forall in Hpa. by eapply (Hpa q Hq).
Qed.
