(* ===== verification/Health.v ===== *)
(** * Health: health checks of a container

    [libpod/healthcheck.go] on the world of the life cycle.  The configuration of the checks is
    a record of its own; [c.exec] of [libpod/container_exec.go], which runs the command, is an
    argument; the log file with the results belongs to the host ([HealthHost]).  Health checks
    are looked up by the name of their container before they are run, which is not modelled. *)

From S2P Require Import Prelude Define Ports Strconv Graph Life LifeOps LifeApi.

Local Open Scope Z_scope.

(** ** Configuration and results *)

Record HealthConfig : Type := mkHealthConfig {
  hc_Test : list string;
  hc_Timeout : Z;
  hc_StartPeriod : Z;
  hc_Retries : Z }.

Record StartupHealthCheck : Type := mkStartupHealthCheck {
  sh_Test : list string;
  sh_Retries : Z;
  sh_Successes : Z }.

Inductive HealthCheckOnFailureAction : Type :=
| OnFailureNone | OnFailureInvalid | OnFailureKill | OnFailureRestart | OnFailureStop.

Inductive HealthCheckStatus : Type :=
| HealthCheckSuccess | HealthCheckFailure | HealthCheckContainerStopped | HealthCheckContainerNotFound
| HealthCheckNotDefined | HealthCheckInternalError | HealthCheckDefined | HealthCheckStartup.

Definition HealthCheckHealthy : string := "healthy".
Definition HealthCheckUnhealthy : string := "unhealthy".
Definition HealthCheckStarting : string := "starting".

Record HealthCheckLog : Type := mkHealthCheckLog {
  hl_Start : Z;
  hl_End : Z;
  hl_ExitCode : Z;
  hl_Output : string }.

Record HealthCheckResults : Type := mkHealthCheckResults {
  hr_Status : string;
  hr_FailingStreak : Z;
  hr_Log : list HealthCheckLog }.

#[export] Instance HealthCheckLog_eq_dec : EqDecision HealthCheckLog.
Proof. solve_decision. Defined.
#[export] Instance HealthCheckResults_eq_dec : EqDecision HealthCheckResults.
Proof. solve_decision. Defined.

Definition MaxHealthCheckNumberLogs : nat := 5.
Definition MaxHealthCheckLogLength : nat := 500.

(** The log file: [None] when there is none; failures are those of the file and of JSON.  The
    output of the command goes through a pipe. *)
Class HealthHost (H : Type) : Type := {
  hh_readLog : H → result error (option HealthCheckResults) * H;
  hh_writeLog : HealthCheckResults → H → result error () * H;
  hh_pipe : H → result error () * H }.

(** The body of [updateHealthCheckLog]: one more result *)
Definition recordStatus (retries : Z) (hcl : HealthCheckLog) (inStartPeriod : bool) (h : HealthCheckResults) : HealthCheckResults :=
  if decide (hl_ExitCode hcl = 0) then mkHealthCheckResults HealthCheckHealthy 0 (hr_Log h)
  else
    let status := if decide (hr_Status h = "") then HealthCheckHealthy else hr_Status h in
    if inStartPeriod then mkHealthCheckResults status (hr_FailingStreak h) (hr_Log h)
    else
      let streak := hr_FailingStreak h + 1 in
      mkHealthCheckResults (if decide (retries ≤ streak) then HealthCheckUnhealthy else status) streak (hr_Log h).

Definition recordLog (hcl : HealthCheckLog) (log : list HealthCheckLog) : list HealthCheckLog :=
  let log := log ++ [hcl] in
  if decide (MaxHealthCheckNumberLogs < length log)%nat then drop 1 log else log.

Definition record (retries : Z) (hcl : HealthCheckLog) (inStartPeriod : bool) (h : HealthCheckResults) : HealthCheckResults :=
  let h := recordStatus retries hcl inStartPeriod h in
  mkHealthCheckResults (hr_Status h) (hr_FailingStreak h) (recordLog hcl (hr_Log h)).

(** The command of a test, or [None] when no check is defined *)
Definition healthCommand (test : list string) : option (list string) :=
  let checked (c : list string) := match c with [] => None | x :: _ => if decide (x = "") then None else Some c end in
  match test with
  | [] => None
  | kind :: args =>
      if decide (kind = "" ∨ kind = "NONE") then None
      else if decide (kind = "CMD") then checked args
      else if decide (kind = "CMD-SHELL") then checked ["/bin/sh"; "-c"; String.concat " " args]
      else checked test
  end.

Definition newHealthCheckLog (start end_ exitCode : Z) (log : string) : HealthCheckLog := mkHealthCheckLog start end_ exitCode log.

Definition shorten (s : string) : string :=
  if decide (MaxHealthCheckLogLength < String.length s)%nat then String.substring 0 MaxHealthCheckLogLength s else s.

(** What the exit code and the error of the command mean: the result, the code that is logged
    and the error that is returned *)
Definition outcomeOf (exitCode : Z) (hcErr : option error) : HealthCheckStatus * Z * option error :=
  match hcErr with
  | Some e =>
      if decide (e = ErrOCIRuntimeNotFound ∨ e = ErrOCIRuntimePermissionDenied ∨ e = ErrOCIRuntime) then (HealthCheckFailure, 1, None)
      else (HealthCheckFailure, 125, Some e)
  | None => if decide (exitCode = 0) then (HealthCheckSuccess, 0, None) else (HealthCheckFailure, 1, None)
  end.

Section health.
Context {H : Type} `{Host H, HealthHost H} (config : ContainerConfig) (batched : bool).
Context (check : option HealthConfig) (startup : option StartupHealthCheck) (onFailure : HealthCheckOnFailureAction).

(** ** The log file *)

Definition getHealthCheckLog : LM H HealthCheckResults :=
  r ← host hh_readLog;
  mret (default (mkHealthCheckResults "" 0 []) r).

Definition updateHealthStatus (status : string) : LM H () :=
  h ← getHealthCheckLog;
  host (hh_writeLog (mkHealthCheckResults status (hr_FailingStreak h) (hr_Log h))).

Definition updateHealthCheckLog (retries : Z) (hcl : HealthCheckLog) (inStartPeriod : bool) : LM H string :=
  _ ← Lock AtCall;
  finally (
    h ← getHealthCheckLog;
    let h := record retries hcl inStartPeriod h in
    _ ← host (hh_writeLog h);
    mret (hr_Status h)) Unlock.

Definition healthCheckStatus : LM H string :=
  match check with
  | None => mret ""
  | Some _ => _ ← syncContainer config; h ← getHealthCheckLog; mret (hr_Status h)
  end.

Definition HealthCheckStatus_ : LM H string :=
  if batched then healthCheckStatus else _ ← Lock AtCall; finally healthCheckStatus Unlock.

(** ** The startup health check *)

(** The first lines of both functions; errors are logged. *)
Definition counting (body : LM H ()) : LM H () :=
  if batched then body
  else _ ← Lock AtCall;
       finally (e ← attempt (syncContainer config);
                match e with Some _ => mret () | None => body end) Unlock.

Definition recreateTimer : LM H () :=
  e ← attempt (ask (CreateTimer false));
  match e with
  | Some _ => mret ()
  | None =>
      _ ← ignore (ask (StartTimer false));
      ignore (ask (RemoveTransientFiles true))
  end.

Definition incrementStartupHCSuccessCounter : LM H () :=
  counting (
    match startup with
    | None => mret ()
    | Some sh =>
        passed ← getState cs_StartupHCPassed;
        if passed : bool then mret () else
        _ ← onState (λ s, cs_set_StartupHCSuccessCount (cs_StartupHCSuccessCount s + 1) s);
        count ← getState cs_StartupHCSuccessCount;
        let done_ := bool_decide (sh_Successes sh = 0 ∨ sh_Successes sh ≤ count) in
        _ ← (if done_ then onState (λ s, cs_set_StartupHCFailureCount 0 (cs_set_StartupHCSuccessCount 0 (cs_set_StartupHCPassed true s))) else mret ());
        e ← attempt save;
        match e with
        | Some _ => mret ()
        | None => if done_ then recreateTimer else mret ()
        end
    end).

Definition incrementStartupHCFailureCounter : LM H () :=
  counting (
    match startup with
    | None => mret ()
    | Some sh =>
        passed ← getState cs_StartupHCPassed;
        if passed : bool then mret () else
        _ ← onState (λ s, cs_set_StartupHCFailureCount (cs_StartupHCFailureCount s + 1) s);
        count ← getState cs_StartupHCFailureCount;
        if decide (sh_Retries sh ≠ 0 ∧ sh_Retries sh ≤ count) then ignore (restartWithTimeout config batched (cc_StopTimeout config))
        else ignore save
    end).

Definition StartupHCPassed : LM H bool := locked config batched (getState cs_StartupHCPassed).

(** ** Running a check *)

(** [c.exec]: the exit code, the error, and the lines that the command printed *)
Context (exec : list string → LM H (Z * option error * list string)).

(** The result, the status in the log, and the error *)
Abbreviation checked := (HealthCheckStatus * string * option error)%type.

Definition runHealthCheck (hc : HealthConfig) (isStartup : bool) : LM H checked :=
  let test := if isStartup then match startup with Some sh => sh_Test sh | None => [] end else hc_Test hc in
  match healthCommand test with
  | None => mret (HealthCheckNotDefined, "", Some ErrText)
  | Some command =>
      pipe ← attempt (host hh_pipe);
      if decide (is_Some pipe) then mret (HealthCheckInternalError, "", Some ErrHost) else
      timeStart ← host' h_now;
      x ← exec command;
      let '(exitCode, err, stdout) := x in
      let '(hcResult, returnCode, hcErr) := outcomeOf exitCode err in
      let failed := bool_decide (is_Some hcErr ∨ exitCode ≠ 0) in
      _ ← (if isStartup then if failed then incrementStartupHCFailureCounter else incrementStartupHCSuccessCounter else mret ());
      let hcResult := if isStartup && failed then HealthCheckStartup else hcResult in
      timeEnd ← host' h_now;
      started ← getState cs_StartedTime;
      let inStartPeriod := isStartup || bool_decide (0 < hc_StartPeriod hc ∧ timeStart < started + hc_StartPeriod hc) in
      let eventLog := shorten (String.concat (String (Ascii.ascii_of_nat 10) "") stdout) in
      let late := bool_decide (hc_Timeout hc < timeEnd - timeStart) in
      let '(hcResult, returnCode, hcErr) := if late then (HealthCheckFailure, -1, Some ErrText) else (hcResult, returnCode, hcErr) in
      r ← caught (updateHealthCheckLog (hc_Retries hc) (newHealthCheckLog timeStart timeEnd returnCode eventLog) inStartPeriod);
      mret match r with
           | Ok logStatus => (hcResult, logStatus, hcErr)
           | Err e => (hcResult, "", Some e)
           end
  end.

Definition processHealthCheckStatus (status : string) : LM H () :=
  if decide (status ≠ HealthCheckUnhealthy) then mret ()
  else match onFailure with
       | OnFailureNone => mret ()
       | OnFailureKill => Kill config batched SIGKILL
       | OnFailureRestart => RestartWithTimeout config batched (cc_StopTimeout config)
       | OnFailureStop => Stop config batched
       | OnFailureInvalid => throw ErrText
       end.

Definition checkHealthCheckCanBeRun : LM H (HealthCheckStatus * option error) :=
  r ← caught (State config batched);
  mret match r with
       | Err e => (HealthCheckInternalError, Some e)
       | Ok s => if decide (s ≠ Running) then (HealthCheckContainerStopped, Some ErrText)
                 else match check with None => (HealthCheckNotDefined, Some ErrText) | Some _ => (HealthCheckDefined, None) end
       end.

Definition HealthCheck : LM H (HealthCheckStatus * option error) :=
  s ← checkHealthCheckCanBeRun;
  match s.2, check with
  | Some e, _ => mret (s.1, Some e)
  | None, None => mret s
  | None, Some hc =>
      p ← (match startup with None => mret (Ok true) | Some _ => caught StartupHCPassed end);
      match p with
      | Err e => mret (HealthCheckInternalError, Some e)
      | Ok passed =>
          let isStartupHC := negb passed in
          c ← runHealthCheck hc isStartupHC;
          let '(hcStatus, logStatus, err) := c in
          if isStartupHC then mret (hcStatus, err)
          else
            r ← caught (processHealthCheckStatus logStatus);
            mret match r with Ok _ => (hcStatus, err) | Err e => (hcStatus, Some e) end
      end
  end.
End health.

(** ** What the log says about a history of checks *)

(** A check: what was logged, and whether it ran in the start period *)
Abbreviation attempt_ := (HealthCheckLog * bool)%type.

(** The checks since the last success, newest first *)
Fixpoint sinceSuccess (newestFirst : list attempt_) : list attempt_ :=
  match newestFirst with
  | [] => []
  | c :: l => if decide (hl_ExitCode c.1 = 0) then [] else c :: sinceSuccess l
  end.

(** Failures that count: since the last success, and outside of the start period *)
Definition failures (checks : list attempt_) : Z := Z.of_nat (length (filter (λ c, c.2 = false) (sinceSuccess (rev checks)))).

Definition succeeded (checks : list attempt_) : bool := existsb (λ c, bool_decide (hl_ExitCode c.1 = 0)) checks.

(** The results that a history stands for *)
Definition health (retries : Z) (checks : list attempt_) : HealthCheckResults :=
  mkHealthCheckResults
    (if decide (retries ≤ failures checks) then HealthCheckUnhealthy else if succeeded checks then HealthCheckHealthy else HealthCheckStarting)
    (failures checks)
    (drop (length checks - MaxHealthCheckNumberLogs) checks.*1).

Lemma recordLog_last hcl log all : log = drop (length all - MaxHealthCheckNumberLogs) all →
  recordLog hcl log = drop (length (all ++ [hcl]) - MaxHealthCheckNumberLogs) (all ++ [hcl]).
Proof.
  intros ->. unfold recordLog, MaxHealthCheckNumberLogs. rewrite !length_app, length_drop. simpl length.
  destruct (decide (5 ≤ length all)%nat) as [Hl|Hl].
  - rewrite decide_True by lia. rewrite <- drop_app_le by lia. rewrite drop_drop. f_equal. lia.
  - rewrite decide_False by lia. rewrite !(proj2 (Nat.sub_0_le _ _)) by lia. done.
Qed.

Lemma record_health retries checks c : 0 < retries → record retries c.1 c.2 (health retries checks) = health retries (checks ++ [c]).
Proof.
  intros Hr. unfold record. assert (recordLog c.1 (drop (length checks - MaxHealthCheckNumberLogs) checks.*1) = drop (length (checks ++ [c]) - MaxHealthCheckNumberLogs) (checks ++ [c]).*1) as Hlog.
  { rewrite fmap_app. rewrite (recordLog_last c.1 _ checks.*1); [|by rewrite length_fmap]. by rewrite !length_app, length_fmap. }
  unfold health, failures, succeeded. rewrite rev_app_distr, existsb_app. simpl. unfold recordStatus.
  destruct (decide (hl_ExitCode c.1 = 0)) as [E|E]; simpl.
  - rewrite (bool_decide_eq_true_2 _ E), orb_true_r, decide_False by lia. by rewrite Hlog.
  - rewrite (bool_decide_eq_false_2 _ E), !orb_false_r. rewrite decide_False; last by repeat case_match. destruct (c.2) eqn:Eb; simpl.
    + rewrite filter_cons_False by congruence. by rewrite Hlog.
    + rewrite filter_cons_True by done. simpl length. rewrite Nat2Z.inj_succ, Hlog. unfold Z.succ. set (n := length _). f_equal.
      destruct (decide (retries ≤ Z.of_nat n + 1)) as [|Hn]; [done|]. by rewrite decide_False by lia.
Qed.

(** The log file keeps what was written to it; other processes that hold the lock in between
    leave it alone. *)
Class HealthLaws (H : Type) `{Host H, HealthHost H} : Type := {
  hh_file : H → option HealthCheckResults;
  readLog_law h r h' : hh_readLog h = (r, h') → hh_file h' = hh_file h ∧ ∀ x, r = Ok x → x = hh_file h;
  writeLog_law v h h' : hh_writeLog v h = (Ok (), h') → hh_file h' = Some v;
  others_law at_ d h d' h' : h_others at_ d h = (d', h') → hh_file h' = hh_file h }.

Section history.
Context {H : Type} `{HealthLaws H} (retries : Z).

Fixpoint runChecks (checks : list attempt_) : LM H () :=
  match checks with
  | [] => mret ()
  | c :: checks => _ ← updateHealthCheckLog retries c.1 c.2; runChecks checks
  end.

Lemma updateHealthCheckLog_run hcl b h (w w' : LWorld H) s : l_locked w = false → hh_file (l_host w) = Some h →
  updateHealthCheckLog retries hcl b w = (Ok s, w') →
  l_locked w' = false ∧ l_fatal w' = l_fatal w ∧ l_state w' = l_state w ∧ hh_file (l_host w') = Some (record retries hcl b h) ∧ s = hr_Status (record retries hcl b h).
Proof.
  intros Hl Hf. unfold updateHealthCheckLog, mbind at 1, st_bind at 1. unfold Lock. rewrite Hl. destruct (h_others AtCall (l_db w) (l_host w)) as [d h1] eqn:Eo. apply others_law in Eo.
  unfold finally, getHealthCheckLog, mbind, st_bind, host. simpl. destruct (hh_readLog h1) as [r h2] eqn:Er. apply readLog_law in Er as [E2 Hr]. destruct r as [x|]; [|by intros [=]].
  assert (x = Some h) as -> by (rewrite (Hr x eq_refl); congruence). simpl. destruct (hh_writeLog (record retries hcl b h) h2) as [[[]|] h3] eqn:Ew; [|by intros [=]].
  apply writeLog_law in Ew. unfold Unlock. simpl. intros [= <- <-]. simpl. done.
Qed.

Lemma runChecks_health checks done_ (w w' : LWorld H) : 0 < retries → l_locked w = false → hh_file (l_host w) = Some (health retries done_) →
  runChecks checks w = (Ok (), w') → l_locked w' = false ∧ l_fatal w' = l_fatal w ∧ hh_file (l_host w') = Some (health retries (done_ ++ checks)).
Proof.
  intros Hp. revert done_ w. induction checks as [|c checks IH]; intros done_ w Hl Hf; simpl; [intros [= <-]; by rewrite app_nil_r|].
  rewrite st_bind_Ok. intros (s & w1 & E & Hr). destruct (updateHealthCheckLog_run _ _ _ _ _ _ Hl Hf E) as (Hl1 & Ht1 & _ & Hf1 & _).
  rewrite record_health in Hf1 by done. destruct (IH _ _ Hl1 Hf1 Hr) as (Hl2 & Ht2 & Hf2). rewrite <- app_assoc in Hf2. split_and!; [done|congruence|done].
Qed.
End history.

(** C22: The log of health checks tells the truth about its history: after any checks from the start
    of the container, all of which could be recorded, the failing streak is the number of failures
    since the last success that were not in the start period, the container is unhealthy exactly
    when this reaches the number of retries (the code says so, while its comment asks for more
    failures than retries), otherwise healthy once a check has succeeded and starting before, the
    log has the last five checks, and the lock is given back.  The number of retries is positive,
    and nobody else changes the log file ([HealthLaws]). *)
Theorem health_history {H : Type} `{HealthLaws H} retries checks (w w' : LWorld H) : 0 < retries → l_locked w = false →
  hh_file (l_host w) = Some (mkHealthCheckResults HealthCheckStarting 0 []) → runChecks retries checks w = (Ok (), w') →
  l_locked w' = false ∧ l_fatal w' = l_fatal w ∧ hh_file (l_host w') = Some (health retries checks).
Proof.
  intros Hp Hl Hf. apply (runChecks_health retries checks []); [done|done|]. rewrite Hf. unfold health, failures. simpl. by rewrite decide_False by lia.
Qed.

(** ** Witness

    A host that only has the log file *)

Definition logOps : ContainerOps (option HealthCheckResults) := {|
  op_checkDependenciesRunning := λ _ h, (Ok [], h);
  op_syncContainer := λ _ h, (Ok (), h);
  op_state := λ _ _, Running;
  op_initAndStart := λ _ h, (Ok (), h);
  op_restartWithTimeout := λ _ _ h, (Ok (), h);
  op_GetContainer := λ _ h, (Ok (), h);
  op_savePod := λ _ h, (Ok (), h);
  op_removeContainer := λ _ h, (Ok (), h) |}.

#[export] Instance logHost : Host (option HealthCheckResults) := {|
  h_request := λ _ h, (Ok (), h);
  h_create := λ h, (NotCreated ErrHost, h);
  h_state := λ h, (RuntimeStatus 100 "running", h);
  h_ping := λ _ h, (Alive, h);
  h_signal := λ _ _ h, (Alive, h);
  h_waitPid := λ _ _ h, (true, h);
  h_statExitFile := λ h, (Ok None, h);
  h_readExitFile := λ h, (Err ErrHost, h);
  h_oom := λ h, (false, h);
  h_legacyPID := λ _, 0;
  h_execExitCode := λ _ h, (Ok 0, h);
  h_mountStorage := λ h, (Err ErrHost, h);
  h_mountedImage := λ h, (Ok 0, h);
  h_createNetNS := λ h, (Err ErrHost, h);
  h_runDir := λ h, (Ok "/run/ctr", h);
  h_networkDisabled := λ _ h, (Ok false, h);
  h_container := λ _ h, (Err ErrNoSuchCtr, h);
  h_status := λ _ h, (Ok Running, h);
  h_ops := logOps;
  h_inUse := λ h, (Ok [], h);
  h_pod := λ h, (Err ErrNoSuchPod, h);
  h_updatePod := λ h, (Err ErrNoSuchPod, h);
  h_errorText := λ _, "failed";
  h_networkStatus := λ _, ∅;
  h_order := λ l, l;
  h_rootless := false;
  h_cgroup2 := λ h, (Ok true, h);
  h_now := λ h, (0, h);
  h_database := λ h, (Ok (), h);
  h_others := λ _ d h, (d, h) |}.

#[export] Instance logFileHost : HealthHost (option HealthCheckResults) := {|
  hh_readLog := λ h, (Ok h, h);
  hh_writeLog := λ v _, (Ok (), Some v);
  hh_pipe := λ h, (Ok (), h) |}.

#[export] Program Instance logFileLaws : HealthLaws (option HealthCheckResults) := {| hh_file := id |}.
Next Obligation. intros h r h' [= <- <-]. split; [done|]. by intros x [= <-]. Qed.
Next Obligation. by intros v h h' [= <-]. Qed.
Next Obligation. by intros at_ d h d' h' [= <- <-]. Qed.

Definition freshLog : LWorld (option HealthCheckResults) :=
  mkLWorld newContainerState true false false false (Some newContainerState) (Some (mkHealthCheckResults HealthCheckStarting 0 [])) [].

(** A failure in the start period, a success, and two failures *)
Definition fourChecks : list attempt_ := (λ x : Z * bool, (mkHealthCheckLog 0 0 x.1 "", x.2)) <$> [(1, true); (0, false); (1, false); (1, false)].

Lemma health_history_witness : ∃ w', runChecks 2 fourChecks freshLog = (Ok (), w') ∧
  (hr_Status <$> l_host w') = Some HealthCheckUnhealthy ∧ (hr_FailingStreak <$> l_host w') = Some 2.
Proof.
  destruct (runChecks 2 fourChecks freshLog) as [r w'] eqn:E. assert (r = Ok ()) as ->.
  { change r with (r, w').1. rewrite <- E. vm_compute. reflexivity. }
  destruct (health_history 2 fourChecks freshLog w') as (_ & _ & Hf).
  - lia.
  - reflexivity.
  - reflexivity.
  - exact E.
  - exists w'. split; [reflexivity|]. simpl in Hf. unfold id in Hf. rewrite Hf. split; vm_compute; reflexivity.
Defined.
