(* ===== verification/Logs.v ===== *)
(** * Logs: reading the log file of a container

    [libpod/logs/log.go], [libpod/logs/reversereader/reversereader.go] and [readFromLogFile] of
    [libpod/container_log.go].  A file is its bytes; [fault] says at which offsets it cannot be
    read.  A time is the number of nanoseconds since Go's zero time; parsing and formatting it,
    and the package [nxadm/tail], which delivers the lines that are read forwards, are
    arguments. *)

From S2P Require Import Prelude Define Strconv UnitText QuadletText.

(** ** Lines *)

Record LogLine : Type := mkLogLine {
  ll_Device : text;
  ll_ParseLogType : text;
  ll_Time : Z;
  ll_Msg : text;
  ll_CID : text;
  ll_CName : text;
  ll_ColorID : Z }.

#[export] Instance LogLine_eq_dec : EqDecision LogLine.
Proof. solve_decision. Defined.

(** [Details] is not read; [Follow] and [WaitGroup] belong to following a file that grows. *)
Record LogOptions : Type := mkLogOptions {
  lo_Since : Z;
  lo_Until : Z;
  lo_Tail : Z;
  lo_Timestamps : bool;
  lo_Colors : bool;
  lo_Multi : bool;
  lo_UseName : bool }.

Inductive logError : Type :=
| NotALogLine (line : text)
| BadLogTime (time : text)
| LogNotExist
| LogUnreadable.

#[export] Instance logError_eq_dec : EqDecision logError.
Proof. solve_decision. Defined.

Definition PartialLogType : text := T "P".
Definition FullLogType : text := T "F".
Definition ANSIEscapeResetCode : text := "027"%char :: T "[0m".

Definition ll_set_Msg (v : text) (l : LogLine) : LogLine :=
  mkLogLine (ll_Device l) (ll_ParseLogType l) (ll_Time l) v (ll_CID l) (ll_CName l) (ll_ColorID l).

(** [strings.Split] at a separator of one byte *)
Fixpoint Split (s : text) (sep : ascii) : list text :=
  match s with
  | [] => [[]]
  | c :: s =>
      if decide (c = sep) then [] :: Split s sep
      else match Split s sep with x :: l => (c :: x) :: l | [] => [[c]] end
  end.

Definition Partial (l : LogLine) : bool := bool_decide (ll_ParseLogType l = PartialLogType).

Definition Since (l : LogLine) (since : Z) : bool := (since <? ll_Time l)%Z || (since =? 0)%Z.
Definition Until (l : LogLine) (until : Z) : bool := (ll_Time l <? until)%Z || (until =? 0)%Z.

(** The map of the source, which has no entry for a negative remainder *)
Definition getColor (colorID : Z) : text :=
  let escape n := "027"%char :: T n in
  match Z.rem colorID 7 with
  | 0 => escape "[37m"
  | 1 => escape "[31m"
  | 2 => escape "[33m"
  | 3 => escape "[34m"
  | 4 => escape "[35m"
  | 5 => escape "[36m"
  | 6 => escape "[32m"
  | _ => []
  end%Z.

Definition colorize (l : LogLine) (prefix : text) : text := getColor (ll_ColorID l) ++ prefix ++ ll_Msg l ++ ANSIEscapeResetCode.

(** ** Reading backwards *)

Record ReverseReader : Type := mkReverseReader {
  rr_reader : text;
  rr_offset : Z;
  rr_readSize : Z }.

Definition NewReverseReader (reader : text) (pageSize : Z) : ReverseReader :=
  let size := Z.of_nat (length reader) in
  let remainder := (size mod pageSize)%Z in
  let startOffset := (size - remainder)%Z in
  mkReverseReader reader (if decide (startOffset < 0)%Z then 0%Z else startOffset) pageSize.

Inductive readResult : Type :=
| ReadEOF
| ReadFailed
| ReadBytes (s : text).

(** [ReadAt] gives the bytes up to the end of the file. *)
Definition rr_Read (fault : Z → bool) (r : ReverseReader) : readResult * ReverseReader :=
  if decide (rr_offset r < 0)%Z then (ReadEOF, r)
  else if fault (rr_offset r) then (ReadFailed, r)
  else (ReadBytes (take (Z.to_nat (rr_readSize r)) (drop (Z.to_nat (rr_offset r)) (rr_reader r))),
        mkReverseReader (rr_reader r) (rr_offset r - rr_readSize r) (rr_readSize r)).

(** What the goroutine sends on the channel [inputs] *)
Fixpoint sendInputs (fuel : nat) (fault : Z → bool) (r : ReverseReader) (leftover : text) : list (list text) :=
  match fuel with
  | O => []
  | S fuel =>
      match rr_Read fault r with
      | (ReadEOF, _) => [[leftover]]
      | (ReadFailed, _) => []
      | (ReadBytes s, r) =>
          match Split (s ++ leftover) LF with
          | [] => sendInputs fuel fault r leftover
          | [first] => sendInputs fuel fault r first
          | first :: rest => rest :: sendInputs fuel fault r first
          end
      end
  end.

Section time.
(** [time.Parse] and [Time.Format] with [LogTimeFormat] *)
Context (parseTime : text → option Z) (formatTime : Z → text).

Definition NewLogLine (line : text) : result logError LogLine :=
  match Split line SP with
  | first :: device :: logType :: m :: ms =>
      match parseTime first with
      | None => Err (BadLogTime first)
      | Some logTime => Ok (mkLogLine device logType logTime (JoinWith [SP] (m :: ms)) [] [] 0)
      end
  | _ => Err (NotALogLine line)
  end.

(** The loop over one message of the channel, from its end *)
Fixpoint parseBackwards (lines : list text) : result logError (list LogLine) :=
  match lines with
  | [] => Ok []
  | line :: rest =>
      match line with
      | [] => parseBackwards rest
      | _ => nll ← NewLogLine line; nlls ← parseBackwards rest; Ok (nll :: nlls)
      end
  end.

Definition countFull (nlls : list LogLine) : Z := Z.of_nat (length (filter (λ l, Partial l = false) nlls)).

(** The loop over the channel; [nlls] and [nllCounter] are its variables. *)
Fixpoint receive (tail : Z) (inputs : list (list text)) (nlls : list LogLine) (nllCounter : Z) : result logError (list LogLine) :=
  match inputs with
  | [] => Ok nlls
  | i :: inputs =>
      new ← parseBackwards (rev i);
      let counter := (nllCounter + countFull new)%Z in
      if decide (tail ≤ counter)%Z then Ok (nlls ++ new) else receive tail inputs (nlls ++ new) counter
  end.

(** The loop that puts the lines together again *)
Fixpoint reassemble (tail : Z) (nlls : list LogLine) (partial : text) (tailLog : list LogLine) : list LogLine :=
  match nlls with
  | [] => tailLog
  | nll :: nlls =>
      let '(partial, tailLog) := if Partial nll then (partial ++ ll_Msg nll, tailLog) else ([], ll_set_Msg (ll_Msg nll ++ partial) nll :: tailLog) in
      if decide (Z.of_nat (length tailLog) = tail) then tailLog else reassemble tail nlls partial tailLog
  end.

(** One read more than there are pages, and the one that finds the beginning of the file *)
Definition readsNeeded (r : ReverseReader) : nat := S (S (Z.to_nat (rr_offset r / rr_readSize r))).

Definition getTailLog (fault : Z → bool) (pageSize : Z) (file : result logError text) (tail : Z) : result logError (list LogLine) :=
  f ← file;
  let rr := NewReverseReader f pageSize in
  nlls ← receive tail (sendInputs (readsNeeded rr) fault rr []) [] 0;
  Ok (reassemble tail nlls [] []).

(** [tailFile whence]: the lines that the package [tail] delivers from the start of the file
    ([whence] 0) or from its end (2) *)
Definition GetLogFile (fault : Z → bool) (pageSize : Z) (file : result logError text) (tailFile : Z → result logError (list text))
    (options : LogOptions) : result logError (list text * list LogLine) :=
  let whence := if decide (0 ≤ lo_Tail options)%Z then 2%Z else 0%Z in
  logTail ← (if decide (0 < lo_Tail options)%Z then getTailLog fault pageSize file (lo_Tail options) else Ok []);
  t ← tailFile whence;
  Ok (t, logTail).

Definition stamp (cid cname : text) (colorID : Z) (l : LogLine) : LogLine :=
  mkLogLine (ll_Device l) (ll_ParseLogType l) (ll_Time l) (ll_Msg l) cid cname colorID.

Definition inWindow (options : LogOptions) (l : LogLine) : bool := Since l (lo_Since options) && Until l (lo_Until options).

(** The lines that are sent on [logChannel], when the client does not hang up.  With [Follow]
    the package [tail] delivers more lines until the container exits. *)
Definition readFromLogFile (fault : Z → bool) (pageSize : Z) (file : result logError text) (tailFile : Z → result logError (list text))
    (options : LogOptions) (cid cname : text) (colorID : Z) : result logError (list LogLine) :=
  match GetLogFile fault pageSize file tailFile options with
  | Err LogNotExist => Ok []
  | Err e => Err e
  | Ok (t, tailLog) =>
      let lines := omap (λ line, match NewLogLine line with Ok nll => Some nll | Err _ => None end) t in
      Ok (filter (λ l, inWindow options l = true) (stamp cid cname colorID <$> (tailLog ++ lines)))
  end.

(** ** Printing *)

Definition ll_String (l : LogLine) (options : LogOptions) : text :=
  let out := if lo_Multi options then (if lo_UseName options then ll_CName l else take 12 (ll_CID l)) ++ [SP] else [] in
  let out := if lo_Timestamps options then out ++ formatTime (ll_Time l) ++ [SP] else out in
  if lo_Colors options then colorize l out else out ++ ll_Msg l.

(** What is appended to standard output and to standard error, where they are not nil *)
Definition ll_Write (stdout stderr : bool) (l : LogLine) (options : LogOptions) : text * text :=
  let out := if Partial l then ll_String l options else ll_String l options ++ [LF] in
  if decide (ll_Device l = T "stdout") then (if stdout then out else [], [])
  else if decide (ll_Device l = T "stderr") then ([], if stderr then out else [])
  else ([], []).

(** The line that [conmon] writes for [l] *)
Definition printLine (l : LogLine) : text :=
  formatTime (ll_Time l) ++ SP :: ll_Device l ++ SP :: ll_ParseLogType l ++ SP :: ll_Msg l.
End time.

(** ** Splitting *)

Lemma Split_nonempty s sep : ∃ x l, Split s sep = x :: l.
Proof. induction s as [|c s (x & l & E)]; simpl; [by eexists _, _|]. destruct (decide _); [by eexists _, _|]. rewrite E. by eexists _, _. Qed.

Lemma Split_none s sep : sep ∉ s → Split s sep = [s].
Proof. induction s as [|c s IH]; simpl; [done|]. intros Hs. rewrite decide_False by set_solver. by rewrite IH by set_solver. Qed.

Lemma Split_cut a b sep : sep ∉ a → Split (a ++ sep :: b) sep = a :: Split b sep.
Proof. induction a as [|c a IH]; simpl; [by rewrite decide_True|]. intros Ha. rewrite decide_False by set_solver. by rewrite IH by set_solver. Qed.

Lemma Split_head s sep first rest : Split s sep = first :: rest → sep ∉ first.
Proof.
  revert first rest. induction s as [|c s IH]; simpl; intros first rest; [intros [= <- <-]; apply not_elem_of_nil|].
  destruct (decide _); [intros [= <- <-]; apply not_elem_of_nil|]. destruct (Split_nonempty s sep) as (x & l & E). rewrite E. intros [= <- <-].
  specialize (IH x l E). set_solver.
Qed.

(** Only the first part of the second string depends on the first string. *)
Lemma Split_app p s sep first rest : Split s sep = first :: rest → Split (p ++ s) sep = Split (p ++ first) sep ++ rest.
Proof.
  intros Hs. induction p as [|c p IH]; simpl.
  - rewrite Hs. by rewrite Split_none by by eapply Split_head.
  - destruct (decide _); [by rewrite IH|]. rewrite IH. by destruct (Split_nonempty (p ++ first) sep) as (x & l & ->).
Qed.

Lemma JoinWith_Split s sep : JoinWith [sep] (Split s sep) = s.
Proof.
  induction s as [|c s IH]; simpl; [done|]. destruct (Split_nonempty s sep) as (x & l & E). destruct (decide (c = sep)) as [->|].
  - rewrite E in *. simpl in *. by rewrite IH.
  - rewrite E in *. destruct l; simpl in *; by rewrite IH.
Qed.

(** ** The lines that are sent *)

(** Whatever the page size, the messages of the channel are the lines of the file, from the end. *)
Lemma sendInputs_lines fuel file pageSize k leftover : (0 < pageSize)%Z → (-1 ≤ k)%Z → Z.to_nat (k + 1) < fuel → LF ∉ leftover →
  concat (rev (sendInputs fuel (λ _, false) (mkReverseReader file (k * pageSize) pageSize) leftover)) =
  Split (take (Z.to_nat ((k + 1) * pageSize)) file ++ leftover) LF.
Proof.
  intros Hp. revert k leftover. induction fuel as [|fuel IH]; intros k leftover Hk Hf Hl; [lia|]. simpl. unfold rr_Read. simpl.
  destruct (decide (k * pageSize < 0)%Z) as [Hneg|Hpos].
  - assert (k = -1)%Z as -> by nia. simpl. by rewrite Split_none.
  - assert (0 ≤ k)%Z as Hk0 by nia.
    set (s := take (Z.to_nat pageSize) (drop (Z.to_nat (k * pageSize)) file)).
    assert (take (Z.to_nat ((k + 1) * pageSize)) file = take (Z.to_nat (k * pageSize)) file ++ s) as ->.
    { unfold s. rewrite <- (take_drop (Z.to_nat (k * pageSize)) file) at 1. replace ((k + 1) * pageSize)%Z with (k * pageSize + pageSize)%Z by lia.
      rewrite Z2Nat.inj_add by lia. by rewrite take_take_drop, take_drop. }
    rewrite <- app_assoc. destruct (Split_nonempty (s ++ leftover) LF) as (first & rest & E). rewrite E, (Split_app _ _ _ _ _ E).
    pose proof (Split_head _ _ _ _ E) as Hfirst.
    replace (k * pageSize - pageSize)%Z with ((k - 1) * pageSize)%Z by lia.
    specialize (IH (k - 1)%Z first ltac:(lia) ltac:(lia) Hfirst). replace (k - 1 + 1)%Z with k in IH by lia.
    destruct rest as [|l rest]; simpl; [by rewrite IH, app_nil_r|]. rewrite concat_app, IH. simpl. by rewrite app_nil_r.
Qed.

Lemma sendInputs_file file pageSize : (0 < pageSize)%Z →
  concat (rev (sendInputs (readsNeeded (NewReverseReader file pageSize)) (λ _, false) (NewReverseReader file pageSize) [])) = Split file LF.
Proof.
  intros Hp. unfold NewReverseReader. set (size := Z.of_nat (length file)). pose proof (Z.mod_pos_bound size pageSize Hp). pose proof (Z.div_mod size pageSize ltac:(lia)) as Hdm.
  assert (size - size mod pageSize = size / pageSize * pageSize)%Z as -> by lia. pose proof (Z.div_pos size pageSize ltac:(lia) Hp).
  rewrite decide_False by nia. unfold readsNeeded. simpl rr_offset. simpl rr_readSize. rewrite Z.div_mul by lia.
  rewrite sendInputs_lines; [|done|lia|lia|apply not_elem_of_nil]. rewrite app_nil_r. f_equal. apply take_ge. lia.
Qed.

(** ** What is received *)

Section received.
Context (parseTime : text → option Z).

Lemma parseBackwards_app l l' r r' : parseBackwards parseTime l = Ok r → parseBackwards parseTime l' = Ok r' →
  parseBackwards parseTime (l ++ l') = Ok (r ++ r').
Proof.
  revert r. induction l as [|line l IH]; intros r; simpl; [by intros [= <-]|]. destruct line as [|c line]; [apply IH|].
  destruct (NewLogLine parseTime _) as [nll|]; [|done]. change (x ← Ok nll; ?f x) with (f nll). simpl.
  destruct (parseBackwards parseTime l) as [nlls|]; [|done]. intros [= <-] Hr'. change (mbind ?f (Ok nll)) with (f nll). simpl. by rewrite (IH nlls).
Qed.

Lemma parseBackwards_app_inv l l' r : parseBackwards parseTime (l ++ l') = Ok r →
  ∃ r1 r2, parseBackwards parseTime l = Ok r1 ∧ parseBackwards parseTime l' = Ok r2 ∧ r = r1 ++ r2.
Proof.
  revert r. induction l as [|line l IH]; intros r; simpl; [by exists [], r|]. destruct line as [|c line]; [apply IH|].
  destruct (NewLogLine parseTime _) as [nll|]; [|done]. change (mbind ?f (Ok nll)) with (f nll). cbv beta.
  destruct (parseBackwards parseTime (l ++ l')) as [nlls|]; [|done]. change (mbind ?f (Ok nlls)) with (f nlls). cbv beta. intros [= <-].
  destruct (IH nlls eq_refl) as (r1 & r2 & -> & -> & ->). by exists (nll :: r1), r2.
Qed.

Lemma countFull_app l l' : countFull (l ++ l') = (countFull l + countFull l')%Z.
Proof. unfold countFull. rewrite filter_app, length_app. lia. Qed.

(** All lines, or enough of them, are received. *)
Lemma receive_spec tail inputs nlls all : parseBackwards parseTime (rev (concat (rev inputs))) = Ok all →
  ∃ pre post, receive parseTime tail inputs nlls (countFull nlls) = Ok (nlls ++ pre) ∧ all = pre ++ post ∧ (post = [] ∨ (tail ≤ countFull (nlls ++ pre))%Z).
Proof.
  revert nlls all. induction inputs as [|i inputs IH]; intros nlls all; simpl.
  - intros [= <-]. exists [], []. rewrite app_nil_r. split; [done|]. split; [done|]. by left.
  - rewrite concat_app. simpl. rewrite app_nil_r, rev_app_distr. intros Hp. apply parseBackwards_app_inv in Hp as (r1 & r2 & E1 & E2 & ->).
    rewrite E1. change (mbind ?f (Ok r1)) with (f r1). cbv beta zeta. rewrite <- countFull_app. destruct (decide _) as [Hle|].
    + exists r1, r2. split; [done|]. split; [done|]. by right.
    + destruct (IH (nlls ++ r1) r2 E2) as (pre & post & E & -> & Hpost). exists (r1 ++ pre), post. rewrite E, <- !app_assoc. split; [done|]. split; [done|].
      by rewrite <- app_assoc in Hpost.
Qed.

Lemma reassemble_prefix tail pre post partial tailLog : (Z.of_nat (length tailLog) < tail ≤ Z.of_nat (length tailLog) + countFull pre)%Z →
  reassemble tail (pre ++ post) partial tailLog = reassemble tail pre partial tailLog.
Proof.
  revert partial tailLog. induction pre as [|nll pre IH]; intros partial tailLog; [unfold countFull; simpl; lia|].
  unfold countFull in *. simpl. destruct (Partial nll) eqn:Ep.
  - rewrite filter_cons_False by congruence. intros Hlt. destruct (decide _); [done|]. by apply IH.
  - rewrite filter_cons_True by done. simpl. intros Hlt. destruct (decide _); [done|]. apply IH. simpl. lia.
Qed.

(** Reading the file by pages from its end is reading all its lines. *)
Lemma getTailLog_lines pageSize file tail all : (0 < pageSize)%Z → (0 < tail)%Z →
  parseBackwards parseTime (rev (Split file LF)) = Ok all →
  getTailLog parseTime (λ _, false) pageSize (Ok file) tail = Ok (reassemble tail all [] []).
Proof.
  intros Hp Ht Hall. unfold getTailLog. change (mbind ?f (Ok file)) with (f file). cbv beta zeta.
  rewrite <- (sendInputs_file file pageSize Hp) in Hall. destruct (receive_spec tail _ [] all Hall) as (pre & post & E & -> & Hpost).
  change (countFull []) with 0%Z in E. rewrite E. simpl app. change (mbind ?f (Ok pre)) with (f pre). cbv beta.
  destruct Hpost as [->|Hle]; [by rewrite app_nil_r|]. rewrite reassemble_prefix; [done|]. simpl in *. lia.
Qed.

Lemma reassemble_full tail nlls tailLog : (Z.of_nat (length tailLog) < tail)%Z → Forall (λ l, Partial l = false) nlls →
  reassemble tail nlls [] tailLog = rev (take (Z.to_nat tail - length tailLog) nlls) ++ tailLog.
Proof.
  intros Hlt Hf. revert tailLog Hlt. induction Hf as [|nll nlls Hn Hf IH]; intros tailLog Hlt; simpl; [by rewrite take_nil|].
  rewrite Hn, app_nil_r. assert (ll_set_Msg (ll_Msg nll) nll = nll) as -> by by destruct nll.
  destruct (Z.to_nat tail - length tailLog) as [|n] eqn:En; [lia|]. simpl. destruct (decide _) as [E|E].
  - cbn [length] in E. assert (n = 0) as -> by lia. done.
  - cbn [length] in E. rewrite IH by (cbn [length]; lia). simpl. rewrite <- app_assoc. replace (Z.to_nat tail - S (length tailLog)) with n by lia. done.
Qed.
End received.

(** ** Printed lines *)

Section printed.
Context (parseTime : text → option Z) (formatTime : Z → text).

(** A line that [conmon] writes *)
Record printable (l : LogLine) : Prop := {
  pr_time : parseTime (formatTime (ll_Time l)) = Some (ll_Time l) ∧ (SP ∉ formatTime (ll_Time l)) ∧ (LF ∉ formatTime (ll_Time l));
  pr_device : (SP ∉ ll_Device l) ∧ (LF ∉ ll_Device l);
  pr_type : (SP ∉ ll_ParseLogType l) ∧ (LF ∉ ll_ParseLogType l);
  pr_msg : LF ∉ ll_Msg l;
  pr_new : ll_CID l = [] ∧ ll_CName l = [] ∧ ll_ColorID l = 0%Z }.

Lemma NewLogLine_print l : printable l → NewLogLine parseTime (printLine formatTime l) = Ok l.
Proof.
  intros [(Ht & Ht1 & _) [Hd _] [Hy _] _ (E1 & E2 & E3)]. unfold NewLogLine, printLine. rewrite (Split_cut _ _ _ Ht1), (Split_cut _ _ _ Hd), (Split_cut _ _ _ Hy).
  destruct (Split_nonempty (ll_Msg l) SP) as (m & ms & E). rewrite E, Ht. rewrite <- E, JoinWith_Split. destruct l. simpl in *. by subst.
Qed.

Lemma printLine_no l : printable l → LF ∉ printLine formatTime l.
Proof.
  intros [(_ & _ & Ht) [_ Hd] [_ Hy] Hm _]. unfold printLine. assert (LF ≠ SP) by done. repeat (rewrite not_elem_of_app || rewrite not_elem_of_cons). tauto.
Qed.

Definition logFile (lines : list LogLine) : text := concat ((λ l, printLine formatTime l ++ [LF]) <$> lines).

Lemma Split_logFile lines : Forall printable lines → Split (logFile lines) LF = (printLine formatTime <$> lines) ++ [[]].
Proof.
  unfold logFile. induction 1 as [|l lines Hl _ IH]; [done|]. csimpl. rewrite <- app_assoc. change ([LF] ++ ?x) with (LF :: x). rewrite Split_cut by by apply printLine_no. by rewrite IH.
Qed.

Lemma printLine_nonempty l : printLine formatTime l ≠ [].
Proof. unfold printLine. intros E. by apply app_eq_nil in E as [_ E]. Qed.

Lemma parse_printed lines : Forall printable lines → parseBackwards parseTime (printLine formatTime <$> lines) = Ok lines.
Proof.
  induction 1 as [|l lines Hl _ IH]; [done|]. csimpl. destruct (printLine formatTime l) as [|c p] eqn:E; [by apply printLine_nonempty in E|].
  rewrite <- E, NewLogLine_print by done. change (mbind ?f (Ok l)) with (f l). cbv beta. rewrite IH. done.
Qed.

Lemma parse_logFile lines : Forall printable lines → parseBackwards parseTime (rev (Split (logFile lines) LF)) = Ok (rev lines).
Proof.
  intros Hl. rewrite (Split_logFile lines Hl), rev_app_distr. simpl. change (printLine formatTime <$> lines) with (map (printLine formatTime) lines). rewrite <- map_rev. apply parse_printed. by apply Forall_rev.
Qed.
End printed.

(** The output of a list of lines to standard output *)
Definition output (formatTime : Z → text) (options : LogOptions) (lines : list LogLine) : text :=
  concat ((λ l, (ll_Write formatTime true true l options).1) <$> lines).

(** ** The claims *)

(** C39: The tail of a log is its last lines: for a file of complete lines, [getTailLog] returns
    exactly the last [tail] lines in their order, or all of them, whatever the page size with
    which the file is read backwards. *)
Theorem tail_last_lines parseTime formatTime pageSize lines tail : (0 < pageSize)%Z → (0 < tail)%Z →
  Forall (printable parseTime formatTime) lines → Forall (λ l, Partial l = false) lines →
  getTailLog parseTime (λ _, false) pageSize (Ok (logFile formatTime lines)) tail = Ok (drop (length lines - Z.to_nat tail) lines).
Proof.
  intros Hp Ht Hpr Hf. rewrite (getTailLog_lines parseTime pageSize _ tail (rev lines)); [|done|done|by apply parse_logFile].
  rewrite reassemble_full by (simpl; lia || by apply Forall_rev). rewrite app_nil_r. simpl. rewrite Nat.sub_0_r.
  f_equal.
  assert (∀ l : list LogLine, rev l = reverse l) as Hrev by apply rev_alt. by rewrite !Hrev, take_reverse, reverse_involutive.
Qed.

(** C40: A message in several parts is put together wrongly: where a part without newline [b] follows
    the complete line [a] and is continued by [c], reading the log from the start prints [a] on a
    line and [b] and [c] on the next, but the last two lines that [getTailLog] returns are [a]
    followed by [b], and [c]. *)
Theorem tail_moves_parts parseTime formatTime pageSize options before a b c : (0 < pageSize)%Z →
  Forall (printable parseTime formatTime) (before ++ [a; b; c]) →
  Partial a = false → Partial b = true → Partial c = false → ll_Msg b ≠ [] →
  Forall (λ l, ll_Device l = T "stdout") [a; b; c] →
  lo_Multi options = false → lo_Timestamps options = false → lo_Colors options = false →
  output formatTime options [a; b; c] = ll_Msg a ++ [LF] ++ ll_Msg b ++ ll_Msg c ++ [LF] ∧
  ∃ tailLog, getTailLog parseTime (λ _, false) pageSize (Ok (logFile formatTime (before ++ [a; b; c]))) 2 = Ok tailLog ∧
    output formatTime options tailLog = ll_Msg a ++ ll_Msg b ++ [LF] ++ ll_Msg c ++ [LF] ∧
    output formatTime options tailLog ≠ output formatTime options [a; b; c].
Proof.
  intros Hp Hpr Ha Hb Hc Hm Hdev Hmu Hts Hco. assert (LF ∉ ll_Msg b) as Hlf.
  { apply Forall_app in Hpr as [_ Hpr]. apply Forall_cons in Hpr as [_ Hpr]. by apply Forall_cons in Hpr as [[_ _ _ ? _] _]. }
  rewrite !Forall_cons in Hdev. destruct Hdev as (Da & Db & Dc & _).
  assert (∀ l, ll_Device l = T "stdout" → (ll_Write formatTime true true l options).1 = if Partial l then ll_Msg l else ll_Msg l ++ [LF]) as Hw.
  { intros l Hl. unfold ll_Write, ll_String. rewrite decide_True by done. rewrite Hmu, Hts, Hco. done. }
  assert (output formatTime options [a; b; c] = ll_Msg a ++ [LF] ++ ll_Msg b ++ ll_Msg c ++ [LF]) as Eout.
  { unfold output. csimpl. rewrite !Hw by done. rewrite Ha, Hb, Hc, app_nil_r, <- !app_assoc. done. }
  split; [done|]. eexists. split; [apply getTailLog_lines; [done|done|by apply parse_logFile]|].
  rewrite rev_app_distr. simpl. rewrite Ha, Hb, Hc. simpl. rewrite app_nil_r. assert (ll_set_Msg (ll_Msg c) c = c) as -> by by destruct c.
  assert (output formatTime options [ll_set_Msg (ll_Msg a ++ ll_Msg b) a; c] = ll_Msg a ++ ll_Msg b ++ [LF] ++ ll_Msg c ++ [LF]) as E2.
  { unfold output. csimpl. rewrite (Hw c Dc), Hw by done. rewrite Hc. change (Partial (ll_set_Msg _ a)) with (Partial a). rewrite Ha. simpl. by rewrite app_nil_r, <- !app_assoc. }
  split; [done|]. rewrite E2, Eout. intros E. apply app_inv_head in E. destruct (ll_Msg b) as [|x m]; [done|]. simpl in E. injection E as -> _. apply Hlf. by left.
Qed.

(** ** Witnesses *)

(** Times as a number of strokes *)
Definition strokes (n : Z) : text := repeat "I"%char (Z.to_nat n).
Definition countStrokes (s : text) : option Z := if forallb (λ c, bool_decide (c = "I"%char)) s then Some (Z.of_nat (length s)) else None.

Definition printableb (l : LogLine) : bool :=
  let free (s : text) := bool_decide (SP ∉ s) && bool_decide (LF ∉ s) in
  bool_decide (countStrokes (strokes (ll_Time l)) = Some (ll_Time l)) && free (strokes (ll_Time l)) && free (ll_Device l) && free (ll_ParseLogType l) &&
  bool_decide (LF ∉ ll_Msg l) && bool_decide (ll_CID l = [] ∧ ll_CName l = [] ∧ ll_ColorID l = 0%Z).

Lemma printableb_ok lines : forallb printableb lines = true → Forall (printable countStrokes strokes) lines.
Proof.
  induction lines as [|l lines IH]; simpl; [constructor|]. intros [Hl Hr]%andb_true_iff. constructor; [|by apply IH].
  unfold printableb in Hl. rewrite !andb_true_iff, !bool_decide_eq_true in Hl. constructor; tauto.
Qed.

Definition line (time : Z) (kind msg : string) : LogLine := mkLogLine (T "stdout") (T kind) time (T msg) [] [] 0.

Lemma tail_last_lines_witness :
  getTailLog countStrokes (λ _, false) 5 (Ok (logFile strokes [line 1 "F" "first line"; line 2 "F" "second"; line 3 "F" ""])) 2 = Ok [line 2 "F" "second"; line 3 "F" ""].
Proof.
  apply (tail_last_lines countStrokes strokes 5 [line 1 "F" "first line"; line 2 "F" "second"; line 3 "F" ""] 2).
  - lia.
  - lia.
  - apply printableb_ok. vm_compute. reflexivity.
  - repeat constructor; vm_compute; reflexivity.
Defined.

Definition plain : LogOptions := mkLogOptions 0 0 2 false false false false.

Lemma tail_moves_parts_witness : ∃ tailLog,
  getTailLog countStrokes (λ _, false) 7 (Ok (logFile strokes [line 1 "F" "zero"; line 2 "F" "one"; line 3 "P" "tw"; line 4 "F" "o"])) 2 = Ok tailLog ∧
  output strokes plain tailLog = T "onetw" ++ [LF] ++ T "o" ++ [LF].
Proof.
  destruct (tail_moves_parts countStrokes strokes 7 plain [line 1 "F" "zero"] (line 2 "F" "one") (line 3 "P" "tw") (line 4 "F" "o")) as (_ & tailLog & E & Eo & _).
  - lia.
  - apply printableb_ok. vm_compute. reflexivity.
  - vm_compute. reflexivity.
  - vm_compute. reflexivity.
  - vm_compute. reflexivity.
  - vm_compute. congruence.
  - repeat constructor; vm_compute; reflexivity.
  - reflexivity.
  - reflexivity.
  - reflexivity.
  - exists tailLog. split; [exact E|exact Eo].
Defined.
