(* ===== verification/PropsState.v ===== *)
(** * PropsState: theorems about every operation of the state *)

From S2P Require Import Prelude Define Bolt BoltTx Strconv BoltInternal BoltState BoltInv BoltSafe.
From S2P Require Import BoltAdd BoltRemove BoltPods BoltVols BoltRename.
From S2P Require Import BoltRefresh BoltOps TestRuntime.

Section state.
Context `{RuntimeLaws}.

(** C1: every database that the state can reach is consistent.  From a fresh
    database file, after any sequence of calls of the [State] interface (by callers
    that pass objects which agree with the database, [pre]), with any results, with
    reopening and with faults of the environment in between, IDs and names are
    globally unique and inverse to each other, every container's configuration
    agrees with the registries, dependency buckets mirror the stored dependencies
    and stay within a pod, pods list exactly their members, used volumes exist, and
    listed exec sessions are registered. *)
Theorem reachable_consistent w0 w1 w :
  w_db w0 = ∅ → w_openFault w0 = false → w_commitFault w0 = false →
  NewBoltState w0 = (Ok (), w1) → rtc step w1 w → Inv (w_db w).
Proof.
  intros Hdb Ho Hc Hn Hs. apply (steps_inv w1 w Hs).
  destruct (NewBoltState_empty w0 Hdb Ho Hc) as (db & Hr & Hsch).
  rewrite Hr in Hn. simplify_eq. by apply schema_inv.
Qed.

(** C2: every call is all-or-nothing: when it returns an error, for whatever
    reason (a failed check, an encoder, a full disk at commit), the database is
    as it was. *)
Theorem failed_calls_change_nothing c w e w' :
  exec c w = (Err e, w') → w_db w' = w_db w.
Proof. apply exec_atomic. Qed.

(** The calls that only read (lookups, listings, refreshes of the caller's
    objects) leave the database as it is, whatever they return. *)
Theorem reading_calls_change_nothing c w r w' :
  reads c = true → exec c w = (r, w') → w_db w' = w_db w.
Proof. intros Hc. by apply reads_readonly. Qed.

(** ** The mutex *)

(** [m] leaves the mutex, and the environment's faults, as they are. *)
Definition keeps_lock {A} (m : M A) : Prop :=
  ∀ w r w', m w = (r, w') → w_dbLock w' = w_dbLock w ∧ w_openFault w' = w_openFault w.
(** [m] frees the mutex again when it finds it free and the file can be opened. *)
Definition releases {A} (m : M A) : Prop :=
  ∀ w r w', w_dbLock w = false → w_openFault w = false → m w = (r, w') → w_dbLock w' = false.

Lemma keeps_lift {A} (x : result error A) : keeps_lock (lift x : M A).
Proof. intros w r w' [= <- <-]. done. Qed.
Lemma keeps_ret {A} (x : A) : keeps_lock (mret x : M A).
Proof. intros w r w' [= <- <-]. done. Qed.
Lemma keeps_failIf b e : keeps_lock (failIf b e : M ()).
Proof. destruct b; intros w r w' [= <- <-]; done. Qed.
Lemma keeps_effect e : keeps_lock (modify (add_effect e)).
Proof. intros w r w' [= <- <-]. done. Qed.
Lemma keeps_checkValid : keeps_lock checkValid.
Proof.
  intros w r w'. unfold checkValid, mbind, st_bind, gets. destruct (w_valid w); by intros [= <- <-].
Qed.
Lemma keeps_bind {A B} (m : M A) (f : A → M B) :
  keeps_lock m → (∀ a, keeps_lock (f a)) → keeps_lock (m ≫= f).
Proof.
  intros Hm Hf w r w'. unfold mbind, st_bind. destruct (m w) as [[a|e] w1] eqn:Hw.
  - intros Hr. apply Hf in Hr as [-> ->]. by apply Hm in Hw.
  - intros [= <- <-]. by apply Hm in Hw.
Qed.
Lemma releases_keeps {A} (m : M A) : keeps_lock m → releases m.
Proof. intros Hm w r w' Hl _ Hr. by apply Hm in Hr as [-> _]. Qed.
Lemma releases_bind {A B} (m : M A) (f : A → M B) :
  keeps_lock m → (∀ a, releases (f a)) → releases (m ≫= f).
Proof.
  intros Hm Hf w r w' Hl Ho. unfold mbind, st_bind. destruct (m w) as [[a|e] w1] eqn:Hw; apply Hm in Hw as [H1 H2].
  - apply Hf; congruence.
  - intros [= <- <-]. congruence.
Qed.
Lemma releases_withDB {A} (m : M A) : releases (withDB m).
Proof.
  intros w r w' Hl Ho. unfold withDB, getDBCon. rewrite Hl, Ho.
  destruct (m (set_dbLock true w)) as [r1 w1]. by intros [= <- <-].
Qed.
Lemma releases_drop {A} (m : M A) : releases m → releases (drop_result m).
Proof.
  intros Hm w r w' Hl Ho. unfold drop_result, mbind, st_bind, mret, st_ret.
  destruct (m w) as [[a|e] w1] eqn:Hw; intros [= <- <-]; by eapply Hm.
Qed.

Local Hint Resolve keeps_lift keeps_ret keeps_failIf keeps_effect keeps_checkValid releases_withDB : libpod.
Local Hint Extern 1 (keeps_lock (_ ≫= _)) => apply keeps_bind; [|intros ?] : libpod.
Local Hint Extern 1 (keeps_lock (match ?x with _ => _ end)) => destruct x : libpod.
Local Hint Extern 2 (releases (_ ≫= _)) => apply releases_bind; [|intros ?] : libpod.
Local Hint Extern 1 (releases (if ?b then _ else _)) => destruct b : libpod.
Local Hint Extern 3 (releases (mret _)) => apply releases_keeps : libpod.

Lemma exec_releases c : releases (exec c).
Proof.
  destruct c; apply releases_drop; [by apply releases_keeps; intros w r w' [= <- <-]|..];
    unfold Refresh, ValidateDBConfig, AddContainer, RemoveContainer, SaveContainer,
      GetNetworks, NetworkConnect, NetworkModify, networkModify, NetworkDisconnect, AddContainerExitCode,
      PruneContainerExitCodes, AddExecSession, RemoveExecSession, RemoveContainerExecSessions, RewriteContainerConfig,
      SafeRewriteContainerConfig, RewritePodConfig, RewriteVolumeConfig, AddPod, RemovePod, RemovePodContainers,
      AddContainerToPod, addContainer, RemoveContainerFromPod, SavePod, AddVolume, RemoveVolume, SaveVolume,
      GetDBConfig, GetContainerName, GetPodName, Container, LookupContainerID, LookupContainer,
      HasContainer, UpdateContainer, ContainerInUse, AllContainers, GetContainerConfig, GetContainerExitCode,
      GetContainerExitCodeTimeStamp, GetExecSession, GetContainerExecSessions, ContainerIDIsVolume, Pod, LookupPod,
      HasPod, PodHasContainer, PodContainersByID, PodContainers, UpdatePod, AllPods, Volume, LookupVolume, HasVolume,
      VolumeInUse, UpdateVolume, AllVolumes;
    auto 14 with libpod.
Qed.

(** Whatever a call returns, the mutex of the state is free again afterwards,
    as long as the database file can be opened: no error path keeps it. *)
Theorem calls_release_the_mutex c w r w' :
  w_dbLock w = false → w_openFault w = false → exec c w = (r, w') → w_dbLock w' = false.
Proof. apply exec_releases. Qed.

(** When opening the database file fails, [getDBCon] returns with the mutex
    locked and nobody unlocks it: the call fails with the error of the open, and
    every later operation that needs the database blocks, also when the file can
    be opened again. *)
Theorem open_failure_blocks_the_state {A B} (m : M A) (m' : M B) w :
  w_dbLock w = false → w_openFault w = true →
  ∃ w', withDB m w = (Err ErrOpen, w') ∧
    ∀ w'', w_dbLock w'' = w_dbLock w' → (withDB m' w'').1 = Err Blocked.
Proof.
  intros Hl Ho. exists (set_dbLock true w). unfold withDB, getDBCon. rewrite Hl, Ho. split; [done|].
  intros w'' Hw. by rewrite Hw.
Qed.

End state.

(** ** Witnesses *)

Lemma drop_run {A} (m : M A) w a w' : m w = (Ok a, w') → drop_result m w = (Ok (), w').
Proof. intros Hm. unfold drop_result. by erewrite st_bind_run. Qed.

Lemma reachable_consistent_witness : Inv (w_db world2).
Proof.
  apply (reachable_consistent world0 emptyWorld world2).
  - reflexivity.
  - reflexivity.
  - reflexivity.
  - apply (run_eq NewBoltState world0 (Ok ())). vm_compute. reflexivity.
  - apply (rtc_l step emptyWorld world1 world2).
    + exact (step_call (CAddContainer ctrA) emptyWorld (Ok ()) world1 I (drop_run _ _ _ _ world1_run)).
    + apply rtc_once.
      exact (step_call (CAddContainer ctrB) world1 (Ok ()) world2 I (drop_run _ _ _ _ world2_run)).
Defined.

Lemma failed_calls_change_nothing_witness :
  w_db (run (exec (CRemoveContainer ctrA)) world2) = w_db world2.
Proof.
  apply (failed_calls_change_nothing (CRemoveContainer ctrA) world2 ErrDepExists).
  apply run_eq. vm_compute. reflexivity.
Defined.

Lemma reading_calls_change_nothing_witness :
  w_db (run (exec (CAllContainers true)) world2) = w_db world2.
Proof.
  apply (reading_calls_change_nothing (CAllContainers true) world2 (Ok ())); [reflexivity|].
  apply run_eq. vm_compute. reflexivity.
Defined.

Lemma calls_release_the_mutex_witness : w_dbLock (run (exec (CRemoveContainer ctrA)) world2) = false.
Proof.
  apply (calls_release_the_mutex (CRemoveContainer ctrA) world2 (Err ErrDepExists)).
  - vm_compute. reflexivity.
  - vm_compute. reflexivity.
  - apply run_eq. vm_compute. reflexivity.
Defined.

Definition faultyWorld : World := mkWorld true false (w_db emptyWorld) [] ∅ true false.

Lemma open_failure_blocks_the_state_witness :
  ∃ w', withDB (View (mret ())) faultyWorld = (Err ErrOpen, w').
Proof.
  destruct (open_failure_blocks_the_state (View (mret () : M ())) (View (mret () : M ())) faultyWorld) as (w' & Hr & _).
  - reflexivity.
  - reflexivity.
  - exists w'. exact Hr.
Defined.
