(* ===== verification/PropsContainer.v ===== *)
(** * PropsContainer: theorems about containers in the state database *)

From S2P Require Import Prelude Define Bolt BoltTx Strconv BoltInternal BoltState BoltInv BoltSafe.
From S2P Require Import BoltAdd BoltRemove BoltPods BoltVols BoltRename.
From S2P Require Import BoltRefresh BoltOps TestRuntime.

(** ** Shared lemmas *)

Section shared.
Context `{Runtime}.

(** The conditions on the dependencies of a new container, in terms of the
    database before it is added. *)
Lemma dep_ok_put_ctr ctr pod cfgJ stJ nets db d :
  Inv db → ¬ is_ctr db (ctr_ID ctr) →
  dep_ok (put_ctr ctr pod cfgJ stJ nets db) pod d ↔
  d = ctr_ID ctr ∨ (is_ctr db d ∧ bget db [ctrBkt; d] podIDKey = (pod_ID <$> pod)).
Proof.
  intros HI Hnew. assert (Hsub := λ x rest, fresh_sub _ _ x rest HI Hnew).
  unfold dep_ok, is_ctr, bget. cbn [app].
  destruct (decide (d = ctr_ID ctr)) as [->|Hd].
  - unfold put_ctr. destruct nets, pod; lk; rewrite ?lookup_put_networks by done; lk; rewrite ?Hsub;
      (split; [by left|intros _; by split_and!]).
  - rewrite !lookup_put_ctr by (try done; by intros ? [=]).
    split; [naive_solver|]. intros [?|[Hc Hp]]; [done|]. split_and!; [done| |done].
    by apply (inv_ctr_deps db (inv_ctrs db HI)).
Qed.

(** What a consistent database accepts as a new container. *)
Record Addable (ctr : Define.Container) (pod : option Define.Pod) (cfgJ stJ : string)
    (nets : list (string * string)) (db : Db) : Prop := {
  ad_pod : ∀ p, pod = Some p → is_pod db (pod_ID p);
  ad_id : db !! [idRegistryBkt; ctr_ID ctr] = None;
  ad_name : db !! [nameRegistryBkt; ctr_Name ctr] = None;
  ad_deps : ∀ d, d ∈ Dependencies ctr →
    d = ctr_ID ctr ∨ (is_ctr db d ∧ bget db [ctrBkt; d] podIDKey = (pod_ID <$> pod));
  ad_vols : ∀ v, v ∈ cc_NamedVolumes (ctr_config ctr) → is_vol db (nv_Name v);
  ad_keys : key_ok (ctr_ID ctr) = true ∧ key_ok (ctr_Name ctr) = true ∧
    Forall (λ no, key_ok no.1 = true) nets;
  ad_values : value_ok (ctr_ID ctr) = true ∧ value_ok (ctr_Name ctr) = true ∧
    value_ok cfgJ = true ∧ value_ok stJ = true ∧ Forall (λ no, value_ok no.2 = true) nets ∧
    ∀ p, pod = Some p → value_ok (pod_ID p) = true }.

Lemma Addable_AddGuards ctr pod cfgJ stJ nets db :
  Inv db → Addable ctr pod cfgJ stJ nets db ↔ AddGuards ctr pod cfgJ stJ nets db.
Proof.
  intros HI. split.
  - intros [Hp Hi Hn Hd Hv (?&?&Hk) (?&?&?&?&Hval&Hpv)]. constructor; try done.
    + intros p ->. split_and!; [by apply Hp| |by apply Hpv].
      by apply (inv_pod_name db (inv_pods db HI)), Hp.
    + apply Forall_and. done.
    + intros d Hin. apply dep_ok_put_ctr; [done|by apply fresh_ctr|by apply Hd].
  - intros [Hp Hi Hn ? ? ? ? ? ? Hnets Hd Hv]. apply Forall_and in Hnets as [??]. constructor; try done.
    + intros p Hpod. by apply Hp.
    + intros d Hin. eapply dep_ok_put_ctr; [done|by apply fresh_ctr|by apply Hd].
    + split_and!; try done. intros p Hpod. by apply Hp.
Qed.

(** [addContainer] on an open state. *)
Lemma addContainer_run ctr pod w w' :
  ready w → Inv (w_db w) →
  addContainer ctr pod w = (Ok (), w') ↔
  ∃ cfgJ stJ nets,
    marshal (cc_set_Networks ∅ (ctr_config ctr)) = Ok cfgJ ∧ marshal (ctr_state ctr) = Ok stJ ∧
    marshalNetworks (ctr_ID ctr) (map_to_list (cc_Networks (ctr_config ctr))) = Ok nets ∧
    Addable ctr pod cfgJ stJ nets (w_db w) ∧
    w' = set_db (added ctr pod cfgJ stJ nets (w_db w)) (add_effect (ClearNetworks (ctr_ID ctr)) w).
Proof.
  intros Hw HI. unfold addContainer. split.
  - intros Hr. tx_inv.
    match goal with Hx : addContainer_tx _ _ _ _ _ _ = _ |- _ =>
      apply addContainer_tx_Ok in Hx as [Hg ->]; [|done] end.
    eexists _, _, _. split_and!; [done..|by apply Addable_AddGuards|]. by destruct w, Hw; simpl in *; subst.
  - intros (cfgJ & stJ & nets & Hc & Hs & Hn & Hg & ->).
    erewrite st_bind_run by reflexivity. do 3 (erewrite st_bind_run by (by apply lift_Ok)).
    apply ready_Update; [by destruct Hw|]. apply addContainer_tx_Ok; [done|]. by rewrite <- Addable_AddGuards.
Qed.

End shared.

(** ** Adding containers *)

Section add.
Context `{RuntimeLaws}.

(** C3: on an open, consistent state, [AddContainer] succeeds exactly when the
    container is valid and not in a pod, its configuration, state and networks
    can be encoded, its ID and its name are free (neither a container nor a pod
    has them), each dependency is an existing container outside of any pod (or
    the container itself), its named volumes exist, and what is written fits the
    limits of bbolt on keys and values; it then writes exactly the entries of
    [added]. *)
Theorem AddContainer_iff ctr w w' :
  ready w → Inv (w_db w) →
  AddContainer ctr w = (Ok (), w') ↔
  ctr_valid ctr = true ∧ cc_Pod (ctr_config ctr) = "" ∧
  ∃ cfgJ stJ nets,
    marshal (cc_set_Networks ∅ (ctr_config ctr)) = Ok cfgJ ∧ marshal (ctr_state ctr) = Ok stJ ∧
    marshalNetworks (ctr_ID ctr) (map_to_list (cc_Networks (ctr_config ctr))) = Ok nets ∧
    Addable ctr None cfgJ stJ nets (w_db w) ∧
    w' = set_db (added ctr None cfgJ stJ nets (w_db w)) (add_effect (ClearNetworks (ctr_ID ctr)) w).
Proof.
  intros Hw HI. unfold AddContainer. split.
  - intros Hr. tx_inv. split_and!; [by apply negb_false_iff|by apply dec_stable|].
    by apply addContainer_run in Hr.
  - intros (Hv & Hp & Hex).
    erewrite st_bind_run by (by apply ready_checkValid). rewrite Hv.
    erewrite st_bind_run by reflexivity. rewrite Hp. rewrite bool_decide_eq_false_2 by tauto.
    erewrite st_bind_run by reflexivity. by apply addContainer_run.
Qed.

(** What is stored for a container after it was added. *)
Lemma added_stored ctr pod cfgJ stJ nets db :
  Inv db → AddGuards ctr pod cfgJ stJ nets db →
  let db' := added ctr pod cfgJ stJ nets db in
  is_ctr db' (ctr_ID ctr) ∧ db' !! [ctrBkt; ctr_ID ctr; configKey] = Some (Val cfgJ) ∧
  db' !! [ctrBkt; ctr_ID ctr; stateKey] = Some (Val stJ) ∧
  db' !! [ctrBkt; ctr_ID ctr; netNSKey] = None ∧
  db' !! [nameRegistryBkt; ctr_Name ctr] = Some (Val (ctr_ID ctr)).
Proof.
  intros HI Hg db'. unfold is_ctr, db'.
  rewrite added_ctr, !(added_key _ _ _ _ _ _ HI Hg), added_name by done. repeat case_decide; done.
Qed.

(** Loading a container's configuration and state. *)
Lemma GetContainerConfig_run id w s cfg :
  ready w → Inv (w_db w) → id ≠ "" → is_ctr (w_db w) id →
  w_db w !! [ctrBkt; id; configKey] = Some (Val s) → unmarshal s = Ok cfg →
  GetContainerConfig id w = (Ok (migratePorts cfg), w).
Proof.
  intros Hw HI Hid Hc Hs Hu. schema_facts HI. unfold GetContainerConfig.
  erewrite st_bind_run by (by apply when_run).
  erewrite st_bind_run by (by apply ready_checkValid). apply ready_View; [done|].
  unfold getContainerConfigFromDB. tx_go. tx_go. unfold bucket. cbn [app]. rewrite Hc. tx_go. tx_go.
  unfold bget. cbn [app]. rewrite Hs. tx_go. by rewrite Hu.
Qed.

Lemma UpdateContainer_run ctr w s st :
  ready w → Inv (w_db w) → ctr_valid ctr = true → is_ctr (w_db w) (ctr_ID ctr) →
  w_db w !! [ctrBkt; ctr_ID ctr; stateKey] = Some (Val s) → unmarshal s = Ok st →
  w_db w !! [ctrBkt; ctr_ID ctr; netNSKey] = None →
  UpdateContainer ctr w = (Ok st, w).
Proof.
  intros Hw HI Hv Hc Hs Hu Hn. schema_facts HI. unfold UpdateContainer.
  erewrite st_bind_run by (by apply ready_checkValid). rewrite Hv. erewrite st_bind_run by reflexivity.
  apply ready_View; [done|]. unfold getContainerStateDB. tx_go. tx_go. unfold bucket. cbn [app]. rewrite Hc.
  tx_go. tx_go. unfold bget at 1. cbn [app]. rewrite Hs. tx_go. rewrite Hu. tx_go. tx_go.
  unfold bget. cbn [app]. by rewrite Hn.
Qed.

(** What was added can be read back.  After [AddContainer], the container is
    found under its ID, its stored configuration is the given one less its
    networks (with the ports of older versions converted), and its stored state
    is the given one. *)
Theorem AddContainer_retrieve ctr w w' :
  ready w → Inv (w_db w) → AddContainer ctr w = (Ok (), w') →
  HasContainer (ctr_ID ctr) w' = (Ok true, w') ∧
  GetContainerConfig (ctr_ID ctr) w' =
    (Ok (migratePorts (cc_set_rewrite false (cc_set_Networks ∅ (ctr_config ctr)))), w') ∧
  UpdateContainer ctr w' = (Ok (ctr_state ctr), w').
Proof.
  intros Hw HI Hr.
  assert (HI' : Inv (w_db w')) by (eapply AddContainer_safe; [| |exact Hr]; done).
  unfold AddContainer in Hr. tx_inv.
  apply addContainer_run in Hr as (cfgJ & stJ & nets & Hc & Hs & Hn & Hg & ->); [|done|done].
  apply Addable_AddGuards in Hg; [|done].
  destruct (added_stored ctr None cfgJ stJ nets _ HI Hg) as (K1 & K2 & K3 & K4 & _).
  assert (Hw' : ready (set_db (added ctr None cfgJ stJ nets (w_db w)) (add_effect (ClearNetworks (ctr_ID ctr)) w)))
    by (by destruct Hw).
  assert (Hid : ctr_ID ctr ≠ "") by (apply key_ok_ne, Hg).
  apply unmarshal_marshal in Hc, Hs. split_and!.
  - unfold HasContainer. erewrite st_bind_run by (by apply when_run).
    erewrite st_bind_run by (by apply ready_checkValid). apply ready_View; [done|].
    schema_facts HI'. tx_go. tx_go. unfold bucket. cbn [app]. rewrite K1.
    unfold mret, st_ret. by rewrite bool_decide_eq_true_2 by (by eexists).
  - by eapply GetContainerConfig_run.
  - eapply UpdateContainer_run; try done. by apply negb_false_iff.
Qed.

End add.

Lemma AddContainer_iff_witness :
  AddContainer ctrB world1 = (Ok (), run (AddContainer ctrB) world1) ∧
  cc_Pod (ctr_config ctrB) = "" ∧ ctr_valid ctrB = true.
Proof.
  assert (Hr : AddContainer ctrB world1 = (Ok (), run (AddContainer ctrB) world1))
    by (apply run_eq; vm_compute; reflexivity).
  split; [exact Hr|].
  apply (AddContainer_iff ctrB world1) in Hr as (Hv & Hp & _);
    [split; assumption|apply readyb_ready; vm_compute; reflexivity|apply world1_inv].
Defined.

Lemma AddContainer_retrieve_witness :
  HasContainer "aaaaaaaaaaaa0001" world1 = (Ok true, world1) ∧
  UpdateContainer ctrA world1 = (Ok newContainerState, world1).
Proof.
  destruct (AddContainer_retrieve ctrA emptyWorld world1) as (H1 & _ & H3).
  - apply readyb_ready. vm_compute. reflexivity.
  - apply emptyWorld_inv.
  - apply (run_eq (AddContainer ctrA) emptyWorld). vm_compute. reflexivity.
  - split; [exact H1|exact H3].
Defined.

(** ** Removing containers *)

Section rm.
Context `{RuntimeLaws}.

Definition has_session (db : Db) (c : string) : Prop := ∃ s e, db !! [ctrBkt; c; execBkt; s] = Some e.
Definition has_user (db : Db) (c : string) : Prop := ∃ d e, db !! [ctrBkt; c; dependenciesBkt; d] = Some e.

Lemma children_ne b db k e : db !! (b ++ [k]) = Some e → (children b db).*1 ≠ [].
Proof. intros Hk Hn. rewrite children_nil in Hn. by rewrite Hn in Hk. Qed.

Lemma no_entries (db : Db) (b : path) : (¬ ∃ k e, db !! (b ++ [k]) = Some e) → ∀ k, db !! (b ++ [k]) = None.
Proof. intros Hn k. destruct (db !! _) as [e|] eqn:He; [|done]. exfalso. eauto. Qed.

#[global] Instance has_session_dec db c : Decision (has_session db c).
Proof.
  destruct ((children [ctrBkt; c; execBkt] db).*1) as [|s l] eqn:Hs.
  - right. intros (s & e & He). rewrite children_nil in Hs. cbn [app] in Hs. by rewrite Hs in He.
  - left. assert (Hin : s ∈ (children [ctrBkt; c; execBkt] db).*1) by (rewrite Hs; by left).
    apply elem_of_keys in Hin as [e He]. by exists s, e.
Defined.

(** The outcome of [removeContainer] for a container outside of any pod. *)
Lemma removeContainer_cases ctr w :
  Inv (w_db w) →
  (¬ is_ctr (w_db w) (ctr_ID ctr) →
    removeContainer ctr None w = (Err ErrNoSuchCtr, add_effect (InvalidateCtr (ctr_ID ctr)) w)) ∧
  (is_ctr (w_db w) (ctr_ID ctr) → has_session (w_db w) (ctr_ID ctr) →
    removeContainer ctr None w = (Err ErrExecSessionExists, w)) ∧
  (is_ctr (w_db w) (ctr_ID ctr) → ¬ has_session (w_db w) (ctr_ID ctr) → has_user (w_db w) (ctr_ID ctr) →
    removeContainer ctr None w = (Err ErrDepExists, w)).
Proof.
  intros HI. schema_facts HI. unfold removeContainer. split_and!; intros Hc.
  - do 6 tx_go. tx_go. unfold bucket. cbn [app]. destruct (w_db w !! [ctrBkt; ctr_ID ctr]) as [[]|] eqn:He;
      [|by destruct Hc|]; done.
  - intros (s & e & Hs). do 6 tx_go. tx_go. unfold bucket at 1. cbn [app]. rewrite Hc. do 3 tx_go.
    assert (Hb : w_db w !! [ctrBkt; ctr_ID ctr; execBkt] = Some Bkt)
      by (by apply (inv_tree _ HI [ctrBkt; ctr_ID ctr; execBkt] s)).
    unfold bucket. cbn [app]. rewrite Hb. erewrite st_bind_run_err; [done|]. tx_go. apply when_err.
    exact (children_ne [_; _; _] _ s e Hs).
  - intros Hs (d & e & Hd). do 6 tx_go. tx_go. unfold bucket at 1. cbn [app]. rewrite Hc. do 3 tx_go.
    erewrite st_bind_run; last first.
    { instantiate (2 := ()). instantiate (1 := w). unfold bucket. cbn [app].
      destruct (w_db w !! [ctrBkt; ctr_ID ctr; execBkt]) as [[]|]; [done| |done].
      tx_go. apply when_run. intros Hne. apply Hne, children_nil.
      by apply (no_entries _ [ctrBkt; ctr_ID ctr; execBkt]). }
    assert (Hb := inv_ctr_deps _ (inv_ctrs _ HI) _ Hc).
    tx_go. unfold bucket. cbn [app]. rewrite Hb. tx_go. tx_go. erewrite st_bind_run_err; [done|]. apply when_err.
    exact (children_ne [_; _; _] _ d e Hd).
Qed.

(** The outcome, from the buckets of the container *)
Lemma RemoveContainer_run ctr w :
  ready w → Inv (w_db w) → cc_Pod (ctr_config ctr) = "" →
  let i := ctr_ID ctr in
  RemoveContainer ctr w =
  if decide (is_ctr (w_db w) i) then
    match (children [ctrBkt; i; execBkt] (w_db w)).*1, (children [ctrBkt; i; dependenciesBkt] (w_db w)).*1 with
    | _ :: _, _ => (Err ErrExecSessionExists, w)
    | [], _ :: _ => (Err ErrDepExists, w)
    | [], [] => (Ok (), set_db (removed ctr None (w_db w)) w)
    end
  else (Err ErrNoSuchCtr, add_effect (InvalidateCtr i) w).
Proof.
  intros Hw HI Hp i. unfold RemoveContainer. subst i.
  erewrite st_bind_run by (by apply ready_checkValid). erewrite st_bind_run by (apply when_run; tauto).
  assert (HI' : Inv (w_db (set_dbLock true w))) by done.
  destruct (removeContainer_cases ctr _ HI') as (C1 & C2 & C3). cbn [w_db set_dbLock] in *.
  assert (Hback : set_dbLock false (set_db (w_db w) (set_dbLock true w)) = w)
    by (by destruct w, Hw; simpl in *; subst).
  case_decide as Hc.
  - destruct (children [ctrBkt; ctr_ID ctr; execBkt] (w_db w)).*1 as [|s l] eqn:Hs.
    + assert (Hns : ¬ has_session (w_db w) (ctr_ID ctr)).
      { intros (s & e & He). rewrite children_nil in Hs. cbn [app] in Hs. by rewrite Hs in He. }
      destruct (children [ctrBkt; ctr_ID ctr; dependenciesBkt] (w_db w)).*1 as [|d l] eqn:Hd.
      * rewrite children_nil in Hs, Hd. apply ready_Update; [done|].
        refine (removeContainer_run ctr None (set_dbLock true w) HI' _). by constructor.
      * erewrite ready_Update_Err; [by rewrite Hback|done|]. apply C3; [done|done|].
        assert (Hin : d ∈ (children [ctrBkt; ctr_ID ctr; dependenciesBkt] (w_db w)).*1) by (rewrite Hd; by left).
        apply elem_of_keys in Hin as [e He]. by exists d, e.
    + erewrite ready_Update_Err; [by rewrite Hback|done|]. apply C2; [done|].
      assert (Hin : s ∈ (children [ctrBkt; ctr_ID ctr; execBkt] (w_db w)).*1) by (rewrite Hs; by left).
      apply elem_of_keys in Hin as [e He]. by exists s, e.
  - erewrite ready_Update_Err; [|done|by apply C1]. by destruct w, Hw; simpl in *; subst.
Qed.

(** The dependency bucket of [i] lists the containers that depend on it. *)
Lemma users_listed db i b : Inv db →
  b ∈ (children [ctrBkt; i; dependenciesBkt] db).*1 ↔ is_ctr db b ∧ ∃ cfg, stored_config db b cfg ∧ i ∈ config_deps cfg.
Proof.
  intros HI. rewrite elem_of_keys. cbn [app]. split.
  - intros [e He]. by apply (inv_dep_listed _ (inv_dependencies _ HI)) in He.
  - intros (Hb & cfg & Hs & Hin). by destruct (inv_dep_stored _ (inv_dependencies _ HI) _ _ _ Hb Hs Hin) as (_ & [n ->] & _).
Qed.

(** C4: what [RemoveContainer] answers for a container outside of any pod, on an
    open, consistent state: [ErrNoSuchCtr] when it does not exist,
    [ErrExecSessionExists] while it has exec sessions, [ErrDepExists] while
    some container depends on it (a container that depends on itself, which
    [AddContainer] permits, can therefore never be removed); otherwise it
    succeeds, and erases exactly the container's registrations, its bucket and its
    entries in the dependency buckets of other containers.  Its entries in the
    buckets of its named volumes stay, against the comment in the code. *)
Theorem RemoveContainer_outcome ctr w :
  ready w → Inv (w_db w) → cc_Pod (ctr_config ctr) = "" →
  let i := ctr_ID ctr in
  let users := (children [ctrBkt; i; dependenciesBkt] (w_db w)).*1 in
  RemoveContainer ctr w =
    (if decide (is_ctr (w_db w) i) then
       match (children [ctrBkt; i; execBkt] (w_db w)).*1, users with
       | _ :: _, _ => (Err ErrExecSessionExists, w)
       | [], _ :: _ => (Err ErrDepExists, w)
       | [], [] => (Ok (), set_db (removed ctr None (w_db w)) w)
       end
     else (Err ErrNoSuchCtr, add_effect (InvalidateCtr i) w)) ∧
  (∀ b, b ∈ users ↔ is_ctr (w_db w) b ∧ ∃ cfg, stored_config (w_db w) b cfg ∧ i ∈ config_deps cfg) ∧
  (∀ v c, removed ctr None (w_db w) !! [volBkt; v; volDependenciesBkt; c] = w_db w !! [volBkt; v; volDependenciesBkt; c]).
Proof.
  intros Hw HI Hp i users. split_and!; [by apply RemoveContainer_run|intros b; by apply users_listed|].
  intros v c. unfold removed. rewrite lookup_erase. unfold ctr_paths. by rewrite !bool_decide_eq_false_2 by (intros ?; naive_solver).
Qed.

(** A container that another one depends on cannot be removed: while some
    container [b] stores a configuration that names [a] as a dependency (shared
    namespaces included), [RemoveContainer] of [a] fails and changes nothing. *)
Theorem RemoveContainer_protects_dependencies ctr b cfg w r w' :
  ready w → Inv (w_db w) → is_ctr (w_db w) b → stored_config (w_db w) b cfg →
  ctr_ID ctr ∈ config_deps cfg → RemoveContainer ctr w = (r, w') →
  (r = Err ErrDepExists ∨ r = Err ErrExecSessionExists ∨ r = Err ErrPodExists) ∧ w_db w' = w_db w.
Proof.
  intros Hw HI Hb Hs Hin.
  destruct (inv_dep_stored _ (inv_dependencies _ HI) _ _ _ Hb Hs Hin) as (Ha & [n Hn] & _).
  unfold RemoveContainer. erewrite st_bind_run by (by apply ready_checkValid).
  destruct (decide (cc_Pod (ctr_config ctr) = "")) as [Hp|Hp].
  2:{ erewrite st_bind_run_err by (by apply when_err). intros [= <- <-]. auto. }
  erewrite st_bind_run by (apply when_run; tauto).
  assert (HI' : Inv (w_db (set_dbLock true w))) by done.
  destruct (removeContainer_cases ctr _ HI') as (_ & C2 & C3). cbn [w_db set_dbLock] in *.
  destruct (decide (has_session (w_db w) (ctr_ID ctr))) as [Hse|Hse].
  - erewrite ready_Update_Err; [|done|by apply C2]. intros [= <- <-]. auto.
  - erewrite ready_Update_Err; [|done|apply C3; [done|done|by eexists _, _]]. intros [= <- <-]. auto.
Qed.

(** The new container's paths are free before it is added. *)
Lemma ctr_paths_free ctr pod cfgJ stJ nets db q :
  Inv db → AddGuards ctr pod cfgJ stJ nets db →
  ctr_paths (ctr_ID ctr) (ctr_Name ctr) (Dependencies ctr) None q = true → db !! q = None.
Proof.
  intros HI Hg. assert (Hnew := added_not_ctr _ _ _ _ _ _ HI Hg).
  assert (Hid := ag_id _ _ _ _ _ _ Hg). assert (Hnm := ag_name _ _ _ _ _ _ Hg).
  destruct q as [|b [|k rest]]; [done..|]. unfold ctr_paths. rewrite orb_true_iff, bool_decide_eq_true.
  intros [[-> ->]|Hr].
  - destruct rest; [by eapply added_new_none|by eapply added_new_sub].
  - destruct rest as [|x [|y []]]; try done; apply bool_decide_eq_true in Hr.
    + rewrite !elem_of_cons, elem_of_nil in Hr. destruct Hr as [[[->|[->|[]]] ->]|[-> ->]]; [exact Hid| |exact Hnm].
      destruct (db !! [allCtrsBkt; ctr_ID ctr]) as [[m|]|] eqn:He; [| |done].
      * apply (inv_all_ctrs db (inv_registry db HI)) in He as [_ ?]. done.
      * exfalso. revert He. by apply shape_ne; [apply HI|].
    + destruct Hr as (-> & [(-> & -> & _)|(_ & _ & [=])]).
      destruct (db !! [ctrBkt; k; dependenciesBkt; ctr_ID ctr]) as [e|] eqn:He; [|done].
      by apply (inv_dep_listed db (inv_dependencies db HI)) in He as [? _].
Qed.

Lemma removed_added ctr cfgJ stJ nets db :
  Inv db → AddGuards ctr None cfgJ stJ nets db → cc_NamedVolumes (ctr_config ctr) = [] →
  removed ctr None (added ctr None cfgJ stJ nets db) = db.
Proof.
  intros HI Hg Hv. apply map_eq. intros q. unfold removed. rewrite lookup_erase. cbn [fmap option_fmap option_map].
  destruct (ctr_paths _ _ _ _ q) eqn:Hq; [symmetry; by eapply ctr_paths_free|].
  unfold added. rewrite Hv. cbn [fmap list_fmap put_vols foldl put_pod].
  rewrite lookup_put_deps, lookup_put_ctr; [done|..]; intros; intros ->; revert Hq; unfold ctr_paths.
  all: apply not_false_iff_true, orb_true_iff.
  all: first [ by left; apply bool_decide_eq_true | right; apply bool_decide_eq_true; set_solver ].
Qed.

(** Adding a container that uses no named volumes and does not depend on
    itself, and removing it again, restores the database. *)
Theorem add_remove_container ctr w w1 :
  ready w → Inv (w_db w) → AddContainer ctr w = (Ok (), w1) →
  cc_NamedVolumes (ctr_config ctr) = [] → ctr_ID ctr ∉ Dependencies ctr →
  RemoveContainer ctr w1 = (Ok (), set_db (w_db w) w1).
Proof.
  intros Hw HI Hr Hv Hself.
  assert (HI' : Inv (w_db w1)) by (eapply AddContainer_safe; [| |exact Hr]; done).
  unfold AddContainer in Hr. tx_inv.
  apply addContainer_run in Hr as (cfgJ & stJ & nets & _ & _ & _ & Hg & ->); [|done|done].
  apply Addable_AddGuards in Hg; [|done]. cbn [w_db set_db] in HI'. unfold RemoveContainer.
  erewrite st_bind_run by (apply ready_checkValid; by destruct Hw).
  erewrite st_bind_run by (by apply when_run).
  assert (HR := removed_added ctr cfgJ stJ nets (w_db w) HI Hg Hv).
  set (w1 := set_db (added ctr None cfgJ stJ nets (w_db w)) (add_effect (ClearNetworks (ctr_ID ctr)) w)).
  rewrite <- HR. change (added ctr None cfgJ stJ nets (w_db w)) with (w_db (set_dbLock true w1)).
  apply ready_Update; [by destruct Hw|]. apply removeContainer_run; [done|]. cbn [w_db set_db set_dbLock add_effect w1].
  constructor.
  - done.
  - by apply is_ctr_added; [..|left].
  - intros s. rewrite (added_session _ _ _ _ _ _ HI Hg). by eapply added_new_sub.
  - intros d. rewrite (added_dep _ _ _ _ _ _ Hg), decide_False by naive_solver.
    by eapply added_new_sub.
Qed.

End rm.

Lemma RemoveContainer_outcome_witness :
  result_of (RemoveContainer ctrA) world2 = Err ErrDepExists ∧
  result_of (RemoveContainer ctrB) world2 = Ok ().
Proof.
  unfold result_of. split.
  - rewrite (proj1 (RemoveContainer_outcome ctrA world2 ltac:(apply readyb_ready; vm_compute; reflexivity) world2_inv eq_refl)).
    vm_compute. reflexivity.
  - rewrite (proj1 (RemoveContainer_outcome ctrB world2 ltac:(apply readyb_ready; vm_compute; reflexivity) world2_inv eq_refl)).
    vm_compute. reflexivity.
Defined.

(** The configuration stored for container [ctrB]. *)
Lemma world2_ctrB :
  is_ctr (w_db world2) "bbbbbbbbbbbb0002" ∧ stored_config (w_db world2) "bbbbbbbbbbbb0002" (ctr_config ctrB).
Proof.
  split; [vm_compute; reflexivity|].
  unfold stored_config. eexists. split; vm_compute; reflexivity.
Qed.

Lemma RemoveContainer_protects_dependencies_witness :
  ∃ r, result_of (RemoveContainer ctrA) world2 = r ∧ w_db (run (RemoveContainer ctrA) world2) = w_db world2.
Proof.
  eexists. split; [reflexivity|].
  apply (RemoveContainer_protects_dependencies ctrA "bbbbbbbbbbbb0002" (ctr_config ctrB) world2
    (result_of (RemoveContainer ctrA) world2)).
  - apply readyb_ready. vm_compute. reflexivity.
  - apply world2_inv.
  - apply world2_ctrB.
  - apply world2_ctrB.
  - apply (bool_decide_unpack _). vm_compute. exact I.
  - apply run_eq. reflexivity.
Defined.

Lemma add_remove_container_witness :
  RemoveContainer ctrB world2 = (Ok (), set_db (w_db world1) world2).
Proof.
  apply (add_remove_container ctrB world1 world2).
  - apply readyb_ready. vm_compute. reflexivity.
  - apply world1_inv.
  - apply (run_eq (AddContainer ctrB) world1). vm_compute. reflexivity.
  - reflexivity.
  - apply (bool_decide_unpack _). vm_compute. exact I.
Defined.
