(* ===== verification/PropsLookup.v ===== *)
(** * PropsLookup: resolving IDs, names and ID prefixes *)

From S2P Require Import Prelude Define Bolt BoltTx Strconv BoltInternal BoltState BoltInv BoltSafe.
From S2P Require Import BoltAdd BoltRemove BoltPods BoltVols BoltRename.
From S2P Require Import BoltRefresh BoltOps TestRuntime.

(** ** The search for a unique prefix *)

(** The keys that start with [pre], in the order in which they are visited. *)
Definition matching (pre : string) (l : list (string * entry)) : list string :=
  filter (λ k, String.prefix pre k = true) l.*1.

Lemma matching_cons pre k v l :
  matching pre ((k, v) :: l) = if String.prefix pre k then k :: matching pre l else matching pre l.
Proof.
  unfold matching. cbn [fmap list_fmap fst]. destruct (String.prefix pre k) eqn:Hp.
  - by rewrite filter_cons_True.
  - by rewrite filter_cons_False by congruence.
Qed.

Lemma searchPrefix_found pre e x l :
  searchPrefix pre e (Some x) l =
  match matching pre l with [] => Ok (Some x) | _ :: _ => Err e end.
Proof.
  induction l as [|[k v] l IH]; [done|]. rewrite matching_cons. cbn [searchPrefix].
  by destruct (String.prefix pre k).
Qed.

Lemma searchPrefix_eq pre e l :
  searchPrefix pre e None l =
  match matching pre l with [] => Ok None | [k] => Ok (Some k) | _ => Err e end.
Proof.
  induction l as [|[k v] l IH]; [done|]. rewrite matching_cons. cbn [searchPrefix].
  destruct (String.prefix pre k); [|done]. rewrite searchPrefix_found. by destruct (matching pre l).
Qed.

(** What an ID, a name or a prefix of an ID resolves to: an object with that ID,
    else the one with that name, else the only one whose ID starts with it. *)
Definition resolve (db : Db) (bkt s : string) (ambiguous missing : error) : result error string :=
  if decide (db !! [bkt; s] = Some Bkt) then Ok s
  else
    match bget db [nameRegistryBkt] s with
    | Some i => if decide (db !! [bkt; i] = Some Bkt) then Ok i
                else match matching s (children [bkt] db) with
                     | [] => Err missing | [k] => Ok k | _ => Err ambiguous end
    | None => match matching s (children [bkt] db) with
              | [] => Err missing | [k] => Ok k | _ => Err ambiguous end
    end.

(** ** What a consistent database resolves to *)

Section resolve.
Context `{Runtime}.
Context (db : Db) (bkt : string) (ambiguous missing : error).
Hypothesis Hinv : Inv db.
Hypothesis Hbkt : bkt ∈ [ctrBkt; podBkt].
Local Abbreviation obj := (λ i, db !! [bkt; i] = Some Bkt).

Lemma elem_of_matching s j : j ∈ matching s (children [bkt] db) ↔ obj j ∧ String.prefix s j = true.
Proof.
  unfold matching. rewrite list_elem_of_filter, elem_of_keys. cbn [app]. split; [|intros []; eauto].
  intros [Hp [e He]]. split; [|done]. destruct e as [v|]; [|done]. exfalso.
  apply (inv_shape db Hinv) in He. rewrite !elem_of_cons, elem_of_nil in Hbkt.
  destruct Hbkt as [->|[->|[]]]; by vm_compute in He.
Qed.

Lemma NoDup_matching s : NoDup (matching s (children [bkt] db)).
Proof. unfold matching. apply NoDup_filter, NoDup_children_keys. Qed.

Definition by_prefix (s : string) : result error string :=
  match matching s (children [bkt] db) with
  | [] => Err missing | [k] => Ok k | _ => Err ambiguous end.

Lemma by_prefix_Ok s i :
  by_prefix s = Ok i ↔
  obj i ∧ String.prefix s i = true ∧ ∀ j, obj j → String.prefix s j = true → j = i.
Proof.
  assert (Hm := elem_of_matching s). assert (Hnd := NoDup_matching s). unfold by_prefix.
  destruct (matching s _) as [|k [|k' l]].
  - split; [done|]. intros (Hi & Hp & _). by destruct (not_elem_of_nil i); apply Hm.
  - split.
    + intros [= <-]. destruct (proj1 (Hm k)) as [??]; [by left|]. split_and!; [done|done|].
      intros j ??. by apply list_elem_of_singleton, Hm.
    + intros (Hi & Hp & _). f_equal. symmetry. by apply list_elem_of_singleton, Hm.
  - split; [done|]. intros (Hi & Hp & Hu). exfalso. apply NoDup_cons in Hnd as [Hk _]. apply Hk.
    destruct (proj1 (Hm k)) as [??]; [by left|]. destruct (proj1 (Hm k')) as [??]; [by right; left|].
    rewrite (Hu k), <- (Hu k') by done. by left.
Qed.

Lemma by_prefix_Err s e :
  by_prefix s = Err e →
  (e = ambiguous ∧ ∃ i j, i ≠ j ∧ obj i ∧ obj j ∧ String.prefix s i = true ∧ String.prefix s j = true) ∨
  (e = missing ∧ ∀ i, obj i → String.prefix s i = false).
Proof.
  assert (Hm := elem_of_matching s). assert (Hnd := NoDup_matching s). unfold by_prefix.
  destruct (matching s _) as [|k [|k' l]].
  - intros [= <-]. right. split; [done|]. intros i Hi. apply not_true_iff_false. intros Hp.
    by destruct (not_elem_of_nil i); apply Hm.
  - done.
  - intros [= <-]. left. split; [done|]. apply NoDup_cons in Hnd as [Hk _].
    destruct (proj1 (Hm k)) as [??]; [by left|]. destruct (proj1 (Hm k')) as [??]; [by right; left|].
    exists k, k'. split_and!; try done. intros ->. apply Hk. by left.
Qed.

Lemma resolve_Ok s i :
  resolve db bkt s ambiguous missing = Ok i ↔
  obj i ∧
  (s = i ∨
   (¬ obj s ∧
    (id_name db i s ∨
     ((∀ j, obj j → ¬ id_name db j s) ∧ String.prefix s i = true ∧
      ∀ j, obj j → String.prefix s j = true → j = i)))).
Proof.
  unfold resolve. fold (by_prefix s).
  assert (Hname : ∀ j, bget db [nameRegistryBkt] s = Some j ↔ id_name db j s).
  { intros j. rewrite bget_Some. symmetry. apply (inv_id_name _ (inv_registry _ Hinv)). }
  case_decide as Hc; [naive_solver|].
  destruct (bget db [nameRegistryBkt] s) as [j|] eqn:Hj.
  - assert (Hjs := proj1 (Hname j) eq_refl).
    assert (Huniq : ∀ k, id_name db k s → k = j) by (intros k ?; by eapply name_unique; [apply Hinv|..]).
    case_decide as Hjc.
    + split; [intros [= <-]; auto|]. intros (Hi & [->|(_ & [?|(Hno & _)])]); [done|f_equal; symmetry; auto|].
      by destruct (Hno j).
    + rewrite by_prefix_Ok. split.
      * intros (? & ? & ?). split; [done|]. right. split; [done|]. right. split_and!; [|done|done].
        intros k Hk Hks. by rewrite (Huniq k Hks) in Hk.
      * intros (Hi & [->|(_ & [?|(_ & ? & ?)])]); [done| |done]. by rewrite (Huniq i) in Hi by done.
  - assert (Hno : ∀ k, ¬ id_name db k s) by (intros k ?%Hname; done).
    rewrite by_prefix_Ok. split; [|naive_solver].
    intros (? & ? & ?). split; [done|]. right. split; [done|]. right. naive_solver.
Qed.

Lemma resolve_Err s e :
  resolve db bkt s ambiguous missing = Err e →
  (e = ambiguous ∧ ∃ i j, i ≠ j ∧ obj i ∧ obj j ∧ String.prefix s i = true ∧ String.prefix s j = true) ∨
  (e = missing ∧ ∀ i, obj i → String.prefix s i = false).
Proof.
  unfold resolve. fold (by_prefix s). case_decide; [done|].
  destruct (bget _ _ _); [case_decide; [done|]|]; apply by_prefix_Err.
Qed.
End resolve.

Section lookup.
Context `{Runtime}.

Lemma lookupContainerID_run s w :
  lookupContainerID s [ctrBkt] [nameRegistryBkt] w =
  (resolve (w_db w) ctrBkt s ErrCtrExists ErrNoSuchCtr, w).
Proof.
  unfold lookupContainerID, resolve. tx_go. unfold bucket at 1. cbn [app].
  destruct (w_db w !! [ctrBkt; s]) as [[v|]|] eqn:Hs; [rewrite decide_False by done|done|rewrite decide_False by done].
  all: tx_go; destruct (bget (w_db w) [nameRegistryBkt] s) as [i|]; tx_go.
  all: try (unfold bucket; cbn [app]; destruct (w_db w !! [ctrBkt; i]) as [[?|]|];
            first [rewrite decide_False by done|rewrite decide_True by done]; try done).
  all: tx_go; unfold lift; unfold mbind at 1, st_bind at 1; rewrite searchPrefix_eq;
    by destruct (matching s _) as [|? []].
Qed.

Lemma lookupPodID_run s w :
  lookupPodID s [podBkt] [nameRegistryBkt] w =
  (resolve (w_db w) podBkt s ErrPodExists ErrNoSuchPod, w).
Proof.
  unfold lookupPodID, resolve. tx_go. unfold bucket at 1. cbn [app].
  destruct (w_db w !! [podBkt; s]) as [[v|]|] eqn:Hs; [rewrite decide_False by done|done|rewrite decide_False by done].
  all: tx_go; destruct (bget (w_db w) [nameRegistryBkt] s) as [i|]; tx_go.
  all: try (unfold bucket; cbn [app]; destruct (w_db w !! [podBkt; i]) as [[?|]|];
            first [rewrite decide_False by done|rewrite decide_True by done]; try done).
  all: tx_go; unfold lift; unfold mbind at 1, st_bind at 1; rewrite searchPrefix_eq;
    by destruct (matching s _) as [|? []].
Qed.

Lemma LookupContainerID_run s w :
  ready w → Inv (w_db w) → s ≠ "" →
  LookupContainerID s w = (resolve (w_db w) ctrBkt s ErrCtrExists ErrNoSuchCtr, w).
Proof.
  intros Hw HI Hs. schema_facts HI. unfold LookupContainerID.
  erewrite st_bind_run by (by apply when_run). erewrite st_bind_run by (by apply ready_checkValid).
  destruct (resolve (w_db w) ctrBkt s ErrCtrExists ErrNoSuchCtr) as [i|e] eqn:Hr.
  - apply ready_View; [done|]. do 2 tx_go. rewrite lookupContainerID_run. cbn. by rewrite Hr.
  - apply ready_View_Err; [done|]. do 2 tx_go. rewrite lookupContainerID_run. cbn. by rewrite Hr.
Qed.

(** C5: [LookupContainerID] on an open, consistent state, for any non-empty
    string: it returns [i] exactly when [i] is the ID of a container and the
    string is [i] itself, or (no container having that ID) the name of [i], or
    (the name of no container either) a prefix of [i] and of no other
    container's ID. *)
Theorem LookupContainerID_spec s i w :
  ready w → Inv (w_db w) → s ≠ "" →
  (LookupContainerID s w).1 = Ok i ↔
  is_ctr (w_db w) i ∧
  (s = i ∨
   (¬ is_ctr (w_db w) s ∧
    (id_name (w_db w) i s ∨
     ((∀ j, is_ctr (w_db w) j → ¬ id_name (w_db w) j s) ∧ String.prefix s i = true ∧
      ∀ j, is_ctr (w_db w) j → String.prefix s j = true → j = i)))).
Proof.
  intros Hw HI Hs. rewrite LookupContainerID_run by done. apply resolve_Ok; [done|by_dec].
Qed.

(** When [LookupContainerID] fails on an open, consistent state, the error
    is [ErrCtrExists] and the string is ambiguous (a prefix of the IDs of two
    containers), or [ErrNoSuchCtr] and the string is the prefix of no
    container's ID. *)
Theorem LookupContainerID_errors s e w :
  ready w → Inv (w_db w) → s ≠ "" → (LookupContainerID s w).1 = Err e →
  (e = ErrCtrExists ∧ ∃ i j, i ≠ j ∧ is_ctr (w_db w) i ∧ is_ctr (w_db w) j ∧
     String.prefix s i = true ∧ String.prefix s j = true) ∨
  (e = ErrNoSuchCtr ∧ ∀ i, is_ctr (w_db w) i → String.prefix s i = false).
Proof.
  intros Hw HI Hs. rewrite LookupContainerID_run by done. apply resolve_Err; [done|by_dec].
Qed.

(** [LookupPod] resolves pods by the same rules, and a name that belongs to
    a container is not taken for a pod's: when it returns a pod, the pod's
    configuration is stored under an ID that the string is, names, or is the
    only pod ID to start with. *)
Theorem LookupPod_spec s pod w w' :
  ready w → Inv (w_db w) → s ≠ "" → LookupPod s w = (Ok pod, w') →
  ∃ i js, is_pod (w_db w) i ∧ w_db w !! [podBkt; i; configKey] = Some (Val js) ∧
    unmarshal js = Ok (pod_config pod) ∧
    (s = i ∨ id_name (w_db w) i s ∨
     (String.prefix s i = true ∧ ∀ j, is_pod (w_db w) j → String.prefix s j = true → j = i)).
Proof.
  intros Hw HI Hs Hr. unfold LookupPod in Hr. tx_inv.
  match goal with Hl : lookupPodID _ _ _ _ = (Ok ?i, _) |- _ =>
    rewrite lookupPodID_run in Hl; injection Hl as Hl <-; apply resolve_Ok in Hl; [rename i into id|done|by_dec] end.
  match goal with Hg : getPodFromDB _ _ _ = _ |- _ => unfold getPodFromDB in Hg; tx_inv end.
  exists id. eexists. split_and!; [done|done|done|]. tauto.
Qed.

End lookup.

Lemma LookupContainerID_spec_witness :
  is_ctr (w_db world2) "aaaaaaaaaaaa0001" ∧ (LookupContainerID "alpha" world2).1 = Ok "aaaaaaaaaaaa0001".
Proof.
  assert (Hc : (LookupContainerID "alpha" world2).1 = Ok "aaaaaaaaaaaa0001") by (vm_compute; reflexivity).
  split; [|exact Hc]. apply (LookupContainerID_spec "alpha" "aaaaaaaaaaaa0001" world2);
    [apply readyb_ready; vm_compute; reflexivity|apply world2_inv|discriminate|exact Hc].
Defined.

(** Two containers whose IDs share a prefix. *)
Definition ctrA2 : Define.Container := mkCtr "aaaaaaaaaaaa0009" "alef" [] [].
Definition worldA2 : World := run (AddContainer ctrA2) world1.

Lemma worldA2_inv : Inv (w_db worldA2).
Proof. eapply run_inv; [apply AddContainer_safe|done|apply world1_inv]. Qed.

Lemma LookupContainerID_errors_witness :
  (LookupContainerID "aaa" worldA2).1 = Err ErrCtrExists ∧
  ∃ i j, i ≠ j ∧ is_ctr (w_db worldA2) i ∧ is_ctr (w_db worldA2) j.
Proof.
  assert (He : (LookupContainerID "aaa" worldA2).1 = Err ErrCtrExists) by (vm_compute; reflexivity).
  split; [exact He|].
  destruct (LookupContainerID_errors "aaa" ErrCtrExists worldA2) as [(_ & i & j & Hij & Hi & Hj & _)|[[=] _]].
  - apply readyb_ready. vm_compute. reflexivity.
  - apply worldA2_inv.
  - discriminate.
  - exact He.
  - exists i, j. auto.
Defined.

Lemma LookupPod_spec_witness : ∃ i, is_pod (w_db world3) i.
Proof.
  destruct (LookupPod_spec "pod1" (mkPod (pod_config podP) newpodState true (Some 2%Z)) world3
    (run (LookupPod "pod1") world3)) as (i & js & Hi & _).
  - apply readyb_ready. vm_compute. reflexivity.
  - apply world3_inv.
  - discriminate.
  - apply run_eq. vm_compute. reflexivity.
  - exists i. exact Hi.
Defined.
