(* ===== verification/PropsPods.v ===== *)
(** * PropsPods: theorems about pods and volumes *)

From S2P Require Import Prelude Define Bolt BoltTx Strconv BoltInternal BoltState BoltInv BoltSafe BoltAdd BoltRemove.
From S2P Require Import BoltPods BoltVols BoltRename BoltRefresh BoltOps TestRuntime.

Section pods.
Context `{RuntimeLaws}.

(** The containers of pod [p], by their stored configurations. *)
Definition member_of (db : Db) (p c : string) : Prop :=
  is_ctr db c ∧ ∃ cfg, stored_config db c cfg ∧ cc_Pod cfg = p.

Lemma member_of_iff db p c :
  Inv db → p ≠ "" → member_of db p c ↔ is_Some (db !! [podBkt; p; containersBkt; c]).
Proof.
  intros HI Hp. split.
  - intros (Hc & cfg & Hs & Hpod).
    destruct (inv_ctr_cfg db (inv_ctrs db HI) c Hc) as (cfg' & Hs' & _ & Hn & Hk).
    assert (cfg' = cfg) as -> by (by eapply stored_config_fun). rewrite Hpod, decide_False in Hk by done.
    exists (Val (cc_Name cfg)). apply (inv_member db (inv_pods db HI)). split_and!; try done.
    by apply (inv_podid db (inv_pods db HI) c).
  - intros [[m|] Hm]; [|exfalso; revert Hm; by apply shape_ne; [apply HI|]].
    apply (inv_member db (inv_pods db HI)) in Hm as (_ & Hc & Hk & _). split; [done|].
    destruct (inv_ctr_cfg db (inv_ctrs db HI) c Hc) as (cfg & Hs & _ & _ & Hk').
    exists cfg. split; [done|]. rewrite Hk in Hk'. case_decide; by simplify_eq.
Qed.

Lemma podCtrsOf_run pod w :
  Inv (w_db w) → is_pod (w_db w) (pod_ID pod) →
  podCtrsOf pod [podBkt] w = (Ok [podBkt; pod_ID pod; containersBkt], w).
Proof.
  intros HI Hp. destruct (inv_pod_name _ (inv_pods _ HI) _ Hp) as [_ Hc].
  unfold podCtrsOf. erewrite st_bind_run; last first.
  { unfold podBucketOf. tx_go. unfold bucket. cbn [app]. by rewrite Hp. }
  tx_go. unfold bucket. cbn [app]. by rewrite Hc.
Qed.

(** [PodContainersByID] lists, without duplicates, exactly the containers
    whose stored configuration names the pod. *)
Theorem PodContainersByID_exact pod w :
  ready w → Inv (w_db w) → pod_valid pod = true → is_pod (w_db w) (pod_ID pod) →
  ∃ ids, PodContainersByID pod w = (Ok ids, w) ∧ NoDup ids ∧
    ∀ c, c ∈ ids ↔ member_of (w_db w) (pod_ID pod) c.
Proof.
  intros Hw HI Hv Hp. destruct (inv_pod_name _ (inv_pods _ HI) _ Hp) as [Hne _].
  exists (children [podBkt; pod_ID pod; containersBkt] (w_db w)).*1. split_and!.
  - unfold PodContainersByID. schema_facts HI. erewrite st_bind_run by (by apply ready_checkValid).
    rewrite Hv. erewrite st_bind_run by reflexivity. apply ready_View; [done|]. tx_go.
    erewrite st_bind_run by (by apply podCtrsOf_run). done.
  - apply NoDup_children_keys.
  - intros c. rewrite elem_of_keys, member_of_iff by done. done.
Qed.

(** C6: [RemovePod] on an open, consistent state: it answers [ErrNoSuchPod] when
    the pod does not exist and [ErrCtrExists] while some container's stored
    configuration names the pod; otherwise it succeeds and erases exactly the
    pod's registrations and its bucket. *)
Theorem RemovePod_outcome pod w :
  ready w → Inv (w_db w) → pod_valid pod = true →
  (¬ is_pod (w_db w) (pod_ID pod) → (RemovePod pod w).1 = Err ErrNoSuchPod) ∧
  (is_pod (w_db w) (pod_ID pod) → (∃ c, member_of (w_db w) (pod_ID pod) c) →
     RemovePod pod w = (Err ErrCtrExists, w)) ∧
  (is_pod (w_db w) (pod_ID pod) → (∀ c, ¬ member_of (w_db w) (pod_ID pod) c) →
     RemovePod pod w = (Ok (), set_db (erase (pod_paths (pod_ID pod) (pod_Name pod)) (w_db w)) w)).
Proof.
  intros Hw HI Hv. schema_facts HI. unfold RemovePod.
  erewrite !st_bind_run by (by apply ready_checkValid). rewrite Hv.
  erewrite !st_bind_run by reflexivity.
  assert (HI' : Inv (w_db (set_dbLock true w))) by done. split_and!; intros Hp.
  - erewrite ready_Update_Err; [done|done|]. unfold RemovePod_tx. do 4 tx_go.
    erewrite st_bind_run_err; [done|]. unfold podBucketOf. tx_go. unfold bucket. cbn [app].
    destruct (w_db w !! [podBkt; pod_ID pod]) as [[]|] eqn:He; [|by destruct Hp|]; done.
  - destruct (inv_pod_name _ (inv_pods _ HI) _ Hp) as [Hne Hc]. intros [c [e Hm]%member_of_iff]; [|done|done].
    rewrite (ready_Update_Err w Hw _ ErrCtrExists (set_dbLock true w)).
    + by destruct w, Hw; simpl in *; subst.
    + unfold RemovePod_tx. do 4 tx_go. erewrite st_bind_run; last first.
      { unfold podBucketOf. tx_go. unfold bucket. cbn [app]. by rewrite Hp. }
      tx_go. unfold bucket. cbn [app]. rewrite Hc. erewrite st_bind_run_err; [done|]. tx_go. apply when_err.
      intros Hn. rewrite children_nil in Hn. specialize (Hn c). cbn [app w_db set_dbLock] in Hn. by rewrite Hn in Hm.
  - intros Hno. apply ready_Update; [done|].
    refine (RemovePod_tx_run pod (set_dbLock true w) HI' Hp _). intros c. cbn [w_db set_dbLock].
    destruct (inv_pod_name _ (inv_pods _ HI) _ Hp) as [Hne _].
    destruct (w_db w !! [podBkt; pod_ID pod; containersBkt; c]) as [e|] eqn:He; [|done]. exfalso. apply (Hno c).
    apply member_of_iff; [done|done|by eexists].
Qed.

(** [RemovePodContainers] on an open, consistent state succeeds for every
    existing pod, and removes exactly the pod's containers: none of them is left
    in the database, the pod has no members any more, every other container
    keeps its bucket, and the pod itself stays. *)
Theorem RemovePodContainers_effect pod w :
  ready w → Inv (w_db w) → pod_valid pod = true → is_pod (w_db w) (pod_ID pod) →
  ∃ w', RemovePodContainers pod w = (Ok (), w') ∧
    is_pod (w_db w') (pod_ID pod) ∧
    (∀ c, ¬ member_of (w_db w') (pod_ID pod) c) ∧
    (∀ c, is_ctr (w_db w') c ↔ is_ctr (w_db w) c ∧ ¬ member_of (w_db w) (pod_ID pod) c) ∧
    (∀ c k, is_ctr (w_db w') c → w_db w' !! [ctrBkt; c; k] = w_db w !! [ctrBkt; c; k]).
Proof.
  intros Hw HI Hv Hp. schema_facts HI.
  destruct (inv_pod_name _ (inv_pods _ HI) _ Hp) as [Hne _].
  assert (HE := emptied_inv (pod_ID pod) (w_db w) HI Hp).
  assert (Hctr : ∀ c, is_ctr (emptied (pod_ID pod) (w_db w)) c ↔
    ¬ is_Some (w_db w !! [podBkt; pod_ID pod; containersBkt; c]) ∧ is_ctr (w_db w) c).
  { intros c. apply (em_some (pod_ID pod) (w_db w) [ctrBkt; c] Bkt c); [done|by eapply em_ctr]. }
  exists (set_db (emptied (pod_ID pod) (w_db w)) w). split_and!.
  - unfold RemovePodContainers. erewrite st_bind_run by (by apply ready_checkValid). rewrite Hv.
    erewrite st_bind_run by reflexivity. apply ready_Update; [done|].
    exact (RemovePodContainers_tx_run pod (set_dbLock true w) HI Hp).
  - cbn. unfold is_pod. rewrite em_pod, decide_False, decide_False by (try done; by intros [? [=]]). done.
  - cbn. intros c. rewrite member_of_iff by done. rewrite em_pod, decide_False, decide_True by (try done; by exists [c]).
    by intros [].
  - cbn. intros c. rewrite Hctr, member_of_iff by done. tauto.
  - cbn. intros c k [Hc _]%Hctr. rewrite em_other by done.
    destruct (own_paths _ [ctrBkt; c; k]) eqn:HP; [|done]. by apply (em_ctr _ _ _ c [k]) in HP.
Qed.

End pods.

Lemma PodContainersByID_exact_witness :
  ∃ ids, PodContainersByID podP world3 = (Ok ids, world3).
Proof.
  destruct (PodContainersByID_exact podP world3) as (ids & Hr & _).
  - apply readyb_ready. vm_compute. reflexivity.
  - apply world3_inv.
  - reflexivity.
  - vm_compute. reflexivity.
  - exists ids. exact Hr.
Defined.

Lemma RemovePod_outcome_witness : RemovePod podP world3 = (Err ErrCtrExists, world3).
Proof.
  destruct (RemovePod_outcome podP world3) as (_ & H2 & _).
  - apply readyb_ready. vm_compute. reflexivity.
  - apply world3_inv.
  - reflexivity.
  - apply H2; [vm_compute; reflexivity|]. exists "cccccccccccc0004". split; [vm_compute; reflexivity|].
    exists (ctr_config ctrM). split; [|reflexivity].
    unfold stored_config. eexists. split; vm_compute; reflexivity.
Defined.

Lemma RemovePodContainers_effect_witness :
  ∃ w', RemovePodContainers podP world3 = (Ok (), w') ∧ is_pod (w_db w') "pppppppppppp0003".
Proof.
  destruct (RemovePodContainers_effect podP world3) as (w' & Hr & Hp & _).
  - apply readyb_ready. vm_compute. reflexivity.
  - apply world3_inv.
  - reflexivity.
  - vm_compute. reflexivity.
  - exists w'. split; [exact Hr|exact Hp].
Defined.

(** ** Theorems about volumes *)

Section vols.
Context `{RuntimeLaws}.

(** Container [c] uses volume [v], by its stored configuration. *)
Definition uses_volume (db : Db) (c v : string) : Prop :=
  is_ctr db c ∧ ∃ cfg, stored_config db c cfg ∧ v ∈ (nv_Name <$> cc_NamedVolumes cfg).

Lemma volBucketOf_run vol w :
  is_vol (w_db w) (vol_Name vol) → volBucketOf vol [volBkt] w = (Ok [volBkt; vol_Name vol], w).
Proof. intros Hv. unfold volBucketOf. tx_go. unfold bucket. cbn [app]. by rewrite Hv. Qed.

(** A volume in use cannot be removed: while the stored configuration of
    some container names the volume, [RemoveVolume] answers
    [ErrVolumeBeingUsed] and changes nothing. *)
Theorem RemoveVolume_protects_users vol c w :
  ready w → Inv (w_db w) → uses_volume (w_db w) c (vol_Name vol) →
  RemoveVolume vol w = (Err ErrVolumeBeingUsed, w).
Proof.
  intros Hw HI (Hc & cfg & Hs & Hin). schema_facts HI.
  destruct (inv_vol_used _ (inv_vols _ HI) _ _ _ Hc Hs Hin) as [Hv [e He]].
  assert (Hd := inv_vol_deps _ (inv_vols _ HI) _ Hv).
  unfold RemoveVolume. erewrite st_bind_run by (by apply ready_checkValid).
  rewrite (ready_Update_Err w Hw _ ErrVolumeBeingUsed (set_dbLock true w)).
  - by destruct w, Hw; simpl in *; subst.
  - unfold RemoveVolume_tx. do 4 tx_go. erewrite st_bind_run by (by apply volBucketOf_run).
    tx_go. unfold bucket at 1. cbn [app]. rewrite Hd. erewrite st_bind_run_err; [done|].
    unfold volumeUsers. tx_go. apply when_err. intros Hn%volumeUsers_nil. by rewrite (Hn c Hc) in He.
Qed.

(** [VolumeInUse] misses no user: on an open, consistent state every
    container whose stored configuration names the volume is in its answer, and
    it answers with existing containers only. *)
Theorem VolumeInUse_complete vol w :
  ready w → Inv (w_db w) → vol_valid vol = true → is_vol (w_db w) (vol_Name vol) →
  ∃ users, VolumeInUse vol w = (Ok users, w) ∧
    (∀ c, uses_volume (w_db w) c (vol_Name vol) → c ∈ users) ∧ (∀ c, c ∈ users → is_ctr (w_db w) c).
Proof.
  intros Hw HI Hval Hv. schema_facts HI. assert (Hd := inv_vol_deps _ (inv_vols _ HI) _ Hv).
  eexists. split_and!.
  - unfold VolumeInUse. erewrite st_bind_run by (by apply ready_checkValid). rewrite Hval.
    erewrite st_bind_run by reflexivity. apply ready_View; [done|]. do 2 tx_go.
    erewrite st_bind_run by (by apply volBucketOf_run). tx_go. unfold bucket at 1. cbn [app]. rewrite Hd. tx_go. done.
  - intros c (Hc & cfg & Hs & Hin). destruct (inv_vol_used _ (inv_vols _ HI) _ _ _ Hc Hs Hin) as [_ [e He]].
    apply list_elem_of_filter. split; [exists [ctrBkt; c]; by apply bucket_Some|].
    apply elem_of_keys. by exists e.
  - intros c [[b [Hb _]%bucket_Some] _]%list_elem_of_filter. done.
Qed.

(** [RemoveContainer] leaves the container's entries in the dependency
    buckets of its named volumes behind: the loop that is meant to delete them
    does so only when they are absent. *)
Theorem RemoveContainer_leaves_volume_entries ctr v w w' :
  ready w → Inv (w_db w) → uses_volume (w_db w) (ctr_ID ctr) v →
  RemoveContainer ctr w = (Ok (), w') →
  ¬ is_ctr (w_db w') (ctr_ID ctr) ∧ is_Some (w_db w' !! [volBkt; v; volDependenciesBkt; ctr_ID ctr]).
Proof.
  intros Hw HI (Hc & cfg & Hs & Hin) Hr.
  destruct (inv_vol_used _ (inv_vols _ HI) _ _ _ Hc Hs Hin) as [_ [e He]].
  unfold RemoveContainer in Hr. tx_inv.
  match goal with Hx : removeContainer _ _ _ = _ |- _ => apply removeContainer_Ok in Hx as [_ ->]; [|done] end.
  cbn. unfold is_ctr, removed. rewrite !lookup_erase. split.
  - unfold ctr_paths. by rewrite (bool_decide_eq_true_2 (ctrBkt = ctrBkt ∧ _)).
  - rewrite ctr_paths_flat by (right; by_dec). by exists e.
Qed.

Lemma AddVolume_inversion vol w w' :
  ready w → Inv (w_db w) → AddVolume vol w = (Ok (), w') →
  ∃ cfgJ stJ, marshal (vol_config vol) = Ok cfgJ ∧
    match vol_state vol, stJ with
    | Some st, Some js => marshal st = Ok js
    | None, None => True
    | _, _ => False
    end ∧
    AddVolGuards (vol_Name vol) cfgJ stJ (vc_StorageID (vol_config vol)) (w_db w) ∧
    w' = set_db (vol_added (vol_Name vol) cfgJ stJ (vc_StorageID (vol_config vol)) (w_db w)) w.
Proof.
  intros Hw HI Hr. unfold AddVolume in Hr. tx_inv.
  all: match goal with Hx : AddVolume_tx _ _ _ _ = _ |- _ => apply AddVolume_tx_Ok in Hx as [Hg ->]; [|done] end.
  all: eexists _, _; split_and!; [done| |exact Hg|by destruct w, Hw; simpl in *; subst].
  - done.
  - done.
Qed.

(** Loading a volume. *)
Lemma Volume_run name w cfgJ cfg stJ st l :
  ready w → Inv (w_db w) → name ≠ "" → is_vol (w_db w) name →
  w_db w !! [volBkt; name; configKey] = Some (Val cfgJ) → unmarshal cfgJ = Ok cfg →
  bget (w_db w) [volBkt; name] stateKey = stJ →
  match stJ with Some js => unmarshal js = Ok st | None => st = newVolumeState end →
  rt_RetrieveLock (vc_LockID cfg) = Ok l →
  ∃ plugin, Volume name w = (Ok (mkVolume cfg (Some st) true plugin (Some l)), w).
Proof.
  intros Hw HI Hne Hv Hc Hu Hs Hst Hl. schema_facts HI. eexists. unfold Volume.
  erewrite st_bind_run by (by apply when_run). erewrite st_bind_run by (by apply ready_checkValid).
  apply ready_View; [done|]. tx_go. unfold getVolumeFromDB. tx_go. unfold bucket at 1. cbn [app]. rewrite Hv.
  tx_go. tx_go. unfold bget at 1. cbn [app]. rewrite Hc. tx_go. rewrite Hu. tx_go. tx_go. rewrite Hs.
  erewrite st_bind_run; last first.
  { instantiate (1 := set_dbLock true w). instantiate (1 := st). destruct stJ; [by rewrite Hst|by subst]. }
  rewrite Hl. by tx_go.
Qed.

Lemma vol_added_keys v cfgJ stJ sid db :
  Inv db → AddVolGuards v cfgJ stJ sid db →
  vol_added v cfgJ stJ sid db !! [volBkt; v; configKey] = Some (Val cfgJ) ∧
  bget (vol_added v cfgJ stJ sid db) [volBkt; v] stateKey = stJ.
Proof.
  intros HI Hg. assert (Hfree := fresh_vol _ _ HI (avg_free _ _ _ _ _ Hg)). unfold vol_added, bget. cbn [app].
  rewrite !(lookup_insert_ne _ [allVolsBkt; v]), !(lookup_put_if _ [volCtrsBkt; sid]) by done. split.
  - rewrite lookup_put_if by done. by lk.
  - unfold put_if. destruct stJ as [js|].
    + rewrite bool_decide_eq_true_2 by (by eexists). by lk.
    + rewrite bool_decide_eq_false_2 by (by intros []). lk. by rewrite (fresh_vol_sub _ _ _ _ HI Hfree).
Qed.

(** What [AddVolume] stores can be read back: the name was free before, and
    afterwards [Volume] returns a volume with the given configuration and state
    (the empty state when none was given), which no container uses. *)
Theorem AddVolume_retrieve vol l w w' :
  ready w → Inv (w_db w) → rt_RetrieveLock (vc_LockID (vol_config vol)) = Ok l →
  AddVolume vol w = (Ok (), w') →
  ¬ is_vol (w_db w) (vol_Name vol) ∧
  (∃ v, Volume (vol_Name vol) w' = (Ok v, w') ∧ vol_config v = vol_config vol ∧
     vol_state v = Some (default newVolumeState (vol_state vol))) ∧
  (∀ c, ¬ uses_volume (w_db w') c (vol_Name vol)).
Proof.
  intros Hw HI Hl Hr. apply AddVolume_inversion in Hr as (cfgJ & stJ & Hc & Hst & Hg & ->); [|done|done].
  assert (Hfree := fresh_vol _ _ HI (avg_free _ _ _ _ _ Hg)).
  assert (HI' := vol_added_inv _ _ _ _ _ HI Hg). apply unmarshal_marshal in Hc.
  destruct (vol_added_keys _ _ _ _ _ HI Hg) as [K1 K2]. split_and!; [done| |].
  - edestruct (Volume_run (vol_Name vol) (set_db (vol_added (vol_Name vol) cfgJ stJ (vc_StorageID (vol_config vol)) (w_db w)) w)
      cfgJ (json_view (vol_config vol)) stJ (default newVolumeState (vol_state vol)) l) as [pl Hv]; try done.
    + by apply ready_set_db.
    + by apply key_ok_ne, Hg.
    + apply va_is_vol; by left.
    + destruct (vol_state vol), stJ; try done. by apply unmarshal_marshal in Hst.
    + by eexists.
  - intros c (Hctr & cfg & Hs & Hin). cbn [w_db set_db] in *.
    destruct (inv_vol_used _ (inv_vols _ HI') _ _ _ Hctr Hs Hin) as [_ [e He]].
    rewrite va_user in He. by rewrite (fresh_vol_sub _ _ _ _ HI Hfree) in He.
Qed.

End vols.

Lemma world4_uses : uses_volume (w_db world4) "dddddddddddd0005" "vol1".
Proof.
  split; [vm_compute; reflexivity|]. exists (ctr_config ctrW). split.
  - unfold stored_config. eexists. split; vm_compute; reflexivity.
  - by_dec.
Qed.

Lemma RemoveVolume_protects_users_witness : RemoveVolume volV world4 = (Err ErrVolumeBeingUsed, world4).
Proof.
  apply (RemoveVolume_protects_users volV "dddddddddddd0005" world4).
  - apply readyb_ready. vm_compute. reflexivity.
  - apply world4_inv.
  - exact world4_uses.
Defined.

Lemma VolumeInUse_complete_witness : ∃ users, VolumeInUse volV world4 = (Ok users, world4) ∧ "dddddddddddd0005" ∈ users.
Proof.
  destruct (VolumeInUse_complete volV world4) as (users & Hr & Hin & _).
  - apply readyb_ready. vm_compute. reflexivity.
  - apply world4_inv.
  - reflexivity.
  - vm_compute. reflexivity.
  - exists users. split; [exact Hr|apply Hin; exact world4_uses].
Defined.

Lemma RemoveContainer_leaves_volume_entries_witness :
  ¬ is_ctr (w_db (run (RemoveContainer ctrW) world4)) "dddddddddddd0005" ∧
  is_Some (w_db (run (RemoveContainer ctrW) world4) !! [volBkt; "vol1"; volDependenciesBkt; "dddddddddddd0005"]).
Proof.
  apply (RemoveContainer_leaves_volume_entries ctrW "vol1" world4).
  - apply readyb_ready. vm_compute. reflexivity.
  - apply world4_inv.
  - exact world4_uses.
  - apply run_eq. vm_compute. reflexivity.
Defined.

Lemma AddVolume_retrieve_witness :
  ∃ v, Volume "vol1" (run (AddVolume volV) world3) = (Ok v, run (AddVolume volV) world3) ∧ vol_config v = vol_config volV.
Proof.
  destruct (AddVolume_retrieve volV 3%Z world3 (run (AddVolume volV) world3)) as (_ & (v & Hv & Hc & _) & _).
  - apply readyb_ready. vm_compute. reflexivity.
  - apply world3_inv.
  - reflexivity.
  - apply run_eq. vm_compute. reflexivity.
  - exists v. split; [exact Hv|exact Hc].
Defined.
