(* ===== verification/PropsConfig.v ===== *)
(** * PropsConfig: theorems about states, renaming, [Refresh], exec sessions and
    exit codes *)

From S2P Require Import Prelude Define Bolt BoltTx Strconv Ports BoltInternal BoltState BoltInv BoltSafe BoltAdd.
From S2P Require Import BoltRemove BoltPods BoltVols BoltRename BoltRefresh BoltOps TestRuntime.

Section config.
Context `{RuntimeLaws}.

(** ** States *)

Lemma SaveContainer_inversion ctr w w' :
  ready w → Inv (w_db w) → SaveContainer ctr w = (Ok (), w') →
  ctr_valid ctr = true ∧ is_ctr (w_db w) (ctr_ID ctr) ∧
  ∃ stJ, marshal (ctr_state ctr) = Ok stJ ∧
    w' = set_db (let db := <[[ctrBkt; ctr_ID ctr; stateKey] := Val stJ]> (w_db w) in
                 if decide (cs_NetNS (ctr_state ctr) = "") then delete [ctrBkt; ctr_ID ctr; netNSKey] db else db) w.
Proof.
  intros Hw HI Hr. unfold SaveContainer, ctrBucketOf in Hr. tx_inv.
  all: split_and!; [by apply negb_false_iff|done|]; eexists; (split; [done|]);
    by destruct w, Hw; simpl in *; subst.
Qed.

(** A saved state is the state that [UpdateContainer] loads again, whatever
    network namespace it names and whatever an older version stored beside it. *)
Theorem SaveContainer_UpdateContainer ctr w w' :
  ready w → Inv (w_db w) → SaveContainer ctr w = (Ok (), w') →
  UpdateContainer ctr w' = (Ok (ctr_state ctr), w').
Proof.
  intros Hw HI Hr. assert (HI' : Inv (w_db w')) by (eapply SaveContainer_safe; [| |exact Hr]; done).
  apply SaveContainer_inversion in Hr as (Hv & Hc & stJ & HJ & ->); [|done|done].
  apply unmarshal_marshal in HJ. set (w1 := set_db _ w) in *. assert (Hw1 : ready w1) by (by apply ready_set_db).
  assert (Hst : w_db w1 !! [ctrBkt; ctr_ID ctr; stateKey] = Some (Val stJ)) by (cbn; case_decide; by lk).
  assert (Hc1 : w_db w1 !! [ctrBkt; ctr_ID ctr] = Some Bkt) by (cbn; case_decide; by lk).
  schema_facts HI'. unfold UpdateContainer.
  erewrite st_bind_run by (by apply ready_checkValid). rewrite Hv. erewrite st_bind_run by reflexivity.
  apply ready_View; [done|]. unfold getContainerStateDB. tx_go. tx_go. unfold bucket. cbn [app].
  rewrite Hc1. tx_go. tx_go. unfold bget at 1. cbn [app]. rewrite Hst. tx_go. rewrite HJ. tx_go. tx_go.
  change (json_view (ctr_state ctr)) with (ctr_state ctr).
  destruct (decide (cs_NetNS (ctr_state ctr) = "")) as [Hn|Hn].
  - assert (Hk : w_db w1 !! [ctrBkt; ctr_ID ctr; netNSKey] = None) by (cbn; by lk).
    unfold bget. cbn [app]. by rewrite Hk.
  - by destruct (bget _ _ _).
Qed.

(** ** Refresh *)

(** C7: [Refresh], on an open, consistent state, keeps everything that survives a
    reboot and resets the rest.  When it succeeds, the registries, the
    containers' configurations and pods, the dependencies and the volumes are
    unchanged; every container's state is the stored one with its run-time fields
    reset; no network namespace, exec session or exit code is left; and the
    database is consistent. *)
Theorem Refresh_effect w w' :
  ready w → Inv (w_db w) → Refresh w = (Ok (), w') → RefreshPost (w_db w) (w_db w').
Proof.
  intros Hw HI Hr. unfold Refresh in Hr. tx_inv.
  match goal with Hx : Refresh_tx _ = _ |- _ => apply Refresh_tx_Ok in Hx; [done|done] end.
Qed.

(** ** Renaming *)

(** Renaming a container.  When [SafeRewriteContainerConfig] succeeds with a
    new name that nobody had, for a container whose registered name is [old], the
    new name resolves to the container, the old name is free, the container's ID
    maps to the new name, its stored configuration is the new one, and no other
    ID's name changed. *)
Theorem rename_effect ctr old new newCfg w w' :
  ready w → Inv (w_db w) → new ≠ "" → id_name (w_db w) (ctr_ID ctr) old →
  w_db w !! [nameRegistryBkt; new] = None →
  SafeRewriteContainerConfig ctr old new newCfg w = (Ok (), w') →
  name_id (w_db w') new (ctr_ID ctr) ∧ w_db w' !! [nameRegistryBkt; old] = None ∧
  id_name (w_db w') (ctr_ID ctr) new ∧ stored_config (w_db w') (ctr_ID ctr) (cc_set_rewrite false newCfg) ∧
  (∀ j m, j ≠ ctr_ID ctr → id_name (w_db w') j m ↔ id_name (w_db w) j m).
Proof.
  intros Hw HI Hne Ho Hfree Hr. unfold SafeRewriteContainerConfig, SafeRewrite_tx in Hr.
  rewrite decide_True in Hr by done. tx_inv.
  match goal with Hx : renameContainer _ _ _ _ = _ |- _ =>
    apply renameContainer_Ok in Hx as [[Hx ->]|[Hx ->]]; [|..|done] end.
  { cbn in *. congruence. }
  assert (Hold : old ≠ new).
  { intros ->. apply (inv_id_name _ (inv_registry _ HI)) in Ho. unfold name_id in Ho. congruence. }
  unfold ctrBucketOf in *. tx_inv.
  match goal with Hx : marshal newCfg = Ok _ |- _ => apply unmarshal_marshal in Hx; rename Hx into HJ end.
  cbn. unfold name_id, id_name, stored_config. split_and!.
  - lk. unfold renamed. case_decide; by lk.
  - lk. unfold renamed. case_decide; by lk.
  - lk. unfold renamed. case_decide; by lk.
  - eexists. by lk.
  - intros j m Hj. lk. rewrite lookup_renamed; [done|try done; by intros [=]..].
Qed.

(** A container cannot take a name that another container or pod has:
    [SafeRewriteContainerConfig] answers [ErrCtrExists] and changes nothing. *)
Theorem rename_conflict ctr old new newCfg holder w :
  ready w → Inv (w_db w) → ctr_valid ctr = true → new ≠ "" → old ≠ "" → cc_Name newCfg = new →
  is_Ok (marshal newCfg) = true → id_name (w_db w) holder new → holder ≠ ctr_ID ctr →
  SafeRewriteContainerConfig ctr old new newCfg w = (Err ErrCtrExists, w).
Proof.
  intros Hw HI Hv Hne Hold Hname HJ Hh Hneq. schema_facts HI.
  apply (inv_id_name _ (inv_registry _ HI)) in Hh. unfold name_id in Hh.
  destruct (marshal newCfg) as [js|] eqn:Hm; [|done].
  unfold SafeRewriteContainerConfig. erewrite st_bind_run by (by apply ready_checkValid). rewrite Hv.
  erewrite st_bind_run by reflexivity. erewrite st_bind_run by (apply when_run; tauto).
  erewrite st_bind_run by (apply when_run; tauto). rewrite Hm. erewrite st_bind_run by reflexivity.
  rewrite (ready_Update_Err w Hw _ ErrCtrExists (set_dbLock true w)).
  - by destruct w, Hw; simpl in *; subst.
  - unfold SafeRewrite_tx. rewrite decide_True by done. erewrite st_bind_run_err; [done|].
    unfold renameContainer. do 4 tx_go. unfold bget. cbn [app]. rewrite Hh. erewrite st_bind_run_err; [done|].
    erewrite st_bind_run_err; [done|]. by apply when_err.
Qed.

End config.

Definition ctrA_running : Define.Container :=
  mkContainer (ctr_config ctrA) (cs_set_NetNS "/run/netns/x" (cs_set_State ContainerStateRunning newContainerState))
    true None None.

Lemma SaveContainer_UpdateContainer_witness :
  UpdateContainer ctrA_running (run (SaveContainer ctrA_running) world1) =
    (Ok (ctr_state ctrA_running), run (SaveContainer ctrA_running) world1).
Proof.
  apply (SaveContainer_UpdateContainer ctrA_running world1).
  - apply readyb_ready. vm_compute. reflexivity.
  - apply world1_inv.
  - apply run_eq. vm_compute. reflexivity.
Defined.

Lemma Refresh_effect_witness : RefreshPost (w_db world5) (w_db (run Refresh world5)).
Proof.
  apply (Refresh_effect world5).
  - apply readyb_ready. vm_compute. reflexivity.
  - apply world5_inv.
  - apply run_eq. vm_compute. reflexivity.
Defined.

Definition omegaCfg : ContainerConfig := cc_set_Name "omega" (ctr_config ctrA).

Lemma rename_effect_witness :
  name_id (w_db (run (SafeRewriteContainerConfig ctrA "alpha" "omega" omegaCfg) world1)) "omega" "aaaaaaaaaaaa0001".
Proof.
  destruct (rename_effect ctrA "alpha" "omega" omegaCfg world1
    (run (SafeRewriteContainerConfig ctrA "alpha" "omega" omegaCfg) world1)) as (H1 & _).
  - apply readyb_ready. vm_compute. reflexivity.
  - apply world1_inv.
  - discriminate.
  - vm_compute. reflexivity.
  - vm_compute. reflexivity.
  - apply run_eq. vm_compute. reflexivity.
  - exact H1.
Defined.

Lemma rename_conflict_witness :
  SafeRewriteContainerConfig ctrA "alpha" "beta" (cc_set_Name "beta" (ctr_config ctrA)) world2 =
    (Err ErrCtrExists, world2).
Proof.
  apply (rename_conflict ctrA "alpha" "beta" (cc_set_Name "beta" (ctr_config ctrA)) "bbbbbbbbbbbb0002" world2).
  - apply readyb_ready. vm_compute. reflexivity.
  - apply world2_inv.
  - reflexivity.
  - discriminate.
  - discriminate.
  - reflexivity.
  - vm_compute. reflexivity.
  - vm_compute. reflexivity.
  - discriminate.
Defined.

(** ** Theorems about exec sessions and exit codes *)

Section sessions.
Context `{RuntimeLaws}.

Lemma ctrBucketOf_run ctr w :
  is_ctr (w_db w) (ctr_ID ctr) → ctrBucketOf ctr [ctrBkt] w = (Ok [ctrBkt; ctr_ID ctr], w).
Proof. intros Hc. unfold ctrBucketOf. tx_go. unfold bucket. cbn [app]. by rewrite Hc. Qed.

(** ** Exec sessions *)

Lemma AddExecSession_inversion ctr session w w' :
  ready w → Inv (w_db w) → AddExecSession ctr session w = (Ok (), w') →
  ctr_valid ctr = true ∧ is_ctr (w_db w) (ctr_ID ctr) ∧ key_ok (es_Id session) = true ∧
  w' = set_db (session_added (ctr_ID ctr) (es_Id session) (w_db w)) w.
Proof.
  intros Hw HI Hr. unfold AddExecSession, ctrBucketOf in Hr. tx_inv.
  split_and!; [by apply negb_false_iff|done|done|]. by destruct w, Hw; simpl in *; subst.
Qed.

Lemma GetContainerExecSessions_run ctr w :
  ready w → Inv (w_db w) → ctr_valid ctr = true → is_ctr (w_db w) (ctr_ID ctr) →
  ∃ l, GetContainerExecSessions ctr w = (Ok l, w) ∧ NoDup l ∧
    ∀ s, s ∈ l ↔ is_Some (w_db w !! [ctrBkt; ctr_ID ctr; execBkt; s]).
Proof.
  intros Hw HI Hv Hc. schema_facts HI. unfold GetContainerExecSessions.
  erewrite st_bind_run by (by apply ready_checkValid). rewrite Hv. erewrite st_bind_run by reflexivity.
  destruct (w_db w !! [ctrBkt; ctr_ID ctr; execBkt]) as [[x|]|] eqn:He.
  - exfalso. revert He. by apply shape_ne; [apply HI|].
  - exists (children [ctrBkt; ctr_ID ctr; execBkt] (w_db w)).*1. split_and!.
    + apply ready_View; [done|]. tx_go. erewrite st_bind_run by (by apply ctrBucketOf_run).
      tx_go. unfold bucket. cbn [app]. by rewrite He.
    + apply NoDup_children_keys.
    + intros s. by rewrite elem_of_keys.
  - exists []. split_and!.
    + apply ready_View; [done|]. tx_go. erewrite st_bind_run by (by apply ctrBucketOf_run).
      tx_go. unfold bucket. cbn [app]. by rewrite He.
    + constructor.
    + intros s. split; [by intros ?%not_elem_of_nil|]. intros Hs. exfalso.
      assert (Hb : w_db w !! [ctrBkt; ctr_ID ctr; execBkt] = Some Bkt)
        by (by apply (inv_tree _ HI [ctrBkt; ctr_ID ctr; execBkt] s)). congruence.
Qed.

(** Exec sessions can be found again and are not registered twice: after
    [AddExecSession] succeeds, [GetExecSession] maps the session to its container,
    the container lists it, and adding a session with the same ID to any existing
    container answers [ErrExecSessionExists]. *)
Theorem AddExecSession_registers ctr session w w' :
  ready w → Inv (w_db w) → AddExecSession ctr session w = (Ok (), w') →
  GetExecSession (es_Id session) w' = (Ok (ctr_ID ctr), w') ∧
  (∃ l, GetContainerExecSessions ctr w' = (Ok l, w') ∧ es_Id session ∈ l) ∧
  (∀ ctr' session', es_Id session' = es_Id session → ctr_valid ctr' = true → is_ctr (w_db w') (ctr_ID ctr') →
     AddExecSession ctr' session' w' = (Err ErrExecSessionExists, w')).
Proof.
  intros Hw HI Hr. assert (HI' : Inv (w_db w')) by (eapply AddExecSession_safe; [| |exact Hr]; done).
  apply AddExecSession_inversion in Hr as (Hv & Hc & Hk & ->); [|done|done].
  set (w1 := set_db _ w) in *. assert (Hw1 : ready w1) by (by apply ready_set_db). schema_facts HI'.
  assert (Hx : w_db w1 !! [execBkt; es_Id session] = Some (Val (ctr_ID ctr))) by (cbn; unfold session_added; by lk).
  split_and!.
  - unfold GetExecSession. erewrite st_bind_run by (by apply ready_checkValid).
    erewrite st_bind_run by (apply when_run; by apply key_ok_ne).
    apply ready_View; [done|]. do 2 tx_go. unfold bget. cbn [app]. by rewrite Hx.
  - destruct (GetContainerExecSessions_run ctr w1) as (l & Hl & _ & Hin); [done|done|done| |].
    { cbn. unfold session_added, is_ctr in *. by lk. }
    exists l. split; [done|]. apply Hin. cbn. unfold session_added. lk. by eexists.
  - intros ctr' session' Hid Hv' Hc'. unfold AddExecSession.
    erewrite st_bind_run by (by apply ready_checkValid). rewrite Hv'. erewrite st_bind_run by reflexivity.
    assert (HS1 := inv_shape _ HI').
    erewrite ready_Update_Err; [|done|].
    2:{ do 2 tx_go. erewrite st_bind_run by (by apply ctrBucketOf_run).
        erewrite st_bind_run by (apply CreateBucketIfNotExists_Ok; split_and!;
          [done|done|intros v; by apply (shape_ne _ _ _ HS1)|done]). tx_cbn.
        tx_go. erewrite st_bind_run_err; [done|]. apply when_err. rewrite Hid.
        exists (ctr_ID ctr). apply bget_Some. cbn [app]. by lk. }
    cbn. by destruct w, Hw; simpl in *; subst.
Qed.

(** [RemoveContainerExecSessions] succeeds for every existing container of an
    open, consistent state, and afterwards the container has no exec sessions,
    so that [RemoveContainer] is no longer refused because of them. *)
Theorem RemoveContainerExecSessions_clears ctr w :
  ready w → Inv (w_db w) → ctr_valid ctr = true → is_ctr (w_db w) (ctr_ID ctr) →
  ∃ w', RemoveContainerExecSessions ctr w = (Ok (), w') ∧
    GetContainerExecSessions ctr w' = (Ok [], w') ∧ is_ctr (w_db w') (ctr_ID ctr).
Proof.
  intros Hw HI Hv Hc.
  destruct (RemoveContainerExecSessions_tx_run ctr (set_dbLock true w) HI Hc) as (db' & Hr & HI' & Hno & Hc').
  exists (set_db db' w). assert (Hw1 : ready (set_db db' w)) by (by apply ready_set_db). split_and!.
  - unfold RemoveContainerExecSessions. erewrite st_bind_run by (by apply ready_checkValid). rewrite Hv.
    erewrite st_bind_run by reflexivity. by apply ready_Update.
  - destruct (GetContainerExecSessions_run ctr (set_db db' w)) as (l & Hl & _ & Hin); [done..|].
    rewrite Hl. destruct l as [|s l]; [done|]. exfalso.
    destruct (proj1 (Hin s)) as [e He]; [by left|]. cbn in He. by rewrite Hno in He.
  - done.
Qed.

(** ** Exit codes *)

Lemma AddContainerExitCode_inversion id code w w' :
  ready w → Inv (w_db w) → AddContainerExitCode id code w = (Ok (), w') →
  ∃ t, rt_timeMarshal rt_now = Ok t ∧ id ≠ "" ∧ Inv (w_db w') ∧
    w' = set_db (<[[exitCodeTimeStampBkt; id] := Val t]> (<[[exitCodeBkt; id] := Val (itoa code)]> (w_db w))) w.
Proof.
  intros Hw HI Hr. assert (HI' : Inv (w_db w')) by (eapply AddContainerExitCode_safe; [| |exact Hr]; done).
  unfold AddContainerExitCode, onErr in Hr. tx_inv.
  match goal with Hx : match Put ?b ?k ?v ?ww with _ => _ end = _ |- _ =>
    destruct (Put b k v ww) as [[[]|?] ?] eqn:Hp; [|by destruct (Delete _ _ _)] end. tx_inv.
  eexists. split_and!; [done|done|done|]. by destruct w, Hw; simpl in *; subst.
Qed.

Lemma int32_id c : (- 2 ^ 31 ≤ c < 2 ^ 31)%Z → Ports.int32 c = c.
Proof. intros. unfold Ports.int32. rewrite Z.mod_small by lia. lia. Qed.

(** Exit codes round-trip at their width: after [AddContainerExitCode] with a
    32-bit code succeeds, [GetContainerExitCode] returns the same code (negative
    ones included) and [GetContainerExitCodeTimeStamp] the time of the call. *)
Theorem exit_code_roundtrip id code w w' :
  ready w → Inv (w_db w) → (- 2 ^ 31 ≤ code < 2 ^ 31)%Z → AddContainerExitCode id code w = (Ok (), w') →
  GetContainerExitCode id w' = (Ok code, w') ∧ GetContainerExitCodeTimeStamp id w' = (Ok rt_now, w').
Proof.
  intros Hw HI Hc Hr. apply AddContainerExitCode_inversion in Hr as (t & Ht & Hid & HI' & ->); [|done|done].
  set (w1 := set_db _ w) in *. assert (Hw1 : ready w1) by (by apply ready_set_db). schema_facts HI'. split.
  - unfold GetContainerExitCode. erewrite st_bind_run by (by apply when_run).
    erewrite st_bind_run by (by apply ready_checkValid). apply ready_View; [done|].
    do 2 tx_go. unfold bget. cbn [app w1 w_db set_db]. lk. tx_go.
    rewrite atoi_itoa by (unfold minInt64, maxInt64; lia). tx_go. by rewrite int32_id.
  - unfold GetContainerExitCodeTimeStamp. erewrite st_bind_run by (by apply when_run).
    erewrite st_bind_run by (by apply ready_checkValid). apply ready_View; [done|].
    do 2 tx_go. unfold bget. cbn [app w1 w_db set_db]. lk. tx_go. by rewrite (law_time _ _ Ht).
Qed.

End sessions.

Lemma AddExecSession_registers_witness :
  GetExecSession "sess1" world5 = (Ok "bbbbbbbbbbbb0002", world5).
Proof.
  destruct (AddExecSession_registers ctrB sess1 world4 world5) as (H1 & _ & _).
  - apply readyb_ready. vm_compute. reflexivity.
  - apply world4_inv.
  - apply (run_eq (AddExecSession ctrB sess1) world4 (Ok ())). vm_compute. reflexivity.
  - exact H1.
Defined.

Lemma RemoveContainerExecSessions_clears_witness :
  ∃ w', RemoveContainerExecSessions ctrB world5 = (Ok (), w') ∧ GetContainerExecSessions ctrB w' = (Ok [], w').
Proof.
  destruct (RemoveContainerExecSessions_clears ctrB world5) as (w' & H1 & H2 & _).
  - apply readyb_ready. vm_compute. reflexivity.
  - apply world5_inv.
  - reflexivity.
  - vm_compute. reflexivity.
  - exists w'. split; [exact H1|exact H2].
Defined.

Lemma exit_code_roundtrip_witness :
  GetContainerExitCode "aaaaaaaaaaaa0001" (run (AddContainerExitCode "aaaaaaaaaaaa0001" (-1)) world1) =
    (Ok (-1)%Z, run (AddContainerExitCode "aaaaaaaaaaaa0001" (-1)) world1).
Proof.
  destruct (exit_code_roundtrip "aaaaaaaaaaaa0001" (-1) world1
    (run (AddContainerExitCode "aaaaaaaaaaaa0001" (-1)) world1)) as [H1 _].
  - apply readyb_ready. vm_compute. reflexivity.
  - apply world1_inv.
  - lia.
  - apply run_eq. vm_compute. reflexivity.
  - exact H1.
Defined.
