(* ===== verification/PropsGraph.v ===== *)
(** * PropsGraph: theorems about the dependency graph

    Cycle detection, graph construction, and the traversals that start and remove
    the containers of a pod. *)

From S2P Require Import Prelude Define Graph GraphCycles GraphBuild GraphWalk TestRuntime.

(** ** Construction *)

(** C8: [detectCycles] terminates without an error on every graph whose edges stay
    within its nodes, in whatever order the map of nodes is visited, and answers
    [true] exactly when two different containers depend on each other, directly or
    through others.  (A container that depends only on itself is not reported.) *)
Theorem detectCycles_correct order g :
  closed_graph (cg_nodes g) → order ≡ₚ elements (dom (cg_nodes g)) →
  ∃ b, detectCycles order g = Some (Ok b) ∧ (b = true ↔ cyclic (cg_nodes g)).
Proof.
  intros Hc Ho. destruct (detectCycles_ok order g Hc Ho) as [[? ?]|(? & ? & _)].
  - by exists true.
  - exists false. split; [done|]. split; [done|intros ?; contradiction].
Qed.

(** [BuildContainerGraph] answers [ErrNoSuchCtr] when some container depends on
    one that is not in the list, [ErrInternal] when all dependencies are present but
    two containers depend on each other, and otherwise a graph with one node per
    container, its dependencies as outgoing edges, the same edges recorded at their
    other end, exactly the containers without dependencies in [noDepNodes], and
    exactly the containers on which none depends in [notDependedOnNodes]. *)
Theorem BuildContainerGraph_spec ctrs order1 order2 :
  let m := ctrMap ctrs in
  order1 ≡ₚ elements (dom m) → order2 ≡ₚ elements (dom m) →
  ((∃ u v, depends m u v ∧ m !! v = None) ∧
    BuildContainerGraph order1 order2 ctrs = Some (Err ErrNoSuchCtr)) ∨
  ((∀ u v, depends m u v → is_Some (m !! v)) ∧ dep_cycle m ∧
    BuildContainerGraph order1 order2 ctrs = Some (Err ErrInternal)) ∨
  ((∀ u v, depends m u v → is_Some (m !! v)) ∧ ¬ dep_cycle m ∧
    ∃ g, BuildContainerGraph order1 order2 ctrs = Some (Ok g) ∧ GraphOf m (deps_of m) g ∧
      ∀ u, u ∈ cg_noDepNodes g ↔ is_Some (m !! u) ∧ deps_of m u = []).
Proof.
  intros m Ho1 Ho2. destruct (deps_present ctrs) as [Hp|Hm].
  - right. destruct (BuildContainerGraph_ok ctrs order1 order2 Ho1 Ho2 Hp) as (g & Hg & Hn & [[Hb Hc]|(Hb & Hc & _)]);
      [left; done|right]. split_and!; [done|done|]. by exists g.
  - left. split; [done|]. by apply BuildContainerGraph_missing.
Qed.

(** ** Traversals *)

Section traversal.
Context {W : Type} `{ContainerOps W}.
Context (ctrs : list Container) (order1 order2 : list string) (g : ContainerGraph).
Let m : gmap string Container := ctrMap ctrs.
Context (Ho1 : order1 ≡ₚ elements (dom m)) (Ho2 : order2 ≡ₚ elements (dom m)).
Context (Hbuild : BuildContainerGraph order1 order2 ctrs = Some (Ok g)).

(** The state of a traversal before it visits the first node. *)
Definition walk0 (infra : option string) (w : W) : Walk W := mkWalk ∅ [] [] ∅ infra w.

Lemma graph_two_ended : two_ended (cg_nodes g).
Proof using Ho1 Ho2 Hbuild.
  destruct (BuildContainerGraph_inv ctrs order1 order2 Ho1 Ho2 g Hbuild) as (Hg & _ & _).
  constructor; [apply Hg|]. intros u d. unfold deps, users.
  destruct (cg_nodes g !! u) as [n|] eqn:Hu; destruct (cg_nodes g !! d) as [nd|] eqn:Hd.
  - by rewrite (go_users _ _ _ Hg u d nd Hd), (go_deps _ _ _ Hg u n Hu).
  - split; [|by intros ?%elem_of_nil]. rewrite (go_deps _ _ _ Hg u n Hu). intros Hin.
    destruct (deps_present ctrs) as [Hp|Hm].
    + pose proof (Hp u d Hin) as Hs. apply (go_is_Some _ _ _ d Hg) in Hs as [? ?]. congruence.
    + by rewrite (BuildContainerGraph_missing ctrs order1 order2 Ho1 Hm) in Hbuild.
  - split; [by intros ?%elem_of_nil|]. rewrite (go_users _ _ _ Hg u d nd Hd). unfold deps_of.
    pose proof (go_ctr _ _ _ Hg u) as Hc. rewrite Hu in Hc. by rewrite <-Hc.
  - split; by intros ?%elem_of_nil.
Qed.

Lemma graph_deps u : deps (cg_nodes g) u = deps_of m u.
Proof using Ho1 Ho2 Hbuild.
  destruct (BuildContainerGraph_inv ctrs order1 order2 Ho1 Ho2 g Hbuild) as (Hg & _ & _).
  unfold deps. destruct (cg_nodes g !! u) as [n|] eqn:Hu; [by apply (go_deps _ _ _ Hg)|].
  pose proof (go_ctr _ _ _ Hg u) as Hc. rewrite Hu in Hc. unfold deps_of, m. by rewrite <-Hc.
Qed.

Lemma start_visited restart infra w :
  ∃ s', startGraph restart g (walk0 infra w) = Some s' ∧
    ∀ u, is_Some (m !! u) → ¬ enabled (deps (cg_nodes g)) s' u.
Proof using Ho1 Ho2 Hbuild.
  destruct (BuildContainerGraph_inv ctrs order1 order2 Ho1 Ho2 g Hbuild) as (Hg & Hn & _).
  destruct (start_all_progress (cg_nodes g) graph_two_ended restart (2 + size (cg_nodes g)) (cg_noDepNodes g)
    (walk0 infra w)) as (s' & Hs' & Hp).
  { intros u [? _]%Hn. by apply (go_is_Some _ _ _ u Hg). }
  { unfold unvisited. simpl. rewrite difference_empty_L, size_dom. lia. }
  exists s'. split; [done|]. intros u Hu [[_ He] Hl]%(pg_enabled _ _ _ _ _ Hp). apply Hl, Hn. split; [done|].
  rewrite <-graph_deps. apply elem_of_nil_inv. intros p Hp'. apply He in Hp'. by apply elem_of_nil in Hp'.
Qed.

Lemma safe_walk0 infra w : Safe (cg_nodes g) (walk0 infra w) ∧ propagated (cg_nodes g) (walk0 infra w).
Proof using.
  split; [constructor|]; simpl.
  - intros d [x Hx]. by rewrite lookup_empty in Hx.
  - by intros u [?%elem_of_nil|?%elem_of_nil].
  - intros u d [[?%elem_of_nil|?%elem_of_nil]|[?%elem_of_nil _]]; done.
  - done.
  - intros d u [x Hx]. simpl in Hx. by rewrite lookup_empty in Hx.
Qed.

Lemma start_safe restart infra w s' :
  startGraph restart g (walk0 infra w) = Some s' →
  Safe (cg_nodes g) s' ∧ propagated (cg_nodes g) s'.
Proof using Ho1 Ho2 Hbuild.
  intros Hrun. destruct (BuildContainerGraph_inv ctrs order1 order2 Ho1 Ho2 g Hbuild) as (Hg & Hn & _).
  destruct (safe_walk0 infra w) as [Hs Hp].
  destruct (foldO_safe (cg_nodes g) (startNode (2 + size (cg_nodes g)) (cg_nodes g) restart) false (cg_noDepNodes g))
    with (s := walk0 infra w) (s' := s') as (Hs' & Hps & Hv); try done.
  { intros. by eapply (startNode_safe _ graph_two_ended). }
  { intros u [? _]%Hn. by apply (go_is_Some _ _ _ u Hg). }
  split; [done|]. by eapply propagated_after.
Qed.

(** C9: the order in which a pod's containers are started (or restarted).  Each is
    started at most once; when it is, all of its dependencies were visited without
    a failure, and none of them is started later.  In particular a container that
    depends on itself is never started. *)
Theorem startGraph_order restart infra w s' l1 e l2 u :
  startGraph restart g (walk0 infra w) = Some s' →
  (wk_trace s').*1 = l1 ++ e :: l2 → e = EvStart u ∨ e = EvRestart u →
  ¬ acted u (l1 ++ l2) ∧
  ∀ d, depends m u d → d ≠ u ∧ d ∈ wk_visited s' ∧ wk_errors s' !! d = None ∧ ¬ acted d l1.
Proof using Ho1 Ho2 Hbuild.
  intros Hrun Htr He. destruct (start_safe restart infra w s' Hrun) as [Hs _].
  pose proof (sf_order _ _ Hs) as Ho. rewrite Htr in Ho.
  destruct (in_order_split _ _ _ _ _ Ho He) as [Hu Hd]. split; [done|].
  intros d Hdep. unfold depends in Hdep. rewrite <-graph_deps in Hdep.
  destruct (sf_deps _ _ Hs u d) as (? & ? & ?); [|done|].
  { left. rewrite Htr. unfold acted. destruct He as [-> | ->]; set_solver. }
  split_and!; [done|done|done|by apply Hd].
Qed.

(** C10: starting a pod reaches every container.  When no container depends on
    itself, the traversal terminates, every container is visited, and a container
    with a dependency that failed has an error as well. *)
Theorem startGraph_complete restart infra w :
  (∀ u, ¬ depends m u u) →
  ∃ s', startGraph restart g (walk0 infra w) = Some s' ∧
    (∀ u, is_Some (m !! u) → u ∈ wk_visited s') ∧
    (∀ u d, depends m u d → is_Some (wk_errors s' !! d) → is_Some (wk_errors s' !! u)).
Proof using Ho1 Ho2 Hbuild.
  intros Hself. destruct (BuildContainerGraph_inv ctrs order1 order2 Ho1 Ho2 g Hbuild) as (Hg & _ & l & Ht & Hl).
  destruct (start_visited restart infra w) as (s' & Hrun & He).
  destruct (start_safe restart infra w s' Hrun) as [Hs _].
  assert (Hall : ∀ u, is_Some (m !! u) → u ∈ wk_visited s').
  { intros u Hu. apply (all_visited (cg_nodes g) graph_two_ended l); [done|done| | |].
    - intros x. rewrite graph_deps. apply Hself.
    - intros x Hx. apply He. by apply (go_is_Some _ _ _ x Hg).
    - by apply (go_is_Some _ _ _ u Hg). }
  exists s'. split_and!; [done|done|]. intros u d Hdep [e Hd]. apply not_eq_None_Some. intros Hn.
  destruct (sf_deps _ _ Hs u d) as (_ & Hdn & _); [|by rewrite graph_deps|congruence].
  right. split; [|done]. apply Hall. unfold depends, deps_of in Hdep.
  destruct (m !! u); [done|by apply elem_of_nil in Hdep].
Qed.

(** C11: removing the containers of a pod.  When no container depends on itself, the
    traversal terminates and visits every container; the runtime is asked to remove
    a container at most once, and only while no container that depends on it exists;
    and every container for which no error is reported was removed.  (A lookup finds
    a container that exists, and the calls made before a removal create none.) *)
Theorem removeGraph_correct (alive : string → W → Prop) order infra w :
  (∀ d w r w', op_GetContainer d w = (r, w') →
     (alive d w → is_Ok r = true) ∧ ∀ x, alive x w' → alive x w) →
  (∀ id w r w', op_syncContainer id w = (r, w') → ∀ x, alive x w' → alive x w) →
  (∀ i w r w', op_savePod i w = (r, w') → ∀ x, alive x w' → alive x w) →
  order ≡ₚ elements (cg_notDependedOnNodes g) → (∀ u, ¬ depends m u u) →
  ∃ s', removeGraph order g (walk0 infra w) = Some s' ∧
    (∀ u, is_Some (m !! u) → u ∈ wk_visited s') ∧
    NoDup (removes (wk_trace s')) ∧
    (∀ u w', (EvRemove u, w') ∈ wk_trace s' → ∀ d, depends m d u → ¬ alive d w') ∧
    (∀ u, is_Some (m !! u) → wk_errors s' !! u = None → u ∈ removes (wk_trace s')).
Proof using Ho1 Ho2 Hbuild.
  intros Hget Hsync Hsave Hord Hself.
  destruct (BuildContainerGraph_inv ctrs order1 order2 Ho1 Ho2 g Hbuild) as (Hg & _ & l & Ht & Hl).
  pose proof graph_two_ended as Hte.
  assert (Hroots : ∀ u, u ∈ order ↔ is_Some (m !! u) ∧ ∀ v, u ∉ deps_of m v).
  { intros u. rewrite Hord, elem_of_elements. apply (go_top _ _ _ Hg). }
  destruct (remove_all_progress (cg_nodes g) Hte (2 + size (cg_nodes g)) order (walk0 infra w)) as (s' & Hrun & Hp).
  { intros u [? _]%Hroots. by apply (go_is_Some _ _ _ u Hg). }
  { unfold unvisited. simpl. rewrite difference_empty_L, size_dom. lia. }
  assert (Hen : ∀ u, is_Some (cg_nodes g !! u) → ¬ enabled (users (cg_nodes g)) s' u).
  { intros u Hu [[_ He] Hn]%(pg_enabled _ _ _ _ _ Hp). apply Hn, Hroots.
    split; [by apply (go_is_Some _ _ _ u Hg)|]. intros v Hv. rewrite <-graph_deps in Hv.
    apply (te_users _ Hte), He in Hv. by apply elem_of_nil in Hv. }
  assert (Hall : ∀ u, is_Some (m !! u) → u ∈ wk_visited s').
  { intros u Hu. apply (all_visited_up (cg_nodes g) Hte l); [done|done| |done|by apply (go_is_Some _ _ _ u Hg)].
    intros x. rewrite graph_deps. apply Hself. }
  destruct (foldO_rsafe (cg_nodes g) alive (removeNode (2 + size (cg_nodes g)) (cg_nodes g)) false order)
    with (s := walk0 infra w) (s' := s') as [Hs _].
  { intros. by eapply removeNode_rsafe. }
  { constructor; simpl; [by intros ? ? ?%elem_of_nil|by intros ? ?%elem_of_nil|constructor|by intros ? ?%elem_of_nil]. }
  { done. }
  exists s'. split_and!; [done|done|apply Hs| |].
  - intros u w' Hu d Hd. apply (rs_gone _ _ _ Hs u w' Hu d). apply (te_users _ Hte). by rewrite graph_deps.
  - intros u Hu Hn. apply (rs_done _ _ _ Hs); auto.
Qed.
End traversal.

(** ** Witnesses

    Two containers, [ctrB] depends on [ctrA]; the state is the set of the
    containers that exist. *)

#[local] Instance testOps : ContainerOps (gset string) := {|
  op_checkDependenciesRunning := λ _ w, (Ok [], w);
  op_syncContainer := λ _ w, (Ok (), w);
  op_state := λ _ _, ContainerStateConfigured;
  op_initAndStart := λ _ w, (Ok (), w);
  op_restartWithTimeout := λ _ _ w, (Ok (), w);
  op_GetContainer := λ id w, (if decide (id ∈ w) then Ok () else Err ErrNoSuchCtr, w);
  op_savePod := λ _ w, (Ok (), w);
  op_removeContainer := λ id w, (Ok (), w ∖ {[id]}) |}.

Definition pairOrder : list string := elements (dom (ctrMap [ctrA; ctrB])).
Definition pairGraph : ContainerGraph :=
  match BuildContainerGraph pairOrder pairOrder [ctrA; ctrB] with
  | Some (Ok g) => g
  | _ => mkContainerGraph ∅ [] ∅
  end.

Lemma pairGraph_built : BuildContainerGraph pairOrder pairOrder [ctrA; ctrB] = Some (Ok pairGraph).
Proof. vm_compute. reflexivity. Qed.

Lemma pair_depends u v : depends (ctrMap [ctrA; ctrB]) u v → u = ctr_ID ctrB ∧ v = ctr_ID ctrA.
Proof.
  unfold depends, deps_of. destruct (ctrMap [ctrA; ctrB] !! u) as [c|] eqn:Hc; [|by intros ?%elem_of_nil].
  unfold ctrMap in Hc. cbn [foldl] in Hc.
  apply lookup_insert_Some in Hc as [[<- <-]|[_ Hc]].
  { replace (Dependencies ctrB) with [ctr_ID ctrA] by (vm_compute; reflexivity).
    intros ->%list_elem_of_singleton. split; reflexivity. }
  apply lookup_insert_Some in Hc as [[<- <-]|[_ Hc]].
  { replace (Dependencies ctrA) with (@nil string) by (vm_compute; reflexivity). intros []%elem_of_nil. }
  rewrite lookup_empty in Hc. discriminate Hc.
Qed.

Lemma pair_noself u : ¬ depends (ctrMap [ctrA; ctrB]) u u.
Proof. intros [-> Hu]%pair_depends. vm_compute in Hu. discriminate Hu. Qed.

Lemma detectCycles_correct_witness :
  ∃ b, detectCycles pairOrder pairGraph = Some (Ok b) ∧ (b = true ↔ cyclic (cg_nodes pairGraph)).
Proof.
  destruct (BuildContainerGraph_inv [ctrA; ctrB] pairOrder pairOrder (Permutation_refl _) (Permutation_refl _)
    pairGraph pairGraph_built) as (Hg & _ & _).
  apply (detectCycles_correct pairOrder pairGraph).
  - intros u v Huv%(edge_depends _ _ _ _ Hg).
    apply pair_depends in Huv as [_ ->].
    vm_compute. eauto.
  - vm_compute. reflexivity.
Defined.

Lemma BuildContainerGraph_spec_witness :
  BuildContainerGraph ["b"] ["b"] [mkCtr "b" "beta" ["missing"] []] = Some (Err ErrNoSuchCtr).
Proof.
  destruct (BuildContainerGraph_spec [mkCtr "b" "beta" ["missing"] []] ["b"] ["b"]) as [[_ H]|[(Hp & _)|(Hp & _)]].
  - by vm_compute.
  - by vm_compute.
  - exact H.
  - exfalso. assert (Hd : depends (ctrMap [mkCtr "b" "beta" ["missing"] []]) "b" "missing") by (vm_compute; left).
    apply Hp in Hd as [c Hc]. by vm_compute in Hc.
  - exfalso. assert (Hd : depends (ctrMap [mkCtr "b" "beta" ["missing"] []]) "b" "missing") by (vm_compute; left).
    apply Hp in Hd as [c Hc]. by vm_compute in Hc.
Defined.

Lemma startGraph_order_witness :
  ∃ s', startGraph false pairGraph (walk0 None (∅ : gset string)) = Some s' ∧
    ctr_ID ctrA ∈ wk_visited s' ∧ wk_errors s' !! ctr_ID ctrA = None.
Proof.
  destruct (startGraph false pairGraph (walk0 None (∅ : gset string))) as [s'|] eqn:Hrun; [|by vm_compute in Hrun].
  exists s'. split; [reflexivity|].
  destruct (startGraph_order [ctrA; ctrB] pairOrder pairOrder pairGraph (Permutation_refl _)
    (Permutation_refl _) pairGraph_built false None ∅ s' [EvUnlock (ctr_ID ctrB)] (EvStart (ctr_ID ctrB))
    [EvLock (ctr_ID ctrB); EvUnlock (ctr_ID ctrA); EvStart (ctr_ID ctrA); EvLock (ctr_ID ctrA)] (ctr_ID ctrB) Hrun)
    as [_ Hd].
  - vm_compute in Hrun. injection Hrun as <-. reflexivity.
  - left. reflexivity.
  - destruct (Hd (ctr_ID ctrA)) as (_ & Hv & He & _); [vm_compute; left|]. exact (conj Hv He).
Defined.

Lemma startGraph_complete_witness :
  ∃ s', startGraph false pairGraph (walk0 None (∅ : gset string)) = Some s' ∧ ctr_ID ctrB ∈ wk_visited s'.
Proof.
  destruct (startGraph_complete [ctrA; ctrB] pairOrder pairOrder pairGraph (Permutation_refl _) (Permutation_refl _)
    pairGraph_built false None (∅ : gset string) pair_noself) as (s' & Hrun & Hv & _).
  exists s'. split; [exact Hrun|]. apply Hv. vm_compute. eauto.
Defined.

Lemma removeGraph_correct_witness :
  ∃ s', removeGraph (elements (cg_notDependedOnNodes pairGraph)) pairGraph
      (walk0 None ({[ctr_ID ctrA; ctr_ID ctrB]} : gset string)) = Some s' ∧
    NoDup (removes (wk_trace s')) ∧ ctr_ID ctrA ∈ wk_visited s'.
Proof.
  destruct (removeGraph_correct [ctrA; ctrB] pairOrder pairOrder pairGraph (Permutation_refl _) (Permutation_refl _)
    pairGraph_built (λ d (w : gset string), d ∈ w) (elements (cg_notDependedOnNodes pairGraph)) None
    ({[ctr_ID ctrA; ctr_ID ctrB]} : gset string)) as (s' & Hrun & Hv & Hn & _).
  - intros d w r w' Hget. simpl in Hget. injection Hget as <- <-. split; [intros Hd; by rewrite decide_True|done].
  - intros id w r w' Hs. simpl in Hs. by injection Hs as <- <-.
  - intros id w r w' Hs. simpl in Hs. by injection Hs as <- <-.
  - reflexivity.
  - apply pair_noself.
  - exists s'. split; [exact Hrun|]. split; [exact Hn|]. apply Hv. vm_compute. eauto.
Defined.
