(* ===== verification/PropsSqlite.v ===== *)
(** * PropsSqlite: theorems about the state database on SQLite *)

From Stdlib Require Import Ascii.
From S2P Require Import Prelude Define Bolt BoltTx BoltInternal BoltState BoltOps Sqlite SqliteState.
From S2P Require Import StateSpec SqliteInv SqliteFrame SqliteAbs SqliteWrites SqliteSaves SqliteReads SqliteOps.
From S2P Require Import SqliteOps SqliteComplete TestRuntime.

Section sqlite_props.
Context `{RuntimeLaws, !EmptyTextLaws, RowOrder}.

(** C12: every database that a process can reach through the SQLite state, from a
    new file, by any calls but [RemovePodContainers] (where the new configuration of a
    pod has the ID of the pod, and a volume that is saved has a state), with any
    results, any faults of the engine and reopening in between, is consistent: all foreign keys of the
    schema hold, IDs are unique among containers and pods, names among the
    containers and among the pods, stored exit codes are in range, no container
    depends on itself, every stored text decodes, and the columns and the tables of
    dependencies and volumes say what the stored configurations say. *)
Theorem sqlite_reachable_consistent rts l w0 f w :
  NewSqliteState None rts l = (Ok w0, f) → rtc sstep w0 w → SInv (s_db w).
Proof.
  intros Hn Hs. apply (ssteps_consistent w0); [|done].
  apply NewSqliteState_Ok in Hn as [Hdb Hfk]. split; [rewrite Hdb; apply SInv_empty|done].
Qed.

(** C13: the SQLite state implements the specification [spec] of the interface, for
    every call but [RemovePodContainers].  A new file is the empty abstract state;
    from then on, a call that succeeds is a step of the specification, in what it
    returns and in what it leaves behind, and a call that fails leaves the abstract
    state as it is.  [spre]: the new configuration of a pod has the ID of the pod, and
    a volume that is saved has a state.  [RemovePodContainers] leaves the abstract
    state as it is even when it succeeds, so that it does not remove the containers.
    In the specification a search text finds what has it as its name or has an ID that
    the SQL operator LIKE matches with the text and anything after it (with its
    wildcards, and without regard to case), and must find exactly one; the comments of
    the code promise a full or unique partial ID or name.  (Rewriting the configuration of a container, connecting it to networks and rewriting a
    volume have no step in the specification: they never succeed.) *)
Theorem sqlite_refines rts l w0 f w c r w' :
  NewSqliteState None rts l = (Ok w0, f) → rtc sstep w0 w → spre c → sexec c w = (r, w') →
  abs (s_db w0) = mkAState ∅ ∅ ∅ ∅ ∅ ∅ None ∧
  match r with
  | Ok rep => spec (s_faults w = []) c (abs (s_db w)) rep (abs (s_db w'))
  | Err _ => abs (s_db w') = abs (s_db w)
  end ∧
  ∀ pod rp wp, sexec (CRemovePodContainers pod) w = (rp, wp) → abs (s_db wp) = abs (s_db w).
Proof.
  intros Hn Hs Hpre Hr. apply NewSqliteState_Ok in Hn as [Hdb Hfk]. split_and!; [by rewrite Hdb| |].
  2: { intros pod rp wp. cbn [sexec]. unfold unit_reply, as_reply, mbind, st_bind, mret, st_ret. destruct (SQLite_RemovePodContainers pod w) as [[u|e] w1] eqn:Hrun;
         apply RemovePodContainers_run in Hrun as [Hd _]; intros [= _ <-]; by rewrite Hd. }
  destruct (ssteps_consistent w0 w) as [HI Hfk']; [|done|].
  { split; [rewrite Hdb; apply SInv_empty|done]. }
  destruct r as [rep|e]; [by eapply (sexec_sound c)|]. by rewrite (sexec_atm _ _ _ _ Hr).
Qed.

(** C14: conversely, on a consistent database and without faults, a call that writes
    succeeds whenever the specification allows it: nothing but the conditions of
    the specification makes it fail. *)
Theorem sqlite_accepts `{!TotalLaws} w c a' :
  SqliteInv.ready w → SInv (s_db w) → spre c → spec_write True c (abs (s_db w)) a' →
  ∃ w', sexec c w = (Ok RUnit, w') ∧ SInv (s_db w') ∧ spec_write True c (abs (s_db w)) (abs (s_db w')).
Proof.
  intros Hw HI Hpre Hs. destruct (sexec_complete c w a' Hw HI Hs) as [w' Hr]. exists w'. split; [done|].
  pose proof Hw as (_ & _ & Hfk & _ & Hf).
  destruct (sexec_sound c w RUnit w' HI Hfk Hpre Hr) as [HI' Hsp]. split; [done|].
  destruct Hsp as [[Hsp _]|[Hrd _]].
  - eapply spec_write_weaken; [|exact Hsp]. done.
  - by destruct c.
Qed.

(** Removing the containers of a pod removes nothing and disables the state.
    [RemovePodContainers] deletes the rows in a transaction that it never commits;
    once it has returned without an error for a pod that has containers, the
    transaction holds the write lock, and no call, whatever it is and whatever it
    returns, ever changes the database again. *)
Theorem sqlite_remove_pod_containers_blocks pod id r w u w' w'' :
  t_ContainerConfig (s_db w) !! id = Some r → rc_PodID r = Some (pod_ID pod) →
  SQLite_RemovePodContainers pod w = (Ok u, w') → rtc any_call w' w'' → s_db w'' = s_db w.
Proof.
  intros Hr Hp Hrun Hs. destruct u. apply RemovePodContainers_run in Hrun as (Hdb & _ & Hl & _).
  rewrite <-Hdb. apply (stuck_for_ever w' w''); [|done]. apply Hl; [done|]. intros Hnil.
  apply (not_elem_of_nil (id, r)). rewrite <-Hnil. by apply podRows_elem.
Qed.

(** Exit codes are kept in the range of the schema, -1 to 255.  Without faults, a
    code is accepted exactly when it is in the range, an accepted code is read
    back, and no code outside of the range is ever returned. *)
Theorem sqlite_exit_code_range `{!TotalLaws} id code w :
  SqliteInv.ready w → SInv (s_db w) → id ≠ "" →
  ((∃ w', SQLite_AddContainerExitCode id code w = (Ok (), w')) ↔ (-1 ≤ code ≤ 255)%Z) ∧
  (∀ w', SQLite_AddContainerExitCode id code w = (Ok (), w') → SQLite_GetContainerExitCode id w' = (Ok code, w')) ∧
  (∀ id' z w', SQLite_GetContainerExitCode id' w = (Ok z, w') → (-1 ≤ z ≤ 255)%Z).
Proof.
  intros Hw HI Hid. pose proof Hw as (Hv & Ho & Hfk & Hlk & Hf).
  pose proof (AddContainerExitCode_steps id code) as Hst. split_and!.
  - split; [|by apply AddContainerExitCode_run]. intros [w' Hr]. by destruct (Hst _ _ _ HI Hfk Hr) as [_ (_ & ? & _)].
  - intros w' Hr. destruct (Hst _ _ _ HI Hfk Hr) as [_ (_ & _ & Ha)].
    assert (SqliteInv.ready w') as Hw'.
    { destruct (sexec_kc (CAddContainerExitCode id code) ltac:(done) ltac:(done) w (Ok RUnit) w') as [Hc Hf'].
      - exact (as_reply_run (λ _, RUnit) _ _ _ _ Hr).
      - injection Hc as E1 E2 E3 E4. unfold SqliteInv.ready. rewrite E1, E2, E3, E4. split_and!; auto. }
    assert (t_ContainerExitCode (s_db w') !! id = Some (mkExitCodeRow (Unix rt_now) code)) as Hl.
    { change (t_ContainerExitCode (s_db w')) with (a_exits (abs (s_db w'))). rewrite Ha. apply lookup_insert_eq. }
    unfold SQLite_GetContainerExitCode. rewrite (st_bind_run _ _ w' () w') by (by apply when_run).
    rewrite (st_bind_run _ _ _ _ _ (sCheckValid_ready _ Hw')), (st_bind_run _ _ _ _ _ (Query_ready _ w' Hw')).
    rewrite Hl. done.
  - intros id' z w' Hr. unfold SQLite_GetContainerExitCode in Hr. sq_inv.
    rename select (t_ContainerExitCode _ !! _ = _) into Hl. by apply exitCodeCheck_iff, (si_exits _ HI id').
Qed.

(** Finding a container by ID or name.  For a search text without wildcards, and
    IDs without capital letters, [LookupContainerID] returns [id] exactly when [id]
    is the only container whose name is the text or whose ID starts with it: the
    pattern of the query is the prefix test. *)
Theorem sqlite_lookup_is_prefix x id w :
  SqliteInv.ready w → SInv (s_db w) → x ≠ "" → literal x = true →
  (∀ k, is_Some (a_ctrs (abs (s_db w)) !! k) → caseless k = true) →
  let found k := ∃ c s, a_ctrs (abs (s_db w)) !! k = Some (c, s) ∧ (cc_Name c = x ∨ String.prefix x k = true) in
  (∃ w', SQLite_LookupContainerID x w = (Ok id, w')) ↔ found id ∧ ∀ k, found k → k = id.
Proof.
  intros Hw HI Hx Hlit Hcl found.
  assert (∀ k c s, a_ctrs (abs (s_db w)) !! k = Some (c, s) →
    lookup_ctr x k (c, s) ↔ cc_Name c = x ∨ String.prefix x k = true) as Hm.
  { intros k c s Hk. unfold lookup_ctr, matchesLookup. simpl. rewrite Is_true_true, orb_true_iff, bool_decide_eq_true.
    rewrite like_prefix; [done|done|]. apply Hcl. eauto. }
  split.
  - intros [w' Hr]. destruct (Lookup_returns x w id w' HI Hr) as (_ & id' & [c s] & (Hk & Hh & Hu) & [= <-]).
    split; [exists c, s; by rewrite <-(Hm _ _ _ Hk)|]. intros k (c' & s' & Hk' & Hf%(Hm _ _ _ Hk')). by eapply Hu.
  - intros [(c & s & Hk & Hh) Hu]. pose proof Hk as (r & t & Hr & _ & Hrow & _)%(abs_ctr HI).
    exists w. apply (SQLite_LookupContainerID_run x id r); [done|done|done| |].
    + apply (Hm _ _ _ Hk) in Hh. unfold lookup_ctr in Hh. simpl in Hh. by rewrite <-(cw_name _ _ _ _ Hrow).
    + intros k q Hq Hmk. destruct (abs_ctr_row HI _ _ Hq) as (c' & s' & t' & Hk' & _ & Hrow' & _).
      apply Hu. exists c', s'. split; [done|]. apply (Hm _ _ _ Hk'). unfold lookup_ctr. simpl.
      by rewrite (cw_name _ _ _ _ Hrow').
Qed.
End sqlite_props.

(** ** Evaluation

    The theorems at a concrete history: rows are read in the order of the tree, a
    new file is opened, and two containers, the second depending on the first, and
    a pod with a container are added. *)

#[local] Instance rowOrder0 : RowOrder := {| scan := λ A l, l; scan_perm := λ A l, Permutation_refl l |}.

#[local] Instance empty0 : EmptyTextLaws.
Proof. constructor; intros ? [=]. Qed.

#[local] Instance total0 : TotalLaws.
Proof. constructor; intros a; eexists; reflexivity. Qed.

Definition srun {A} (m : SM A) (w : SWorld) : SWorld := (m w).2.

Lemma srun_eq {A} (m : SM A) w r : (m w).1 = r → m w = (r, srun m w).
Proof. unfold srun. intros <-. by destruct (m w). Qed.

Definition sworld0 : SWorld := mkSWorld true true true false emptyDatabase [] ∅ [].

Lemma sworld0_new : NewSqliteState None ∅ [] = (Ok sworld0, Some emptyDatabase).
Proof. vm_compute. reflexivity. Qed.

Definition podCtr : Define.Container := mkPodCtr "cccccccccccc0004" "gamma" [] [] (pod_ID podP).
Definition sworldA : SWorld := srun (sexec (CAddContainer ctrA)) sworld0.
Definition sworldAB : SWorld := srun (sexec (CAddContainer ctrB)) sworldA.
Definition sworldP : SWorld := srun (sexec (CAddPod podP)) sworldAB.
Definition sworldPC : SWorld := srun (sexec (CAddContainerToPod podP podCtr)) sworldP.

Lemma sstep_run c w : spre c → sstep w (srun (sexec c) w).
Proof. intros Hc. eapply sstep_call; [exact Hc|]. apply surjective_pairing. Qed.

Lemma sworldPC_reached : rtc sstep sworld0 sworldPC.
Proof.
  apply (rtc_l _ _ sworldA); [by apply sstep_run|]. apply (rtc_l _ _ sworldAB); [by apply sstep_run|].
  apply (rtc_l _ _ sworldP); [by apply sstep_run|]. apply rtc_once. by apply sstep_run.
Qed.

Lemma sworldPC_ready : SqliteInv.ready sworldPC.
Proof. split_and!; vm_compute; reflexivity. Qed.

Lemma sworldPC_inv : SInv (s_db sworldPC).
Proof. apply (ssteps_consistent sworld0); [split; [apply SInv_empty|reflexivity]|apply sworldPC_reached]. Qed.

Lemma sqlite_reachable_consistent_witness :
  SInv (s_db sworldPC) ∧ is_Some (t_ContainerConfig (s_db sworldPC) !! ctr_ID ctrB).
Proof.
  split; [exact (sqlite_reachable_consistent ∅ [] sworld0 _ sworldPC sworld0_new sworldPC_reached)|].
  vm_compute. eauto.
Defined.

Lemma sqlite_refines_witness :
  ∃ w', sexec (CHasContainer (ctr_ID ctrB)) sworldPC = (Ok (RBool true), w') ∧
    spec (s_faults sworldPC = []) (CHasContainer (ctr_ID ctrB)) (abs (s_db sworldPC)) (RBool true) (abs (s_db w')).
Proof.
  exists (srun (sexec (CHasContainer (ctr_ID ctrB))) sworldPC).
  assert (sexec (CHasContainer (ctr_ID ctrB)) sworldPC =
    (Ok (RBool true), srun (sexec (CHasContainer (ctr_ID ctrB))) sworldPC)) as Hr
    by (apply srun_eq; vm_compute; reflexivity).
  split; [exact Hr|].
  exact (proj1 (proj2 (sqlite_refines ∅ [] sworld0 _ sworldPC (CHasContainer (ctr_ID ctrB)) _ _
    sworld0_new sworldPC_reached I Hr))).
Defined.

Lemma volV_allowed : ∃ a', spec_write True (CAddVolume volV) (abs (s_db sworldPC)) a'.
Proof. eexists. split; [reflexivity|]. split; [vm_compute; reflexivity|]. reflexivity. Qed.

Lemma sqlite_accepts_witness :
  ∃ w', sexec (CAddVolume volV) sworldPC = (Ok RUnit, w') ∧ is_Some (t_VolumeConfig (s_db w') !! vol_Name volV).
Proof.
  destruct volV_allowed as [a' Ha].
  destruct (sqlite_accepts sworldPC (CAddVolume volV) a' sworldPC_ready sworldPC_inv I Ha) as (w' & Hr & _).
  exists w'. split; [exact Hr|].
  assert (w' = srun (sexec (CAddVolume volV)) sworldPC) as -> by (unfold srun; rewrite Hr; reflexivity).
  vm_compute. eauto.
Defined.

Lemma sqlite_remove_pod_containers_blocks_witness :
  ∃ w', SQLite_RemovePodContainers podP sworldPC = (Ok (), w') ∧
    s_db (srun (sexec (CRemoveContainer ctrB)) w') = s_db sworldPC.
Proof.
  exists (srun (SQLite_RemovePodContainers podP) sworldPC).
  assert (SQLite_RemovePodContainers podP sworldPC = (Ok (), srun (SQLite_RemovePodContainers podP) sworldPC)) as Hr
    by (apply srun_eq; vm_compute; reflexivity).
  split; [exact Hr|].
  destruct (t_ContainerConfig (s_db sworldPC) !! ctr_ID podCtr) as [r|] eqn:Hl; [|by vm_compute in Hl].
  apply (sqlite_remove_pod_containers_blocks podP (ctr_ID podCtr) r sworldPC () (srun (SQLite_RemovePodContainers podP) sworldPC) _ Hl).
  - vm_compute in Hl. injection Hl as <-. reflexivity.
  - exact Hr.
  - apply rtc_once. left. exists (CRemoveContainer ctrB). eexists. apply surjective_pairing.
Defined.

Lemma sqlite_exit_code_range_witness :
  (SQLite_AddContainerExitCode "x" 256 sworldPC).1 ≠ Ok () ∧
  ∃ w', SQLite_AddContainerExitCode "x" 255 sworldPC = (Ok (), w') ∧
    SQLite_GetContainerExitCode "x" w' = (Ok 255%Z, w').
Proof.
  split.
  - intros Hr. destruct (sqlite_exit_code_range "x" 256 sworldPC sworldPC_ready sworldPC_inv ltac:(discriminate)) as [[Hi _] _].
    destruct Hi as [_ Hle]; [|vm_compute in Hle; by apply Hle].
    exists (srun (SQLite_AddContainerExitCode "x" 256) sworldPC). by apply srun_eq.
  - destruct (sqlite_exit_code_range "x" 255 sworldPC sworldPC_ready sworldPC_inv ltac:(discriminate)) as ([_ Hi] & Hg & _).
    destruct Hi as [w' Hr]; [lia|]. exists w'. split; [exact Hr|]. exact (Hg w' Hr).
Defined.

Lemma sqlite_lookup_is_prefix_witness :
  ∃ w', SQLite_LookupContainerID "bbbb" sworldPC = (Ok (ctr_ID ctrB), w').
Proof.
  apply (sqlite_lookup_is_prefix "bbbb" (ctr_ID ctrB) sworldPC sworldPC_ready sworldPC_inv).
  - discriminate.
  - reflexivity.
  - assert (map_Forall (λ k _, caseless k = true) (a_ctrs (abs (s_db sworldPC)))) as Hall
      by (apply map_Forall_to_list; vm_compute; repeat constructor).
    intros k [x Hx]. exact (Hall k x Hx).
  - assert (map_Forall (λ k x, cc_Name x.1 = "bbbb" ∨ String.prefix "bbbb" k = true → k = ctr_ID ctrB)
      (a_ctrs (abs (s_db sworldPC)))) as Hall.
    { apply map_Forall_to_list. vm_compute. repeat constructor; intros [Hx|Hx]; discriminate Hx. }
    split; [|intros k (c & s & Hk & Hf); exact (Hall k (c, s) Hk Hf)].
    destruct (a_ctrs (abs (s_db sworldPC)) !! ctr_ID ctrB) as [[c s]|] eqn:Hl; [|by vm_compute in Hl].
    exists c, s. split; [reflexivity|]. right. reflexivity.
Defined.
