(* ===== verification/PropsLife.v ===== *)
(** * PropsLife: theorems about the life cycle of a container and the
    dependencies it starts *)

From S2P Require Import Prelude Define Bolt BoltTx Ports Strconv BoltInternal BoltState TestRuntime Graph Life.
From S2P Require Import LifeOps LifeApi LifeHoare LifeInv LifeCalls LifeOrphan GraphCycles.
From S2P Require Import GraphBuild GraphWalk LifeDeps PropsGraph.

(** ** A concrete host

    An instance of the parameters of the life cycle: the state of the host is whether
    the OCI runtime has the container, every request succeeds, and a container that
    was started has left its exit file with the code 1.  The other containers and
    what other processes do to the row are arguments, and whether the directories of
    exec sessions are in use and their processes gone ([busy]).  The witnesses of the theorems
    evaluate the model with it. *)

Section host.
Context (busy : bool) (db : gmap string Define.Container) (st : string → ContainerStatus).
Context (others : acquire → option ContainerState → bool → option ContainerState * bool).

Definition otherOps : ContainerOps bool := {|
  op_checkDependenciesRunning := λ _ h, (Ok [], h);
  op_syncContainer := λ _ h, (Ok (), h);
  op_state := λ id _, st id;
  op_initAndStart := λ _ h, (Ok (), h);
  op_restartWithTimeout := λ _ _ h, (Ok (), h);
  op_GetContainer := λ _ h, (Ok (), h);
  op_savePod := λ _ h, (Ok (), h);
  op_removeContainer := λ _ h, (Ok (), h) |}.

Definition testHost : Host bool := {|
  h_request := λ q h, (match q with RemoveExecBundle _ => if busy then Err ErrNotEmpty else Ok () | _ => Ok () end,
    if decide (q = RuntimeDelete) then false else h);
  h_create := λ _, (CreatedAs 100 99, true);
  h_state := λ h, (if h then RuntimeStatus 100 "running" else RuntimeGone, h);
  h_ping := λ _ h, (if busy then ESRCH else Alive, h);
  h_signal := λ _ _ h, (Alive, h);
  h_waitPid := λ _ _ h, (true, h);
  h_statExitFile := λ h, (Ok (Some 7%Z), h);
  h_readExitFile := λ h, (Ok "1", h);
  h_oom := λ h, (false, h);
  h_legacyPID := λ _, 0%Z;
  h_execExitCode := λ _ h, (Ok 0%Z, h);
  h_mountStorage := λ h, (Ok "/merged", h);
  h_mountedImage := λ h, (Ok 0%Z, h);
  h_createNetNS := λ h, (Ok ("/run/netns/1", ∅), h);
  h_runDir := λ h, (Ok "/run/ctr", h);
  h_networkDisabled := λ _ h, (Ok false, h);
  h_container := λ id h, (match db !! id with Some c => Ok c | None => Err ErrNoSuchCtr end, h);
  h_status := λ id h, (Ok (st id), h);
  h_ops := otherOps;
  h_inUse := λ h, (Ok [], h);
  h_pod := λ h, (Ok (2%Z, ""), h);
  h_updatePod := λ h, (Ok "", h);
  h_errorText := λ _, "failed";
  h_networkStatus := λ _, ∅;
  h_order := λ l, l;
  h_rootless := false;
  h_cgroup2 := λ h, (Ok true, h);
  h_now := λ h, (9%Z, h);
  h_database := λ h, (Ok (), h);
  h_others := others |}.
End host.

(** Nobody else touches the container. *)
Definition alone (a : acquire) (d : option ContainerState) (h : bool) : option ContainerState * bool := (d, h).

(** Somebody starts the container before the error of a call is saved. *)
Definition racing (a : acquire) (d : option ContainerState) (h : bool) : option ContainerState * bool :=
  match a with
  | AfterError => (cs_set_State Running <$> d, true)
  | _ => (d, h)
  end.

Definition quietHost : Host bool := testHost false ∅ (λ _, Running) alone.
Definition racingHost : Host bool := testHost false ∅ (λ _, Running) racing.

Definition rowIn (s : ContainerStatus) : ContainerState := cs_set_State s newContainerState.

(** A fresh handle; the row says [s] and the runtime has the container or not. *)
Definition lworld (s : ContainerStatus) (h : bool) : LWorld bool :=
  mkLWorld newContainerState true false false false (Some (rowIn s)) h [].

(** A container with the restart policy [on-failure:n] *)
Definition retryCfg (n : Z) : ContainerConfig :=
  mkContainerConfig "aaaaaaaaaaaa0001" "alpha" "" "" 1 [] false [] "" "" "" "" "" "" "" None "" [] [] ∅ [] "bridge" 10
    "on-failure" n "" false false "" false false false [] None false "" false None [] [] 0 "" None "".

(** ** The properties *)

Section life_props.
Context {H : Type} `{Host H} (config : ContainerConfig).


(** ** The restart policy *)

(** What other processes do to the row while the lock is free keeps [C]. *)
Definition relies (C : ContainerState → Prop) : Prop :=
  ∀ a d h s', (∀ s, d = Some s → C s) → (h_others a d h).1 = Some s' → C s'.




Definition stoppedByUser (s : ContainerState) : Prop := cs_StoppedByUser s = true ∧ cs_RestartPolicyMatch s = false.

(** The creations and starts of the container in the OCI runtime, newest first *)
Definition starts (l : list note) : list note := filter (λ n, ¬ calm n) l.

(** C18: a container that the user has stopped is not started again by itself.  Once
    the row has [StoppedByUser] and not [RestartPolicyMatch], no history of the calls of
    [lcall] outside of a batch, other than [Init], [Start], [StartAndAttach] and
    [Restart], with any handles, the
    cleanup process that applies the restart policy included, creates or starts the
    container in the OCI runtime, and the row keeps both flags.  It is assumed that
    what other processes write while the lock is free keeps them too ([relies]), and
    that the database answers every call (after a synchronisation that fails in the
    database, a stale handle can be saved).  The other answers of the host are arbitrary. *)
Theorem stopped_by_user_stays_stopped w w' :
  (∀ h, (h_database h).1 = Ok ()) → relies stoppedByUser →
  (∀ s, l_db w = Some s → stoppedByUser s) → rtc (lstep config (λ c, starting c = false)) w w' →
  starts (l_trace w') = starts (l_trace w) ∧ ∀ s, l_db w' = Some s → stoppedByUser s.
Proof.
  intros HD HO Hw Hs.
  set (J := λ v : LWorld H, starts (l_trace v) = starts (l_trace w)).
  assert (RowInv stoppedByUser J w') as [Hok Ht]; [|by split].
  eapply (lsteps_keep config _ (RowInv stoppedByUser J)); [| |by split|exact Hs]; [|done].
  assert (∀ n v, calm n → J v → J (l_note n v)) as HJn.
  { intros n v Hn Hv. unfold J, starts. simpl. rewrite filter_cons_False by tauto. exact Hv. }
  assert (∀ s s', samePolicy s s' → stoppedByUser s → stoppedByUser s') as HC.
  { intros s s' (_ & Hu & Hm). unfold stoppedByUser. by rewrite Hu, Hm. }
  intros c Hc. assert (CallInv config (RowInv stoppedByUser J) (Inv stoppedByUser J) (HandleInv stoppedByUser J)) as Hci.
  { apply row_callInv; try done; [|by intros s [_ Hm]]. intros old s Hm [Hu _]. unfold restartPolicyMatches in Hm. rewrite Hu in Hm. by apply bool_decide_eq_true in Hm as (_ & _ & _ & _ & ?). }
  eapply (call_keeps config _ _ _); [|done]. intros v r v' Hv Hr.
  unfold handleRestartPolicy, getState, mbind, st_bind, gets in Hr.
  pose proof Hv as ([_ Hm] & _). unfold shouldRestart in Hr. rewrite Hm in Hr. simpl in Hr.
  injection Hr as _ <-. exact Hv.
Qed.

(** ** The OCI runtime *)

(** C16: no container is left behind in the OCI runtime, as long as the database
    works and a failed creation can be undone.  When the row says that the container is
    not there ([Configured] or [Exited]), it is not, after any history of the calls of
    [lcall] outside of a batch, with any handles, whatever else fails on the way.  The assumptions: every call of the
    database is answered (a save that fails after a creation would leave the container
    behind); the deletion that follows a creation of which conmon reports a failure
    succeeds ([failedCreationDeleted]: the code only logs its failure); nobody creates
    the container between the end of a call that failed and the moment at which its
    error is saved ([quietAfterError]); and [OCILaws]: nothing but a creation puts the
    container into the runtime, one that fails before conmon answers does not, a
    deletion that succeeds takes it away, the runtime says that a container does not
    exist only when this is so, and other processes keep the property and do not bring
    back a row. *)
Theorem no_orphans inRuntime w w' : OCILaws inRuntime → (∀ h, (h_database h).1 = Ok ()) →
  failedCreationDeleted → quietAfterError inRuntime →
  RowAbsent inRuntime (l_db w) (l_host w) → rtc (lstep config (λ _, True)) w w' →
  RowAbsent inRuntime (l_db w') (l_host w').
Proof.
  intros Hlaws HD Hdel Hquiet Hw Hs. apply (lsteps_keep config (λ _, True) (RowA inRuntime) w w'); [|done|done|done].
  pose proof (orphan_callInv config inRuntime HD Hquiet) as Hci. intros c _.
  eapply (call_any_keeps config _ _ _); [|by apply syncedA_keepsStart]. by apply handleRestartPolicy_orphan.
Qed.

(** Synchronisation of a container that has exited *)
Lemma sync_exited w s : (∀ h, (h_database h).1 = Ok ()) → l_valid w = true → l_db w = Some s → cs_State s = Exited →
  syncContainer config w = (Ok (), l_set_state s (l_set_host (h_database (l_host w)).2 w)).
Proof.
  intros HD Hv Hs Hex. unfold syncContainer, mbind, st_bind. rewrite (update_eq HD), Hv. simpl. rewrite Hs. simpl.
  unfold ensureState, gets, status. simpl. rewrite Hex. simpl. by rewrite Hv.
Qed.

Lemma Lock_eq a (w : LWorld H) : l_locked w = false →
  Lock a w = (Ok (), l_set_locked true (l_set_db (h_others a (l_db w) (l_host w)).1 (l_set_host (h_others a (l_db w) (l_host w)).2 w))).
Proof. intros Hl. unfold Lock. rewrite Hl. by destruct (h_others _ _ _). Qed.

(** Why [quietAfterError] is needed.  Stopping a container that has exited fails with
    [ErrCtrStopped]; the deferred function then takes the lock again and saves the
    error together with the whole state it had read before, without reading the row
    again.  Whatever another process wrote in the meantime, a start of the container
    included, is overwritten. *)
Theorem failed_stop_overwrites_row t w s :
  (∀ h, (h_database h).1 = Ok ()) → l_valid w = true → l_locked w = false →
  (h_others AtCall (l_db w) (l_host w)).1 = Some s → cs_State s = Exited →
  (∀ h, is_Some (h_others AfterError (Some s) h).1) →
  let '(r, w') := StopWithTimeout config false t w in
  r = Err ErrCtrStopped ∧ l_db w' = Some (cs_set_Error (h_errorText ErrCtrStopped) s).
Proof.
  intros HD Hv Hl Hs Hex Hafter. unfold StopWithTimeout, savingError, locked, mbind, st_bind.
  rewrite (Lock_eq AtCall w Hl). unfold finally. rewrite (sync_exited _ s HD); [|done|done|done].
  unfold ensureState, gets, status. simpl. rewrite Hex. simpl. rewrite Lock_eq by done. unfold ignore, attempt, saveContainerError, mbind, st_bind.
  simpl. rewrite (save_eq HD). simpl. rewrite Hv, Hs.
  destruct (Hafter (h_database (h_others AtCall (l_db w) (l_host w)).2).2) as [s2 ->]. done.
Qed.

(** ** Starting *)

(** The trace is longer, and the start of the container is in the new part. *)
Definition started (tr : list note) (w : LWorld H) : Prop :=
  ∃ l, l_trace w = l ++ tr ∧ Requested RuntimeStart ∈ l.

Definition rowRunning (w : LWorld H) : Prop := ∃ s, l_db w = Some s ∧ cs_State s = Running.

Section starting.
Context (HD : ∀ h, (h_database h).1 = Ok ()) (tr : list note).

Abbreviation Longer := (Inv (λ _, True) (λ w : LWorld H, tr `suffix_of` l_trace w)).

Lemma longer_note n (w : LWorld H) : tr `suffix_of` l_trace w → tr `suffix_of` l_trace (l_note n w).
Proof. apply suffix_cons_r. Qed.

Lemma longer_keeps : Keeps Longer.
Proof. apply inv_keeps; auto using longer_note. Qed.
Lemma longer_keepsRuntime : KeepsRuntime Longer.
Proof. apply inv_keepsRuntime; auto using longer_note. Qed.
Lemma longer_keepsSync : KeepsSync config Longer.
Proof. apply inv_keepsSync; auto using longer_note. Qed.
Lemma longer_keepsStart : KeepsStart config Longer.
Proof. apply inv_keepsStart; auto using longer_note. Qed.
#[local] Hint Resolve longer_keeps longer_keepsRuntime longer_keepsSync longer_keepsStart : life.

Lemma started_note n (w : LWorld H) : started tr w → started tr (l_note n w).
Proof. intros (l & Hl & Hin). exists (n :: l). simpl. rewrite Hl. split; [done|by right]. Qed.

Definition running (w : LWorld H) : Prop := status w = Running ∧ started tr w.

Lemma running_ask q : pres running (ignore (ask q)).
Proof.
  apply pres_ignore, pres_bind.
  - apply pres_modify. intros w [Hs Ht]. split; [done|by apply started_note].
  - intros _. by apply pres_host.
Qed.

Lemma StartContainer_started : hoare Longer StartContainer (λ r w, is_Ok r = true → started tr w).
Proof.
  intros w r w' (_ & _ & [l Hl]) Hr Hok. unfold StartContainer, ask, noted, modify, mbind, st_bind, host, now, host', onState in Hr.
  simpl in Hr. destruct (h_request RuntimeStart (l_host w)) as [[u|e] h]; [|by injection Hr as <- _].
  simpl in Hr. destruct (h_now h) as [t h']. injection Hr as _ <-. exists (Requested RuntimeStart :: l). simpl. rewrite Hl.
  split; [done|by left].
Qed.

Lemma start_running : hoare Longer (start config) (λ r w, is_Ok r = true → rowRunning w ∧ started tr w).
Proof.
  eapply hoare_bind; [apply StartContainer_started| |by intros e w _]. intros u.
  eapply (hoare_bind _ (λ _, running)); [|intros _u|done].
  { intros w r w' Hw [= <- <-]. split; [done|by apply Hw]. }
  eapply (hoare_bind _ (λ _, running)); [apply hoare_pres|intros _u1|done].
  { case_decide; [apply pres_ret|apply running_ask]. }
  eapply (hoare_bind _ (λ _, running)); [apply hoare_pres|intros _u2|done].
  { destruct (cc_HealthCheckTest config); [|apply pres_ret]. case_decide; [apply pres_ret|].
    apply pres_bind; [|intros _]; apply running_ask. }
  intros w r w' [Hs Ht] Hr Hok. unfold finally in Hr. rewrite (save_eq HD) in Hr. simpl in Hr.
  destruct (l_valid w); [destruct (l_db w)|]; simpl in Hr; injection Hr as <- <-; try done.
  split; [by exists (l_state w)|]. by do 2 apply started_note.
Qed.

Lemma prepareToStart_start fuel recursive : hoare Longer (_ ← prepareToStart config fuel recursive; start config)
  (λ r w, is_Ok r = true → rowRunning w ∧ started tr w).
Proof. eapply (hoare_bind _ (λ _, Longer)); [apply hoare_pres; pres_tac|intros u; apply start_running|by intros e w _]. Qed.
End starting.

Lemma locked_start fuel recursive tr : (∀ h, (h_database h).1 = Ok ()) →
  hoare (λ w, l_trace w = tr ∧ l_locked w = false) (locked config false (_ ← prepareToStart config fuel recursive; start config))
    (λ r w, is_Ok r = true → rowRunning w ∧ started tr w).
Proof.
  intros HD w r w' [Htr Hl] Hr Hok. unfold locked, mbind at 1, st_bind at 1 in Hr. rewrite (Lock_eq _ _ Hl) in Hr.
  unfold finally in Hr. destruct ((_ ← syncContainer config; _) _) as [x w1] eqn:Hm.
  assert (is_Ok x = true → rowRunning w1 ∧ started tr w1) as Hx.
  { eapply (hoare_bind (Inv (λ _, True) (λ v : LWorld H, tr `suffix_of` l_trace v)) (λ _, Inv (λ _, True) (λ v : LWorld H, tr `suffix_of` l_trace v)))
      in Hm; [exact Hm|apply hoare_pres, longer_keepsSync|intros u; by apply prepareToStart_start|by intros e v _|].
    split_and!; [done|done|]. simpl. by rewrite Htr. }
  unfold Unlock in Hr. destruct (l_locked w1); injection Hr as -> <-; by apply Hx.
Qed.

(** Nothing but calm notes was added to the trace. *)
Abbreviation Calm tr := (Inv (λ _, True) (λ w : LWorld H, starts (l_trace w) = starts tr)).

Lemma calm_callInv tr : (∀ h, (h_database h).1 = Ok ()) →
  CallInv config (RowInv (λ _, True) (λ w : LWorld H, starts (l_trace w) = starts tr)) (Calm tr)
    (HandleInv (λ _, True) (λ w : LWorld H, starts (l_trace w) = starts tr)).
Proof.
  intros HD. apply row_callInv; try done. intros n v Hn Hv. unfold starts. simpl. rewrite filter_cons_False by tauto. exact Hv.
Qed.

Lemma locked_synced {A} (m : LM H A) w w1 w2 : Lock AtCall w = (Ok (), w1) → syncContainer config w1 = (Ok (), w2) →
  locked config false m w = finally m Unlock w2.
Proof. intros Hl Hs. unfold locked, mbind, st_bind. rewrite Hl. unfold finally. by rewrite Hs. Qed.

(** C19: [Start].  When it succeeds, the row says [Running] and the OCI runtime was asked to
    start the container during the call.  When the container is in any other state than
    [Configured], [Created], [Stopped] or [Exited] after the synchronisation, it fails
    with [ErrCtrStateInvalid], and neither creates nor starts anything. *)
Theorem Start_outcome fuel recursive w r w' :
  (∀ h, (h_database h).1 = Ok ()) → l_locked w = false → Start config false fuel recursive w = (r, w') →
  (r = Ok () → rowRunning w' ∧ started (l_trace w) w') ∧
  (∀ w1 w2, Lock AtCall w = (Ok (), w1) → syncContainer config w1 = (Ok (), w2) →
     status w2 ∉ [Configured; Created_; Stopped; Exited] →
     r = Err ErrCtrStateInvalid ∧ starts (l_trace w') = starts (l_trace w)).
Proof.
  intros HD Hl Hr. split.
  - intros ->. unfold Start, savingError in Hr. destruct (locked _ _ _ w) as [[u|e] w1] eqn:Hrun; [|by case_match].
    injection Hr as -> ->. exact (locked_start fuel recursive (l_trace w) HD _ _ _ (conj eq_refl Hl) Hrun eq_refl).
  - intros w1 w2 Hlock Hsync Hst.
    assert (Start config false fuel recursive w = savingError false (locked config false (throw ErrCtrStateInvalid)) w) as Heq.
    { unfold Start, savingError. rewrite !(locked_synced _ w w1 w2 Hlock Hsync). unfold finally, mbind at 1, st_bind at 1.
      unfold prepareToStart, ensureState, mbind, st_bind, gets. by rewrite bool_decide_false. }
    rewrite Heq in Hr. split.
    + unfold savingError in Hr. rewrite (locked_synced _ w w1 w2 Hlock Hsync) in Hr. unfold finally, throw in Hr.
      destruct (Unlock w2) as [x w3]. by repeat case_match; simplify_eq.
    + pose proof (calm_callInv (l_trace w) HD) as Hci.
      eapply (call_savingError config _ _ _) in Hr; [by destruct Hr as [_ [_ Hr]]|by apply (call_locked config _ _ _), pres_throw|done].
Qed.

(** ** Removal *)


(** ** Stopping *)

(** When the stop signal cannot be sent and the process is still alive, [StopContainer]
    reports success: the error of the second [kill(pid, 0)] hides the first one. *)
Theorem StopContainer_loses_error t all w w1 e w2 w3 :
  (0 < t)%Z → pingPID w = (Ok Alive, w1) →
  KillContainer (if decide (cc_StopSignal config = 0%Z) then SIGTERM else cc_StopSignal config) all w1 = (Err e, w2) →
  pingPID w2 = (Ok Alive, w3) → StopContainer config t all w = (Ok (), w3).
Proof.
  intros Ht H1 H2 H3. unfold StopContainer, mbind, st_bind. rewrite H1, decide_True by done. unfold attempt. rewrite H2.
  by rewrite H3.
Qed.
End life_props.

(** ** Witnesses *)

(** The runtime has the container when the test host says so. *)
Lemma quietHost_laws : @OCILaws bool quietHost id.
Proof.
  constructor; unfold noneAdded; try done.
  - intros A f h Hf. destruct Hf; simpl; try done. by case_decide.
  - intros A f h Hf. by destruct Hf.
  - intros h. by destruct h.
Qed.

(** The result and the world after some calls *)
Definition calls (config : ContainerConfig) (l : list lcall) (w : LWorld bool) : LWorld bool :=
  foldl (λ w c, (@lexec bool quietHost config false c w).2) w l.

Lemma calls_steps config (allowed : lcall → Prop) l w :
  Forall allowed l → rtc (@lstep bool quietHost config allowed) w (calls config l w).
Proof.
  revert w. induction l as [|c l IH]; intros w Hl; [constructor|]. apply Forall_cons in Hl as [Hc Hl].
  eapply rtc_l; [|by apply IH]. simpl. destruct (lexec config false c w) as [r w'] eqn:Hr. by eapply lstep_call.
Qed.




Definition userStopped : LWorld bool := l_set_db (Some (cs_set_StoppedByUser true (rowIn Stopping))) (lworld Stopping true).

Lemma stopped_by_user_stays_stopped_witness :
  let w' := calls (retryCfg 1) [LSync; LCleanup; LCleanup] userStopped in
  starts (l_trace w') = [] ∧ ∃ s, l_db w' = Some s ∧ cs_State s = Exited ∧ stoppedByUser s.
Proof.
  cbv zeta. assert (rtc (@lstep bool quietHost (retryCfg 1) (λ c, starting c = false)) userStopped
    (calls (retryCfg 1) [LSync; LCleanup; LCleanup] userStopped)) as Hs.
  { apply calls_steps. by repeat constructor. }
  assert (∃ s, l_db (calls (retryCfg 1) [LSync; LCleanup; LCleanup] userStopped) = Some s ∧ cs_State s = Exited)
    as (s & Hd & Hc) by (vm_compute; eauto).
  revert Hs Hd. generalize (calls (retryCfg 1) [LSync; LCleanup; LCleanup] userStopped). intros w' Hs Hd.
  destruct (@stopped_by_user_stays_stopped bool quietHost (retryCfg 1) userStopped w') as [Ht Hu]; try done.
  - intros a d h s' Hr. apply Hr.
  - by intros s' [= <-].
  - split; [exact Ht|]. exists s. split_and!; [exact Hd|exact Hc|by apply Hu].
Defined.

Lemma no_orphans_witness :
  let w' := calls (mkCfg "a" "alpha" [] [] "") [LStart 1 false; LStop 0; LCleanup] (lworld Configured false) in
  ∃ s, l_db w' = Some s ∧ cs_State s = Exited ∧ l_host w' = false.
Proof.
  cbv zeta. assert (rtc (@lstep bool quietHost (mkCfg "a" "alpha" [] [] "") (λ _, True)) (lworld Configured false)
    (calls (mkCfg "a" "alpha" [] [] "") [LStart 1 false; LStop 0; LCleanup] (lworld Configured false))) as Hs.
  { apply calls_steps. by repeat constructor. }
  assert (∃ s, l_db (calls (mkCfg "a" "alpha" [] [] "") [LStart 1 false; LStop 0; LCleanup] (lworld Configured false)) = Some s ∧
    cs_State s = Exited) as (s & Hd & Hc) by (vm_compute; eauto).
  exists s. split_and!; [exact Hd|exact Hc|]. revert Hs Hd.
  generalize (calls (mkCfg "a" "alpha" [] [] "") [LStart 1 false; LStop 0; LCleanup] (lworld Configured false)). intros w' Hs Hd.
  refine (@no_orphans bool quietHost (mkCfg "a" "alpha" [] [] "") id (lworld Configured false) w' quietHost_laws (λ _, eq_refl) _ _ _ Hs s Hd _).
  - by intros h e h' [=].
  - intros d h Hh. exact Hh.
  - by intros s' [= <-] _.
  - rewrite Hc. unfold outside. set_solver.
Defined.

Lemma failed_stop_overwrites_row_witness :
  let w' := (@StopWithTimeout bool racingHost (retryCfg 1) false 5 (lworld Exited false)).2 in
  l_host w' = true ∧ ∃ s, l_db w' = Some s ∧ cs_State s = Exited.
Proof.
  pose proof (@failed_stop_overwrites_row bool racingHost (retryCfg 1) 5 (lworld Exited false) (rowIn Exited)
    (λ _, eq_refl) eq_refl eq_refl eq_refl eq_refl (λ _, ltac:(by eexists))) as Hw.
  destruct (@StopWithTimeout bool racingHost (retryCfg 1) false 5 (lworld Exited false)) as [r w'] eqn:Hr.
  destruct Hw as [_ Hw]. split; [by vm_compute in Hr; injection Hr as _ <-|]. eexists. split; [exact Hw|done].
Defined.

Lemma Start_outcome_witness :
  let '(r, w') := @Start bool quietHost (retryCfg 1) false 1 false (lworld Exited false) in
  r = Ok () ∧ rowRunning w' ∧ started [] w'.
Proof.
  destruct (@Start bool quietHost (retryCfg 1) false 1 false (lworld Exited false)) as [r w'] eqn:Hr.
  assert (r = Ok ()) as -> by by vm_compute in Hr; injection Hr as <- _.
  split; [done|]. refine (proj1 (@Start_outcome bool quietHost (retryCfg 1) 1 false _ _ _ _ _ Hr) eq_refl); done.
Defined.


(** ** Theorems about starting the dependencies of a container *)

Section deps_props.
Context {H : Type} `{Host H} (config : ContainerConfig) (db : gmap string Define.Container) (st : string → ContainerStatus).
Abbreviation roots := (elements (config_deps config)).

Context (Hstable : stableHost db st) (Hclosed : closedDb db) (Hids : ∀ id c, db !! id = Some c → ctr_ID c = id).
Context (Hroots : ∀ d, d ∈ roots → is_Some (db !! d)) (Horder : ∀ l, h_order l ≡ₚ l).



(** A dependency that is not running but itself depends on a running container makes
    the start fail with [ErrNoSuchCtr] before anything is started: the running
    container is left out of the list of containers to start, and
    [BuildContainerGraph] insists that all dependencies of the listed containers are
    listed. *)
Theorem running_dependency_prevents_start fuel w id c d : size db < fuel →
  needed db st roots id → db !! id = Some c → d ∈ Dependencies c → st d = Running →
  startDependencies config fuel w = (Err ErrNoSuchCtr, w).
Proof using Hstable Hclosed Hids Hroots Horder.
  intros Hfuel Hid Hc Hd Hrun.
  destruct (getAllDependencies_exact db st Hstable Hclosed fuel roots w Hroots Hfuel) as (v & Hr & Hv & Hn).
  assert (v !! d = None) as Hvd. { apply eq_None_not_Some. rewrite Hn. by destruct 1. }
  apply Hn in Hid as [c' Hc']. assert (c' = c) as -> by (apply (lookup_weaken _ db) in Hc'; [congruence|done]).
  unfold startDependencies. case_decide as Hne.
  { assert (v !! id = None) as Hnone; [|congruence]. apply eq_None_not_Some. rewrite Hn, Hne.
    clear -Hne. induction 1 as [? ?%elem_of_nil|]; done. }
  unfold mbind, st_bind. rewrite Hr. set (order := h_order (elements (dom v))).
  pose proof (ctrMap_visited db Hids v order Hv (Horder _)) as Hm.
  rewrite BuildContainerGraph_missing; [done|by rewrite Hm; apply Horder|].
  exists id, d. rewrite Hm. split; [|done]. unfold depends, deps_of. by rewrite Hc'.
Qed.
End deps_props.

(** ** Witnesses *)

(** B depends on A, A is running, B is not; a third container depends on B. *)
Definition pairDb : gmap string Define.Container := {[ctr_ID ctrA := ctrA; ctr_ID ctrB := ctrB]}.
Definition pairStatus (id : string) : ContainerStatus := if decide (id = ctr_ID ctrA) then Running else Configured.
Definition pairHost : Host bool := testHost false pairDb pairStatus alone.
Definition thirdCfg : ContainerConfig := mkCfg "cccccccccccc0004" "gamma" [ctr_ID ctrB] [] "".

Lemma pairDb_inv id c : pairDb !! id = Some c → (id = ctr_ID ctrA ∧ c = ctrA) ∨ (id = ctr_ID ctrB ∧ c = ctrB).
Proof.
  unfold pairDb. intros [[<- <-]|[_ Hc]]%lookup_insert_Some; [by left|].
  apply lookup_singleton_Some in Hc as [<- <-]. by right.
Qed.

Lemma pairHost_stable : @stableHost bool pairHost pairDb pairStatus.
Proof. done. Qed.

Lemma pairDb_closed : closedDb pairDb.
Proof.
  intros id c d [[-> ->]|[-> ->]]%pairDb_inv; intros Hd.
  - exfalso. assert (Dependencies ctrA = []) as Hn by (vm_compute; reflexivity). rewrite Hn in Hd. by apply elem_of_nil in Hd.
  - assert (Dependencies ctrB = [ctr_ID ctrA]) as Hn by (vm_compute; reflexivity). rewrite Hn in Hd.
    apply list_elem_of_singleton in Hd as ->. eexists. vm_compute. reflexivity.
Qed.

Lemma pairDb_ids id c : pairDb !! id = Some c → ctr_ID c = id.
Proof. by intros [[-> ->]|[-> ->]]%pairDb_inv. Qed.

Lemma third_roots : elements (config_deps thirdCfg) = [ctr_ID ctrB].
Proof. vm_compute. reflexivity. Qed.

Lemma third_roots_present d : d ∈ elements (config_deps thirdCfg) → is_Some (pairDb !! d).
Proof. rewrite third_roots. intros ->%list_elem_of_singleton. eexists. vm_compute. reflexivity. Qed.


Lemma running_dependency_prevents_start_witness :
  @startDependencies bool pairHost thirdCfg 3 (lworld Configured false) = (Err ErrNoSuchCtr, lworld Configured false).
Proof.
  refine (@running_dependency_prevents_start bool pairHost thirdCfg pairDb pairStatus pairHost_stable pairDb_closed
    pairDb_ids third_roots_present (λ l, Permutation_refl l) 3 (lworld Configured false) (ctr_ID ctrB) ctrB (ctr_ID ctrA) _ _ _ _ _).
  - vm_compute. lia.
  - apply needed_root; [rewrite third_roots; by left|]. by vm_compute.
  - vm_compute. reflexivity.
  - assert (Dependencies ctrB = [ctr_ID ctrA]) as -> by (vm_compute; reflexivity). by left.
  - vm_compute. reflexivity.
Defined.
