(* ===== verification/PropsUnit.v ===== *)
(** * PropsUnit: theorems about unit files *)

From S2P Require Import Prelude UnitText UnitSplit UnitWords UnitFile UnitLookup UnitSpec UnitParse UnitValues.

(** ** An example *)

Definition sampleEdits : list edit :=
  [ EAddComment (T "Unit") [T "written by a program"];
    ESet (T "Unit") (T "Description") (T "one \" ++ [LF] ++ T " two");
    EAdd (T "Service") (T "Environment") (T "A=1 B=2");
    EAdd (T "Service") (T "Environment") (T "C=3") ].

Definition sample : UnitFile := runEdits sampleEdits NewUnitFile.

Lemma sample_consistent : consistent sample.
Proof. eapply edits_refine_list. split; [apply NewUnitFile_consistent|reflexivity]. Defined.

(** ** Reading and writing files *)

(** C27: a unit file is read back as it was written.  When the groups of a consistent
    file can be printed (the names are valid and distinct, keys and comments look
    like such, newlines in values are continued, no group but the last ends in
    comments), parsing its text gives a consistent file with the same groups, comments
    and lines in the same order, and every look-up of a raw value agrees. *)
Theorem unit_print_parse f : consistent f → printable (view f) = true →
  ∃ f', Parse (ToString f) NewUnitFile = Some (Ok f') ∧ consistent f' ∧ view f' = view f ∧
    ∀ n key, LookupLastRaw f' n key = LookupLastRaw f n key ∧ LookupAllRaw f' n key = LookupAllRaw f n key.
Proof.
  intros Hf Hp. destruct (print_parse_view (view f) Hp) as (f' & Hf' & Hc & Hv). exists f'. split_and!; [done|done|done|].
  intros n key. unfold LookupLastRaw, LookupAllRaw. by rewrite (group_view f' f n Hc Hf Hv).
Qed.

Lemma unit_print_parse_witness : consistent sample ∧ printable (view sample) = true ∧
  ∃ f', Parse (ToString sample) NewUnitFile = Some (Ok f') ∧ view f' = view sample.
Proof.
  assert (printable (view sample) = true) as Hp by (vm_compute; reflexivity).
  destruct (unit_print_parse sample sample_consistent Hp) as (f' & Hf & _ & Hv & _).
  split; [exact sample_consistent|]. split; [exact Hp|]. exists f'. split; [exact Hf|exact Hv].
Defined.

(** C30: nothing in the package loops.  [Parse] returns for every text (the loop over
    continuation lines ends because of its own condition), and so do the look-ups that
    split values; whatever [Parse] returns, an error included, the file it has changed
    is consistent. *)
Theorem unit_parser_terminates f :
  (∀ data, is_Some (Parse data f)) ∧
  (∀ data line rest n, data ≠ [] → takeLine data = (line, rest, n) →
     length rest < length data ∧
     (lineIsKeyValuePair line = true → ¬ (rest ≠ [] ∧ last line = Some BS) ∨ lineIsKeyValuePair (fst (nextLine data 0)) = false)) ∧
  (∀ n key, is_Some (LookupAllStrv f n key) ∧ is_Some (LookupAllArgs f n key) ∧ is_Some (LookupLastArgs f n key) ∧
     is_Some (LookupAllKeyVal f n key)) ∧
  (consistent f → ∀ data r, Parse data f = Some r → consistent (match r with Ok f' => f' | Err (_, f') => f' end)).
Proof.
  split_and!.
  - intros data. apply Parse_is_Some.
  - intros data line rest n. apply takeLine_done.
  - intros n key. split_and!; [apply appendStrv_ends|apply appendArgs_ends| |apply appendKeyVal_ends].
    unfold LookupLastArgs. destruct (LookupLast f n key); [apply splitArgs_ends|by eexists].
  - intros Hf data r. by apply Parse_consistent.
Qed.

Lemma unit_parser_terminates_witness :
  takeLine (T "a=b\" ++ [LF] ++ T "c" ++ [LF] ++ T "d=e") = (T "a=b\" ++ [LF] ++ T "c", T "d=e", 2) ∧
  length (T "d=e") < length (T "a=b\" ++ [LF] ++ T "c" ++ [LF] ++ T "d=e") ∧
  ∃ f', Parse (T "[A]" ++ [LF] ++ T "k") NewUnitFile = Some (Err (NotALine 2, f')) ∧ consistent f'.
Proof.
  destruct (unit_parser_terminates NewUnitFile) as (_ & Ht & _ & Hc).
  split; [vm_compute; reflexivity|]. split; [eapply (Ht _ _ _ 2); [discriminate|vm_compute; reflexivity]|].
  specialize (Hc NewUnitFile_consistent (T "[A]" ++ [LF] ++ T "k")). eexists. split; [vm_compute; reflexivity|].
  eapply (Hc (Err (NotALine 2, _))). vm_compute. reflexivity.
Defined.

(** ** Editing files *)

(** C28: the representation of a file by pointers and a map implements a list of groups
    with distinct names.  After any sequence of edits (set, add, unset, comments,
    removing, renaming and merging groups, merging another file) the file is consistent:
    pointers and names agree, no group is listed twice, names are distinct; the
    groups are what the edits make of a list; and a look-up by name finds the group of
    the list with the name. *)
Theorem unit_edits_refine l f : consistent f →
  let f' := runEdits l f in
  consistent f' ∧ view f' = foldl (λ gs e, specEdit e gs) (view f) l ∧ NoDup (ListGroups f') ∧ ∀ n, group f' n = named n (view f').
Proof.
  intros Hf f'. destruct (edits_refine_list l f (view f) ltac:(done)) as [Hc Hv]. split_and!; [done|done|by apply view_NoDup|].
  intros n. by apply group_named.
Qed.

Lemma unit_edits_refine_witness : consistent NewUnitFile ∧ consistent sample ∧ ListGroups sample = [T "Unit"; T "Service"].
Proof.
  split; [exact NewUnitFile_consistent|]. destruct (unit_edits_refine sampleEdits NewUnitFile NewUnitFile_consistent) as (Hc & Hv & _).
  split; [exact Hc|]. unfold ListGroups, sample. rewrite Hv. vm_compute. reflexivity.
Defined.

(** Look-ups after edits.  [Set] makes its value the last one of the key, [Add] adds
    one (an empty value clears the earlier ones), [Unset] removes the key and
    [RemoveGroup] the group; every other key of every group keeps its values. *)
Theorem unit_edit_lookup f n n' key key' value : consistent f →
  (LookupLastRaw (Set_ n key value f) n' key' = if decide (n' = n ∧ key' = key) then Some value else LookupLastRaw f n' key') ∧
  (LookupLastRaw (Add n key value f) n' key' = if decide (n' = n ∧ key' = key) then Some value else LookupLastRaw f n' key') ∧
  (LookupAllRaw (Add n key value f) n' key' =
     if decide (n' = n ∧ key' = key) then if decide (value = []) then [] else LookupAllRaw f n' key' ++ [value] else LookupAllRaw f n' key') ∧
  (LookupLastRaw (Unset n key f) n' key' = if decide (n' = n ∧ key' = key) then None else LookupLastRaw f n' key') ∧
  (LookupLastRaw (RemoveGroup n f) n' key' = if decide (n' = n) then None else LookupLastRaw f n' key').
Proof.
  intros Hf. rewrite LookupAllRaw_add by done. rewrite !LookupLastRaw_value. unfold Set_, Add.
  rewrite !group_edit, group_unset, group_remove by (done || apply ug_setKey_name).
  split_and!; [| |done| |by case_decide].
  all: destruct (decide (n' = n)) as [->|Hn]; [|by rewrite (decide_False (P := n' = n ∧ _)) by naive_solver].
  - simpl. rewrite setKey_lastValue. destruct (group f n); simpl; repeat case_decide; naive_solver.
  - cbn [option_bind mbind]. rewrite add_lastValue. destruct (group f n); simpl; repeat case_decide; naive_solver.
  - destruct (group f n) as [g|]; cbn [fmap option_fmap option_map mbind option_bind]; [rewrite unset_lastValue|]; repeat case_decide; naive_solver.
Qed.

Lemma unit_edit_lookup_witness : consistent sample ∧
  LookupLastRaw (Set_ (T "Service") (T "Environment") (T "D") sample) (T "Service") (T "Environment") = Some (T "D") ∧
  LookupAllRaw (Add (T "Service") (T "Environment") (T "D") sample) (T "Service") (T "Environment") = [T "A=1 B=2"; T "C=3"; T "D"].
Proof.
  split; [exact sample_consistent|].
  destruct (unit_edit_lookup sample (T "Service") (T "Service") (T "Environment") (T "Environment") (T "D") sample_consistent) as (Hs & _ & Ha & _).
  split; [etransitivity; [exact Hs|reflexivity]|]. etransitivity; [exact Ha|vm_compute; reflexivity].
Defined.

(** ** Command lines *)

(** C29: a command line that was added is split into the same words.  For words of valid
    UTF-8 without the byte 0, [LookupLastArgs] returns the words given to [AddCmdline],
    less the empty ones (these are written as nothing), at once and, when the file can be
    printed, after it was written and parsed again. *)
Theorem unit_cmdline_roundtrip n key args f : consistent f → Forall writable args →
  let f1 := AddCmdline n key args f in
  LookupLastArgs f1 n key = Some (Some (nonEmpty args)) ∧
  (printable (view f1) = true →
   ∃ f2, Parse (ToString f1) NewUnitFile = Some (Ok f2) ∧ LookupLastArgs f2 n key = Some (Some (nonEmpty args))).
Proof.
  intros Hf Hargs f1. pose proof (cmdline_last n key args f Hf Hargs) as Hl. fold f1 in Hl. split; [done|]. intros Hp.
  destruct (print_parse_view (view f1) Hp) as (f2 & Hf2 & Hc & Hv). exists f2. split; [done|]. rewrite <- Hl.
  assert (consistent f1) as Hf1 by by apply (edit_refines (EAddCmdline n key args) f (view f)).
  unfold LookupLastArgs, LookupLast, LookupLastRaw. by rewrite (group_view f2 f1 n Hc Hf1 Hv).
Qed.

Lemma unit_cmdline_roundtrip_witness :
  let args := [T "podman"; T "run"; T "a b"; []; T "it's"; T "tab" ++ [TAB]; [DQ; BS]] in
  let f1 := AddCmdline (T "Service") (T "ExecStart") args sample in
  printable (view f1) = true ∧
  ∃ f2, Parse (ToString f1) NewUnitFile = Some (Ok f2) ∧
    LookupLastArgs f2 (T "Service") (T "ExecStart") =
      Some (Some [T "podman"; T "run"; T "a b"; T "it's"; T "tab" ++ [TAB]; [DQ; BS]]).
Proof.
  intros args f1.
  assert (Forall writable args) as Ha.
  { repeat (apply Forall_cons; split; [split; [vm_compute; reflexivity|by apply (bool_decide_unpack _); vm_compute]|]). apply Forall_nil. exact I. }
  assert (printable (view f1) = true) as Hp by (vm_compute; reflexivity).
  destruct (unit_cmdline_roundtrip (T "Service") (T "ExecStart") args sample sample_consistent Ha) as [_ H2].
  destruct (H2 Hp) as (f2 & Hf2 & Hl). split; [exact Hp|]. exists f2. split; [exact Hf2|]. rewrite Hl. vm_compute. reflexivity.
Defined.

(** An empty word in quotes ends the splitting: it and all words after it are lost. *)
Theorem empty_word_ends_split w rest : argument w → splitArgs (escapeWord w ++ SP :: DQ :: DQ :: SP :: rest) = Some (Some [w]).
Proof. apply splitArgs_empty_quotes. Qed.

(** ** Values that are not read as they are written *)

(** Negative numbers are multiplied by eleven.  A decimal number without sign and
    leading zero is read as it is; with a minus sign it is read as minus eleven times the
    number (modulo the 64 bits of the type), so [LookupInt] returns -55 for a value -5. *)
Theorem unit_negative_numbers f n key digits value : unsigned digits = true → ParseInt digits 10 = Some value →
  (∀ d, Lookup f n key = Some digits → LookupInt f n key d = value) ∧
  (∀ d, Lookup f n key = Some ("-"%char :: digits) → LookupInt f n key d = int64 (value * -11)).
Proof.
  intros Hu Hv. split; intros d Hl; unfold LookupInt; rewrite Hl; [by rewrite (convertNumber_unsigned _ value)|].
  by rewrite (convertNumber_negative _ value).
Qed.

Lemma unit_negative_numbers_witness :
  LookupInt (Set_ (T "Service") (T "Nice") (T "-5") sample) (T "Service") (T "Nice") 0 = (-55)%Z.
Proof.
  rewrite (proj2 (unit_negative_numbers (Set_ (T "Service") (T "Nice") (T "-5") sample) (T "Service") (T "Nice") (T "5") 5 eq_refl eq_refl) 0%Z).
  - vm_compute. reflexivity.
  - vm_compute. reflexivity.
Defined.

(** The comments of a file without groups are lost.  Parsing such a file succeeds and
    keeps the comments, as lines of a group without a name; printing it gives the empty
    text, because only the comments before a group without a name are printed and not its lines. *)
Theorem unit_comments_lost cs : forallb printableComment cs = true →
  ∃ f, Parse (concat (ul_write <$> cs)) NewUnitFile = Some (Ok f) ∧ view f = [mkUnitGroup [] [] cs] ∧ ToString f = [].
Proof.
  intros Hcs. destruct (comments_parse cs Hcs) as (f & Hf & _ & Hv). exists f. split_and!; [done|done|]. unfold ToString. by rewrite Hv.
Qed.

Lemma unit_comments_lost_witness :
  ∃ f, Parse (T "# a comment" ++ [LF]) NewUnitFile = Some (Ok f) ∧ ToString f = [].
Proof.
  destruct (unit_comments_lost [mkUnitLine [] (T "# a comment") true]) as (f & Hf & _ & Ht); [vm_compute; reflexivity|].
  exists f. split; [exact Hf|exact Ht].
Defined.
