(* ===== verification/PropsQuadlet.v ===== *)
(** * PropsQuadlet: theorems about the services of quadlet files *)

From S2P Require Import Prelude UnitText UnitSplit UnitWords UnitFile UnitLookup UnitSpec UnitParse UnitValues QuadletText Quadlet QuadletInv QuadletConvert QuadletUnits.

(** ** Examples *)

#[export] Instance testEnv : QuadletEnv := {| getenvPODMAN := []; binDir := T "/usr/bin"; Getwd := Some (T "/root"); toLowerRune := id |}.

Definition file (path : string) (lines : list string) : UnitFile :=
  match ParseUnitFile (λ _, Some (concat ((λ l, T l ++ [LF]) <$> lines))) (T path) with Some (Ok f) => f | _ => NewUnitFile end.

Definition webFile : UnitFile :=
  file "/etc/containers/systemd/web.container"
    ["[Unit]"; "Description=a web server"; ""; "[Container]"; "Image=localhost/web"; "Exec=serve 'two words' $HOME";
     "PublishPort=0.0.0.0:80:8080"; "Volume=data.volume:/data:ro"; "Environment=B=1 A=2"; ""; "[Install]"; "WantedBy=default.target"].

Definition netFile : UnitFile := file "/etc/containers/systemd/n.network" ["[Network]"; "Subnet=10.0.0.0/24"; "Gateway=10.0.0.1"].

Definition badFile : UnitFile := file "/etc/containers/systemd/bad.container" ["[Container]"; "Image=localhost/web"; "Imge=typo"].

Definition okOf (r : result quadletError UnitFile) : UnitFile := match r with Ok f => f | Err _ => NewUnitFile end.

Lemma file_consistent path lines : consistent (file path lines).
Proof.
  unfold file, ParseUnitFile. destruct (Parse _ _) as [[f|[e f]]|] eqn:Hp; [|apply NewUnitFile_consistent|apply NewUnitFile_consistent].
  eapply (Parse_consistent _ _ (Ok f)); [|exact Hp].
  constructor; simpl; [constructor|by intros p ?%elem_of_nil|]. intros n p. rewrite lookup_empty, elem_of_nil. naive_solver.
Defined.

(** ** Containers *)

Section props.
Context {Env : QuadletEnv}.

(** C33: the service of a container file.  When [ConvertContainer] succeeds, every key of
    the group [Container] is supported and exactly one of [Image] and [Rootfs] has a value
    that is not empty.  The
    service is consistent; its kill mode is mixed or control-group and its type notify or
    oneshot; the group [Container] is renamed to [X-Container] and every group but [Unit]
    and [Service] is otherwise as in the file.  The last [ExecStart] is a command line: the
    podman binary, run, options, this image or root file system, and the words of [Exec];
    when every word is valid UTF-8 without the byte 0, splitting it gives these words, less the
    empty ones. *)
Theorem quadlet_container_service container isUser svc : consistent container → ConvertContainer container isUser = Ok svc →
  Forall (.∈ supportedContainerKeys) (ListKeys container ContainerGroup) ∧
  consistent svc ∧ allowedKillMode svc ∧ allowedType svc ∧ groupsKept ContainerGroup XContainerGroup container svc ∧
  ∃ image opts execArgs,
    LookupLastArgs container ContainerGroup (T "Exec") = Some execArgs ∧
    isImage container image ∧
    let args := [podmanBinary; T "run"] ++ opts ++ image ++ default [] execArgs in
    LookupLastRaw svc ServiceGroup (T "ExecStart") = Some (escapeWords args) ∧
    (Forall writable args → LookupLastArgs svc ServiceGroup (T "ExecStart") = Some (Some (nonEmpty args))).
Proof.
  intros Hc. unfold ConvertContainer, convert.
  destruct (Dup_copy container (replaceExtension (uf_Filename container) (T ".service") [] []) Hc) as [Hs Hv].
  match goal with |- match ?r with _ => _ end = _ → _ => destruct r as [[u|e] s'] eqn:Hr; [|done] end. intros [= <-].
  apply convertContainer_spec in Hr as (svc & image & opts & Hsvc & Hcs & Hk & Hi & Hargs & Hkm & Ht & Hg); [|done|done|done].
  destruct (LookupLastArgs_ends container ContainerGroup (T "Exec")) as [execArgs Hexec]. rewrite Hexec in Hargs. cbn [default from_option id] in Hargs.
  pose proof (AddCmdline_frame kept (T "ExecStart") (cv_args s') svc Hcs ltac:(key_tac)) as Hf. rewrite <- Hsvc in Hf.
  pose proof (AddCmdline_has svc (T "ExecStart") (cv_args s') Hcs) as Hh. rewrite <- Hsvc, Hargs in Hh.
  split_and!; [done|apply Hf| | | |].
  - destruct Hkm as (m & Hm & Hin). exists m. split; [|done]. rewrite <- Hm. eapply Lookup_kept; [exact Hf|]. by left.
  - destruct Ht as (t & Ht & Hin). exists t. split; [|done]. rewrite <- Ht. eapply Lookup_kept; [exact Hf|]. right. by left.
  - intros n Hu Hsv. destruct Hf as (_ & Hgf & _). rewrite Hgf by done. by apply Hg.
  - exists image, opts, execArgs. split_and!; [done|done|exact Hh|]. by apply hasCmdline_args.
Qed.

(** ** Networks, volumes and kube files *)

(** C34: the services of the other files.  Networks and volumes give services of type
    oneshot whose [ExecStart] creates an object that is named after the file with the prefix
    systemd-; a kube file gives a service of type notify that plays the file that its key
    [Yaml] names (relative to the directory of the kube file, or to the working directory when
    that has no path) and, to stop, takes down the same file.  All keys are supported, and the groups are kept as for
    containers. *)
Theorem quadlet_other_services unit name isUser svc : consistent unit →
  (ConvertNetwork unit name = Ok svc →
   Forall (.∈ supportedNetworkKeys) (ListKeys unit NetworkGroup) ∧ consistent svc ∧ groupsKept NetworkGroup XNetworkGroup unit svc ∧
   Lookup svc ServiceGroup (T "Type") = Some (T "oneshot") ∧
   ∃ opts, hasCmdline svc (T "ExecStart") (podmanBinary :: T "network" :: T "create" :: T "--ignore" :: opts ++ [replaceExtension name [] (T "systemd-") []])) ∧
  (ConvertVolume unit name = Ok svc →
   Forall (.∈ supportedVolumeKeys) (ListKeys unit VolumeGroup) ∧ consistent svc ∧ groupsKept VolumeGroup XVolumeGroup unit svc ∧
   Lookup svc ServiceGroup (T "Type") = Some (T "oneshot") ∧
   ∃ opts, hasCmdline svc (T "ExecStart") (podmanBinary :: T "volume" :: T "create" :: T "--ignore" :: opts ++ [replaceExtension name [] (T "systemd-") []])) ∧
  (ConvertKube unit isUser = Ok svc →
   Forall (.∈ supportedKubeKeys) (ListKeys unit KubeGroup) ∧ consistent svc ∧ groupsKept KubeGroup XKubeGroup unit svc ∧
   allowedKillMode svc ∧ Lookup svc ServiceGroup (T "Type") = Some (T "notify") ∧
   ∃ yamlPath, playedFile unit yamlPath ∧ (∃ opts, hasCmdline svc (T "ExecStart") (podmanBinary :: T "kube" :: T "play" :: opts ++ [yamlPath])) ∧
     hasCmdline svc (T "ExecStop") [podmanBinary; T "kube"; T "down"; yamlPath]).
Proof.
  intros Hu. split_and!.
  - intros (? & ? & ? & ? & ?)%ConvertNetwork_spec; [|done]. done.
  - intros (? & ? & ? & ? & ?)%ConvertVolume_spec; [|done]. done.
  - intros (? & ? & ? & ? & ? & ?)%ConvertKube_spec; [|done]. done.
Qed.

(** ** Errors *)

Lemma unknown_key_error unit n supported s : Exists (.∉ supported) (ListKeys unit n) →
  ∃ key, checkForUnknownKeys unit n supported s = (Err (UnsupportedKey key n), s) ∧ key ∈ ListKeys unit n ∧ key ∉ supported.
Proof.
  intros He. unfold checkForUnknownKeys. pose proof (checkKeys_spec (ListKeys unit n) n supported) as Hk.
  destruct (checkKeys _ _ _) as [e|].
  - destruct Hk as (key & -> & ? & ?). by exists key.
  - apply Exists_exists in He as (key & Hin & Hn). rewrite Forall_forall in Hk. by specialize (Hk key Hin).
Qed.

(** Every conversion returns, and refuses files with unknown keys.  None of the four
    runs out of the fuel of a split; when a key of the group is not supported, the error names
    such a key and its group. *)
Theorem quadlet_unknown_keys unit name isUser : consistent unit →
  ConvertContainer unit isUser ≠ Err Diverges ∧ ConvertNetwork unit name ≠ Err Diverges ∧
  ConvertVolume unit name ≠ Err Diverges ∧ ConvertKube unit isUser ≠ Err Diverges ∧
  (Exists (.∉ supportedContainerKeys) (ListKeys unit ContainerGroup) →
   ∃ key, ConvertContainer unit isUser = Err (UnsupportedKey key ContainerGroup) ∧ key ∈ ListKeys unit ContainerGroup ∧ key ∉ supportedContainerKeys) ∧
  (Exists (.∉ supportedNetworkKeys) (ListKeys unit NetworkGroup) →
   ∃ key, ConvertNetwork unit name = Err (UnsupportedKey key NetworkGroup) ∧ key ∈ ListKeys unit NetworkGroup ∧ key ∉ supportedNetworkKeys) ∧
  (Exists (.∉ supportedVolumeKeys) (ListKeys unit VolumeGroup) →
   ∃ key, ConvertVolume unit name = Err (UnsupportedKey key VolumeGroup) ∧ key ∈ ListKeys unit VolumeGroup ∧ key ∉ supportedVolumeKeys) ∧
  (Exists (.∉ supportedKubeKeys) (ListKeys unit KubeGroup) →
   ∃ key, ConvertKube unit isUser = Err (UnsupportedKey key KubeGroup) ∧ key ∈ ListKeys unit KubeGroup ∧ key ∉ supportedKubeKeys).
Proof.
  assert (∀ s, ∃ s1, addSourcePath unit s = (Ok (), s1)) as Hsp by (intros s; unfold addSourcePath; destruct (uf_Path unit); by eexists).
  intros Hu. split_and!.
  1-4: apply convert_ends; [done|]; auto using ends_convertContainer, ends_convertNetwork, ends_convertVolume, ends_convertKube.
  - intros He. unfold ConvertContainer, convert, convertContainer, prepareService. set (s0 := mkConversion _ _). destruct (Hsp s0) as [s1 H1].
    destruct (unknown_key_error unit ContainerGroup supportedContainerKeys s1 He) as (key & Hk & ? & ?). exists key.
    unfold mbind, st_bind. by rewrite H1, Hk.
  - intros He. unfold ConvertNetwork, convert, convertNetwork. set (s0 := mkConversion _ _).
    destruct (unknown_key_error unit NetworkGroup supportedNetworkKeys s0 He) as (key & Hk & ? & ?). exists key. unfold mbind, st_bind. by rewrite Hk.
  - intros He. unfold ConvertVolume, convert, convertVolume. set (s0 := mkConversion _ _).
    destruct (unknown_key_error unit VolumeGroup supportedVolumeKeys s0 He) as (key & Hk & ? & ?). exists key. unfold mbind, st_bind. by rewrite Hk.
  - intros He. unfold ConvertKube, convert, convertKube. set (s0 := mkConversion _ _). destruct (Hsp s0) as [s1 H1].
    destruct (unknown_key_error unit KubeGroup supportedKubeKeys s1 He) as (key & Hk & ? & ?). exists key. unfold mbind, st_bind. by rewrite H1, Hk.
Qed.

(** ** Ports *)

(** Published ports.  Splitting a port at its colons loses nothing (colons in
    brackets do not split).  A port is published exactly when it has at most three parts and
    the host port and the container port are empty or pass [isPortRange]; the argument is
    made of the parts, without the address 0.0.0.0.  [isPortRange] is not anchored: it
    accepts exactly the texts that end in a digit, or in a digit and /udp or /tcp. *)
Theorem quadlet_ports port s s' :
  JoinWith (T ":") (splitPorts port) = port ∧
  (isPortRange port = true ↔ ∃ pre c proto, port = pre ++ c :: proto ∧ isDigit c = true ∧ proto ∈ [[]; T "/udp"; T "/tcp"]) ∧
  (publishPort port s = (Ok (), s') ↔
   ∃ ip hostPort containerPort, portParts port ip hostPort containerPort ∧
     (hostPort = [] ∨ isPortRange hostPort = true) ∧ (containerPort = [] ∨ isPortRange containerPort = true) ∧
     s' = mkConversion (cv_service s) (cv_args s ++ [T "--publish"; publishArg (if decide (ip = T "0.0.0.0") then [] else ip) hostPort containerPort])).
Proof.
  split_and!; [apply splitPortsFrom_join| |apply publishPort_spec].
  rewrite isPortRange_spec. unfold endsInDigit, isProtocol. setoid_rewrite bool_decide_eq_true. done.
Qed.
End props.

(** ** Witnesses *)

Lemma quadlet_container_service_witness :
  let svc := okOf (ConvertContainer webFile false) in
  ConvertContainer webFile false = Ok svc ∧ consistent svc ∧ allowedType svc ∧ HasGroup svc ContainerGroup = false ∧
  uf_Filename svc = T "web.service".
Proof.
  intros svc. assert (ConvertContainer webFile false = Ok svc) as Hr by (vm_compute; reflexivity).
  destruct (quadlet_container_service webFile false svc (file_consistent _ _) Hr) as (_ & Hc & _ & Ht & _).
  split; [exact Hr|]. split; [exact Hc|]. split; [exact Ht|]. split; vm_compute; reflexivity.
Defined.

Lemma quadlet_other_services_witness :
  let svc := okOf (ConvertNetwork netFile (T "n.network")) in
  ConvertNetwork netFile (T "n.network") = Ok svc ∧ Lookup svc ServiceGroup (T "Type") = Some (T "oneshot") ∧
  LookupLastArgs svc ServiceGroup (T "ExecStart") =
    Some (Some (T <$> ["/usr/bin/podman"; "network"; "create"; "--ignore"; "--subnet=10.0.0.0/24"; "--gateway=10.0.0.1"; "systemd-n"])).
Proof.
  intros svc. assert (ConvertNetwork netFile (T "n.network") = Ok svc) as Hr by (vm_compute; reflexivity).
  destruct (quadlet_other_services netFile (T "n.network") false svc (file_consistent _ _)) as (Hn & _ & _).
  destruct (Hn Hr) as (_ & _ & _ & Ht & _). split; [exact Hr|]. split; [exact Ht|]. vm_compute. reflexivity.
Defined.

Lemma quadlet_unknown_keys_witness :
  ∃ key, ConvertContainer badFile false = Err (UnsupportedKey key ContainerGroup) ∧ key ∈ ListKeys badFile ContainerGroup ∧ key ∉ supportedContainerKeys.
Proof.
  apply (quadlet_unknown_keys badFile (T "bad.container") false (file_consistent _ _)).
  apply Exists_exists. exists (T "Imge"). split; by apply (bool_decide_unpack _); vm_compute.
Defined.
