(* ===== verification/PropsLocks.v ===== *)
(** * PropsLocks: theorems about the lock managers and renumbering *)

From S2P Require Import Prelude Define Bolt BoltTx Strconv BoltInternal BoltState BoltInv BoltSafe BoltRename BoltAdd BoltPods BoltVols BoltOps TestRuntime.
From S2P Require Import LocksMemory LocksFile LocksShm Locks Renumber.

Local Open Scope Z_scope.

(** ** The interface *)

(** C31: a lock has one owner.  After any history of calls of a lock manager, with any results,
    that starts in a valid state, the locks that were returned and have not been freed are
    allocated, and neither [AllocateLock] nor [AllocateAndRetrieveLock] returns one of them. *)
Theorem lock_unique {M : Type} `{ManagerLaws M} m0 m owned :
  Locks.valid m0 → rtc lockStep (m0, ∅) (m, owned) →
  (∀ i, i ∈ owned → Locks.allocated m i) ∧
  (∀ id m', Locks.AllocateLock m = (Ok id, m') → (id ∉ owned) ∧ 0 ≤ id < 2 ^ 32) ∧
  (∀ id id' m', 0 ≤ id < 2 ^ 32 → Locks.AllocateAndRetrieveLock id m = (Ok id', m') → id' = id ∧ id ∉ owned).
Proof.
  intros Hv Hs. destruct (history_owned _ _ Hs) as [Hvm Ho]. { split; [done|]. intros i Hi. set_solver. } simpl in *. split; [done|]. split.
  - intros id m' Ha. destruct (AllocateLock_law _ _ _ Hvm Ha) as (_ & Hid & Hn & _). split; [|done]. intros Hin. by apply Hn, Ho.
  - intros id id' m' Hid Ha. destruct (AllocateAndRetrieveLock_law _ _ _ _ Hvm Hid Ha) as (-> & _ & _ & Hn & _). split; [done|]. intros Hin. by apply Hn, Ho.
Qed.

(** ** Shared memory *)

(** [AllocateSemaphore] of open locks, when no operation on the mutex fails, returns the least
    lock whose bit is zero, below the number of locks of the segment, and sets this bit and no
    other; it fails only when every bit is set, with the error for it, and changes nothing. *)
Theorem shm_allocate_least m r m' :
  LocksShm.valid m → sm_valid m = true → sh_codes (sm_struct m) = [] → AllocateSemaphore m = (r, m') →
  match r with
  | Ok id =>
      0 ≤ id < 32 * sh_num_bitmaps (sm_struct m) ∧ bitOf m id = false ∧ (∀ j, 0 ≤ j < id → bitOf m j = true) ∧
      (∀ j, 0 ≤ j → bitOf m' j = bool_decide (j = id) || bitOf m j)
  | Err e => e = ExceededNumLocks (sm_maxLocks m) ∧ m' = m ∧ ∀ j, 0 ≤ j < 32 * sh_num_bitmaps (sm_struct m) → bitOf m j = true
  end.
Proof.
  intros Hv Ho Hc Hr. by apply AllocateSemaphore_open.
Qed.

(** The three lock managers allocate alike: in valid states with the same allocated locks,
    the locks they return are equal. *)
Theorem managers_agree mm sm fm a b c mm' sm' fm' :
  LocksMemory.valid mm → LocksShm.valid sm → LocksFile.valid fm → Z.of_nat (size (fl_files fm)) < 2 ^ 32 →
  (∀ i, LocksMemory.allocated mm i ↔ LocksShm.allocated sm i) → (∀ i, LocksMemory.allocated mm i ↔ LocksFile.allocated fm i) →
  LocksMemory.AllocateLock mm = (Ok a, mm') → AllocateSemaphore sm = (Ok b, sm') → LocksFile.AllocateLock fm = (Ok c, fm') → a = b ∧ b = c.
Proof.
  intros Hm Hs Hf Hsz Hms Hmf Ha Hb Hc.
  destruct (memory_laws.(AllocateLock_law) _ _ _ Hm Ha) as (_ & Hia & Hna & _). destruct (shm_laws.(AllocateLock_law) _ _ _ Hs Hb) as (_ & Hib & Hnb & _).
  destruct (file_laws.(AllocateLock_law) _ _ _ Hf Hc) as (_ & Hic & Hnc & _). simpl in Hna, Hnb, Hnc.
  pose proof (memory_least _ _ _ Hm Ha) as La. pose proof (file_least _ _ _ Hf Hsz Hc) as Lc.
  assert (∀ i, 0 ≤ i < b → LocksShm.allocated sm i) as Lb.
  { destruct (AllocateSemaphore_run _ _ _ Hs Hb) as [[[e He] _]|(_ & _ & _ & Hall & _)]; [done|]. intros i Hi. split; [lia|]. apply Hall. lia. }
  rewrite <- Hms in Hnb. rewrite <- Hmf in Hnc. split.
  - destruct (Z.lt_trichotomy a b) as [E|[E|E]]; [|done|].
    + destruct Hna. apply Hms, Lb. lia.
    + destruct Hnb. apply La. lia.
  - destruct (Z.lt_trichotomy b c) as [E|[E|E]]; [|done|].
    + destruct Hnb. apply Hmf, Lc. lia.
    + destruct Hnc. apply Hms, Lb. lia.
Qed.

(** Locks opened with a number that is not a multiple of 32 hand out IDs that they refuse.
    When the locks below the number are in use, [AllocateLock] returns the number itself, and
    [RetrieveLock] of the same locks answers that it is too large. *)
Theorem opened_locks_too_small n s m :
  0 < n → n mod BITMAP_SIZE ≠ 0 → OpenSHMLock n (Ok s) = Ok m → validShm s → sh_num_bitmaps s = numBitmaps n → sh_codes s = [] →
  (∀ j, 0 ≤ j → bit (sh_bitmaps s) j = bool_decide (j < n)) →
  ∃ m', Locks.AllocateLock m = (Ok n, m') ∧ Locks.RetrieveLock n m' = (Err (LockIDTooLarge n), m').
Proof.
  intros Hn Hmod Ho Hv Hnb Hc Hbits. unfold OpenSHMLock in Ho. rewrite decide_False in Ho by lia.
  destruct (open_lock_shm n (Ok s)) as [s'|e] eqn:Hop; [|done]. injection Ho as <-.
  assert (s' = s) as ->. { unfold open_lock_shm in Hop. repeat destruct (decide _); congruence. }
  destruct (AllocateSemaphore (mkSHMLocks s n true)) as [r m'] eqn:Ha.
  destruct (AllocateSemaphore_open (mkSHMLocks s n true) r m' Hv eq_refl Hc Ha) as [Hmax Hcase]. unfold bitOf in Hcase. simpl in Hmax, Hcase.
  assert (n < 32 * sh_num_bitmaps s) as Hlt.
  { rewrite Hnb. unfold numBitmaps, BITMAP_SIZE in *. rewrite decide_False by done. Z.div_mod_to_equations. lia. }
  destruct r as [id|e].
  - destruct Hcase as (Hid & Hz & Hall & _). rewrite Hbits in Hz by lia. apply bool_decide_eq_false in Hz.
    assert (id = n) as ->. { destruct (decide (n < id)); [|lia]. specialize (Hall n). rewrite Hbits, bool_decide_eq_false_2 in Hall by lia. specialize (Hall ltac:(lia)). done. }
    exists m'. split; [done|]. simpl. unfold LocksShm.RetrieveLock, checkID. unfold mbind at 1, st_bind at 1. unfold mbind, st_bind, gets. rewrite Hmax.
    by rewrite decide_True by lia.
  - destruct Hcase as (_ & _ & Hall). specialize (Hall n). rewrite Hbits, bool_decide_eq_false_2 in Hall by lia. specialize (Hall ltac:(lia)). done.
Qed.

(** ** Renumbering *)

Section renumber.
Context `{RuntimeLaws} {L : Type} `{ManagerLaws L}.

(** C32: renumbering gives every container, pod and volume a lock of its own.  When
    [renumberLocks] succeeds on a consistent BoltDB state whose objects can be loaded, with any
    lock manager, the database is consistent, every object has a stored lock, no two have the
    same one, and the allocated locks are the stored ones. *)
Theorem renumber_distinct (m m' : L) w w' :
  Locks.valid m → Inv (w_db w) → loadable (w_db w) → renumberLocks (m, w) = (Ok (), (m', w')) →
  Inv (w_db w') ∧
  (∀ b id, object (w_db w) b id → ∃ l, storedLock (w_db w') b id = Some l) ∧
  (∀ b id b' id' l, object (w_db w) b id → object (w_db w) b' id' →
     storedLock (w_db w') b id = Some l → storedLock (w_db w') b' id' = Some l → b = b' ∧ id = id') ∧
  (∀ l, Locks.allocated m' l ↔ ∃ b id, object (w_db w) b id ∧ storedLock (w_db w') b id = Some l).
Proof.
  intros Hv HI HL Hr. apply renumber_run in Hr as (m0 & ctrs & pods & vols & m1 & db1 & m2 & db2 & lc & lp & lv & Hnone & Hrn);
    [|done|done|by apply loadable_pods|by apply loadable_vols].
  destruct (renumbered_locks _ _ _ _ _ _ _ _ _ _ _ _ _ _ Hnone Hrn) as (E & Hnd & Hst & Hal & Hc & Hp & Hvl).
  destruct Hrn as [Rc _ Lc Rp _ Lp Rv _ Lv HI1 HI2 HI'].
  assert (∀ b id, object (w_db w) b id → ∃ l, ((b, id), l) ∈ E) as Hobj.
  { intros b id [Hb Ho]. apply elem_of_cons in Hb as [->|Hb]; [by apply Hc, (ctr_listed (w_db w))|].
    apply elem_of_cons in Hb as [->|Hb]; [apply Hp, (pod_listed (w_db w) db1); [done|done| |done|done]|apply list_elem_of_singleton in Hb as ->].
    - intros q Hq. by apply (looped_other _ _ _ _ _ _ _ _ _ _ Lc).
    - apply Hvl, (vol_listed (w_db w) db2); [done|done| |done|done]. intros q Hq.
      rewrite (looped_other _ _ _ _ _ _ _ _ _ _ Lp), (looped_other _ _ _ _ _ _ _ _ _ _ Lc); [done|..]; intros k; apply Hq; by_dec. }
  split; [done|]. split; [|split].
  - intros b id [l Hin]%Hobj. exists l. by apply Hst in Hin as (_ & ? & _).
  - intros b id b' id' l [l1 H1']%Hobj [l2 H2']%Hobj Hs Hs'. pose proof (Hst _ _ _ H1') as (_ & E1 & _). pose proof (Hst _ _ _ H2') as (_ & E2 & _).
    assert (l1 = l2) as <- by congruence. by injection (NoDup_snd_inj _ _ _ _ Hnd H1' H2').
  - intros l. split.
    + intros Hl. apply Hal, list_elem_of_fmap in Hl as ([[b id] l'] & -> & Hin). exists b, id. by apply Hst in Hin as (? & ? & _).
    + intros (b & id & [l1 Hin]%Hobj & Hs). apply Hst in Hin as (_ & Hs' & Ha). assert (l1 = l) as <- by congruence. done.
Qed.

(** Renumbering skips the containers whose lock cannot be retrieved.  Whatever lock such a
    container has, for instance one beyond a smaller number of locks, its stored configuration
    is the same after [renumberLocks] has succeeded. *)
Theorem renumber_skips (m m' : L) w w' i js cfg e :
  Locks.valid m → Inv (w_db w) → named_pods (w_db w) → named_vols (w_db w) →
  w_db w !! [ctrBkt; i; configKey] = Some (Val js) → unmarshal js = Ok cfg → rt_RetrieveLock (cc_LockID cfg) = Err e →
  renumberLocks (m, w) = (Ok (), (m', w')) → w_db w' !! [ctrBkt; i; configKey] = Some (Val js).
Proof.
  intros Hv HI Hnp Hnv Hj Hu He Hr. apply renumber_run in Hr as (m0 & ctrs & pods & vols & m1 & db1 & m2 & db2 & lc & lp & lv & _ & Hrn); [|done..].
  destruct Hrn as [Rc Kc Lc _ _ Lp _ _ Lv _ _ _].
  rewrite (looped_other _ _ _ _ _ _ _ _ _ _ Lv), (looped_other _ _ _ _ _ _ _ _ _ _ Lp) by done.
  rewrite (looped_frame _ _ _ _ _ _ _ _ _ Lc); [done|]. intros x ([k y] & -> & Hin)%list_elem_of_fmap E. simpl in E. injection E as E.
  destruct (ctr_key _ _ _ _ HI Rc Hin) as [Ek _]. rewrite Ek in E. subst k.
  destruct (listed_load _ _ _ _ Rc i y Hin) as (w1 & w2 & Hdb & Hl). apply load_ctr in Hl as (cfg' & lock & (s & Hs & Hu') & _ & Hlock).
  rewrite Hdb in Hs. rewrite migratePorts_LockID in Hlock. congruence.
Qed.

End renumber.

(** ** Witnesses *)

(** A segment of 32 locks, of which 0 and 1 are allocated *)
Definition shm2 : SHMLocks := mkSHMLocks (mkShm MAGIC 1 32 [3] ∅ []) 32 true.

Lemma shm2_valid : LocksShm.valid shm2.
Proof. split; simpl; [repeat constructor; done|done|done|done|constructor]. Qed.

Lemma shm2_manager : Locks.valid shm2.
Proof. exact shm2_valid. Qed.

Lemma lock_unique_witness : ∃ m' m'' : SHMLocks, Locks.AllocateLock shm2 = (Ok 2, m') ∧ Locks.AllocateLock m' = (Ok 3, m'') ∧ 3 ∉ ({[2]} ∪ ∅ : gset Z).
Proof.
  destruct (Locks.AllocateLock shm2) as [r1 m1] eqn:E1. destruct (Locks.AllocateLock m1) as [r2 m2] eqn:E2.
  assert (r1 = Ok 2) as -> by (vm_compute in E1; congruence). assert (r2 = Ok 3) as ->.
  { vm_compute in E1. injection E1 as <-. vm_compute in E2. congruence. }
  exists m1, m2. split; [reflexivity|]. split; [exact E2|].
  destruct (lock_unique shm2 m1 ({[2]} ∪ ∅) shm2_manager (rtc_once _ _ (step_allocate shm2 2 m1 ∅ E1))) as (_ & Ha & _).
  apply (Ha 3 m2 E2).
Defined.

Lemma shm_allocate_least_witness : bitOf shm2 1 = true ∧ bitOf (AllocateSemaphore shm2).2 2 = true.
Proof.
  destruct (AllocateSemaphore shm2) as [r m'] eqn:E. pose proof (shm_allocate_least shm2 r m' shm2_valid eq_refl eq_refl E) as Hs.
  assert (r = Ok 2) as -> by (vm_compute in E; congruence). destruct Hs as (_ & _ & Hall & Hb). split.
  - apply Hall. lia.
  - rewrite Hb by lia. reflexivity.
Defined.

Definition memory2 : InMemoryManager := mkInMemoryManager [mkMutex 0 false true; mkMutex 1 false true; mkMutex 2 false false] 3.
Definition file2 : FileLocks := mkFileLocks true true {[0; 1]} ∅ ∅ [].

Lemma bit3 i : 0 ≤ i → bit [3] i = true ↔ i = 0 ∨ i = 1.
Proof.
  intros Hi. split.
  - intros Hb. pose proof (bit_range _ _ Hi Hb). simpl in *. destruct (decide (i = 0)); [by left|]. destruct (decide (i = 1)); [by right|].
    rewrite bit_cons, decide_True in Hb by lia. change 3 with (Z.ones 2) in Hb. rewrite Z.ones_spec_high in Hb by lia. done.
  - by intros [->| ->].
Qed.

Lemma memory2_allocated i : LocksMemory.allocated memory2 i ↔ i = 0 ∨ i = 1.
Proof.
  split.
  - intros (Hi & lock & Hl & Ha). destruct (decide (i = 0)); [by left|]. destruct (decide (i = 1)); [by right|]. exfalso.
    pose proof (lookup_lt_Some _ _ _ Hl) as Hlt. simpl in Hlt. assert (i = 2) as -> by lia. vm_compute in Hl. injection Hl as <-. done.
  - intros [->| ->]; split; [done| |done|]; by eexists.
Qed.

Lemma memory2_valid : LocksMemory.valid memory2.
Proof. split; [done|done|]. intros [|[|[|i]]] lock; simpl; by intros [= <-]. Qed.

Lemma managers_agree_witness : ∃ a b c mm' sm' fm',
  LocksMemory.AllocateLock memory2 = (Ok a, mm') ∧ AllocateSemaphore shm2 = (Ok b, sm') ∧ LocksFile.AllocateLock file2 = (Ok c, fm') ∧ a = b ∧ b = c.
Proof.
  destruct (LocksMemory.AllocateLock memory2) as [ra mm'] eqn:Ea. destruct (AllocateSemaphore shm2) as [rb sm'] eqn:Eb.
  destruct (LocksFile.AllocateLock file2) as [rc fm'] eqn:Ec.
  assert (ra = Ok 2) as -> by (vm_compute in Ea; congruence). assert (rb = Ok 2) as -> by (vm_compute in Eb; congruence).
  assert (rc = Ok 2) as -> by (vm_compute in Ec; congruence).
  exists 2, 2, 2, mm', sm', fm'. split; [reflexivity|]. split; [reflexivity|]. split; [reflexivity|].
  apply (managers_agree memory2 shm2 file2 2 2 2 mm' sm' fm').
  - exact memory2_valid.
  - exact shm2_valid.
  - intros id Hid. simpl in Hid. set_unfold in Hid. lia.
  - vm_compute. reflexivity.
  - intros i. rewrite memory2_allocated. unfold LocksShm.allocated, bitOf. simpl. split.
    + intros Hi. assert (0 ≤ i) by lia. split; [done|]. by apply bit3.
    + intros [Hi Hb]. by apply bit3.
  - intros i. rewrite memory2_allocated. unfold LocksFile.allocated. simpl. set_solver.
  - exact Ea.
  - exact Eb.
  - exact Ec.
Defined.

Lemma opened_locks_too_small_witness : ∃ m', Locks.AllocateLock (mkSHMLocks (mkShm MAGIC 1 32 [3] ∅ []) 2 true) = (Ok 2, m') ∧
  Locks.RetrieveLock 2 m' = (Err (LockIDTooLarge 2), m').
Proof.
  apply (opened_locks_too_small 2 (mkShm MAGIC 1 32 [3] ∅ [])).
  - lia.
  - vm_compute. discriminate.
  - reflexivity.
  - exact shm2_valid.
  - reflexivity.
  - reflexivity.
  - intros j Hj. simpl. destruct (bit [3] j) eqn:Hb.
    + apply bit3 in Hb; [|done]. rewrite bool_decide_eq_true_2; [done|lia].
    + rewrite bool_decide_eq_false_2; [done|]. intros Hlt. assert (bit [3] j = true) by (apply bit3; lia). congruence.
Defined.

(** *** Renumbering [world4], a state with containers, a pod and a volume *)

Definition pod_loads (db : Db) (p : string) : bool :=
  match db !! [podBkt; p; configKey] with
  | Some (Val js) => match (unmarshal js : result error PodConfig) with Ok cfg => bool_decide (pc_ID cfg = p) | Err _ => false end
  | _ => false
  end.
Definition vol_loads (db : Db) (v : string) : bool :=
  match db !! [volBkt; v; configKey] with
  | Some (Val js) => match (unmarshal js : result error VolumeConfig) with Ok cfg => bool_decide (vc_Name cfg = v) | Err _ => false end
  | _ => false
  end &&
  match bget db [volBkt; v] stateKey with Some js => is_Ok (unmarshal js : result error VolumeState) | None => true end.
Definition all_load (db : Db) : bool :=
  forallb (pod_loads db) (children [podBkt] db).*1 && forallb (vol_loads db) (children [volBkt] db).*1.

Lemma all_load_loadable db : all_load db = true → loadable db.
Proof.
  intros [Hp Hv]%andb_prop. apply Is_true_true_2, forallb_True in Hp, Hv. rewrite Forall_forall in Hp, Hv. split.
  - intros i cfg _ _. by eexists.
  - intros p Hip. assert (p ∈ (children [podBkt] db).*1) as Hin by (apply key_children; eauto). apply Hp in Hin. unfold pod_loads in Hin.
    destruct (db !! [podBkt; p; configKey]) as [[js|]|]; [|done..]. destruct (unmarshal js) as [cfg|] eqn:Hu; [|done].
    apply bool_decide_unpack in Hin. by exists js, cfg, (pc_LockID cfg).
  - intros v Hiv. assert (v ∈ (children [volBkt] db).*1) as Hin by (apply key_children; eauto). apply Hv in Hin. unfold vol_loads in Hin.
    apply andb_True in Hin as [Hc Hs]. destruct (db !! [volBkt; v; configKey]) as [[js|]|]; [|done..]. destruct (unmarshal js) as [cfg|] eqn:Hu; [|done].
    apply bool_decide_unpack in Hc. exists js, cfg, (vc_LockID cfg). split; [done|]. split; [done|]. split; [done|]. split; [|done].
    unfold vol_state_ok. destruct (bget _ _ _) as [sj|]; [|done]. destruct (unmarshal sj) as [st|]; [by exists st|done].
Qed.

Definition renumbered4 : SHMLocks * World := (renumberLocks (shm2, world4)).2.

Lemma renumber_distinct_witness :
  storedLock (w_db world4) ctrBkt "aaaaaaaaaaaa0001" = storedLock (w_db world4) ctrBkt "bbbbbbbbbbbb0002" ∧ Inv (w_db renumbered4.2) ∧
  ¬ (∃ l, storedLock (w_db renumbered4.2) ctrBkt "aaaaaaaaaaaa0001" = Some l ∧ storedLock (w_db renumbered4.2) volBkt "vol1" = Some l).
Proof.
  assert (renumberLocks (shm2, world4) = (Ok (), renumbered4)) as Hr.
  { assert ((renumberLocks (shm2, world4)).1 = Ok ()) as E by (vm_compute; reflexivity). unfold renumbered4. rewrite <- E. by destruct (renumberLocks (shm2, world4)). }
  destruct renumbered4 as [m' w'] eqn:Ern. destruct (renumber_distinct shm2 m' world4 w' shm2_manager world4_inv) as (HI & _ & Hinj & _).
  - apply all_load_loadable. vm_compute. reflexivity.
  - exact Hr.
  - split; [vm_compute; reflexivity|]. split; [exact HI|]. intros (l & H1 & H2).
    destruct (Hinj ctrBkt "aaaaaaaaaaaa0001" volBkt "vol1" l) as [E _]; [| |exact H1|exact H2|discriminate E].
    + split; [by_dec|vm_compute; reflexivity].
    + split; [by_dec|vm_compute; reflexivity].
Defined.

(** *** A runtime with a single lock, and a container that has lock 1 *)

Section small.

#[local] Instance smallRuntime : Runtime := {|
  rt_json_ctrConfig := codec;
  rt_json_ctrState := codec;
  rt_json_podConfig := codec;
  rt_json_podState := codec;
  rt_json_volConfig := codec;
  rt_json_volState := codec;
  rt_json_netOpts := codec;
  rt_now := 0;
  rt_timeMarshal := λ t, Ok (itoa t);
  rt_timeUnmarshal := λ s, match parseSigned s with Some z => Ok z | None => Err ErrTimeText end;
  rt_RetrieveLock := λ n, if decide (n < 1)%Z then Ok n else Err ErrInternal;
  rt_statFile := λ _, false;
  rt_newConmonOCIRuntime := λ _, false;
  rt_getVolumePlugin := λ _, Err ErrText;
  rt_imagePlugin := false;
  rt_DefaultNetwork := "podman";
  rt_GOOS := "linux";
  rt_StaticDir := "/var/lib/containers/storage/libpod";
  rt_TmpDir := "/run/libpod";
  rt_VolumePath := "/var/lib/containers/storage/volumes";
  rt_storage := mkStoreOptions "/run/containers/storage" "/var/lib/containers/storage" "overlay";
  rt_DefaultStoreOptions :=
    Ok (mkStoreOptions "/run/containers/storage" "/var/lib/containers/storage" "overlay") |}.

#[local] Instance smallRuntime_laws : @RuntimeLaws smallRuntime.
Proof. constructor; try apply codec_laws. intros t s [= <-]. simpl. by rewrite parseSigned_itoa. Qed.

Definition smallWorld : World := run (AddContainer (H := smallRuntime) ctrA) (run NewBoltState world0).

Lemma smallWorld_inv : Inv (H := smallRuntime) (w_db smallWorld).
Proof.
  destruct (NewBoltState_empty world0) as (db & Hr & Hs); [done|done|done|]. unfold smallWorld, run. rewrite Hr.
  destruct (AddContainer ctrA _) as [r w'] eqn:Ha. eapply AddContainer_safe; [|done|exact Ha]. by apply schema_inv.
Qed.

Lemma smallWorld_pods p : ¬ is_pod (w_db smallWorld) p.
Proof.
  intros Hp. assert (p ∈ (children [podBkt] (w_db smallWorld)).*1) as Hin by (apply key_children; eauto).
  assert ((children [podBkt] (w_db smallWorld)).*1 = []) as E by (vm_compute; reflexivity). rewrite E in Hin. by apply not_elem_of_nil in Hin.
Qed.

Lemma smallWorld_vols v : ¬ is_vol (w_db smallWorld) v.
Proof.
  intros Hp. assert (v ∈ (children [volBkt] (w_db smallWorld)).*1) as Hin by (apply key_children; eauto).
  assert ((children [volBkt] (w_db smallWorld)).*1 = []) as E by (vm_compute; reflexivity). rewrite E in Hin. by apply not_elem_of_nil in Hin.
Qed.

Lemma renumber_skips_witness : ∃ m' w' js, renumberLocks (shm2, smallWorld) = (Ok (), (m', w')) ∧
  w_db smallWorld !! [ctrBkt; "aaaaaaaaaaaa0001"; configKey] = Some (Val js) ∧ w_db w' !! [ctrBkt; "aaaaaaaaaaaa0001"; configKey] = Some (Val js).
Proof.
  destruct (renumberLocks (shm2, smallWorld)) as [r [m' w']] eqn:E. assert (r = Ok ()) as ->.
  { assert ((renumberLocks (shm2, smallWorld)).1 = Ok ()) as E1 by (vm_compute; reflexivity). by rewrite E in E1. }
  destruct (w_db smallWorld !! [ctrBkt; "aaaaaaaaaaaa0001"; configKey]) as [[js|]|] eqn:Ej; [|vm_compute in Ej; discriminate Ej..].
  exists m', w', js. split; [reflexivity|]. split; [reflexivity|].
  apply (renumber_skips shm2 m' smallWorld w' "aaaaaaaaaaaa0001" js (json_view (ctr_config ctrA)) ErrInternal).
  - exact shm2_valid.
  - exact smallWorld_inv.
  - intros p s cfg Hs _. destruct (smallWorld_pods p). by apply (sub_pod _ p configKey [] (Val s) (inv_tree _ smallWorld_inv)).
  - intros p s cfg Hs _. destruct (smallWorld_vols p). by apply (sub_vol _ p configKey [] (Val s) (inv_tree _ smallWorld_inv)).
  - exact Ej.
  - vm_compute in Ej. injection Ej as <-. vm_compute. reflexivity.
  - reflexivity.
  - exact E.
Defined.

End small.
