(* ===== verification/PropsPorts.v ===== *)
(** * PropsPorts: what the port flags give a container

    The properties of [PortSpec] and [PortMap]: the [--publish] format round-trips, the mappings of
    a container are the requested ones, requests that do not overlap are accepted, and every
    exposed port is published. *)

From Stdlib Require Import Ascii.
From S2P Require Import Prelude Define Strconv PortSpec PortMap.

Local Open Scope Z_scope.

(** ** What is requested *)

(** The pairs of host and container port that the mappings with a host port give, and the
    container ports of the mappings without *)
Definition given (ports : list PortMapping) (hostIP protocol : string) (h c : Z) : Prop :=
  ∃ p, p ∈ ports ∧ requests hostIP protocol p ∧ pm_HostPort p ≠ 0 ∧ 0 ≤ h - pm_HostPort p < rangeOf p ∧ c - pm_ContainerPort p = h - pm_HostPort p.
Definition anyHost (ports : list PortMapping) (hostIP protocol : string) (c : Z) : Prop :=
  ∃ p, p ∈ ports ∧ requests hostIP protocol p ∧ pm_HostPort p = 0 ∧ 0 ≤ c - pm_ContainerPort p < rangeOf p.

(** [visit] has every address and protocol of the mappings, once. *)
Definition visits (ports : list PortMapping) (visit : list (string * string)) : Prop :=
  NoDup visit ∧ ∀ p protocol, p ∈ ports → protocol ∈ knownProtocols → (pm_HostIP p, protocol) ∈ visit.

Lemma requests_known hostIP protocol p : requests hostIP protocol p → protocol ∈ knownProtocols.
Proof. intros [_ (l & Hl & Hin)]. by apply (checkProtocol_known _ _ _ Hl). Qed.

Lemma published_iff hostIP protocol given given' any any' out : (∀ h c, given h c ↔ given' h c) → (∀ c, any c ↔ any' c) →
  published hostIP protocol given any out → published hostIP protocol given' any' out.
Proof.
  intros Hg Ha [Hok (fixed & random & -> & Hf & Hr & Hfresh)]. split; [done|]. exists fixed, random. split; [done|].
  split; [intros h c; by rewrite Hf|]. split; [intros c; by rewrite Hr|done].
Qed.

Lemma given_iff parseIP ports m k h c : Forall portUint16 ports → validateMappings parseIP ∅ ports = Ok m →
  givenBy (groupRequests m k) h c ↔ given ports k.1 k.2 h c.
Proof.
  intros Hu Hv. destruct (validateMappings_Ok _ _ _ _ Hu Hv) as [_ Hk]. unfold givenBy, given. setoid_rewrite Hk. split.
  - intros (t & [Ht|(p & Hp & -> & Hreq)] & Hnz & Hh & Hc); [unfold groupRequests in Ht; rewrite lookup_empty in Ht; by apply not_elem_of_nil in Ht|]. by exists p.
  - intros (p & Hp & Hreq & Hnz & Hh & Hc). exists (tempOf p). split; [right; by exists p|done].
Qed.

Lemma any_iff parseIP ports m k c : Forall portUint16 ports → validateMappings parseIP ∅ ports = Ok m →
  anyBy (groupRequests m k) c ↔ anyHost ports k.1 k.2 c.
Proof.
  intros Hu Hv. destruct (validateMappings_Ok _ _ _ _ Hu Hv) as [_ Hk]. unfold anyBy, anyHost. setoid_rewrite Hk. split.
  - intros (t & [Ht|(p & Hp & -> & Hreq)] & Hnz & Hh); [unfold groupRequests in Ht; rewrite lookup_empty in Ht; by apply not_elem_of_nil in Ht|]. by exists p.
  - intros (p & Hp & Hreq & Hnz & Hh). exists (tempOf p). split; [right; by exists p|done].
Qed.

Lemma groups_ok parseIP ports m : Forall portUint16 ports → validateMappings parseIP ∅ ports = Ok m → ∀ k, Forall tempOk (groupRequests m k).
Proof.
  intros Hu Hv k. destruct (validateMappings_Ok _ _ _ _ Hu Hv) as [Hok Hk]. apply Forall_forall. intros t Ht. apply Hk in Ht as [Ht|(p & Hp & -> & _)].
  - unfold groupRequests in Ht. rewrite lookup_empty in Ht. by apply not_elem_of_nil in Ht.
  - rewrite Forall_forall in Hok. by apply Hok.
Qed.

(** No request, no mapping *)
Lemma published_none ports hostIP protocol : (∀ p, p ∈ ports → ¬ requests hostIP protocol p) →
  published hostIP protocol (given ports hostIP protocol) (anyHost ports hostIP protocol) [].
Proof.
  intros Hno. eapply published_iff; [| |apply published_nil]; [intros h c|intros c]; (split; [intros (t & Ht & _); by apply not_elem_of_nil in Ht|]);
    intros (p & Hp & Hreq & _); by destruct (Hno p Hp).
Qed.

(** The container port is used by a requested mapping. *)
Definition taken (base : list PortMapping) (port : Z) (protocol : string) : Prop :=
  ∃ m, m ∈ base ∧ pm_Protocol m = protocol ∧ inContainer m port.

(** The result of [ParsePortMapping]: the mappings of every address and protocol, and then those of
    the exposed ports *)
Record portsResult (ports : list PortMapping) (expose : list (Z * list string)) (base exposed : list PortMapping) (left : list (Z * list string)) : Prop := {
  pr_groups hostIP protocol : published hostIP protocol (given ports hostIP protocol) (anyHost ports hostIP protocol) (filter (inGroup hostIP protocol) base);
  pr_left port protocol : listed left port protocol ↔ listed expose port protocol ∧ taken base port protocol;
  pr_exposed port protocol : listed expose port protocol → ¬ taken base port protocol → Exists (exposedMapping port protocol) exposed;
  pr_only m : m ∈ exposed → ∃ port protocol, listed expose port protocol ∧ ¬ taken base port protocol ∧ exposedMapping port protocol m }.

Lemma ParsePortMapping_spec parseIP visit random ports expose out left : Forall portUint16 ports → visits ports visit → randomOk random → portsValid expose →
  ParsePortMapping parseIP visit random ports expose = Ok (out, left) →
  ∃ base exposed, out = base ++ exposed ∧ portsResult ports expose base exposed left.
Proof.
  intros Hu [Hnd Hvis] Hr Hv. unfold ParsePortMapping. destruct (decide _) as [[-> ->]|_].
  { intros [= <- <-]. exists [], []. split; [done|]. split.
    - intros hostIP protocol. apply published_none. intros p Hp. by apply not_elem_of_nil in Hp.
    - intros port protocol. split; [|by intros [? _]]. intros (l & Hl & _). by apply not_elem_of_nil in Hl.
    - intros port protocol (l & Hl & _). by apply not_elem_of_nil in Hl.
    - intros q Hq. by apply not_elem_of_nil in Hq. }
  destruct (validateMappings parseIP ∅ ports) as [m|] eqn:Em; [|done]. 
  cbv zeta. match goal with |- context [match ?x with pair _ _ => _ end] => destruct x as [[left'|] s'] eqn:Erun; [|done] end. intros [= <- <-].
  apply st_bind_Ok in Erun as (u & s1 & Hg & He). apply groups_spec in Hg as (outs & E1 & Houts & Hr1 & Hadds); [|done|by eapply groups_ok].
  apply exposeAll_spec in He as (new & [P M R] & Hleft & Hex & Honly); [|done|done]. simpl in E1.
  assert (∀ port protocol, port ∈ usedContainer s1 protocol ↔ taken (concat outs) port protocol) as Htk.
  { intros port protocol. rewrite (Hadds protocol port). unfold usedContainer, taken. simpl. rewrite lookup_empty. set_solver. }
  exists (concat outs), new. split; [by rewrite P, E1|]. split; [|setoid_rewrite <- Htk; done..]. intros hostIP protocol.
  destruct (decide ((hostIP, protocol) ∈ visit)) as [Hin|Hout].
  - eapply published_iff; [| |exact (groups_filter m (hostIP, protocol) visit outs Hnd Hin Houts)]; [intros h c; by eapply given_iff|intros c; by eapply any_iff].
  - pose proof (groups_other m (hostIP, protocol) visit outs Hout Houts) as Hf. simpl in Hf. rewrite Hf. apply published_none.
    intros p Hp Hreq. apply Hout. pose proof (requests_known _ _ _ Hreq). destruct Hreq as [<- _]. by apply Hvis.
Qed.

(** A container port is used exactly when a mapping requests it. *)
Lemma taken_iff ports base port protocol :
  (∀ hostIP, published hostIP protocol (given ports hostIP protocol) (anyHost ports hostIP protocol) (filter (inGroup hostIP protocol) base)) →
  taken base port protocol ↔ ∃ p hostIP, p ∈ ports ∧ requests hostIP protocol p ∧ 0 ≤ port - pm_ContainerPort p < rangeOf p.
Proof.
  intros Hpub. split.
  - intros (m & Hm & <- & Hin). destruct (Hpub (pm_HostIP m)) as [_ (fixed & random & E & Hf & Hr & _)].
    assert (m ∈ fixed ++ random) as Hm' by (rewrite <- E; rewrite list_elem_of_filter; done). apply elem_of_app in Hm' as [Hm'|Hm'].
    + apply covers_container in Hin as [h Hh]. assert (covered fixed h port) as Hc by (apply Exists_exists; by exists m). apply Hf in Hc as (p & Hp & Hreq & _ & ? & ?). exists p, (pm_HostIP m). split; [done|]. split; [done|lia].
    + assert (coveredC random port) as Hc by (apply Exists_exists; by exists m). apply Hr in Hc as (p & Hp & Hreq & _ & ?). by exists p, (pm_HostIP m).
  - intros (p & hostIP & Hp & Hreq & Hin). destruct (Hpub hostIP) as [_ (fixed & random & E & Hf & Hr & _)].
    assert (∃ m, m ∈ fixed ++ random ∧ inContainer m port) as (m & Hm & Hmin).
    { destruct (decide (pm_HostPort p = 0)) as [Ez|Ez].
      - assert (coveredC random port) as Hc by (apply Hr; by exists p). apply Exists_exists in Hc as (m & Hm & Hc). exists m. split; [apply elem_of_app; by right|done].
      - assert (covered fixed (pm_HostPort p + (port - pm_ContainerPort p)) port) as Hc by (apply Hf; exists p; split; [done|]; split; [done|]; split; [done|lia]).
        apply Exists_exists in Hc as (m & Hm & Hc). exists m. split; [apply elem_of_app; by left|]. apply covers_container. by eexists. }
    rewrite <- E in Hm. rewrite list_elem_of_filter in Hm. destruct Hm as [[_ Epr] Hm]. by exists m.
Qed.

(** ** The exposed ports of a container *)

Lemma append_elem slice protocols x : x ∈ appendProtocolsNoDuplicates slice protocols ↔ x ∈ slice ∨ x ∈ protocols.
Proof. revert slice. induction protocols as [|p protocols IH]; intros slice; simpl; [set_solver|]. rewrite IH. destruct (decide _); set_solver. Qed.

(** The list exposes the port with the protocol. *)
Definition exposedBy (l : list (Z * string)) (port : Z) (protocol : string) : Prop :=
  ∃ proto protocols, (port, proto) ∈ l ∧ checkProtocol proto false = Ok protocols ∧ protocol ∈ protocols.

Lemma addExposes_spec l m m' : addExposes m l = Ok m' →
  (∀ port protocol, protocol ∈ default [] (m' !! port) ↔ protocol ∈ default [] (m !! port) ∨ exposedBy l port protocol) ∧
  ∀ port, is_Some (m' !! port) → is_Some (m !! port) ∨ port ≠ 0 ∧ port ∈ l.*1.
Proof.
  revert m. induction l as [|[q proto] l IH]; intros m; simpl.
  { intros [= <-]. unfold exposedBy. set_solver. }
  unfold addExpose. destruct (decide (q = 0)) as [|Hq]; [done|]. destruct (checkProtocol proto false) as [protocols|] eqn:Ec; [|done]. rewrite !bindOk. intros Hl.
  apply IH in Hl as [Hel Hs]. split.
  - intros port protocol. rewrite Hel. assert (exposedBy ((q, proto) :: l) port protocol ↔ port = q ∧ protocol ∈ protocols ∨ exposedBy l port protocol) as ->.
    { unfold exposedBy. setoid_rewrite elem_of_cons. split; [intros (pr & ps & [[= -> ->]|Hin] & Hc & Hp)|intros [[-> Hp]|(pr & ps & Hin & Hc & Hp)]]; [|naive_solver|naive_solver|naive_solver].
      left. split; [done|]. congruence. }
    destruct (decide (port = q)) as [->|Hne]; [rewrite lookup_insert_eq; simpl; rewrite append_elem; naive_solver|rewrite lookup_insert_ne by done; naive_solver].
  - intros port Hp. destruct (Hs port Hp) as [Hm|[? ?]]; [|right; set_solver]. destruct (decide (port = q)) as [->|Hne]; [right; set_solver|]. rewrite lookup_insert_ne in Hm by done. by left.
Qed.

(** The ports of the flags are 16-bit numbers. *)
Lemma exposePorts_bound proto l m : Forall (λ p, 0 ≤ p < 65536) l → (∀ p, is_Some (m !! p) → 0 ≤ p < 65536) → ∀ p, is_Some (foldl (exposeNumber proto) m l !! p) → 0 ≤ p < 65536.
Proof.
  intros Hl. revert m. induction Hl as [|q l Hq _ IH]; intros m Hm; simpl; [done|]. apply IH. intros p. unfold exposeNumber.
  destruct (decide (p = q)) as [->|Hne]; [done|]. destruct (m !! q); rewrite lookup_insert_ne by done; apply Hm.
Qed.

Lemma exposeOne_bound e m m' : (∀ p, is_Some (m !! p) → 0 ≤ p < 65536) → exposeOne m e = Ok m' → ∀ p, is_Some (m' !! p) → 0 ≤ p < 65536.
Proof.
  intros Hm. unfold exposeOne. assert (∀ first proto m', (r ← parseAndValidateRange first; Ok (foldl (exposeNumber proto) m ((λ index, (r.1 + index) mod 2 ^ 16) <$> seqZ 0 r.2))) = Ok m' → ∀ p, is_Some (m' !! p) → 0 ≤ p < 65536) as Hadd.
  { intros first proto m2. destruct (parseAndValidateRange first) as [r|]; [|done]. intros [= <-]. apply exposePorts_bound; [|done]. apply Forall_fmap, Forall_true. intros i. apply Z.mod_pos_bound. lia. }
  destruct (splitOn "/"%char e) as [|a [|b [|c ?]]]; try done; apply Hadd.
Qed.

Lemma CreateExpose_bound expose m : CreateExpose expose = Ok m → ∀ p, is_Some (m !! p) → 0 ≤ p < 65536.
Proof.
  unfold CreateExpose. assert (∀ p, is_Some ((∅ : gmap Z string) !! p) → 0 ≤ p < 65536) as H0 by (intros p [x Hx]; by rewrite lookup_empty in Hx).
  revert H0. generalize (∅ : gmap Z string). induction expose as [|e expose IH]; intros m0 H0; simpl; [by intros [= <-]|].
  destruct (exposeOne m0 e) as [m1|] eqn:E; [|done]. rewrite bindOk. apply IH. by eapply exposeOne_bound.
Qed.

Lemma exposeAll_keys l s left s' : exposeAll l s = (Ok left, s') → left.*1 `sublist_of` l.*1.
Proof.
  revert s left s'. induction l as [|[port protocols] l IH]; intros s left s'; simpl; [by intros [= <- _]|].
  intros Ht. apply st_bind_Ok in Ht as (np & s1 & _ & Ht). apply st_bind_Ok in Ht as (left' & s2 & Ha & [= <- _]). apply IH in Ha. destruct (decide _); by constructor.
Qed.

Lemma ParsePortMapping_keys parseIP visit random ports expose out left :
  ParsePortMapping parseIP visit random ports expose = Ok (out, left) → left.*1 `sublist_of` expose.*1.
Proof.
  unfold ParsePortMapping. destruct (decide _) as [[-> ->]|_]; [by intros [= _ <-]|]. destruct (validateMappings _ _ _); [|done]. cbv zeta.
  match goal with |- context [match ?x with pair _ _ => _ end] => destruct x as [[left'|] s'] eqn:Erun; [|done] end. intros [= _ <-].
  apply st_bind_Ok in Erun as (u & s1 & _ & He). by eapply exposeAll_keys.
Qed.

(** ** Maps that are traversed in some order *)

Section order.
Context (order : ∀ A : Type, gmap Z A → list (Z * A)).
Context (order_perm : ∀ (A : Type) (m : gmap Z A), order A m ≡ₚ map_to_list m).

Lemma listed_order m port protocol : listed (order _ m) port protocol ↔ protocol ∈ default [] (m !! port).
Proof.
  unfold listed. setoid_rewrite order_perm. setoid_rewrite elem_of_map_to_list. destruct (m !! port) as [l|]; simpl; split.
  - intros (l' & [= <-] & ?). done.
  - intros Hl. by exists l.
  - intros (l' & ? & _). done.
  - intros Hl. by apply not_elem_of_nil in Hl.
Qed.

Lemma valid_order m : (∀ p, is_Some (m !! p) → 1 ≤ p ≤ 65535) → portsValid (order _ m).
Proof.
  intros Hm. unfold portsValid. rewrite order_perm. apply Forall_forall. intros [p l] Hp. apply elem_of_map_to_list in Hp. apply Hm. by eexists.
Qed.

Lemma keys_order {A} (m : gmap Z A) : NoDup (order A m).*1.
Proof. rewrite order_perm. apply NoDup_fst_map_to_list. Qed.

Lemma exposedBy_order m m' port protocol :
  exposedBy (order _ m ++ order _ m') port protocol ↔ exposedBy (map_to_list m ++ map_to_list m') port protocol.
Proof. unfold exposedBy. by setoid_rewrite (order_perm _ m); setoid_rewrite (order_perm _ m'). Qed.

Lemma bound_order (m : gmap Z string) p : (∀ p, is_Some (m !! p) → 0 ≤ p < 65536) → p ∈ (order _ m).*1 → 0 ≤ p < 65536.
Proof. intros Hm Hp. rewrite order_perm in Hp. apply list_elem_of_fmap in Hp as ([q v] & -> & Hq). apply elem_of_map_to_list in Hq. apply Hm. by eexists. Qed.
End order.

Lemma listed_list_to_map (l : list (Z * list string)) port protocol : NoDup l.*1 →
  protocol ∈ default [] ((list_to_map l : gmap Z (list string)) !! port) ↔ listed l port protocol.
Proof.
  intros Hnd. unfold listed. setoid_rewrite (elem_of_list_to_map l port _ Hnd). destruct (list_to_map l !! port) as [ps|]; simpl; split.
  - intros Hp. by exists ps.
  - intros (ps' & [= <-] & ?). done.
  - intros Hl. by apply not_elem_of_nil in Hl.
  - intros (l' & ? & _). done.
Qed.

Lemma image_bound image expose : match image with None => Ok ∅ | Some l => GenExposedPorts l end = Ok expose → ∀ p, is_Some (expose !! p) → 0 ≤ p < 65536.
Proof.
  destruct image as [l|].
  - unfold GenExposedPorts. destruct (CreateExpose l) as [m|] eqn:E; [|done]. intros [= <-]. by eapply CreateExpose_bound.
  - intros [= <-] p [x Hx]. by rewrite lookup_empty in Hx.
Qed.

Lemma taken_app base exposed port protocol : taken base port protocol ∨ Exists (exposedMapping port protocol) exposed → taken (base ++ exposed) port protocol.
Proof.
  unfold taken. intros [(m & Hm & ?)|Hex].
  - exists m. split; [apply elem_of_app; by left|done].
  - apply Exists_exists in Hex as (m & Hm & _ & Ec & Er & Ep & _). exists m. split; [apply elem_of_app; by right|]. split; [done|]. unfold inContainer. lia.
Qed.

#[export] Instance taken_dec base port protocol : Decision (taken base port protocol).
Proof.
  refine (cast_if (decide (Exists (λ m, pm_Protocol m = protocol ∧ 0 ≤ port - pm_ContainerPort m < pm_Range m) base))); by rewrite Exists_exists in *.
Defined.

(** ** The claims *)

(** C35: The format of [--publish] round-trips: a list of mappings whose ranges are within the
    ports, with addresses that are their own normal form and protocols without slash, is printed
    in the documented format and parsed back by [CreatePortBindings] to the same list, IPv6
    addresses in brackets, ranges and mappings without a host port included. *)
Theorem publish_roundtrip parseIP ms : Forall (expressible parseIP) ms → CreatePortBindings parseIP (printPublish <$> ms) = Ok ms.
Proof. apply parse_publish_all. Qed.

(** C36: The mappings of a container are the requested ones.  When [ParsePortMapping] succeeds,
    with the maps traversed in any order and any random ports, then for every host address and
    protocol all mappings are within the ports; those with a given host port cover exactly the
    requested pairs of host and container port; those with a random one cover exactly the
    requested container ports, on host ports that no other mapping of the address and protocol
    has; and then there are mappings of one port each, at least one for every exposed port and
    protocol that no request covers and none for anything else, and these ports are removed from
    the exposed ones. *)
Theorem ports_published parseIP visit random ports expose out left :
  Forall portUint16 ports → visits ports visit → randomOk random → portsValid expose →
  ParsePortMapping parseIP visit random ports expose = Ok (out, left) →
  ∃ base exposed, out = base ++ exposed ∧ portsResult ports expose base exposed left.
Proof. apply ParsePortMapping_spec. Qed.

(** C37: Requests that do not overlap are accepted: valid mappings with host ports, any two of which
    have different addresses, protocols or host ports, never give a conflict, whatever the
    order of the requests and of the maps. *)
Theorem ports_accepted parseIP visit random ports :
  Forall (validPort parseIP) ports → Forall (λ p, pm_HostPort p ≠ 0) ports → pairwise apart ports →
  ∃ out, ParsePortMapping parseIP visit random ports [] = Ok (out, []).
Proof.
  intros Hv Hnz Ha. assert (Forall portUint16 ports) as Hu by (eapply Forall_impl; [exact Hv|]; by intros p [? _ _ _ _]).
  unfold ParsePortMapping. destruct (decide _); [by eexists|].
  destruct (validateMappings_valid parseIP ports ∅ Hv Ha) as (m & Em & Hd).
  { intros k. unfold groupRequests. by rewrite lookup_empty. }
  { intros k t p Ht. unfold groupRequests in Ht. rewrite lookup_empty in Ht. by apply not_elem_of_nil in Ht. }
  rewrite Em. destruct (groups_accept m visit (mkPortState [] ∅ ∅ ∅ ∅ ∅ random)) as [s' E]; [by eapply groups_ok| |done|].
  { intros k. apply Forall_forall. intros t Ht. destruct (validateMappings_Ok _ _ _ _ Hu Em) as [_ Hk]. apply Hk in Ht as [Ht|(p & Hp & -> & _)].
    - unfold groupRequests in Ht. rewrite lookup_empty in Ht. by apply not_elem_of_nil in Ht.
    - rewrite Forall_forall in Hnz. by apply Hnz. }
  cbv zeta. unfold groupRequests in E. rewrite (st_bind_run _ _ _ _ _ E). simpl. by eexists.
Qed.

(** C38: With [--publish-all] every port that the image or the specification exposes is published:
    when [createPortMappings] succeeds, a mapping of the protocol has the container port, and the
    port stays among the exposed ones exactly when a requested mapping already had it. *)
Theorem exposed_published parseIP visit random (order : ∀ A : Type, gmap Z A → list (Z * A)) image ports Expose out left :
  Forall portUint16 ports → visits ports visit → randomOk random → (∀ (A : Type) (m : gmap Z A), order A m ≡ₚ map_to_list m) →
  (∀ p, is_Some (Expose !! p) → 0 ≤ p < 65536) →
  createPortMappings parseIP visit random order image ports Expose true = Ok (out, left) →
  ∃ expose, match image with None => Ok ∅ | Some l => GenExposedPorts l end = Ok expose ∧
    ∀ port protocol, exposedBy (map_to_list expose ++ map_to_list Expose) port protocol →
      taken out port protocol ∧
      (protocol ∈ default [] (left !! port) ↔ ∃ p hostIP, p ∈ ports ∧ requests hostIP protocol p ∧ 0 ≤ port - pm_ContainerPort p < rangeOf p).
Proof.
  intros Hu Hvis Hr Hord HE. unfold createPortMappings. destruct (match image with None => _ | _ => _ end) as [expose|] eqn:Eimg; [|done]. rewrite bindOk.
  destruct (addExposes _ _) as [toExpose|] eqn:Eadd; [|done]. rewrite bindOk. cbv zeta.
  destruct (ParsePortMapping _ _ _ _ _) as [[out' left']|] eqn:Eparse; [|done]. rewrite bindOk. intros [= <- <-]. exists expose. split; [done|].
  intros port protocol Hexp. apply (exposedBy_order order Hord) in Hexp. apply addExposes_spec in Eadd as [Hel Hkeys].
  assert (portsValid (order _ toExpose)) as Hvalid.
  { apply (valid_order order Hord). intros p Hp. destruct (Hkeys p Hp) as [[x Hx]|[Hne Hin]]; [by rewrite lookup_empty in Hx|].
    rewrite fmap_app, elem_of_app in Hin. assert (0 ≤ p < 65536) by (destruct Hin as [Hin|Hin]; (eapply (bound_order order Hord); [|exact Hin]); [by eapply image_bound|done]). lia. }
  assert (listed (order _ toExpose) port protocol) as Hl by (apply (listed_order order Hord), Hel; by right).
  assert (NoDup left'.*1) as Hnd by (eapply sublist_NoDup; [apply (keys_order order Hord toExpose)|by eapply ParsePortMapping_keys]).
  apply ParsePortMapping_spec in Eparse as (base & exposed & -> & [Hg Hleft Hex _]); [|done..]. split.
  - apply taken_app. destruct (decide (taken base port protocol)); [by left|right; by apply Hex].
  - simpl. rewrite listed_list_to_map, Hleft by done. rewrite <- (taken_iff ports base) by done. tauto.
Qed.

(** ** Conflicts *)

(** The last host port of a range is not checked: a mapping of it to another container port is
    accepted beside the range. *)
Theorem conflict_missed prev port s : mappingOk prev → mappingOk port →
  pm_HostPort port = pm_HostPort prev + pm_Range prev - 1 → pm_ContainerPort port ≠ pm_ContainerPort prev + pm_Range prev - 1 →
  ∃ s', joinTwoPortsToRangePortIfPossible (Some prev) port s = (Ok port, s') ∧ emits [prev] s s' ∧ onHost prev (pm_HostPort port).
Proof.
  intros Hp Hq Eh Hc. pose proof Hp as [(Pc1 & Pr & Pc2) [Ph1 Ph2]]. pose proof Hq as [(Qc1 & Qr & Qc2) [Qh1 Qh2]].
  assert (∃ s', joinTwoPortsToRangePortIfPossible (Some prev) port s = (Ok port, s')) as [s' E].
  { unfold joinTwoPortsToRangePortIfPossible. destruct (decide _) as [Hle|]; [|by eexists]. unfold uint16.
    destruct (decide _) as [Ed|]; [|rewrite decide_False; [by eexists|rewrite Z.mod_small; lia]].
    exfalso. rewrite Z.mod_small in Ed by lia. apply Hc.
    pose proof (Z.div_mod (pm_ContainerPort port - pm_ContainerPort prev) (2 ^ 16) ltac:(lia)) as Hdm. rewrite <- Ed in Hdm.
    set (q := (pm_ContainerPort port - pm_ContainerPort prev) / 2 ^ 16) in *. assert (q = 0 ∨ q ≤ -1 ∨ 1 ≤ q) as [E|[E|E]] by lia; lia. }
  exists s'. split; [done|]. split; [|unfold onHost; lia].
  unfold joinTwoPortsToRangePortIfPossible in E. destruct (join_spec prev port s port s' Hp Hq ltac:(lia) E) as [(-> & _ & _ & Eh' & Hcov)|[_ He]]; [|done].
  exfalso. assert (covers port (pm_HostPort prev) (pm_ContainerPort prev)) as (k & Hk & Ek1 & Ek2).
  { apply Hcov. left. exists 0. lia. }
  assert (covers port (pm_HostPort port) (pm_ContainerPort prev + pm_Range prev - 1)) as (j & Hj & Ej1 & Ej2).
  { apply Hcov. left. exists (pm_Range prev - 1). lia. }
  lia.
Qed.

(** The same container port range twice on one host port *)
Example conflict_accepted random : ParsePortMapping (λ _, true) [("", "tcp"); ("", "udp"); ("", "sctp")] random
    [mkPortMapping "" 8080 80 1 "tcp"; mkPortMapping "" 8081 80 1 "tcp"] [] =
  Ok ([mkPortMapping "" 8080 80 1 "tcp"; mkPortMapping "" 8081 80 1 "tcp"], []).
Proof. by vm_compute. Qed.

(** The random port of an exposed port is not compared with the given host ports: here both
    mappings have the host port 5000. *)
Example exposed_conflict random : ParsePortMapping (λ _, true) [("", "tcp"); ("", "udp"); ("", "sctp")] (Some 5000 :: random)
    [mkPortMapping "" 80 5000 1 "tcp"] [(81, ["tcp"])] =
  Ok ([mkPortMapping "" 80 5000 1 "tcp"; mkPortMapping "" 81 5000 1 "tcp"], []).
Proof. by vm_compute. Qed.

(** ** Witnesses *)

Definition visitAll : list (string * string) := [("", "tcp"); ("", "udp"); ("", "sctp")].

Lemma visitAll_visits ports : Forall (λ p, pm_HostIP p = "") ports → visits ports visitAll.
Proof.
  intros Hip. split; [by apply (bool_decide_unpack _); vm_compute|]. intros p protocol Hp Hk. rewrite Forall_forall in Hip. rewrite (Hip p Hp).
  unfold visitAll, knownProtocols in *. set_solver.
Qed.

Definition webPorts : list PortMapping := [mkPortMapping "" 80 8080 2 "tcp"; mkPortMapping "" 82 8082 1 "TCP,udp"; mkPortMapping "" 90 0 2 ""].

Lemma webPorts_uint : Forall portUint16 webPorts.
Proof. repeat constructor; simpl; lia. Qed.

Lemma publish_roundtrip_witness :
  CreatePortBindings Some (printPublish <$> [mkPortMapping "::1" 80 8080 3 "udp"; mkPortMapping "10.0.0.1" 80 0 1 ""]) =
  Ok [mkPortMapping "::1" 80 8080 3 "udp"; mkPortMapping "10.0.0.1" 80 0 1 ""].
Proof.
  apply (publish_roundtrip Some). constructor; [|constructor; [|constructor]]; split; simpl; unfold portOk; try lia; try done; by right.
Defined.

Lemma ports_published_witness : ∃ base exposed,
  [mkPortMapping "" 80 8080 3 "tcp"; mkPortMapping "" 90 4000 2 "tcp"; mkPortMapping "" 82 8082 1 "udp"; mkPortMapping "" 443 5000 1 "tcp"] = base ++ exposed ∧
  portsResult webPorts [(443, ["tcp"]); (82, ["udp"])] base exposed [(82, ["udp"])].
Proof.
  apply (ports_published (λ _, true) visitAll [Some 65535; Some 4000; Some 5000] webPorts [(443, ["tcp"]); (82, ["udp"])]).
  - exact webPorts_uint.
  - apply visitAll_visits. by repeat constructor.
  - repeat constructor; lia.
  - repeat constructor; simpl; lia.
  - vm_compute. reflexivity.
Defined.

Lemma ports_accepted_witness : ∃ out,
  ParsePortMapping (λ _, true) visitAll [] [mkPortMapping "" 80 8080 2 "tcp"; mkPortMapping "" 90 8082 1 "tcp"; mkPortMapping "" 70 8079 1 "tcp"] [] = Ok (out, []).
Proof.
  apply (ports_accepted (λ _, true) visitAll []).
  - apply Forall_forall. intros p Hp. rewrite !elem_of_cons in Hp.
    assert (p = mkPortMapping "" 80 8080 2 "tcp" ∨ p = mkPortMapping "" 90 8082 1 "tcp" ∨ p = mkPortMapping "" 70 8079 1 "tcp") as [-> | [-> | ->]] by set_solver;
      (split; [unfold portUint16; simpl; lia|eexists; vm_compute; reflexivity|by left|unfold rangeOf; simpl; lia|unfold rangeOf; simpl; lia]).
  - by repeat constructor.
  - split; [constructor; [|constructor; [|done]]|split; [constructor; [|done]|done]]; intros ip protocol _ _; unfold hostsApart, tempOf, rangeOf; simpl; lia.
Defined.

Lemma exposed_published_witness : ∃ expose, GenExposedPorts ["80-81"; "53/udp"] = Ok expose ∧
  ∀ port protocol, exposedBy (map_to_list expose ++ map_to_list ({[90 := "tcp"]} : gmap Z string)) port protocol →
    taken [mkPortMapping "" 80 8080 1 "tcp"; mkPortMapping "" 53 4000 1 "udp"; mkPortMapping "" 81 4001 1 "tcp"; mkPortMapping "" 90 4002 1 "tcp"] port protocol ∧
    (protocol ∈ default [] (({[80 := ["tcp"]]} : gmap Z (list string)) !! port) ↔
      ∃ p hostIP, p ∈ [mkPortMapping "" 80 8080 1 "tcp"] ∧ requests hostIP protocol p ∧ 0 ≤ port - pm_ContainerPort p < rangeOf p).
Proof.
  apply (exposed_published (λ _, true) visitAll [Some 4000; Some 4001; Some 4002] (λ A, map_to_list) (Some ["80-81"; "53/udp"]) [mkPortMapping "" 80 8080 1 "tcp"] {[90 := "tcp"]}).
  - repeat constructor; simpl; lia.
  - apply visitAll_visits. by repeat constructor.
  - repeat constructor; lia.
  - done.
  - intros p [x Hx]. apply lookup_singleton_Some in Hx as [<- _]. lia.
  - vm_compute. reflexivity.
Defined.
