(* ===== verification/Volumes.v ===== *)
(** * Volumes: creating, mounting and removing named volumes

    [libpod/runtime_volume.go], [libpod/runtime_volume_common.go], [libpod/volume.go],
    [libpod/volume_internal.go], [libpod/volume_internal_common.go] and the volume options of
    [libpod/options.go], on the BoltDB state and any lock manager.  The world has the locks, the
    state, the host (volume plugins, storage, the file system and the mount command, with
    arbitrary answers) and the handle of the volume at hand.  Errors of the lock manager are
    [ErrLock], and panics where it locks and unlocks.  Events are not modelled. *)

From Stdlib Require Import Ascii.
From S2P Require Import Prelude Define Bolt BoltTx Strconv BoltInternal BoltState Locks PortSpec PortMap.

(** ** The world *)

Inductive volRequest : Type :=
| StatDevice (path : string)
| LookupImage (name : string)
| CreateContainerStorage (image name id : string)
| DeleteStorage (id : string)
| CreateInPlugin (plugin name : string)
| RemoveFromPlugin (plugin name : string)
| MountInPlugin (plugin name : string)
| UnmountInPlugin (plugin name : string)
| MountStorage (id : string)
| UnmountStorage (id : string) (force : bool)
| MkdirAll (path : string)
| SafeChown (path : string) (uid gid : Z)
| LabelVolumePath (path : string)
| SetQuota (path : string) (size inodes : Z)
| RunMount (args : list string)
| RemoveAll (path : string)
| SizeOfPath (path : string).

#[export] Instance volRequest_eq_dec : EqDecision volRequest.
Proof. solve_decision. Defined.

(** The outcomes of [detachUnmount]; [NotMounted] is [EINVAL]. *)
Inductive unmountResult : Type := Unmounted | NotMounted | UnmountFailed.

(** [vh_request] returns the ID of an image, a mount point or a size where the request asks for one.
    [vh_getVolume]: the volume as the plugin knows it, if the answer has one *)
Class VolumeHost (H : Type) : Type := {
  vh_request : volRequest → H → result error string * H;
  vh_detachUnmount : string → H → unmountResult * H;
  vh_getVolume : string → string → H → result error bool * H;
  vh_quotaSupported : H → bool * H;
  vh_randomID : H → string * H;
  vh_now : H → Z * H;
  vh_order : gmap string string → list (string * string);
  vh_plugins : list string;
  vh_openPlugin : string → H → result error string * H;
  vh_listVolumes : string → H → result error (list string) * H }.

Record VWorld (L H : Type) : Type := mkVWorld {
  v_locks : L;
  v_db : World;
  v_host : H;
  v_vol : Define.Volume }.
Arguments mkVWorld {L H}. Arguments v_locks {L H}. Arguments v_db {L H}. Arguments v_host {L H}. Arguments v_vol {L H}.

(** ** Assignments *)

Definition vc_set_Name (v : string) (r : VolumeConfig) : VolumeConfig :=
  mkVolumeConfig v (vc_LockID r) (vc_Driver r) (vc_MountPoint r) (vc_CreatedTime r) (vc_Options r) (vc_IsAnon r) (vc_UID r) (vc_GID r) (vc_Size r) (vc_Inodes r) (vc_DisableQuota r) (vc_StorageName r) (vc_StorageID r) (vc_StorageImageID r) (vc_other r).
Definition vc_set_Driver (v : string) (r : VolumeConfig) : VolumeConfig :=
  mkVolumeConfig (vc_Name r) (vc_LockID r) v (vc_MountPoint r) (vc_CreatedTime r) (vc_Options r) (vc_IsAnon r) (vc_UID r) (vc_GID r) (vc_Size r) (vc_Inodes r) (vc_DisableQuota r) (vc_StorageName r) (vc_StorageID r) (vc_StorageImageID r) (vc_other r).
Definition vc_set_MountPoint (v : string) (r : VolumeConfig) : VolumeConfig :=
  mkVolumeConfig (vc_Name r) (vc_LockID r) (vc_Driver r) v (vc_CreatedTime r) (vc_Options r) (vc_IsAnon r) (vc_UID r) (vc_GID r) (vc_Size r) (vc_Inodes r) (vc_DisableQuota r) (vc_StorageName r) (vc_StorageID r) (vc_StorageImageID r) (vc_other r).
Definition vc_set_CreatedTime (v : Z) (r : VolumeConfig) : VolumeConfig :=
  mkVolumeConfig (vc_Name r) (vc_LockID r) (vc_Driver r) (vc_MountPoint r) v (vc_Options r) (vc_IsAnon r) (vc_UID r) (vc_GID r) (vc_Size r) (vc_Inodes r) (vc_DisableQuota r) (vc_StorageName r) (vc_StorageID r) (vc_StorageImageID r) (vc_other r).
Definition vc_set_Lock (v : Z) (r : VolumeConfig) : VolumeConfig :=
  mkVolumeConfig (vc_Name r) v (vc_Driver r) (vc_MountPoint r) (vc_CreatedTime r) (vc_Options r) (vc_IsAnon r) (vc_UID r) (vc_GID r) (vc_Size r) (vc_Inodes r) (vc_DisableQuota r) (vc_StorageName r) (vc_StorageID r) (vc_StorageImageID r) (vc_other r).
Definition vc_set_Storage (name id image : string) (r : VolumeConfig) : VolumeConfig :=
  mkVolumeConfig (vc_Name r) (vc_LockID r) (vc_Driver r) (vc_MountPoint r) (vc_CreatedTime r) (vc_Options r) (vc_IsAnon r) (vc_UID r) (vc_GID r) (vc_Size r) (vc_Inodes r) (vc_DisableQuota r) name id image (vc_other r).
Definition vc_set_Options (v : gmap string string) (r : VolumeConfig) : VolumeConfig :=
  mkVolumeConfig (vc_Name r) (vc_LockID r) (vc_Driver r) (vc_MountPoint r) (vc_CreatedTime r) v (vc_IsAnon r) (vc_UID r) (vc_GID r) (vc_Size r) (vc_Inodes r) (vc_DisableQuota r) (vc_StorageName r) (vc_StorageID r) (vc_StorageImageID r) (vc_other r).
Definition vc_set_UID (v : Z) (r : VolumeConfig) : VolumeConfig :=
  mkVolumeConfig (vc_Name r) (vc_LockID r) (vc_Driver r) (vc_MountPoint r) (vc_CreatedTime r) (vc_Options r) (vc_IsAnon r) v (vc_GID r) (vc_Size r) (vc_Inodes r) (vc_DisableQuota r) (vc_StorageName r) (vc_StorageID r) (vc_StorageImageID r) (vc_other r).
Definition vc_set_GID (v : Z) (r : VolumeConfig) : VolumeConfig :=
  mkVolumeConfig (vc_Name r) (vc_LockID r) (vc_Driver r) (vc_MountPoint r) (vc_CreatedTime r) (vc_Options r) (vc_IsAnon r) (vc_UID r) v (vc_Size r) (vc_Inodes r) (vc_DisableQuota r) (vc_StorageName r) (vc_StorageID r) (vc_StorageImageID r) (vc_other r).
Definition vc_set_Size (v : Z) (r : VolumeConfig) : VolumeConfig :=
  mkVolumeConfig (vc_Name r) (vc_LockID r) (vc_Driver r) (vc_MountPoint r) (vc_CreatedTime r) (vc_Options r) (vc_IsAnon r) (vc_UID r) (vc_GID r) v (vc_Inodes r) (vc_DisableQuota r) (vc_StorageName r) (vc_StorageID r) (vc_StorageImageID r) (vc_other r).
Definition vc_set_Inodes (v : Z) (r : VolumeConfig) : VolumeConfig :=
  mkVolumeConfig (vc_Name r) (vc_LockID r) (vc_Driver r) (vc_MountPoint r) (vc_CreatedTime r) (vc_Options r) (vc_IsAnon r) (vc_UID r) (vc_GID r) (vc_Size r) v (vc_DisableQuota r) (vc_StorageName r) (vc_StorageID r) (vc_StorageImageID r) (vc_other r).
Definition vc_set_IsAnon (r : VolumeConfig) : VolumeConfig :=
  mkVolumeConfig (vc_Name r) (vc_LockID r) (vc_Driver r) (vc_MountPoint r) (vc_CreatedTime r) (vc_Options r) true (vc_UID r) (vc_GID r) (vc_Size r) (vc_Inodes r) (vc_DisableQuota r) (vc_StorageName r) (vc_StorageID r) (vc_StorageImageID r) (vc_other r).
Definition vc_set_DisableQuota (r : VolumeConfig) : VolumeConfig :=
  mkVolumeConfig (vc_Name r) (vc_LockID r) (vc_Driver r) (vc_MountPoint r) (vc_CreatedTime r) (vc_Options r) (vc_IsAnon r) (vc_UID r) (vc_GID r) (vc_Size r) (vc_Inodes r) true (vc_StorageName r) (vc_StorageID r) (vc_StorageImageID r) (vc_other r).

Definition vs_set_MountCount (n : Z) (r : VolumeState) : VolumeState :=
  mkVolumeState (vs_MountPoint r) n (vs_NeedsCopyUp r) (vs_NeedsChown r) (vs_UIDChowned r) (vs_GIDChowned r).
Definition vs_set_MountPoint (p : string) (r : VolumeState) : VolumeState :=
  mkVolumeState p (vs_MountCount r) (vs_NeedsCopyUp r) (vs_NeedsChown r) (vs_UIDChowned r) (vs_GIDChowned r).

Definition vs_set_NeedsChown (b : bool) (r : VolumeState) : VolumeState :=
  mkVolumeState (vs_MountPoint r) (vs_MountCount r) (vs_NeedsCopyUp r) b (vs_UIDChowned r) (vs_GIDChowned r).

Definition vol_set_config (f : VolumeConfig → VolumeConfig) (v : Define.Volume) : Define.Volume :=
  mkVolume (f (vol_config v)) (vol_state v) (vol_valid v) (vol_plugin v) (vol_lock v).
Definition vol_set_state (s : VolumeState) (v : Define.Volume) : Define.Volume :=
  mkVolume (vol_config v) (Some s) (vol_valid v) (vol_plugin v) (vol_lock v).
Definition vol_set_valid (b : bool) (v : Define.Volume) : Define.Volume :=
  mkVolume (vol_config v) (vol_state v) b (vol_plugin v) (vol_lock v).

(** The counter is a [uint]. *)
Definition uint64 (n : Z) : Z := (n mod 2 ^ 64)%Z.

(** ** Options of a new volume

    An option changes the volume, or its flag [ignoreIfExists], or fails. *)

Abbreviation VolumeCreateOption := (Define.Volume * bool → result error (Define.Volume * bool)).

Definition newVolume : Define.Volume := mkVolume newVolumeConfig (Some (mkVolumeState "" 0 true true 0 0)) false None None.

Definition setOption (f : Define.Volume → Define.Volume) : VolumeCreateOption := λ '(v, ignoreIfExists),
  if vol_valid v then Err ErrVolumeFinalized else Ok (f v, ignoreIfExists).

Definition isNameStart (c : ascii) : bool :=
  let n := nat_of_ascii c in
  bool_decide (48 ≤ n ≤ 57 ∨ 65 ≤ n ≤ 90 ∨ 97 ≤ n ≤ 122).
Definition isNameChar (c : ascii) : bool := isNameStart c || bool_decide (c = "_"%char ∨ c = "."%char ∨ c = "-"%char).
Definition NameRegex (s : string) : bool :=
  match String.list_ascii_of_string s with [] => false | c :: l => isNameStart c && forallb isNameChar l end.

Definition WithVolumeIgnoreIfExist : VolumeCreateOption := λ '(v, _), if vol_valid v then Err ErrVolumeFinalized else Ok (v, true).
Definition WithVolumeName (name : string) : VolumeCreateOption := λ '(v, ignoreIfExists),
  if vol_valid v then Err ErrVolumeFinalized
  else if NameRegex name then Ok (vol_set_config (vc_set_Name name) v, ignoreIfExists) else Err ErrInvalidArg.
Definition WithVolumeDriver (driver : string) : VolumeCreateOption := setOption (vol_set_config (vc_set_Driver driver)).
Definition WithVolumeOptions (options : gmap string string) : VolumeCreateOption := setOption (vol_set_config (vc_set_Options options)).
Definition WithVolumeUID (uid : Z) : VolumeCreateOption := setOption (vol_set_config (vc_set_UID uid)).
Definition WithVolumeGID (gid : Z) : VolumeCreateOption := setOption (vol_set_config (vc_set_GID gid)).
Definition WithVolumeSize (size : Z) : VolumeCreateOption := setOption (vol_set_config (vc_set_Size size)).
Definition WithVolumeInodes (inodes : Z) : VolumeCreateOption := setOption (vol_set_config (vc_set_Inodes inodes)).
Definition WithVolumeNoChown : VolumeCreateOption :=
  setOption (λ v, match vol_state v with Some s => vol_set_state (vs_set_NeedsChown false s) v | None => v end).
Definition WithVolumeDisableQuota : VolumeCreateOption := setOption (vol_set_config vc_set_DisableQuota).
Definition withSetAnon : VolumeCreateOption := setOption (vol_set_config vc_set_IsAnon).

Fixpoint applyOptions (options : list VolumeCreateOption) (c : Define.Volume * bool) : result error (Define.Volume * bool) :=
  match options with
  | [] => Ok c
  | option :: options => match option c with Ok c => applyOptions options c | Err e => Err e end
  end.

Section volumes.
Context `{Runtime} {L : Type} `{Manager L} {X : Type} `{VolumeHost X}.

Abbreviation V := (ST error (VWorld L X)).

Definition withLocks {A} (m : LM L A) : V A := λ w,
  match m (v_locks w) with
  | (Ok a, l) => (Ok a, mkVWorld l (v_db w) (v_host w) (v_vol w))
  | (Err _, l) => (Err ErrLock, mkVWorld l (v_db w) (v_host w) (v_vol w))
  end.

Definition withState {A} (m : M A) : V A := λ w,
  let '(r, db) := m (v_db w) in (r, mkVWorld (v_locks w) db (v_host w) (v_vol w)).

Definition withHost {A} (m : X → A * X) : V A := λ w,
  let '(a, h) := m (v_host w) in (Ok a, mkVWorld (v_locks w) (v_db w) h (v_vol w)).

Definition tryHost {A} (m : X → result error A * X) : V A := λ w,
  let '(r, h) := m (v_host w) in (r, mkVWorld (v_locks w) (v_db w) h (v_vol w)).

Definition request (q : volRequest) : V string := tryHost (vh_request q).
Definition request_ (q : volRequest) : V () := _ ← request q; mret ().

Definition onVol (f : Define.Volume → Define.Volume) : V () := modify (λ w, mkVWorld (v_locks w) (v_db w) (v_host w) (f (v_vol w))).
Definition onConfig (f : VolumeConfig → VolumeConfig) : V () :=
  onVol (vol_set_config f).
Definition getConfig {A} (f : VolumeConfig → A) : V A := gets (λ w, f (vol_config (v_vol w))).

(** The deferred functions that only act on an error; their own errors are logged. *)
Definition onFailure {A} (m : V A) (cleanup : V ()) : V A := λ w,
  match m w with
  | (Ok a, w') => (Ok a, w')
  | (Err e, w') => (Err e, (cleanup w').2)
  end.

(** [v.lock.Lock()] and [defer v.lock.Unlock()] *)
Definition holding {A} (id : Z) (m : V A) : V A := λ w,
  match withLocks (Lock id) w with
  | (Err _, w1) => (Err Panic, w1)
  | (Ok _, w1) =>
      let '(r, w2) := m w1 in
      match withLocks (Unlock id) w2 with (Ok _, w3) => (r, w3) | (Err _, w3) => (Err Panic, w3) end
  end.

Definition withLock {A} (m : V A) : V A :=
  l ← gets (λ w, vol_lock (v_vol w));
  match l with None => throw Panic | Some id => holding id m end.

Definition caught {A} (m : V A) : V (result error A) := λ w, let '(r, w') := m w in (Ok r, w').

(** ** Loading and saving *)

Definition vol_update : V () := λ w,
  match UpdateVolume (v_vol w) (v_db w) with
  | (Ok st, db) => (if vol_valid (v_vol w) then Ok () else Err ErrVolumeRemoved, mkVWorld (v_locks w) db (v_host w) (vol_set_state st (v_vol w)))
  | (Err e, db) => (Err e, mkVWorld (v_locks w) db (v_host w) (if decide (e = ErrNoSuchVolume) then vol_set_valid false (v_vol w) else v_vol w))
  end.

Definition vol_save : V () := λ w,
  match SaveVolume (v_vol w) (v_db w) with
  | (Ok _, db) => (Ok (), mkVWorld (v_locks w) db (v_host w) (v_vol w))
  | (Err e, db) => (Err e, mkVWorld (v_locks w) db (v_host w) (if decide (e = ErrNoSuchVolume) then vol_set_valid false (v_vol w) else v_vol w))
  end.

Definition vol_refresh : V () :=
  id ← getConfig vc_LockID;
  lock ← withLocks (AllocateAndRetrieveLock id);
  onVol (λ v, mkVolume (vol_config v) (vol_state v) (vol_valid v) (vol_plugin v) (Some lock)).

(** ** Mounting *)

(** Options that do not need a mount are counted; one more is the option [o]. *)
Definition needsMount (config : VolumeConfig) : bool :=
  if UsesVolumeDriver config then true
  else if decide (vc_Driver config = "image") then true
  else
    let has k := bool_decide (is_Some (vc_Options config !! k)) in
    let index := length (filter (λ k, has k = true) ["UID"; "GID"; "SIZE"; "NOQUOTA"; "nocopy"; "copy"]) in
    let index := if decide (0 < index) then S index else index in
    bool_decide (index < size (vc_Options config)).

Definition option_ (config : VolumeConfig) (k : string) : string := default "" (vc_Options config !! k).

Definition mountArgs (config : VolumeConfig) : list string :=
  let volType := option_ config "type" in
  let volDevice := if decide (option_ config "device" = "" ∧ volType ≠ "") then volType else option_ config "device" in
  let volOptions := option_ config "o" in
  (if decide (volOptions ≠ "") then ["-o"; volOptions] else []) ++
  (if decide (volType = "") then [] else if decide (volType = "bind") then ["-o"; volType] else ["-t"; volType]) ++
  [volDevice; vc_MountPoint config].

Definition mountCount : V Z := gets (λ w, match vol_state (v_vol w) with Some s => vs_MountCount s | None => 0%Z end).
Definition onVolState (f : VolumeState → VolumeState) : V () :=
  onVol (λ v, match vol_state v with Some s => vol_set_state (f s) v | None => v end).
Definition setCount (n : Z) : V () := onVolState (vs_set_MountCount (uint64 n)).

(** The part of [mount] that mounts *)
Definition reallyMount (config : VolumeConfig) (plugin : option string) (count : Z) : V () :=
  if UsesVolumeDriver config then
    match plugin with
    | None => throw ErrMissingPlugin
    | Some p =>
        mountPoint ← request (MountInPlugin p (vc_Name config));
        _ ← setCount (count + 1);
        _ ← onVolState (vs_set_MountPoint mountPoint);
        vol_save
    end
  else if decide (vc_Driver config = "image") then
    mountPoint ← request (MountStorage (vc_StorageID config));
    _ ← setCount (count + 1);
    _ ← onVolState (vs_set_MountPoint mountPoint);
    vol_save
  else
    _ ← request_ (RunMount (mountArgs config));
    _ ← setCount (count + 1);
    vol_save.

Definition vol_mount : V () :=
  config ← getConfig id;
  if negb (needsMount config) then mret ()
  else
    _ ← vol_update;
    count ← mountCount;
    if decide (0 < count)%Z then _ ← setCount (count + 1); vol_save
    else
      plugin ← gets (λ w, vol_plugin (v_vol w));
      reallyMount config plugin count.

(** The part of [unmount] that unmounts *)
Definition reallyUnmount (config : VolumeConfig) (plugin : option string) (force : bool) : V () :=
  if UsesVolumeDriver config then
    match plugin with
    | None => throw ErrMissingPlugin
    | Some p =>
        _ ← request_ (UnmountInPlugin p (vc_Name config));
        _ ← onVolState (vs_set_MountPoint "");
        vol_save
    end
  else if decide (vc_Driver config = "image") then
    _ ← request_ (UnmountStorage (vc_StorageID config) force);
    _ ← onVolState (vs_set_MountPoint "");
    vol_save
  else
    r ← withHost (vh_detachUnmount (vc_MountPoint config));
    match r with
    | NotMounted => mret ()
    | UnmountFailed => throw ErrHost
    | Unmounted => vol_save
    end.

Definition vol_unmount (force : bool) : V () :=
  config ← getConfig id;
  if negb (needsMount config) then mret ()
  else
    _ ← vol_update;
    count ← mountCount;
    if decide (count = 0)%Z then mret ()
    else
      let count := if force then 0%Z else (count - 1)%Z in
      _ ← setCount count;
      if decide (uint64 count = 0)%Z then
        plugin ← gets (λ w, vol_plugin (v_vol w));
        reallyUnmount config plugin force
      else vol_save.

(** The exported functions of a volume; [Mount] returns the path even with an error. *)
Definition vol_Mount : V string := withLock (_ ← vol_mount; getConfig vc_MountPoint).
Definition vol_Unmount : V () := withLock (vol_unmount false).

Definition mountPoint (v : Define.Volume) : string :=
  if UsesVolumeDriver (vol_config v) || bool_decide (vc_Driver (vol_config v) = "image") then
    match vol_state v with Some s => vs_MountPoint s | None => "" end
  else vc_MountPoint (vol_config v).

Definition vol_MountPoint : V string :=
  config ← getConfig id;
  if UsesVolumeDriver config then withLock (_ ← vol_update; gets (λ w, mountPoint (v_vol w)))
  else gets (λ w, mountPoint (v_vol w)).

Definition vol_MountCount : V Z := withLock (_ ← vol_update; mountCount).

Definition chowned (owner : VolumeState → Z) (owner' : VolumeConfig → Z) (v : Define.Volume) : Z :=
  match vol_state v with
  | Some s => if decide (0 < owner s)%Z then owner s else owner' (vol_config v)
  | None => owner' (vol_config v)
  end.
Definition vol_uid : Define.Volume → Z := chowned vs_UIDChowned vc_UID.
Definition vol_gid : Define.Volume → Z := chowned vs_GIDChowned vc_GID.
Definition vol_UID : V Z := withLock (_ ← vol_update; gets (λ w, vol_uid (v_vol w))).
Definition vol_GID : V Z := withLock (_ ← vol_update; gets (λ w, vol_gid (v_vol w))).

Definition vol_VolumeInUse : V (list string) :=
  withLock (v ← gets v_vol; _ ← failIf (negb (vol_valid v)) ErrVolumeRemoved; withState (VolumeInUse v)).
Definition IsDangling : V bool := ctrs ← vol_VolumeInUse; mret (bool_decide (ctrs = [])).

(** ** Creating *)

Definition getVolumePlugin (config : VolumeConfig) : result error (option string) :=
  if UsesVolumeDriver config then match rt_getVolumePlugin config with Ok p => Ok (Some p) | Err e => Err e end else Ok None.

(** The keys of the options of the driver [local] *)
Definition localKeys : list string := ["o"; "type"; "uid"; "gid"; "size"; "inodes"; "noquota"; "copy"; "nocopy"].

Fixpoint checkLocalOptions (isBind : bool) (l : list (string * string)) : V () :=
  match l with
  | [] => mret ()
  | (key, val) :: l =>
      let key := ToLower key in
      _ ← (if decide (key = "device") then if isBind then request_ (StatDevice val) else mret ()
           else if decide (key ∈ localKeys) then mret ()
           else throw ErrInvalidArg);
      checkLocalOptions isBind l
  end.

Fixpoint imageOption (imgString : string) (l : list (string * string)) : result error string :=
  match l with
  | [] => Ok imgString
  | (key, val) :: l => if decide (ToLower key = "image") then imageOption val l else Err ErrInvalidArg
  end.

Definition volumeSuffix : string := "+volume".

(** The backing container of an image volume *)
Definition createImageStorage (config : VolumeConfig) : V () :=
  imgString ← lift (imageOption "" (vh_order (vc_Options config)));
  _ ← when (imgString = "") ErrInvalidArg;
  image ← request (LookupImage imgString);
  id ← withHost vh_randomID;
  let name := String.append (vc_Name config) volumeSuffix in
  _ ← onConfig (vc_set_Storage name id image);
  request_ (CreateContainerStorage image name id).

Definition makeVolumeInPluginIfNotExist (name plugin : string) : V () :=
  r ← caught (tryHost (vh_getVolume plugin name));
  match r with
  | Ok true => mret ()
  | _ => request_ (CreateInPlugin plugin name)
  end.

(** [filepath.Join] of a clean path and a name *)
Definition joinPath (a b : string) : string := String.append a (String.append "/" b).

Definition setQuota (config : VolumeConfig) (fullVolPath : string) : V () :=
  let limited := bool_decide (0 < vc_Size config ∨ 0 < vc_Inodes config)%Z in
  if vc_DisableQuota config then if limited then throw ErrText else mret ()
  else
    supported ← withHost vh_quotaSupported;
    _ ← failIf (limited && negb supported) ErrText;
    if supported : bool then request_ (SetQuota fullVolPath (if limited then vc_Size config else 0) (if limited then vc_Inodes config else 0))
    else mret ().

Definition makeMountPoint (config : VolumeConfig) : V () :=
  let volPathRoot := joinPath rt_VolumePath (vc_Name config) in
  let fullVolPath := joinPath volPathRoot "_data" in
  _ ← request_ (MkdirAll volPathRoot);
  _ ← request_ (SafeChown volPathRoot (vc_UID config) (vc_GID config));
  _ ← request_ (MkdirAll fullVolPath);
  _ ← request_ (SafeChown fullVolPath (vc_UID config) (vc_GID config));
  _ ← request_ (LabelVolumePath fullVolPath);
  _ ← setQuota config fullVolPath;
  onConfig (vc_set_MountPoint fullVolPath).

(** The name, the driver and the time of a new volume *)
Definition fillConfig (config : VolumeConfig) : V VolumeConfig :=
  name ← (if decide (vc_Name config = "") then withHost vh_randomID else mret (vc_Name config));
  now ← withHost vh_now;
  mret (vc_set_CreatedTime now (vc_set_Driver (if decide (vc_Driver config = "") then "local" else vc_Driver config) (vc_set_Name name config))).

(** [r.state.AddVolume]; an existing volume is returned instead where that is asked for. *)
Definition addOrReturn (ignoreIfExists : bool) : V Define.Volume :=
  volume ← gets v_vol;
  r ← caught (withState (AddVolume volume));
  match r with
  | Ok _ => mret volume
  | Err e =>
      if decide (ignoreIfExists = true ∧ e = ErrVolumeExists) then withState (BoltState.Volume (vol_Name volume))
      else throw e
  end.

(** From the allocation of the lock on *)
Definition lockAndAdd (ignoreIfExists : bool) : V Define.Volume :=
  lock ← withLocks AllocateLock;
  onFailure (
    _ ← onVol (λ v, mkVolume (vc_set_Lock lock (vol_config v)) (vol_state v) true (vol_plugin v) (Some lock));
    addOrReturn ignoreIfExists) (withLocks (Free lock)).

(** From the making of the volume on *)
Definition makeAndAdd (noCreatePluginVolume ignoreIfExists : bool) (plugin : option string) : V Define.Volume :=
  config ← getConfig id;
  _ ← match plugin with
      | Some p => if noCreatePluginVolume then makeMountPoint config else makeVolumeInPluginIfNotExist (vc_Name config) p
      | None => makeMountPoint config
      end;
  lockAndAdd ignoreIfExists.

Definition rt_newVolume (noCreatePluginVolume : bool) (options : list VolumeCreateOption) : V Define.Volume :=
  c ← lift (applyOptions options (newVolume, false));
  config ← fillConfig (vol_config c.1);
  let ignoreIfExists : bool := c.2 in
  exists_ ← (if ignoreIfExists then mret false else withState (HasVolume (vc_Name config)));
  _ ← failIf exists_ ErrVolumeExists;
  plugin ← lift (getVolumePlugin config);
  _ ← onVol (λ _, mkVolume config (vol_state c.1) false plugin None);
  if decide (vc_Driver config = "local") then
    _ ← checkLocalOptions (bool_decide (ToLower (option_ config "type") = "bind")) (vh_order (vc_Options config));
    makeAndAdd noCreatePluginVolume ignoreIfExists plugin
  else if decide (vc_Driver config = "image" ∧ UsesVolumeDriver config = false) then
    _ ← createImageStorage config;
    onFailure (makeAndAdd noCreatePluginVolume ignoreIfExists plugin) (id ← getConfig vc_StorageID; request_ (DeleteStorage id))
  else makeAndAdd noCreatePluginVolume ignoreIfExists plugin.

(** [rtValid]: the runtime is not shut down. *)
Definition NewVolume (rtValid : bool) (options : list VolumeCreateOption) : V Define.Volume :=
  _ ← failIf (negb rtValid) ErrRuntimeStopped;
  rt_newVolume false options.

(** ** Removing *)

(** [Runtime.removeContainer] with the flag [force] and the timeout *)
Context (removeContainer : Define.Container → bool → option Z → V ()).

Fixpoint removeUsers (force : bool) (timeout : option Z) (deps : list string) : V () :=
  match deps with
  | [] => mret ()
  | dep :: deps =>
      r ← caught (withState (BoltState.Container dep));
      _ ← match r with
          | Ok ctr => removeContainer ctr force timeout
          | Err e => if decide (e = ErrNoSuchCtr ∨ e = ErrCtrRemoved) then mret () else throw e
          end;
      removeUsers force timeout deps
  end.

(** The first part of [removeVolume] that is returned as [removalErr] or stops the removal *)
Definition removeBacking (ignoreVolumePlugin : bool) : V (option error) :=
  v ← gets v_vol;
  let config := vol_config v in
  if UsesVolumeDriver config && negb ignoreVolumePlugin then
    match vol_plugin v with
    | None => mret (Some ErrMissingPlugin)
    | Some p =>
        r ← caught (tryHost (vh_getVolume p (vc_Name config)));
        match r with
        | Err e => mret (Some e)
        | Ok _ => _ ← request_ (RemoveFromPlugin p (vc_Name config)); mret None
        end
    end
  else if decide (vc_Driver config = "image") then
    r ← caught (request_ (DeleteStorage (vc_StorageID config)));
    match r with
    | Ok _ => mret None
    | Err e => if decide (e = ErrNotAContainer ∨ e = ErrContainerUnknown) then mret None else throw e
    end
  else mret None.

Definition vol_teardownStorage : V () :=
  config ← getConfig id;
  if UsesVolumeDriver config then mret () else request_ (RemoveAll (joinPath rt_VolumePath (vc_Name config))).

Definition first (a b : option error) : option error := match a with Some e => Some e | None => b end.
Definition errorOf {A} (r : result error A) : option error := match r with Ok _ => None | Err e => Some e end.

(** From the removal from the state on *)
Definition removeFromState (lock : Z) (removalErr : option error) : V () :=
  v ← gets v_vol;
  _ ← withState (RemoveVolume v);
  r ← caught (withLocks (Free lock));
  let removalErr := first removalErr (errorOf r) in
  r ← caught vol_teardownStorage;
  match first removalErr (errorOf r) with None => mret () | Some e => throw e end.

Definition vol_remove (force : bool) (timeout : option Z) (ignoreVolumePlugin : bool) (lock : Z) : V () :=
  _ ← vol_update;
  v ← gets v_vol;
  deps ← withState (VolumeInUse v);
  _ ← (if decide (deps = []) then mret () else if force then removeUsers force timeout deps else throw ErrVolumeBeingUsed);
  r ← caught (vol_unmount true);
  _ ← match r with Ok _ => mret () | Err e => if force then mret () else throw e end;
  _ ← onVol (vol_set_valid false);
  removalErr ← removeBacking ignoreVolumePlugin;
  removeFromState lock removalErr.

Definition rt_removeVolume (force : bool) (timeout : option Z) (ignoreVolumePlugin : bool) : V () :=
  v ← gets v_vol;
  if negb (vol_valid v) then
    r ← caught (withState (HasVolume (vol_Name v)));
    match r with Ok true => throw ErrVolumeRemoved | _ => mret () end
  else
    match vol_lock v with
    | None => throw Panic
    | Some lock => holding lock (vol_remove force timeout ignoreVolumePlugin lock)
    end.

(** ** The exported functions of the runtime *)

Definition rt_RemoveVolume (rtValid force : bool) (timeout : option Z) : V () :=
  _ ← failIf (negb rtValid) ErrRuntimeStopped;
  v ← gets v_vol;
  r ← (if vol_valid v then mret (Ok true) else caught (withState (HasVolume (vol_Name v))));
  match r with Ok true => rt_removeVolume force timeout false | _ => mret () end.

Abbreviation VolumeFilter := (Define.Volume → V bool).

Fixpoint includes (filters : list VolumeFilter) (vol : Define.Volume) : V bool :=
  match filters with
  | [] => mret false
  | f :: filters => b ← f vol; if b : bool then mret true else includes filters vol
  end.

Definition rt_Volumes (rtValid : bool) (filters : list VolumeFilter) : V (list Define.Volume) :=
  _ ← failIf (negb rtValid) ErrRuntimeStopped;
  vols ← withState AllVolumes;
  match filters with
  | [] => mret vols
  | _ => foldM (λ acc vol, include ← includes filters vol; mret (if include : bool then acc ++ [vol] else acc)) [] vols
  end.

Record PruneReport : Type := mkPruneReport { pr_Id : string; pr_Err : option error; pr_Size : string }.

Definition pruneVolume (rtValid : bool) (preports : list PruneReport) (vol : Define.Volume) : V (list PruneReport) :=
  _ ← onVol (λ _, vol);
  r ← caught (request (SizeOfPath (vc_MountPoint (vol_config vol))));
  let volSize := match r with Ok n => n | Err _ => "0" end in
  r ← caught (rt_RemoveVolume rtValid false None);
  mret match r with
       | Ok _ => preports ++ [mkPruneReport (vol_Name vol) None volSize]
       | Err e => if decide (e ≠ ErrVolumeBeingUsed ∧ e ≠ ErrVolumeRemoved) then preports ++ [mkPruneReport (vol_Name vol) (Some e) volSize] else preports
       end.

Definition PruneVolumes (rtValid : bool) (filters : list VolumeFilter) : V (list PruneReport) :=
  vols ← rt_Volumes rtValid filters;
  foldM (pruneVolume rtValid) [] vols.

(** ** Synchronising with the plugins *)

Record reload : Type := mkReload { rl_Added : list string; rl_Removed : list string; rl_Errors : list error }.
Definition addErr (e : error) (r : reload) : reload := mkReload (rl_Added r) (rl_Removed r) (rl_Errors r ++ [e]).

Definition importVolume (driverName : string) (acc : reload) (name : string) : V reload :=
  r ← caught (rt_newVolume true [WithVolumeName name; WithVolumeDriver driverName]);
  mret match r with
       | Ok _ => mkReload (rl_Added acc ++ [name]) (rl_Removed acc) (rl_Errors acc)
       | Err e => if decide (e = ErrVolumeExists) then acc else addErr e acc
       end.

Definition importPlugin (acc : list string * reload) (driverName : string) : V (list string * reload) :=
  r ← caught (tryHost (vh_openPlugin driverName));
  match r with
  | Err e => mret (acc.1, addErr e acc.2)
  | Ok driver =>
      r ← caught (tryHost (vh_listVolumes driver));
      match r with
      | Err e => mret (acc.1, addErr e acc.2)
      | Ok vols => rl ← foldM (importVolume driverName) acc.2 vols; mret (acc.1 ++ vols, rl)
      end
  end.

Definition dropVolume (allPluginVolumes : list string) (acc : reload) (vol : Define.Volume) : V reload :=
  if decide (UsesVolumeDriver (vol_config vol) = true ∧ vol_Name vol ∉ allPluginVolumes) then
    _ ← onVol (λ _, vol);
    r ← caught (rt_removeVolume false None true);
    mret match r with
         | Ok _ => mkReload (rl_Added acc) (rl_Removed acc ++ [vol_Name vol]) (rl_Errors acc)
         | Err e => if decide (e = ErrNoSuchVolume ∨ e = ErrVolumeRemoved ∨ e = ErrMissingPlugin) then acc else addErr e acc
         end
  else mret acc.

Definition UpdateVolumePlugins : V reload :=
  p ← foldM importPlugin ([], mkReload [] [] []) vh_plugins;
  r ← caught (withState AllVolumes);
  match r with
  | Err e => mret (addErr e p.2)
  | Ok libpodVolumes => foldM (dropVolume p.1) p.2 libpodVolumes
  end.
End volumes.
