(* ===== verification/VolumeSpec.v ===== *)
(** * VolumeSpec: what the functions of volumes do

    Effects on the database, the locks and the host, on every branch: creating, mounting and
    removing, and the counter of mounts over any history of calls. *)

From S2P Require Import Locks.
From S2P Require Import Prelude Define Bolt BoltTx Strconv BoltInternal BoltState BoltInv BoltSafe BoltAdd BoltPods BoltVols BoltOps PropsPods Volumes.

(** ** Effects on the state and on the locks *)

Section effects.
Context `{Runtime} {L : Type} `{Manager L} {X : Type} `{VolumeHost X}.
Abbreviation V := (ST error (VWorld L X)).

(** [m] changes neither the content of the database nor the locks. *)
Definition frame {A} (m : V A) : Prop := ∀ w r w', m w = (r, w') → w_db (v_db w') = w_db (v_db w) ∧ v_locks w' = v_locks w.

Lemma frame_bind {A B} (m : V A) (f : A → V B) : frame m → (∀ a, frame (f a)) → frame (m ≫= f).
Proof.
  intros Hm Hf w r w'. unfold mbind, st_bind. destruct (m w) as [[a|e] w1] eqn:E; apply Hm in E as [E1 E2].
  - intros [E3 E4]%Hf. split; congruence.
  - by intros [= <- <-].
Qed.
Lemma frame_ret {A} (a : A) : frame (mret a).
Proof. by intros w r w' [= <- <-]. Qed.
Lemma frame_throw {A} e : frame (throw e : V A).
Proof. by intros w r w' [= <- <-]. Qed.
Lemma frame_gets {A} (f : VWorld L X → A) : frame (gets f).
Proof. by intros w r w' [= <- <-]. Qed.
Lemma frame_lift {A} (x : result error A) : frame (lift x : V A).
Proof. by intros w r w' [= <- <-]. Qed.
Lemma frame_failIf b e : frame (failIf b e : V ()).
Proof. destruct b; by intros w r w' [= <- <-]. Qed.
Lemma frame_tryHost {A} (m : X → result error A * X) : frame (tryHost m).
Proof. intros w r w'. unfold tryHost. destruct (m _). by intros [= <- <-]. Qed.
Lemma frame_withHost {A} (m : X → A * X) : frame (withHost m).
Proof. intros w r w'. unfold withHost. destruct (m _). by intros [= <- <-]. Qed.
Lemma frame_onVol f : frame (onVol f).
Proof. by intros w r w' [= <- <-]. Qed.
Lemma frame_caught {A} (m : V A) : frame m → frame (caught m).
Proof. intros Hm w r w'. unfold caught. destruct (m w) eqn:E. intros [= <- <-]. by apply Hm in E. Qed.
Lemma frame_withState {A} (m : M A) : readonly m → frame (withState m).
Proof. intros Hm w r w'. unfold withState. destruct (m (v_db w)) as [x db] eqn:E. intros [= <- <-]. simpl. by apply Hm in E. Qed.
Lemma frame_onFailure {A} (m : V A) c : frame m → frame c → frame (onFailure m c).
Proof.
  intros Hm Hc w r w'. unfold onFailure. destruct (m w) as [[a|e] w1] eqn:E; apply Hm in E as [E1 E2]; intros [= <- <-]; [done|].
  destruct (c w1) as [rc w2] eqn:Ec. apply Hc in Ec as [E3 E4]. simpl. split; congruence.
Qed.
End effects.

#[export] Hint Resolve frame_ret frame_throw frame_gets frame_lift frame_failIf frame_tryHost frame_withHost frame_onVol frame_caught frame_withState frame_onFailure : libpod.
#[export] Hint Extern 1 (frame (_ ≫= _)) => apply frame_bind; [|intros ?] : libpod.
#[export] Hint Extern 1 (frame (if ?b then _ else _)) => destruct b : libpod.
#[export] Hint Extern 1 (frame (match ?x with _ => _ end)) => destruct x : libpod.
#[export] Hint Extern 1 (frame (request _)) => apply frame_tryHost : libpod.
#[export] Hint Extern 1 (frame (getConfig _)) => apply frame_gets : libpod.
#[export] Hint Extern 1 (frame (when _ _)) => apply frame_failIf : libpod.
#[export] Hint Extern 1 (frame (request_ _)) => unfold request_ : libpod.
#[export] Hint Extern 1 (frame (onConfig _)) => apply frame_onVol : libpod.

Section created.
Context `{Runtime} {L : Type} `{Manager L} {X : Type} `{VolumeHost X}.
Abbreviation V := (ST error (VWorld L X)).

Lemma frame_checkLocalOptions isBind l : frame (checkLocalOptions isBind l : V ()).
Proof. induction l as [|[key val] l IH]; simpl; auto 8 with libpod. Qed.

Lemma frame_makeMountPoint config : frame (makeMountPoint config : V ()).
Proof. unfold makeMountPoint, setQuota. auto 30 with libpod. Qed.

Lemma frame_makeVolume name plugin : frame (makeVolumeInPluginIfNotExist name plugin : V ()).
Proof. unfold makeVolumeInPluginIfNotExist. auto 8 with libpod. Qed.

Lemma frame_createImageStorage config : frame (createImageStorage config : V ()).
Proof. unfold createImageStorage. auto 12 with libpod. Qed.

Lemma frame_fillConfig config : frame (fillConfig config : V VolumeConfig).
Proof. unfold fillConfig. auto 12 with libpod. Qed.

(** ** Creating *)

(** The database [db'] is [db] with the volume added, and the volume has the lock [id]. *)
Definition stored (id : Z) (vol : Define.Volume) (db db' : Db) : Prop :=
  vol_valid vol = true ∧ vol_lock vol = Some id ∧ vc_LockID (vol_config vol) = id ∧
  ∃ cfgJ stJ, marshal (vol_config vol) = Ok cfgJ ∧
    match vol_state vol with Some st => ∃ js, marshal st = Ok js ∧ stJ = Some js | None => stJ = None end ∧
    AddVolGuards (vol_Name vol) cfgJ stJ (vc_StorageID (vol_config vol)) db ∧
    db' = vol_added (vol_Name vol) cfgJ stJ (vc_StorageID (vol_config vol)) db.

Lemma AddVolume_db vol (w w' : World) : Inv (w_db w) → AddVolume vol w = (Ok (), w') → ∃ cfgJ stJ, vol_valid vol = true ∧ marshal (vol_config vol) = Ok cfgJ ∧
    match vol_state vol with Some st => ∃ js, marshal st = Ok js ∧ stJ = Some js | None => stJ = None end ∧
    AddVolGuards (vol_Name vol) cfgJ stJ (vc_StorageID (vol_config vol)) (w_db w) ∧
    w_db w' = vol_added (vol_Name vol) cfgJ stJ (vc_StorageID (vol_config vol)) (w_db w).
Proof.
  intros HI Hr. unfold AddVolume in Hr. tx_inv.
  all: match goal with Hx : AddVolume_tx _ _ _ _ = _ |- _ => apply AddVolume_tx_Ok in Hx as [Hg ->]; [|done] end.
  all: eexists _, _; split_and!; [by destruct (vol_valid vol)|done| |exact Hg|done]; eauto.
Qed.

Context `{!ManagerLaws L}.

(** The same locks are allocated. *)
Definition sameLocks (l l' : L) : Prop := valid l' ∧ ∀ i, allocated l' i ↔ allocated l i.

(** The lock manager failed itself: it refused to allocate a lock, or to free the one that it
    had allocated. *)
Definition managerFailed (l l' : L) : Prop :=
  (∃ e, Locks.AllocateLock l = (Err e, l')) ∨
  ∃ id l1 e, Locks.AllocateLock l = (Ok id, l1) ∧ Locks.Free id l1 = (Err e, l').

Definition created (ignoreIfExists : bool) (w : VWorld L X) (r : result error Define.Volume) (w' : VWorld L X) : Prop :=
  match r with
  | Err _ => w_db (v_db w') = w_db (v_db w) ∧ keepsLocks valid allocated (v_locks w) (v_locks w') ∧
      (sameLocks (v_locks w) (v_locks w') ∨ managerFailed (v_locks w) (v_locks w'))
  | Ok vol => ∃ id, takes valid allocated (v_locks w) id (v_locks w') ∧
      (stored id vol (w_db (v_db w)) (w_db (v_db w')) ∨ ignoreIfExists = true ∧ w_db (v_db w') = w_db (v_db w))
  end.

Definition creates (ignoreIfExists : bool) (m : V Define.Volume) : Prop :=
  ∀ w r w', valid (v_locks w) → Inv (w_db (v_db w)) → m w = (r, w') → created ignoreIfExists w r w'.

Lemma created_nothing b w e w' : valid (v_locks w) → w_db (v_db w') = w_db (v_db w) → v_locks w' = v_locks w → created b w (Err e) w'.
Proof. intros Hv E1 E2. unfold created. rewrite E1, E2. split_and!; [done|by split|]. left. by split. Qed.

Lemma creates_frame {A} b (m : V A) f : frame m → (∀ a, creates b (f a)) → creates b (m ≫= f).
Proof.
  intros Hm Hf w r w' Hv HI. unfold mbind, st_bind. destruct (m w) as [[a|e] w1] eqn:E; apply Hm in E as [E1 E2].
  - intros Hr. apply Hf in Hr; [|by rewrite E2|by rewrite E1]. unfold created in *. by rewrite E1, E2 in Hr.
  - intros [= <- <-]. by apply created_nothing.
Qed.

Lemma creates_fails b (m : V Define.Volume) : (∀ w a w', m w ≠ (Ok a, w')) → frame m → creates b m.
Proof.
  intros Hn Hm w [a|e] w' Hv HI Hr; [by apply Hn in Hr|]. apply Hm in Hr as [E1 E2]. by apply created_nothing.
Qed.

Lemma creates_onFailure b (m : V Define.Volume) c : creates b m → frame c → creates b (onFailure m c).
Proof.
  intros Hm Hc w r w' Hv HI. unfold onFailure. destruct (m w) as [[a|e] w1] eqn:E; apply Hm in E; try done; [by intros [= <- <-]|].
  intros [= <- <-]. destruct (c w1) as [rc w2] eqn:Ec. apply Hc in Ec as [E1 E2]. unfold created in *. simpl. by rewrite E1, E2.
Qed.

(** Adding the volume, or returning the one that exists *)
Lemma addOrReturn_run b (w : VWorld L X) r w' : Inv (w_db (v_db w)) → addOrReturn b w = (r, w') → v_locks w' = v_locks w ∧
  match r with
  | Err _ => w_db (v_db w') = w_db (v_db w)
  | Ok vol => ∃ v, v_vol w = v ∧ ((vol = v ∧ ∃ db, AddVolume v (v_db w) = (Ok (), db) ∧ v_db w' = db) ∨ b = true ∧ w_db (v_db w') = w_db (v_db w))
  end.
Proof.
  intros HI. unfold addOrReturn, mbind, st_bind, gets, caught, withState. destruct (AddVolume (v_vol w) (v_db w)) as [[[]|e] db] eqn:E.
  - intros [= <- <-]. split; [done|]. eexists. split; [done|]. left. eauto.
  - assert (w_db db = w_db (v_db w)) as Ed.
    { assert (atomic (AddVolume (v_vol w))) as Ha by (unfold AddVolume; auto 14 with libpod). by apply Ha in E. }
    destruct (decide _) as [[-> ->]|]; [|intros [= <- <-]; done]. simpl. destruct (BoltState.Volume _ db) as [r1 db1] eqn:E1. intros [= <- <-].
    assert (w_db db1 = w_db db) as Ed1.
    { assert (readonly (BoltState.Volume (vol_Name (v_vol w)))) as Ha by (unfold BoltState.Volume, getVolumeFromDB; auto 14 with libpod). by apply Ha in E1. }
    split; [done|]. simpl. destruct r1; [|congruence]. eexists. split; [done|]. right. split; [done|congruence].
Qed.

Lemma creates_lockAndAdd b : creates b (lockAndAdd b).
Proof.
  intros w r w' Hv HI. unfold lockAndAdd, mbind, st_bind at 1, withLocks at 1.
  destruct (Locks.AllocateLock (v_locks w)) as [[id|e] l] eqn:Ea.
  - pose proof (AllocateLock_law _ _ _ Hv Ea) as Ht. unfold onFailure, mbind, st_bind, onVol, modify. simpl.
    destruct (addOrReturn b _) as [r1 w1] eqn:E1. apply addOrReturn_run in E1 as [El E1]; [|done]. simpl in El, E1. destruct r1 as [vol|e].
    + intros [= <- <-]. exists id. rewrite El. split; [done|]. destruct E1 as (v & <- & [(-> & db & Hadd & Edb)|E1]); [|by right].
      left. apply AddVolume_db in Hadd as (cfgJ & stJ & ? & ? & ? & ? & ?); [|done]. rewrite Edb. split_and!; try done. by exists cfgJ, stJ.
    + intros [= <- <-]. destruct Ht as (Hv' & Hid & Hn & Hal). unfold withLocks. rewrite El. destruct (Free id l) as [[[]|ef] l'] eqn:Hf; simpl.
      * pose proof (Free_law _ _ _ _ Hv' Hid Hf) as [Hv'' Hfr].
        assert (∀ i, allocated l' i ↔ allocated (v_locks w) i) as Hs by (intros i; rewrite Hfr, Hal; naive_solver).
        split; [done|]. split; [|by left]. split; [done|]. intros i. apply Hs.
      * pose proof (Free_law _ _ _ _ Hv' Hid Hf) as [Hv'' Hfr]. split; [done|]. split; [|by right; right; eauto].
        split; [done|]. intros i Hi. apply Hfr; [congruence|]. apply Hal. by right.
  - intros [= <- <-]. pose proof (AllocateLock_law _ _ _ Hv Ea). simpl. split; [done|]. split; [done|]. right. left. by exists e.
Qed.

Lemma creates_makeAndAdd nc b plugin : creates b (makeAndAdd nc b plugin).
Proof.
  unfold makeAndAdd. apply creates_frame; [auto with libpod|intros config]. apply creates_frame; [|intros; apply creates_lockAndAdd].
  destruct plugin; [destruct nc|]; auto using frame_makeMountPoint, frame_makeVolume.
Qed.

Lemma frame_HasVolume name : frame (withState (HasVolume name) : V bool).
Proof. unfold HasVolume. auto 12 with libpod. Qed.

(** Whether the options ask for an existing volume to be returned *)
Definition ignores (options : list VolumeCreateOption) : bool :=
  match applyOptions options (newVolume, false) with Ok c => c.2 | Err _ => false end.

Lemma creates_lift {A} b (a : A) f : creates b (f a) → creates b (lift (Ok a) ≫= f).
Proof. intros Hf w r w' Hv HI Hr. by apply (Hf w). Qed.

Lemma creates_newVolume nc options : creates (ignores options) (rt_newVolume nc options).
Proof.
  unfold rt_newVolume, ignores. destruct (applyOptions options (newVolume, false)) as [[v b]|e]; [|apply creates_fails; [done|by intros w r w' [= <- <-]]].
  apply creates_lift. apply creates_frame; [apply frame_fillConfig|intros config]. simpl.
  apply creates_frame; [destruct b; auto using frame_HasVolume with libpod|intros x]. do 3 (apply creates_frame; [auto with libpod|intros ?]).
  destruct (decide _); [apply creates_frame; [apply frame_checkLocalOptions|intros; apply creates_makeAndAdd]|].
  destruct (decide _); [|apply creates_makeAndAdd]. apply creates_frame; [apply frame_createImageStorage|intros _].
  apply creates_onFailure; [apply creates_makeAndAdd|auto 12 with libpod].
Qed.
End created.

(** ** Mounting *)

(** What can be mounted: a path, a volume of a plugin, a container of the storage *)
Inductive mountTarget : Type :=
| OnPath (path : string)
| OnPlugin (plugin name : string)
| OnStorage (id : string).

#[export] Instance mountTarget_eq_dec : EqDecision mountTarget.
Proof. solve_decision. Defined.

(** The requests that mount and unmount *)
Definition mounts (q : volRequest) : option mountTarget :=
  match q with
  | RunMount args => OnPath <$> last args
  | MountInPlugin p name => Some (OnPlugin p name)
  | MountStorage id => Some (OnStorage id)
  | _ => None
  end.
Definition unmounts (q : volRequest) : option mountTarget :=
  match q with
  | UnmountInPlugin p name => Some (OnPlugin p name)
  | UnmountStorage id _ => Some (OnStorage id)
  | _ => None
  end.

Definition plus1 (t : option mountTarget) (t' : mountTarget) : nat := if decide (t = Some t') then 1 else 0.

(** How often a target is mounted, and what the requests do to it; a request that fails does nothing. *)
Class MountLaws (X : Type) `{VolumeHost X} : Type := {
  mounted : X → mountTarget → nat;
  request_law q h (r : result error string) h' t : vh_request q h = (r, h') →
    match r with
    | Ok _ => mounted h' t + plus1 (unmounts q) t = mounted h t + plus1 (mounts q) t
    | Err _ => mounted h' t = mounted h t
    end;
  detach_law p h r h' t : vh_detachUnmount p h = (r, h') →
    match r with
    | Unmounted => mounted h' t + plus1 (Some (OnPath p)) t = mounted h t
    | NotMounted => mounted h (OnPath p) = 0 ∧ mounted h' t = mounted h t
    | UnmountFailed => mounted h' t = mounted h t
    end }.

Section mounting.
Context `{RuntimeLaws} {L : Type} `{Manager L} {X : Type} `{VolumeHost X}.
Abbreviation V := (ST error (VWorld L X)).
Abbreviation W := (VWorld L X).

Definition storable (st : VolumeState) : Prop := ∃ js, marshal st = Ok js ∧ value_ok js = true.

Definition volStored (db : Db) (name : string) (st : VolumeState) : Prop :=
  is_vol db name ∧ ∃ js, db !! [volBkt; name; stateKey] = Some (Val js) ∧ unmarshal js = Ok st.

(** The handle is of the volume that is stored with the state [st]. *)
Record loaded (config : VolumeConfig) (plugin : option string) (st : VolumeState) (w : W) : Prop := {
  ld_ready : ready (v_db w);
  ld_inv : Inv (w_db (v_db w));
  ld_stored : volStored (w_db (v_db w)) (vc_Name config) st;
  ld_config : vol_config (v_vol w) = config;
  ld_plugin : vol_plugin (v_vol w) = plugin;
  ld_valid : vol_valid (v_vol w) = true }.

Lemma UpdateVolume_run vol w st : ready w → Inv (w_db w) → vol_valid vol = true → volStored (w_db w) (vol_Name vol) st →
  UpdateVolume vol w = (Ok st, w).
Proof.
  intros Hw HI Hv (Hvol & js & Hs & Hu). schema_facts HI. unfold UpdateVolume. erewrite st_bind_run by (by apply ready_checkValid). rewrite Hv.
  erewrite st_bind_run by reflexivity. apply ready_View; [done|]. tx_go. erewrite st_bind_run by (by apply volBucketOf_run). tx_go.
  unfold bget. cbn [app]. rewrite Hs. by rewrite Hu.
Qed.

Lemma SaveVolume_stores vol w st0 st : ready w → Inv (w_db w) → vol_valid vol = true → volStored (w_db w) (vol_Name vol) st0 → vol_state vol = Some st →
  storable st → ∃ w', SaveVolume vol w = (Ok (), w') ∧ ready w' ∧ Inv (w_db w') ∧ volStored (w_db w') (vol_Name vol) st.
Proof.
  intros Hw HI Hv (Hvol & js0 & Hs0 & Hu0) Hst (js & Hm & Hok). schema_facts HI.
  assert (SaveVolume vol w = (Ok (), set_db (<[[volBkt; vol_Name vol; stateKey] := Val js]> (w_db w)) w)) as Hr.
  { unfold SaveVolume. erewrite st_bind_run by (by apply ready_checkValid). rewrite Hv, Hst, Hm. do 2 erewrite st_bind_run by reflexivity.
    apply ready_Update; [done|]. tx_go. erewrite st_bind_run by (by apply volBucketOf_run). apply Put_Ok. split_and!; [done|done| |done].
    cbn. by rewrite Hs0. }
  eexists. split; [exact Hr|]. split_and!.
  - by apply ready_set_db.
  - by eapply (SaveVolume_safe vol); [| |exact Hr].
  - split; [unfold is_vol; cbn; by lk|]. exists js. split; [cbn; by lk|]. by apply unmarshal_marshal in Hm.
Qed.

Lemma vol_update_run config plugin st w : loaded config plugin st w →
  ∃ w1, vol_update w = (Ok (), w1) ∧ loaded config plugin st w1 ∧ vol_state (v_vol w1) = Some st ∧ v_host w1 = v_host w ∧ v_locks w1 = v_locks w.
Proof.
  intros [Hw HI Hs <- <- Hv]. unfold vol_update. erewrite UpdateVolume_run by (done || exact Hs). rewrite Hv. eexists. split; [done|]. done.
Qed.

Lemma vol_save_run config plugin st0 st w : loaded config plugin st0 w → vol_state (v_vol w) = Some st → storable st →
  ∃ w1, vol_save w = (Ok (), w1) ∧ loaded config plugin st w1 ∧ v_vol w1 = v_vol w ∧ v_host w1 = v_host w ∧ v_locks w1 = v_locks w.
Proof.
  intros [Hw HI Hs <- <- Hv] Hst Hok. unfold vol_save. destruct (SaveVolume_stores (v_vol w) (v_db w) st0 st) as (db' & -> & Hw' & HI' & Hs'); try done.
  eexists. split; [done|]. done.
Qed.

Context `{!MountLaws X} (config : VolumeConfig) (plugin : option string).
Hypothesis Hneeds : needsMount config = true.

(** What is mounted for the volume *)
Definition target : option mountTarget :=
  if UsesVolumeDriver config then (λ p, OnPlugin p (vc_Name config)) <$> plugin
  else if decide (vc_Driver config = "image") then Some (OnStorage (vc_StorageID config))
  else Some (OnPath (vc_MountPoint config)).

(** The stored counter is [n], and the volume is mounted once or not at all. *)
Definition counted (n : Z) (w : W) : Prop :=
  ∃ st, loaded config plugin st w ∧ vs_MountCount st = n ∧ ∀ t, target = Some t → mounted (v_host w) t = if decide (0 < n)%Z then 1 else 0.

(** Nothing else is mounted or unmounted. *)
Definition others (w w' : W) : Prop := ∀ t, target ≠ Some t → mounted (v_host w') t = mounted (v_host w) t.

Definition readable (w : W) : Prop := ∀ st, vol_state (v_vol w) = Some st → storable st.

Lemma vol_save_state (w w' : W) r : vol_save w = (r, w') → vol_state (v_vol w') = vol_state (v_vol w) ∧ v_host w' = v_host w.
Proof. unfold vol_save. destruct (SaveVolume _ _) as [[]]; [|destruct (decide _)]; by intros [= <- <-]. Qed.

(** Assigning to the state in memory and saving it *)
Lemma save_changed st0 st f (w w' : W) r : loaded config plugin st0 w → vol_state (v_vol w) = Some st →
  (onVolState f ≫= λ _, vol_save) w = (r, w') → readable w' → r = Ok () ∧ loaded config plugin (f st) w' ∧ v_host w' = v_host w.
Proof.
  intros Hl Hst. unfold mbind, st_bind, onVolState, onVol, modify. rewrite Hst. set (w1 := mkVWorld _ _ _ _). intros Hr Hok.
  assert (loaded config plugin st0 w1) as Hl1 by by destruct Hl.
  destruct (vol_save_state _ _ _ Hr) as [Es _]. destruct (vol_save_run config plugin st0 (f st) w1 Hl1) as (w2 & E & Hl2 & _ & Hh & _); [done| |].
  - apply Hok. by rewrite Es.
  - rewrite E in Hr. injection Hr as <- <-. done.
Qed.

Lemma save_changed2 st0 st f g (w w' : W) r : loaded config plugin st0 w → vol_state (v_vol w) = Some st →
  (onVolState f ≫= λ _, onVolState g ≫= λ _, vol_save) w = (r, w') → readable w' → r = Ok () ∧ loaded config plugin (g (f st)) w' ∧ v_host w' = v_host w.
Proof.
  intros Hl Hst. unfold mbind at 1, st_bind at 1. unfold onVolState at 1, onVol at 1, modify at 1. rewrite Hst. set (w1 := mkVWorld _ _ _ _). intros Hr Hok.
  assert (loaded config plugin st0 w1) as Hl1 by by destruct Hl. apply (save_changed st0 (f st) g w1 w' r); done.
Qed.

Lemma request_run q st (w w' : W) r : loaded config plugin st w → request q w = (r, w') →
  loaded config plugin st w' ∧ v_vol w' = v_vol w ∧ vh_request q (v_host w) = (r, v_host w').
Proof. intros Hl. unfold request, tryHost. destruct (vh_request q (v_host w)) as [x h]. intros [= <- <-]. split_and!; [by destruct Hl|done|done]. Qed.

(** [k] stores the counter [n]. *)
Definition storesCount (n : Z) (k : V ()) : Prop := ∀ st0 st w r w', loaded config plugin st0 w → vol_state (v_vol w) = Some st →
  k w = (r, w') → readable w' → r = Ok () ∧ v_host w' = v_host w ∧ ∃ st', loaded config plugin st' w' ∧ vs_MountCount st' = n.

Lemma setCount_stores n : (0 ≤ n < 2 ^ 64)%Z → storesCount n (setCount n ≫= λ _, vol_save).
Proof.
  intros Hn st0 st w r w' Hl Hst Hr Hok. apply (save_changed st0 st) in Hr as (-> & Hl' & ->); try done. split_and!; [done|done|]. eexists. split; [exact Hl'|].
  simpl. unfold uint64. by rewrite Z.mod_small.
Qed.

Lemma setCount_stores_path n p : (0 ≤ n < 2 ^ 64)%Z → storesCount n (setCount n ≫= λ _, onVolState (vs_set_MountPoint p) ≫= λ _, vol_save).
Proof.
  intros Hn st0 st w r w' Hl Hst Hr Hok. apply (save_changed2 st0 st) in Hr as (-> & Hl' & ->); try done. split_and!; [done|done|]. eexists. split; [exact Hl'|].
  simpl. unfold uint64. by rewrite Z.mod_small.
Qed.

(** The state and the host as they were, with another handle *)
Lemma counted_same n st w w' : loaded config plugin st w' → vs_MountCount st = n → (∀ t, mounted (v_host w') t = mounted (v_host w) t) →
  (∀ t, target = Some t → mounted (v_host w) t = if decide (0 < n)%Z then 1 else 0) → counted n w' ∧ others w w'.
Proof. intros Hl Hc Hm Ht. split; [|by intros t _]. exists st. split_and!; [done|done|]. intros t Ht'. rewrite Hm. by apply Ht. Qed.

Lemma mount_request q k st (w w' : W) r t : loaded config plugin st w → vol_state (v_vol w) = Some st → vs_MountCount st = 0%Z →
  target = Some t → mounts q = Some t → unmounts q = None → mounted (v_host w) t = 0 → (∀ mp, storesCount 1 (k mp)) →
  (request q ≫= k) w = (r, w') → readable w' → counted (match r with Ok _ => 1 | Err _ => 0 end) w' ∧ others w w'.
Proof.
  intros Hl Hst Hc Ht Hq Hu Hm Hk. unfold mbind, st_bind. destruct (request q w) as [[mp|e] w1] eqn:E;
    destruct (request_run q st w w1 _ Hl E) as (Hl1 & Ev & Eh); pose proof (λ t', request_law q _ _ _ t' Eh) as Hlaw; simpl in Hlaw.
  - intros Hr Hok. apply (Hk mp st st) in Hr as (-> & Hh & st' & Hl2 & Hc2); [|done|by rewrite Ev|done]. rewrite Hq, Hu in Hlaw. unfold plus1 in Hlaw. simpl in Hlaw.
    split.
    + exists st'. split_and!; [done|done|]. intros t' Ht'. assert (t' = t) as -> by congruence. specialize (Hlaw t). rewrite decide_True in Hlaw by done. simpl. rewrite Hh. lia.
    + intros t' Ht'. specialize (Hlaw t'). rewrite decide_False in Hlaw by congruence. rewrite Hh. lia.
  - intros [= <- <-] _. apply (counted_same 0 st); [done|done|done|]. intros t' Ht'. assert (t' = t) as -> by congruence. by rewrite Hm.
Qed.

Lemma target_is : target =
  if UsesVolumeDriver config then match plugin with Some p => Some (OnPlugin p (vc_Name config)) | None => None end
  else if decide (vc_Driver config = "image") then Some (OnStorage (vc_StorageID config)) else Some (OnPath (vc_MountPoint config)).
Proof. unfold target. destruct (UsesVolumeDriver config); [|done]. by destruct plugin. Qed.

Lemma last_mountArgs : last (mountArgs config) = Some (vc_MountPoint config).
Proof. unfold mountArgs. rewrite app_assoc. by rewrite last_app. Qed.

Lemma mount_step n (w w' : W) r : counted n w → (0 ≤ n)%Z → (n + 1 < 2 ^ 64)%Z → vol_mount w = (r, w') → readable w' →
  counted (match r with Ok _ => n + 1 | Err _ => n end) w' ∧ others w w'.
Proof.
  intros (st & Hl & Hc & Hm) Hn Hlt. unfold vol_mount. erewrite st_bind_run by done. rewrite (ld_config _ _ _ _ Hl). unfold id. rewrite Hneeds. cbn [negb].
  destruct (vol_update_run _ _ _ _ Hl) as (w1 & E & Hl1 & Hst1 & Hh1 & _). erewrite st_bind_run by exact E. clear E.
  erewrite st_bind_run; last first. { unfold mountCount, gets. rewrite Hst1. reflexivity. }
  rewrite Hc. destruct (decide _) as [Hpos|Hz].
  - intros Hr Hok. apply (setCount_stores (n + 1) ltac:(lia) st st) in Hr as (-> & Hh & st' & Hl2 & Hc2); try done.
    split; [|intros t _; by rewrite Hh, Hh1]. exists st'. split_and!; [done|done|]. intros t Ht. rewrite Hh, Hh1, (Hm t Ht), !decide_True by lia. done.
  - assert (n = 0)%Z as -> by lia. erewrite st_bind_run by done. rewrite (ld_plugin _ _ _ _ Hl1). intros Hr Hok.
    assert (∀ t, target = Some t → mounted (v_host w1) t = 0) as Hm1. { intros t Ht. rewrite Hh1. by apply Hm. }
    assert (others w w' ↔ others w1 w') as Ho by (unfold others; by rewrite Hh1). rewrite Ho.
    unfold reallyMount in Hr. pose proof target_is as Ht. destruct (UsesVolumeDriver config).
    { destruct plugin as [p|] eqn:Ep in Hr, Ht; [|injection Hr as <- <-; apply (counted_same 0 st); done].
      eapply mount_request in Hr; try done; [by apply Hm1|]. intros mp. by apply setCount_stores_path. }
    destruct (decide _).
    { eapply mount_request in Hr; try done; [by apply Hm1|]. intros mp. by apply setCount_stores_path. }
    unfold request_ in Hr. rewrite st_bind_assoc in Hr. eapply mount_request in Hr; try done; [|by apply Hm1|].
    + unfold mounts. rewrite last_mountArgs. done.
    + intros mp. apply setCount_stores. lia.
Qed.

(** [k] stores the counter that the handle has. *)
Definition savesCount (k : V ()) : Prop := ∀ st0 st w r w', loaded config plugin st0 w → vol_state (v_vol w) = Some st →
  k w = (r, w') → readable w' → r = Ok () ∧ v_host w' = v_host w ∧ ∃ st', loaded config plugin st' w' ∧ vs_MountCount st' = vs_MountCount st.

Lemma save_savesCount : savesCount vol_save.
Proof.
  intros st0 st w r w' Hl Hst Hr Hok. destruct (vol_save_state _ _ _ Hr) as [Es _].
  destruct (vol_save_run _ _ _ st _ Hl Hst) as (w1 & E & Hl1 & _ & Hh & _); [apply Hok; by rewrite Es|]. rewrite E in Hr. injection Hr as <- <-. eauto.
Qed.

Lemma save_path_savesCount p : savesCount (onVolState (vs_set_MountPoint p) ≫= λ _, vol_save).
Proof.
  intros st0 st w r w' Hl Hst Hr Hok. apply (save_changed st0 st) in Hr as (-> & Hl' & ->); try done. split_and!; [done|done|]. by eexists.
Qed.

Section last.
(** The last user unmounts the volume: the handle already has the counter 0. *)
Context (n : Z) (st0 st : VolumeState) (w w' : W) (r : result error ()) (t : mountTarget).
Hypothesis Hn : (0 < n)%Z.
Hypothesis Hl : loaded config plugin st0 w.
Hypothesis Hst : vol_state (v_vol w) = Some st.
Hypothesis Hc0 : vs_MountCount st0 = n.
Hypothesis Hc : vs_MountCount st = 0%Z.
Hypothesis Hm : mounted (v_host w) t = 1.
Hypothesis Ht : target = Some t.
Hypothesis Hok : readable w'.

Lemma unmounted k (w1 : W) : loaded config plugin st0 w1 → v_vol w1 = v_vol w → (∀ t', mounted (v_host w1) t' + plus1 (Some t) t' = mounted (v_host w) t') →
  savesCount k → k w1 = (r, w') → counted (match r with Ok _ => 0 | Err _ => n end) w' ∧ others w w'.
Proof.
  intros Hl1 Ev Hh Hk Hr. apply (Hk st0 st) in Hr as (-> & Hh' & st' & Hl' & Hc'); [|done|by rewrite Ev|done]. unfold plus1 in Hh. split.
  - exists st'. split_and!; [done|by rewrite Hc'|]. intros t' Ht'. assert (t' = t) as -> by congruence. specialize (Hh t). rewrite decide_True in Hh by done. simpl. rewrite Hh'. lia.
  - intros t' Ht'. specialize (Hh t'). rewrite decide_False in Hh by congruence. rewrite Hh'. lia.
Qed.

Lemma unmount_failed : loaded config plugin st0 w' → (∀ t', mounted (v_host w') t' = mounted (v_host w) t') → counted n w' ∧ others w w'.
Proof. intros Hl' Hh. apply (counted_same n st0); try done. intros t' Ht'. assert (t' = t) as -> by congruence. by rewrite Hm, decide_True. Qed.

Lemma unmount_request q k : unmounts q = Some t → mounts q = None → savesCount k → (request_ q ≫= λ _, k) w = (r, w') →
  counted (match r with Ok _ => 0 | Err _ => n end) w' ∧ others w w'.
Proof.
  intros Hu Hq Hk. unfold request_. rewrite st_bind_assoc. unfold mbind at 1, st_bind at 1. destruct (request q w) as [[mp|e] w1] eqn:E;
    destruct (request_run q st0 w w1 _ Hl E) as (Hl1 & Ev & Eh); pose proof (λ t', request_law q _ _ _ t' Eh) as Hlaw; simpl in Hlaw.
  - rewrite Hq, Hu in Hlaw. intros Hr. apply (unmounted k w1); try done. intros t'. specialize (Hlaw t'). unfold plus1 in *. simpl in Hlaw. lia.
  - intros [= <- E1]. rewrite E1 in Hl1, Hlaw. by apply unmount_failed.
Qed.
End last.

Lemma last_unmount force n st0 st (w w' : W) r : (0 < n)%Z → loaded config plugin st0 w → vol_state (v_vol w) = Some st → vs_MountCount st0 = n → vs_MountCount st = 0%Z →
  (∀ t, target = Some t → mounted (v_host w) t = 1) → readable w' → reallyUnmount config plugin force w = (r, w') →
  counted (match r with Ok _ => 0 | Err _ => n end) w' ∧ others w w'.
Proof.
  intros Hn Hl Hst Hc0 Hc Hm Hok Hr. pose proof target_is as Ht. unfold reallyUnmount in Hr. destruct (UsesVolumeDriver config).
  { destruct plugin as [p|] eqn:Ep in Hr, Ht.
    - eapply unmount_request in Hr; eauto. apply save_path_savesCount.
    - injection Hr as <- <-. apply (counted_same n st0); try done. by rewrite Ht. }
  destruct (decide _).
  { eapply unmount_request in Hr; eauto. apply save_path_savesCount. }
  unfold withHost, mbind, st_bind in Hr. destruct (vh_detachUnmount (vc_MountPoint config) (v_host w)) as [u h] eqn:E.
  pose proof (λ t, detach_law _ _ _ _ t E) as Hlaw. set (w1 := mkVWorld _ _ _ _) in Hr. assert (loaded config plugin st0 w1) as Hl1 by by destruct Hl. destruct u.
  - eapply (unmounted n st0 st w); eauto. apply save_savesCount.
  - pose proof (Hm _ Ht) as Hm1. destruct (Hlaw (OnPath "")) as [Hz _]. lia.
  - injection Hr as <- <-. eapply unmount_failed; eauto.
Qed.

Lemma unmount_step force n (w w' : W) r : counted n w → (0 ≤ n < 2 ^ 64)%Z → vol_unmount force w = (r, w') → readable w' →
  counted (match r with Ok _ => if force then 0 else Z.max 0 (n - 1) | Err _ => n end) w' ∧ others w w'.
Proof.
  intros (st & Hl & Hc & Hm) Hn. unfold vol_unmount. erewrite st_bind_run by done. rewrite (ld_config _ _ _ _ Hl). unfold id. rewrite Hneeds. cbn [negb].
  destruct (vol_update_run _ _ _ _ Hl) as (w1 & E & Hl1 & Hst1 & Hh1 & _). erewrite st_bind_run by exact E. clear E.
  erewrite st_bind_run; last first. { unfold mountCount, gets. rewrite Hst1. reflexivity. }
  assert (others w w' ↔ others w1 w') as Ho by (unfold others; by rewrite Hh1). rewrite Ho. rewrite <- Hh1 in Hm. rewrite Hc. destruct (decide (n = 0%Z)) as [E0|Hz].
  { intros [= <- <-] _. rewrite E0 in Hc, Hm |- *. replace (if force then 0 else Z.max 0 (0 - 1))%Z with 0%Z by by destruct force. by apply (counted_same 0 st). }
  cbv zeta. set (n' := (if force then 0 else n - 1)%Z). assert (0 ≤ n' < 2 ^ 64)%Z as Hn' by (unfold n'; destruct force; lia).
  assert ((if force then 0 else Z.max 0 (n - 1)) = n')%Z as -> by (unfold n'; destruct force; lia).
  set (st1 := vs_set_MountCount (uint64 n') st).
  assert (∃ w2 : W, setCount n' w1 = (Ok (), w2) ∧ loaded config plugin st w2 ∧ vol_state (v_vol w2) = Some st1 ∧ v_host w2 = v_host w1) as (w2 & E & Hl2 & Hst2 & Hh2).
  { unfold setCount, onVolState, onVol, modify. rewrite Hst1. eexists. split; [done|]. split; [by destruct Hl1|done]. }
  erewrite st_bind_run by exact E. clear E. assert (uint64 n' = n') as Eu by (unfold uint64; by rewrite Z.mod_small). rewrite Eu.
  assert (others w1 w' ↔ others w2 w') as Ho2 by (unfold others; by rewrite Hh2). rewrite Ho2. rewrite <- Hh2 in Hm. destruct (decide (n' = 0%Z)) as [En|En].
  - erewrite st_bind_run by done. rewrite (ld_plugin _ _ _ _ Hl2), En. intros Hr Hok.
    assert (vs_MountCount st1 = 0)%Z as Hc1 by (simpl; by rewrite Eu). apply (last_unmount force n st st1); try done; [lia|].
    intros t Ht. rewrite (Hm t Ht), decide_True by lia. done.
  - intros Hr Hok. apply (save_savesCount st st1) in Hr as (-> & Hh & st' & Hl' & Hc'); try done. split; [|intros t _; by rewrite Hh].
    exists st'. split_and!; [done|by rewrite Hc'|]. intros t Ht. rewrite Hh, (Hm t Ht), !decide_True by lia. done.
Qed.

(** ** Histories of calls *)

Inductive mountCall : Type := CallMount | CallUnmount (force : bool).

Definition runCall (c : mountCall) : V () := match c with CallMount => vol_mount | CallUnmount force => vol_unmount force end.

(** Each call, whether it succeeded, and the world after it *)
Fixpoint history (calls : list mountCall) (w : W) : list (mountCall * bool * W) :=
  match calls with
  | [] => []
  | c :: calls => let '(r, w1) := runCall c w in (c, match r with Ok _ => true | Err _ => false end, w1) :: history calls w1
  end.

Definition after (w : W) (h : list (mountCall * bool * W)) : W := default w (snd <$> last h).

(** How often the volume is mounted by its users, from the calls that succeeded *)
Fixpoint tally (n : Z) (h : list (mountCall * bool * W)) : Z :=
  match h with
  | [] => n
  | (c, ok, _) :: h => tally (if ok : bool then match c with CallMount => n + 1 | CallUnmount force => if force then 0 else Z.max 0 (n - 1) end else n)%Z h
  end.

Lemma runCall_step c n (w w' : W) r : counted n w → (0 ≤ n)%Z → (n + 1 < 2 ^ 64)%Z → runCall c w = (r, w') → readable w' →
  counted (match r with Ok _ => match c with CallMount => n + 1 | CallUnmount force => if force then 0 else Z.max 0 (n - 1) end | Err _ => n end) w' ∧ others w w'.
Proof. destruct c as [|force]; intros; [by eapply mount_step|]. eapply unmount_step; [done|lia|done|done]. Qed.

Lemma after_cons w x h : after w (x :: h) = after x.2 h.
Proof. unfold after. rewrite last_cons. by destruct (last h). Qed.

Lemma history_counted calls n (w : W) : counted n w → (0 ≤ n)%Z → (n + Z.of_nat (length calls) < 2 ^ 64)%Z →
  Forall (λ x, readable x.2) (history calls w) →
  counted (tally n (history calls w)) (after w (history calls w)) ∧ others w (after w (history calls w)).
Proof.
  revert n w. induction calls as [|c calls IH]; intros n w Hc Hn Hlt; [by split; [|intros ? ?]|]. cbn [history]. destruct (runCall c w) as [r w1] eqn:E.
  rewrite Forall_cons, after_cons. cbn [snd]. intros [Hok Hf]. cbn [length] in Hlt. destruct (runCall_step c n w w1 r Hc Hn ltac:(lia) E Hok) as [Hc1 Ho1].
  cbn [tally]. set (n1 := match r with Ok _ => _ | Err _ => n end) in Hc1. assert (0 ≤ n1 ≤ n + 1)%Z as Hn1 by (unfold n1; destruct r, c as [|[]]; lia).
  destruct (IH n1 w1 Hc1 ltac:(lia) ltac:(lia) Hf) as [Hc2 Ho2]. split; [|intros t Ht; by rewrite Ho2, Ho1].
  unfold n1 in Hc2. destruct r; exact Hc2.
Qed.

(** The mount of a local volume is lost. *)
Lemma lost_mount st (w : W) h : loaded config plugin st w → vs_MountCount st = 1%Z → UsesVolumeDriver config = false → vc_Driver config ≠ "image" →
  mounted (v_host w) (OnPath (vc_MountPoint config)) = 0 → vh_detachUnmount (vc_MountPoint config) (v_host w) = (NotMounted, h) → storable (vs_set_MountCount 2 st) →
  ∃ w1 w2, vol_unmount false w = (Ok (), w1) ∧ vol_mount w1 = (Ok (), w2) ∧ mounted (v_host w2) (OnPath (vc_MountPoint config)) = 0 ∧
    loaded config plugin (vs_set_MountCount 2 st) w2.
Proof.
  intros Hl Hc Hd Hi Hm Eh Hok.
  assert (∃ w1, vol_unmount false w = (Ok (), w1) ∧ loaded config plugin st w1 ∧ v_host w1 = h) as (w1 & Eu & Hl1 & Hh1).
  { unfold vol_unmount. erewrite st_bind_run by done. rewrite (ld_config _ _ _ _ Hl). unfold id. rewrite Hneeds. cbn [negb].
    destruct (vol_update_run _ _ _ _ Hl) as (w1 & E & Hl1 & Hst1 & Hh1 & _). erewrite st_bind_run by exact E. clear E.
    erewrite st_bind_run; last first. { unfold mountCount, gets. rewrite Hst1. reflexivity. }
    rewrite Hc, decide_False by done. cbv zeta. unfold setCount, onVolState, onVol, modify. erewrite st_bind_run by reflexivity. rewrite decide_True by done.
    erewrite st_bind_run by reflexivity. unfold reallyUnmount. rewrite Hd, decide_False by done. unfold withHost, mbind, st_bind. simpl. rewrite Hh1, Eh. rewrite Hst1.
    eexists. split; [done|]. split; [by destruct Hl1|done]. }
  pose proof (detach_law _ _ _ _ (OnPath (vc_MountPoint config)) Eh) as [_ Hm1].
  assert (∃ w2, vol_mount w1 = (Ok (), w2) ∧ loaded config plugin (vs_set_MountCount 2 st) w2 ∧ v_host w2 = h) as (w2 & Em & Hl2 & Hh2).
  { unfold vol_mount. erewrite st_bind_run by done. rewrite (ld_config _ _ _ _ Hl1). unfold id. rewrite Hneeds. cbn [negb].
    destruct (vol_update_run _ _ _ _ Hl1) as (w2 & E & Hl2 & Hst2 & Hh2 & _). erewrite st_bind_run by exact E. clear E.
    erewrite st_bind_run; last first. { unfold mountCount, gets. rewrite Hst2. reflexivity. }
    rewrite Hc, decide_True by done. unfold setCount, onVolState, onVol, modify. erewrite st_bind_run by reflexivity. rewrite Hst2.
    set (w3 := mkVWorld _ _ _ _). assert (loaded config plugin st w3) as Hl3 by by destruct Hl2.
    destruct (vol_save_run _ _ _ (vs_set_MountCount 2 st) w3 Hl3) as (w4 & E & Hl4 & _ & Hh4 & _); [done|done|]. exists w4. split; [done|]. split; [done|]. by rewrite Hh4, <- Hh1, <- Hh2. }
  exists w1, w2. split_and!; [done|done| |done]. by rewrite Hh2, Hm1.
Qed.
End mounting.

(** ** Removing *)

Section removing.
Context `{RuntimeLaws} {L : Type} `{Manager L} {X : Type} `{VolumeHost X}.
Abbreviation V := (ST error (VWorld L X)).
Abbreviation W := (VWorld L X).

(** [m] keeps the database consistent, the locks, and the configuration of the handle. *)
Definition vkeeps {A} (m : V A) : Prop := ∀ w r w', Inv (w_db (v_db w)) → m w = (r, w') →
  Inv (w_db (v_db w')) ∧ v_locks w' = v_locks w ∧ vol_config (v_vol w') = vol_config (v_vol w).

Lemma vkeeps_bind {A B} (m : V A) (f : A → V B) : vkeeps m → (∀ a, vkeeps (f a)) → vkeeps (m ≫= f).
Proof.
  intros Hm Hf w r w' HI. unfold mbind, st_bind. destruct (m w) as [[a|e] w1] eqn:E; apply Hm in E as (E1 & E2 & E3); try done.
  - intros (E4 & E5 & E6)%Hf; [|done]. split_and!; [done|congruence..].
  - by intros [= <- <-].
Qed.
Lemma vkeeps_ret {A} (a : A) : vkeeps (mret a).
Proof. by intros w r w' HI [= <- <-]. Qed.
Lemma vkeeps_throw {A} e : vkeeps (throw e : V A).
Proof. by intros w r w' HI [= <- <-]. Qed.
Lemma vkeeps_gets {A} (f : W → A) : vkeeps (gets f).
Proof. by intros w r w' HI [= <- <-]. Qed.
Lemma vkeeps_tryHost {A} (m : X → result error A * X) : vkeeps (tryHost m).
Proof. intros w r w' HI. unfold tryHost. destruct (m _). by intros [= <- <-]. Qed.
Lemma vkeeps_withHost {A} (m : X → A * X) : vkeeps (withHost m).
Proof. intros w r w' HI. unfold withHost. destruct (m _). by intros [= <- <-]. Qed.
Lemma vkeeps_caught {A} (m : V A) : vkeeps m → vkeeps (caught m).
Proof. intros Hm w r w' HI. unfold caught. destruct (m w) eqn:E. intros [= <- <-]. by apply Hm in E. Qed.
Lemma vkeeps_withState {A} (m : M A) : safe (λ _, True) m → vkeeps (withState m).
Proof. intros Hm w r w' HI. unfold withState. destruct (m (v_db w)) as [x db] eqn:E. intros [= <- <-]. simpl. by apply Hm in E. Qed.
Lemma vkeeps_onVolState f : vkeeps (onVolState f).
Proof. intros w r w' HI [= <- <-]. split_and!; [done|done|]. simpl. by destruct (vol_state _). Qed.
Lemma vkeeps_setValid b : vkeeps (onVol (vol_set_valid b)).
Proof. by intros w r w' HI [= <- <-]. Qed.

Lemma vkeeps_update : vkeeps vol_update.
Proof.
  intros w r w' HI. unfold vol_update. assert (readonly (UpdateVolume (v_vol w))) as Hro by (unfold UpdateVolume; auto 12 with libpod).
  destruct (UpdateVolume _ _) as [[st|e] db] eqn:E; apply Hro in E; intros [= <- <-]; simpl; rewrite E; [done|]. by destruct (decide _).
Qed.
Lemma vkeeps_save : vkeeps vol_save.
Proof.
  intros w r w' HI. unfold vol_save. destruct (SaveVolume _ _) as [x db] eqn:E. apply SaveVolume_safe in E; [|done|done].
  destruct x; [|destruct (decide _)]; by intros [= <- <-].
Qed.
End removing.

Create HintDb volumes.

#[export] Hint Resolve vkeeps_ret vkeeps_throw vkeeps_gets vkeeps_tryHost vkeeps_withHost vkeeps_caught vkeeps_withState vkeeps_onVolState vkeeps_setValid vkeeps_update vkeeps_save safe_readonly : volumes.
#[export] Hint Extern 1 (vkeeps (_ ≫= _)) => apply vkeeps_bind; [|intros ?] : volumes.
#[export] Hint Extern 1 (vkeeps (if ?b then _ else _)) => destruct b : volumes.
#[export] Hint Extern 1 (vkeeps (match ?x with _ => _ end)) => destruct x : volumes.
#[export] Hint Extern 1 (vkeeps (request _)) => apply vkeeps_tryHost : volumes.
#[export] Hint Extern 1 (vkeeps (getConfig _)) => apply vkeeps_gets : volumes.
#[export] Hint Extern 1 (vkeeps mountCount) => apply vkeeps_gets : volumes.
#[export] Hint Extern 1 (vkeeps (setCount _)) => apply vkeeps_onVolState : volumes.
#[export] Hint Extern 1 (vkeeps (request_ _)) => unfold request_ : volumes.

Section removed.
Context `{RuntimeLaws} {L : Type} `{Manager L} {X : Type} `{VolumeHost X}.
Abbreviation V := (ST error (VWorld L X)).
Abbreviation W := (VWorld L X).

Lemma vkeeps_unmount force : vkeeps (vol_unmount force : V ()).
Proof. unfold vol_unmount, reallyUnmount. auto 20 with volumes. Qed.

Lemma vkeeps_removeBacking b : vkeeps (removeBacking b : V (option error)).
Proof. unfold removeBacking. auto 20 with volumes. Qed.

Lemma vkeeps_teardown : vkeeps (vol_teardownStorage : V ()).
Proof. unfold vol_teardownStorage. auto 20 with volumes. Qed.

Lemma RemoveVolume_db vol (w w' : World) : Inv (w_db w) → RemoveVolume vol w = (Ok (), w') → Inv (w_db w') ∧ ¬ is_vol (w_db w') (vol_Name vol).
Proof.
  intros HI Hr. split; [by eapply (RemoveVolume_safe vol); [| |exact Hr]|]. unfold RemoveVolume in Hr. tx_inv.
  match goal with Hx : RemoveVolume_tx _ _ = _ |- _ => apply RemoveVolume_tx_Ok in Hx as [_ ->]; [|done] end.
  unfold is_vol. cbn. rewrite lookup_erase. unfold vol_paths. by rewrite (bool_decide_eq_true_2 (volBkt = volBkt ∧ _)).
Qed.

Context `{!ManagerLaws L} (removeContainer : Define.Container → bool → option Z → V ()).

Lemma removeFromState_Ok lock removalErr (w w' : W) : Inv (w_db (v_db w)) →
  removeFromState lock removalErr w = (Ok (), w') →
  Inv (w_db (v_db w')) ∧ ¬ is_vol (w_db (v_db w')) (vol_Name (v_vol w)) ∧ Free lock (v_locks w) = (Ok (), v_locks w').
Proof.
  intros HI. unfold removeFromState. rewrite st_bind_Ok. intros (v & w0 & [= <- <-] & Hr). rewrite st_bind_Ok in Hr. destruct Hr as (u & w1 & E1 & Hr).
  unfold withState in E1. destruct (RemoveVolume (v_vol w) (v_db w)) as [x db] eqn:Er. injection E1 as -> <-. destruct u.
  apply RemoveVolume_db in Er as [HI1 Hgone]; [|done]. rewrite st_bind_Ok in Hr. destruct Hr as (r & w2 & E2 & Hr).
  unfold caught, withLocks in E2. simpl in E2. destruct (Free lock (v_locks w)) as [rf l] eqn:Ef. rewrite st_bind_Ok in Hr. destruct Hr as (r3 & w3 & E3 & Hr).
  destruct rf as [[]|]; injection E2 as <- <-.
  - unfold caught in E3. destruct (vol_teardownStorage _) as [r4 w4] eqn:E4. injection E3 as <- <-.
    assert (frame (vol_teardownStorage : V ())) as Hfr by (unfold vol_teardownStorage; auto 8 with libpod). apply Hfr in E4 as [Ed El].
    destruct (first _ _) in Hr; [done|]. injection Hr as <-. simpl in *. by rewrite Ed, El.
  - exfalso. destruct removalErr; done.
Qed.

(** When [m] succeeds, the volume is gone, and what it did to the locks is that it freed [lock]. *)
Definition removes (lock : Z) (m : V ()) : Prop := ∀ w w', Inv (w_db (v_db w)) → m w = (Ok (), w') →
  Inv (w_db (v_db w')) ∧ ¬ is_vol (w_db (v_db w')) (vol_Name (v_vol w)) ∧ Free lock (v_locks w) = (Ok (), v_locks w').

Lemma removes_bind {A} lock (m : V A) f : vkeeps m → (∀ a, removes lock (f a)) → removes lock (m ≫= f).
Proof.
  intros Hm Hf w w' HI. rewrite st_bind_Ok. intros (a & w1 & E & Hr). apply Hm in E as (HI1 & El & Ec); [|done].
  apply Hf in Hr; [|done]. unfold vol_Name in *. by rewrite El, Ec in Hr.
Qed.

Lemma vol_remove_removes timeout ignorePlugin lock : removes lock (vol_remove removeContainer false timeout ignorePlugin lock).
Proof.
  unfold vol_remove. do 2 (apply removes_bind; [auto with volumes|intros ?]).
  apply removes_bind; [apply vkeeps_withState, safe_readonly; unfold VolumeInUse; auto 12 with libpod|intros deps].
  apply removes_bind; [auto with volumes|intros _]. apply removes_bind; [auto using vkeeps_unmount with volumes|intros r].
  do 2 (apply removes_bind; [auto with volumes|intros _]). apply removes_bind; [apply vkeeps_removeBacking|intros removalErr].
  intros w w' HI. by apply removeFromState_Ok.
Qed.

(** A volume in use is not touched. *)
Lemma vol_remove_used config plugin st timeout ignorePlugin lock c (w : W) : loaded config plugin st w → uses_volume (w_db (v_db w)) c (vc_Name config) →
  ∃ w', vol_remove removeContainer false timeout ignorePlugin lock w = (Err ErrVolumeBeingUsed, w') ∧ v_db w' = v_db w ∧ v_host w' = v_host w ∧ v_locks w' = v_locks w.
Proof.
  intros Hl Hu. unfold vol_remove. destruct (vol_update_run _ _ _ _ Hl) as (w1 & E & Hl1 & _ & Hh & Hlk). assert (v_db w1 = v_db w) as Ed.
  { unfold vol_update in E. erewrite UpdateVolume_run in E; [|apply Hl|apply Hl|apply Hl|]. 2: { unfold vol_Name. rewrite (ld_config _ _ _ _ Hl). apply Hl. }
    rewrite (ld_valid _ _ _ _ Hl) in E. by injection E as <-. }
  erewrite st_bind_run by exact E. erewrite st_bind_run by reflexivity.
  destruct (VolumeInUse_complete (v_vol w1) (v_db w1)) as (users & Er & Hin & _); [apply Hl1|apply Hl1|apply Hl1| |].
  { unfold vol_Name. rewrite (ld_config _ _ _ _ Hl1). apply Hl1. }
  erewrite st_bind_run; last first. { unfold withState. rewrite Er. reflexivity. }
  rewrite decide_False; last first. { intros ->. specialize (Hin c). unfold vol_Name in Hin. rewrite (ld_config _ _ _ _ Hl1), Ed in Hin. by apply Hin, elem_of_nil in Hu. }
  eexists. split; [by erewrite st_bind_run_err by reflexivity|]. done.
Qed.

(** ** Holding the lock *)

Lemma holding_run {A} lock (m : V A) (w w' : W) r : holding lock m w = (r, w') →
  (r = Err Panic ∧ (v_db w' = v_db w ∧ v_host w' = v_host w ∨ ∃ l x w1, m (mkVWorld l (v_db w) (v_host w) (v_vol w)) = (x, w1) ∧ v_db w' = v_db w1 ∧ v_host w' = v_host w1)) ∨
  ∃ l w1, Lock lock (v_locks w) = (Ok (), l) ∧ m (mkVWorld l (v_db w) (v_host w) (v_vol w)) = (r, w1) ∧
    v_db w' = v_db w1 ∧ v_host w' = v_host w1 ∧ Unlock lock (v_locks w1) = (Ok (), v_locks w').
Proof.
  unfold holding, withLocks. destruct (Lock lock (v_locks w)) as [[[]|e] l] eqn:El.
  2: { intros [= <- <-]. left. eauto. }
  destruct (m _) as [x w1] eqn:Em. destruct (Unlock lock (v_locks w1)) as [[[]|e] l2] eqn:Eu; intros [= <- <-].
  - right. by exists l, w1.
  - left. split; [done|]. right. eauto 8.
Qed.
End removed.
