(* ===== verification/PropsVolumes.v ===== *)
(** * PropsVolumes: claims about named volumes

    Creating, mounting and removing volumes: what each leaves in the state, in the lock manager
    and on the host, on every branch. *)

From S2P Require Import LocksMemory Locks.
From S2P Require Import Prelude Define Bolt BoltTx Strconv BoltInternal BoltState BoltInv BoltSafe BoltAdd BoltPods BoltVols BoltOps TestRuntime PropsPods Volumes VolumeSpec.

Section claims.
Context `{RuntimeLaws} {L : Type} `{Manager L} {X : Type} `{VolumeHost X}.
Context `{!ManagerLaws L}.
Abbreviation V := (ST error (VWorld L X)).
Abbreviation W := (VWorld L X).

(** C23: Creating a volume on any lock manager that follows the laws of the interface.  A call that
    fails leaves the state as it was and frees no lock, and the same locks are allocated as before
    unless the lock manager itself failed: it refused to allocate the lock, or to free it again (the
    code only logs this, and the lock can then stay allocated).  A call that succeeds takes exactly
    one lock that was free; then the state has the new volume, with this lock and the
    configuration and the state that the options gave, and is otherwise as it was, or the options
    ask for an existing volume to be returned and the state is as it was. *)
Theorem newVolume_outcome noCreatePluginVolume options (w w' : W) r :
  valid (v_locks w) → Inv (w_db (v_db w)) → rt_newVolume noCreatePluginVolume options w = (r, w') → created (ignores options) w r w'.
Proof. apply creates_newVolume. Qed.

(** Returning an existing volume loses a lock: where the options ask for it and the volume is in
    the state, the call takes a free lock although it stores nothing that could ever free it. *)
Theorem existing_volume_leaks_lock noCreatePluginVolume options (w w' : W) vol :
  valid (v_locks w) → Inv (w_db (v_db w)) → rt_newVolume noCreatePluginVolume options w = (Ok vol, w') → is_vol (w_db (v_db w)) (vol_Name vol) →
  ignores options = true ∧ w_db (v_db w') = w_db (v_db w) ∧ ∃ id, takes valid allocated (v_locks w) id (v_locks w').
Proof.
  intros Hv HI Hr Hvol. apply creates_newVolume in Hr as (id & Ht & [Hs|[-> ->]]); [|by eauto|done|done].
  destruct Hs as (_ & _ & _ & cfgJ & stJ & _ & _ & Hg & _). by destruct (fresh_vol _ _ HI (avg_free _ _ _ _ _ Hg)).
Qed.

(** C25: Removing a volume without [force], on any lock manager that follows the laws of the
    interface, from a handle that is valid and a database that is open and working.  A volume that a
    container uses is not touched: the answer is [ErrVolumeBeingUsed] (or a panic of the lock), and
    the state and the host are as they were.  When the removal succeeds, the volume is gone from a
    consistent state, and what happened to the locks is that the lock of the volume was taken, freed
    and given back, each with success; freeing it freed this lock and no other, and every other lock
    that was allocated still is.  (The laws let a manager allocate the lock again when it is given
    back after it was freed.) *)
Theorem removeVolume_outcome removeContainer timeout ignoreVolumePlugin config plugin st lock (w w' : W) r :
  loaded config plugin st w → vol_lock (v_vol w) = Some lock → valid (v_locks w) → (0 ≤ lock < 2 ^ 32)%Z →
  rt_removeVolume removeContainer false timeout ignoreVolumePlugin w = (r, w') →
  (∀ c, uses_volume (w_db (v_db w)) c (vc_Name config) → (r = Err ErrVolumeBeingUsed ∨ r = Err Panic) ∧ v_db w' = v_db w ∧ v_host w' = v_host w) ∧
  (r = Ok () → Inv (w_db (v_db w')) ∧ ¬ is_vol (w_db (v_db w')) (vc_Name config) ∧
     (∃ l1 l2, Lock lock (v_locks w) = (Ok (), l1) ∧ Free lock l1 = (Ok (), l2) ∧ Unlock lock l2 = (Ok (), v_locks w') ∧ frees valid allocated l1 lock l2) ∧
     ∀ i, i ≠ lock → allocated (v_locks w) i → allocated (v_locks w') i).
Proof.
  intros Hl Hlk Hv Hid. unfold rt_removeVolume. erewrite st_bind_run by reflexivity. rewrite (ld_valid _ _ _ _ Hl), Hlk. cbn [negb]. intros Hr.
  assert (∀ l : L, loaded config plugin st (mkVWorld l (v_db w) (v_host w) (v_vol w))) as Hl' by by destruct Hl.
  apply holding_run in Hr as [[-> Hp]|(l & w1 & Hlock & Hm & Hd & Hh & Hu)]; split; try done.
  - intros c Hc. split; [by right|]. destruct Hp as [Hp|(l & x & w1 & Hm & Hd & Hh)]; [done|].
    destruct (vol_remove_used removeContainer _ _ _ timeout ignoreVolumePlugin lock c _ (Hl' l) Hc) as (w2 & E & Hd2 & Hh2 & _). rewrite E in Hm.
    injection Hm as _ ->. rewrite Hd, Hh. done.
  - intros c Hc. destruct (vol_remove_used removeContainer _ _ _ timeout ignoreVolumePlugin lock c _ (Hl' l) Hc) as (w2 & E & Hd2 & Hh2 & _). rewrite E in Hm.
    injection Hm as <- ->. rewrite Hd, Hh. split; [by left|done].
  - intros ->. apply (vol_remove_removes removeContainer) in Hm as (HI & Hgone & Hf); [|apply Hl]. simpl in *. unfold vol_Name in Hgone.
    rewrite (ld_config _ _ _ _ Hl) in Hgone. rewrite Hd. destruct (Lock_law _ _ _ _ Hv Hid Hlock) as [Hv1 Hk1].
    pose proof (Free_law _ _ _ _ Hv1 Hid Hf) as Hfr. destruct (Unlock_law _ _ _ _ (proj1 Hfr) Hid Hu) as [_ Hk2].
    split_and!; [done|done|by exists l, (v_locks w1)|]. intros i Hne Hi. apply Hk2, Hfr. split; [done|by apply Hk1].
Qed.

Context `{!MountLaws X}.

(** C24: The counter of mounts is right, as long as nobody else touches the mounts: over any history of
    mounts and unmounts of a volume that needs a mount, the stored counter is the number of users
    that the successful calls leave, the volume is mounted exactly once while there are any, and
    not at all otherwise, and nothing else is mounted or unmounted.  Mount and unmount commands may
    fail at any point.  The assumptions: a command that fails changes no mount, one that succeeds
    changes the one it is for, and a volume is reported as not mounted only when it is not
    ([MountLaws]); the volume is loaded from a database that is open and working ([loaded]), every
    state that the calls reach can be stored ([readable]), and the counter does not overflow.  A
    mount that somebody else takes away is the case of [lost_mount_stays_counted], and there the
    counter goes wrong. *)
Theorem mounts_counted config plugin calls n (w : W) : needsMount config = true → counted config plugin n w → (0 ≤ n)%Z →
  (n + Z.of_nat (length calls) < 2 ^ 64)%Z → Forall (λ x, readable x.2) (history calls w) →
  counted config plugin (tally n (history calls w)) (after w (history calls w)) ∧ others config plugin w (after w (history calls w)).
Proof. intros. by apply history_counted. Qed.

(** C26: A mount that was lost is never made again: when a local volume with one user is no longer
    mounted, unmounting it succeeds but does not store the new counter, so that the next user
    gets the volume without a mount. *)
Theorem lost_mount_stays_counted config plugin st (w : W) h : needsMount config = true → loaded config plugin st w → vs_MountCount st = 1%Z →
  UsesVolumeDriver config = false → vc_Driver config ≠ "image" → mounted (v_host w) (OnPath (vc_MountPoint config)) = 0 →
  vh_detachUnmount (vc_MountPoint config) (v_host w) = (NotMounted, h) → storable (vs_set_MountCount 2 st) →
  ∃ w1 w2, vol_unmount false w = (Ok (), w1) ∧ vol_mount w1 = (Ok (), w2) ∧ mounted (v_host w2) (OnPath (vc_MountPoint config)) = 0 ∧
    loaded config plugin (vs_set_MountCount 2 st) w2.
Proof. intros. by eapply lost_mount. Qed.
End claims.

(** ** Witnesses

    A host that only knows what is mounted, the lock manager in memory with four locks, and the
    state of [TestRuntime] with a volume that needs a mount. *)

Fixpoint dropMount (t : mountTarget) (l : list mountTarget) : option (list mountTarget) :=
  match l with
  | [] => None
  | x :: l => if decide (x = t) then Some l else cons x <$> dropMount t l
  end.

Definition times (l : list mountTarget) (t : mountTarget) : nat := length (filter (λ x, x = t) l).

Lemma dropMount_times t l l' t' : dropMount t l = Some l' → times l' t' + plus1 (Some t) t' = times l t'.
Proof.
  unfold times, plus1. revert l'. induction l as [|x l IH]; simpl; [done|]. intros l'. destruct (decide (x = t)) as [->|Hne].
  - intros [= <-]. rewrite filter_cons. destruct (decide (t = t')) as [->|]; [rewrite decide_True by done; simpl; lia|]. rewrite decide_False by congruence. lia.
  - intros (l1 & E & ->)%fmap_Some. rewrite !filter_cons. specialize (IH l1 E). destruct (decide (x = t')); simpl; lia.
Qed.

Lemma dropMount_none t l : dropMount t l = None → times l t = 0.
Proof.
  unfold times. induction l as [|x l IH]; simpl; [done|]. destruct (decide (x = t)) as [->|]; [done|]. intros E%fmap_None. rewrite filter_cons, decide_False by done. by apply IH.
Qed.

Definition hostRequest (q : volRequest) (h : list mountTarget) : result error string * list mountTarget :=
  match mounts q, unmounts q with
  | Some t, _ => (Ok "/mnt", t :: h)
  | None, Some t => match dropMount t h with Some h' => (Ok "", h') | None => (Err ErrHost, h) end
  | None, None => (Ok "", h)
  end.

Definition hostDetach (p : string) (h : list mountTarget) : unmountResult * list mountTarget :=
  match dropMount (OnPath p) h with Some h' => (Unmounted, h') | None => (NotMounted, h) end.

#[export] Instance testHost : VolumeHost (list mountTarget) := {|
  vh_request := hostRequest;
  vh_detachUnmount := hostDetach;
  vh_getVolume := λ _ _ h, (Ok true, h);
  vh_quotaSupported := λ h, (false, h);
  vh_randomID := λ h, ("0123456789ab", h);
  vh_now := λ h, (0%Z, h);
  vh_order := map_to_list;
  vh_plugins := [];
  vh_openPlugin := λ _ h, (Err ErrHost, h);
  vh_listVolumes := λ _ h, (Ok [], h) |}.

#[export] Program Instance testHost_laws : MountLaws (list mountTarget) := {| mounted := times |}.
Next Obligation.
  intros q h r h' t. simpl. unfold hostRequest. destruct (mounts q) as [m|] eqn:Em.
  - intros [= <- <-]. assert (unmounts q = None) as -> by by destruct q. unfold times, plus1. rewrite filter_cons.
    repeat case_decide; simplify_eq; simpl; lia.
  - destruct (unmounts q) as [u|]; [|intros [= <- <-]; done]. destruct (dropMount u h) as [l|] eqn:E; intros [= <- <-]; [|done].
    rewrite (dropMount_times _ _ _ t E). unfold plus1. simpl. lia.
Qed.
Next Obligation.
  intros p h r h' t. simpl. unfold hostDetach. destruct (dropMount (OnPath p) h) as [l|] eqn:E; intros [= <- <-]; [by apply dropMount_times|].
  split; [by apply dropMount_none|done].
Qed.

Definition tmpfs : list VolumeCreateOption :=
  [WithVolumeName "scratch"; WithVolumeOptions {["type" := "tmpfs"]}; WithVolumeIgnoreIfExist].

Definition locks4 : InMemoryManager := mkInMemoryManager ((λ i, mkMutex (Z.of_nat i) false false) <$> seq 0 4) 4.
Definition vworld0 : VWorld InMemoryManager (list mountTarget) := mkVWorld locks4 emptyWorld [] volV.
Definition vworld1 : VWorld InMemoryManager (list mountTarget) := (rt_newVolume false tmpfs vworld0).2.
Definition vworld2 : VWorld InMemoryManager (list mountTarget) := (rt_newVolume false tmpfs vworld1).2.
Definition scratch : Define.Volume := v_vol vworld1.

Lemma locks4_valid : LocksMemory.valid locks4.
Proof. by apply (NewInMemoryManager_valid 4 locks4). Qed.

Lemma pair_run {A B} (x : A * B) a : x.1 = a → x = (a, x.2).
Proof. destruct x. by intros <-. Qed.

Lemma vworld1_run : rt_newVolume false tmpfs vworld0 = (Ok scratch, vworld1).
Proof. unfold vworld1. apply (pair_run (rt_newVolume false tmpfs vworld0) (Ok scratch)). vm_compute. reflexivity. Qed.
Lemma vworld2_run : rt_newVolume false tmpfs vworld1 = (Ok scratch, vworld2).
Proof. unfold vworld2. apply (pair_run (rt_newVolume false tmpfs vworld1) (Ok scratch)). vm_compute. reflexivity. Qed.

Lemma vworld1_ok : LocksMemory.valid (v_locks vworld1) ∧ Inv (w_db (v_db vworld1)).
Proof.
  pose proof (creates_newVolume false tmpfs vworld0 (Ok scratch) vworld1 locks4_valid emptyWorld_inv vworld1_run) as (id & (Hv & _) & Hdb). split; [done|].
  destruct Hdb as [(_ & _ & _ & cfgJ & stJ & _ & _ & Hg & ->)|[_ ->]]; [|apply emptyWorld_inv]. by apply vol_added_inv, Hg; apply emptyWorld_inv.
Qed.

Lemma vworld1_loaded : loaded (vol_config scratch) None (mkVolumeState "" 0 true true 0 0) vworld1.
Proof.
  constructor.
  - apply readyb_ready. vm_compute. reflexivity.
  - apply vworld1_ok.
  - split; [vm_compute; reflexivity|]. eexists. split; vm_compute; reflexivity.
  - vm_compute. reflexivity.
  - vm_compute. reflexivity.
  - vm_compute. reflexivity.
Qed.

Definition storableb (st : VolumeState) : bool := match marshal st with Ok js => value_ok js | Err _ => false end.
Definition readableb {L X} (w : VWorld L X) : bool := match vol_state (v_vol w) with Some st => storableb st | None => true end.

Lemma storableb_ok st : storableb st = true → storable st.
Proof. unfold storableb, storable. destruct (marshal st) as [js|]; [|done]. by exists js. Qed.

Lemma readableb_ok {L X} (w : VWorld L X) : readableb w = true → readable w.
Proof. unfold readableb. intros Hb st Hst. rewrite Hst in Hb. by apply storableb_ok. Qed.

Lemma readable_all {L X} (h : list (mountCall * bool * VWorld L X)) : forallb (λ x, readableb x.2) h = true → Forall (λ x, readable x.2) h.
Proof.
  induction h as [|x h IH]; simpl; [constructor|]. intros [Hx Hh]%andb_true_iff. constructor; [by apply readableb_ok|by apply IH].
Qed.

Lemma newVolume_outcome_witness : created true vworld0 (Ok scratch) vworld1.
Proof. apply (newVolume_outcome false tmpfs vworld0 vworld1 (Ok scratch)); [exact locks4_valid|exact emptyWorld_inv|exact vworld1_run]. Defined.

Lemma existing_volume_leaks_lock_witness : w_db (v_db vworld2) = w_db (v_db vworld1) ∧ v_locks vworld2 ≠ v_locks vworld1.
Proof.
  destruct (existing_volume_leaks_lock false tmpfs vworld1 vworld2 scratch) as (_ & Hdb & id & Ht).
  - apply vworld1_ok.
  - apply vworld1_ok.
  - exact vworld2_run.
  - vm_compute. reflexivity.
  - split; [exact Hdb|]. intros E. destruct Ht as (_ & _ & Hn & Hal). apply Hn. rewrite <- E. apply Hal. left. reflexivity.
Defined.

Definition noContainers : Define.Container → bool → option Z → ST error (VWorld InMemoryManager (list mountTarget)) () := λ _ _ _, throw ErrText.

Lemma removeVolume_outcome_witness :
  ¬ is_vol (w_db (v_db (rt_removeVolume noContainers false None false vworld1).2)) "scratch" ∧
  ∃ l1 l2, Lock 0 (v_locks vworld1) = (Ok (), l1) ∧ Free 0 l1 = (Ok (), l2) ∧ ¬ allocated l2 0.
Proof.
  destruct (removeVolume_outcome noContainers None false (vol_config scratch) None (mkVolumeState "" 0 true true 0 0) 0 vworld1
    (rt_removeVolume noContainers false None false vworld1).2 (Ok ())) as [_ Hok].
  - exact vworld1_loaded.
  - reflexivity.
  - apply vworld1_ok.
  - lia.
  - apply (pair_run (rt_removeVolume noContainers false None false vworld1) (Ok ())). vm_compute. reflexivity.
  - destruct (Hok eq_refl) as (_ & Hgone & (l1 & l2 & E1 & E2 & _ & Hfr) & _). split; [exact Hgone|]. exists l1, l2.
    split; [exact E1|]. split; [exact E2|]. intros Ha. apply Hfr in Ha as [Ha _]. by apply Ha.
Defined.

Definition callsW : list mountCall := [CallMount; CallMount; CallUnmount false; CallUnmount true; CallMount].

Lemma mounts_counted_witness : counted (vol_config scratch) None 1 (after vworld1 (history callsW vworld1)).
Proof.
  destruct (mounts_counted (vol_config scratch) None callsW 0 vworld1) as [Hc _].
  - vm_compute. reflexivity.
  - exists (mkVolumeState "" 0 true true 0 0). split; [exact vworld1_loaded|]. split; [reflexivity|]. intros t _. reflexivity.
  - lia.
  - vm_compute. reflexivity.
  - apply readable_all. vm_compute. reflexivity.
  - replace (tally 0 (history callsW vworld1)) with 1%Z in Hc by (vm_compute; reflexivity). exact Hc.
Defined.

Lemma vkeeps_mount {L X} `{Manager L, VolumeHost X} : vkeeps (vol_mount : ST error (VWorld L X) ()).
Proof. unfold vol_mount, reallyMount. auto 20 with volumes. Qed.

(** The volume is mounted, and the mount disappears. *)
Definition vworldMounted : VWorld InMemoryManager (list mountTarget) := (vol_mount vworld1).2.
Definition vworldLost : VWorld InMemoryManager (list mountTarget) :=
  mkVWorld (v_locks vworldMounted) (v_db vworldMounted) [] (v_vol vworldMounted).

Lemma vworldMounted_inv : Inv (w_db (v_db vworldMounted)).
Proof. apply (vkeeps_mount vworld1 (vol_mount vworld1).1 vworldMounted); [apply vworld1_ok|unfold vworldMounted; apply surjective_pairing]. Qed.

Lemma vworldMounted_loaded : loaded (vol_config scratch) None (mkVolumeState "" 1 true true 0 0) vworldMounted.
Proof.
  constructor.
  - apply readyb_ready. vm_compute. reflexivity.
  - exact vworldMounted_inv.
  - split; [vm_compute; reflexivity|]. eexists. split; vm_compute; reflexivity.
  - vm_compute. reflexivity.
  - vm_compute. reflexivity.
  - vm_compute. reflexivity.
Qed.

Lemma loaded_host {L X} config plugin st (w : VWorld L X) (h : X) : loaded config plugin st w → loaded config plugin st (mkVWorld (v_locks w) (v_db w) h (v_vol w)).
Proof. by intros []. Qed.

Lemma lost_mount_stays_counted_witness : ∃ w1 w2, vol_unmount false vworldLost = (Ok (), w1) ∧ vol_mount w1 = (Ok (), w2) ∧ v_host w2 = [].
Proof.
  destruct (lost_mount_stays_counted (vol_config scratch) None (mkVolumeState "" 1 true true 0 0) vworldLost []) as (w1 & w2 & E1 & E2 & _).
  - vm_compute. reflexivity.
  - apply loaded_host. exact vworldMounted_loaded.
  - reflexivity.
  - vm_compute. reflexivity.
  - vm_compute. congruence.
  - reflexivity.
  - vm_compute. reflexivity.
  - apply storableb_ok. vm_compute. reflexivity.
  - exists w1, w2. split; [exact E1|]. split; [exact E2|]. assert (v_host w2 = v_host (vol_mount (vol_unmount false vworldLost).2).2) as -> by (rewrite E1; simpl; by rewrite E2).
    vm_compute. reflexivity.
Defined.
